(* ===== verification/_CoqProject ===== *)
-Q . S2P
Prelude.v
Bytes.v
Fcall.v
FcallProps.v
Stat.v
StatProps.v
Rune.v
RuneProps.v
Token.v
TokenLex.v
TokenProps.v
FieldProps.v
Clean.v
CleanProps.v
Strtol.v
StrtolProps.v
Qsort.v
QsortProps.v
Intmap.v
Srv.v
SrvInv.v
SrvProps.v
SrvSteps.v
SrvNil.v
SrvRun.v
Qio.v
QioProps.v
Qlock.v
Avl.v
AvlProps.v
AvlWalk.v
Chan.v
ChanInv.v
ChanSys.v
ChanKeep.v
ChanProps.v
ChanRun.v
Filetree.v
FiletreeInv.v
FiletreeProps.v
FiletreeOps.v
FiletreeWalk.v
FiletreeRead.v
FiletreeRun.v
FiletreeProg.v
SrvTree.v
Mnt.v
MntRead.v
MntInv.v
MntSys.v
MntStep.v
MntRun.v
MntGate.v
MntCase.v
Sema.v
SemaInv.v
SemaList.v
SemaStep.v
SemaWait.v
SemaWalk.v
SemaRun.v
SemaCount.v
SemaCase.v
