(* ===== verification/Prelude.v ===== *)
(** * A verification of parts of Plan 9

    The development models core code of the system under sys/src - the 9P protocol, the
    file server library with its file trees, UTF-8, the routines of libc that quote, cut up,
    clean and convert strings and sort arrays, the I/O queues, the sleeping locks, the semaphores and
    the mount driver of the kernel, balanced trees and the channels of the thread library -
    as executable Gallina definitions that follow the C routines name by name, and proves
    what makes them correct.  This file is the prelude of the others; the first part of its
    comment describes the whole.

    ** The parts and how they interact

    A 9P connection carries messages.  The kernel moves their bytes in block queues;
    read9pmsg cuts the stream into messages again; convM2S decodes a message into a struct
    Fcall, and convS2M encodes one; directory entries inside messages have a codec of their
    own, convM2D and convD2M, and names are UTF-8.  The server library reads a message,
    keeps the request in a pool by its tag and the fids in a pool by their number (both are
    hash tables), hands the request to the server program through the callbacks of
    struct Srv, or serves it from a tree of files that the program has made, and encodes and
    sends the answer when the program calls respond.  At the other end the mount driver of
    the kernel sends the requests of processes and gives the replies to them.  Sleeping
    locks, semaphores, AVL trees, channels and the text routines of libc are the facilities
    such programs and the kernel are built from.

    - {!Bytes}, {!Fcall}, {!FcallProps}: include/fcall.h, libc/9sys/convM2S.c and
      convS2M.c.  A [char*] is an option of a byte string, a pointer into a message the
      bytes from there to its end.
    - {!Stat}, {!StatProps}: libc/9sys/convD2M.c, convM2D.c, dirread.c (dirpackage),
      read9pmsg.c, libc/port/readn.c.  read(2) is a parameter with its documented
      behaviour; the codec runs on one memory, as lib9p has it copy strings in place.
    - {!Rune}, {!RuneProps}: libc/port/rune.c, the utf*.c files and the byte-string
      routines they use.
    - {!Token}, {!TokenLex}, {!TokenProps}, {!FieldProps}: libc/port/tokenize.c, quote.c and
      getfields.c, and _quotesetup of libc/fmt/fmtquote.c.  The routines write into the string
      they are given; a string is a place in a buffer, and so are the tokens and fields.
    - {!Clean}, {!CleanProps}: libc/port/cleanname.c, on the same kind of buffer.
    - {!Strtol}, {!StrtolProps}: libc/port/strtol.c, strtoll.c, strtoul.c, strtoull.c, atol.c
      and atoll.c, in the integers of their types.
    - {!Qsort}, {!QsortProps}: libc/port/qsort.c, on memory as bytes with elements of any
      size; the comparison is a parameter.
    - {!Intmap}: lib9p/intmap.c; the table is its array of chains.
    - {!Srv}, {!SrvInv}, {!SrvProps}, {!SrvSteps}, {!SrvNil}, {!SrvRun}: lib9p/fid.c, req.c and srv.c.
      Fids and requests are two heaps with reference counts; every handler, the completion
      of every answer and the loop of srv are operations of a state and error monad; the
      program's callbacks are recorded and answered by a later step; the file tree is the
      type class FileTree.  It calls {!Intmap}, {!Stat} and {!Fcall} where the code does.
    - {!Filetree}, {!FiletreeInv}, {!FiletreeProps}, {!FiletreeOps}, {!FiletreeWalk},
      {!FiletreeRead}, {!FiletreeRun}, {!FiletreeProg}: lib9p/file.c and uid.c.  Files are a
      heap, with a free list whose addresses are used again; directories are lists of cells
      with addresses, which a Readdir points into.  A program is a sequence of steps, one
      for each section of file.c under its locks, and of the references it holds.
    - {!SrvTree}: the file trees as an instance of the class FileTree, under a server.
    - {!Qio}, {!QioProps}: 9/port/qio.c, allocb.c.  A queue is its chain of blocks; where a
      routine sleeps, its outcome says so.
    - {!Qlock}: 9/port/qlock.c.  The lists of waiting processes are threaded through
      [qnext] as in the code.
    - {!Sema}, {!SemaInv}, {!SemaList}, {!SemaStep}, {!SemaWait}, {!SemaWalk}, {!SemaRun},
      {!SemaCount}, {!SemaCase}: the semaphores of 9/port/sysproc.c, with sleep, tsleep,
      twakeup, wakeup and postnote of proc.c as they use them.  A process is the place in
      semacquire, tsemacquire or semrelease where it is; each access to a value or to the
      flag of a waiting process ends a step, as does the section under the lock of the
      segment; timers and notes come at any time.
    - {!Mnt}, {!MntRead}, {!MntInv}, {!MntSys}, {!MntStep}, {!MntRun}, {!MntGate}, {!MntCase}:
      9/port/devmnt.c from mountrpc down, and wakeup of proc.c.  Requests are a heap with a
      free list; a process is the place in mountio where it is, and every section under a
      lock and every test without one is a step of it; what bread and write do is an
      argument of the step.  Messages are read with {!Qio} and {!Fcall}.
    - {!Avl}, {!AvlProps}, {!AvlWalk}: libavl/avl.c.  A tree carries its addresses, stored
      parent pointers and balances; walks are addresses with the flags started and moved.
    - {!Chan}, {!ChanInv}, {!ChanSys}, {!ChanKeep}, {!ChanProps}, {!ChanRun}:
      libthread/channel.c and rendez.c.  Every section under the lock chanlock is one step
      of a system of threads, channels and memory; a thread stops between sections where
      the code calls _threadrendezvous.

    In each part the definitions keep the names of the code; loops of a routine are
    definitions of their own, named after it.  The outcome of a routine is the monad [res]
    below: its normal result, its own error return (or abort, panic or a failed assertion,
    where the file says so), or a step that C leaves undefined.

    ** What the theorems show

    - {!FcallProps}: encoding then decoding a message gives it back, with the size
      sizeS2M computes; the decoder reads only the buffer it is given, whatever the bytes;
      what it accepts is well formed and can be sent on; the encoder depends on the message
      only.
    - {!StatProps}: the same round trip, safety and exact acceptance for directory
      entries, also with strings copied over the message; read9pmsg gives the messages of a
      stream however it is cut up, and with the codec what was sent; dirpackage gives the
      entries of a directory read.
    - {!RuneProps}: a rune survives encoding and decoding; decoding accepts exactly
      the canonical encodings and stops at a NUL; counting, searching and copying text agree
      with its sequence of runes and stay inside the string.
    - {!TokenProps}, {!FieldProps}: quoted strings come out of tokenize as they were; tokens
      and fields are those of a reference lexer, found in place; the room a quoted string
      needs is computed exactly.
    - {!CleanProps}: cleanname gives the name that a reference on elements gives; cleaning
      twice is cleaning once; and on which names it leaves the string.
    - {!StrtolProps}: a conversion gives the value of the number, held to its range.
    - {!QsortProps}: qsort sorts, and with any comparison returns a rearrangement.
    - {!Intmap}: the table refines a finite map.
    - {!QioProps}: routines on chains of blocks keep bytes; a queue is a byte stream;
      reads return what was first; writers wait only at the limit and are woken.
    - {!Qlock}: the lock refines an abstract fair lock; a readers-writer lock
      excludes writers and loses no wakeup.
    - {!SrvRun}: in every state a server can reach the reference counts are right,
      nothing freed is used, every message has at most one answer and gets it when the
      program answers, flushes are answered after what they flush, respond ends; and what
      happens on duplicate tags, messages that are not requests, and unknown versions; and
      which requests go through a nil pointer of the file tree.
    - {!FiletreeProg}: whatever a program does with the files it holds, reference counts are
      exact and nothing freed is used, but for two steps, which are characterised; the
      hierarchy changes as its specification says; a path leads where its elements lead; a
      directory being read while it changes is read without loss or repetition; a file is
      destroyed with its last reference.
    - {!SemaRun}, {!SemaCount}: a process asleep for a semaphore that has units left does not
      wait in vain; no step panics or uses the record of a call that has returned, but for a
      late timer, which is characterised; the value accounts for what was added and taken;
      and each call answers what it did.  {!SemaCase} has runs, among them the late timer and
      a value that overflows.
    - {!MntRead}, {!MntRun}, {!MntGate}: messages are taken whole off the stream; in every
      state that calls of mountrpc can reach no freed request is used but in one step, which
      is characterised; tags are unique and requests are neither lost nor shared; a reply
      goes to the request with its tag, and a call returns its own; a process does not wait
      while nobody reads, as long as writes do not fail.  {!MntCase} has runs that show where
      the code falls short.
    - {!AvlWalk}: a tree refines a sorted list and is in balance; searches give the
      neighbour asked for; walks enumerate it, survive changes of the tree, and turn round.
    - {!ChanRun}: in every state threads can reach, no operation on channels aborts
      or touches freed memory; no sender misses a receiver and a chosen thread is met;
      channels are queues.

    Lemmas that evaluate a boundary case, among them the ones on which the code does not do
    what it means to, follow the theorems of their file.

    ** Bounds and fuel

    Machine integers are in [Z], with their wrap-around written out ([u8], [u16], [u32],
    [u64], [s32] below).  Loops that are not structural take fuel, and exhausting it is
    [Ub], so that every theorem that a result is not [Ub] also says that the fuel is
    enough.  Loops over a string have one unit more than the bytes of its object, and so have
    those of qsort over the memory; qsorts, which calls itself, has one level more than the
    elements; loops over blocks one more than the blocks, and loops that cut memory into blocks one more than its
    bytes, as each turn takes at least one; climb has one unit more than the
    nodes of the tree; respond and closereq, which call each other, have
    the number of requests with a reserve, and {!SrvRun} shows that more gives the same.

    ** Not modelled

    Of the parts above: statistics, debugging prints, profiling counters, the freeing of
    pools when a server ends, the print formats of fmtquote.c, and user programs that change
    the value of a semaphore without the system calls.  Of the system: the scheduler, memory
    and name space of the kernel, the operations on files of its mount driver, its network
    stack, print formats, floating-point numbers and the malloc pools of libc, the storage, text
    and cryptographic libraries are code of the same kind, left out for their size.  Device
    drivers, boot loaders, graphics, compilers, user commands, games and the POSIX
    environment are left out as they are hardware access, large programs of their own, or
    third-party code.  Interrupts are represented where a routine can be interrupted
    (channels, the mount driver, semaphores); spin locks are not in the other parts, where a
    routine that holds one is one step.  The references that the fids of a server hold to
    files are an instance of FileTree ({!SrvTree}), not the holds of a program of
    {!FiletreeRun}.

    ** The prelude

    Shared notation, the error monad, machine integers, tactics: the outcome monad [res],
    record update, fixed-width integers (C's unsigned and signed wrap-around), byte strings
    and NUL-terminated strings, and the tactics and hint databases. *)

From stdpp Require Export base tactics list gmap numbers.

#[global] Open Scope Z_scope.

(** ** Outcomes of a C routine

    [Ok a] is a normal return, [Err] the routine's own error return (the value
    the caller tests for), and [Ub] an access outside an object or another step
    C leaves undefined.  Absence of [Ub] is memory safety. *)
Inductive res (A : Type) : Type :=
  | Ok (a : A)
  | Err
  | Ub.
Arguments Ok {A} a.
Arguments Err {A}.
Arguments Ub {A}.

#[export] Instance res_ret : MRet res := @Ok.
#[export] Instance res_bind : MBind res := λ A B k m,
  match m with Ok a => k a | Err => Err | Ub => Ub end.

Definition res_of_option {A} (o : option A) : res A :=
  match o with Some a => Ok a | None => Ub end.

#[export] Instance res_eq_dec {A} `{EqDecision A} : EqDecision (res A).
Proof. solve_decision. Defined.

(** [safe m]: the routine never leaves the objects it was given. *)
Definition safe {A} (m : res A) : Prop := m ≠ Ub.

Lemma bind_Ok {A B} (m : res A) (k : A → res B) b :
  (m ≫= k) = Ok b ↔ ∃ a, m = Ok a ∧ k a = Ok b.
Proof. destruct m; simpl; naive_solver. Qed.

Lemma bind_Ub {A B} (m : res A) (k : A → res B) :
  (m ≫= k) = Ub ↔ m = Ub ∨ ∃ a, m = Ok a ∧ k a = Ub.
Proof. destruct m; simpl; naive_solver. Qed.

Lemma safe_bind {A B} (m : res A) (k : A → res B) :
  safe m → (∀ a, m = Ok a → safe (k a)) → safe (m ≫= k).
Proof. unfold safe. destruct m; simpl; naive_solver. Qed.

Lemma safe_Ok {A} (a : A) : safe (Ok a).
Proof. done. Qed.

Lemma safe_Err {A} : safe (@Err A).
Proof. done. Qed.

Create HintDb p9 discriminated.
#[export] Hint Resolve safe_Ok safe_Err : p9.

(** ** Record update

    [r <| f := v |>] is C's assignment to one member of a struct.  A record
    type declares how it is rebuilt from its projections; the setter of each
    projection is then found by abstracting that projection. *)
Class Rebuild (R : Type) := rebuild : R → R.

Class Update {R T : Type} (proj : R → T) := update : (T → T) → R → R.

Ltac find_update :=
  lazymatch goal with
  | |- @Update ?R ?T ?proj =>
      let inst := constr:(_ : Rebuild R) in
      let whole := eval red in inst in
      let parts := eval pattern proj in whole in
      lazymatch parts with
      | ?body _ => exact (λ g, body (λ r, g (proj r)))
      end
  end.
#[export] Hint Extern 0 (Update _) => find_update : typeclass_instances.

Declare Scope update_scope.
Notation "r <| f := v |>" := (update (proj := f) (λ _, v) r)
  (at level 1, f at next level, v at level 200, left associativity)
  : update_scope.
#[global] Open Scope update_scope.

(** ** Fixed-width integers *)
Definition u8 (z : Z) : Z := z `mod` 2 ^ 8.
Definition u16 (z : Z) : Z := z `mod` 2 ^ 16.
Definition u32 (z : Z) : Z := z `mod` 2 ^ 32.
Definition u64 (z : Z) : Z := z `mod` 2 ^ 64.

(** Two's-complement reading of a [w]-bit pattern. *)
Definition signed (w z : Z) : Z :=
  let r := z `mod` 2 ^ w in if decide (r < 2 ^ (w - 1)) then r else r - 2 ^ w.
Definition s8 (z : Z) : Z := signed 8 z.
Definition s32 (z : Z) : Z := signed 32 z.
Definition s64 (z : Z) : Z := signed 64 z.

Definition is_u8 (z : Z) : Prop := 0 ≤ z < 2 ^ 8.
Definition is_u16 (z : Z) : Prop := 0 ≤ z < 2 ^ 16.
Definition is_u32 (z : Z) : Prop := 0 ≤ z < 2 ^ 32.
Definition is_u64 (z : Z) : Prop := 0 ≤ z < 2 ^ 64.
Definition is_s32 (z : Z) : Prop := - 2 ^ 31 ≤ z < 2 ^ 31.
Definition is_s64 (z : Z) : Prop := - 2 ^ 63 ≤ z < 2 ^ 63.

(** Unfold the range predicates and evaluate the powers of two, for [lia]. *)
Ltac ranges :=
  unfold is_u8, is_u16, is_u32, is_u64, is_s32, is_s64, u8, u16, u32, u64 in *;
  change (2 ^ 8) with 256 in *; change (2 ^ 16) with 65536 in *;
  change (2 ^ 31) with 2147483648 in *; change (2 ^ 32) with 4294967296 in *;
  change (2 ^ 63) with 9223372036854775808 in *;
  change (2 ^ 64) with 18446744073709551616 in *.

(** [lia] over division and remainder by constants. *)
Ltac divlia := Z.to_euclidean_division_equations; lia.

Lemma u8_small z : is_u8 z → u8 z = z.
Proof. intros; apply Z.mod_small; done. Qed.
Lemma u16_small z : is_u16 z → u16 z = z.
Proof. intros; apply Z.mod_small; done. Qed.
Lemma u32_small z : is_u32 z → u32 z = z.
Proof. intros; apply Z.mod_small; done. Qed.
Lemma u64_small z : is_u64 z → u64 z = z.
Proof. intros; apply Z.mod_small; done. Qed.

Lemma u8_range z : is_u8 (u8 z).
Proof. apply Z.mod_pos_bound. done. Qed.
Lemma u16_range z : is_u16 (u16 z).
Proof. apply Z.mod_pos_bound. done. Qed.
Lemma u32_range z : is_u32 (u32 z).
Proof. apply Z.mod_pos_bound. done. Qed.
Lemma u64_range z : is_u64 (u64 z).
Proof. apply Z.mod_pos_bound. done. Qed.

Lemma s64_u64 z : is_s64 z → s64 (u64 z) = z.
Proof. intros H. unfold s64, signed. ranges. change (2 ^ (64 - 1)) with 9223372036854775808.
  rewrite Z.mod_mod by done. case_decide.
  - destruct (decide (0 ≤ z)); [by apply Z.mod_small; lia |].
    rewrite <- (Z.mod_add z 1) in * by done. rewrite Z.mod_small in * by lia. lia.
  - destruct (decide (0 ≤ z)); [rewrite Z.mod_small in * by lia; lia |].
    rewrite <- (Z.mod_add z 1) in * by done. rewrite Z.mod_small in * by lia. lia.
Qed.

Lemma s64_range z : is_s64 (s64 z).
Proof.
  unfold s64, signed. ranges. change (2 ^ (64 - 1)) with 9223372036854775808.
  pose proof (Z.mod_pos_bound z 18446744073709551616 ltac:(done)).
  case_decide; lia.
Qed.

Lemma u64_s64 z : is_u64 z → u64 (s64 z) = z.
Proof.
  unfold s64, signed. ranges. change (2 ^ (64 - 1)) with 9223372036854775808. intros.
  rewrite (Z.mod_small z) by lia. case_decide; [by apply Z.mod_small; lia |].
  rewrite <- (Z.mod_add _ 1) by done. rewrite Z.mod_small; lia.
Qed.

#[export] Hint Resolve u8_range u16_range u32_range u64_range s64_range : p9.

(** ** Byte strings

    A region of memory is the list of its bytes, each a [Z] in 0..255. *)
Definition bytes_ok (l : list Z) : Prop := Forall is_u8 l.

Abbreviation len l := (Z.of_nat (length l)).

Definition takeZ (n : Z) (l : list Z) : list Z := take (Z.to_nat n) l.
Definition dropZ (n : Z) (l : list Z) : list Z := drop (Z.to_nat n) l.

(** The characters [strlen] sees: everything before the first NUL. *)
Fixpoint cstring (l : list Z) : list Z :=
  match l with
  | [] => []
  | c :: l => if decide (c = 0) then [] else c :: cstring l
  end.

(** A string a [char*] can denote: bytes none of which is NUL. *)
Definition str_ok (s : list Z) : Prop := Forall (λ c, is_u8 c ∧ c ≠ 0) s.

#[export] Instance is_u8_dec z : Decision (is_u8 z).
Proof. unfold is_u8. apply _. Defined.
#[export] Instance is_u32_dec z : Decision (is_u32 z).
Proof. unfold is_u32. apply _. Defined.
#[export] Instance bytes_ok_dec l : Decision (bytes_ok l).
Proof. unfold bytes_ok. apply _. Defined.
#[export] Instance str_ok_dec s : Decision (str_ok s).
Proof. unfold str_ok. apply _. Defined.

(** Prove a closed decidable proposition by evaluating its decision. *)
Ltac by_decide := apply (bool_decide_unpack _); vm_compute; exact I.

Lemma cstring_nonul s : str_ok s → cstring s = s.
Proof.
  induction 1 as [|c s [_ Hc] _ IH]; simpl; [done |].
  rewrite decide_False by done. by rewrite IH.
Qed.

Lemma cstring_app_nul s t : str_ok s → cstring (s ++ 0 :: t) = s.
Proof.
  induction 1 as [|c s [_ Hc] _ IH]; simpl; [done |].
  rewrite decide_False by done. by rewrite IH.
Qed.

Lemma cstring_str_ok l : bytes_ok l → str_ok (cstring l).
Proof.
  induction 1 as [|c l Hc _ IH]; simpl; [constructor |].
  case_decide; constructor; auto.
Qed.

Lemma cstring_prefix l : cstring l `prefix_of` l.
Proof.
  induction l as [|c l IH]; simpl; [done |].
  case_decide; [apply prefix_nil | by apply prefix_cons].
Qed.

Lemma str_ok_bytes s : str_ok s → bytes_ok s.
Proof. apply Forall_impl. naive_solver. Qed.

Lemma bytes_ok_cons b l : bytes_ok (b :: l) ↔ is_u8 b ∧ bytes_ok l.
Proof. apply Forall_cons_iff. Qed.

Lemma bytes_ok_app l k : bytes_ok (l ++ k) ↔ bytes_ok l ∧ bytes_ok k.
Proof. apply Forall_app. Qed.

Lemma bytes_ok_take n l : bytes_ok l → bytes_ok (take n l).
Proof. apply Forall_take. Qed.

Lemma bytes_ok_drop n l : bytes_ok l → bytes_ok (drop n l).
Proof. apply Forall_drop. Qed.

Lemma bytes_ok_takeZ n l : bytes_ok l → bytes_ok (takeZ n l).
Proof. apply Forall_take. Qed.

Lemma bytes_ok_dropZ n l : bytes_ok l → bytes_ok (dropZ n l).
Proof. apply Forall_drop. Qed.

#[export] Hint Resolve str_ok_bytes bytes_ok_takeZ bytes_ok_dropZ cstring_str_ok : p9.

Lemma len_takeZ n l : 0 ≤ n ≤ len l → len (takeZ n l) = n.
Proof. intros. unfold takeZ. rewrite length_take. lia. Qed.

Lemma len_dropZ n l : 0 ≤ n → len (dropZ n l) = Z.max 0 (len l - n).
Proof. intros. unfold dropZ. rewrite length_drop. lia. Qed.

Lemma takeZ_app l k n : n = len l → takeZ n (l ++ k) = l.
Proof. intros ->. unfold takeZ. by rewrite Nat2Z.id, take_app_length. Qed.

Lemma dropZ_app l k n : n = len l → dropZ n (l ++ k) = k.
Proof. intros ->. unfold dropZ. by rewrite Nat2Z.id, drop_app_length. Qed.

Lemma takeZ_dropZ n l : takeZ n l ++ dropZ n l = l.
Proof. apply take_drop. Qed.

Lemma dropZ_dropZ a b l : 0 ≤ a → 0 ≤ b → dropZ b (dropZ a l) = dropZ (a + b) l.
Proof. intros. unfold dropZ. rewrite drop_drop. f_equal. lia. Qed.

Lemma takeZ_all n l : len l ≤ n → takeZ n l = l.
Proof. intros. unfold takeZ. apply take_ge. lia. Qed.

(** Split a conjunction-shaped hypothesis produced by inverting binds. *)
Ltac inv_res :=
  repeat match goal with
  | H : (_ ≫= _) = Ok _ |- _ => apply bind_Ok in H; destruct H as (? & ? & H)
  | H : Ok _ = Ok _ |- _ => simplify_eq H; clear H; intros
  | H : Err = Ok _ |- _ => discriminate H
  | H : Ub = Ok _ |- _ => discriminate H
  | H : mret _ = Ok _ |- _ => unfold mret, res_ret in H
  end.
