(* ===== verification/Bytes.v ===== *)
(** * Bytes: the GBIT and PBIT macros of sys/include/fcall.h

    A pointer [p] into a message buffer is modelled by the bytes from [p] to
    the end of the buffer, so reading past that end is [Ub] and [p += n] drops
    [n] bytes.  [pbitN v] is the list of bytes the PBIT macro stores. *)

From S2P Require Import Prelude.

Definition BIT8SZ : Z := 1.
Definition BIT16SZ : Z := 2.
Definition BIT32SZ : Z := 4.
Definition BIT64SZ : Z := 8.
Definition QIDSZ : Z := BIT8SZ + BIT32SZ + BIT64SZ.
Definition STATFIXLEN : Z :=
  BIT16SZ + QIDSZ + 5 * BIT16SZ + 4 * BIT32SZ + 1 * BIT64SZ.

(** [(p)[i]] *)
Definition peek (p : list Z) (i : nat) : res Z := res_of_option (p !! i).

Definition GBIT8 (p : list Z) : res Z := peek p 0.

Definition GBIT16 (p : list Z) : res Z :=
  b0 ← peek p 0; b1 ← peek p 1;
  Ok (Z.lor b0 (b1 ≪ 8)).

(** The macro has type [int]; every use stores it in a [u32int] (or reads it
    back as [int] with {!Prelude.s32}), so the model keeps the 32-bit
    pattern. *)
Definition GBIT32 (p : list Z) : res Z :=
  b0 ← peek p 0; b1 ← peek p 1; b2 ← peek p 2; b3 ← peek p 3;
  Ok (Z.lor (Z.lor (Z.lor b0 (b1 ≪ 8)) (b2 ≪ 16)) (b3 ≪ 24)).

(** The 64-bit pattern; a [vlong] destination reads it with {!Prelude.s64}. *)
Definition GBIT64 (p : list Z) : res Z :=
  lo ← GBIT32 p; hi ← GBIT32 (drop 4 p);
  Ok (Z.lor lo (hi ≪ 32)).

Definition PBIT8 (v : Z) : list Z := [u8 v].
Definition PBIT16 (v : Z) : list Z := [u8 v; u8 (v ≫ 8)].
Definition PBIT32 (v : Z) : list Z :=
  [u8 v; u8 (v ≫ 8); u8 (v ≫ 16); u8 (v ≫ 24)].
Definition PBIT64 (v : Z) : list Z :=
  [u8 v; u8 (v ≫ 8); u8 (v ≫ 16); u8 (v ≫ 24);
   u8 (v ≫ 32); u8 (v ≫ 40); u8 (v ≫ 48); u8 (v ≫ 56)].

(** ** Lemmas *)

(** A sum of disjoint shifted fields is their bitwise or. *)
Lemma land_shift_disjoint a b n : 0 ≤ n → 0 ≤ a < 2 ^ n → Z.land a (b ≪ n) = 0.
Proof.
  intros Hn Ha. apply Z.bits_inj'. intros i Hi.
  rewrite Z.land_spec, Z.bits_0, Z.shiftl_spec by lia.
  destruct (decide (i < n)); [by rewrite (Z.testbit_neg_r b) by lia; rewrite andb_false_r |].
  rewrite <- (Z.mod_small a (2 ^ n)) by lia.
  by rewrite Z.mod_pow2_bits_high by lia.
Qed.

Lemma lor_shift_add a b n : 0 ≤ n → 0 ≤ a < 2 ^ n → Z.lor a (b ≪ n) = a + b * 2 ^ n.
Proof.
  intros Hn Ha. rewrite <- Z.shiftl_mul_pow2 by done.
  rewrite <- Z.add_lor_land, land_shift_disjoint by done. lia.
Qed.

Lemma GBIT16_val p b0 b1 r :
  p = b0 :: b1 :: r → is_u8 b0 → is_u8 b1 → GBIT16 p = Ok (b0 + b1 * 256).
Proof. intros -> H0 H1. unfold GBIT16. cbn. f_equal. by apply (lor_shift_add b0 b1 8). Qed.

Lemma GBIT32_val p b0 b1 b2 b3 r :
  p = b0 :: b1 :: b2 :: b3 :: r → is_u8 b0 → is_u8 b1 → is_u8 b2 → is_u8 b3 →
  GBIT32 p = Ok (b0 + b1 * 256 + b2 * 65536 + b3 * 16777216).
Proof.
  intros -> H0 H1 H2 H3. unfold GBIT32. cbn [peek lookup list_lookup res_of_option mbind res_bind].
  f_equal. ranges. rewrite (lor_shift_add b0 b1 8) by (change (2 ^ 8) with 256; lia).
  change (2 ^ 8) with 256.
  rewrite (lor_shift_add _ b2 16) by (change (2 ^ 16) with 65536; lia).
  change (2 ^ 16) with 65536.
  rewrite (lor_shift_add _ b3 24) by (change (2 ^ 24) with 16777216; lia).
  change (2 ^ 24) with 16777216. lia.
Qed.

Lemma GBIT64_val p b0 b1 b2 b3 b4 b5 b6 b7 r :
  p = b0 :: b1 :: b2 :: b3 :: b4 :: b5 :: b6 :: b7 :: r →
  is_u8 b0 → is_u8 b1 → is_u8 b2 → is_u8 b3 →
  is_u8 b4 → is_u8 b5 → is_u8 b6 → is_u8 b7 →
  GBIT64 p = Ok (b0 + b1 * 256 + b2 * 65536 + b3 * 16777216 +
    (b4 + b5 * 256 + b6 * 65536 + b7 * 16777216) * 4294967296).
Proof.
  intros -> H0 H1 H2 H3 H4 H5 H6 H7. unfold GBIT64.
  erewrite GBIT32_val by done. cbn [drop mbind res_bind].
  erewrite GBIT32_val by done. cbn [mbind res_bind]. f_equal.
  ranges. rewrite lor_shift_add by (change (2 ^ 32) with 4294967296; lia). done.
Qed.

(** The byte at weight [2^n] of [v]. *)
Lemma u8_shiftr v n : 0 ≤ n → u8 (v ≫ n) = (v `div` 2 ^ n) `mod` 256.
Proof. intros. unfold u8. by rewrite Z.shiftr_div_pow2. Qed.

(** What GBIT reads back from what PBIT stored, truncation included. *)
Lemma GBIT8_PBIT8 v r : GBIT8 (PBIT8 v ++ r) = Ok (u8 v).
Proof. done. Qed.

Lemma GBIT16_PBIT16 v r : GBIT16 (PBIT16 v ++ r) = Ok (u16 v).
Proof.
  erewrite GBIT16_val by first [done | apply u8_range]. f_equal.
  rewrite u8_shiftr by done. unfold u8, u16.
  change (2 ^ 16) with (256 * 256). change (2 ^ 8) with 256.
  rewrite Z.rem_mul_r by done. lia.
Qed.

Lemma GBIT32_PBIT32 v r : GBIT32 (PBIT32 v ++ r) = Ok (u32 v).
Proof.
  erewrite GBIT32_val by first [done | apply u8_range]. f_equal.
  rewrite !u8_shiftr by done. unfold u8, u32.
  change (2 ^ 32) with (256 * (256 * (256 * 256))). change (2 ^ 8) with 256.
  rewrite !Z.rem_mul_r by done.
  change (2 ^ 16) with (256 * 256). change (2 ^ 24) with (256 * (256 * 256)).
  rewrite <- !Z.div_div by done. lia.
Qed.

Lemma GBIT64_PBIT64 v r : GBIT64 (PBIT64 v ++ r) = Ok (u64 v).
Proof.
  erewrite GBIT64_val by first [done | apply u8_range]. f_equal.
  rewrite !u8_shiftr by done. unfold u8, u64.
  change (2 ^ 64) with (256 * (256 * (256 * (256 * (256 * (256 * (256 * 256))))))).
  change (2 ^ 8) with 256. rewrite !Z.rem_mul_r by done.
  change (2 ^ 16) with (256 * 256). change (2 ^ 24) with (256 * (256 * 256)).
  change (2 ^ 32) with (256 * (256 * (256 * 256))).
  change (2 ^ 40) with (256 * (256 * (256 * (256 * 256)))).
  change (2 ^ 48) with (256 * (256 * (256 * (256 * (256 * 256))))).
  change (2 ^ 56) with (256 * (256 * (256 * (256 * (256 * (256 * 256)))))).
  rewrite <- !Z.div_div by done. lia.
Qed.

(** A read succeeds exactly when enough bytes are left, and is in range. *)
Lemma GBIT8_ok p : 1 ≤ len p → bytes_ok p → ∃ v, GBIT8 p = Ok v ∧ is_u8 v.
Proof.
  destruct p as [|b0 p]; simpl; [lia |]. intros _ H. apply bytes_ok_cons in H as [H _].
  by exists b0.
Qed.

Lemma GBIT16_ok p : 2 ≤ len p → bytes_ok p → ∃ v, GBIT16 p = Ok v ∧ is_u16 v.
Proof.
  destruct p as [|b0 [|b1 p]]; simpl; [lia | lia |]. intros _ H.
  apply bytes_ok_cons in H as [H0 [H1 _]%bytes_ok_cons].
  erewrite GBIT16_val by done. eexists; split; [done |]. ranges; lia.
Qed.

Lemma GBIT32_ok p : 4 ≤ len p → bytes_ok p → ∃ v, GBIT32 p = Ok v ∧ is_u32 v.
Proof.
  destruct p as [|b0 [|b1 [|b2 [|b3 p]]]]; simpl; [lia | lia | lia | lia |]. intros _ H.
  apply bytes_ok_cons in H as [H0 [H1 [H2 [H3 _]%bytes_ok_cons]%bytes_ok_cons]%bytes_ok_cons].
  erewrite GBIT32_val by done. eexists; split; [done |]. ranges; lia.
Qed.

Lemma GBIT64_ok p : 8 ≤ len p → bytes_ok p → ∃ v, GBIT64 p = Ok v ∧ is_u64 v.
Proof.
  intros Hl Hb. unfold GBIT64.
  destruct (GBIT32_ok p) as (lo & -> & Hlo); [lia | done |].
  destruct (GBIT32_ok (drop 4 p)) as (hi & Hhi & Hr);
    [rewrite length_drop; lia | by apply Forall_drop |].
  cbn [mbind res_bind]. rewrite Hhi. cbn [mbind res_bind].
  eexists; split; [done |]. ranges.
  rewrite lor_shift_add by (change (2 ^ 32) with 4294967296; lia).
  change (2 ^ 32) with 4294967296. lia.
Qed.

(** Storing what was read gives back the bytes. *)
Lemma PBIT8_GBIT8 p v : GBIT8 p = Ok v → bytes_ok p → PBIT8 v = take 1 p.
Proof.
  destruct p as [|b0 p]; [done |]. intros [= <-] [H _]%bytes_ok_cons.
  unfold PBIT8. by rewrite u8_small.
Qed.

Ltac byte_eqs :=
  rewrite !u8_shiftr by done; unfold u8;
  change (2 ^ 8) with 256; change (2 ^ 16) with 65536; change (2 ^ 24) with 16777216;
  repeat f_equal; ranges; divlia.

Lemma PBIT16_GBIT16 p v : GBIT16 p = Ok v → bytes_ok p → PBIT16 v = take 2 p.
Proof.
  destruct p as [|b0 [|b1 p]]; [done | done |]. intros Hv H.
  apply bytes_ok_cons in H as [H0 [H1 _]%bytes_ok_cons].
  erewrite GBIT16_val in Hv by done. injection Hv as <-. unfold PBIT16. cbn [take]. byte_eqs.
Qed.

Lemma PBIT32_GBIT32 p v : GBIT32 p = Ok v → bytes_ok p → PBIT32 v = take 4 p.
Proof.
  destruct p as [|b0 [|b1 [|b2 [|b3 p]]]]; [done | done | done | done |]. intros Hv H.
  apply bytes_ok_cons in H as [H0 [H1 [H2 [H3 _]%bytes_ok_cons]%bytes_ok_cons]%bytes_ok_cons].
  erewrite GBIT32_val in Hv by done. injection Hv as <-. unfold PBIT32. cbn [take]. byte_eqs.
Qed.

Lemma PBIT64_split v :
  PBIT64 v = PBIT32 v ++ PBIT32 (v ≫ 32).
Proof. unfold PBIT64, PBIT32. cbn [app]. by rewrite !Z.shiftr_shiftr by done. Qed.

(** PBIT looks only at the low bits of its argument. *)
Lemma u8_shiftr_mod v n w : 0 ≤ n → n + 8 ≤ w → u8 ((v `mod` 2 ^ w) ≫ n) = u8 (v ≫ n).
Proof.
  intros Hn Hw. unfold u8. apply Z.bits_inj'. intros i Hi.
  destruct (decide (i < 8)).
  - rewrite !Z.mod_pow2_bits_low, !Z.shiftr_spec, Z.mod_pow2_bits_low by lia. done.
  - by rewrite !Z.mod_pow2_bits_high by lia.
Qed.

Lemma u8_mod v w : 8 ≤ w → u8 (v `mod` 2 ^ w) = u8 v.
Proof. intros. rewrite <- (Z.shiftr_0_r (_ `mod` _)), <- (Z.shiftr_0_r v) at 1. by apply u8_shiftr_mod. Qed.

Lemma PBIT8_u8 v : PBIT8 (u8 v) = PBIT8 v.
Proof. unfold PBIT8, u8 at 2. by rewrite (u8_mod v 8). Qed.

Lemma PBIT16_u16 v : PBIT16 (u16 v) = PBIT16 v.
Proof.
  unfold PBIT16, u16. rewrite (u8_mod v 16) by done.
  by rewrite u8_shiftr_mod by done.
Qed.

Lemma PBIT32_u32 v : PBIT32 (u32 v) = PBIT32 v.
Proof.
  unfold PBIT32, u32. rewrite (u8_mod v 32) by done.
  by rewrite !u8_shiftr_mod by done.
Qed.

Lemma PBIT64_u64 v : PBIT64 (u64 v) = PBIT64 v.
Proof.
  unfold PBIT64, u64. rewrite (u8_mod v 64) by done.
  by rewrite !u8_shiftr_mod by done.
Qed.

Lemma PBIT64_GBIT64 p v : GBIT64 p = Ok v → bytes_ok p → PBIT64 v = take 8 p.
Proof.
  intros Hv Hb. unfold GBIT64 in Hv. apply bind_Ok in Hv as (lo & Ha & Hv).
  apply bind_Ok in Hv as (b & Hbb & [= <-]).
  assert (4 ≤ len p) by (destruct p as [|? [|? [|? [|]]]]; simpl in *; try done; lia).
  destruct (GBIT32_ok p) as (lo' & Hlo & Hr); [done | done |].
  rewrite Ha in Hlo. injection Hlo as <-. rewrite PBIT64_split.
  rewrite lor_shift_add by (ranges; change (2 ^ 32) with 4294967296; lia).
  rewrite <- (PBIT32_u32 (_ + _)). unfold u32 at 1. rewrite Z.mod_add by done.
  change (lo `mod` 2 ^ 32) with (u32 lo). rewrite u32_small by done.
  rewrite Z.shiftr_div_pow2 by done. rewrite Z.div_add by done.
  rewrite (Z.div_small lo), Z.add_0_l by done.
  rewrite (PBIT32_GBIT32 p lo), (PBIT32_GBIT32 (drop 4 p) b) by
    first [done | by apply Forall_drop].
  by rewrite <- (take_drop 4 (take 8 p)), take_take, skipn_firstn_comm.
Qed.

Lemma len_PBIT8 v : len (PBIT8 v) = 1.
Proof. done. Qed.
Lemma len_PBIT16 v : len (PBIT16 v) = 2.
Proof. done. Qed.
Lemma len_PBIT32 v : len (PBIT32 v) = 4.
Proof. done. Qed.
Lemma len_PBIT64 v : len (PBIT64 v) = 8.
Proof. done. Qed.
