(* ===== verification/Fcall.v ===== *)
(** * Fcall: the 9P message codec

    sys/include/fcall.h (struct Fcall, the message types),
    sys/src/libc/9sys/convM2S.c and sys/src/libc/9sys/convS2M.c.

    A [char*] is [None] for nil and otherwise the characters before its NUL.
    The union of struct Fcall is flattened into one record: for each message
    type the codec touches members of a single arm of the union.  convM2S's
    in-place string move writes only below the read pointer, over bytes
    already consumed, so the parser works on the unread suffix of the buffer;
    its result 0 is [Err]. *)

From S2P Require Import Prelude Bytes.

Abbreviation cptr := (option (list Z)).

Definition MAXWELEM : Z := 16.
Definition NOTAG : Z := 2 ^ 16 - 1.
Definition NOFID : Z := 2 ^ 32 - 1.
Definition IOHDRSZ : Z := 24.

Inductive mtype : Type :=
  | Tversion | Rversion | Tauth | Rauth | Tattach | Rattach | Terror | Rerror
  | Tflush | Rflush | Twalk | Rwalk | Topen | Ropen | Tcreate | Rcreate
  | Tread | Rread | Twrite | Rwrite | Tclunk | Rclunk | Tremove | Rremove
  | Tstat | Rstat | Twstat | Rwstat.

Definition mtype_code (t : mtype) : Z :=
  match t with
  | Tversion => 100 | Rversion => 101 | Tauth => 102 | Rauth => 103
  | Tattach => 104 | Rattach => 105 | Terror => 106 | Rerror => 107
  | Tflush => 108 | Rflush => 109 | Twalk => 110 | Rwalk => 111
  | Topen => 112 | Ropen => 113 | Tcreate => 114 | Rcreate => 115
  | Tread => 116 | Rread => 117 | Twrite => 118 | Rwrite => 119
  | Tclunk => 120 | Rclunk => 121 | Tremove => 122 | Rremove => 123
  | Tstat => 124 | Rstat => 125 | Twstat => 126 | Rwstat => 127
  end.

Definition all_mtypes : list mtype :=
  [Tversion; Rversion; Tauth; Rauth; Tattach; Rattach; Terror; Rerror;
   Tflush; Rflush; Twalk; Rwalk; Topen; Ropen; Tcreate; Rcreate;
   Tread; Rread; Twrite; Rwrite; Tclunk; Rclunk; Tremove; Rremove;
   Tstat; Rstat; Twstat; Rwstat].

(** The [case] of a [switch(f->type)] that a type byte selects; [None] is
    [default]. *)
Definition mtype_of (z : Z) : option mtype :=
  if decide (100 ≤ z) then all_mtypes !! Z.to_nat (z - 100) else None.

Record Qid : Type := mkQid { q_path : Z; q_vers : Z; q_type : Z }.
Definition qid0 : Qid := mkQid 0 0 0.

Record Fcall : Type := mkFcall {
  f_type : Z;
  f_fid : Z;
  f_tag : Z;
  f_msize : Z;          (* Tversion, Rversion *)
  f_version : cptr;     (* Tversion, Rversion *)
  f_oldtag : Z;         (* Tflush *)
  f_ename : cptr;       (* Rerror *)
  f_qid : Qid;          (* Rattach, Ropen, Rcreate *)
  f_iounit : Z;         (* Ropen, Rcreate *)
  f_aqid : Qid;         (* Rauth *)
  f_afid : Z;           (* Tauth, Tattach *)
  f_uname : cptr;       (* Tauth, Tattach *)
  f_aname : cptr;       (* Tauth, Tattach *)
  f_perm : Z;           (* Tcreate *)
  f_name : cptr;        (* Tcreate *)
  f_mode : Z;           (* Tcreate, Topen *)
  f_newfid : Z;         (* Twalk *)
  f_nwname : Z;         (* Twalk *)
  f_wname : list cptr;  (* Twalk: MAXWELEM entries *)
  f_nwqid : Z;          (* Rwalk *)
  f_wqid : list Qid;    (* Rwalk: MAXWELEM entries *)
  f_offset : Z;         (* Tread, Twrite *)
  f_count : Z;          (* Tread, Twrite, Rread *)
  f_data : list Z;      (* Twrite, Rread *)
  f_nstat : Z;          (* Twstat, Rstat *)
  f_stat : list Z       (* Twstat, Rstat *)
}.

#[export] Instance Fcall_rebuild : Rebuild Fcall := λ f,
  mkFcall (f_type f) (f_fid f) (f_tag f) (f_msize f) (f_version f) (f_oldtag f)
    (f_ename f) (f_qid f) (f_iounit f) (f_aqid f) (f_afid f) (f_uname f)
    (f_aname f) (f_perm f) (f_name f) (f_mode f) (f_newfid f) (f_nwname f)
    (f_wname f) (f_nwqid f) (f_wqid f) (f_offset f) (f_count f) (f_data f)
    (f_nstat f) (f_stat f).

(** [memset(&f, 0, sizeof f)] *)
Definition fcall0 : Fcall :=
  mkFcall 0 0 0 0 None 0 None qid0 0 qid0 0 None None 0 None 0 0 0
    (replicate (Z.to_nat MAXWELEM) None) 0 (replicate (Z.to_nat MAXWELEM) qid0)
    0 0 [] 0 [].

(** ** convM2S *)

(** [if(p+n > ep) return 0;] *)
Definition need (n : Z) (p : list Z) : res () :=
  if decide (len p < n) then Err else Ok ().

Definition gstring (p : list Z) : res (cptr * list Z) :=
  _ ← need BIT16SZ p;
  n ← GBIT16 p;
  let p := dropZ BIT16SZ p in
  _ ← need n p;
  Ok (Some (cstring (takeZ n p)), dropZ n p).

Definition gqid (p : list Z) : res (Qid * list Z) :=
  _ ← need QIDSZ p;
  type ← GBIT8 p;
  let p := dropZ BIT8SZ p in
  vers ← GBIT32 p;
  let p := dropZ BIT32SZ p in
  path ← GBIT64 p;
  let p := dropZ BIT64SZ p in
  Ok (mkQid path vers type, p).

(** [for(i=0; i<f->nwname; i++) p = gstring(p, ep, &f->wname[i]);] *)
Fixpoint gwnames (n i : nat) (p : list Z) (f : Fcall) : res (Fcall * list Z) :=
  match n with
  | O => Ok (f, p)
  | S n =>
      '(s, p) ← gstring p;
      gwnames n (S i) p (f <| f_wname := <[i := s]> (f_wname f) |>)
  end.

Fixpoint gwqids (n i : nat) (p : list Z) (f : Fcall) : res (Fcall * list Z) :=
  match n with
  | O => Ok (f, p)
  | S n =>
      '(q, p) ← gqid p;
      gwqids n (S i) p (f <| f_wqid := <[i := q]> (f_wqid f) |>)
  end.

(** The T-message cases of convM2S's switch. *)
Definition convM2S_T (t : mtype) (p : list Z) (f : Fcall) : res (Fcall * list Z) :=
  match t with
  | Tversion =>
      _ ← need BIT32SZ p;
      msize ← GBIT32 p;
      let p := dropZ BIT32SZ p in
      '(version, p) ← gstring p;
      Ok (f <| f_msize := msize |> <| f_version := version |>, p)
  | Tflush =>
      _ ← need BIT16SZ p;
      oldtag ← GBIT16 p;
      let p := dropZ BIT16SZ p in
      Ok (f <| f_oldtag := oldtag |>, p)
  | Tauth =>
      _ ← need BIT32SZ p;
      afid ← GBIT32 p;
      let p := dropZ BIT32SZ p in
      '(uname, p) ← gstring p;
      '(aname, p) ← gstring p;
      Ok (f <| f_afid := afid |> <| f_uname := uname |> <| f_aname := aname |>, p)
  | Tattach =>
      _ ← need BIT32SZ p;
      fid ← GBIT32 p;
      let p := dropZ BIT32SZ p in
      _ ← need BIT32SZ p;
      afid ← GBIT32 p;
      let p := dropZ BIT32SZ p in
      '(uname, p) ← gstring p;
      '(aname, p) ← gstring p;
      Ok (f <| f_fid := fid |> <| f_afid := afid |> <| f_uname := uname |>
            <| f_aname := aname |>, p)
  | Twalk =>
      _ ← need (BIT32SZ + BIT32SZ + BIT16SZ) p;
      fid ← GBIT32 p;
      let p := dropZ BIT32SZ p in
      newfid ← GBIT32 p;
      let p := dropZ BIT32SZ p in
      nwname ← GBIT16 p;
      let p := dropZ BIT16SZ p in
      if decide (nwname > MAXWELEM) then Err else
      gwnames (Z.to_nat nwname) 0 p
        (f <| f_fid := fid |> <| f_newfid := newfid |> <| f_nwname := nwname |>)
  | Topen =>
      _ ← need (BIT32SZ + BIT8SZ) p;
      fid ← GBIT32 p;
      let p := dropZ BIT32SZ p in
      mode ← GBIT8 p;
      let p := dropZ BIT8SZ p in
      Ok (f <| f_fid := fid |> <| f_mode := mode |>, p)
  | Tcreate =>
      _ ← need BIT32SZ p;
      fid ← GBIT32 p;
      let p := dropZ BIT32SZ p in
      '(name, p) ← gstring p;
      _ ← need (BIT32SZ + BIT8SZ) p;
      perm ← GBIT32 p;
      let p := dropZ BIT32SZ p in
      mode ← GBIT8 p;
      let p := dropZ BIT8SZ p in
      Ok (f <| f_fid := fid |> <| f_name := name |> <| f_perm := perm |>
            <| f_mode := mode |>, p)
  | Tread =>
      _ ← need (BIT32SZ + BIT64SZ + BIT32SZ) p;
      fid ← GBIT32 p;
      let p := dropZ BIT32SZ p in
      offset ← GBIT64 p;
      let p := dropZ BIT64SZ p in
      count ← GBIT32 p;
      let p := dropZ BIT32SZ p in
      Ok (f <| f_fid := fid |> <| f_offset := s64 offset |> <| f_count := count |>, p)
  | Twrite =>
      _ ← need (BIT32SZ + BIT64SZ + BIT32SZ) p;
      fid ← GBIT32 p;
      let p := dropZ BIT32SZ p in
      offset ← GBIT64 p;
      let p := dropZ BIT64SZ p in
      count ← GBIT32 p;
      let p := dropZ BIT32SZ p in
      _ ← need count p;
      Ok (f <| f_fid := fid |> <| f_offset := s64 offset |> <| f_count := count |>
            <| f_data := p |>, dropZ count p)
  | Tclunk | Tremove | Tstat =>
      _ ← need BIT32SZ p;
      fid ← GBIT32 p;
      let p := dropZ BIT32SZ p in
      Ok (f <| f_fid := fid |>, p)
  | Twstat =>
      _ ← need (BIT32SZ + BIT16SZ) p;
      fid ← GBIT32 p;
      let p := dropZ BIT32SZ p in
      nstat ← GBIT16 p;
      let p := dropZ BIT16SZ p in
      _ ← need nstat p;
      Ok (f <| f_fid := fid |> <| f_nstat := nstat |> <| f_stat := p |>, dropZ nstat p)
  | _ => Err
  end.

(** The R-message cases. *)
Definition convM2S_R (t : mtype) (p : list Z) (f : Fcall) : res (Fcall * list Z) :=
  match t with
  | Rversion =>
      _ ← need BIT32SZ p;
      msize ← GBIT32 p;
      let p := dropZ BIT32SZ p in
      '(version, p) ← gstring p;
      Ok (f <| f_msize := msize |> <| f_version := version |>, p)
  | Rerror =>
      '(ename, p) ← gstring p;
      Ok (f <| f_ename := ename |>, p)
  | Rauth =>
      '(aqid, p) ← gqid p;
      Ok (f <| f_aqid := aqid |>, p)
  | Rattach =>
      '(qid, p) ← gqid p;
      Ok (f <| f_qid := qid |>, p)
  | Rwalk =>
      _ ← need BIT16SZ p;
      nwqid ← GBIT16 p;
      let p := dropZ BIT16SZ p in
      if decide (nwqid > MAXWELEM) then Err else
      gwqids (Z.to_nat nwqid) 0 p (f <| f_nwqid := nwqid |>)
  | Ropen | Rcreate =>
      '(qid, p) ← gqid p;
      _ ← need BIT32SZ p;
      iounit ← GBIT32 p;
      let p := dropZ BIT32SZ p in
      Ok (f <| f_qid := qid |> <| f_iounit := iounit |>, p)
  | Rread =>
      _ ← need BIT32SZ p;
      count ← GBIT32 p;
      let p := dropZ BIT32SZ p in
      _ ← need count p;
      Ok (f <| f_count := count |> <| f_data := p |>, dropZ count p)
  | Rwrite =>
      _ ← need BIT32SZ p;
      count ← GBIT32 p;
      let p := dropZ BIT32SZ p in
      Ok (f <| f_count := count |>, p)
  | Rstat =>
      _ ← need BIT16SZ p;
      nstat ← GBIT16 p;
      let p := dropZ BIT16SZ p in
      _ ← need nstat p;
      Ok (f <| f_nstat := nstat |> <| f_stat := p |>, dropZ nstat p)
  | Rflush | Rclunk | Rremove | Rwstat => Ok (f, p)
  | _ => Err
  end.

Definition is_T (t : mtype) : bool := Z.even (mtype_code t).

(** [convM2S(ap, nap, f)] on the buffer [ap] of [nap] bytes. *)
Definition convM2S (ap : list Z) (f : Fcall) : res (Z * Fcall) :=
  let p := ap in
  _ ← need (BIT32SZ + BIT8SZ + BIT16SZ) p;
  size ← GBIT32 p;
  let p := dropZ BIT32SZ p in
  if decide (size < BIT32SZ + BIT8SZ + BIT16SZ) then Err else
  type ← GBIT8 p;
  let p := dropZ BIT8SZ p in
  tag ← GBIT16 p;
  let p := dropZ BIT16SZ p in
  let f := f <| f_type := type |> <| f_tag := tag |> in
  '(f, p) ← match mtype_of type with
            | Some t => if is_T t then convM2S_T t p f else convM2S_R t p f
            | None => Err
            end;
  if decide (size = len ap - len p) then Ok (size, f) else Err.

(** ** convS2M *)

(** The bytes [pstring] stores; [PBIT16] keeps the low 16 bits of [strlen]. *)
Definition pstring (s : cptr) : list Z :=
  match s with
  | None => PBIT16 0
  | Some s => PBIT16 (len s) ++ s
  end.

Definition pqid (q : Qid) : list Z :=
  PBIT8 (q_type q) ++ PBIT32 (q_vers q) ++ PBIT64 (q_path q).

Definition stringsz (s : cptr) : Z :=
  match s with
  | None => BIT16SZ
  | Some s => BIT16SZ + len s
  end.

(** [for(i=0; i<f->nwname; i++) n += stringsz(f->wname[i]);]: indexing past the
    [MAXWELEM] entries of the array is undefined. *)
Fixpoint wname_sizes (n i : nat) (w : list cptr) : res Z :=
  match n with
  | O => Ok 0
  | S n =>
      s ← res_of_option (w !! i);
      r ← wname_sizes n (S i) w;
      Ok (stringsz s + r)
  end.

Fixpoint pwnames (n i : nat) (w : list cptr) : res (list Z) :=
  match n with
  | O => Ok []
  | S n =>
      s ← res_of_option (w !! i);
      r ← pwnames n (S i) w;
      Ok (pstring s ++ r)
  end.

Fixpoint pwqids (n i : nat) (w : list Qid) : res (list Z) :=
  match n with
  | O => Ok []
  | S n =>
      q ← res_of_option (w !! i);
      r ← pwqids n (S i) w;
      Ok (pqid q ++ r)
  end.

(** [memmove(p, data, n)]: the source must hold [n] bytes. *)
Definition memread (data : list Z) (n : Z) : res (list Z) :=
  if decide (len data < n) then Ub else Ok (takeZ n data).

(** The sum is a [uint]: it wraps modulo 2^32.  [default: return 0]. *)
Definition sizeS2M (f : Fcall) : res Z :=
  let n := BIT32SZ + BIT8SZ + BIT16SZ in
  match mtype_of (f_type f) with
  | None | Some Terror => Ok 0
  | Some t =>
      body ← match t with
      | Tversion => Ok (BIT32SZ + stringsz (f_version f))
      | Tflush => Ok BIT16SZ
      | Tauth => Ok (BIT32SZ + stringsz (f_uname f) + stringsz (f_aname f))
      | Tattach =>
          Ok (BIT32SZ + BIT32SZ + stringsz (f_uname f) + stringsz (f_aname f))
      | Twalk =>
          w ← wname_sizes (Z.to_nat (f_nwname f)) 0 (f_wname f);
          Ok (BIT32SZ + BIT32SZ + BIT16SZ + w)
      | Topen => Ok (BIT32SZ + BIT8SZ)
      | Tcreate => Ok (BIT32SZ + stringsz (f_name f) + BIT32SZ + BIT8SZ)
      | Tread => Ok (BIT32SZ + BIT64SZ + BIT32SZ)
      | Twrite => Ok (BIT32SZ + BIT64SZ + BIT32SZ + f_count f)
      | Tclunk | Tremove => Ok BIT32SZ
      | Tstat => Ok BIT32SZ
      | Twstat => Ok (BIT32SZ + BIT16SZ + f_nstat f)
      | Rversion => Ok (BIT32SZ + stringsz (f_version f))
      | Rerror => Ok (stringsz (f_ename f))
      | Rflush => Ok 0
      | Rauth => Ok QIDSZ
      | Rattach => Ok QIDSZ
      | Rwalk => Ok (BIT16SZ + f_nwqid f * QIDSZ)
      | Ropen | Rcreate => Ok (QIDSZ + BIT32SZ)
      | Rread => Ok (BIT32SZ + f_count f)
      | Rwrite => Ok BIT32SZ
      | Rclunk => Ok 0
      | Rremove => Ok 0
      | Rstat => Ok (BIT16SZ + f_nstat f)
      | Rwstat => Ok 0
      | Terror => Ok 0
      end;
      Ok (u32 (n + body))
  end.

(** What the switch of convS2M stores after the header: the T-messages ... *)
Definition convS2M_T (t : mtype) (f : Fcall) : res (list Z) :=
  match t with
  | Tversion => Ok (PBIT32 (f_msize f) ++ pstring (f_version f))
  | Tflush => Ok (PBIT16 (f_oldtag f))
  | Tauth => Ok (PBIT32 (f_afid f) ++ pstring (f_uname f) ++ pstring (f_aname f))
  | Tattach =>
      Ok (PBIT32 (f_fid f) ++ PBIT32 (f_afid f) ++ pstring (f_uname f) ++
          pstring (f_aname f))
  | Twalk =>
      if decide (f_nwname f > MAXWELEM) then Err else
      w ← pwnames (Z.to_nat (f_nwname f)) 0 (f_wname f);
      Ok (PBIT32 (f_fid f) ++ PBIT32 (f_newfid f) ++ PBIT16 (f_nwname f) ++ w)
  | Topen => Ok (PBIT32 (f_fid f) ++ PBIT8 (f_mode f))
  | Tcreate =>
      Ok (PBIT32 (f_fid f) ++ pstring (f_name f) ++ PBIT32 (f_perm f) ++
          PBIT8 (f_mode f))
  | Tread => Ok (PBIT32 (f_fid f) ++ PBIT64 (f_offset f) ++ PBIT32 (f_count f))
  | Twrite =>
      d ← memread (f_data f) (f_count f);
      Ok (PBIT32 (f_fid f) ++ PBIT64 (f_offset f) ++ PBIT32 (f_count f) ++ d)
  | Tclunk | Tremove => Ok (PBIT32 (f_fid f))
  | Tstat => Ok (PBIT32 (f_fid f))
  | Twstat =>
      d ← memread (f_stat f) (f_nstat f);
      Ok (PBIT32 (f_fid f) ++ PBIT16 (f_nstat f) ++ d)
  | _ => Err
  end.

(** ... and the R-messages. *)
Definition convS2M_R (t : mtype) (f : Fcall) : res (list Z) :=
  match t with
  | Rversion => Ok (PBIT32 (f_msize f) ++ pstring (f_version f))
  | Rerror => Ok (pstring (f_ename f))
  | Rflush => Ok []
  | Rauth => Ok (pqid (f_aqid f))
  | Rattach => Ok (pqid (f_qid f))
  | Rwalk =>
      if decide (f_nwqid f > MAXWELEM) then Err else
      w ← pwqids (Z.to_nat (f_nwqid f)) 0 (f_wqid f);
      Ok (PBIT16 (f_nwqid f) ++ w)
  | Ropen | Rcreate => Ok (pqid (f_qid f) ++ PBIT32 (f_iounit f))
  | Rread =>
      d ← memread (f_data f) (f_count f);
      Ok (PBIT32 (f_count f) ++ d)
  | Rwrite => Ok (PBIT32 (f_count f))
  | Rclunk => Ok []
  | Rremove => Ok []
  | Rstat =>
      d ← memread (f_stat f) (f_nstat f);
      Ok (PBIT16 (f_nstat f) ++ d)
  | Rwstat => Ok []
  | _ => Err
  end.

(** [convS2M(f, ap, nap)]: the bytes stored at [ap]; the value returned is their
    number.  Storing more than [nap] bytes is undefined. *)
Definition convS2M (f : Fcall) (nap : Z) : res (list Z) :=
  size ← sizeS2M f;
  if decide (size = 0) then Err else
  if decide (size > nap) then Err else
  body ← match mtype_of (f_type f) with
         | Some t => if is_T t then convS2M_T t f else convS2M_R t f
         | None => Err
         end;
  let out := PBIT32 size ++ PBIT8 (f_type f) ++ PBIT16 (f_tag f) ++ body in
  if decide (len out > nap) then Ub else
  if decide (size ≠ len out) then Err else Ok out.
