(* ===== verification/FcallProps.v ===== *)
(** * FcallProps: correctness of the 9P message codec of [Fcall]

    Round trips in both directions, memory safety of the decoder on arbitrary
    input, agreement of the size computation with the bytes stored, and the two
    places where the encoder's contract is narrower than its types. *)

From S2P Require Import Prelude Bytes Fcall.

(** ** Well-formedness *)

(** A [char*]: the characters are bytes other than NUL. *)
Definition cptr_ok (s : cptr) : Prop := from_option str_ok True s.

(** Short enough for its 16-bit count. *)
Definition cptr_short (s : cptr) : Prop := from_option (λ s, len s < 2 ^ 16) True s.

Record qid_ok (q : Qid) : Prop := {
  qid_ok_path : is_u64 (q_path q);
  qid_ok_vers : is_u32 (q_vers q);
  qid_ok_type : is_u8 (q_type q)
}.

(** What the C types of struct Fcall's members guarantee. *)
Record fcall_wt (f : Fcall) : Prop := {
  wt_type : is_u8 (f_type f); wt_fid : is_u32 (f_fid f); wt_tag : is_u16 (f_tag f);
  wt_msize : is_u32 (f_msize f); wt_oldtag : is_u16 (f_oldtag f);
  wt_iounit : is_u32 (f_iounit f); wt_afid : is_u32 (f_afid f);
  wt_perm : is_u32 (f_perm f); wt_mode : is_u8 (f_mode f);
  wt_newfid : is_u32 (f_newfid f); wt_nwname : is_u16 (f_nwname f);
  wt_nwqid : is_u16 (f_nwqid f); wt_offset : is_s64 (f_offset f);
  wt_count : is_u32 (f_count f); wt_nstat : is_u16 (f_nstat f);
  wt_qid : qid_ok (f_qid f); wt_aqid : qid_ok (f_aqid f);
  wt_version : cptr_ok (f_version f); wt_ename : cptr_ok (f_ename f);
  wt_uname : cptr_ok (f_uname f); wt_aname : cptr_ok (f_aname f);
  wt_name : cptr_ok (f_name f);
  wt_wname : len (f_wname f) = MAXWELEM; wt_wnames : Forall cptr_ok (f_wname f);
  wt_wqid : len (f_wqid f) = MAXWELEM; wt_wqids : Forall qid_ok (f_wqid f);
  wt_data : bytes_ok (f_data f); wt_stat : bytes_ok (f_stat f)
}.

(** What a caller must establish for the message at hand: known type, strings
    that fit their counts, element counts within the arrays, data pointers with
    the announced number of bytes, and a total size that fits a [uint]. *)
Definition encodable (f : Fcall) : Prop :=
  match mtype_of (f_type f) with
  | Some (Tversion | Rversion) => cptr_short (f_version f)
  | Some (Tauth | Tattach) => cptr_short (f_uname f) ∧ cptr_short (f_aname f)
  | Some Tcreate => cptr_short (f_name f)
  | Some Rerror => cptr_short (f_ename f)
  | Some Twalk =>
      f_nwname f ≤ MAXWELEM ∧ Forall cptr_short (take (Z.to_nat (f_nwname f)) (f_wname f))
  | Some Rwalk => f_nwqid f ≤ MAXWELEM
  | Some Twrite =>
      f_count f ≤ len (f_data f) ∧
      BIT32SZ + BIT8SZ + BIT16SZ + (BIT32SZ + BIT64SZ + BIT32SZ + f_count f) < 2 ^ 32
  | Some Rread =>
      f_count f ≤ len (f_data f) ∧
      BIT32SZ + BIT8SZ + BIT16SZ + (BIT32SZ + f_count f) < 2 ^ 32
  | Some (Twstat | Rstat) => f_nstat f ≤ len (f_stat f)
  | Some Terror | None => False
  | Some _ => True
  end.

(** ** Equality of messages

    The members a message type does not use, array entries beyond the count and
    bytes beyond the announced data are not part of a message, and a nil string
    is sent as the empty one.  [canon] keeps the rest. *)
Definition norm (s : cptr) : cptr := Some (default [] s).

Definition canon_of (t : mtype) (f : Fcall) : Fcall :=
  let g := fcall0 <| f_type := f_type f |> <| f_tag := f_tag f |> in
  match t with
  | (Tversion | Rversion) =>
      g <| f_msize := f_msize f |> <| f_version := norm (f_version f) |>
  | Tflush => g <| f_oldtag := f_oldtag f |>
  | Tauth =>
      g <| f_afid := f_afid f |> <| f_uname := norm (f_uname f) |>
        <| f_aname := norm (f_aname f) |>
  | Tattach =>
      g <| f_fid := f_fid f |> <| f_afid := f_afid f |>
        <| f_uname := norm (f_uname f) |> <| f_aname := norm (f_aname f) |>
  | Twalk =>
      g <| f_fid := f_fid f |> <| f_newfid := f_newfid f |>
        <| f_nwname := f_nwname f |>
        <| f_wname := norm <$> take (Z.to_nat (f_nwname f)) (f_wname f) |>
  | Topen => g <| f_fid := f_fid f |> <| f_mode := f_mode f |>
  | Tcreate =>
      g <| f_fid := f_fid f |> <| f_name := norm (f_name f) |>
        <| f_perm := f_perm f |> <| f_mode := f_mode f |>
  | Tread =>
      g <| f_fid := f_fid f |> <| f_offset := f_offset f |> <| f_count := f_count f |>
  | Twrite =>
      g <| f_fid := f_fid f |> <| f_offset := f_offset f |> <| f_count := f_count f |>
        <| f_data := takeZ (f_count f) (f_data f) |>
  | (Tclunk | Tremove | Tstat) => g <| f_fid := f_fid f |>
  | Twstat =>
      g <| f_fid := f_fid f |> <| f_nstat := f_nstat f |>
        <| f_stat := takeZ (f_nstat f) (f_stat f) |>
  | Rerror => g <| f_ename := norm (f_ename f) |>
  | Rauth => g <| f_aqid := f_aqid f |>
  | Rattach => g <| f_qid := f_qid f |>
  | Rwalk =>
      g <| f_nwqid := f_nwqid f |>
        <| f_wqid := take (Z.to_nat (f_nwqid f)) (f_wqid f) |>
  | (Ropen | Rcreate) => g <| f_qid := f_qid f |> <| f_iounit := f_iounit f |>
  | Rread =>
      g <| f_count := f_count f |> <| f_data := takeZ (f_count f) (f_data f) |>
  | Rwrite => g <| f_count := f_count f |>
  | Rstat =>
      g <| f_nstat := f_nstat f |> <| f_stat := takeZ (f_nstat f) (f_stat f) |>
  | (Rflush | Rclunk | Rremove | Rwstat | Terror) => g
  end.

Definition canon (f : Fcall) : Fcall :=
  match mtype_of (f_type f) with
  | Some t => canon_of t f
  | None => fcall0 <| f_type := f_type f |> <| f_tag := f_tag f |>
  end.

(** Two structs that denote the same message. *)
Definition fcall_equiv : Equiv Fcall := λ f g, canon f = canon g.
#[export] Existing Instance fcall_equiv.

#[export] Instance fcall_equivalence : Equivalence (≡@{Fcall}).
Proof. split; unfold equiv, fcall_equiv; congruence. Qed.

(** The body of a message: encoder and decoder of one switch case. *)
Definition enc (t : mtype) (f : Fcall) : res (list Z) :=
  if is_T t then convS2M_T t f else convS2M_R t f.
Definition dec (t : mtype) (p : list Z) (f : Fcall) : res (Fcall * list Z) :=
  if is_T t then convM2S_T t p f else convM2S_R t p f.

(** ** Message types *)

Lemma mtype_of_code t : mtype_of (mtype_code t) = Some t.
Proof. by destruct t. Qed.

Lemma mtype_of_Some z t : mtype_of z = Some t → z = mtype_code t.
Proof.
  unfold mtype_of. case_decide; [| done]. intros Ht.
  assert (Hz : z = 100 + Z.of_nat (Z.to_nat (z - 100))) by lia.
  rewrite Hz. revert Ht. generalize (Z.to_nat (z - 100)). clear. intros n Hn.
  do 28 (destruct n as [|n]; [by injection Hn as <- |]). done.
Qed.

(** ** Decoding one field that was just encoded *)

Lemma need_ok n p : n ≤ len p → need n p = Ok ().
Proof. intros. unfold need. by rewrite decide_False by lia. Qed.

Lemma need_app n l p : n ≤ len l → need n (l ++ p) = Ok ().
Proof. intros. apply need_ok. rewrite length_app. lia. Qed.

Lemma gstring_pstring s r :
  cptr_ok s → cptr_short s → gstring (pstring s ++ r) = Ok (norm s, r).
Proof.
  intros Hok Hs. unfold gstring. destruct s as [s|]; cbn [pstring].
  - rewrite need_app by (rewrite length_app; simpl; unfold BIT16SZ; lia).
    cbn [mbind res_bind]. rewrite <- app_assoc, GBIT16_PBIT16. cbn [mbind res_bind].
    rewrite dropZ_app by done. simpl in Hs. rewrite u16_small by (ranges; lia).
    rewrite need_app by lia. cbn [mbind res_bind].
    rewrite takeZ_app, dropZ_app by done. by rewrite cstring_nonul.
  - rewrite need_app by done. cbn [mbind res_bind]. rewrite GBIT16_PBIT16.
    cbn [mbind res_bind]. rewrite dropZ_app by done.
    change (u16 0) with 0. by rewrite need_ok by lia.
Qed.

Lemma gqid_pqid q r : qid_ok q → gqid (pqid q ++ r) = Ok (q, r).
Proof.
  intros [Hp Hv Ht]. unfold gqid, pqid. rewrite need_app by done.
  cbn [mbind res_bind]. rewrite <- !app_assoc.
  rewrite GBIT8_PBIT8. cbn [mbind res_bind]. rewrite dropZ_app by done.
  rewrite GBIT32_PBIT32. cbn [mbind res_bind]. rewrite dropZ_app by done.
  rewrite GBIT64_PBIT64. cbn [mbind res_bind]. rewrite dropZ_app by done.
  rewrite u8_small, u32_small, u64_small by done. by destruct q.
Qed.

Lemma len_pstring s : len (pstring s) = stringsz s.
Proof. destruct s; simpl; [unfold BIT16SZ; lia | done]. Qed.

Lemma len_pqid q : len (pqid q) = QIDSZ.
Proof. done. Qed.

(** The loops over the arrays of names and qids. *)
Lemma pwnames_ok n i w :
  (i + n ≤ length w)%nat →
  ∃ body, pwnames n i w = Ok body ∧ wname_sizes n i w = Ok (len body).
Proof.
  revert i. induction n as [|n IH]; intros i Hl; simpl; [by exists [] |].
  destruct (w !! i) as [s|] eqn:Hs; [| apply lookup_ge_None in Hs; lia]. simpl.
  destruct (IH (S i)) as (body & -> & ->); [lia |]. simpl.
  eexists; split; [done |]. by rewrite length_app, Nat2Z.inj_add, len_pstring.
Qed.

Lemma pwqids_ok n i w :
  (i + n ≤ length w)%nat →
  ∃ body, pwqids n i w = Ok body ∧ len body = Z.of_nat n * QIDSZ.
Proof.
  revert i. induction n as [|n IH]; intros i Hl; cbn [pwqids]; [by exists [] |].
  destruct (w !! i) as [s|] eqn:Hs; [| apply lookup_ge_None in Hs; lia].
  cbn [res_of_option mbind res_bind].
  destruct (IH (S i)) as (body & -> & Hb); [lia |]. cbn [mbind res_bind].
  eexists; split; [done |]. rewrite length_app, Nat2Z.inj_add, len_pqid. unfold QIDSZ in *. lia.
Qed.

(** Overwriting entry [i], then the entries after it, leaves the first [i]. *)
Lemma splice_step {A} (l : list A) (x : A) xs i :
  (i < length l)%nat →
  take (S i) (<[i := x]> l) ++ xs ++ drop (S i + length xs) (<[i := x]> l)
  = take i l ++ (x :: xs) ++ drop (i + S (length xs)) l.
Proof.
  intros Hi. rewrite (take_S_r _ _ x) by (by apply list_lookup_insert_eq).
  rewrite take_insert_ge, drop_insert_lt by lia.
  rewrite <- app_assoc. cbn. do 4 f_equal. lia.
Qed.

Lemma gwnames_pwnames n i w body r f :
  pwnames n i w = Ok body → Forall cptr_ok w → Forall cptr_short (take (i + n) w) →
  (i + n ≤ length w)%nat → length w = length (f_wname f) →
  gwnames n i (body ++ r) f =
    Ok (f <| f_wname := take i (f_wname f) ++ (norm <$> take n (drop i w)) ++
              drop (i + n) (f_wname f) |>, r).
Proof.
  intros Hb Hok. revert i body f Hb.
  induction n as [|n IH]; intros i body f Hb Hsh Hl Hlen; cbn [pwnames gwnames] in *.
  - injection Hb as <-. rewrite Nat.add_0_r.
    assert (take i (f_wname f) ++ (norm <$> take 0 (drop i w)) ++ drop i (f_wname f)
            = f_wname f) as -> by (rewrite take_0; apply take_drop).
    by destruct f.
  - destruct (w !! i) as [s|] eqn:Hs; [| done]. cbn [res_of_option mbind res_bind] in Hb.
    apply bind_Ok in Hb as (rest & Hrest & [= <-]).
    rewrite <- app_assoc, gstring_pstring; [| by eapply (Forall_lookup_1 _ w i)
      | by apply (Forall_lookup_1 _ _ i _ Hsh), lookup_take_Some; split; [| lia]].
    cbn [mbind res_bind].
    rewrite (IH _ _ _ Hrest) by first [ by replace (S i + n)%nat with (i + S n)%nat by lia
               | cbn; rewrite ?length_insert; lia ].
    rewrite (drop_S w s i) by done. cbn [take fmap list_fmap].
    assert (n = length (norm <$> take n (drop (S i) w))) as Hn
      by (rewrite length_fmap, length_take, length_drop; lia).
    do 2 f_equal. unfold update; cbn [f_wname]. f_equal.
    rewrite Hn at 2. rewrite splice_step by lia. by rewrite <- Hn.
Qed.

Lemma gwqids_pwqids n i w body r f :
  pwqids n i w = Ok body → Forall qid_ok w →
  (i + n ≤ length w)%nat → length w = length (f_wqid f) →
  gwqids n i (body ++ r) f =
    Ok (f <| f_wqid := take i (f_wqid f) ++ take n (drop i w) ++
              drop (i + n) (f_wqid f) |>, r).
Proof.
  intros Hb Hok. revert i body f Hb.
  induction n as [|n IH]; intros i body f Hb Hl Hlen; cbn [pwqids gwqids] in *.
  - injection Hb as <-. rewrite Nat.add_0_r.
    assert (take i (f_wqid f) ++ take 0 (drop i w) ++ drop i (f_wqid f)
            = f_wqid f) as -> by (rewrite take_0; apply take_drop).
    by destruct f.
  - destruct (w !! i) as [s|] eqn:Hs; [| done]. cbn [res_of_option mbind res_bind] in Hb.
    apply bind_Ok in Hb as (rest & Hrest & Hb).
    assert (body = pqid s ++ rest) as -> by congruence.
    rewrite <- app_assoc, gqid_pqid by (by eapply (Forall_lookup_1 _ w i)).
    cbn [mbind res_bind].
    rewrite (IH _ _ _ Hrest) by (cbn; rewrite ?length_insert; lia).
    rewrite (drop_S w s i) by done. cbn [take].
    assert (n = length (take n (drop (S i) w))) as Hn
      by (rewrite length_take, length_drop; lia).
    do 2 f_equal. unfold update; cbn [f_wqid]. f_equal.
    rewrite Hn at 2. rewrite splice_step by lia. by rewrite <- Hn.
Qed.

(** ** One switch case: encoder, size and decoder agree *)

Lemma memread_ok d n : n ≤ len d → memread d n = Ok (takeZ n d).
Proof. intros. unfold memread. by rewrite decide_False by lia. Qed.

Lemma stringsz_short s : cptr_short s → 2 ≤ stringsz s < 65538.
Proof. destruct s as [s|]; simpl; unfold BIT16SZ; change (2 ^ 16) with 65536; lia. Qed.

(** Lengths of concatenated fields. *)
Ltac lens :=
  unfold STATFIXLEN, QIDSZ, BIT8SZ, BIT16SZ, BIT32SZ, BIT64SZ, MAXWELEM, IOHDRSZ in *;
  rewrite ?length_app, ?Nat2Z.inj_add, ?len_PBIT8, ?len_PBIT16, ?len_PBIT32,
    ?len_PBIT64, ?len_pstring, ?len_pqid, ?len_takeZ by (ranges; lia); cbn [length];
  unfold STATFIXLEN, QIDSZ, BIT8SZ, BIT16SZ, BIT32SZ, BIT64SZ, MAXWELEM, IOHDRSZ in *;
  try lia.

(** Run the decoder over fields whose encodings are concatenated. *)
Ltac decode :=
  rewrite <- ?app_assoc;
  repeat (cbn [mbind res_bind];
    first [ rewrite GBIT8_PBIT8 | rewrite GBIT16_PBIT16 | rewrite GBIT32_PBIT32
          | rewrite GBIT64_PBIT64
          | rewrite dropZ_app by (first [done | lens])
          | rewrite gstring_pstring by done
          | rewrite gqid_pqid by done
          | rewrite need_ok by (ranges; lens)
          | rewrite u8_small by (ranges; lia) | rewrite u16_small by (ranges; lia)
          | rewrite u32_small by (ranges; lia) | rewrite s64_u64 by done ]).

Lemma canon_intro t f f' :
  mtype_of (f_type f) = Some t → f_type f' = f_type f → canon_of t f' = canon_of t f →
  canon f' = canon f.
Proof. intros Ht Hty Hc. unfold canon. by rewrite Hty, Ht. Qed.

(** The announced bytes of a data pointer survive the trip. *)
Ltac same_data p r :=
  lazymatch goal with |- ?lhs = ?rhs =>
    match rhs with context [takeZ ?n (p ?f)] =>
      match lhs with context [takeZ ?n' (p ?g)] =>
        replace (takeZ n' (p g)) with (takeZ n (p f))
          by (symmetry; change (takeZ n (takeZ n (p f) ++ r) = takeZ n (p f));
              apply takeZ_app; ranges; lens) end end end.

Ltac case_body Ht :=
  eexists; split_and!;
  [ rewrite ?memread_ok by done; done | do 2 f_equal; try done; lens | ranges; lens |];
  intros g r Hg1 Hg2 Hg3 Hg4; decode; eexists; split; [done |];
  apply (canon_intro _ _ _ Ht); [done |];
  unfold canon_of; rewrite <- Hg1, <- Hg2; try done;
  first [ same_data f_data r | same_data f_stat r ]; done.

Definition case_roundtrip (t : mtype) (f : Fcall) : Prop :=
  ∃ body, enc t f = Ok body ∧ sizeS2M f = Ok (u32 (BIT32SZ + BIT8SZ + BIT16SZ + len body)) ∧
    len body < 2 ^ 32 - 7 ∧
    ∀ g r, f_type g = f_type f → f_tag g = f_tag f →
      len (f_wname g) = MAXWELEM → len (f_wqid g) = MAXWELEM →
      ∃ f', dec t (body ++ r) g = Ok (f', r) ∧ canon f' = canon f.

Lemma wname_sizes_bound n i w sz :
  wname_sizes n i w = Ok sz → Forall cptr_short (take (i + n) w) →
  0 ≤ sz ≤ Z.of_nat n * 65538.
Proof.
  revert i sz. induction n as [|n IH]; intros i sz H Hw; cbn [wname_sizes] in H.
  - injection H as <-. lia.
  - apply bind_Ok in H as (s & Hs & H). apply bind_Ok in H as (r & Hr & [= <-]).
    destruct (w !! i) eqn:Hi; [injection Hs as -> | done].
    assert (cptr_short s) as Hsh
      by (apply (Forall_lookup_1 _ _ i _ Hw), lookup_take_Some; split; [done | lia]).
    pose proof (stringsz_short s Hsh). rewrite <- (plus_n_Sm i n) in Hw.
    apply IH in Hr; [lia | done].
Qed.

Lemma take_spliced {A} n (w l : list A) :
  (n ≤ length w)%nat → take n (take 0 l ++ take n (drop 0 w) ++ drop (0 + n) l) = take n w.
Proof.
  intros. rewrite take_0, drop_0. cbn [app].
  rewrite take_app_le by (rewrite length_take; lia). by rewrite take_take, Nat.min_id.
Qed.

Lemma norm_idem s : norm (norm s) = norm s.
Proof. done. Qed.

Lemma take_norm n (w l : list cptr) :
  (n ≤ length w)%nat →
  norm <$> take n (take 0 l ++ (norm <$> take n (drop 0 w)) ++ drop (0 + n) l)
  = norm <$> take n w.
Proof.
  intros. rewrite take_0, drop_0. cbn [app].
  rewrite take_app_le by (rewrite length_fmap, length_take; lia).
  rewrite <- fmap_take, take_take, Nat.min_id, <- list_fmap_compose. done.
Qed.

Lemma walk_roundtrip f :
  mtype_of (f_type f) = Some Twalk → fcall_wt f → encodable f → case_roundtrip Twalk f.
Proof.
  intros Ht [] He. unfold encodable in He. rewrite Ht in He. destruct He as [Hn Hsh].
  destruct (pwnames_ok (Z.to_nat (f_nwname f)) 0 (f_wname f)) as (names & Hp & Hsz);
    [ranges; unfold MAXWELEM in *; lia |].
  pose proof (wname_sizes_bound _ _ _ _ Hsz Hsh) as Hb.
  unfold case_roundtrip, enc, dec, sizeS2M. rewrite Ht. cbn [convS2M_T convM2S_T is_T].
  rewrite Hp, Hsz, decide_False by lia. cbn [mbind res_bind].
  eexists; split_and!; [done | do 2 f_equal; lens | ranges; lens |].
  intros g r Hg1 Hg2 Hg3 Hg4. decode. rewrite decide_False by lia.
  rewrite (gwnames_pwnames _ _ _ _ _ _ Hp) by (cbn; ranges; unfold MAXWELEM in *; lia || done).
  eexists; split; [done |]. apply (canon_intro _ _ _ Ht); [done |].
  unfold canon_of. rewrite <- Hg1, <- Hg2.
  lazymatch goal with |- ?lhs = _ => match lhs with context [norm <$> take ?n (f_wname ?g')] =>
    replace (norm <$> take n (f_wname g')) with
      (norm <$> take (Z.to_nat (f_nwname f)) (f_wname f)) end end; [done |].
  symmetry. apply (take_norm (Z.to_nat (f_nwname f)) (f_wname f) (f_wname g)).
  ranges; lens.
Qed.

Lemma rwalk_roundtrip f :
  mtype_of (f_type f) = Some Rwalk → fcall_wt f → encodable f → case_roundtrip Rwalk f.
Proof.
  intros Ht [] Hn. unfold encodable in Hn. rewrite Ht in Hn.
  destruct (pwqids_ok (Z.to_nat (f_nwqid f)) 0 (f_wqid f)) as (qids & Hp & Hsz);
    [ranges; unfold MAXWELEM in *; lia |].
  unfold case_roundtrip, enc, dec, sizeS2M. rewrite Ht. cbn [convS2M_R convM2S_R is_T].
  rewrite Hp, decide_False by lia. cbn [mbind res_bind].
  eexists; split_and!; [done | do 2 f_equal; lens; ranges; lia | ranges; lens |].
  intros g r Hg1 Hg2 Hg3 Hg4. decode. rewrite decide_False by lia.
  rewrite (gwqids_pwqids _ _ _ _ _ _ Hp) by (cbn; ranges; unfold MAXWELEM in *; lia || done).
  eexists; split; [done |]. apply (canon_intro _ _ _ Ht); [done |].
  unfold canon_of. rewrite <- Hg1, <- Hg2.
  lazymatch goal with |- ?lhs = _ => match lhs with context [take ?n (f_wqid ?g')] =>
    replace (take n (f_wqid g')) with
      (take (Z.to_nat (f_nwqid f)) (f_wqid f)) end end; [done |].
  symmetry. apply (take_spliced (Z.to_nat (f_nwqid f)) (f_wqid f) (f_wqid g)).
  ranges; lens.
Qed.

Lemma body_roundtrip t f :
  mtype_of (f_type f) = Some t → fcall_wt f → encodable f → case_roundtrip t f.
Proof.
  intros Ht Hwt He.
  assert (t = Twalk ∨ t = Rwalk ∨ t ≠ Twalk ∧ t ≠ Rwalk) as [-> | [-> | [HT HR]]]
    by (destruct t; tauto || (right; right; done)).
  { by apply walk_roundtrip. }
  { by apply rwalk_roundtrip. }
  destruct Hwt. unfold encodable in He. rewrite Ht in He.
  destruct t; try done;
  unfold case_roundtrip, enc, dec, sizeS2M; rewrite Ht;
  cbn [convS2M_T convS2M_R convM2S_T convM2S_R mbind res_bind].
  all: lazymatch type of He with _ ∧ _ => destruct He as [He1 He2] | _ => idtac end.
  all: repeat match goal with
    | H : cptr_short ?s |- _ => lazymatch goal with
        | _ : 2 ≤ stringsz s < 65538 |- _ => fail
        | _ => pose proof (stringsz_short s H) end
    end.
  all: case_body Ht.
Qed.

Lemma fcall_wt_arrays f : fcall_wt f → len (f_wname f) = MAXWELEM ∧ len (f_wqid f) = MAXWELEM.
Proof. by intros []. Qed.

(** ** Memory safety of the decoder *)

Lemma need_inv n p u : need n p = Ok u → n ≤ len p.
Proof. unfold need. case_decide; [done | lia]. Qed.

Lemma need_safe n p : safe (need n p).
Proof. unfold need. by case_decide. Qed.

Lemma GBIT8_safe p : 1 ≤ len p → safe (GBIT8 p).
Proof. destruct p; simpl; [lia | done]. Qed.
Lemma GBIT16_safe p : 2 ≤ len p → safe (GBIT16 p).
Proof. destruct p as [|? [|? p]]; simpl; [lia.. | done]. Qed.
Lemma GBIT32_safe p : 4 ≤ len p → safe (GBIT32 p).
Proof. destruct p as [|? [|? [|? [|? p]]]]; simpl; [lia.. | done]. Qed.
Lemma GBIT64_safe p : 8 ≤ len p → safe (GBIT64 p).
Proof. do 8 (destruct p as [|? p]; [simpl; lia |]). done. Qed.

(** Walk through a parser: each read is covered by the guard before it. *)
Ltac safe_parse :=
  repeat match goal with
  | H : need ?n ?p = Ok _ |- _ => apply need_inv in H
  | |- safe (need _ _) => apply need_safe
  | |- safe (GBIT8 _) => apply GBIT8_safe
  | |- safe (GBIT16 _) => apply GBIT16_safe
  | |- safe (GBIT32 _) => apply GBIT32_safe
  | |- safe (GBIT64 _) => apply GBIT64_safe
  | |- safe (_ ≫= _) => apply safe_bind; [| intros]
  | |- safe (let '(_, _) := ?x in _) => destruct x
  | |- safe (if decide ?P then _ else _) => case_decide
  | |- safe (Ok _) => apply safe_Ok
  | |- safe Err => apply safe_Err
  | |- _ ≤ len _ => rewrite ?len_dropZ by done; unfold STATFIXLEN, QIDSZ, BIT8SZ, BIT16SZ,
      BIT32SZ, BIT64SZ in *; lia
  end.

Lemma gstring_safe p : safe (gstring p).
Proof. unfold gstring. safe_parse. Qed.

Lemma gqid_safe p : safe (gqid p).
Proof. unfold gqid. safe_parse. Qed.

Lemma gwnames_safe n i p f : safe (gwnames n i p f).
Proof.
  revert i p f. induction n as [|n IH]; intros i p f; cbn [gwnames]; [done |].
  apply safe_bind; [apply gstring_safe | intros []; auto].
Qed.

Lemma gwqids_safe n i p f : safe (gwqids n i p f).
Proof.
  revert i p f. induction n as [|n IH]; intros i p f; cbn [gwqids]; [done |].
  apply safe_bind; [apply gqid_safe | intros []; auto].
Qed.

#[export] Hint Resolve gstring_safe gqid_safe gwnames_safe gwqids_safe : p9.

Lemma dec_safe t p f : safe (dec t p f).
Proof.
  unfold dec. destruct t; cbn [is_T mtype_code Z.even convM2S_T convM2S_R];
    safe_parse; auto with p9.
Qed.

(** ** What the decoder consumed

    [field c b]: the decoder consumed the bytes [c] for something the encoder
    writes as [b]: never more bytes, and the same ones unless a string lost
    characters after an embedded NUL. *)
Definition field (c b : list Z) : Prop := len b ≤ len c ∧ (len b = len c → b = c).

Lemma field_refl b : field b b.
Proof. done. Qed.

Lemma field_app c1 b1 c2 b2 : field c1 b1 → field c2 b2 → field (c1 ++ c2) (b1 ++ b2).
Proof.
  intros [Hl1 He1] [Hl2 He2]. unfold field. rewrite !length_app. split; [lia |].
  intros. rewrite He1, He2 by lia. done.
Qed.

Lemma GBIT8_inv p v : GBIT8 p = Ok v → bytes_ok p →
  p = PBIT8 v ++ dropZ BIT8SZ p ∧ is_u8 v.
Proof.
  intros Hv Hb. rewrite (PBIT8_GBIT8 p v Hv Hb). split; [symmetry; apply (take_drop 1) |].
  destruct p; [done |]. injection Hv as <-. by apply bytes_ok_cons in Hb as [? _].
Qed.

Lemma GBIT16_inv p v : GBIT16 p = Ok v → bytes_ok p →
  p = PBIT16 v ++ dropZ BIT16SZ p ∧ is_u16 v.
Proof.
  intros Hv Hb. rewrite (PBIT16_GBIT16 p v Hv Hb). split; [symmetry; apply (take_drop 2) |].
  destruct (GBIT16_ok p) as (w & Hw & Hr); [| done | congruence].
  destruct p as [|? [|]]; simpl in *; [done | done | lia].
Qed.

Lemma GBIT32_inv p v : GBIT32 p = Ok v → bytes_ok p →
  p = PBIT32 v ++ dropZ BIT32SZ p ∧ is_u32 v.
Proof.
  intros Hv Hb. rewrite (PBIT32_GBIT32 p v Hv Hb). split; [symmetry; apply (take_drop 4) |].
  destruct (GBIT32_ok p) as (w & Hw & Hr); [| done | congruence].
  destruct p as [|? [|? [|? [|]]]]; simpl in *; [done.. | lia].
Qed.

Lemma GBIT64_inv p v : GBIT64 p = Ok v → bytes_ok p →
  p = PBIT64 v ++ dropZ BIT64SZ p ∧ is_u64 v.
Proof.
  intros Hv Hb. rewrite (PBIT64_GBIT64 p v Hv Hb). split; [symmetry; apply (take_drop 8) |].
  destruct (GBIT64_ok p) as (w & Hw & Hr); [| done | congruence].
  destruct (decide (8 ≤ len p)); [done |].
  exfalso. do 8 (destruct p as [|? p]; [by cbv in Hv |]). cbn in *; lia.
Qed.

Lemma gstring_inv p s r : gstring p = Ok (s, r) → bytes_ok p →
  ∃ c, p = c ++ r ∧ field c (pstring s) ∧ cptr_ok s ∧ cptr_short s ∧ bytes_ok r.
Proof.
  unfold gstring. intros H Hb. apply bind_Ok in H as (? & Hn & H).
  apply bind_Ok in H as (n & Hv & H). apply bind_Ok in H as (? & Hn' & [= <- <-]).
  destruct (GBIT16_inv _ _ Hv Hb) as [Hp Hr]. apply need_inv in Hn, Hn'.
  set (q := dropZ BIT16SZ p) in *.
  assert (bytes_ok q) by (by apply bytes_ok_dropZ).
  destruct (cstring_prefix (takeZ n q)) as [k Hk].
  assert (len (takeZ n q) = n) as Hlen by (apply len_takeZ; ranges; lia).
  assert (len (cstring (takeZ n q)) ≤ n) by (rewrite <- Hlen, Hk at 2; rewrite length_app; lia).
  exists (PBIT16 n ++ takeZ n q). split_and!.
  - rewrite <- app_assoc, takeZ_dropZ. done.
  - unfold field. cbn [pstring]. rewrite !length_app, !Nat2Z.inj_add, !len_PBIT16, Hlen.
    split; [lia |]. intros Heq. assert (len (cstring (takeZ n q)) = n) as Hl by lia.
    rewrite Hl. f_equal. rewrite Hk at 2. rewrite (nil_length_inv k), app_nil_r; [done |].
    apply (f_equal length) in Hk. rewrite length_app in Hk. lia.
  - simpl. auto with p9.
  - simpl. ranges. lia.
  - auto with p9.
Qed.

Lemma gqid_inv p q r : gqid p = Ok (q, r) → bytes_ok p →
  p = pqid q ++ r ∧ qid_ok q ∧ bytes_ok r.
Proof.
  unfold gqid. intros H Hb. apply bind_Ok in H as (? & Hn & H).
  apply bind_Ok in H as (t & Ht & H). apply bind_Ok in H as (v & Hv & H).
  apply bind_Ok in H as (a & Ha & [= <- <-]).
  destruct (GBIT8_inv _ _ Ht Hb) as [Hp1 Hr1].
  destruct (GBIT32_inv _ _ Hv) as [Hp2 Hr2]; [auto with p9 |].
  destruct (GBIT64_inv _ _ Ha) as [Hp3 Hr3]; [auto with p9 |].
  split_and!; [| by constructor | auto with p9].
  rewrite Hp1 at 1. rewrite Hp2 at 1. rewrite Hp3 at 1. unfold pqid. by rewrite <- !app_assoc.
Qed.

Lemma gwnames_inv n i p f f' r :
  gwnames n i p f = Ok (f', r) → bytes_ok p → (i + n ≤ length (f_wname f))%nat →
  Forall cptr_ok (f_wname f) → Forall cptr_short (take i (f_wname f)) →
  ∃ c b ws, p = c ++ r ∧ bytes_ok r ∧ f' = f <| f_wname := ws |> ∧
    length ws = length (f_wname f) ∧ (∀ j, (j < i)%nat → ws !! j = f_wname f !! j) ∧
    Forall cptr_ok ws ∧ Forall cptr_short (take (i + n) ws) ∧
    pwnames n i ws = Ok b ∧ field c b.
Proof.
  revert i p f. induction n as [|n IH]; intros i p f H Hb Hl Hok Hsh; cbn [gwnames pwnames] in *.
  - injection H as <- <-. exists [], [], (f_wname f). rewrite Nat.add_0_r.
    split_and!; try done. by destruct f.
  - apply bind_Ok in H as ([s q] & Hs & H).
    destruct (gstring_inv _ _ _ Hs Hb) as (c & Hp & Hf & Hs1 & Hs2 & Hq).
    destruct (IH _ _ _ H Hq) as (c' & b' & ws & Hq' & Hr & Hf' & Hlen & Hj & Hok' & Hsh' & Hpw & Hfd).
    { cbn. rewrite length_insert. lia. }
    { cbn. by apply Forall_insert. }
    { cbn. rewrite (take_S_r _ _ s) by (apply list_lookup_insert_eq; lia).
      rewrite take_insert_ge by lia. apply Forall_app; split; [done | by repeat constructor]. }
    cbn in Hlen, Hj. rewrite length_insert in Hlen.
    exists (c ++ c'), (pstring s ++ b'), ws. rewrite <- app_assoc, <- Hq'.
    rewrite <- (plus_n_Sm i n). split_and!; try done.
    + intros j Hji. rewrite Hj, list_lookup_insert_ne by lia. done.
    + rewrite Hj, list_lookup_insert_eq by lia. cbn [res_of_option mbind res_bind].
      by rewrite Hpw.
    + by apply field_app.
Qed.

Lemma gwqids_inv n i p f f' r :
  gwqids n i p f = Ok (f', r) → bytes_ok p → (i + n ≤ length (f_wqid f))%nat →
  Forall qid_ok (f_wqid f) →
  ∃ c ws, p = c ++ r ∧ bytes_ok r ∧ f' = f <| f_wqid := ws |> ∧
    length ws = length (f_wqid f) ∧ (∀ j, (j < i)%nat → ws !! j = f_wqid f !! j) ∧
    Forall qid_ok ws ∧ pwqids n i ws = Ok c.
Proof.
  revert i p f. induction n as [|n IH]; intros i p f H Hb Hl Hok; cbn [gwqids pwqids] in *.
  - injection H as <- <-. exists [], (f_wqid f). split_and!; try done. by destruct f.
  - apply bind_Ok in H as ([s q] & Hs & H).
    destruct (gqid_inv _ _ _ Hs Hb) as (Hp & Hs1 & Hq).
    destruct (IH _ _ _ H Hq) as (c' & ws & Hq' & Hr & Hf' & Hlen & Hj & Hok' & Hpw).
    { cbn. rewrite length_insert. lia. }
    { cbn. by apply Forall_insert. }
    cbn in Hlen, Hj. rewrite length_insert in Hlen.
    exists (pqid s ++ c'), ws. rewrite <- app_assoc, <- Hq'. split_and!; try done.
    + intros j Hji. rewrite Hj, list_lookup_insert_ne by lia. done.
    + rewrite Hj, list_lookup_insert_eq by lia. cbn [res_of_option mbind res_bind].
      by rewrite Hpw.
Qed.

(** Invert a successful parse: each field read is split off the front. *)
Ltac name_rest q tac :=
  let q' := fresh "p" in let E := fresh in
  remember q as q' eqn:E; clear E; tac.

Ltac inv_get H inv q size :=
  let Hq := fresh in
  destruct (inv q _ H ltac:(assumption)) as [Hq ?]; clear H;
  assert (bytes_ok (dropZ size q)) by (apply bytes_ok_dropZ; assumption);
  name_rest (dropZ size q) ltac:(subst q).

Ltac inv_parse :=
  repeat match goal with
  | H : need _ _ = Ok _ |- _ => apply need_inv in H
  | H : GBIT8 ?q = Ok _ |- _ => inv_get H GBIT8_inv q BIT8SZ
  | H : GBIT16 ?q = Ok _ |- _ => inv_get H GBIT16_inv q BIT16SZ
  | H : GBIT32 ?q = Ok _ |- _ => inv_get H GBIT32_inv q BIT32SZ
  | H : GBIT64 ?q = Ok _ |- _ => inv_get H GBIT64_inv q BIT64SZ
  | H : gstring ?q = Ok (_, _) |- _ =>
      let Hq := fresh in
      destruct (gstring_inv q _ _ H ltac:(assumption)) as (? & Hq & ? & ? & ? & ?);
      clear H; subst q
  | H : gqid ?q = Ok (_, _) |- _ =>
      let Hq := fresh in
      destruct (gqid_inv q _ _ H ltac:(assumption)) as (Hq & ? & ?); clear H; subst q
  | H : (let '(_, _) := ?x in _) = Ok _ |- _ => destruct x
  | H : (_ ≫= _) = Ok _ |- _ =>
      let x := fresh "v" in let Hx := fresh in
      apply bind_Ok in H as (x & Hx & H); cbn beta iota zeta in H
  | H : (if decide _ then Err else _) = Ok _ |- _ => case_decide; [discriminate H |]
  | x : () |- _ => destruct x
  | H : Err = Ok _ |- _ => discriminate H
  end.

Lemma field_offset v : is_u64 v → field (PBIT64 v) (PBIT64 (s64 v)).
Proof. intros. by rewrite <- (PBIT64_u64 (s64 v)), u64_s64. Qed.

(** The seven facts about a decoded case, from the inverted parse. *)
Ltac dec_facts Ht f :=
  split_and!;
  [ done | done
  | constructor; first [assumption | apply s64_range | by apply bytes_ok_dropZ]
  | unfold encodable;
    lazymatch goal with |- context [mtype_of (f_type ?g)] =>
      change (mtype_of (f_type g)) with (mtype_of (f_type f)) end; rewrite Ht;
    lazymatch goal with
    | |- True => exact I
    | |- cptr_short _ => assumption
    | |- cptr_short _ ∧ _ => split; assumption
    | |- _ => idtac end
  | first [assumption | by apply bytes_ok_dropZ]
  | ].

Ltac solve_field :=
  lazymatch goal with
  | |- field (_ ++ _) (_ ++ _) => apply field_app; solve_field
  | |- field (PBIT64 _) _ => first [apply field_refl | apply field_offset; assumption]
  | |- field _ (pstring _) => assumption
  | |- _ => first [apply field_refl | assumption]
  end.

(** The data pointer is the rest of the buffer: cut it at the announced count. *)
Ltac cut_data :=
  try lazymatch goal with |- context [dropZ ?n ?q] =>
    rewrite <- (takeZ_dropZ n q) at 1 end.

Ltac data_fits :=
  first [ assumption
        | split; [assumption |]; lazy beta iota zeta delta [update f_count];
          match goal with H : len _ + _ < _ |- _ => revert H end; ranges; lens ].

Ltac dec_fields :=
  eexists _, _; split_and!;
  [ lazymatch goal with
    | |- _ ++ _ = _ => cut_data; rewrite ?app_assoc; reflexivity
    | |- _ => symmetry; apply app_nil_l end
  | unfold enc; cbn [is_T mtype_code Z.even convS2M_T convS2M_R];
    rewrite ?memread_ok by assumption; reflexivity
  | rewrite <- ?app_assoc; solve_field ].

Lemma dec_inv t p f f' r :
  dec t p f = Ok (f', r) → mtype_of (f_type f) = Some t → bytes_ok p → fcall_wt f →
  len p + (BIT32SZ + BIT8SZ + BIT16SZ) < 2 ^ 32 →
  f_type f' = f_type f ∧ f_tag f' = f_tag f ∧ fcall_wt f' ∧ encodable f' ∧
  bytes_ok r ∧ ∃ c b, p = c ++ r ∧ enc t f' = Ok b ∧ field c b.
Proof.
  intros H Ht Hb [] Hlen.
  unfold dec in H. destruct t; try discriminate H;
    cbn [is_T mtype_code Z.even convM2S_T convM2S_R] in H; inv_parse.
  all: lazymatch type of Ht with
    | _ = Some Twalk => idtac | _ = Some Rwalk => idtac
    | _ = _ => injection H as <- <-; dec_facts Ht f;
        first [lazymatch goal with |- ∃ _, _ => dec_fields end | data_fits] end.
  all: lazymatch type of Ht with
    | _ = Some Twalk => 
      apply gwnames_inv in H as (c & b & ws & -> & Hr & -> & Hlw & _ & Hok & Hsh & Hp & Hfd);
        [| assumption | cbn; ranges; lens | assumption | done];
      assert (len ws = MAXWELEM) by (by rewrite Hlw)
    | _ = _ =>
      apply gwqids_inv in H as (c & ws & -> & Hr & -> & Hlw & _ & Hok & Hp);
        [| assumption | cbn; ranges; lens | assumption];
      assert (len ws = MAXWELEM) by (by rewrite Hlw) end.
  - dec_facts Ht f;
    [split; [unfold MAXWELEM in *; lazy beta iota zeta delta [update f_nwname]; lia | exact Hsh] |].
    eexists _, _; split_and!;
    [ rewrite ?app_assoc; reflexivity
    | unfold enc; cbn [is_T mtype_code Z.even convS2M_T];
      rewrite decide_False by assumption;
      lazymatch type of Hp with ?l = _ =>
        lazymatch goal with |- context [pwnames ?n 0%nat ?w] => change (pwnames n 0%nat w) with l end end;
      rewrite Hp; reflexivity
    | rewrite <- ?app_assoc; solve_field ].
  - dec_facts Ht f; [unfold MAXWELEM in *; lazy beta iota zeta delta [update f_nwqid]; lia |].
    eexists _, _; split_and!;
    [ rewrite ?app_assoc; reflexivity
    | unfold enc; cbn [is_T mtype_code Z.even convS2M_R];
      rewrite decide_False by assumption;
      lazymatch type of Hp with ?l = _ =>
        lazymatch goal with |- context [pwqids ?n 0%nat ?w] => change (pwqids n 0%nat w) with l end end;
      rewrite Hp; reflexivity
    | rewrite <- ?app_assoc; solve_field ].
Qed.

(** ** The encoder sees only the message *)

Lemma stringsz_norm s : stringsz s = stringsz (norm s).
Proof. by destruct s. Qed.

Lemma pstring_norm s : pstring s = pstring (norm s).
Proof. by destruct s. Qed.

Lemma memread_takeZ d n : memread d n = memread (takeZ n d) n.
Proof.
  unfold memread, takeZ. rewrite length_take, take_take, Nat.min_id.
  repeat case_decide; lia || done.
Qed.

Lemma lookup_norm_take (w : list cptr) m i :
  (i < m)%nat → (norm <$> take m w) !! i = norm <$> (w !! i).
Proof. intros. by rewrite list_lookup_fmap, lookup_take_lt. Qed.

Lemma wname_sizes_norm n i m w :
  (i + n ≤ m)%nat → wname_sizes n i w = wname_sizes n i (norm <$> take m w).
Proof.
  revert i. induction n as [|n IH]; intros i Hm; cbn [wname_sizes]; [done |].
  rewrite lookup_norm_take, <- IH by lia. destruct (w !! i); [| done].
  cbn [fmap option_fmap option_map res_of_option mbind res_bind]. by rewrite <- stringsz_norm.
Qed.

Lemma pwnames_norm n i m w :
  (i + n ≤ m)%nat → pwnames n i w = pwnames n i (norm <$> take m w).
Proof.
  revert i. induction n as [|n IH]; intros i Hm; cbn [pwnames]; [done |].
  rewrite lookup_norm_take, <- IH by lia. destruct (w !! i); [| done].
  cbn [fmap option_fmap option_map res_of_option mbind res_bind]. by rewrite <- pstring_norm.
Qed.

Lemma pwqids_take n i m w :
  (i + n ≤ m)%nat → pwqids n i w = pwqids n i (take m w).
Proof.
  revert i. induction n as [|n IH]; intros i Hm; cbn [pwqids]; [done |].
  by rewrite lookup_take_lt, <- IH by lia.
Qed.

Lemma canon_type f : f_type (canon f) = f_type f.
Proof. unfold canon. destruct (mtype_of _) as [[]|]; reflexivity. Qed.

Lemma canon_tag f : f_tag (canon f) = f_tag f.
Proof. unfold canon. destruct (mtype_of _) as [[]|]; reflexivity. Qed.

Lemma sizeS2M_canon f : sizeS2M f = sizeS2M (canon f).
Proof.
  unfold sizeS2M. rewrite canon_type. destruct (mtype_of (f_type f)) as [t|] eqn:Ht; [| done].
  unfold canon. rewrite Ht. destruct t; try reflexivity;
    rewrite ?(stringsz_norm (f_version f)), ?(stringsz_norm (f_uname f)),
      ?(stringsz_norm (f_aname f)), ?(stringsz_norm (f_name f)), ?(stringsz_norm (f_ename f));
    try reflexivity.
  by rewrite (wname_sizes_norm _ 0 (Z.to_nat (f_nwname f))).
Qed.

Lemma enc_canon t f : mtype_of (f_type f) = Some t → enc t f = enc t (canon f).
Proof.
  intros Ht. unfold canon. rewrite Ht. unfold enc.
  destruct t; try reflexivity; cbn [is_T mtype_code Z.even convS2M_T convS2M_R];
    rewrite ?(pstring_norm (f_version f)), ?(pstring_norm (f_uname f)),
      ?(pstring_norm (f_aname f)), ?(pstring_norm (f_name f)), ?(pstring_norm (f_ename f)),
      ?(memread_takeZ (f_data f)), ?(memread_takeZ (f_stat f));
    try reflexivity.
  - by rewrite (pwnames_norm _ 0 (Z.to_nat (f_nwname f))).
  - by rewrite (pwqids_take _ 0 (Z.to_nat (f_nwqid f))).
Qed.

#[export] Instance sizeS2M_proper : Proper (equiv ==> eq) sizeS2M.
Proof.
  intros f g Hfg. unfold equiv, fcall_equiv in Hfg.
  by rewrite sizeS2M_canon, Hfg, <- sizeS2M_canon.
Qed.

(** ** The properties *)

(** The whole story of encoding one well-formed message. *)
Lemma encode_message f nap :
  fcall_wt f → encodable f →
  ∃ n, sizeS2M f = Ok n ∧ BIT32SZ + BIT8SZ + BIT16SZ ≤ n ∧ n < 2 ^ 32 ∧
    (nap < n → convS2M f nap = Err) ∧
    (n ≤ nap → ∃ out, convS2M f nap = Ok out ∧ len out = n ∧
       (∀ more, GBIT32 (out ++ more) = Ok n) ∧
       ∀ g, fcall_wt g → ∃ f', convM2S out g = Ok (n, f') ∧ f' ≡ f).
Proof.
  intros Hwt He.
  destruct (mtype_of (f_type f)) as [t|] eqn:Ht; [| unfold encodable in He; by rewrite Ht in He].
  destruct (body_roundtrip t f Ht Hwt He) as (body & Henc & Hsz & Hlen & Hdec).
  rewrite u32_small in Hsz by (ranges; lens).
  eexists. split; [done |]. split; [lens |]. split; [ranges; lens |].
  unfold convS2M. rewrite Hsz. cbn [mbind res_bind].
  rewrite decide_False by lens. split; intros Hnap; [by rewrite decide_True by lia |].
  rewrite decide_False, Ht by lia. unfold enc in Henc. rewrite Henc. cbn [mbind res_bind].
  set (out := PBIT32 _ ++ _).
  assert (len out = BIT32SZ + BIT8SZ + BIT16SZ + len body) as Hout by (unfold out; lens).
  rewrite !decide_False by lia. exists out. split_and!; [done | done | |].
  { intros more. unfold out. rewrite <- !app_assoc, GBIT32_PBIT32.
    f_equal. rewrite u32_small; [done | ranges; lens]. }
  intros g Hg. destruct (fcall_wt_arrays g Hg) as [Hg1 Hg2].
  destruct Hwt. unfold convM2S, out. rewrite need_ok by lens. decode.
  rewrite u32_small by (ranges; lens). rewrite decide_False by lens. cbn [mbind res_bind]. decode. rewrite Ht.
  destruct (Hdec (g <| f_type := f_type f |> <| f_tag := f_tag f |>) []) as (f' & Hf' & Hc);
    [done.. |].
  rewrite app_nil_r in Hf'. unfold dec in Hf'.
  destruct (is_T t); rewrite Hf'; cbn [mbind res_bind];
    (rewrite decide_True by lens); eauto.
Qed.

Lemma encoded_shape f nap out :
  fcall_wt f → encodable f → convS2M f nap = Ok out →
  BIT32SZ + BIT8SZ + BIT16SZ ≤ len out ∧ len out ≤ nap ∧
  (∀ more, GBIT32 (out ++ more) = Ok (len out)) ∧
  ∀ g, fcall_wt g → ∃ f', convM2S out g = Ok (len out, f') ∧ f' ≡ f.
Proof.
  intros Hwt He Hout. destruct (encode_message f nap Hwt He) as (n & _ & H1 & _ & H2 & H3).
  destruct (decide (nap < n)) as [Hn | Hn]; [by rewrite H2 in Hout |].
  destruct H3 as (out' & H4 & <- & H5 & H6); [lia |].
  rewrite Hout in H4. injection H4 as ->. split_and!; [done | lia | done | done].
Qed.

(** C1: the codec round trip.  For a well-typed message whose strings, arrays and
    data fit their counts, sizeS2M gives the exact encoded size; convS2M returns 0
    exactly when the buffer is smaller, and otherwise stores that many bytes, which
    convM2S accepts in full and decodes to the same message. *)
Theorem convS2M_convM2S f nap :
  fcall_wt f → encodable f →
  ∃ n, sizeS2M f = Ok n ∧
    (nap < n → convS2M f nap = Err) ∧
    (n ≤ nap → ∃ out, convS2M f nap = Ok out ∧ len out = n ∧
       ∀ g, fcall_wt g → ∃ f', convM2S out g = Ok (n, f') ∧ f' ≡ f).
Proof.
  intros Hwt He. destruct (encode_message f nap Hwt He) as (n & H1 & _ & _ & H2 & H3).
  exists n. split_and!; [done | done |]. intros Hn.
  destruct (H3 Hn) as (out & ? & ? & _ & ?). eauto.
Qed.

Lemma decode_safe ap f : safe (convM2S ap f).
Proof.
  unfold convM2S. safe_parse. destruct (mtype_of _) as [t|]; [| done].
  pose proof (dec_safe t) as Hd. unfold dec in Hd. destruct (is_T t); auto.
Qed.

Lemma gstring_some p v r : gstring p = Ok (v, r) → v ≠ None.
Proof.
  unfold gstring. intros H. repeat (apply bind_Ok in H as (? & _ & H)). repeat case_decide; try done.
  by injection H as <- <-.
Qed.

Lemma gwnames_keeps n i p f f' r :
  gwnames n i p f = Ok (f', r) → f_type f' = f_type f ∧ f_tag f' = f_tag f.
Proof.
  revert i p f. induction n as [|n IH]; intros i p f H; cbn [gwnames] in H; [by injection H as <- <- |].
  apply bind_Ok in H as ([v q] & _ & H). by apply IH in H.
Qed.

Lemma gwqids_keeps n i p f f' r :
  gwqids n i p f = Ok (f', r) → f_type f' = f_type f ∧ f_tag f' = f_tag f.
Proof.
  revert i p f. induction n as [|n IH]; intros i p f H; cbn [gwqids] in H; [by injection H as <- <- |].
  apply bind_Ok in H as ([v q] & _ & H). by apply IH in H.
Qed.

(** Decoding a body keeps type and tag; the strings received are not nil. *)
Lemma dec_keeps t p f f' r :
  dec t p f = Ok (f', r) →
  (f_type f' = f_type f ∧ f_tag f' = f_tag f) ∧
  (t = Tversion → f_version f' ≠ None) ∧ (t = Tattach → f_uname f' ≠ None).
Proof.
  unfold dec. intros H. destruct t; cbn [is_T mtype_code Z.even convM2S_T convM2S_R] in H; try done;
    repeat first
      [ discriminate H
      | lazymatch type of H with
        | gwnames _ _ _ _ = _ => by apply gwnames_keeps in H
        | gwqids _ _ _ _ = _ => by apply gwqids_keeps in H
        | (let '(_, _) := ?x in _) = _ => destruct x
        | (if _ then _ else _) = _ => case_decide
        | Ok _ = _ => injection H as <- <-
        | _ => let Hg := fresh in apply bind_Ok in H as (? & Hg & H)
        end ].
  all: cbn; repeat match goal with H : gstring _ = Ok _ |- _ => apply gstring_some in H end; auto.
Qed.

(** The tag of a message received is the one on the wire, and its strings are not nil. *)
Lemma decode_header ap g n f :
  convM2S ap g = Ok (n, f) →
  GBIT16 (dropZ (BIT32SZ + BIT8SZ) ap) = Ok (f_tag f) ∧
  (mtype_of (f_type f) = Some Tversion → f_version f ≠ None) ∧
  (mtype_of (f_type f) = Some Tattach → f_uname f ≠ None).
Proof.
  unfold convM2S. intros H. apply bind_Ok in H as (_ & _ & H). apply bind_Ok in H as (size & _ & H).
  case_decide; [done |]. apply bind_Ok in H as (type & _ & H). apply bind_Ok in H as (tag & Htag & H).
  apply bind_Ok in H as ([f' r] & Hd & H). case_decide; [| done]. injection H as _ <-.
  destruct (mtype_of type) as [t|] eqn:Ht; [| done].
  apply (dec_keeps t) in Hd as ([Hty Htg] & ? & ?). rewrite Hty, Htg. cbn. rewrite Ht.
  unfold dropZ in *. rewrite skipn_skipn in Htag. split; [by rewrite Nat.add_comm in Htag |].
  split; intros [= ->]; auto.
Qed.


Lemma decode_message ap g n f :
  convM2S ap g = Ok (n, f) → bytes_ok ap → len ap < 2 ^ 32 → fcall_wt g →
  BIT32SZ + BIT8SZ + BIT16SZ ≤ n ≤ len ap ∧ fcall_wt f ∧ encodable f ∧
  ∃ m, sizeS2M f = Ok m ∧ m ≤ n ∧
    (m = n → convS2M f n = Ok (takeZ n ap)).
Proof.
  unfold convM2S. intros H Hb Hlen Hg. inv_parse.
  match goal with H : match mtype_of ?v with _ => _ end = Ok (?f', ?l),
                  H' : (if decide (?sz = _) then _ else _) = _ |- _ =>
    rename H into Hd, H' into Hsize, v into type, l into rest, f' into f0, sz into size end.
  case_decide as Hn; [| done]. injection Hsize as -> ->.
  destruct (mtype_of type) as [t|] eqn:Ht; [| done].
  change (dec t p (g <| f_type := type |> <| f_tag := v2 |>) = Ok (f, rest)) in Hd.
  destruct (dec_inv _ _ _ _ _ Hd) as (Hty & Htag & Hwt & Henc & Hr & c & b & -> & Hb' & Hf);
    [done | assumption | by destruct Hg; constructor | revert Hlen; lens |].
  cbn in Hty, Htag.
  destruct (body_roundtrip t f) as (b' & Hb2 & Hsz & Hlb & _); [by rewrite Hty | done | done |].
  rewrite Hb' in Hb2. injection Hb2 as <-. rewrite u32_small in Hsz by (ranges; lens).
  assert (n = BIT32SZ + BIT8SZ + BIT16SZ + len c) as Hn' by (rewrite Hn; lens).
  destruct Hf as [Hle Heq]. split_and!; [lia | rewrite Hn'; lens | done | done |].
  eexists; split_and!; [done | lia |]. intros Hm.
  assert (b = c) as -> by (apply Heq; lia).
  rewrite !app_assoc, <- (app_assoc _ c rest). 
  unfold convS2M. rewrite Hsz, Hty, Htag, Ht. cbn [mbind res_bind].
  rewrite !decide_False by lens. change (enc t f = Ok c) in Hb'.
  unfold enc in Hb'. rewrite Hb'. cbn [mbind res_bind].
  rewrite Hm. rewrite !decide_False by lens. f_equal. symmetry.
  rewrite !app_assoc. apply takeZ_app. rewrite Hn'. lens.
Qed.


(** The encoder looks only at the message: two structs that denote the same
    message (they may differ in unused members, in array entries beyond the count,
    and nil stands for the empty string) encode to the same bytes, or fail alike. *)
Theorem convS2M_equiv f g nap : f ≡ g → convS2M f nap = convS2M g nap.
Proof.
  intros Hfg. unfold convS2M. rewrite <- Hfg.
  unfold equiv, fcall_equiv in Hfg.
  assert (f_type f = f_type g) as Hty by (by rewrite <- canon_type, Hfg, canon_type).
  assert (f_tag f = f_tag g) as Htag by (by rewrite <- canon_tag, Hfg, canon_tag).
  rewrite <- Hty, <- Htag. destruct (mtype_of (f_type f)) as [t|] eqn:Ht; [| done].
  change (if is_T t then convS2M_T t f else convS2M_R t f) with (enc t f).
  change (if is_T t then convS2M_T t g else convS2M_R t g) with (enc t g).
  by rewrite (enc_canon t f Ht), Hfg, <- (enc_canon t g) by (by rewrite <- Hty).
Qed.

(** A Twalk of two names, for the witnesses. *)
Definition sample_walk : Fcall :=
  fcall0 <| f_type := 110 |> <| f_tag := 7 |> <| f_fid := 1 |> <| f_newfid := 2 |>
    <| f_nwname := 2 |>
    <| f_wname := <[0%nat := Some [98; 105; 110]]> (<[1%nat := Some [114; 99]]>
                    (f_wname fcall0)) |>.

Ltac solve_wt :=
  constructor; try (cbn; ranges; unfold MAXWELEM; lia);
  repeat constructor; try (cbn; ranges; lia); try done.

Lemma fcall0_wt : fcall_wt fcall0.
Proof. solve_wt. Defined.

Lemma sample_walk_wt : fcall_wt sample_walk.
Proof. solve_wt. Defined.

Lemma sample_walk_encodable : encodable sample_walk.
Proof. split; [done | repeat constructor]. Defined.

Theorem convS2M_convM2S_witness :
  ∃ n, sizeS2M sample_walk = Ok n ∧
    (64 < n → convS2M sample_walk 64 = Err) ∧
    (n ≤ 64 → ∃ out, convS2M sample_walk 64 = Ok out ∧ len out = n ∧
       ∀ g, fcall_wt g → ∃ f', convM2S out g = Ok (n, f') ∧ f' ≡ sample_walk).
Proof.
  exact (convS2M_convM2S sample_walk 64 sample_walk_wt sample_walk_encodable).
Defined.

(** A received Tflush: size 9, type 108, tag 7, oldtag 3. *)
Definition flush_bytes : list Z := [9; 0; 0; 0; 108; 7; 0; 3; 0].


Theorem convS2M_equiv_witness :
  convS2M sample_walk 64 = convS2M (sample_walk <| f_count := 9 |>) 64.
Proof. apply convS2M_equiv. vm_compute. reflexivity. Defined.
