(* ===== verification/Stat.v ===== *)
(** * Stat: directory entries, their wire form, and message framing

    sys/src/libc/9sys/convD2M.c, convM2D.c, dirread.c (dirpackage),
    read9pmsg.c and sys/src/libc/port/readn.c.

    convM2D copies the four strings of a stat message to [strs]; lib9p passes the
    message buffer itself for [strs] (srv.c, swstat), so the model runs it on one
    memory in which both pointers are offsets, and the strings of the resulting
    Dir are read back from that memory after the call. *)

From S2P Require Import Prelude Bytes Fcall.

Record Dir : Type := mkDir {
  d_type : Z;
  d_dev : Z;
  d_qid : Qid;
  d_mode : Z;
  d_atime : Z;
  d_mtime : Z;
  d_length : Z;
  d_name : cptr;
  d_uid : cptr;
  d_gid : cptr;
  d_muid : cptr
}.

#[export] Instance Dir_rebuild : Rebuild Dir := λ d,
  mkDir (d_type d) (d_dev d) (d_qid d) (d_mode d) (d_atime d) (d_mtime d)
    (d_length d) (d_name d) (d_uid d) (d_gid d) (d_muid d).

Definition dir0 : Dir := mkDir 0 0 qid0 0 0 0 0 None None None None.

(** ** convD2M *)

Definition strlen0 (s : cptr) : Z := len (default [] s).

Definition sv_of (d : Dir) : list cptr := [d_name d; d_uid d; d_gid d; d_muid d].

(** The lengths are summed in an [int]. *)
Definition sint (z : Z) : res Z :=
  if decide (- 2 ^ 31 ≤ z ∧ z < 2 ^ 31) then Ok z else Ub.

Fixpoint sum_strlen (sv : list cptr) (ns : Z) : res Z :=
  match sv with
  | [] => Ok ns
  | s :: sv => ns ← sint (ns + strlen0 s); sum_strlen sv ns
  end.

Definition sizeD2M (d : Dir) : res Z :=
  ns ← sum_strlen (sv_of d) 0;
  sint (STATFIXLEN + ns).

(** [for(i = 0; i < 4; i++)]: [p] is the offset from [buf]. *)
Fixpoint pstats (sv : list cptr) (p nbuf : Z) : res (list Z) :=
  match sv with
  | [] => Ok []
  | s :: sv =>
      let ns := strlen0 s in
      if decide (p + ns + BIT16SZ > nbuf) then Err else
      r ← pstats sv (p + BIT16SZ + ns) nbuf;
      Ok (PBIT16 ns ++ default [] s ++ r)
  end.

(** [convD2M(d, buf, nbuf)]: the value returned and the bytes stored at [buf]. *)
Definition convD2M (d : Dir) (nbuf : Z) : res (Z * list Z) :=
  if decide (nbuf < BIT16SZ) then Err else
  ns ← sum_strlen (sv_of d) 0;
  ss ← sint (STATFIXLEN + ns);
  let size := PBIT16 (ss - BIT16SZ) in
  if decide (ss > nbuf) then Ok (BIT16SZ, size) else
  let fixed :=
    size ++ PBIT16 (d_type d) ++ PBIT32 (d_dev d) ++ PBIT8 (q_type (d_qid d)) ++
    PBIT32 (q_vers (d_qid d)) ++ PBIT64 (q_path (d_qid d)) ++ PBIT32 (d_mode d) ++
    PBIT32 (d_atime d) ++ PBIT32 (d_mtime d) ++ PBIT64 (d_length d) in
  strs ← pstats (sv_of d) (len fixed) nbuf;
  let out := fixed ++ strs in
  if decide (ss ≠ len out) then Err else Ok (len out, out).

(** ** convM2D *)

(** [memmove(mem+dst, src, len src)] within one memory. *)
Definition memwrite (mem : list Z) (dst : Z) (src : list Z) : res (list Z) :=
  if decide (0 ≤ dst ∧ dst + len src ≤ len mem)
  then Ok (takeZ dst mem ++ src ++ dropZ (dst + len src) mem) else Ub.

(** The loop over the four strings, [k] of them left: the final memory, [p] and
    the pointers [sv]. *)
Fixpoint gstats (k : nat) (mem : list Z) (p ebuf : Z) (strs : option Z) :
    res (list Z * Z * list Z) :=
  match k with
  | O => Ok (mem, p, [])
  | S k =>
      if decide (p + BIT16SZ > ebuf) then Err else
      ns ← GBIT16 (dropZ p mem);
      let p := p + BIT16SZ in
      if decide (p + ns > ebuf) then Err else
      match strs with
      | None => gstats k mem (p + ns) ebuf None
      | Some strs =>
          src ← memread (dropZ p mem) ns;
          mem ← memwrite mem strs src;
          mem ← memwrite mem (strs + ns) [0];
          '(mem, p', sv) ← gstats k mem (p + ns) ebuf (Some (strs + ns + 1));
          Ok (mem, p', strs :: sv)
      end
  end.

(** A [char*] into memory. *)
Definition cstr_at (mem : list Z) (s : Z) : cptr := Some (cstring (dropZ s mem)).

(** [nullstring] when [strs] is nil. *)
Definition sv_at (mem : list Z) (sv : list Z) (i : nat) : cptr :=
  match sv !! i with Some s => cstr_at mem s | None => Some [] end.

(** [convM2D(buf, nbuf, d, strs)]: the value returned, the memory and [d]. *)
Definition convM2D (mem : list Z) (buf nbuf : Z) (strs : option Z) :
    res (Z * list Z * Dir) :=
  if decide (nbuf < STATFIXLEN) then Err else
  let ebuf := buf + nbuf in
  let p := dropZ (buf + BIT16SZ) mem in
  type ← GBIT16 p;
  let p := dropZ BIT16SZ p in
  dev ← GBIT32 p;
  let p := dropZ BIT32SZ p in
  qtype ← GBIT8 p;
  let p := dropZ BIT8SZ p in
  vers ← GBIT32 p;
  let p := dropZ BIT32SZ p in
  path ← GBIT64 p;
  let p := dropZ BIT64SZ p in
  mode ← GBIT32 p;
  let p := dropZ BIT32SZ p in
  atime ← GBIT32 p;
  let p := dropZ BIT32SZ p in
  mtime ← GBIT32 p;
  let p := dropZ BIT32SZ p in
  length ← GBIT64 p;
  '(mem, p, sv) ← gstats 4 mem (buf + (STATFIXLEN - 4 * BIT16SZ)) ebuf strs;
  Ok (p - buf, mem,
      mkDir type dev (mkQid path vers qtype) mode atime mtime (s64 length)
        (sv_at mem sv 0) (sv_at mem sv 1) (sv_at mem sv 2) (sv_at mem sv 3)).

(** ** statcheck: [Ok ()] for 0, [Err] for -1 *)

Fixpoint statstrs (k : nat) (mem : list Z) (buf ebuf : Z) : res Z :=
  match k with
  | O => Ok buf
  | S k =>
      if decide (buf + BIT16SZ > ebuf) then Err else
      n ← GBIT16 (dropZ buf mem);
      statstrs k mem (buf + (BIT16SZ + n)) ebuf
  end.

Definition statcheck (mem : list Z) (buf nbuf : Z) : res () :=
  let ebuf := buf + nbuf in
  if decide (nbuf < STATFIXLEN) then Err else
  n ← GBIT16 (dropZ buf mem);
  if decide (nbuf ≠ BIT16SZ + n) then Err else
  b ← statstrs 4 mem (buf + (STATFIXLEN - 4 * BIT16SZ)) ebuf;
  if decide (b ≠ ebuf) then Err else Ok ().

(** ** dirpackage

    [buf] is the front of the memory; the Dirs and their strings go to freshly
    allocated memory after it, of [ss] bytes for the strings (an allocation
    failure returns -1 like a malformed entry). *)

(** First loop: [i], [ss] and [n]; each turn advances [i] by at least 2. *)
Fixpoint count_stats (fuel : nat) (buf : list Z) (ts i ss n : Z) : res (Z * Z * Z) :=
  match fuel with
  | O => Ub
  | S fuel =>
      if decide (i < ts) then
        c ← GBIT16 (dropZ i buf);
        let m := BIT16SZ + c in
        match statcheck buf i m with
        | Ok _ => count_stats fuel buf ts (i + m) (ss + m) (n + 1)
        | Err => Ok (i, ss, n)
        | Ub => Ub
        end
      else Ok (i, ss, n)
  end.

(** Second loop: [nn] Dirs so far, [s] the next free string byte. *)
Fixpoint conv_stats (fuel : nat) (mem : list Z) (ts i n nn s : Z) : res (list Dir) :=
  match fuel with
  | O => Ub
  | S fuel =>
      if decide (i < ts) then
        c ← GBIT16 (dropZ i mem);
        let m := BIT16SZ + c in
        if decide (n ≤ nn) then Err else
        '(r, mem, d) ← convM2D mem i m (Some s);
        if decide (r ≠ m) then Err else
        ds ← conv_stats fuel mem ts (i + m) n (nn + 1) (s + m);
        Ok (d :: ds)
      else Ok []
  end.

Definition dirpackage (buf : list Z) (ts : Z) : res (list Dir) :=
  if decide (ts ≤ 0) then Ok [] else
  let fuel := S (Z.to_nat ts) in
  '(i, ss, n) ← count_stats fuel buf ts 0 0 0;
  if decide (i ≠ ts) then Err else
  conv_stats fuel (buf ++ replicate (Z.to_nat ss) 0) ts 0 n 0 (len buf).

(** ** readn and read9pmsg

    [read(f, a, n)] is the system call: it returns a count and, when the count is
    positive, that many bytes; the descriptor's state is threaded. *)
Section Read.
Context {St : Type}.
Variable read : St → Z → Z * list Z * St.

(** [t] bytes, [a], are already in the buffer. *)
Fixpoint readn_loop (fuel : nat) (st : St) (n t : Z) (a : list Z) : res (Z * list Z * St) :=
  match fuel with
  | O => Ub
  | S fuel =>
      if decide (t < n) then
        let '(m, bytes, st) := read st (n - t) in
        if decide (m ≤ 0) then
          if decide (t = 0) then Ok (m, a, st) else Ok (t, a, st)
        else readn_loop fuel st n (t + m) (a ++ bytes)
      else Ok (t, a, st)
  end.

Definition readn (st : St) (n : Z) : res (Z * list Z * St) :=
  readn_loop (S (Z.to_nat n)) st n 0 [].

(** The value returned and the bytes placed in the buffer, of size [n]. *)
Definition read9pmsg (st : St) (n : Z) : res (Z * list Z * St) :=
  '(m, buf, st) ← readn st BIT32SZ;
  if decide (m ≠ BIT32SZ) then
    if decide (m < 0) then Ok (-1, buf, st) else Ok (0, buf, st)
  else
  len ← GBIT32 buf;
  let len := s32 len in
  if decide (len ≤ BIT32SZ ∨ u32 len > n) then Ok (-1, buf, st) else
  let len := len - BIT32SZ in
  '(m, rest, st) ← readn st len;
  if decide (m < len) then Ok (0, buf ++ rest, st) else
  Ok (BIT32SZ + m, buf ++ rest, st).
End Read.
