(* ===== verification/StatProps.v ===== *)
(** * StatProps: correctness of the stat codec and of message framing

    Round trips of directory entries, with the strings copied away or over the message;
    safety and exact acceptance of the decoder; and reading messages and directories from
    a stream that the kernel may cut anywhere. *)

From S2P Require Import Prelude Bytes Fcall FcallProps Stat.

(** ** Memory as a list: slices and writes *)

Definition slice (a n : Z) (mem : list Z) : list Z := takeZ n (dropZ a mem).

Lemma len_slice a n mem : 0 ≤ a → 0 ≤ n → a + n ≤ len mem → len (slice a n mem) = n.
Proof. intros. unfold slice. rewrite len_takeZ; [done |]. rewrite len_dropZ by lia. lia. Qed.

Lemma slice_app a n m mem : 0 ≤ a → 0 ≤ n → 0 ≤ m →
  slice a (n + m) mem = slice a n mem ++ slice (a + n) m mem.
Proof.
  intros. unfold slice. rewrite <- dropZ_dropZ by done. generalize (dropZ a mem) as l.
  intros l. unfold takeZ, dropZ. rewrite Z2Nat.inj_add by done.
  by rewrite take_take_drop.
Qed.

Lemma slice_dropZ a n mem : 0 ≤ a → 0 ≤ n → slice a n mem ++ dropZ (a + n) mem = dropZ a mem.
Proof. intros. rewrite <- dropZ_dropZ by done. apply takeZ_dropZ. Qed.

Lemma slice_bytes_ok a n mem : bytes_ok mem → bytes_ok (slice a n mem).
Proof. unfold slice. auto with p9. Qed.

Lemma memread_slice mem p n :
  0 ≤ p → p + n ≤ len mem → memread (dropZ p mem) n = Ok (slice p n mem).
Proof. intros. apply memread_ok. rewrite len_dropZ by lia. lia. Qed.

Section Memwrite.
Variables (mem : list Z) (dst : Z) (src : list Z).
Hypothesis Hdst : 0 ≤ dst.
Hypothesis Hfit : dst + len src ≤ len mem.

Definition written : list Z := takeZ dst mem ++ src ++ dropZ (dst + len src) mem.

Lemma memwrite_ok : memwrite mem dst src = Ok written.
Proof. unfold memwrite. by rewrite decide_True by done. Qed.

Lemma length_written : length written = length mem.
Proof.
  unfold written, takeZ, dropZ. rewrite !length_app, length_take, length_drop. lia.
Qed.

Lemma written_before a n : 0 ≤ a → 0 ≤ n → a + n ≤ dst → slice a n written = slice a n mem.
Proof.
  intros. unfold slice, written, takeZ, dropZ.
  rewrite drop_app_le by (rewrite length_take; lia).
  rewrite take_app_le by (rewrite length_drop, length_take; lia).
  rewrite skipn_firstn_comm, take_take. f_equal. lia.
Qed.

Lemma written_after a n : dst + len src ≤ a → 0 ≤ n → slice a n written = slice a n mem.
Proof.
  intros. unfold slice, written, takeZ, dropZ. rewrite app_assoc.
  rewrite drop_app_ge by (rewrite length_app, length_take; lia).
  rewrite drop_drop. do 2 f_equal. rewrite length_app, length_take. lia.
Qed.

Lemma written_at : slice dst (len src) written = src.
Proof.
  unfold slice, written. rewrite dropZ_app by (rewrite len_takeZ; lia). by apply takeZ_app.
Qed.

Lemma written_bytes_ok : bytes_ok mem → bytes_ok src → bytes_ok written.
Proof. intros. unfold written. rewrite !bytes_ok_app. auto with p9. Qed.
End Memwrite.

(** [memmove(strs, p, ns); strs[ns] = 0;] is one write. *)
Lemma memwrite_string mem dst src :
  0 ≤ dst → dst + len src + 1 ≤ len mem →
  memwrite mem dst src = Ok (written mem dst src) ∧
  memwrite (written mem dst src) (dst + len src) [0] = Ok (written mem dst (src ++ [0])).
Proof.
  intros Hd Hf. split; [apply memwrite_ok; lia |].
  rewrite memwrite_ok by (rewrite ?length_written; simpl; lia). f_equal.
  unfold written. set (rest := dropZ (dst + len src) mem).
  assert (len (takeZ dst mem ++ src) = dst + len src) as Hl
    by (rewrite length_app, Nat2Z.inj_add, len_takeZ; lia).
  rewrite (app_assoc (takeZ dst mem) src rest).
  rewrite (takeZ_app (takeZ dst mem ++ src)) by done.
  rewrite <- (dropZ_dropZ (dst + len src)), (dropZ_app (takeZ dst mem ++ src)) by (done || lia).
  unfold rest. rewrite dropZ_dropZ, <- !app_assoc by (simpl; lia).
  rewrite length_app. cbn [length app]. do 4 f_equal. lia.
Qed.

Lemma GBIT16_slice mem p v :
  0 ≤ p → slice p BIT16SZ mem = PBIT16 v → GBIT16 (dropZ p mem) = Ok (u16 v).
Proof.
  intros Hp Hs. rewrite <- (slice_dropZ p BIT16SZ mem) by done. rewrite Hs. apply GBIT16_PBIT16.
Qed.

(** ** The string area *)

(** Where [strs] may point: at or before the read pointer (in particular at the
    message itself), or past the message with [n] bytes of room. *)
Definition strs_placed (strs p ebuf n : Z) (mem : list Z) : Prop :=
  0 ≤ strs ∧ (strs ≤ p ∨ ebuf ≤ strs ∧ strs + n ≤ len mem).

(** The wire form of the four strings. *)
Definition pstrings (sv : list cptr) : list Z := sv ≫= pstring.

Lemma pstring_default s : pstring s = PBIT16 (strlen0 s) ++ default [] s.
Proof. by destruct s. Qed.

Lemma gstats_pstrings sv mem p ebuf strs :
  Forall cptr_ok sv → Forall cptr_short sv → 0 ≤ p → ebuf ≤ len mem →
  p + len (pstrings sv) ≤ ebuf → slice p (len (pstrings sv)) mem = pstrings sv →
  strs_placed strs p ebuf (len (pstrings sv)) mem →
  ∃ mem' svp, gstats (length sv) mem p ebuf (Some strs) =
      Ok (mem', p + len (pstrings sv), svp) ∧
    length mem' = length mem ∧
    (∀ a n, 0 ≤ a → 0 ≤ n → a + n ≤ strs → slice a n mem' = slice a n mem) ∧
    cstr_at mem' <$> svp = norm <$> sv.
Proof.
  intros Hok Hsh. revert mem p strs Hok Hsh.
  induction sv as [|s sv IH]; intros mem p strs Hok Hsh Hp He Hlen Hsl Hpl.
  { exists mem, []. cbn [length gstats]. rewrite Z.add_0_r. done. }
  apply Forall_cons_iff in Hok as [Hok1 Hok], Hsh as [Hsh1 Hsh].
  cbn [pstrings mbind list_bind] in *. fold (pstrings sv) in *.
  set (ns := strlen0 s) in *.
  assert (0 ≤ ns < 65536) as Hns
    by (unfold ns, strlen0; destruct s; simpl in *; ranges; lia).
  assert (Hlp : len (pstring s ++ pstrings sv) = BIT16SZ + ns + len (pstrings sv)).
  { rewrite pstring_default, !length_app, !Nat2Z.inj_add, len_PBIT16.
    unfold ns, strlen0, BIT16SZ. lia. }
  rewrite Hlp in *. unfold BIT16SZ in Hlp, Hlen, Hsl, Hpl. 
  rewrite <- Z.add_assoc, slice_app, slice_app in Hsl by lia.
  rewrite pstring_default, <- app_assoc in Hsl.
  apply app_inj_1 in Hsl as [Hs1 Hsl]; [| apply Nat2Z.inj; rewrite len_slice; lia || done].
  apply app_inj_1 in Hsl as [Hs2 Hsl];
    [| apply Nat2Z.inj; rewrite len_slice by lia; done].
  cbn [length gstats]. rewrite decide_False by (unfold BIT16SZ; lia).
  rewrite (GBIT16_slice mem p ns) by done. cbn [mbind res_bind].
  rewrite u16_small by (ranges; lia). rewrite decide_False by (unfold BIT16SZ; lia).
  rewrite memread_slice by (unfold BIT16SZ; lia). cbn [mbind res_bind].
  change (p + BIT16SZ) with (p + 2). rewrite Hs2. destruct Hpl as [Hs0 Hpl].
  assert (len (default [] s) = ns) as Hls by done.
  destruct (memwrite_string mem strs (default [] s)) as [-> Hw]; [lia | lia |].
  rewrite Hls in Hw. cbn [mbind res_bind]. rewrite Hw. cbn [mbind res_bind].
  set (src := default [] s ++ [0]) in *.
  assert (len src = ns + 1) as Hsrc by (unfold src; rewrite length_app; simpl; lia).
  set (mem1 := written mem strs src) in *.
  assert (length mem1 = length mem) as Hlm by (apply length_written; lia).
  destruct (IH mem1 (p + 2 + ns) (strs + ns + 1) Hok Hsh) as (mem' & svp & -> & Hl' & Hbef & Hsv);
    [lia | lia | lia | | split; [lia |]; lia |].
  { etrans; [| exact Hsl]. unfold mem1. destruct Hpl as [Hpl | [Hpl Hroom]].
    - apply written_after; lia.
    - apply written_before; lia. }
  cbn [mbind res_bind]. exists mem', (strs :: svp). split_and!.
  - f_equal. f_equal. f_equal. unfold BIT16SZ. lia.
  - lia.
  - intros a n Ha Hn Han. rewrite Hbef by lia. unfold mem1. apply written_before; lia.
  - cbn [fmap list_fmap]. f_equal; [| exact Hsv]. unfold cstr_at, norm. f_equal.
    rewrite <- (slice_dropZ strs (len src)) by lia.
    rewrite Hbef by lia. unfold mem1. rewrite written_at by lia. unfold src.
    rewrite <- app_assoc. apply cstring_app_nul. destruct s; [done | constructor].
Qed.

(** ** Directory entries *)

Record dir_ok (d : Dir) : Prop := {
  dok_type : is_u16 (d_type d); dok_dev : is_u32 (d_dev d); dok_qid : qid_ok (d_qid d);
  dok_mode : is_u32 (d_mode d); dok_atime : is_u32 (d_atime d);
  dok_mtime : is_u32 (d_mtime d); dok_length : is_s64 (d_length d);
  dok_strs : Forall cptr_ok (sv_of d)
}.

Definition strs_len (d : Dir) : Z :=
  strlen0 (d_name d) + strlen0 (d_uid d) + strlen0 (d_gid d) + strlen0 (d_muid d).

(** The size of the entry on the wire. *)
Definition stat_size (d : Dir) : Z := STATFIXLEN + strs_len d.

Definition norm_dir (d : Dir) : Dir :=
  d <| d_name := norm (d_name d) |> <| d_uid := norm (d_uid d) |>
    <| d_gid := norm (d_gid d) |> <| d_muid := norm (d_muid d) |>.

Definition dir_fixed (d : Dir) : list Z :=
  PBIT16 (stat_size d - BIT16SZ) ++
  PBIT16 (d_type d) ++ PBIT32 (d_dev d) ++ PBIT8 (q_type (d_qid d)) ++
  PBIT32 (q_vers (d_qid d)) ++ PBIT64 (q_path (d_qid d)) ++ PBIT32 (d_mode d) ++
  PBIT32 (d_atime d) ++ PBIT32 (d_mtime d) ++ PBIT64 (d_length d).

Definition dir_bytes (d : Dir) : list Z := dir_fixed d ++ pstrings (sv_of d).

Lemma strlen0_nonneg s : 0 ≤ strlen0 s.
Proof. unfold strlen0. lia. Qed.

Lemma strs_len_bounds d :
  0 ≤ strlen0 (d_name d) ∧ 0 ≤ strlen0 (d_uid d) ∧ 0 ≤ strlen0 (d_gid d) ∧
  0 ≤ strlen0 (d_muid d).
Proof. split_and!; apply strlen0_nonneg. Qed.

Lemma sint_ok z : - 2 ^ 31 ≤ z < 2 ^ 31 → sint z = Ok z.
Proof. intros. unfold sint. by rewrite decide_True by done. Qed.

Lemma sum_strlen_dir d :
  stat_size d < 2 ^ 31 → sum_strlen (sv_of d) 0 = Ok (strs_len d).
Proof.
  unfold stat_size. intros. pose proof (strs_len_bounds d). cbn [sv_of sum_strlen].
  unfold strs_len in *. unfold STATFIXLEN, QIDSZ, BIT8SZ, BIT16SZ, BIT32SZ, BIT64SZ in *.
  do 4 (rewrite sint_ok by (ranges; lia); cbn [mbind res_bind]). done.
Qed.

Lemma len_pstrings_dir d : len (pstrings (sv_of d)) = 4 * BIT16SZ + strs_len d.
Proof.
  unfold strs_len, pstrings, sv_of, BIT16SZ. cbn [mbind list_bind].
  rewrite !length_app, !Nat2Z.inj_add, !len_pstring. unfold stringsz, strlen0, BIT16SZ.
  destruct (d_name d), (d_uid d), (d_gid d), (d_muid d); simpl; lia.
Qed.

Lemma len_dir_fixed d : len (dir_fixed d) = STATFIXLEN - 4 * BIT16SZ.
Proof. reflexivity. Qed.

Lemma len_dir_bytes d : len (dir_bytes d) = stat_size d.
Proof.
  unfold dir_bytes. rewrite length_app, Nat2Z.inj_add, len_dir_fixed, len_pstrings_dir.
  unfold stat_size. lia.
Qed.

Lemma pstats_ok sv p nbuf :
  p + len (pstrings sv) ≤ nbuf → pstats sv p nbuf = Ok (pstrings sv).
Proof.
  revert p. induction sv as [|s sv IH]; intros p Hp; cbn [pstats pstrings mbind list_bind]; [done |].
  fold (pstrings sv) in *. cbn [pstrings mbind list_bind] in Hp. fold (pstrings sv) in Hp.
  rewrite length_app, pstring_default, length_app in Hp. unfold strlen0, BIT16SZ in *.
  rewrite decide_False by (simpl length in Hp; lia).
  rewrite IH by (simpl length in Hp; lia). cbn [mbind res_bind].
  by rewrite pstring_default, <- app_assoc.
Qed.

Lemma convD2M_cases d nbuf :
  stat_size d < 2 ^ 31 →
  sizeD2M d = Ok (stat_size d) ∧
  convD2M d nbuf =
    if decide (nbuf < BIT16SZ) then Err
    else if decide (nbuf < stat_size d)
    then Ok (BIT16SZ, PBIT16 (stat_size d - BIT16SZ))
    else Ok (stat_size d, dir_bytes d).
Proof.
  intros Hs. unfold sizeD2M, convD2M. rewrite sum_strlen_dir by done. cbn [mbind res_bind].
  pose proof (strs_len_bounds d).
  rewrite sint_ok by (fold (stat_size d); unfold stat_size, strs_len, STATFIXLEN, QIDSZ,
    BIT8SZ, BIT16SZ, BIT32SZ, BIT64SZ in *; ranges; lia).
  fold (stat_size d). split; [done |]. cbn [mbind res_bind].
  case_decide; [done |]. destruct (decide (nbuf < stat_size d)).
  { by rewrite decide_True by lia. }
  rewrite decide_False by lia. fold (dir_fixed d). rewrite len_dir_fixed.
  rewrite pstats_ok by (rewrite len_pstrings_dir; unfold stat_size in *; lia).
  cbn [mbind res_bind]. fold (dir_bytes d). rewrite len_dir_bytes.
  by rewrite decide_False by lia.
Qed.

(** The counts alone, as statcheck walks them. *)
Lemma statstrs_pstrings sv mem p ebuf :
  Forall cptr_short sv → 0 ≤ p → p + len (pstrings sv) ≤ ebuf → ebuf ≤ len mem →
  slice p (len (pstrings sv)) mem = pstrings sv →
  statstrs (length sv) mem p ebuf = Ok (p + len (pstrings sv)).
Proof.
  intros Hsh. revert p. induction sv as [|s sv IH]; intros p Hp Hlen He Hsl.
  { cbn [length statstrs]. by rewrite Z.add_0_r. }
  apply Forall_cons_iff in Hsh as [Hsh1 Hsh].
  cbn [pstrings mbind list_bind] in *. fold (pstrings sv) in *.
  rewrite length_app, Nat2Z.inj_add, len_pstring in *.
  assert (stringsz s = BIT16SZ + strlen0 s) as Hz by (by destruct s).
  pose proof (strlen0_nonneg s). unfold BIT16SZ in *.
  assert (strlen0 s < 65536) by (unfold strlen0; destruct s; simpl in *; ranges; lia).
  rewrite Hz in *. rewrite <- Z.add_assoc, slice_app in Hsl by lia.
  rewrite pstring_default, <- app_assoc in Hsl.
  apply app_inj_1 in Hsl as [Hs1 Hsl]; [| apply Nat2Z.inj; rewrite len_slice; lia || done].
  rewrite slice_app in Hsl by lia.
  apply app_inj_1 in Hsl as [Hs2 Hsl];
    [| apply Nat2Z.inj; rewrite len_slice by lia; done].
  cbn [length statstrs]. unfold BIT16SZ. rewrite decide_False by lia.
  rewrite (GBIT16_slice mem p (strlen0 s)) by done. cbn [mbind res_bind].
  rewrite u16_small by (ranges; lia).
  rewrite IH; [f_equal; lia | done | lia | lia | done |].
  by rewrite Z.add_assoc.
Qed.

Lemma dir_short d : stat_size d - BIT16SZ < 2 ^ 16 → Forall cptr_short (sv_of d).
Proof.
  intros H. pose proof (strs_len_bounds d).
  unfold stat_size, strs_len, STATFIXLEN, QIDSZ, BIT8SZ, BIT16SZ, BIT32SZ, BIT64SZ in H.
  unfold sv_of. assert (∀ s, strlen0 s < 2 ^ 16 → cptr_short s) as Hs by (by intros []).
  ranges. repeat constructor; apply Hs; lia.
Qed.

Section InMemory.
Variables (d : Dir) (pre post : list Z).
Hypothesis Hd : dir_ok d.
Hypothesis Hsize : stat_size d - BIT16SZ < 2 ^ 16.

Let mem := pre ++ dir_bytes d ++ post.
Let buf := len pre.

Lemma mem_drop : dropZ buf mem = dir_fixed d ++ pstrings (sv_of d) ++ post.
Proof. unfold mem, buf. rewrite dropZ_app by done. unfold dir_bytes. by rewrite app_assoc. Qed.

Lemma mem_strings :
  slice (buf + (STATFIXLEN - 4 * BIT16SZ)) (len (pstrings (sv_of d))) mem = pstrings (sv_of d).
Proof.
  unfold slice. rewrite <- dropZ_dropZ by (unfold buf; done || lia).
  rewrite mem_drop, dropZ_app by done. by apply takeZ_app.
Qed.

Lemma mem_fits : buf + stat_size d ≤ len mem.
Proof. unfold mem, buf. rewrite !length_app, !Nat2Z.inj_add, len_dir_bytes. lia. Qed.

Lemma statcheck_dir : statcheck mem buf (stat_size d) = Ok ().
Proof.
  pose proof (strs_len_bounds d). pose proof mem_fits as Hf. pose proof (len_pstrings_dir d).
  assert (0 ≤ buf) by (unfold buf; lia).
  unfold statcheck. rewrite decide_False by (unfold stat_size, strs_len; lia).
  rewrite mem_drop. unfold dir_fixed at 1. rewrite <- !app_assoc, GBIT16_PBIT16.
  cbn [mbind res_bind].
  rewrite u16_small by (unfold stat_size, strs_len in *; unfold STATFIXLEN, QIDSZ, BIT8SZ,
    BIT16SZ, BIT32SZ, BIT64SZ in *; ranges; lia).
  rewrite decide_False by lia.
  rewrite (statstrs_pstrings (sv_of d)); [| by apply dir_short | ..].
  - cbn [mbind res_bind]. rewrite decide_False by (unfold stat_size in *; lia). done.
  - unfold STATFIXLEN, QIDSZ, BIT8SZ, BIT16SZ, BIT32SZ, BIT64SZ; lia.
  - unfold stat_size in *; lia.
  - lia.
  - apply mem_strings.
Qed.

Lemma convM2D_dir strs :
  strs_placed strs buf (buf + stat_size d) (stat_size d) mem →
  ∃ mem', convM2D mem buf (stat_size d) (Some strs) = Ok (stat_size d, mem', norm_dir d) ∧
    length mem' = length mem ∧
    ∀ a n, 0 ≤ a → 0 ≤ n → a + n ≤ strs → slice a n mem' = slice a n mem.
Proof.
  intros [Hs0 Hpl]. pose proof (strs_len_bounds d). pose proof mem_fits as Hf.
  pose proof (len_pstrings_dir d) as Hlp. assert (0 ≤ buf) by (unfold buf; lia).
  unfold convM2D. rewrite decide_False by (unfold stat_size, strs_len; lia).
  rewrite <- dropZ_dropZ by done. rewrite mem_drop. unfold dir_fixed.
  destruct Hd as [? ? [] ? ? ? ? Hstrs].
  do 2 (decode; rewrite ?u64_small by done).
  destruct (gstats_pstrings (sv_of d) mem (buf + (STATFIXLEN - 4 * BIT16SZ))
    (buf + stat_size d) strs) as (mem' & svp & Hg & Hlm & Hbef & Hsv).
  { done. } { by apply dir_short. }
  { unfold STATFIXLEN, QIDSZ, BIT8SZ, BIT16SZ, BIT32SZ, BIT64SZ; lia. }
  { done. } { unfold stat_size; lia. } { apply mem_strings. }
  { split; [done |]. unfold stat_size in *.
    unfold STATFIXLEN, QIDSZ, BIT8SZ, BIT16SZ, BIT32SZ, BIT64SZ in *. lia. }
  change (length (sv_of d)) with 4%nat in Hg. rewrite Hg. cbn [mbind res_bind].
  exists mem'. split; [| by split].
  replace (buf + (STATFIXLEN - 4 * BIT16SZ) + len (pstrings (sv_of d)) - buf)
    with (stat_size d) by (rewrite Hlp; unfold stat_size; lia).
  unfold sv_of in Hsv. cbn [fmap list_fmap] in Hsv.
  destruct svp as [|s0 [|s1 [|s2 [|s3 [|]]]]]; try discriminate Hsv.
  injection Hsv as E0 E1 E2 E3. unfold sv_at, cstr_at. cbn [lookup list_lookup].
  rewrite E0, E1, E2, E3. by destruct d as [? ? [] ? ? ? ? ? ? ? ?].
Qed.
End InMemory.

(** ** Arbitrary input *)

Lemma gstats_safe k mem p ebuf strs :
  0 ≤ p → ebuf ≤ len mem → bytes_ok mem →
  from_option (λ s, strs_placed s p ebuf (ebuf - p) mem) True strs →
  safe (gstats k mem p ebuf strs).
Proof.
  revert mem p strs. induction k as [|k IH]; intros mem p strs Hp He Hb Hpl; cbn [gstats]; [done |].
  case_decide; [done |]. unfold BIT16SZ in *.
  destruct (GBIT16_ok (dropZ p mem)) as (ns & -> & Hns);
    [rewrite len_dropZ by lia; lia | auto with p9 |]. cbn [mbind res_bind].
  ranges. case_decide; [done |]. destruct strs as [strs|]; [| apply IH; done || lia].
  destruct Hpl as [Hs0 Hpl]. rewrite memread_slice by lia. cbn [mbind res_bind].
  set (src := slice (p + 2) ns mem).
  assert (len src = ns) as Hsrc by (apply len_slice; lia).
  assert (bytes_ok src) by (by apply slice_bytes_ok).
  destruct (memwrite_string mem strs src) as [-> Hw]; [lia | lia |].
  rewrite Hsrc in Hw. cbn [mbind res_bind]. rewrite Hw. cbn [mbind res_bind].
  assert (len (src ++ [0]) = ns + 1) by (rewrite length_app; simpl; lia).
  assert (length (written mem strs (src ++ [0])) = length mem) as Hl
    by (apply length_written; lia).
  apply safe_bind; [| by intros [[] ?]].
  apply IH; [lia | lia | | split; lia].
  apply written_bytes_ok; [done |]. apply bytes_ok_app; split; [done |].
  apply bytes_ok_cons; split; [done | constructor].
Qed.

(** The counts are never negative, so running past the end is never undone. *)
Lemma statstrs_accepts k mem b ebuf :
  0 ≤ b → ebuf ≤ len mem → bytes_ok mem →
  statstrs k mem b ebuf = Ok ebuf ↔ gstats k mem b ebuf None = Ok (mem, ebuf, []).
Proof.
  intros Hb He Hok. revert b Hb. induction k as [|k IH]; intros b Hb; cbn [statstrs gstats].
  { naive_solver. }
  case_decide; [done |]. unfold BIT16SZ in *.
  destruct (GBIT16_ok (dropZ b mem)) as (n & -> & Hn);
    [rewrite len_dropZ by lia; lia | auto with p9 |]. cbn [mbind res_bind].
  ranges. rewrite Z.add_assoc. case_decide; [| apply IH; lia].
  split; [| done]. intros H'. exfalso. destruct k; cbn [statstrs] in H'.
  - injection H' as H'. lia.
  - by rewrite decide_True in H' by (unfold BIT16SZ; lia).
Qed.

Lemma statstrs_safe k mem b ebuf :
  0 ≤ b → ebuf ≤ len mem → bytes_ok mem → safe (statstrs k mem b ebuf).
Proof.
  intros Hb He Hok. revert b Hb. induction k as [|k IH]; intros b Hb; cbn [statstrs]; [done |].
  case_decide; [done |]. unfold BIT16SZ in *.
  destruct (GBIT16_ok (dropZ b mem)) as (n & -> & Hn);
    [rewrite len_dropZ by lia; lia | auto with p9 |]. cbn [mbind res_bind].
  apply IH. ranges. lia.
Qed.

(** The fixed part of a region that is long enough always parses. *)
Lemma convM2D_header mem buf nbuf :
  0 ≤ buf → STATFIXLEN ≤ nbuf → buf + nbuf ≤ len mem → bytes_ok mem →
  ∃ F : list Z → list Z → Dir, ∀ strs,
    convM2D mem buf nbuf strs =
      '(mem, p, sv) ← gstats 4 mem (buf + (STATFIXLEN - 4 * BIT16SZ)) (buf + nbuf) strs;
      Ok (p - buf, mem, F mem sv).
Proof.
  intros Hb Hn He Hok. unfold convM2D.
  destruct (decide (nbuf < STATFIXLEN)); [lia |].
  unfold STATFIXLEN, QIDSZ, BIT8SZ, BIT16SZ, BIT32SZ, BIT64SZ in *.
  repeat match goal with
  | |- context [GBIT8 ?p] => destruct (GBIT8_ok p) as (? & -> & _)
  | |- context [GBIT16 ?p] => destruct (GBIT16_ok p) as (? & -> & _)
  | |- context [GBIT32 ?p] => destruct (GBIT32_ok p) as (? & -> & _)
  | |- context [GBIT64 ?p] => destruct (GBIT64_ok p) as (? & -> & _)
  | |- 0 ≤ _ => lia
  | |- _ ≤ len _ => rewrite ?dropZ_dropZ by lia; rewrite len_dropZ by lia; lia
  | |- bytes_ok _ => auto 20 with p9
  end; cbn [mbind res_bind].
  eexists (λ m sv, mkDir _ _ (mkQid _ _ _) _ _ _ _ (sv_at m sv 0) (sv_at m sv 1)
    (sv_at m sv 2) (sv_at m sv 3)). intros strs. reflexivity.
Qed.

Lemma gstats_None k mem p ebuf r : gstats k mem p ebuf None = Ok r → ∃ p', r = (mem, p', []).
Proof.
  revert p. induction k as [|k IH]; intros p; cbn [gstats]; [intros [= <-]; eauto |].
  case_decide; [done |]. intros (n & _ & Hr)%bind_Ok. case_decide; [done |]. eauto.
Qed.

(** C4: the stat codec round trip.  sizeD2M is the encoded size.  convD2M given too
    small a buffer stores only the size field, so that the caller learns how much is
    needed, and otherwise stores the entry.  Wherever the entry lies in memory,
    statcheck accepts it and convM2D recovers the directory entry, whether its
    strings are copied to separate memory with room for them or, as lib9p does, on
    top of the message itself. *)
Theorem convD2M_convM2D d nbuf :
  dir_ok d → stat_size d - BIT16SZ < 2 ^ 16 →
  sizeD2M d = Ok (stat_size d) ∧
  (BIT16SZ ≤ nbuf < stat_size d →
     convD2M d nbuf = Ok (BIT16SZ, PBIT16 (stat_size d - BIT16SZ))) ∧
  (stat_size d ≤ nbuf →
     ∃ out, convD2M d nbuf = Ok (stat_size d, out) ∧ len out = stat_size d ∧
     ∀ pre post strs,
       let mem := pre ++ out ++ post in
       statcheck mem (len pre) (stat_size d) = Ok () ∧
       (strs_placed strs (len pre) (len pre + stat_size d) (stat_size d) mem →
        ∃ mem', convM2D mem (len pre) (stat_size d) (Some strs)
                  = Ok (stat_size d, mem', norm_dir d) ∧ length mem' = length mem)).
Proof.
  intros Hd Hs. destruct (convD2M_cases d nbuf) as [Hsz Hcv]; [ranges; unfold BIT16SZ in *; lia |].
  split; [done |]. rewrite Hcv. split; intros Hn.
  - by rewrite decide_False, decide_True by lia.
  - pose proof (strs_len_bounds d). 
    rewrite !decide_False by (unfold stat_size, strs_len, STATFIXLEN, QIDSZ, BIT8SZ, BIT16SZ,
      BIT32SZ, BIT64SZ in *; lia).
    eexists; split_and!; [done | apply len_dir_bytes |]. intros pre post strs.
    split; [by apply statcheck_dir |]. intros Hpl.
    destruct (convM2D_dir d pre post Hd Hs strs Hpl) as (mem' & H1 & H2 & _). eauto.
Qed.

Lemma convM2D_inside mem buf nbuf strs :
  0 ≤ buf → buf + nbuf ≤ len mem → bytes_ok mem →
  from_option (λ s, strs_placed s buf (buf + nbuf) nbuf mem) True strs →
  safe (convM2D mem buf nbuf strs).
Proof.
  intros Hb Hn Hok Hpl. unfold convM2D. case_decide; [done |].
  unfold STATFIXLEN, QIDSZ, BIT8SZ, BIT16SZ, BIT32SZ, BIT64SZ in *.
  repeat (apply safe_bind; [first [apply GBIT8_safe | apply GBIT16_safe | apply GBIT32_safe
    | apply GBIT64_safe]; rewrite ?dropZ_dropZ by lia; rewrite len_dropZ by lia; lia |]; intros ? _).
  apply safe_bind; [| by intros [[] ?]].
  apply gstats_safe; [lia | done | done |].
  destruct strs as [s|]; [| done]. destruct Hpl as [Hs0 Hpl]. split; lia.
Qed.

(** C5: convM2D, given a region [nbuf] bytes long with any content, only touches
    memory it was given: it reads inside the region and writes its strings behind
    its own read pointer, or inside the [nbuf] bytes of a separate string area. *)
Theorem convM2D_safe mem buf nbuf strs :
  0 ≤ buf → buf + nbuf ≤ len mem → bytes_ok mem →
  from_option (λ s, strs_placed s buf (buf + nbuf) nbuf mem) True strs →
  safe (convM2D mem buf nbuf strs).
Proof. apply convM2D_inside. Qed.

(** Statcheck accepts exactly the entries that fill their buffer: the leading
    count agrees with [nbuf], and convM2D parses the four strings up to the last
    byte.  It reads nothing outside the buffer. *)
Theorem statcheck_spec mem buf nbuf :
  0 ≤ buf → buf + nbuf ≤ len mem → bytes_ok mem →
  safe (statcheck mem buf nbuf) ∧
  (statcheck mem buf nbuf = Ok () ↔
     STATFIXLEN ≤ nbuf ∧ GBIT16 (dropZ buf mem) = Ok (nbuf - BIT16SZ) ∧
     ∃ d, convM2D mem buf nbuf None = Ok (nbuf, mem, d)).
Proof.
  intros Hb Hn Hok. pose proof (convM2D_inside mem buf nbuf None Hb Hn Hok I) as Hs.
  unfold statcheck. case_decide as Hfix; [split; [done |]; split; [done | lia] |].
  assert (0 ≤ buf + (STATFIXLEN - 4 * BIT16SZ)) as Hp
    by (unfold STATFIXLEN, QIDSZ, BIT8SZ, BIT16SZ, BIT32SZ, BIT64SZ; lia).
  destruct (GBIT16_ok (dropZ buf mem)) as (n & -> & Hr);
    [rewrite len_dropZ by lia; unfold STATFIXLEN, QIDSZ, BIT8SZ, BIT16SZ, BIT32SZ, BIT64SZ in *; lia
    | auto with p9 |].
  cbn [mbind res_bind]. case_decide as Hc.
  { split; [done |]. split; [done |]. intros (_ & [= Hn'] & _). unfold BIT16SZ in *. lia. }
  split.
  { apply safe_bind; [by apply statstrs_safe |]. intros. by case_decide. }
  destruct (convM2D_header mem buf nbuf) as [F HF]; [done | lia | done | done |].
  rewrite HF. set (p := buf + (STATFIXLEN - 4 * BIT16SZ)) in *. split.
  - intros (b & Hst & Hb')%bind_Ok. case_decide as Hd; [done |].
    assert (b = buf + nbuf) as -> by lia. apply statstrs_accepts in Hst; [| done..].
    split_and!; [lia | f_equal; unfold BIT16SZ in *; lia |].
    rewrite Hst. cbn [mbind res_bind]. eexists. do 3 f_equal. lia.
  - intros (_ & _ & d & Hd). apply bind_Ok in Hd as ([[m p'] sv] & Hg & Hd).
    destruct (gstats_None _ _ _ _ _ Hg) as [p'' [= -> -> ->]]. injection Hd as Hd _.
    assert (p'' = buf + nbuf) as -> by lia. apply statstrs_accepts in Hg; [| done..].
    rewrite Hg. cbn [mbind res_bind]. by rewrite decide_False by lia.
Qed.

(** ** dirpackage *)

Definition dir_sized (d : Dir) : Prop := dir_ok d ∧ stat_size d - BIT16SZ < 2 ^ 16.

Definition dirs_bytes (ds : list Dir) : list Z := ds ≫= dir_bytes.

Lemma stat_size_pos d : 49 ≤ stat_size d.
Proof.
  pose proof (strs_len_bounds d). unfold stat_size, strs_len, STATFIXLEN, QIDSZ, BIT8SZ,
    BIT16SZ, BIT32SZ, BIT64SZ. lia.
Qed.

Lemma size_field d r :
  dir_sized d → GBIT16 (dir_bytes d ++ r) = Ok (stat_size d - BIT16SZ).
Proof.
  intros [Hd Hs]. unfold dir_bytes, dir_fixed. rewrite <- !app_assoc, GBIT16_PBIT16.
  pose proof (stat_size_pos d). rewrite u16_small; [done |]. unfold BIT16SZ in *. ranges. lia.
Qed.

Lemma count_stats_dirs fuel ds pre tail ss n :
  Forall dir_sized ds → (length (dirs_bytes ds) < fuel)%nat →
  count_stats fuel (pre ++ dirs_bytes ds ++ tail) (len pre + len (dirs_bytes ds)) (len pre) ss n
  = Ok (len pre + len (dirs_bytes ds), ss + len (dirs_bytes ds), n + len ds).
Proof.
  revert fuel pre ss n. induction ds as [|d ds IH]; intros fuel pre ss n Hds Hf;
    (destruct fuel as [|fuel]; [simpl in Hf; lia |]); cbn [count_stats].
  { rewrite decide_False by (simpl; lia). simpl. by rewrite !Z.add_0_r. }
  apply Forall_cons_iff in Hds as [Hd Hds]. cbn [dirs_bytes mbind list_bind] in *.
  fold (dirs_bytes ds) in *. pose proof (stat_size_pos d). pose proof (len_dir_bytes d) as Hl.
  rewrite length_app in Hf. rewrite decide_True by (rewrite length_app; lia).
  rewrite dropZ_app, <- app_assoc by done. rewrite size_field by done. cbn [mbind res_bind].
  replace (BIT16SZ + (stat_size d - BIT16SZ)) with (stat_size d) by lia.
  destruct Hd as [Hok Hsz]. rewrite statcheck_dir by done.
  specialize (IH fuel (pre ++ dir_bytes d) (ss + stat_size d) (n + 1) Hds ltac:(lia)).
  rewrite <- app_assoc in IH. rewrite !length_app, !Nat2Z.inj_add, Hl in *. cbn [length].
  rewrite <- !Z.add_assoc in *. rewrite IH. do 3 f_equal. lia.
Qed.

Lemma conv_stats_dirs fuel ds pre tail area n nn s :
  let mem := pre ++ dirs_bytes ds ++ tail ++ area in
  Forall dir_sized ds → (length (dirs_bytes ds) < fuel)%nat →
  nn + len ds ≤ n → len pre + len (dirs_bytes ds) + len tail ≤ s →
  s + len (dirs_bytes ds) ≤ len mem →
  conv_stats fuel mem (len pre + len (dirs_bytes ds)) (len pre) n nn s = Ok (norm_dir <$> ds).
Proof.
  revert fuel pre area nn s. induction ds as [|d ds IH]; intros fuel pre area nn s mem Hds Hf Hn Hs Hroom;
    (destruct fuel as [|fuel]; [simpl in Hf; lia |]); cbn [conv_stats].
  { by rewrite decide_False by (simpl; lia). }
  apply Forall_cons_iff in Hds as [Hd Hds]. cbn [dirs_bytes mbind list_bind] in *.
  fold (dirs_bytes ds) in *. pose proof (stat_size_pos d). pose proof (len_dir_bytes d) as Hl.
  assert (mem = pre ++ dir_bytes d ++ (dirs_bytes ds ++ tail ++ area)) as Hmem
    by (unfold mem; by rewrite <- app_assoc).
  rewrite length_app in Hf. rewrite !length_app, !Nat2Z.inj_add in Hs, Hroom.
  cbn [length] in Hn. rewrite decide_True by (rewrite length_app; lia).
  rewrite Hmem, dropZ_app by done. rewrite size_field by done. cbn [mbind res_bind].
  replace (BIT16SZ + (stat_size d - BIT16SZ)) with (stat_size d) by lia.
  rewrite decide_False by lia. destruct Hd as [Hok Hsz].
  destruct (convM2D_dir d pre (dirs_bytes ds ++ tail ++ area) Hok Hsz s) as (mem' & -> & Hlm & Hbef).
  { rewrite <- Hmem. split; [lia |]. right. split; lia. }
  cbn [mbind res_bind]. rewrite decide_False by (intros Hne; by apply Hne).
  rewrite <- Hmem in Hlm, Hbef.
  set (keep := pre ++ dir_bytes d ++ dirs_bytes ds ++ tail).
  assert (len keep ≤ s) as Hk by (unfold keep; rewrite !length_app, !Nat2Z.inj_add, Hl; lia).
  assert (mem' = keep ++ dropZ (len keep) mem') as Hm'.
  { rewrite <- (slice_dropZ 0 (len keep) mem') at 1 by lia. f_equal.
    rewrite Hbef by lia. unfold slice. change (dropZ 0 mem) with mem.
    assert (mem = keep ++ area) as Hka by (unfold mem, keep; by rewrite <- !app_assoc).
    rewrite Hka. by apply takeZ_app. }
  specialize (IH fuel (pre ++ dir_bytes d) (dropZ (len keep) mem') (nn + 1) (s + stat_size d) Hds).
  assert ((pre ++ dir_bytes d) ++ dirs_bytes ds ++ tail ++ dropZ (len keep) mem' = mem') as HE
    by (rewrite Hm' at 2; unfold keep; by rewrite <- !app_assoc).
  rewrite HE, Hlm in IH. rewrite !length_app, !Nat2Z.inj_add, Hl in *.
  rewrite <- !Z.add_assoc in *. rewrite IH by lia. done.
Qed.

(** reading a directory.  On a buffer holding any sequence of encoded entries,
    dirpackage returns those entries, in order, however long the buffer is beyond
    them; its allocation of the counted bytes is enough for all their strings. *)
Theorem dirpackage_dirs ds tail :
  Forall dir_sized ds →
  dirpackage (dirs_bytes ds ++ tail) (len (dirs_bytes ds)) = Ok (norm_dir <$> ds).
Proof.
  intros Hds. unfold dirpackage. case_decide as Hts.
  { destruct ds as [|d ds]; [done |]. pose proof (stat_size_pos d). exfalso.
    cbn [dirs_bytes mbind list_bind] in Hts. pose proof (len_dir_bytes d).
    rewrite length_app in Hts. lia. }
  pose proof (count_stats_dirs (S (Z.to_nat (len (dirs_bytes ds)))) ds [] tail 0 0 Hds) as Hc.
  cbn [app length] in Hc. rewrite !Z.add_0_l in Hc. change (Z.of_nat 0) with 0 in Hc.
  rewrite Hc by lia. cbn [mbind res_bind].
  rewrite decide_False by lia. rewrite <- app_assoc.
  pose proof (conv_stats_dirs (S (Z.to_nat (len (dirs_bytes ds)))) ds [] tail
    (replicate (Z.to_nat (len (dirs_bytes ds))) 0) (len ds) 0 (len (dirs_bytes ds ++ tail))) as Hv.
  cbn [app length] in Hv. change (Z.of_nat 0) with 0 in Hv. rewrite !Z.add_0_l in Hv.
  apply Hv; [done | lia | lia | rewrite length_app; lia |].
  rewrite !length_app, length_replicate. lia.
Qed.

(** ** Reading from a byte stream

    What the code assumes of a descriptor's [read]: at end of data it returns 0;
    otherwise it delivers some non-empty prefix, of a length of its own choosing, of
    what is still to come, at most the [k] bytes asked for. *)
Class ByteStream (St : Type) (read : St → Z → Z * list Z * St) := {
  pending : St → list Z;
  read_eof : ∀ st k, pending st = [] → ∃ st', read st k = (0, [], st') ∧ pending st' = [];
  read_some : ∀ st k, pending st ≠ [] → 0 < k →
    ∃ m st', read st k = (m, takeZ m (pending st), st') ∧ 0 < m ≤ k ∧
      m ≤ len (pending st) ∧ pending st' = dropZ m (pending st)
}.

Section Framing.
Context {St : Type} {read : St → Z → Z * list Z * St} {BS : ByteStream St read}.

(** readn returns the bytes wanted, or all there are. *)
Lemma readn_loop_spec fuel st n t a :
  0 ≤ t → (Z.to_nat (n - t) < fuel)%nat → t = len a →
  ∃ r st', readn_loop read fuel st n t a = Ok (t + r, a ++ takeZ r (pending st), st') ∧
    r = Z.max 0 (Z.min (n - t) (len (pending st))) ∧ pending st' = dropZ r (pending st).
Proof.
  revert st t a. induction fuel as [|fuel IH]; intros st t a Ht Hf Hta; [lia |].
  cbn [readn_loop]. case_decide as Htn.
  2: { exists 0, st. rewrite Z.add_0_r, app_nil_r. split_and!; [done | lia | done]. }
  destruct (decide (pending st = [])) as [He | He].
  - destruct (read_eof st (n - t) He) as (st' & -> & He').
    rewrite decide_True by lia. rewrite He. exists 0, st'. rewrite Z.add_0_r, app_nil_r.
    split_and!; [case_decide as Ht0; [rewrite Ht0 |]; reflexivity | simpl; lia | done].
  - destruct (read_some st (n - t) He) as (m & st' & -> & Hm & Hml & Hp); [lia |].
    rewrite decide_False by lia.
    destruct (IH st' (t + m) (a ++ takeZ m (pending st))) as (r & st'' & -> & Hr & Hp'');
      [lia | lia | rewrite length_app, Nat2Z.inj_add, len_takeZ; lia |].
    rewrite Hp in Hr, Hp'' |- *. rewrite len_dropZ in Hr by lia.
    exists (m + r), st''. split_and!.
    + f_equal. f_equal. f_equal; [lia |]. rewrite <- app_assoc. f_equal. symmetry.
      rewrite <- (takeZ_dropZ m (pending st)) at 1.
      unfold takeZ, dropZ. rewrite Z2Nat.inj_add by lia.
      rewrite take_take_drop. by rewrite take_drop.
    + lia.
    + rewrite Hp'', dropZ_dropZ by lia. done.
Qed.

Lemma readn_spec st n :
  ∃ st', readn read st n =
      Ok (Z.max 0 (Z.min n (len (pending st))),
          takeZ (Z.max 0 (Z.min n (len (pending st)))) (pending st), st') ∧
    pending st' = dropZ (Z.max 0 (Z.min n (len (pending st)))) (pending st).
Proof.
  destruct (readn_loop_spec (S (Z.to_nat n)) st n 0 []) as (r & st' & Hr & -> & Hp);
    [done | lia | done |].
  exists st'. unfold readn. rewrite Hr. rewrite Z.sub_0_r in *. done.
Qed.

Lemma takeZ_takeZ_dropZ m k (l : list Z) :
  0 ≤ m → 0 ≤ k → takeZ m l ++ takeZ k (dropZ m l) = takeZ (m + k) l.
Proof. intros. unfold takeZ, dropZ. rewrite Z2Nat.inj_add by done. apply take_take_drop. Qed.

Lemma GBIT32_prefix l : 4 ≤ len l → GBIT32 (takeZ 4 l) = GBIT32 l.
Proof. destruct l as [|? [|? [|? [|? ?]]]]; simpl; [lia.. |]. intros _. by destruct l. Qed.

Lemma s32_small z : 0 ≤ z < 2 ^ 31 → s32 z = z.
Proof.
  intros. unfold s32, signed. change (2 ^ (32 - 1)) with (2 ^ 31).
  rewrite Z.mod_small by (ranges; lia). by rewrite decide_True by lia.
Qed.

Lemma s32_cases z : is_u32 z → s32 z ≤ BIT32SZ ∨ (s32 z = z ∧ z < 2 ^ 31).
Proof.
  intros H. destruct (decide (z < 2 ^ 31)); [right; split; [apply s32_small; ranges; lia | done] |].
  left. unfold s32, signed, BIT32SZ. change (2 ^ (32 - 1)) with (2 ^ 31).
  ranges. rewrite Z.mod_small by lia. rewrite decide_False by lia. lia.
Qed.

Lemma read9pmsg_cases st n :
  bytes_ok (pending st) → BIT32SZ ≤ n →
  ∃ r buf st', read9pmsg read st n = Ok (r, buf, st') ∧ len buf ≤ n ∧
    let s := pending st in
    if decide (len s < BIT32SZ) then r = 0 else
    ∃ size, GBIT32 s = Ok size ∧
      if decide (s32 size ≤ BIT32SZ ∨ size > n) then r = -1
      else if decide (len s < size) then r = 0
      else r = size ∧ buf = takeZ size s ∧ pending st' = dropZ size s.
Proof.
  intros Hb Hn. unfold read9pmsg.
  destruct (readn_spec st BIT32SZ) as (st1 & -> & Hp1). cbn [mbind res_bind].
  set (s := pending st) in *. unfold BIT32SZ in *. destruct (decide (len s < 4)) as [Hl | Hl].
  { rewrite decide_True, decide_False by lia. do 3 eexists; split_and!; [done | | done].
    unfold takeZ. rewrite length_take. lia. }
  rewrite Z.min_l, Z.max_r in * by lia. rewrite decide_False by lia.
  destruct (GBIT32_ok s) as (size & Hsz & Hr); [lia | done |].
  rewrite GBIT32_prefix, Hsz by lia. cbn [mbind res_bind].
  assert (len (takeZ 4 s) = 4) as H4 by (apply len_takeZ; lia).
  destruct (s32_cases size Hr) as [Hneg | [Hpos Hlt]].
  { rewrite decide_True by (by left). do 3 eexists; split_and!; [done | lia |].
    eexists; split; [done |]. by rewrite decide_True by (by left). }
  rewrite Hpos, (u32_small size) by done. case_decide as Hc.
  { do 3 eexists; split_and!; [done | lia |].
    eexists; split; [done |]. by rewrite Hpos, decide_True by done. }
  destruct (readn_spec st1 (size - 4)) as (st2 & -> & Hp2). cbn [mbind res_bind].
  rewrite Hp1 in *. rewrite len_dropZ in * by lia.
  destruct (decide (len s < size)).
  { rewrite decide_True by lia. do 3 eexists; split_and!; [done | |].
    - rewrite length_app, Nat2Z.inj_add, H4. unfold takeZ. rewrite length_take. lia.
    - eexists; split; [done |]. rewrite Hpos. by rewrite decide_False, decide_True by done. }
  rewrite decide_False by lia. rewrite takeZ_takeZ_dropZ by lia.
  replace (4 + Z.max 0 (Z.min (size - 4) (Z.max 0 (len s - 4)))) with size by lia.
  do 3 eexists; split_and!; [done | rewrite len_takeZ by lia; lia |].
  eexists; split; [done |]. rewrite Hpos, !decide_False by (done || lia). split_and!; [done | done |].
  rewrite Hp2, dropZ_dropZ by lia. f_equal. lia.
Qed.

(** C6: read9pmsg on any stream, however the kernel cuts it up.  It always
    returns, and never stores more than the buffer holds.  A stream that ends early
    gives 0; a size field that is not between 5 and [n] (as a signed int) gives -1;
    otherwise the buffer holds exactly that many bytes of the stream, and the
    stream is left at the next message. *)
Theorem read9pmsg_spec st n :
  bytes_ok (pending st) → BIT32SZ ≤ n →
  ∃ r buf st', read9pmsg read st n = Ok (r, buf, st') ∧ len buf ≤ n ∧
    let s := pending st in
    if decide (len s < BIT32SZ) then r = 0 else
    ∃ size, GBIT32 s = Ok size ∧
      if decide (s32 size ≤ BIT32SZ ∨ size > n) then r = -1
      else if decide (len s < size) then r = 0
      else r = size ∧ buf = takeZ size s ∧ pending st' = dropZ size s.
Proof. apply read9pmsg_cases. Qed.

(** What a reader that trusts nobody sees: a message is the next bytes of the stream. *)
Lemma read9pmsg_got st n :
  bytes_ok (pending st) → BIT32SZ ≤ n →
  ∃ r buf st', read9pmsg read st n = Ok (r, buf, st') ∧
    (0 < r → pending st = buf ++ pending st' ∧ len buf = r ∧ r ≤ n).
Proof.
  intros Hb Hn. destruct (read9pmsg_cases st n Hb Hn) as (r & buf & st' & Hr & Hl & Hc).
  exists r, buf, st'. split; [done |]. intros Hpos. cbv zeta in Hc. case_decide; [lia |].
  destruct Hc as (size & _ & Hc). case_decide as Hsz; [lia |]. case_decide; [lia |].
  destruct Hc as (-> & -> & ->). rewrite takeZ_dropZ, len_takeZ in * by lia. auto.
Qed.

(** C7: sending and receiving.  If the stream holds an encoded message, however it
    is cut into pieces and whatever follows it, one call of read9pmsg with a buffer
    at least as large as the sender's returns exactly that message, convM2S decodes
    it to what was sent, and the stream is left at what follows. *)
Theorem receive_message st f nap n out more g :
  fcall_wt f → encodable f → fcall_wt g → convS2M f nap = Ok out → nap ≤ n < 2 ^ 31 →
  pending st = out ++ more → bytes_ok (pending st) →
  ∃ st' f', read9pmsg read st n = Ok (len out, out, st') ∧ pending st' = more ∧
    convM2S out g = Ok (len out, f') ∧ f' ≡ f.
Proof.
  intros Hf He Hg Hout Hn Hs Hb.
  destruct (encoded_shape f nap out Hf He Hout) as (Hlen & Hnap & Hsize & Hdec).
  destruct (Hdec g Hg) as (f' & Hf' & Heq).
  unfold BIT32SZ, BIT8SZ, BIT16SZ in *.
  destruct (read9pmsg_cases st n Hb) as (r & buf & st' & Hr & _ & Hc); [unfold BIT32SZ; lia |].
  rewrite Hs in Hc. cbn zeta in Hc. rewrite length_app in Hc. unfold BIT32SZ in *.
  rewrite decide_False in Hc by lia. destruct Hc as (size & Hsz & Hc).
  rewrite (Hsize more) in Hsz. injection Hsz as <-.
  rewrite s32_small, !decide_False in Hc by lia. destruct Hc as (-> & -> & Hp).
  rewrite takeZ_app, dropZ_app in * by done. eauto 10.
Qed.
End Framing.

(** ** A stream of chunks *)
Fixpoint chunk_read (st : list (list Z)) (k : Z) : Z * list Z * list (list Z) :=
  match st with
  | [] => (0, [], [])
  | [] :: cs => chunk_read cs k
  | c :: cs => let m := Z.min k (len c) in (m, takeZ m c, dropZ m c :: cs)
  end.

#[export] Instance chunk_stream : ByteStream (list (list Z)) chunk_read.
Proof.
  refine {| pending := λ st, concat st |}.
  - induction st as [|[|b c] cs IH]; intros k Hp; cbn [chunk_read].
    + by exists [].
    + by apply IH.
    + done.
  - induction st as [|[|b c] cs IH]; intros k Hp Hk; cbn [chunk_read].
    + done.
    + by apply IH.
    + set (m := Z.min k (len (b :: c))). exists m, (dropZ m (b :: c) :: cs).
      assert (0 < m ≤ len (b :: c)) as Hm by (unfold m; cbn [length]; lia).
      cbn [concat]. rewrite length_app. split_and!; [| lia | lia | lia |].
      * do 2 f_equal. unfold takeZ. by rewrite take_app_le by lia.
      * unfold dropZ. by rewrite drop_app_le by lia.
Defined.

Theorem read9pmsg_spec_witness :
  bytes_ok (pending [[9; 0]; [0; 0; 108]]) ∧ BIT32SZ ≤ 8192 ∧
  ∃ r buf st', read9pmsg chunk_read [[9; 0]; [0; 0; 108]] 8192 = Ok (r, buf, st').
Proof.
  assert (bytes_ok (pending (read := chunk_read) [[9; 0]; [0; 0; 108]])) as H
    by (by repeat (constructor; [by vm_compute |])).
  destruct (read9pmsg_spec (read := chunk_read) [[9; 0]; [0; 0; 108]] 8192 H
    ltac:(by vm_compute)) as (r & buf & st' & Hr & _).
  split; [exact H |]. split; [by vm_compute | by exists r, buf, st'].
Defined.

(** The Twalk of two names arriving in pieces, with more behind it. *)
Definition walk_bytes : list Z :=
  [26; 0; 0; 0; 110; 7; 0; 1; 0; 0; 0; 2; 0; 0; 0; 2; 0; 3; 0; 98; 105; 110; 2; 0; 114; 99].

Definition walk_pieces : list (list Z) :=
  [take 3 walk_bytes; []; take 10 (drop 3 walk_bytes); drop 13 walk_bytes ++ [13]].

Theorem receive_message_witness :
  ∃ st' f', read9pmsg chunk_read walk_pieces 8192 = Ok (len walk_bytes, walk_bytes, st') ∧
    pending (read := chunk_read) st' = [13] ∧
    convM2S walk_bytes fcall0 = Ok (len walk_bytes, f') ∧ f' ≡ sample_walk.
Proof.
  apply (receive_message (read := chunk_read) walk_pieces sample_walk 64 8192 walk_bytes [13]
    fcall0 sample_walk_wt sample_walk_encodable fcall0_wt).
  - vm_compute. reflexivity.
  - by vm_compute.
  - reflexivity.
  - by repeat (constructor; [by vm_compute |]).
Defined.

(** ** Witnesses of the stat codec *)
Definition sample_dir : Dir :=
  dir0 <| d_name := Some [98; 105; 110] |> <| d_uid := Some [115; 121; 115] |>
    <| d_mode := 2147484141 |> <| d_length := 4096 |>.

Lemma sample_dir_ok : dir_ok sample_dir.
Proof.
  constructor; try (by vm_compute).
  - repeat constructor; by vm_compute.
Defined.

Theorem convD2M_convM2D_witness :
  sizeD2M sample_dir = Ok 55 ∧
  (BIT16SZ ≤ 64 < stat_size sample_dir →
     convD2M sample_dir 64 = Ok (BIT16SZ, PBIT16 (stat_size sample_dir - BIT16SZ))) ∧
  (stat_size sample_dir ≤ 64 →
     ∃ out, convD2M sample_dir 64 = Ok (stat_size sample_dir, out) ∧
       len out = stat_size sample_dir ∧
     ∀ pre post strs,
       let mem := pre ++ out ++ post in
       statcheck mem (len pre) (stat_size sample_dir) = Ok () ∧
       (strs_placed strs (len pre) (len pre + stat_size sample_dir) (stat_size sample_dir) mem →
        ∃ mem', convM2D mem (len pre) (stat_size sample_dir) (Some strs)
          = Ok (stat_size sample_dir, mem', norm_dir sample_dir) ∧ length mem' = length mem)).
Proof. apply (convD2M_convM2D sample_dir 64 sample_dir_ok). by vm_compute. Defined.

Theorem convM2D_safe_witness : safe (convM2D (replicate 60 255) 2 55 (Some 2)).
Proof.
  apply convM2D_safe; [by vm_compute | by vm_compute | | split; [done | by left]].
  by repeat (constructor; [by vm_compute |]).
Defined.

Theorem statcheck_spec_witness :
  safe (statcheck (dir_bytes sample_dir) 0 55) ∧
  (statcheck (dir_bytes sample_dir) 0 55 = Ok () ↔
     STATFIXLEN ≤ 55 ∧ GBIT16 (dropZ 0 (dir_bytes sample_dir)) = Ok (55 - BIT16SZ) ∧
     ∃ d, convM2D (dir_bytes sample_dir) 0 55 None = Ok (55, dir_bytes sample_dir, d)).
Proof.
  apply statcheck_spec; [done | by vm_compute |].
  by vm_compute; repeat (constructor; [by vm_compute |]).
Defined.

Theorem dirpackage_dirs_witness :
  dirpackage (dirs_bytes [sample_dir; sample_dir] ++ [1]) (len (dirs_bytes [sample_dir; sample_dir]))
  = Ok (norm_dir <$> [sample_dir; sample_dir]).
Proof.
  apply dirpackage_dirs. repeat constructor; try apply sample_dir_ok; by vm_compute.
Defined.
