(* ===== verification/Rune.v ===== *)
(** * Rune: UTF-8

    sys/src/libc/port/rune.c, utflen.c, utfnlen.c, utfrune.c, utfrrune.c, utfutf.c,
    utfecpy.c and the byte-string routines they call (strchr.c, strrchr.c, strlen.c,
    strstr.c, strncmp.c, memccpy.c).

    A [char*] argument is the list of bytes from it to the end of its object; a
    pointer returned into it is an offset, and nil is [None].  Loops over a string
    take fuel, one more than the bytes of the object; running out is [Ub]. *)

From S2P Require Import Prelude Bytes.

Definition UTFmax : Z := 4.
Definition Runesync : Z := 0x80.
Definition Runeself : Z := 0x80.
Definition Runeerror : Z := 0xFFFD.
Definition Runemax : Z := 0x10FFFF.

Definition Bit (i : Z) : Z := 7 - i.
Definition T (i : Z) : Z := Z.lxor ((1 ≪ (Bit i + 1)) - 1) 0xFF.
Definition Bitx : Z := Bit 1.
Definition RuneX (i : Z) : Z := (1 ≪ (Bit i + (i - 1) * Bitx)) - 1.
Definition Tx : Z := T 1.
Definition Rune1 : Z := (1 ≪ (Bit 0 + 0 * Bitx)) - 1.
Definition Maskx : Z := (1 ≪ Bitx) - 1.
Definition Testx : Z := Z.lxor Maskx 0xFF.
Definition SurrogateMin : Z := 0xD800.
Definition SurrogateMax : Z := 0xDFFF.
Definition Bad : Z := Runeerror.

(** ** rune.c *)

(** [for(i = 1; i < UTFmax; i++)], [k] turns left: [*rune] and the count. *)
Fixpoint chartorune_loop (k : nat) (str : list Z) (c0 i l : Z) : res (Z * Z) :=
  match k with
  | O => Ok (Bad, 1)
  | S k =>
      ci ← peek str (Z.to_nat i);
      let ci := Z.lxor ci Tx in
      if decide (Z.land ci Testx ≠ 0) then Ok (Bad, 1) else
      let l := Z.lor (u32 (l ≪ Bitx)) ci in
      if decide (c0 < T (i + 2)) then
        let l := Z.land l (RuneX (i + 1)) in
        if (if decide (i = 1) then bool_decide (c0 < T 2 ∨ l ≤ Rune1)
            else bool_decide (l ≤ RuneX i ∨ l > Runemax)) then Ok (Bad, 1) else
        if decide (i = 2 ∧ SurrogateMin ≤ l ∧ l ≤ SurrogateMax) then Ok (Bad, 1) else
        Ok (l, i + 1)
      else chartorune_loop k str c0 (i + 1) l
  end.

Definition chartorune (str : list Z) : res (Z * Z) :=
  c0 ← peek str 0;
  if decide (c0 < Tx) then Ok (c0, 1) else
  chartorune_loop (Z.to_nat (UTFmax - 1)) str c0 1 c0.

(** [for(i = 2; i < UTFmax + 1; i++)], [k] turns left: the bytes stored. *)
Fixpoint runetochar_loop (k : nat) (c i : Z) : list Z :=
  match k with
  | O => []
  | S k =>
      let c :=
        if decide (i = 3) then
          let c := if decide (c > Runemax) then Runeerror else c in
          if decide (SurrogateMin ≤ c ∧ c ≤ SurrogateMax) then Runeerror else c
        else c in
      if decide (c ≤ RuneX i ∨ i = UTFmax) then
        u8 (Z.lor (T i) (c ≫ ((i - 1) * Bitx))) ::
        map (λ j : nat, Z.lor Tx (Z.land (c ≫ ((i - Z.of_nat j - 1) * Bitx)) Maskx))
          (seq 1 (Z.to_nat (i - 1)))
      else runetochar_loop k c (i + 1)
  end.

(** The bytes stored at [str]; the value returned is their number. *)
Definition runetochar (c : Z) : list Z :=
  if decide (c ≤ Rune1) then [u8 c] else
  runetochar_loop (Z.to_nat (UTFmax - 1)) c 2.

Definition runelen (c : Z) : Z := len (runetochar (u32 c)).

(** The first [i] from 2 that fits. *)
Fixpoint runenlen_loop (k : nat) (c i : Z) : Z :=
  match k with
  | O => 0
  | S k => if decide (c ≤ RuneX i ∨ i = UTFmax) then i else runenlen_loop k c (i + 1)
  end.

Definition runenlen (r : list Z) : Z :=
  foldl (λ nb c, if decide (c ≤ Rune1) then nb + 1
                 else nb + runenlen_loop (Z.to_nat (UTFmax - 1)) c 2) 0 r.

Fixpoint fullrune_loop (k : nat) (c n i : Z) : bool :=
  match k with
  | O => bool_decide (UTFmax ≤ n)
  | S k => if decide (c < T i) then bool_decide (i - 1 ≤ n)
           else fullrune_loop k c n (i + 1)
  end.

Definition fullrune (str : list Z) (n : Z) : res bool :=
  if decide (n ≤ 0) then Ok false else
  c ← peek str 0;
  if decide (c < Tx) then Ok true else
  Ok (fullrune_loop (Z.to_nat (UTFmax - 2)) c n 3).

(** ** Byte strings *)

(** Both loops of strchr, from offset [o]; [c] already narrowed to a char.  For
    [c = 0] the NUL itself is the match. *)
Fixpoint strchr_at (s : list Z) (c o : Z) : res (option Z) :=
  match s with
  | [] => Ub
  | c1 :: s =>
      if decide (c = 0) then
        if decide (c1 = 0) then Ok (Some o) else strchr_at s c (o + 1)
      else if decide (c1 = 0) then Ok None
      else if decide (c1 = c) then Ok (Some o) else strchr_at s c (o + 1)
  end.

Definition strchr (s : list Z) (c : Z) : res (option Z) :=
  if decide (c = 0) then strchr_at s 0 0 else
  if decide (u8 c = 0) then
    (* a char of 0 other than the int 0: the second loop stops at the NUL first *)
    _ ← strchr_at s 0 0; Ok None
  else strchr_at s (u8 c) 0.

Definition strlen (s : list Z) : res Z :=
  o ← strchr s 0; res_of_option o.

(** [while(s = strchr(s, c)) r = s++;] *)
Fixpoint strrchr_loop (fuel : nat) (str : list Z) (s : Z) (c : Z) (r : option Z) :
    res (option Z) :=
  match fuel with
  | O => Ub
  | S fuel =>
      o ← strchr (dropZ s str) c;
      match o with
      | None => Ok r
      | Some o => strrchr_loop fuel str (s + o + 1) c (Some (s + o))
      end
  end.

Definition strrchr (s : list Z) (c : Z) : res (option Z) :=
  if decide (c = 0) then strchr s 0 else strrchr_loop (S (length s)) s 0 c None.

(** strncmp: only the test against 0 is used here; the sign-extended
    chars compare as unsigned, in the order of the bytes. *)
Fixpoint strncmp (s1 s2 : list Z) (n : nat) : res Z :=
  match n with
  | O => Ok 0
  | S n =>
      c1 ← peek s1 0; c2 ← peek s2 0;
      if decide (c1 ≠ c2) then Ok (if decide (c1 > c2) then 1 else -1) else
      if decide (c1 = 0) then Ok 0 else strncmp (drop 1 s1) (drop 1 s2) n
  end.

(** The inner loop of strstr: the rest [pb] of the pattern against [pa]. *)
Fixpoint strstr_match (pa pb : list Z) : res bool :=
  match pb with
  | [] => Ub
  | c :: pb =>
      if decide (c = 0) then Ok true else
      a ← peek pa 0;
      if decide (c ≠ a) then Ok false else strstr_match (drop 1 pa) pb
  end.

Fixpoint strstr_loop (fuel : nat) (s1 : list Z) (p : Z) (c0 : Z) (s2 : list Z) :
    res (option Z) :=
  match fuel with
  | O => Ub
  | S fuel =>
      o ← strchr (dropZ p s1) c0;
      match o with
      | None => Ok None
      | Some o =>
          let p := p + o in
          m ← strstr_match (dropZ (p + 1) s1) s2;
          if m : bool then Ok (Some p) else strstr_loop fuel s1 (p + 1) c0 s2
      end
  end.

Definition strstr (s1 s2 : list Z) : res (option Z) :=
  c0 ← peek s2 0;
  if decide (c0 = 0) then Ok (Some 0) else
  strstr_loop (S (length s1)) s1 0 c0 (drop 1 s2).

(** memccpy(a1, a2, c, n): the bytes stored, and whether [c] was among them (the
    pointer returned is then just after it). *)
Fixpoint memccpy (a2 : list Z) (c : Z) (n : nat) : res (list Z * bool) :=
  match n with
  | O => Ok ([], false)
  | S n =>
      b ← peek a2 0;
      if decide (b = Z.land c 0xFF) then Ok ([b], true) else
      '(l, f) ← memccpy (drop 1 a2) c n;
      Ok (b :: l, f)
  end.

(** ** utf*.c *)

(** [s] is an offset into [str]. *)
Fixpoint utflen_loop (fuel : nat) (str : list Z) (s n : Z) : res Z :=
  match fuel with
  | O => Ub
  | S fuel =>
      c ← peek (dropZ s str) 0;
      if decide (c < Runeself) then
        if decide (c = 0) then Ok n else utflen_loop fuel str (s + 1) (n + 1)
      else
        '(_, w) ← chartorune (dropZ s str);
        utflen_loop fuel str (s + w) (n + 1)
  end.

Definition utflen (s : list Z) : res Z := utflen_loop (S (length s)) s 0 0.

Fixpoint utfnlen_loop (fuel : nat) (str : list Z) (s es n : Z) : res Z :=
  match fuel with
  | O => Ub
  | S fuel =>
      if decide (s < es) then
        c ← peek (dropZ s str) 0;
        if decide (c < Runeself) then
          if decide (c = 0) then Ok n else utfnlen_loop fuel str (s + 1) es (n + 1)
        else
          f ← fullrune (dropZ s str) (es - s);
          if f : bool then
            '(_, w) ← chartorune (dropZ s str);
            utfnlen_loop fuel str (s + w) es (n + 1)
          else Ok n
      else Ok n
  end.

Definition utfnlen (s : list Z) (m : Z) : res Z := utfnlen_loop (S (length s)) s 0 m 0.

Fixpoint utfrune_loop (fuel : nat) (str : list Z) (s c : Z) : res (option Z) :=
  match fuel with
  | O => Ub
  | S fuel =>
      c1 ← peek (dropZ s str) 0;
      if decide (c1 < Runeself) then
        if decide (c1 = 0) then Ok None else
        if decide (c1 = c) then Ok (Some s) else utfrune_loop fuel str (s + 1) c
      else
        '(r, n) ← chartorune (dropZ s str);
        if decide (r = c) then Ok (Some s) else utfrune_loop fuel str (s + n) c
  end.

Definition utfrune (s : list Z) (c : Z) : res (option Z) :=
  if decide (c < Runesync) then strchr s c else utfrune_loop (S (length s)) s 0 c.

Fixpoint utfrrune_loop (fuel : nat) (str : list Z) (s c : Z) (s1 : option Z) : res (option Z) :=
  match fuel with
  | O => Ub
  | S fuel =>
      c1 ← peek (dropZ s str) 0;
      if decide (c1 < Runeself) then
        if decide (c1 = 0) then Ok s1 else
        utfrrune_loop fuel str (s + 1) c (if decide (c1 = c) then Some s else s1)
      else
        '(r, n) ← chartorune (dropZ s str);
        utfrrune_loop fuel str (s + n) c (if decide (r = c) then Some s else s1)
  end.

Definition utfrrune (s : list Z) (c : Z) : res (option Z) :=
  if decide (c < Runesync) then strrchr s c else utfrrune_loop (S (length s)) s 0 c None.

Fixpoint utfutf_loop (fuel : nat) (s1 : list Z) (p f n1 : Z) (s2 : list Z) (n2 : Z) :
    res (option Z) :=
  match fuel with
  | O => Ub
  | S fuel =>
      o ← utfrune (dropZ p s1) f;
      match o with
      | None => Ok None
      | Some o =>
          let p := p + o in
          r ← strncmp (dropZ p s1) s2 (Z.to_nat n2);
          if decide (r = 0) then Ok (Some p) else utfutf_loop fuel s1 (p + n1) f n1 s2 n2
      end
  end.

Definition utfutf (s1 s2 : list Z) : res (option Z) :=
  '(f, n1) ← chartorune s2;
  if decide (f ≤ Runesync) then strstr s1 s2 else
  n2 ← strlen s2;
  utfutf_loop (S (length s1)) s1 0 f n1 s2 n2.

(** The loop that moves [end] back over continuation bytes: the final [end - to],
    from the bytes before [end], last first. *)
Fixpoint utfecpy_back (before : list Z) : Z :=
  match before with
  | [] => 0
  | b :: before =>
      if decide (Z.land b 0xC0 = 0x80) then utfecpy_back before else len before
  end.

(** utfecpy(to, to+n, from): the bytes written at [to], and [end - to]. *)
Definition utfecpy (n : Z) (from : list Z) : res (list Z * Z) :=
  if decide (n ≤ 0) then Ok ([], 0) else
  '(l, f) ← memccpy from 0 (Z.to_nat n);
  if f : bool then Ok (l, len l - 1)
  else let e := utfecpy_back (reverse l) in Ok (<[Z.to_nat e := 0]> l, e).
