(* ===== verification/RuneProps.v ===== *)
(** * RuneProps: UTF-8 encoding, decoding and string search

    The encoder and decoder are first put in arithmetic form ([enc] and [dec]), which
    turns the rest into linear arithmetic on bytes; then the string routines are
    related to the sequence of runes ([runes]) of a NUL-terminated string. *)

From S2P Require Import Prelude Bytes Rune.

(** ** Arithmetic form of the codec *)

Definition surrogate (c : Z) : Prop := SurrogateMin ≤ c ∧ c ≤ SurrogateMax.

(** Unicode scalar values. *)
Definition rune_ok (c : Z) : Prop := 0 ≤ c ≤ Runemax ∧ ¬ surrogate c.

#[export] Instance surrogate_dec c : Decision (surrogate c).
Proof. unfold surrogate. apply _. Defined.
#[export] Instance rune_ok_dec c : Decision (rune_ok c).
Proof. unfold rune_ok. apply _. Defined.

(** What is encoded for [c]. *)
Definition norm_rune (c : Z) : Z := if decide (rune_ok c) then c else Runeerror.

Definition enc (c : Z) : list Z :=
  if decide (c < 128) then [c] else
  if decide (c < 2048) then [192 + c `div` 64; 128 + c `mod` 64] else
  if decide (c < 65536) then
    [224 + c `div` 4096; 128 + (c `div` 64) `mod` 64; 128 + c `mod` 64]
  else
    [240 + c `div` 262144; 128 + (c `div` 4096) `mod` 64; 128 + (c `div` 64) `mod` 64;
     128 + c `mod` 64].

Abbreviation cont b := (128 ≤ b < 192).

Definition dec (str : list Z) : res (Z * Z) :=
  match str with
  | [] => Ub
  | b0 :: str =>
    if decide (b0 < 128) then Ok (b0, 1) else
    match str with
    | [] => Ub
    | b1 :: str =>
      if decide (¬ cont b1) then Ok (Bad, 1) else
      if decide (b0 < 224) then
        let l := (b0 * 64 + (b1 - 128)) `mod` 2048 in
        if decide (b0 < 192 ∨ l ≤ 127) then Ok (Bad, 1) else Ok (l, 2)
      else
      match str with
      | [] => Ub
      | b2 :: str =>
        if decide (¬ cont b2) then Ok (Bad, 1) else
        if decide (b0 < 240) then
          let l := ((b0 * 64 + (b1 - 128)) * 64 + (b2 - 128)) `mod` 65536 in
          if decide (l ≤ 2047 ∨ surrogate l) then Ok (Bad, 1) else Ok (l, 3)
        else
        match str with
        | [] => Ub
        | b3 :: _ =>
          if decide (¬ cont b3) then Ok (Bad, 1) else
          if decide (b0 < 248) then
            let l := (((b0 * 64 + (b1 - 128)) * 64 + (b2 - 128)) * 64 + (b3 - 128))
                       `mod` 2097152 in
            if decide (l ≤ 65535 ∨ l > Runemax) then Ok (Bad, 1) else Ok (l, 4)
          else Ok (Bad, 1)
        end
      end
    end
  end.

(** A statement about one byte is checked on all 256. *)
Lemma u8_forall (P : Z → bool) b :
  forallb (λ n, P (Z.of_nat n)) (seq 0 256) = true → is_u8 b → P b = true.
Proof.
  intros H Hb. rewrite forallb_forall in H. specialize (H (Z.to_nat b)).
  rewrite Z2Nat.id in H by apply Hb. apply H, in_seq. ranges. lia.
Qed.

Lemma cont_bits b :
  is_u8 b → if decide (cont b) then Z.land (Z.lxor b Tx) Testx = 0 ∧ Z.lxor b Tx = b - 128
            else Z.land (Z.lxor b Tx) Testx ≠ 0.
Proof.
  intros Hb. apply (u8_forall (λ b, if decide (cont b)
    then bool_decide (Z.land (Z.lxor b Tx) Testx = 0 ∧ Z.lxor b Tx = b - 128)
    else bool_decide (Z.land (Z.lxor b Tx) Testx ≠ 0))) in Hb; [| by vm_compute].
  case_decide; by apply bool_decide_eq_true in Hb.
Qed.

Lemma land_mod l n : 0 ≤ n → Z.land l (2 ^ n - 1) = l `mod` 2 ^ n.
Proof. intros. rewrite <- Z.land_ones by done. by rewrite Z.ones_equiv, Z.sub_1_r. Qed.

Lemma chartorune_step k str c0 i l b :
  str !! Z.to_nat i = Some b → is_u8 b → 0 ≤ l < 2 ^ 20 →
  chartorune_loop (S k) str c0 i l =
  if decide (cont b) then
    let l := l * 64 + (b - 128) in
    if decide (c0 < T (i + 2)) then
      let l := Z.land l (RuneX (i + 1)) in
      if (if decide (i = 1) then bool_decide (c0 < T 2 ∨ l ≤ Rune1)
          else bool_decide (l ≤ RuneX i ∨ l > Runemax)) then Ok (Bad, 1) else
      if decide (i = 2 ∧ SurrogateMin ≤ l ∧ l ≤ SurrogateMax) then Ok (Bad, 1) else
      Ok (l, i + 1)
    else chartorune_loop k str c0 (i + 1) l
  else Ok (Bad, 1).
Proof.
  intros Hb Hr Hl. cbn [chartorune_loop]. unfold peek. rewrite Hb.
  cbn [res_of_option mbind res_bind].
  pose proof (cont_bits b Hr) as Hc. case_decide as Hcont.
  - destruct Hc as [-> ->]. rewrite decide_False by (intros Hn; by apply Hn).
    change Bitx with 6. rewrite Z.shiftl_mul_pow2 by done. change (2 ^ 6) with 64.
    rewrite u32_small by (ranges; lia).
    replace (Z.lor (l * 64) (b - 128)) with (l * 64 + (b - 128)); [done |].
    rewrite Z.lor_comm. change 64 with (2 ^ 6) at 2. rewrite <- Z.shiftl_mul_pow2 by done.
    rewrite (lor_shift_add (b - 128) l 6) by (change (2 ^ 6) with 64; lia).
    change (2 ^ 6) with 64. lia.
  - by rewrite decide_True by done.
Qed.

Lemma land_2047 l : Z.land l 2047 = l `mod` 2048.
Proof. apply (land_mod l 11). done. Qed.
Lemma land_65535 l : Z.land l 65535 = l `mod` 65536.
Proof. apply (land_mod l 16). done. Qed.
Lemma land_2097151 l : Z.land l 2097151 = l `mod` 2097152.
Proof. apply (land_mod l 21). done. Qed.

Ltac rune_consts :=
  change Tx with 128 in *; change (T 2) with 192 in *; change (T 3) with 224 in *;
  change (T 4) with 240 in *; change (T 5) with 248 in *; change Rune1 with 127 in *;
  change (RuneX 2) with 2047 in *; change (RuneX 3) with 65535 in *;
  change (RuneX 4) with 2097151 in *; change Maskx with 63 in *; change Bitx with 6 in *;
  change Runesync with 128 in *; change Runeself with 128 in *; change UTFmax with 4 in *;
  change Runeerror with 65533 in *; change Bad with 65533 in *.

Lemma chartorune_dec str : bytes_ok str → chartorune str = dec str.
Proof.
  intros Hok. destruct str as [|b0 str]; [done |]. apply bytes_ok_cons in Hok as [H0 Hok].
  unfold chartorune. cbn [peek lookup list_lookup res_of_option mbind res_bind dec].
  rune_consts. case_decide as Ha; [done |]. change (Z.to_nat (4 - 1)) with 3%nat.
  destruct str as [|b1 str]; [done |]. apply bytes_ok_cons in Hok as [H1 Hok].
  rewrite (chartorune_step _ _ _ _ _ b1) by (try done; ranges; lia).
  change (1 + 2) with 3. change (1 + 1) with 2. rune_consts. cbv zeta.
  destruct (decide (cont b1)) as [C1|C1];
    [rewrite (decide_False (P := ¬ cont b1)) by tauto | by rewrite decide_True by done].
  case_decide as Hb.
  { rewrite (decide_True (P := 1 = 1)) by done. rewrite land_2047.
    case_bool_decide as Hd; [by rewrite decide_True |].
    rewrite decide_False by (intros [? _]; lia). by rewrite decide_False. }
  destruct str as [|b2 str]; [done |]. apply bytes_ok_cons in Hok as [H2 Hok].
  rewrite (chartorune_step _ _ _ _ _ b2) by (try done; ranges; lia).
  change (2 + 2) with 4. change (2 + 1) with 3. rune_consts. cbv zeta.
  destruct (decide (cont b2)) as [C2|C2];
    [rewrite (decide_False (P := ¬ cont b2)) by tauto | by rewrite decide_True by done].
  case_decide as Hc.
  { rewrite (decide_False (P := 2 = 1)) by done. rewrite land_65535.
    set (l := _ `mod` 65536). assert (0 ≤ l < 65536) by (apply Z.mod_pos_bound; done).
    case_bool_decide as Hd.
    { rewrite decide_True; [done |]. unfold Runemax in Hd. left. lia. }
    case_decide as He; [by rewrite decide_True by (right; apply He) |].
    rewrite decide_False; [done |]. unfold surrogate. intuition lia. }
  destruct str as [|b3 str]; [done |]. apply bytes_ok_cons in Hok as [H3 Hok].
  rewrite (chartorune_step _ _ _ _ _ b3) by (try done; ranges; lia).
  change (3 + 2) with 5. change (3 + 1) with 4. rune_consts. cbv zeta.
  destruct (decide (cont b3)) as [C3|C3];
    [rewrite (decide_False (P := ¬ cont b3)) by tauto | by rewrite decide_True by done].
  case_decide as Hd; [| done].
  rewrite (decide_False (P := 3 = 1)) by done. rewrite land_2097151.
  case_bool_decide as He; [by rewrite decide_True |].
  rewrite decide_False by (intros [? _]; lia). by rewrite decide_False.
Qed.

(** ** The encoder *)

Lemma lor_head x :
  0 ≤ x < 32 →
  Z.lor 192 x = 192 + x ∧ (x < 16 → Z.lor 224 x = 224 + x) ∧
  (x < 8 → Z.lor 240 x = 240 + x).
Proof.
  intros Hx. assert (is_u8 x) as Hb by (ranges; lia).
  apply (u8_forall (λ x, bool_decide (32 ≤ x) || bool_decide (Z.lor 192 x = 192 + x) &&
    (bool_decide (16 ≤ x) || bool_decide (Z.lor 224 x = 224 + x)) &&
    (bool_decide (8 ≤ x) || bool_decide (Z.lor 240 x = 240 + x)))) in Hb; [| by vm_compute].
  apply orb_true_iff in Hb as [Hb%bool_decide_eq_true|Hb]; [lia |].
  rewrite !andb_true_iff, !orb_true_iff, !bool_decide_eq_true in Hb. intuition lia.
Qed.

Lemma lor_T2 x : 0 ≤ x < 32 → Z.lor 192 x = 192 + x.
Proof. intros. by apply lor_head. Qed.
Lemma lor_T3 x : 0 ≤ x < 16 → Z.lor 224 x = 224 + x.
Proof. intros. apply (proj2 (lor_head x ltac:(lia))). lia. Qed.
Lemma lor_T4 x : 0 ≤ x < 8 → Z.lor 240 x = 240 + x.
Proof. intros. apply (proj2 (lor_head x ltac:(lia))). lia. Qed.

Lemma lor_cont x : 0 ≤ x → Z.lor 128 (Z.land x 63) = 128 + x `mod` 64.
Proof.
  intros Hx. change 63 with (2 ^ 6 - 1). rewrite land_mod by done. change (2 ^ 6) with 64.
  rewrite Z.lor_comm. pose proof (Z.mod_pos_bound x 64 ltac:(done)).
  change 128 with (1 ≪ 7) at 1. rewrite lor_shift_add by (change (2 ^ 7) with 128; lia). lia.
Qed.

Lemma norm_rune_ok c : rune_ok (norm_rune c).
Proof. unfold norm_rune. case_decide; [done |]. by apply (bool_decide_eq_true (rune_ok Runeerror)). Qed.

Lemma norm_rune_id c : rune_ok c → norm_rune c = c.
Proof. intros. unfold norm_rune. by rewrite decide_True. Qed.

(** [shiftr] by the multiples of [Bitx] the encoder uses. *)
Lemma shiftr_bitx c :
  c ≫ 0 = c ∧ c ≫ 6 = c `div` 64 ∧ c ≫ 12 = c `div` 4096 ∧ c ≫ 18 = c `div` 262144.
Proof. rewrite !Z.shiftr_div_pow2 by done. rewrite Z.div_1_r. done. Qed.

Ltac encode_bytes :=
  cbn [seq map Z.of_nat Pos.of_succ_nat Pos.succ]; rune_consts;
  rewrite ?(proj1 (shiftr_bitx _));
  repeat match goal with |- context [?c ≫ ?n] =>
    let m := eval cbv in n in progress change (c ≫ n) with (c ≫ m) end;
  rewrite ?(proj1 (proj2 (shiftr_bitx _))), ?(proj1 (proj2 (proj2 (shiftr_bitx _)))),
    ?(proj2 (proj2 (proj2 (shiftr_bitx _)))), ?(proj1 (shiftr_bitx _));
  rewrite !lor_cont by (try apply Z.div_pos; lia).

(** One turn of the loop; the test against [Runemax] is made at [i = 3]. *)
Lemma runetochar_loop_S k c i d :
  d = (if decide (i = 3) then norm_rune c else c) → (i = 3 → 2048 ≤ c) →
  runetochar_loop (S k) c i =
  if decide (d ≤ RuneX i ∨ i = UTFmax) then
    u8 (Z.lor (T i) (d ≫ ((i - 1) * Bitx))) ::
    map (λ j : nat, Z.lor Tx (Z.land (d ≫ ((i - Z.of_nat j - 1) * Bitx)) Maskx))
      (seq 1 (Z.to_nat (i - 1)))
  else runetochar_loop k d (i + 1).
Proof.
  intros -> Hc. lazy beta iota zeta fix delta [runetochar_loop]. fold runetochar_loop.
  match goal with |- context [decide (?x ≤ RuneX i ∨ _)] =>
    replace x with (if decide (i = 3) then norm_rune c else c); [done |] end.
  case_decide as Hi; [| done]. specialize (Hc Hi).
  unfold norm_rune, rune_ok, surrogate. change Runeerror with 65533.
  unfold SurrogateMin, SurrogateMax, Runemax. repeat case_decide; intuition lia.
Qed.

Lemma runetochar_enc c : 0 ≤ c → runetochar c = enc (norm_rune c).
Proof.
  intros Hc. unfold runetochar, enc. rune_consts.
  destruct (decide (c ≤ 127)) as [H1|H1].
  { rewrite norm_rune_id by (unfold rune_ok, surrogate, SurrogateMin, Runemax; lia).
    rewrite decide_True by lia. by rewrite u8_small by (ranges; lia). }
  change (Z.to_nat (4 - 1)) with 3%nat. rewrite (runetochar_loop_S _ _ _ c) by done.
  rune_consts.
  destruct (decide (c < 2048)) as [H2|H2].
  { rewrite decide_True by lia.
    rewrite norm_rune_id by (unfold rune_ok, surrogate, SurrogateMin, Runemax; lia).
    rewrite decide_False, decide_True by lia. change (Z.to_nat (2 - 1)) with 1%nat.
    encode_bytes. rewrite lor_T2 by divlia.
    rewrite u8_small by (ranges; divlia). done. }
  rewrite decide_False by lia. change (2 + 1) with 3.
  rewrite (runetochar_loop_S _ _ _ (norm_rune c)) by (done || lia).
  set (d := norm_rune c). assert (rune_ok d ∧ 2048 ≤ d) as [[Hd _] Hd2].
  { split; [apply norm_rune_ok |]. unfold d, norm_rune. case_decide; [lia | done]. }
  clearbody d. unfold Runemax in Hd. rune_consts.
  destruct (decide (d < 65536)) as [H3|H3].
  { rewrite (decide_True (P := d ≤ 65535 ∨ _)) by lia.
    rewrite !decide_False by lia. change (Z.to_nat (3 - 1)) with 2%nat.
    encode_bytes. rewrite lor_T3 by divlia.
    rewrite u8_small by (ranges; divlia). done. }
  rewrite (decide_False (P := d ≤ 65535 ∨ _)) by lia. change (3 + 1) with 4.
  rewrite (runetochar_loop_S _ _ _ d) by done. rune_consts.
  rewrite (decide_True (P := _ ∨ 4 = 4)) by lia.
  rewrite !decide_False by lia. change (Z.to_nat (4 - 1)) with 3%nat.
  encode_bytes. rewrite lor_T4 by divlia.
  rewrite u8_small by (ranges; divlia). done.
Qed.

Lemma enc_ok c : rune_ok c → bytes_ok (enc c).
Proof.
  intros [Hc _]. unfold Runemax in Hc. unfold enc, bytes_ok.
  repeat case_decide; repeat constructor; ranges; divlia.
Qed.

Lemma dec_enc c r : rune_ok c → dec (enc c ++ r) = Ok (c, len (enc c)).
Proof.
  intros [Hc Hs]. unfold Runemax in Hc. unfold surrogate, SurrogateMin, SurrogateMax in Hs.
  unfold enc. repeat case_decide; cbn [app dec].
  - by rewrite decide_True.
  - rewrite !(decide_False (P := _ < 128)), (decide_False (P := ¬ _)), decide_True by divlia.
    match goal with |- context [?x `mod` 2048] => replace (x `mod` 2048) with c by divlia end. by rewrite decide_False by divlia.
  - rewrite !(decide_False (P := _ < 128)), !(decide_False (P := ¬ _)),
      (decide_False (P := _ < 224)), (decide_True (P := _ < 240)) by divlia.
    match goal with |- context [?x `mod` 65536] => replace (x `mod` 65536) with c by divlia end.
    rewrite decide_False; [done |]. unfold surrogate, SurrogateMin, SurrogateMax. lia.
  - rewrite !(decide_False (P := _ < 128)), !(decide_False (P := ¬ _)),
      (decide_False (P := _ < 224)), (decide_False (P := _ < 240)),
      (decide_True (P := _ < 248)) by divlia.
    match goal with |- context [?x `mod` 2097152] => replace (x `mod` 2097152) with c by divlia end.
    rewrite decide_False; [done |]. unfold Runemax. lia.
Qed.

(** Decoding consumes the canonical encoding of a scalar value, or rejects one byte. *)
Lemma dec_sound str c w :
  bytes_ok str → dec str = Ok (c, w) →
  (rune_ok c ∧ w = len (enc c) ∧ ∃ t, str = enc c ++ t) ∨ (c = Bad ∧ w = 1).
Proof.
  intros Hok Hd. destruct str as [|b0 str]; [done |]. apply bytes_ok_cons in Hok as [H0 Hok].
  cbn [dec] in Hd. case_decide as Ha.
  { injection Hd as <- <-. left. unfold enc. rewrite decide_True by done.
    split_and!; [| done | by eexists].
    unfold rune_ok, surrogate, SurrogateMin, Runemax. ranges. lia. }
  destruct str as [|b1 str]; [done |]. apply bytes_ok_cons in Hok as [H1 Hok].
  case_decide as C1; [by right; injection Hd as <- <- |]. assert (cont b1) as C by lia. clear C1.
  case_decide as Hb.
  { set (l := _ `mod` 2048) in Hd. assert (l = (b0 - 192) * 64 + (b1 - 128) ∨ b0 < 192) as Hl.
    { destruct (decide (b0 < 192)); [by right | left]. unfold l. divlia. }
    clearbody l. case_decide as Hc; [by right; injection Hd as <- <- |].
    injection Hd as <- <-. left. destruct Hl as [Hl|Hl]; [| lia].
    assert (enc l = [b0; b1]) as ->.
    { unfold enc. rewrite decide_False, decide_True by lia. repeat f_equal; divlia. }
    split_and!; [| done | by eexists].
    unfold rune_ok, surrogate, SurrogateMin, Runemax. lia. }
  destruct str as [|b2 str]; [done |]. apply bytes_ok_cons in Hok as [H2 Hok].
  case_decide as C2; [by right; injection Hd as <- <- |]. assert (cont b2) as C' by lia. clear C2.
  case_decide as Hb'.
  { set (l := _ `mod` 65536) in Hd.
    assert (l = (b0 - 224) * 4096 + (b1 - 128) * 64 + (b2 - 128)) as Hl by (unfold l; divlia).
    clearbody l. case_decide as Hc; [by right; injection Hd as <- <- |].
    injection Hd as <- <-. left.
    assert (enc l = [b0; b1; b2]) as ->.
    { unfold enc. rewrite 2 decide_False, decide_True by lia. repeat f_equal; divlia. }
    split_and!; [| done | by eexists]. unfold rune_ok, Runemax. split; [lia | tauto]. }
  destruct str as [|b3 str]; [done |]. apply bytes_ok_cons in Hok as [H3 Hok].
  case_decide as C3; [by right; injection Hd as <- <- |]. assert (cont b3) as C'' by lia. clear C3.
  case_decide as Hb''; [| by right; injection Hd as <- <-].
  set (l := _ `mod` 2097152) in Hd.
  assert (l = (b0 - 240) * 262144 + (b1 - 128) * 4096 + (b2 - 128) * 64 + (b3 - 128)) as Hl
    by (unfold l; divlia).
  clearbody l. case_decide as Hc; [by right; injection Hd as <- <- |].
  injection Hd as <- <-. left.
  assert (enc l = [b0; b1; b2; b3]) as ->.
  { unfold enc. rewrite 3 decide_False by lia. repeat f_equal; divlia. }
  split_and!; [| done | by eexists]. unfold Runemax in Hc.
  unfold rune_ok, surrogate, SurrogateMin, SurrogateMax, Runemax. lia.
Qed.

Lemma enc_nonempty c : ∃ b l, enc c = b :: l ∧ (rune_ok c → (b = c ∧ c < 128 ∧ l = []) ∨
  (192 ≤ b < 248 ∧ 128 ≤ c ∧ Forall (λ b, cont b) l)).
Proof.
  unfold enc. repeat case_decide; do 2 eexists; (split; [done |]); intros [Hc _];
    unfold Runemax in Hc; [by left | right..]; (split_and!; [divlia.. | lia |]);
    repeat constructor; divlia.
Qed.

Lemma len_enc c : 1 ≤ len (enc c) ≤ 4.
Proof. unfold enc. repeat case_decide; cbn; lia. Qed.

(** C8: encoding then decoding any 32-bit rune gives the rune back, or the error
    rune for a surrogate half or a value beyond the last code point; the width
    agrees, whatever follows in memory. *)
Theorem chartorune_runetochar c r :
  is_u32 c → bytes_ok r →
  chartorune (runetochar c ++ r) = Ok (norm_rune c, len (runetochar c)).
Proof.
  intros Hc Hr. rewrite runetochar_enc by apply Hc.
  rewrite chartorune_dec by (apply bytes_ok_app; auto using enc_ok, norm_rune_ok).
  apply dec_enc, norm_rune_ok.
Qed.

Lemma chartorune_runetochar_witness :
  chartorune (runetochar 0x20AC ++ [0]) = Ok (0x20AC, 3) ∧
  chartorune (runetochar 0x110000 ++ [0]) = Ok (Runeerror, 3).
Proof.
  split; [apply (chartorune_runetochar 0x20AC [0]) | apply (chartorune_runetochar 0x110000 [0])];
    by_decide.
Defined.

(** ** NUL-terminated strings as sequences of runes *)

(** The decoder stops at a NUL. *)
Lemma dec_nul b s :
  str_ok (b :: s) → ∃ c w, 1 ≤ w ≤ len (b :: s) ∧
    (∀ r, dec ((b :: s) ++ 0 :: r) = Ok (c, w)) ∧ (b < 128 → c = b ∧ w = 1).
Proof.
  intros Hs. apply Forall_cons_iff in Hs as [[H0 _] Hs]. cbn [app dec].
  destruct (decide (b < 128)); [exists b, 1; split; [cbn; lia | done] |].
  assert (∀ P : Z → Z → Prop, (∃ c w, 1 ≤ w ≤ len (b :: s) ∧ P c w) →
    ∃ c w, 1 ≤ w ≤ len (b :: s) ∧ P c w ∧ (b < 128 → c = b ∧ w = 1)) as Hw
    by (intros P (c & w & Hc & Hp); exists c, w; split_and!; [lia.. | done | lia]).
  apply Hw. clear Hw. destruct (decide (¬ cont 0)) as [Hz|]; [| lia].
  destruct s as [|b1 s]; cbn [app].
  { exists Bad, 1. split; [cbn; lia |]. intros. by rewrite decide_True. }
  destruct (decide (¬ cont b1)); [exists Bad, 1; split; [cbn; lia | done] |].
  destruct (decide (b < 224)).
  { case_decide; do 2 eexists; (split; [| done]); cbn; lia. }
  destruct s as [|b2 s]; cbn [app].
  { exists Bad, 1. split; [cbn; lia |]. intros. by rewrite decide_True. }
  destruct (decide (¬ cont b2)); [exists Bad, 1; split; [cbn; lia | done] |].
  destruct (decide (b < 240)).
  { case_decide; do 2 eexists; (split; [| done]); cbn; lia. }
  destruct s as [|b3 s]; cbn [app].
  { exists Bad, 1. split; [cbn; lia |]. intros. by rewrite decide_True. }
  repeat case_decide; do 2 eexists; (split; [| done]); cbn; lia.
Qed.

Fixpoint runes_fuel (k : nat) (s : list Z) : list (Z * Z) :=
  match k, s with
  | S k, _ :: _ =>
      match chartorune (s ++ [0]) with
      | Ok (c, w) => (c, w) :: runes_fuel k (dropZ w s)
      | _ => []
      end
  | _, _ => []
  end.

(** The runes of a string, each with the number of bytes it takes; a byte that
    does not decode is an error rune of width 1. *)
Definition runes (s : list Z) : list (Z * Z) := runes_fuel (length s) s.

Lemma str_ok_bytes_nul s r : str_ok s → bytes_ok r → bytes_ok (s ++ 0 :: r).
Proof. intros. apply bytes_ok_app. split; [auto with p9 | by constructor]. Qed.

Lemma str_ok_dropZ n s : str_ok s → str_ok (dropZ n s).
Proof. apply Forall_drop. Qed.

#[export] Hint Resolve str_ok_bytes_nul str_ok_dropZ : p9.

(** One rune from the front of a non-empty string. *)
Definition next_rune (s : list Z) (c w : Z) : Prop :=
  1 ≤ w ≤ len s ∧ (∀ r, bytes_ok r → chartorune (s ++ 0 :: r) = Ok (c, w)) ∧
  (∀ b, s !! 0%nat = Some b → b < 128 → c = b ∧ w = 1) ∧
  ((rune_ok c ∧ w = len (enc c) ∧ ∃ t, s = enc c ++ t) ∨ (c = Bad ∧ w = 1)).

Lemma next_rune_exists s : str_ok s → s ≠ [] → ∃ c w, next_rune s c w.
Proof.
  intros Hs Hne. destruct s as [|b s]; [done |].
  destruct (dec_nul b s Hs) as (c & w & Hw & Hd & Hb). exists c, w.
  assert (bytes_ok ((b :: s) ++ [0])) as Hok by (apply str_ok_bytes_nul; [done | constructor]).
  split_and!; [lia | lia | | by intros b' [= <-] |].
  - intros r Hr. rewrite chartorune_dec; [apply Hd | auto with p9].
  - destruct (dec_sound _ c w Hok (Hd [])) as [(H1 & H2 & t & Ht)|]; [left | by right].
    split_and!; [done.. |]. exists (take (length (b :: s) - length (enc c)) t).
    apply (f_equal (take (length (b :: s)))) in Ht. rewrite take_app_length in Ht.
    rewrite Ht at 1. rewrite take_app_ge by lia. done.
Qed.

Lemma runes_fuel_next k s c w :
  next_rune s c w → runes_fuel (S k) s = (c, w) :: runes_fuel k (dropZ w s).
Proof.
  intros (Hw & Hd & _). destruct s; [simpl in Hw; lia |]. cbn [runes_fuel].
  rewrite Hd by constructor. done.
Qed.

Lemma length_dropZ_lt w s : 1 ≤ w → s ≠ [] → (length (dropZ w s) < length s)%nat.
Proof. intros. unfold dropZ. rewrite length_drop. destruct s; [done | simpl; lia]. Qed.

Lemma runes_fuel_enough k s : str_ok s → (length s ≤ k)%nat → runes_fuel k s = runes s.
Proof.
  unfold runes. revert s. induction k as [k IH] using lt_wf_ind. intros s Hs Hk.
  destruct (decide (s = [])) as [->|Hne]; [by destruct k |].
  destruct (next_rune_exists s Hs Hne) as (c & w & Hn). pose proof Hn as (Hw & _).
  pose proof (length_dropZ_lt w s ltac:(lia) Hne) as Hlt.
  destruct k as [|k]; [lia |]. destruct (length s) as [|n] eqn:Hl; [lia |].
  rewrite !(runes_fuel_next _ s c w) by done. f_equal.
  rewrite (IH k) by auto with p9 lia. symmetry.
  destruct (decide (n = k)) as [->|]; [apply IH; auto with p9 lia |].
  apply IH; auto with p9 lia.
Qed.

Lemma runes_next s c w :
  str_ok s → next_rune s c w → runes s = (c, w) :: runes (dropZ w s).
Proof.
  intros Hs Hn. pose proof Hn as (Hw & _). destruct s as [|b s']; [simpl in Hw; lia |].
  unfold runes at 1. cbn [length]. rewrite (runes_fuel_next _ _ c w) by done. f_equal.
  apply runes_fuel_enough; [auto with p9 |].
  pose proof (length_dropZ_lt w (b :: s') ltac:(lia) ltac:(done)). simpl in *. lia.
Qed.

(** Induction along the runes of a string. *)
Lemma runes_ind (P : list Z → Prop) :
  P [] → (∀ s c w, str_ok s → s ≠ [] → next_rune s c w → P (dropZ w s) → P s) →
  ∀ s, str_ok s → P s.
Proof.
  intros H0 HS s. remember (length s) as n eqn:Hn. revert s Hn.
  induction n as [n IH] using lt_wf_ind. intros s -> Hs.
  destruct (decide (s = [])) as [->|Hne]; [done |].
  destruct (next_rune_exists s Hs Hne) as (c & w & Hnx). pose proof Hnx as (Hw & _).
  eapply HS; [done.. |]. eapply IH; [| done | auto with p9]. apply length_dropZ_lt; [lia | done].
Qed.

(** A scan at offset [len pre] that takes [w] bytes of [s]. *)
Lemma advance pre s w t :
  1 ≤ w ≤ len s →
  pre ++ s ++ t = (pre ++ takeZ w s) ++ dropZ w s ++ t ∧ len (pre ++ takeZ w s) = len pre + w.
Proof.
  intros Hw. split; [| rewrite length_app, Nat2Z.inj_add, len_takeZ by lia; done].
  rewrite <- !app_assoc. f_equal. by rewrite app_assoc, takeZ_dropZ.
Qed.

Lemma at_pos pre (t : list Z) : dropZ (len pre) (pre ++ t) = t.
Proof. by apply dropZ_app. Qed.

Lemma next_rune_head s c w r :
  str_ok s → s ≠ [] → next_rune s c w →
  ∃ b, peek (s ++ 0 :: r) 0 = Ok b ∧ b ≠ 0 ∧ is_u8 b ∧ (b < 128 → c = b ∧ w = 1).
Proof.
  intros Hs Hne (_ & _ & Hb & _). destruct s as [|b s]; [done |].
  apply Forall_cons_iff in Hs as [[? ?] _]. exists b. split_and!; [done.. | by apply Hb].
Qed.

(** One turn of a scan over the runes of [s]: [scan] is left to rewrite with the
    facts about the rune at the current position. *)
Ltac scan_end := rewrite at_pos; cbn [app peek lookup list_lookup res_of_option mbind res_bind];
  rune_consts; rewrite (decide_True (P := 0 < 128)), (decide_True (P := 0 = 0)) by done.

Lemma utflen_loop_spec s :
  str_ok s → ∀ fuel pre r n, bytes_ok r → (length s < fuel)%nat →
  utflen_loop fuel (pre ++ s ++ 0 :: r) (len pre) n = Ok (n + Z.of_nat (length (runes s))).
Proof.
  revert s. apply (runes_ind (λ s, ∀ fuel pre r n, bytes_ok r → (length s < fuel)%nat →
    utflen_loop fuel (pre ++ s ++ 0 :: r) (len pre) n = Ok (n + Z.of_nat (length (runes s))))).
  { intros [|fuel] pre r n Hr Hf; [lia |]. cbn [utflen_loop]. scan_end. f_equal. cbn. lia. }
  intros s c w Hs Hne Hn IH [|fuel] pre r n Hr Hf; [lia |]. cbn [utflen_loop].
  rewrite at_pos. destruct (next_rune_head s c w r) as (b & -> & Hb0 & Hbr & Hb); [done.. |].
  pose proof Hn as (Hw & Hd & _). cbn [mbind res_bind]. rune_consts.
  pose proof (length_dropZ_lt w s ltac:(lia) Hne).
  destruct (advance pre s w (0 :: r) Hw) as [Ha Hl].
  specialize (IH fuel (pre ++ takeZ w s) r (n + 1) Hr ltac:(lia)).
  rewrite <- Ha, Hl in IH. rewrite (runes_next s c w) by done. cbn [length].
  case_decide as Hb1.
  - destruct (Hb Hb1) as [-> ->]. rewrite decide_False by done. rewrite IH. f_equal. lia.
  - rewrite Hd by done. cbn [mbind res_bind]. rewrite IH. f_equal. lia.
Qed.

(** [utf rs]: the text of a sequence of scalar values. *)
Definition utf (rs : list Z) : list Z := rs ≫= enc.

(** Text without NUL. *)
Definition text (rs : list Z) : Prop := Forall (λ c, rune_ok c ∧ c ≠ 0) rs.

#[export] Instance text_dec rs : Decision (text rs).
Proof. unfold text. apply _. Defined.

Lemma utf_runetochar rs : text rs → utf rs = rs ≫= runetochar.
Proof.
  induction 1 as [|c rs [Hc _] _ IH]; [done |].
  unfold utf in *. cbn [mbind list_bind]. change (enc c ++ (rs ≫= enc) = runetochar c ++ (rs ≫= runetochar)).
  rewrite runetochar_enc by apply Hc. rewrite norm_rune_id by done. by f_equal.
Qed.

Lemma enc_str_ok c : rune_ok c → c ≠ 0 → str_ok (enc c).
Proof.
  intros [Hc _] H0. unfold Runemax in Hc. unfold enc, str_ok.
  repeat case_decide; repeat constructor; try done; ranges; divlia.
Qed.

Lemma utf_str_ok rs : text rs → str_ok (utf rs).
Proof.
  induction 1 as [|c rs [Hc H0] _ IH]; [constructor |].
  apply Forall_app. split; [by apply enc_str_ok | done].
Qed.

Lemma next_rune_enc c s :
  rune_ok c → c ≠ 0 → str_ok s → next_rune (enc c ++ s) c (len (enc c)).
Proof.
  intros Hc H0 Hs. pose proof (len_enc c). split_and!; [lia | rewrite length_app; lia | | |].
  - intros r Hr. rewrite <- app_assoc. rewrite chartorune_dec; [by apply dec_enc |].
    apply bytes_ok_app. auto using enc_ok with p9.
  - destruct (enc_nonempty c) as (b & l & -> & Hb). intros b' [= <-] Hlt.
    destruct (Hb Hc) as [(-> & _ & ->)|]; [done | lia].
  - left. split_and!; [done.. | by eexists].
Qed.

Lemma runes_utf rs : text rs → runes (utf rs) = (λ c, (c, len (enc c))) <$> rs.
Proof.
  induction 1 as [|c rs [Hc H0] Hrs IH]; [done |]. cbn [utf mbind list_bind fmap list_fmap].
  fold (utf rs). rewrite (runes_next _ c (len (enc c))).
  - rewrite dropZ_app by done. by f_equal.
  - apply Forall_app. split; [by apply enc_str_ok | by apply utf_str_ok].
  - apply next_rune_enc; auto using utf_str_ok.
Qed.

(** C9: decoding the front of any NUL-terminated string.  chartorune never looks
    past the NUL, and takes between 1 byte and the whole string; what it takes is
    either the canonical encoding of a scalar value, so overlong forms, surrogates
    and values past the last code point are refused, or one byte reported as the
    error rune. *)
Theorem chartorune_string s r :
  str_ok s → s ≠ [] → bytes_ok r →
  ∃ c w, chartorune (s ++ 0 :: r) = Ok (c, w) ∧ 1 ≤ w ≤ len s ∧
    ((rune_ok c ∧ takeZ w s = runetochar c) ∨ (c = Runeerror ∧ w = 1)).
Proof.
  intros Hs Hne Hr. destruct (next_rune_exists s Hs Hne) as (c & w & Hw & Hd & _ & Hc).
  exists c, w. split_and!; [auto | lia | lia |].
  destruct Hc as [(Hc & Hwc & t & ->)|]; [left | by right]. split; [done |].
  rewrite runetochar_enc by apply Hc. rewrite norm_rune_id by done. by apply takeZ_app.
Qed.

Lemma chartorune_string_witness :
  ∃ c w, chartorune ([0xC0; 0x80] ++ 0 :: []) = Ok (c, w) ∧ 1 ≤ w ≤ len [0xC0; 0x80] ∧
    ((rune_ok c ∧ takeZ w [0xC0; 0x80] = runetochar c) ∨ (c = Runeerror ∧ w = 1)).
Proof. apply chartorune_string; [by_decide | done | by_decide]. Defined.

(** ** utfnlen *)

(** How many of the runes [rs] fit in [m] bytes. *)
Fixpoint fit (rs : list Z) (m : Z) : Z :=
  match rs with
  | [] => 0
  | c :: rs => if decide (len (enc c) ≤ m) then 1 + fit rs (m - len (enc c)) else 0
  end.

(** The bytes a sequence starting with [b] claims. *)
Definition need (b : Z) : Z :=
  if decide (b < 128) then 1 else if decide (b < 224) then 2 else if decide (b < 240) then 3 else 4.

Lemma fullrune_need b str n : fullrune (b :: str) n = Ok (bool_decide (need b ≤ n)).
Proof.
  unfold fullrune, need. case_decide as Hn.
  { f_equal. symmetry. apply bool_decide_eq_false. repeat case_decide; lia. }
  cbn [peek lookup list_lookup res_of_option mbind res_bind]. rune_consts.
  change (Z.to_nat (4 - 2)) with 2%nat. cbn [fullrune_loop].
  change (3 + 1) with 4. rune_consts. repeat case_decide; f_equal; try done.
  symmetry. apply bool_decide_eq_true. lia.
Qed.

Lemma need_range b : 1 ≤ need b ≤ 4.
Proof. unfold need. repeat case_decide; lia. Qed.

Lemma need_enc c : rune_ok c → need (default 0 (head (enc c))) = len (enc c).
Proof.
  intros [Hc _]. unfold Runemax in Hc. unfold enc, need. repeat case_decide; cbn in *;
    try done; exfalso; divlia.
Qed.

(** The decoder looks at no more than that. *)
Lemma dec_need b str :
  bytes_ok (b :: str) → need b ≤ len (b :: str) →
  ∃ c w, dec (b :: str) = Ok (c, w) ∧ 1 ≤ w ≤ need b ∧ (b < 128 → w = 1).
Proof.
  intros _ Hn. unfold need in *. cbn [dec].
  destruct (decide (b < 128)); [do 2 eexists; split; [done | lia] |].
  destruct str as [|b1 str]; [simpl in Hn; repeat case_decide; lia |].
  destruct (decide (¬ cont b1)); [do 2 eexists; split; [done | repeat case_decide; lia] |].
  destruct (decide (b < 224)); [case_decide; do 2 eexists; (split; [done | lia]) |].
  destruct str as [|b2 str]; [simpl in Hn; repeat case_decide; lia |].
  destruct (decide (¬ cont b2)); [do 2 eexists; split; [done | repeat case_decide; lia] |].
  destruct (decide (b < 240)); [case_decide; do 2 eexists; (split; [done | lia]) |].
  destruct str as [|b3 str]; [simpl in Hn; lia |].
  repeat case_decide; do 2 eexists; (split; [done | lia]).
Qed.

Lemma dropZ_cons_peek s (str : list Z) b t :
  dropZ s str = b :: t → peek (dropZ s str) 0 = Ok b.
Proof. by intros ->. Qed.

Lemma utfnlen_loop_safe fuel b s m n :
  bytes_ok b → 0 ≤ s → m ≤ len b → s ≤ m + 3 → (Z.to_nat (m - s) < fuel)%nat →
  ∃ k, utfnlen_loop fuel b s m n = Ok (n + k) ∧ 0 ≤ k ≤ Z.max 0 (m - s).
Proof.
  intros Hb. revert s n. induction fuel as [|fuel IH]; intros s n Hs Hm Hsm Hf; [lia |].
  cbn [utfnlen_loop]. case_decide as Hd; [| exists 0; split; [f_equal |]; lia].
  destruct (dropZ s b) as [|c t] eqn:Hc.
  { apply (f_equal (λ l, len l)) in Hc. rewrite len_dropZ in Hc by done. simpl in Hc. lia. }
  assert (bytes_ok (c :: t)) as Hct by (rewrite <- Hc; auto with p9).
  assert (len (c :: t) = len b - s) as Hl by (rewrite <- Hc, len_dropZ; lia).
  cbn [peek lookup list_lookup res_of_option mbind res_bind]. rune_consts.
  assert (∀ w, 1 ≤ w → s + w ≤ m + 3 → ∃ k, utfnlen_loop fuel b (s + w) m (n + 1) = Ok (n + k) ∧
    0 ≤ k ≤ Z.max 0 (m - s)) as Hstep.
  { intros w Hw1 Hw2. destruct (IH (s + w) (n + 1)) as (k & -> & Hk); [lia.. |].
    exists (1 + k). split; [f_equal |]; lia. }
  case_decide as Hc1.
  - case_decide; [exists 0; split; [f_equal |]; lia | apply Hstep; lia].
  - rewrite fullrune_need. cbn [mbind res_bind].
    case_bool_decide as Hfr; [| exists 0; split; [f_equal |]; lia].
    destruct (dec_need c t Hct) as (r & w & Hdec & Hw & _); [lia |].
    rewrite chartorune_dec, Hdec by done. cbn [mbind res_bind]. apply Hstep; lia.
Qed.

Lemma utfnlen_loop_fit fuel rs pre t m n :
  text rs → bytes_ok t → takeZ m t = takeZ m (utf rs ++ [0]) → m ≤ len t →
  (Z.to_nat m < fuel)%nat →
  utfnlen_loop fuel (pre ++ t) (len pre) (len pre + m) n = Ok (n + fit rs m).
Proof.
  intros Hrs. revert fuel pre t m n.
  induction Hrs as [|c rs [Hc H0] Hrs IH]; intros fuel pre t m n Ht Hm Hlm Hf;
    (destruct fuel as [|fuel]; [lia |]); cbn [utfnlen_loop fit].
  { case_decide; [| f_equal; lia]. rewrite at_pos.
    destruct t as [|b t]; [simpl in *; lia |].
    unfold takeZ in Hm. destruct (Z.to_nat m) as [|m'] eqn:Hm'; [lia |].
    cbn in Hm. injection Hm as -> _.
    cbn [peek lookup list_lookup res_of_option mbind res_bind]. rune_consts.
    rewrite !decide_True by done. f_equal. lia. }
  pose proof (len_enc c) as Hle.
  case_decide as Hd; [| rewrite decide_False by lia; f_equal; lia]. rewrite at_pos.
  pose proof (need_enc c Hc) as Hne.
  destruct (enc_nonempty c) as (b & l & Hel & Hb). specialize (Hb Hc). rewrite Hel in Hne.
  change (need b = len (b :: l)) in Hne. rewrite <- Hel in Hne.
  assert (∃ t', t = b :: t') as [t' Htb].
  { destruct t as [|b' t]; [simpl in Hlm; lia |]. unfold takeZ in Hm.
    destruct (Z.to_nat m) as [|m'] eqn:Hm'; [lia |]. unfold utf in Hm.
    cbn [mbind list_bind] in Hm. rewrite Hel in Hm. cbn in Hm. injection Hm as -> _. by eexists. }
  rewrite Htb at 1. cbn [peek lookup list_lookup res_of_option mbind res_bind]. rune_consts.
  (* when the rune fits, it is there in full *)
  assert (len (enc c) ≤ m → ∃ t2, t = enc c ++ t2 ∧ bytes_ok t2 ∧
      m - len (enc c) ≤ len t2 ∧
      takeZ (m - len (enc c)) t2 = takeZ (m - len (enc c)) (utf rs ++ [0])) as Hfit.
  { intros Hfit. exists (dropZ (len (enc c)) t).
    assert (takeZ (len (enc c)) t = enc c) as Hpre.
    { transitivity (takeZ (len (enc c)) (takeZ m t)).
      - unfold takeZ. rewrite take_take. f_equal. lia.
      - rewrite Hm. unfold takeZ. rewrite take_take, Nat.min_l by lia.
        unfold utf. cbn [mbind list_bind]. rewrite <- app_assoc. by apply takeZ_app. }
    split_and!; [by rewrite <- Hpre at 1; rewrite takeZ_dropZ | auto with p9 |
      rewrite len_dropZ; lia |].
    unfold takeZ, dropZ in *. rewrite Nat2Z.id.
    replace (Z.to_nat (m - len (enc c))) with (Z.to_nat m - length (enc c))%nat by lia.
    rewrite <- !skipn_firstn_comm, Hm, skipn_firstn_comm.
    unfold utf. cbn [mbind list_bind]. by rewrite <- app_assoc, drop_app_length. }
  assert (len (enc c) ≤ m →
    utfnlen_loop fuel (pre ++ t) (len pre + len (enc c)) (len pre + m) (n + 1) =
    Ok (n + (1 + fit rs (m - len (enc c))))) as Hstep.
  { intros Hfm. destruct (Hfit Hfm) as (t2 & -> & Ht2 & Hl2 & Hm2).
    specialize (IH fuel (pre ++ enc c) t2 (m - len (enc c)) (n + 1) Ht2 Hm2 Hl2 ltac:(lia)).
    rewrite length_app, Nat2Z.inj_add, <- app_assoc in IH.
    replace (len pre + len (enc c) + (m - len (enc c))) with (len pre + m) in IH by lia.
    rewrite IH. f_equal. lia. }
  case_decide as Hb1.
  - destruct Hb as [(-> & _ & ->)|]; [| lia]. rewrite Hel in *. cbn [length] in *.
    rewrite decide_False by done. rewrite decide_True by lia. apply Hstep. lia.
  - replace (len pre + m - len pre) with m by lia. rewrite Htb at 1.
    rewrite fullrune_need, Hne. cbn [mbind res_bind].
    case_bool_decide as Hfr; [rewrite decide_True by done | rewrite decide_False by done; f_equal; lia].
    destruct (Hfit Hfr) as (t2 & Ht2e & Ht2 & _). rewrite chartorune_dec by done.
    rewrite Ht2e at 1. rewrite dec_enc by done. cbn [mbind res_bind]. by apply Hstep.
Qed.

(** Utflen counts the runes of any NUL-terminated string, and utfnlen the whole
    runes among the first [m] bytes: on text cut off anywhere it counts exactly the
    runes that fit, and on any bytes at all it stays inside the [m] it was given. *)
Theorem utflen_utfnlen s rs r b m :
  str_ok s → text rs → bytes_ok r → bytes_ok b → 0 ≤ m ≤ len b →
  utflen (s ++ 0 :: r) = Ok (Z.of_nat (length (runes s))) ∧
  utflen (utf rs ++ 0 :: r) = Ok (Z.of_nat (length rs)) ∧
  (∃ n, utfnlen b m = Ok n ∧ 0 ≤ n ≤ m) ∧
  (takeZ m b = takeZ m (utf rs ++ [0]) → utfnlen b m = Ok (fit rs m)).
Proof.
  intros Hs Hrs Hr Hb Hm.
  assert (∀ s, str_ok s → utflen (s ++ 0 :: r) = Ok (Z.of_nat (length (runes s)))) as Hu.
  { intros s' Hs'. pose proof (utflen_loop_spec s' Hs' (S (length (s' ++ 0 :: r))) [] r 0 Hr) as H.
    apply H. rewrite length_app. lia. }
  split_and!.
  - by apply Hu.
  - rewrite Hu by by apply utf_str_ok. by rewrite runes_utf, length_fmap.
  - destruct (utfnlen_loop_safe (S (length b)) b 0 m 0) as (k & Hk & Hr'); [done || lia.. |].
    exists k. split; [apply Hk | lia].
  - intros Ht. pose proof (utfnlen_loop_fit (S (length b)) rs [] b m 0) as H.
    cbn [app length] in H. apply H; [done.. | lia | lia].
Qed.

Lemma utflen_utfnlen_witness :
  utflen ([0x61; 0xE2; 0x82; 0xAC] ++ 0 :: []) = Ok 2 ∧
  utfnlen [0x61; 0xE2; 0x82] 3 = Ok 1.
Proof.
  destruct (utflen_utfnlen [0x61; 0xE2; 0x82; 0xAC] [0x61; 0x20AC] [] [0x61; 0xE2; 0x82] 3)
    as (H1 & _ & _ & H2); [by_decide.. |].
  split; [apply H1 | apply H2; reflexivity].
Defined.

(** ** utfrune and utfrrune *)

(** Offset of the first rune [c], and of the last (or [d]). *)
Fixpoint find_rune (c o : Z) (l : list (Z * Z)) : option Z :=
  match l with
  | [] => None
  | (c', w) :: l => if decide (c' = c) then Some o else find_rune c (o + w) l
  end.

Lemma find_rune_shift c o k l : find_rune c (o + k) l = (λ z, z + k) <$> find_rune c o l.
Proof.
  revert o. induction l as [|[c1 w1] l IH]; intros o; [done |]. cbn [find_rune].
  case_decide; [done |]. rewrite <- IH. f_equal. lia.
Qed.

Fixpoint rfind_rune (c o : Z) (l : list (Z * Z)) (d : option Z) : option Z :=
  match l with
  | [] => d
  | (c', w) :: l => rfind_rune c (o + w) l (if decide (c' = c) then Some o else d)
  end.

Ltac scan_next :=
  match goal with
  | Hs : str_ok ?s, Hne : ?s ≠ [], Hn : next_rune ?s ?c ?w |- context [peek (?s ++ 0 :: ?r) 0] =>
    destruct (next_rune_head s c w r) as (b & -> & Hb0 & Hbr & Hb); [done.. |];
    pose proof Hn as (Hw & Hd & _); cbn [mbind res_bind]; rune_consts;
    pose proof (length_dropZ_lt w s ltac:(lia) Hne);
    rewrite (runes_next s c w) by done
  end.

Lemma utfrune_loop_spec c s :
  str_ok s → ∀ fuel pre r, bytes_ok r → (length s < fuel)%nat →
  utfrune_loop fuel (pre ++ s ++ 0 :: r) (len pre) c = Ok (find_rune c (len pre) (runes s)).
Proof.
  revert s. apply (runes_ind (λ s, ∀ fuel pre r, bytes_ok r → (length s < fuel)%nat →
    utfrune_loop fuel (pre ++ s ++ 0 :: r) (len pre) c = Ok (find_rune c (len pre) (runes s)))).
  { intros [|fuel] pre r Hr Hf; [lia |]. cbn [utfrune_loop]. by scan_end. }
  intros s c' w Hs Hne Hn IH [|fuel] pre r Hr Hf; [lia |]. cbn [utfrune_loop].
  rewrite at_pos. scan_next. destruct (advance pre s w (0 :: r) Hw) as [Ha Hl].
  specialize (IH fuel (pre ++ takeZ w s) r Hr ltac:(lia)). rewrite <- Ha, Hl in IH.
  cbn [find_rune]. case_decide as Hb1.
  - destruct (Hb Hb1) as [-> ->]. rewrite decide_False by done. by case_decide.
  - rewrite Hd by done. cbn [mbind res_bind]. by case_decide.
Qed.

Lemma utfrrune_loop_spec c s :
  str_ok s → ∀ fuel pre r d, bytes_ok r → (length s < fuel)%nat →
  utfrrune_loop fuel (pre ++ s ++ 0 :: r) (len pre) c d =
  Ok (rfind_rune c (len pre) (runes s) d).
Proof.
  revert s. apply (runes_ind (λ s, ∀ fuel pre r d, bytes_ok r → (length s < fuel)%nat →
    utfrrune_loop fuel (pre ++ s ++ 0 :: r) (len pre) c d =
    Ok (rfind_rune c (len pre) (runes s) d))).
  { intros [|fuel] pre r d Hr Hf; [lia |]. cbn [utfrrune_loop]. by scan_end. }
  intros s c' w Hs Hne Hn IH [|fuel] pre r d Hr Hf; [lia |]. cbn [utfrrune_loop].
  rewrite at_pos. scan_next. destruct (advance pre s w (0 :: r) Hw) as [Ha Hl].
  specialize (λ d, IH fuel (pre ++ takeZ w s) r d Hr ltac:(lia)). setoid_rewrite <- Ha in IH.
  rewrite Hl in IH. cbn [rfind_rune]. case_decide as Hb1.
  - destruct (Hb Hb1) as [-> ->]. rewrite decide_False by done. apply IH.
  - rewrite Hd by done. cbn [mbind res_bind]. apply IH.
Qed.

(** Inside the bytes one rune takes, an ASCII byte can only be the rune itself. *)
Lemma next_rune_ascii s c w c1 i :
  str_ok s → next_rune s c w → c1 < 128 → takeZ w s !! i = Some c1 → c = c1 ∧ i = 0%nat.
Proof.
  intros Hs (Hw & _ & Hb & Hc) H1 Hi. destruct s as [|b s]; [simpl in Hw; lia |].
  destruct Hc as [(Hc & -> & t & Ht)|[-> ->]].
  - destruct (enc_nonempty c) as (b' & l & Hel & Hbl). rewrite Ht in Hi, Hb.
    rewrite takeZ_app in Hi by done. rewrite Hel in Hi, Hb.
    destruct (Hbl Hc) as [(-> & _ & ->)|(? & _ & Hl)].
    + destruct i; [by injection Hi as -> | done].
    + destruct i as [|i]; [injection Hi as ->; lia |].
      pose proof (Forall_lookup_1 _ _ _ _ Hl Hi). cbv beta in *. lia.
  - change (takeZ 1 (b :: s)) with [b] in Hi. destruct i; [| done]. injection Hi as ->.
    by destruct (Hb c1).
Qed.

Lemma strchr_at_skip t k c o :
  str_ok t → Forall (λ b, b ≠ c) t → strchr_at (t ++ k) c o = strchr_at k c (o + len t).
Proof.
  intros Ht. revert o. induction Ht as [|b t [Hb H0] Ht IH]; intros o Hc.
  { cbn. f_equal. lia. }
  apply Forall_cons_iff in Hc as [Hbc Hc]. cbn [app strchr_at].
  rewrite !(decide_False (P := b = 0)), (decide_False (P := b = c)) by done.
  rewrite IH by done. cbn [length]. case_decide; f_equal; lia.
Qed.

Lemma strchr_at_nul s r o : str_ok s → strchr_at (s ++ 0 :: r) 0 o = Ok (Some (o + len s)).
Proof.
  intros Hs. rewrite strchr_at_skip; [| done | revert Hs; apply Forall_impl; naive_solver].
  cbn [strchr_at]. by rewrite !decide_True.
Qed.

(** The bytes of a rune other than [c] hold no [c]. *)
Lemma next_rune_skip s c w c1 :
  str_ok s → next_rune s c w → c1 < 128 → c ≠ c1 → Forall (λ b, b ≠ c1) (takeZ w s).
Proof.
  intros Hs Hn H1 Hc. apply Forall_lookup. intros i b Hi ->.
  by destruct (next_rune_ascii s c w c1 i) as [-> _].
Qed.

(** A rune below 0x80 is the byte at its position. *)
Lemma next_rune_hit s c w : str_ok s → next_rune s c w → c < 128 → w = 1 ∧ takeZ w s = [c].
Proof.
  intros Hs (Hw & _ & Hb & Hc) H1. destruct Hc as [(Hc & -> & t & Ht)|[-> _]]; [| done].
  destruct (enc_nonempty c) as (b & l & Hel & Hbl).
  destruct (Hbl Hc) as [(-> & _ & ->)|]; [| lia].
  rewrite Hel in *. split; [done |]. rewrite Ht. by apply takeZ_app.
Qed.

Lemma strchr_at_runes c s :
  0 < c < 128 → str_ok s → ∀ r o, bytes_ok r →
  strchr_at (s ++ 0 :: r) c o = Ok (find_rune c o (runes s)).
Proof.
  intros Hc0. revert s. apply (runes_ind (λ s, ∀ r o, bytes_ok r →
    strchr_at (s ++ 0 :: r) c o = Ok (find_rune c o (runes s)))).
  { intros r o Hr. cbn. rewrite decide_False by lia. done. }
  intros s c' w Hs Hne Hn IH r o Hr. rewrite (runes_next s c' w) by done. cbn [find_rune].
  pose proof Hn as (Hw & _). rewrite <- (takeZ_dropZ w s) at 1. rewrite <- app_assoc.
  case_decide as Hcc.
  - subst c'. destruct (next_rune_hit s c w Hs Hn) as [_ ->]; [lia |]. cbn [app strchr_at].
    by rewrite !(decide_False (P := c = 0)), decide_True by lia.
  - rewrite strchr_at_skip; [| by apply Forall_take | eapply next_rune_skip; eauto; lia].
    rewrite len_takeZ by lia. by apply IH.
Qed.

Lemma strrchr_loop_runes c s :
  0 < c < 128 → str_ok s → ∀ fuel pre r d, bytes_ok r → (length s < fuel)%nat →
  strrchr_loop fuel (pre ++ s ++ 0 :: r) (len pre) c d =
  Ok (rfind_rune c (len pre) (runes s) d).
Proof.
  intros Hc0. assert (∀ s, strchr s c = strchr_at s c 0) as Hch.
  { intros s'. unfold strchr. rewrite u8_small by (ranges; lia). by rewrite !decide_False by lia. }
  revert s. apply (runes_ind (λ s, ∀ fuel pre r d, bytes_ok r → (length s < fuel)%nat →
    strrchr_loop fuel (pre ++ s ++ 0 :: r) (len pre) c d =
    Ok (rfind_rune c (len pre) (runes s) d))).
  { intros [|fuel] pre r d Hr Hf; [lia |]. cbn [strrchr_loop]. rewrite at_pos, Hch. cbn.
    by rewrite decide_False by lia. }
  intros s c' w Hs Hne Hn IH fuel pre r d Hr Hf. rewrite (runes_next s c' w) by done.
  cbn [rfind_rune]. pose proof Hn as (Hw & _). destruct (advance pre s w (0 :: r) Hw) as [Ha Hl].
  pose proof (length_dropZ_lt w s ltac:(lia) Hne) as Hlt.
  assert (s = takeZ w s ++ dropZ w s) as Hsplit by by rewrite takeZ_dropZ.
  case_decide as Hcc.
  - subst c'. destruct (next_rune_hit s c w Hs Hn) as [-> Htk]; [lia |].
    destruct fuel as [|fuel]; [lia |]. cbn [strrchr_loop]. rewrite at_pos, Hch.
    rewrite Hsplit at 1. rewrite Htk. cbn [app strchr_at].
    rewrite !(decide_False (P := c = 0)), decide_True by lia. cbn [mbind res_bind].
    rewrite Z.add_0_r. rewrite <- Hl, Ha. apply IH; [done | lia].
  - specialize (IH fuel (pre ++ takeZ w s) r d Hr ltac:(lia)).
    rewrite <- Ha, Hl in IH. rewrite <- IH.
    destruct fuel as [|fuel]; [lia |]. cbn [strrchr_loop]. rewrite at_pos, Hch.
    replace (dropZ (len pre + w) (pre ++ s ++ 0 :: r)) with (dropZ w s ++ 0 :: r)
      by (rewrite Ha, <- Hl; by rewrite at_pos).
    rewrite Hsplit at 1. rewrite <- app_assoc.
    rewrite strchr_at_skip; [| by apply Forall_take | eapply next_rune_skip; eauto; lia].
    rewrite len_takeZ, Hch by lia. rewrite !strchr_at_runes by auto with p9.
    cbn [mbind res_bind].
    rewrite (find_rune_shift c 0 w). destruct (find_rune c 0 _) as [z|]; [| done]. cbn [fmap option_fmap option_map].
    replace (len pre + (z + w)) with (len pre + w + z) by lia. done.
Qed.

(** Utfrune finds the first rune equal to [c] in any NUL-terminated string, and
    utfrrune the last, whichever of the two searches they use; the NUL itself is
    found for [c = 0]. *)
Theorem utfrune_utfrrune s r c :
  str_ok s → bytes_ok r → 0 ≤ c →
  if decide (c = 0) then
    utfrune (s ++ 0 :: r) c = Ok (Some (len s)) ∧ utfrrune (s ++ 0 :: r) c = Ok (Some (len s))
  else
    utfrune (s ++ 0 :: r) c = Ok (find_rune c 0 (runes s)) ∧
    utfrrune (s ++ 0 :: r) c = Ok (rfind_rune c 0 (runes s) None).
Proof.
  intros Hs Hr Hc. unfold utfrune, utfrrune, strrchr, strchr. rune_consts. case_decide as Hc0.
  { subst c. rewrite !decide_True by done. by rewrite strchr_at_nul. }
  assert (length s < S (length (s ++ 0%Z :: r)))%nat by (rewrite length_app; lia).
  case_decide as H1.
  - rewrite u8_small by (ranges; lia). rewrite !decide_False by done. split.
    + rewrite strchr_at_runes by (done || lia). done.
    + apply (strrchr_loop_runes c s ltac:(lia) Hs _ []); done.
  - split; [by apply (utfrune_loop_spec c s Hs _ []) | by apply (utfrrune_loop_spec c s Hs _ [])].
Qed.

Lemma utfrune_utfrrune_witness :
  utfrune ([0xC3; 0xA9; 0x61; 0xC3; 0xA9] ++ 0 :: []) 0xE9 = Ok (Some 0) ∧
  utfrrune ([0xC3; 0xA9; 0x61; 0xC3; 0xA9] ++ 0 :: []) 0xE9 = Ok (Some 3).
Proof.
  apply (utfrune_utfrrune [0xC3; 0xA9; 0x61; 0xC3; 0xA9] [] 0xE9); by_decide.
Defined.

(** ** utfutf *)

Lemma utf_cons c rs : utf (c :: rs) = enc c ++ utf rs.
Proof. done. Qed.

(** UTF-8 is a prefix code. *)
Lemma utf_prefix a b : text a → text b → utf b `prefix_of` utf a ↔ b `prefix_of` a.
Proof.
  intros Ha Hb. revert a Ha. induction Hb as [|c b [Hc H0] Hb IH]; intros a Ha.
  { split; intros; apply prefix_nil. }
  destruct Ha as [|d a [Hd H0'] Ha].
  { split; intros [k Hk]; [| done].
    destruct (enc_nonempty c) as (x & l & Hx & _). rewrite utf_cons, Hx in Hk. done. }
  rewrite !utf_cons. split.
  - intros [k Hk]. rewrite <- app_assoc in Hk.
    assert (c = d) as <-.
    { pose proof (dec_enc c (utf b ++ k) Hc) as E1. pose proof (dec_enc d (utf a) Hd) as E2.
      rewrite <- Hk, E2 in E1. by injection E1. }
    apply app_inv_head in Hk. apply prefix_cons. apply IH; [done |]. by exists k.
  - intros [k [= -> ->]]. apply prefix_app. apply IH; [done |]. by exists k.
Qed.

(** First place in [a], counted in bytes, where the runes [b] stand. *)
Fixpoint find_text (b a : list Z) (o : Z) : option Z :=
  if decide (b `prefix_of` a) then Some o else
  match a with
  | [] => None
  | c :: a => find_text b a (o + len (enc c))
  end.

Lemma strncmp_prefix x t r r' :
  str_ok x → str_ok t →
  ∃ v, strncmp (t ++ 0 :: r) (x ++ 0 :: r') (length x) = Ok v ∧ (v = 0 ↔ x `prefix_of` t).
Proof.
  intros Hx. revert t. induction Hx as [|b x [Hb H0] Hx IH]; intros t Ht.
  { exists 0. split; [done |]. split; [intros; apply prefix_nil | done]. }
  destruct Ht as [|d t [Hd H0'] Ht]; cbn [app length strncmp peek lookup list_lookup
    res_of_option mbind res_bind drop].
  - rewrite decide_True by done. eexists; split; [done |]. ranges. rewrite decide_False by lia.
    split; [done |]. by intros [].
  - case_decide as Hdb.
    + eexists; split; [done |]. split; [by case_decide |]. intros ?%prefix_cons_inv_1; congruence.
    + assert (d = b) as -> by lia. rewrite decide_False by done.
      rewrite !drop_0. destruct (IH t Ht) as (v & -> & Hv). exists v. split; [done |]. rewrite Hv.
      split; [apply prefix_cons | apply prefix_cons_inv_2].
Qed.

Lemma strstr_match_prefix x t r r' :
  str_ok x → str_ok t →
  strstr_match (t ++ 0 :: r) (x ++ 0 :: r') = Ok (bool_decide (x `prefix_of` t)).
Proof.
  intros Hx. revert t. induction Hx as [|b x [Hb H0] Hx IH]; intros t Ht; cbn [app strstr_match].
  { rewrite decide_True by done. by rewrite bool_decide_true by apply prefix_nil. }
  rewrite decide_False by done. destruct Ht as [|d t [Hd H0'] Ht]; cbn [app peek lookup
    list_lookup res_of_option mbind res_bind drop].
  - rewrite decide_True by done. rewrite bool_decide_false; [done |]. by intros [].
  - case_decide as Hdb.
    + rewrite bool_decide_false; [done |]. intros ?%prefix_cons_inv_1. congruence.
    + assert (d = b) as -> by lia. rewrite !drop_0, IH by done. f_equal. apply bool_decide_ext.
      split; [apply prefix_cons | apply prefix_cons_inv_2].
Qed.

Lemma strlen_spec x r : str_ok x → strlen (x ++ 0 :: r) = Ok (len x).
Proof. intros. unfold strlen, strchr. rewrite decide_True by done. by rewrite strchr_at_nul. Qed.

Lemma find_text_nil b a o : b `prefix_of` a → find_text b a o = Some o.
Proof. intros. destruct a; cbn [find_text]; by rewrite decide_True. Qed.

Lemma find_text_head f b c a o :
  c ≠ f → find_text (f :: b) (c :: a) o = find_text (f :: b) a (o + len (enc c)).
Proof.
  intros. cbn [find_text]. rewrite decide_False; [done |]. intros ?%prefix_cons_inv_1. congruence.
Qed.

Lemma utfutf_loop_spec f b a :
  text (f :: b) → text a → 0x80 ≤ f → ∀ fuel pre r r', bytes_ok r → bytes_ok r' →
  (length (utf a) < fuel)%nat →
  utfutf_loop fuel (pre ++ utf a ++ 0 :: r) (len pre) f (len (enc f)) (utf (f :: b) ++ 0 :: r')
    (len (utf (f :: b))) = Ok (find_text (f :: b) a (len pre)).
Proof.
  intros Hb Ha Hf. assert (0 ≤ f) by lia.
  assert (∀ s, utfrune s f = utfrune_loop (S (length s)) s 0 f) as Hu.
  { intros. unfold utfrune. rune_consts. by rewrite decide_False by lia. }
  assert (∀ a r, text a → bytes_ok r →
    utfrune (utf a ++ 0 :: r) f = Ok (find_rune f 0 (runes (utf a)))) as Hrune.
  { intros a' r' Ha' Hr'. rewrite Hu. apply (utfrune_loop_spec f _ (utf_str_ok _ Ha') _ []); [done |].
    rewrite length_app. lia. }
  induction Ha as [|c a [Hc Hc0] Ha IH]; intros fuel pre r r' Hr Hr' Hfu;
    (destruct fuel as [|fuel]; [lia |]); cbn [utfutf_loop]; rewrite at_pos.
  { rewrite (Hrune []) by (done || constructor). done. }
  assert (text (c :: a)) as Hca by by constructor.
  rewrite Hrune by done. rewrite runes_utf by done. cbn [fmap list_fmap find_rune].
  pose proof (len_enc c). pose proof (len_enc f).
  assert (pre ++ utf (c :: a) ++ 0 :: r = (pre ++ enc c) ++ utf a ++ 0 :: r) as Hsp
    by (rewrite utf_cons; by rewrite <- !app_assoc).
  assert (len (pre ++ enc c) = len pre + len (enc c)) as Hl by (rewrite length_app; lia).
  rewrite utf_cons, length_app in Hfu.
  case_decide as Hcf.
  - subst c. cbn [mbind res_bind]. rewrite Z.add_0_r, at_pos, Nat2Z.id.
    destruct (strncmp_prefix (utf (f :: b)) (utf (f :: a)) r r') as (v & -> & Hv);
      [by apply utf_str_ok.. |].
    cbn [mbind res_bind]. rewrite utf_prefix in Hv by done. case_decide as Hv0.
    + by rewrite find_text_nil by by apply Hv.
    + cbn [find_text]. rewrite decide_False by tauto. rewrite Hsp, <- Hl. apply IH; [done.. | lia].
  - rewrite find_text_head by done. rewrite Z.add_0_l.
    specialize (IH (S fuel) (pre ++ enc c) r r' Hr Hr' ltac:(lia)).
    rewrite <- Hsp, Hl in IH. rewrite <- IH. cbn [utfutf_loop].
    replace (dropZ (len pre + len (enc c)) (pre ++ utf (c :: a) ++ 0 :: r)) with (utf a ++ 0 :: r)
      by (rewrite Hsp, <- Hl; by rewrite at_pos).
    rewrite Hrune, runes_utf by done.
    rewrite <- (Z.add_0_l (len (enc c))) at 1. rewrite find_rune_shift.
    destruct (find_rune f 0 _) as [z|]; [| done]. cbn [fmap option_fmap option_map mbind res_bind].
    replace (len pre + (z + len (enc c))) with (len pre + len (enc c) + z) by lia. done.
Qed.

Lemma strchr_at_shift s c o k :
  strchr_at s c (o + k) =
  match strchr_at s c o with Ok v => Ok ((λ z, z + k) <$> v) | Err => Err | Ub => Ub end.
Proof.
  revert o. induction s as [|b s IH]; intros o; [done |]. cbn [strchr_at].
  replace (o + k + 1) with (o + 1 + k) by lia. by repeat case_decide.
Qed.

Lemma strchr_byte s c : is_u8 c → c ≠ 0 → strchr s c = strchr_at s c 0.
Proof. intros. unfold strchr. rewrite u8_small by done. by rewrite !decide_False by done. Qed.

Lemma strstr_loop_skip fuel pre t k c s2 :
  str_ok t → is_u8 c → c ≠ 0 → Forall (λ b, b ≠ c) t →
  strstr_loop (S fuel) (pre ++ t ++ k) (len pre) c s2 =
  strstr_loop (S fuel) (pre ++ t ++ k) (len pre + len t) c s2.
Proof.
  intros Ht Hc H0 Hne. cbn [strstr_loop]. rewrite at_pos.
  replace (dropZ (len pre + len t) (pre ++ t ++ k)) with k.
  2: { rewrite app_assoc. symmetry. apply dropZ_app. rewrite length_app. lia. }
  rewrite !strchr_byte by done. rewrite strchr_at_skip, strchr_at_shift by done.
  destruct (strchr_at k c 0) as [[z|]| |]; try done. cbn [fmap option_fmap option_map mbind res_bind].
  by replace (len pre + (z + len t)) with (len pre + len t + z) by lia.
Qed.

Lemma enc_bytes c :
  rune_ok c → c ≠ 0 → ∃ b l, enc c = b :: l ∧ is_u8 b ∧ b ≠ 0 ∧ ¬ cont b ∧
    str_ok (b :: l) ∧ str_ok l ∧ Forall (λ b, cont b) l.
Proof.
  intros Hc H0. destruct (enc_nonempty c) as (b & l & Hel & Hb).
  pose proof (enc_str_ok c Hc H0) as Hs. rewrite Hel in Hs. pose proof Hs as Hs'.
  apply Forall_cons_iff in Hs as [[? ?] Hs]. exists b, l. split_and!; try done.
  - destruct (Hb Hc) as [(-> & ? & _)|(? & _)]; lia.
  - by destruct (Hb Hc) as [(_ & _ & ->)|(_ & _ & ?)].
Qed.

Lemma strstr_loop_spec f b a :
  text (f :: b) → text a → ∀ fuel pre r r' b0 l, enc f = b0 :: l →
  (length (utf a) < fuel)%nat →
  strstr_loop fuel (pre ++ utf a ++ 0 :: r) (len pre) b0 (l ++ utf b ++ 0 :: r')
  = Ok (find_text (f :: b) a (len pre)).
Proof.
  intros Hfb Ha fuel pre r r' b0 l Hl. pose proof Hfb as [[Hf Hf0] Hb]%Forall_cons_iff.
  destruct (enc_bytes f Hf Hf0) as (b0' & l' & Hl' & Hu & H0 & Hlead & _ & Hls & _).
  rewrite Hl in Hl'. injection Hl' as <- <-.
  assert (str_ok (l ++ utf b)) as Hstr by (apply Forall_app; split; [done | by apply utf_str_ok]).
  revert fuel pre. induction Ha as [|c a [Hc Hc0] Ha IH]; intros fuel pre Hfu;
    (destruct fuel as [|fuel]; [lia |]).
  { cbn [strstr_loop]. rewrite at_pos, strchr_byte by done. cbn.
    by rewrite decide_False. }
  destruct (enc_bytes c Hc Hc0) as (hc & lc & Hlc & Huc & H0c & _ & Hsc & Hslc & Hcont).
  rewrite utf_cons, length_app in Hfu. rewrite utf_cons, <- app_assoc.
  assert (∀ k, pre ++ enc c ++ k = (pre ++ enc c) ++ k) as Hsp by (intros; by rewrite app_assoc).
  assert (len (pre ++ enc c) = len pre + len (enc c)) as Hlen by (rewrite length_app; lia).
  assert (Forall (λ b, b ≠ b0) lc) as Hnlc
    by (revert Hcont; apply Forall_impl; cbv beta; intros ? Hx ->; by apply Hlead).
  destruct (decide (hc = b0)) as [->|Hne].
  - cbn [strstr_loop]. rewrite at_pos, strchr_byte by done. rewrite Hlc at 1. cbn [app strchr_at].
    rewrite !(decide_False (P := b0 = 0)), (decide_True (P := b0 = b0)) by done.
    cbn [mbind res_bind]. rewrite Z.add_0_r.
    assert (pre ++ enc c ++ utf a ++ 0 :: r = (pre ++ [b0]) ++ lc ++ utf a ++ 0 :: r) as Hsp1
      by (rewrite Hlc; by rewrite <- app_assoc).
    assert (len pre + 1 = len (pre ++ [b0])) as Hl1 by (rewrite length_app; cbn; lia).
    rewrite Hsp1, Hl1, at_pos. rewrite (app_assoc lc), (app_assoc l).
    rewrite strstr_match_prefix by (done || (apply Forall_app; split; [done | by apply utf_str_ok])).
    assert (l ++ utf b `prefix_of` lc ++ utf a ↔ f :: b `prefix_of` c :: a) as Hiff.
    { rewrite <- (utf_prefix (c :: a) (f :: b)) by (done || by constructor). rewrite !utf_cons, Hl, Hlc. cbn [app].
      split; [apply prefix_cons | apply prefix_cons_inv_2]. }
    cbn [mbind res_bind find_text].
    destruct (decide (f :: b `prefix_of` c :: a)) as [Hp|Hp].
    { by rewrite bool_decide_true by by apply Hiff. }
    rewrite bool_decide_false by by rewrite Hiff.
    destruct fuel as [|fuel]; [rewrite Hlc in Hfu; simpl in Hfu; lia |].
    rewrite <- (app_assoc lc), strstr_loop_skip by done.
    replace (len (pre ++ [b0]) + len lc) with (len (pre ++ enc c))
      by (rewrite !length_app, Hlc; cbn [length]; lia).
    rewrite <- Hsp1, Hsp, <- Hlen. rewrite <- (app_assoc l). apply IH.
    rewrite Hlc in Hfu. cbn [length] in Hfu. lia.
  - rewrite find_text_head by (intros ->; rewrite Hl in Hlc; congruence).
    rewrite Hsp, <- app_assoc.
    rewrite strstr_loop_skip by (done || by rewrite Hlc; first [done | constructor]).
    rewrite Hsp, <- Hlen. apply IH. lia.
Qed.

(** Utfutf on text finds the first place where the runes of [b] stand in the
    runes of [a]; neither search can match in the middle of a rune or skip a match. *)
Theorem utfutf_spec a b r r' :
  text a → text b → bytes_ok r → bytes_ok r' →
  utfutf (utf a ++ 0 :: r) (utf b ++ 0 :: r') = Ok (find_text b a 0).
Proof.
  intros Ha Hb Hr Hr'. unfold utfutf. destruct Hb as [|f b [Hf Hf0] Hb].
  { rewrite find_text_nil by apply prefix_nil. done. }
  assert (text (f :: b)) as Hfb by by constructor.
  destruct (enc_bytes f Hf Hf0) as (b0 & l & Hl & Hu & H0 & _).
  rewrite utf_cons, <- app_assoc, chartorune_dec, dec_enc.
  2: done.
  2: { apply bytes_ok_app. split; [by apply enc_ok |].
       apply str_ok_bytes_nul; [by apply utf_str_ok | done]. }
  cbn [mbind res_bind]. rune_consts.
  assert (length (utf a) < S (length (utf a ++ 0%Z :: r)))%nat by (rewrite length_app; lia).
  case_decide as H80.
  - unfold strstr. rewrite Hl. cbn [app peek lookup list_lookup res_of_option mbind res_bind].
    rewrite decide_False by done. cbn [drop]. rewrite drop_0.
    by apply (strstr_loop_spec f b a Hfb Ha _ []).
  - rewrite app_assoc, <- utf_cons, strlen_spec by by apply utf_str_ok. cbn [mbind res_bind].
    apply (utfutf_loop_spec f b a Hfb Ha ltac:(lia) _ []); done.
Qed.

Lemma utfutf_spec_witness :
  utfutf (utf [0x61; 0x20AC; 0xE9; 0x62] ++ 0 :: []) (utf [0xE9; 0x62] ++ 0 :: []) = Ok (Some 4).
Proof. apply (utfutf_spec [0x61; 0x20AC; 0xE9; 0x62] [0xE9; 0x62] [] []); by_decide. Defined.

(** ** utfecpy and runenlen *)

Lemma memccpy_spec s r n :
  str_ok s →
  memccpy (s ++ 0 :: r) 0 n =
  Ok (if decide (n ≤ length s)%nat then (take n s, false) else (s ++ [0], true)).
Proof.
  intros Hs. revert n. induction Hs as [|b s [Hb H0] Hs IH]; intros n;
    (destruct n as [|n]; [done |]); cbn [app memccpy peek lookup list_lookup res_of_option
      mbind res_bind]; change (Z.land 0 0xFF) with 0.
  { by rewrite decide_True by done. }
  rewrite decide_False by done. cbn [drop]. rewrite drop_0, IH. cbn [mbind res_bind].
  cbn [length]. destruct (decide (n ≤ length s)%nat).
  - by rewrite decide_True by lia.
  - by rewrite decide_False by lia.
Qed.

Lemma land_cont b : is_u8 b → Z.land b 0xC0 = 0x80 ↔ cont b.
Proof.
  intros Hb. apply (u8_forall (λ b, Bool.eqb (bool_decide (Z.land b 0xC0 = 0x80))
    (bool_decide (cont b)))) in Hb; [| by vm_compute].
  apply Bool.eqb_prop in Hb. by apply bool_decide_eq_bool_decide in Hb || (split; intros H;
    [apply (bool_decide_eq_true _); rewrite <- Hb; by apply bool_decide_eq_true
    | apply (bool_decide_eq_true _); rewrite Hb; by apply bool_decide_eq_true]).
Qed.

(** Backing up stops inside the bytes, or at their start. *)
Lemma utfecpy_back_range l : l ≠ [] → 0 ≤ utfecpy_back l < len l.
Proof.
  induction l as [|b l IH]; [done |]. intros _. cbn [utfecpy_back length].
  case_decide; [| lia]. destruct l as [|b' l]; [cbn; lia |].
  specialize (IH ltac:(done)). lia.
Qed.

Lemma utfecpy_back_skip l k :
  Forall (λ b, cont b) l → utfecpy_back (l ++ k) = utfecpy_back k.
Proof.
  induction 1 as [|b l Hb _ IH]; [done |]. cbn [app utfecpy_back].
  rewrite decide_True; [done |]. apply land_cont; [ranges; lia | done].
Qed.

(** Cutting text after [n] bytes cuts one rune, the first that does not fit in [n-1]. *)
Lemma cut_text rs n :
  text rs → 1 ≤ n ≤ len (utf rs) →
  ∃ a c t j, rs = a ++ c :: t ∧ takeZ n (utf rs) = utf a ++ take (S j) (enc c) ∧
    fit rs (n - 1) = Z.of_nat (length a).
Proof.
  intros Hrs. revert n. induction Hrs as [|c rs [Hc H0] Hrs IH]; intros n Hn; [simpl in Hn; lia |].
  rewrite utf_cons in *. rewrite length_app in Hn. cbn [fit].
  destruct (decide (n ≤ len (enc c))) as [Hle|Hgt].
  - exists [], c, rs, (Z.to_nat (n - 1)). rewrite decide_False by lia. split_and!; try done.
    unfold takeZ. rewrite take_app_le by lia. change (utf []) with (@nil Z). cbn [app]. f_equal. lia.
  - destruct (IH (n - len (enc c))) as (a & c' & t & j & -> & Ht & Hf); [lia |].
    exists (c :: a), c', t, j. split_and!; [done | |].
    + unfold takeZ in *. rewrite take_app_ge by lia.
      replace (Z.to_nat n - length (enc c))%nat with (Z.to_nat (n - len (enc c))) by lia.
      rewrite Ht. by rewrite utf_cons, <- app_assoc.
    + rewrite decide_True by lia. replace (n - 1 - len (enc c)) with (n - len (enc c) - 1) by lia.
      rewrite Hf. cbn [length]. lia.
Qed.

Lemma fit_all rs m : len (utf rs) ≤ m → fit rs m = Z.of_nat (length rs).
Proof.
  revert m. induction rs as [|c rs IH]; intros m Hm; [done |]. rewrite utf_cons, length_app in Hm.
  cbn [fit length]. rewrite decide_True, IH by lia. lia.
Qed.

Lemma utf_app a b : utf (a ++ b) = utf a ++ utf b.
Proof. apply bind_app. Qed.

(** Utfecpy of any string writes within the [n] bytes it has and leaves a
    NUL-terminated prefix of the source, the returned pointer at its NUL; of text, it
    keeps the longest prefix of whole runes that fits with the NUL. *)
Theorem utfecpy_spec s r n :
  str_ok s → 0 < n →
  ∃ l e, utfecpy n (s ++ 0 :: r) = Ok (l, e) ∧ len l ≤ n ∧ 0 ≤ e ∧ l !! Z.to_nat e = Some 0 ∧
    takeZ e l `prefix_of` s ∧
    ∀ rs, text rs → s = utf rs →
      takeZ e l = utf (take (Z.to_nat (fit rs (n - 1))) rs).
Proof.
  intros Hs Hn. unfold utfecpy. rewrite decide_False by lia. rewrite memccpy_spec by done.
  cbn [mbind res_bind]. case_decide as Hle.
  - set (l := take (Z.to_nat n) s). assert (length l = Z.to_nat n) as Hl
      by (unfold l; rewrite length_take; lia).
    pose proof (utfecpy_back_range (reverse l)) as Hback. rewrite length_reverse in Hback.
    set (e := utfecpy_back (reverse l)) in *.
    assert (0 ≤ e < len l) as He.
    { apply Hback. intros Hr. apply (f_equal length) in Hr. rewrite length_reverse in Hr.
      simpl in Hr. lia. }
    exists (<[Z.to_nat e:=0]> l), e. split_and!; [done | rewrite length_insert; lia | lia | | |].
    + apply list_lookup_insert_eq. lia.
    + unfold takeZ. rewrite take_insert_ge by lia. unfold l. rewrite take_take.
      apply prefix_take.
    + intros rs Hrs ->. unfold takeZ. rewrite take_insert_ge by lia.
      destruct (cut_text rs n Hrs) as (a & c & t & j & -> & Ht & ->); [lia |].
      rewrite Nat2Z.id, take_app_length. fold l in Ht. unfold takeZ in Ht. fold l in Ht.
      apply Forall_app in Hrs as [Hra Hrc]. apply Forall_cons_iff in Hrc as [[Hc H0] _].
      destruct (enc_bytes c Hc H0) as (b & lc & Hlc & Hu & _ & Hlead & _ & _ & Hcont).
      assert (e = len (utf a)) as ->; [| rewrite Ht, Nat2Z.id; by rewrite take_app_length].
      unfold e. rewrite Ht, Hlc. cbn [take]. rewrite reverse_app, reverse_cons, <- app_assoc.
      rewrite utfecpy_back_skip by (apply Forall_reverse, Forall_take; done).
      cbn [app utfecpy_back]. rewrite decide_False by by rewrite land_cont.
      by rewrite length_reverse.
  - exists (s ++ [0]), (len (s ++ [0]) - 1). rewrite length_app. cbn [length].
    assert (takeZ (Z.of_nat (length s + 1) - 1) (s ++ [0]) = s) as Htk by (apply takeZ_app; lia).
    split_and!; [done | lia | lia | | by rewrite Htk |].
    + rewrite lookup_app_r by lia.
      by replace (Z.to_nat (Z.of_nat (length s + 1) - 1) - length s)%nat with 0%nat by lia.
    + intros rs Hrs ->. rewrite Htk, fit_all by lia. by rewrite Nat2Z.id, firstn_all.
Qed.

Lemma utfecpy_spec_witness :
  ∃ l e, utfecpy 4 (utf [0x61; 0x20AC] ++ 0 :: []) = Ok (l, e) ∧ len l ≤ 4 ∧ 0 ≤ e ∧
    l !! Z.to_nat e = Some 0 ∧ takeZ e l `prefix_of` utf [0x61; 0x20AC] ∧
    ∀ rs, text rs → utf [0x61; 0x20AC] = utf rs →
      takeZ e l = utf (take (Z.to_nat (fit rs (4 - 1))) rs).
Proof. apply utfecpy_spec; by_decide. Defined.

(** runenlen counts four bytes for a value beyond the last code point, for which
    runetochar stores the three of the error rune. *)
Example runenlen_out_of_range : runenlen [0x110000] = 4 ∧ len (runetochar 0x110000) = 3.
Proof. done. Qed.
