(* ===== verification/Token.v ===== *)
(** * Token: quoting, and cutting strings into tokens and fields

    sys/src/libc/port/quote.c, tokenize.c and getfields.c, and _quotesetup of
    libc/fmt/fmtquote.c.  The routines that cut a string up do so in place: a string is an
    offset into a buffer, which they store NULs into.  Loops over a string take fuel, one
    more than the bytes of its buffer; running out is [Ub], as is leaving the buffer.
    Allocation succeeds. *)

From S2P Require Import Prelude Bytes Rune.

(** [m[p]], and [m[p] = c]. *)
Definition get (m : list Z) (p : Z) : res Z := peek (dropZ p m) 0.

Definition put (m : list Z) (p c : Z) : res (list Z) :=
  if decide (0 ≤ p < len m) then Ok (<[Z.to_nat p := c]> m) else Ub.

Definition quote : Z := 39.

(** [utfrune(sep, *t) != nil], where [c] is the byte at [t], a char. *)
Definition is_sep (sep : list Z) (c : Z) : res bool :=
  o ← utfrune sep (s8 c); Ok (bool_decide (is_Some o)).

Definition qsep : list Z := [32; 9; 13; 10; 0].

(** ** tokenize.c *)

(** The test of the loops of qtoken and etoken: whether to go on. *)
Definition in_token (sep : list Z) (quoting : bool) (c : Z) : res bool :=
  if decide (c = 0) then Ok false else
  if quoting then Ok true else b ← is_sep sep c; Ok (negb b).

(** The loop of qtoken: the buffer, [s] and [t] after it. *)
Fixpoint qtoken_loop (fuel : nat) (sep m : list Z) (s t : Z) (quoting : bool) : res (list Z * Z * Z) :=
  match fuel with
  | O => Ub
  | S fuel =>
      c ← get m t;
      go ← in_token sep quoting c;
      if negb go then Ok (m, s, t) else
      if decide (c ≠ quote) then
        m ← put m s c; qtoken_loop fuel sep m (s + 1) (t + 1) quoting
      else if negb quoting then qtoken_loop fuel sep m s (t + 1) true
      else
        c1 ← get m (t + 1);
        if decide (c1 ≠ quote) then qtoken_loop fuel sep m s (t + 1) false
        else m ← put m s c1; qtoken_loop fuel sep m (s + 1) (t + 2) quoting
  end.

Definition qtoken (sep m : list Z) (s : Z) : res (list Z * Z) :=
  '(m, s, t) ← qtoken_loop (S (length m)) sep m s s false;
  c ← get m s;
  if decide (c ≠ 0) then m ← put m s 0; Ok (m, if decide (t = s) then t + 1 else t) else Ok (m, t).

Fixpoint etoken_loop (fuel : nat) (sep m : list Z) (t : Z) (quoting : bool) : res Z :=
  match fuel with
  | O => Ub
  | S fuel =>
      c ← get m t;
      go ← in_token sep quoting c;
      if negb go then Ok t else
      if decide (c ≠ quote) then etoken_loop fuel sep m (t + 1) quoting
      else if negb quoting then etoken_loop fuel sep m (t + 1) true
      else
        c1 ← get m (t + 1);
        if decide (c1 ≠ quote) then etoken_loop fuel sep m (t + 1) false
        else etoken_loop fuel sep m (t + 2) quoting
  end.

Definition etoken (sep m : list Z) (t : Z) : res Z := etoken_loop (S (length m)) sep m t false.

(** The inner loop of tokenize: past the separators. *)
Fixpoint skip_seps (fuel : nat) (sep m : list Z) (s : Z) : res Z :=
  match fuel with
  | O => Ub
  | S fuel =>
      c ← get m s;
      if decide (c = 0) then Ok s else
      b ← is_sep sep c;
      if b : bool then skip_seps fuel sep m (s + 1) else Ok s
  end.

Fixpoint tokenize_loop (maxargs : nat) (m : list Z) (s : Z) : res (list Z * list Z) :=
  match maxargs with
  | O => Ok (m, [])
  | S maxargs =>
      s ← skip_seps (S (length m)) qsep m s;
      c ← get m s;
      if decide (c = 0) then Ok (m, []) else
      '(m, s') ← qtoken qsep m s;
      '(m, args) ← tokenize_loop maxargs m s';
      Ok (m, s :: args)
  end.

(** The buffer, and [args]; the value returned is their number. *)
Definition tokenize (m : list Z) (maxargs : nat) : res (list Z * list Z) := tokenize_loop maxargs m 0.

(** The inner loop of gettokens: the separators become NULs. *)
Fixpoint nul_seps (fuel : nat) (sep m : list Z) (s : Z) : res (list Z * Z) :=
  match fuel with
  | O => Ub
  | S fuel =>
      c ← get m s;
      if decide (c = 0) then Ok (m, s) else
      b ← is_sep sep c;
      if b : bool then m ← put m s 0; nul_seps fuel sep m (s + 1) else Ok (m, s)
  end.

Fixpoint gettokens_loop (maxargs : nat) (sep m : list Z) (s : Z) : res (list Z * list Z) :=
  match maxargs with
  | O => Ok (m, [])
  | S maxargs =>
      '(m, s) ← nul_seps (S (length m)) sep m s;
      c ← get m s;
      if decide (c = 0) then Ok (m, []) else
      s' ← etoken sep m s;
      '(m, args) ← gettokens_loop maxargs sep m s';
      Ok (m, s :: args)
  end.

Definition gettokens (m : list Z) (maxargs : nat) (sep : list Z) : res (list Z * list Z) :=
  gettokens_loop maxargs sep m 0.

(** ** quote.c and _quotesetup *)

(** What is quoted: a string of bytes or of runes, to its NUL. *)
Inductive input : Type := Ibytes (s : list Z) | Irunes (r : list Z).

Record Quoteinfo : Type := mkQuoteinfo {
  qi_quoted : bool;
  qi_nrunesin : Z;
  qi_nbytesin : Z;
  qi_nrunesout : Z;
  qi_nbytesout : Z
}.

#[export] Instance Quoteinfo_rebuild : Rebuild Quoteinfo := λ q,
  mkQuoteinfo (qi_quoted q) (qi_nrunesin q) (qi_nbytesin q) (qi_nrunesout q) (qi_nbytesout q).

#[export] Instance Quoteinfo_eq_dec : EqDecision Quoteinfo.
Proof. solve_decision. Defined.

Section Quote.
(** [doquote]: which runes to quote besides; nil for none. *)
Variable doquote : option (Z → bool).

Definition to_quote (c : Z) : bool :=
  bool_decide (c ≤ 32) || bool_decide (c = quote) || match doquote with Some f => f c | None => false end.

(** The next rune, and the bytes it takes in UTF. *)
Definition next_in (i : input) : res (Z * Z) :=
  match i with Ibytes s => chartorune s | Irunes r => c ← get r 0; Ok (c, runelen c) end.

Definition advance_in (i : input) (w : Z) : input :=
  match i with Ibytes s => Ibytes (dropZ w s) | Irunes r => Irunes (dropZ 1 r) end.

(** The part of the loop for one rune: [None] when it breaks. *)
Definition quote_rune (c w nout : Z) (runesout : bool) (q : Quoteinfo) : option Quoteinfo :=
  if decide ((if runesout then qi_nrunesout q + 1 else qi_nbytesout q + w) > nout) then None else
  q ← (if to_quote c then
    q ← (if negb (qi_quoted q) then
      if decide ((if runesout then 1 + qi_nrunesout q + 1 + 1 else 1 + qi_nbytesout q + w + 1) > nout) then None
      else Some (q <| qi_nrunesout := qi_nrunesout q + 2 |> <| qi_nbytesout := qi_nbytesout q + 2 |> <| qi_quoted := true |>)
      else Some q);
    if decide (c = quote) then
      if decide ((if runesout then 1 + qi_nrunesout q + 1 else 1 + qi_nbytesout q + w) > nout) then None
      else Some (q <| qi_nbytesout := qi_nbytesout q + 1 |> <| qi_nrunesout := qi_nrunesout q + 1 |>)
    else Some q
    else Some q);
  Some (q <| qi_nbytesin := qi_nbytesin q + w |> <| qi_nrunesin := qi_nrunesin q + 1 |>
          <| qi_nbytesout := qi_nbytesout q + w |> <| qi_nrunesout := qi_nrunesout q + 1 |>).

(** What a break in the middle of a rune leaves: the quotes that were counted. *)
Definition quote_break (c w nout : Z) (runesout : bool) (q : Quoteinfo) : Quoteinfo :=
  if decide ((if runesout then qi_nrunesout q + 1 else qi_nbytesout q + w) > nout) then q else
  if to_quote c && negb (qi_quoted q) &&
     bool_decide ((if runesout then 1 + qi_nrunesout q + 1 + 1 else 1 + qi_nbytesout q + w + 1) ≤ nout)
  then q <| qi_nrunesout := qi_nrunesout q + 2 |> <| qi_nbytesout := qi_nbytesout q + 2 |> <| qi_quoted := true |>
  else q.

Fixpoint quotesetup_loop (fuel : nat) (i : input) (nin nout : Z) (runesout : bool) (q : Quoteinfo) : res Quoteinfo :=
  match fuel with
  | O => Ub
  | S fuel =>
      if decide (nin = 0) then Ok q else
      '(c, w) ← next_in i;
      if decide (c = 0) then Ok q else
      match quote_rune c w nout runesout q with
      | None => Ok (quote_break c w nout runesout q)
      | Some q => quotesetup_loop fuel (advance_in i w) (nin - 1) nout runesout q
      end
  end.

Definition input_bytes (i : input) : list Z := match i with Ibytes s => s | Irunes r => r end.

Definition _quotesetup (i : input) (nin nout : Z) (sharp runesout : bool) : res Quoteinfo :=
  let q := mkQuoteinfo false 0 0 0 0 in
  e ← (if sharp || bool_decide (nin = 0) then Ok true
       else c ← get (input_bytes i) 0; Ok (bool_decide (c = 0)));
  if (e : bool) && bool_decide (nout < 2) then Ok q else
  let q := if e then q <| qi_quoted := true |> <| qi_nbytesout := 2 |> <| qi_nrunesout := 2 |> else q in
  quotesetup_loop (S (length (input_bytes i))) i nin nout runesout q.

Definition _needsquotes (s : list Z) : res (bool * Z) :=
  q ← _quotesetup (Ibytes s) (-1) 0x7FFFFFFF false false; Ok (qi_quoted q, qi_nbytesout q).

Definition _runeneedsquotes (r : list Z) : res (bool * Z) :=
  q ← _quotesetup (Irunes r) (-1) 0x7FFFFFFF false false; Ok (qi_quoted q, qi_nrunesout q).

(** strdup and runestrdup. *)
Definition strdup (s : list Z) : res (list Z) := n ← strlen s; Ok (takeZ (n + 1) s).

(** [*u++ = c], in an object of [n] cells. *)
Definition emit (n : Z) (u : list Z) (c : Z) : res (list Z) :=
  if decide (len u < n) then Ok (u ++ [c]) else Ub.

(** [for(t=s; *t; t++)] *)
Fixpoint quote_copy (n : Z) (t u : list Z) : res (list Z) :=
  match t with
  | [] => Ub
  | c :: t =>
      if decide (c = 0) then Ok u else
      u ← (if decide (c = quote) then emit n u c else Ok u);
      u ← emit n u c;
      quote_copy n t u
  end.

(** The common part of quotestrdup and quoterunestrdup: the contents of [ret]. *)
Definition quote_dup (needs : bool) (quotelen : Z) (s : list Z) : res (list Z) :=
  if negb needs then strdup s else
  let n := quotelen + 1 in
  u ← emit n [] quote;
  u ← quote_copy n s u;
  u ← emit n u quote;
  emit n u 0.

Definition quotestrdup (s : list Z) : res (list Z) :=
  '(needs, quotelen) ← _needsquotes s; quote_dup needs quotelen s.

Definition quoterunestrdup (s : list Z) : res (list Z) :=
  '(needs, quotelen) ← _runeneedsquotes s; quote_dup needs quotelen s.
End Quote.

(** The loop of unquotestrdup and unquoterunestrdup. *)
Fixpoint unquote_loop (fuel : nat) (m : list Z) (s t : Z) (quoting : bool) : res (list Z * Z * Z) :=
  match fuel with
  | O => Ub
  | S fuel =>
      c ← get m t;
      if decide (c = 0 ∨ (quoting = false ∧ (c = 32 ∨ c = 9))) then Ok (m, s, t) else
      if decide (c ≠ quote) then
        m ← put m s c; unquote_loop fuel m (s + 1) (t + 1) quoting
      else if negb quoting then unquote_loop fuel m s (t + 1) true
      else
        c1 ← get m (t + 1);
        if decide (c1 ≠ quote) then unquote_loop fuel m s (t + 1) false
        else m ← put m s c1; unquote_loop fuel m (s + 1) (t + 2) quoting
  end.

(** [memmove(s, t, strlen(t)+1)] *)
Definition close_up (m : list Z) (s t : Z) : res (list Z) :=
  n ← strlen (dropZ t m);
  Ok (takeZ s m ++ takeZ (n + 1) (dropZ t m) ++ dropZ (s + n + 1) m).

Definition unquotestrdup (s : list Z) : res (list Z) :=
  m ← strdup s;
  '(m, s, t) ← unquote_loop (S (length m)) m 0 0 false;
  if decide (t ≠ s) then close_up m s t else Ok m.

Definition unquoterunestrdup (s : list Z) : res (list Z) := unquotestrdup s.

(** ** getfields.c *)

Fixpoint getfields_loop (fuel : nat) (m : list Z) (str : Z) (max : Z) (mflag : bool) (set : list Z)
    (args : list Z) (narg : Z) (intok : bool) : res (list Z * list Z * Z) :=
  match fuel with
  | O => Ub
  | S fuel =>
      '(r, nr) ← chartorune (dropZ str m);
      if decide (r = 0) then Ok (m, args, narg) else
      o ← utfrune set r;
      match o with
      | Some _ =>
          if decide (max ≤ narg) then Ok (m, args, narg) else
          m ← put m str 0;
          let args := takeZ narg args ++ [str + nr] in
          getfields_loop fuel m (str + nr) max mflag set args (if mflag then narg else narg + 1) false
      | None =>
          getfields_loop fuel m (str + nr) max mflag set args (if negb intok && mflag then narg + 1 else narg) true
      end
  end.

(** The buffer, [args] as far as they are set, and the value returned. *)
Definition getfields (m : list Z) (max : Z) (mflag : bool) (set : list Z) : res (list Z * list Z * Z) :=
  if decide (max ≤ 0) then Ok (m, [], 0) else
  getfields_loop (S (length m)) m 0 max mflag set [0] (if mflag then 0 else 1) false.
