(* ===== verification/TokenLex.v ===== *)
(** * TokenLex: what the tokenizers find

    A lexer on strings that says what the tokens of a string are, and that qtoken and
    tokenize give them, in place. *)

From S2P Require Import Prelude Bytes Rune RuneProps Token.

(** ** The reference *)

(** The token at the front of a string, with its quotes taken off, and what follows it. *)
Fixpoint qlex (sep : list Z) (quoting : bool) (l : list Z) : list Z * list Z :=
  match l with
  | [] => ([], [])
  | c :: l1 =>
      if negb quoting && bool_decide (c ∈ sep) then ([], l) else
      if decide (c ≠ quote) then let '(tok, rest) := qlex sep quoting l1 in (c :: tok, rest) else
      if negb quoting then qlex sep true l1 else
      match l1 with
      | c1 :: l2 =>
          if decide (c1 = quote) then let '(tok, rest) := qlex sep true l2 in (quote :: tok, rest)
          else qlex sep false l1
      | [] => ([], [])
      end
  end.

Fixpoint drop_seps (sep l : list Z) : list Z :=
  match l with
  | [] => []
  | c :: l1 => if decide (c ∈ sep) then drop_seps sep l1 else l
  end.

(** The first [n] tokens. *)
Fixpoint tokens (n : nat) (sep l : list Z) : list (list Z) :=
  match n with
  | O => []
  | S n =>
      match drop_seps sep l with
      | [] => []
      | l => let '(tok, rest) := qlex sep false l in tok :: tokens n sep rest
      end
  end.

(** Strong induction on the length of a string. *)
Lemma length_ind (P : list Z → Prop) :
  (∀ l, (∀ l', (length l' < length l)%nat → P l') → P l) → ∀ l, P l.
Proof.
  intros H l. assert (∀ n l, (length l < n)%nat → P l) as Hn; [| by apply (Hn (S (length l))); lia].
  induction n as [|n IH]; intros l' Hl; [lia |]. apply H. intros l'' Hl'. apply IH. lia.
Qed.

Lemma qlex_rest sep q l : (length (qlex sep q l).1 + length (qlex sep q l).2 ≤ length l)%nat.
Proof.
  revert q. induction l as [l IH] using length_ind. intros q. destruct l as [|c l1]; [done |]. cbn [qlex].
  destruct (negb q && bool_decide (c ∈ sep)); [cbn; lia |]. case_decide.
  { specialize (IH l1 ltac:(cbn; lia) q). destruct (qlex sep q l1). cbn in *. lia. }
  destruct (negb q); [specialize (IH l1 ltac:(cbn; lia) true); cbn [length]; lia |].
  destruct l1 as [|c1 l2]; [cbn; lia |]. case_decide.
  - specialize (IH l2 ltac:(cbn; lia) true). destruct (qlex sep true l2). cbn in *. lia.
  - specialize (IH (c1 :: l2) ltac:(cbn; lia) false). cbn [length] in *. lia.
Qed.

(** ** Reading and writing a buffer *)

Lemma quote_ok : is_u8 quote ∧ quote ≠ 0.
Proof. by_decide. Qed.

Lemma str_ok_snoc s c : str_ok s → is_u8 c → c ≠ 0 → str_ok (s ++ [c]).
Proof. intros. apply Forall_app. split; [done | by constructor]. Qed.



Lemma get_at pre c l p : p = len pre → get (pre ++ c :: l) p = Ok c.
Proof. intros ->. unfold get. by rewrite at_pos. Qed.

Lemma put_at pre c c' l p : p = len pre → put (pre ++ c :: l) p c' = Ok (pre ++ c' :: l).
Proof.
  intros ->. unfold put. rewrite decide_True by (rewrite length_app; cbn; lia). f_equal.
  rewrite Nat2Z.id, insert_app_r_alt by lia. by rewrite Nat.sub_diag.
Qed.

Lemma strchr_at_in s r c o :
  str_ok s → c ≠ 0 → ∃ x, strchr_at (s ++ 0 :: r) c o = Ok x ∧ (is_Some x ↔ c ∈ s).
Proof.
  intros Hs Hc. revert o. induction Hs as [|b s [Hb H0] Hs IH]; intros o; cbn [app strchr_at].
  - rewrite decide_False, decide_True by done. exists None. split; [done |]. split; [by intros [] | by intros ?%list.elem_of_nil].
  - rewrite !(decide_False (P := c = 0)), (decide_False (P := b = 0)) by done. case_decide as E.
    + exists (Some o). split; [done |]. split; [intros _; subst; left | eauto].
    + destruct (IH (o + 1)) as (x & -> & Hx). exists x. split; [done |]. rewrite Hx, list.elem_of_cons. naive_solver.
Qed.

(** A byte separates if it is one of the bytes of [sep]. *)
Lemma is_sep_in sep r c :
  str_ok sep → is_u8 c → c ≠ 0 → is_sep (sep ++ 0 :: r) c = Ok (bool_decide (c ∈ sep)).
Proof.
  intros Hs Hc H0. unfold is_sep, utfrune, strchr.
  assert (u8 (s8 c) = c ∧ s8 c < 128 ∧ s8 c ≠ 0) as (H1 & H2 & H3).
  { unfold s8, signed. change (2 ^ (8 - 1)) with 128. ranges. rewrite (Z.mod_small c) by lia.
    case_decide; [rewrite Z.mod_small by lia; lia |]. rewrite <- (Z.mod_add _ 1), Z.mod_small by lia. lia. }
  rune_consts. rewrite decide_True, decide_False by lia. rewrite H1, decide_False by done.
  destruct (strchr_at_in sep r c 0 Hs H0) as (x & -> & Hx). cbn [mbind res_bind]. f_equal.
  by apply bool_decide_ext.
Qed.

(** ** The tokenizers *)

Section Lex.
Variables (seps r : list Z).
Hypothesis Hseps : str_ok seps.
Local Abbreviation sep := (seps ++ 0 :: r).

Lemma in_token_nul q : in_token sep q 0 = Ok false.
Proof. unfold in_token. by rewrite decide_True. Qed.

Lemma in_token_byte q c : is_u8 c → c ≠ 0 → in_token sep q c = Ok (q || negb (bool_decide (c ∈ seps))).
Proof.
  intros Hc H0. unfold in_token. rewrite decide_False by done. destruct q; [done |].
  by rewrite is_sep_in.
Qed.

(** The loop of qtoken: the token goes over what has been read; what is left between the
    end of the token and the place reached is part of the old string. *)
Lemma qtoken_loop_lex x : ∀ fuel pre junk q z,
  str_ok x → str_ok junk → (length x < fuel)%nat →
  ∃ junk', str_ok junk' ∧
    len pre + len junk + len x = len pre + len (qlex seps q x).1 + len junk' + len (qlex seps q x).2 ∧
    qtoken_loop fuel sep (pre ++ junk ++ x ++ 0 :: z) (len pre) (len pre + len junk) q =
    Ok (pre ++ (qlex seps q x).1 ++ junk' ++ (qlex seps q x).2 ++ 0 :: z,
        len pre + len (qlex seps q x).1, len pre + len (qlex seps q x).1 + len junk').
Proof.
  induction x as [x IH] using length_ind. intros [|fuel] pre junk q z Hx Hj Hf; [lia |]. cbn [qtoken_loop].
  assert (∀ m (l : list Z), len (pre ++ m) = len pre + len m) as Hlen by (intros; rewrite length_app; lia).
  destruct x as [|c x1].
  { rewrite app_assoc. cbn [app]. rewrite (get_at (pre ++ junk) _ _ (len pre + len junk)) by (rewrite length_app; lia). cbn [mbind res_bind app].
    rewrite in_token_nul. cbn. exists junk. rewrite !Z.add_0_r, <- !app_assoc. split_and!; [done | lia | done]. }
  apply Forall_cons_iff in Hx as [[Hc H0] Hx].
  rewrite app_assoc. cbn [app]. rewrite (get_at (pre ++ junk) _ _ (len pre + len junk)) by (rewrite length_app; lia). cbn [mbind res_bind].
  rewrite in_token_byte by done. cbn [mbind res_bind qlex].
  destruct (negb q && bool_decide (c ∈ seps)) eqn:E.
  { replace (q || negb (bool_decide (c ∈ seps))) with false by (destruct q, (bool_decide _); done).
    cbn. exists junk. rewrite !Z.add_0_r, <- !app_assoc. split_and!; [done | cbn; lia | done]. }
  replace (q || negb (bool_decide (c ∈ seps))) with true by (destruct q, (bool_decide _); done).
  cbn [negb]. rewrite <- app_assoc.
  (* one byte of the token, from a place [k] on *)
  assert (Hput : ∀ b k x' q', str_ok k → is_u8 b → b ≠ 0 → str_ok x' → (length x' < length (c :: x1))%nat →
    junk ++ c :: x1 = k ++ x' → k ≠ [] →
    ∃ junk', str_ok junk' ∧ len pre + len k + len x' = len pre + (1 + len (qlex seps q' x').1) + len junk' + len (qlex seps q' x').2 ∧
      (m ← put (pre ++ junk ++ (c :: x1) ++ 0 :: z) (len pre) b;
       qtoken_loop fuel sep m (len pre + 1) (len pre + len k) q') =
      Ok (pre ++ (b :: (qlex seps q' x').1) ++ junk' ++ (qlex seps q' x').2 ++ 0 :: z,
          len pre + (1 + len (qlex seps q' x').1), len pre + (1 + len (qlex seps q' x').1) + len junk')).
  { intros b k x' q' Hk Hb Hb0 Hx' Hl' Hsplit Hne. destruct k as [|k0 k]; [done |]. apply Forall_cons_iff in Hk as [_ Hk].
    replace (junk ++ (c :: x1) ++ 0 :: z) with ((k0 :: k) ++ x' ++ 0 :: z) by (rewrite app_assoc, <- Hsplit, <- app_assoc; done).
    cbn [app]. rewrite put_at by done. cbn [mbind res_bind].
    destruct (IH x' Hl' fuel (pre ++ [b]) k q' z Hx' Hk) as (j & Hj' & Hlj & He); [cbn in *; lia |].
    rewrite <- app_assoc in He. cbn [app] in He. rewrite length_app in He, Hlj. cbn [length] in He, Hlj.
    replace (len pre + 1) with (Z.of_nat (length pre + 1)) by lia.
    replace (len pre + len (k0 :: k)) with (Z.of_nat (length pre + 1) + len k) by (cbn [length]; lia).
    rewrite He. exists j. split_and!; [done | cbn [length] in *; lia |].
    rewrite <- app_assoc. cbn [app]. f_equal. f_equal; [f_equal |]; lia. }
  destruct (decide (c ≠ quote)) as [Hq|Hq].
  - destruct (Hput c (junk ++ [c]) x1 q) as (j & Hj' & Hlj & He); try done.
    + by apply str_ok_snoc.
    + cbn; lia.
    + by rewrite <- app_assoc.
    + by destruct junk.
    + destruct (qlex seps q x1) as [tok rest] eqn:Eq. cbn [fst snd] in *. rewrite length_app in He, Hlj. cbn [length] in He, Hlj |- *.
      exists j. split_and!; [done | lia |].
      replace (len pre + len junk + 1) with (len pre + Z.of_nat (length junk + 1)) by lia.
      cbn [app] in He. rewrite He. f_equal. f_equal; [f_equal |]; lia.
  - assert (c = quote) as -> by (apply dec_stable; done).
    assert (Hskip : ∀ q', ∃ junk', str_ok junk' ∧
      len pre + len junk + len (quote :: x1) = len pre + len (qlex seps q' x1).1 + len junk' + len (qlex seps q' x1).2 ∧
      qtoken_loop fuel sep (pre ++ junk ++ (quote :: x1) ++ 0 :: z) (len pre) (len pre + len junk + 1) q' =
      Ok (pre ++ (qlex seps q' x1).1 ++ junk' ++ (qlex seps q' x1).2 ++ 0 :: z,
          len pre + len (qlex seps q' x1).1, len pre + len (qlex seps q' x1).1 + len junk')).
    { intros q'. destruct (IH x1 ltac:(cbn; lia) fuel pre (junk ++ [quote]) q' z Hx) as (j & Hj' & Hlj & He).
      - apply str_ok_snoc; [done | apply quote_ok..].
      - cbn in *; lia.
      - exists j. rewrite length_app in Hlj, He. cbn [length] in *. split_and!; [done | lia |].
        rewrite <- app_assoc in He. replace (len pre + len junk + 1) with (len pre + Z.of_nat (length junk + 1)) by lia. exact He. }
    destruct q; cbn [negb]; [| apply Hskip].
    destruct x1 as [|c1 x2].
    + cbn [app]. replace (pre ++ junk ++ quote :: 0 :: z) with ((pre ++ junk ++ [quote]) ++ 0 :: z) by (by rewrite <- !app_assoc).
      rewrite (get_at _ _ _ (len pre + len junk + 1)) by (rewrite !length_app; cbn; lia). cbn [mbind res_bind].
      rewrite decide_True by done. destruct (Hskip false) as (j & ? & ? & He). exists j.
      rewrite <- !app_assoc. cbn [app] in *. split_and!; [done | done | exact He].
    + apply Forall_cons_iff in Hx as [[Hc1 H01] Hx2].
      cbn [app]. replace (pre ++ junk ++ quote :: c1 :: x2 ++ 0 :: z) with ((pre ++ junk ++ [quote]) ++ c1 :: x2 ++ 0 :: z) by (by rewrite <- !app_assoc).
      rewrite (get_at _ _ _ (len pre + len junk + 1)) by (rewrite !length_app; cbn; lia). cbn [mbind res_bind]. rewrite <- !app_assoc. cbn [app].
      destruct (decide (c1 = quote)) as [->|Hc1q].
      * rewrite decide_False by tauto.
        destruct (Hput quote (junk ++ [quote; quote]) x2 true) as (j & Hj' & Hlj & He); try done.
        -- change [quote; quote] with ([quote] ++ [quote]). rewrite app_assoc. apply str_ok_snoc; [apply str_ok_snoc; [done | apply quote_ok..] | apply quote_ok..].
        -- cbn; lia.
        -- by rewrite <- app_assoc.
        -- by destruct junk.
        -- destruct (qlex seps true x2) as [tok rest] eqn:Eq. cbn [fst snd] in *. rewrite length_app in He, Hlj. cbn [length] in He, Hlj |- *.
           exists j. split_and!; [done | lia |].
           replace (len pre + len junk + 2) with (len pre + Z.of_nat (length junk + 2)) by lia.
           cbn [app] in He. rewrite He. f_equal. f_equal; [f_equal |]; lia.
      * rewrite decide_True by done. destruct (Hskip false) as (j & ? & ? & He). exists j.
        cbn [app] in *. split_and!; [done | done | exact He].
Qed.

Lemma qlex_next x : ∀ q, match (qlex seps q x).2 with [] => True | c :: _ => c ∈ seps end.
Proof.
  induction x as [x IH] using length_ind. intros q. destruct x as [|c x1]; [done |]. cbn [qlex].
  destruct (negb q && bool_decide (c ∈ seps)) eqn:E.
  { apply andb_true_iff in E as [_ E%bool_decide_eq_true]. done. }
  destruct (decide (c ≠ quote)).
  { specialize (IH x1 ltac:(cbn; lia) q). by destruct (qlex seps q x1). }
  destruct (negb q); [apply IH; cbn; lia |]. destruct x1 as [|c1 x2]; [done |].
  destruct (decide (c1 = quote)); [| apply IH; cbn; lia]. specialize (IH x2 ltac:(cbn; lia) true). by destruct (qlex seps true x2).
Qed.

Lemma qlex_ok x : ∀ q, str_ok x → str_ok (qlex seps q x).1 ∧ str_ok (qlex seps q x).2.
Proof.
  induction x as [x IH] using length_ind. intros q Hx. destruct x as [|c x1]; [done |]. cbn [qlex].
  pose proof Hx as [Hc Hx1]%Forall_cons_iff.
  destruct (negb q && bool_decide (c ∈ seps)); [by split; [constructor |] |]. destruct (decide (c ≠ quote)).
  { destruct (IH x1 ltac:(cbn; lia) q Hx1). destruct (qlex seps q x1). cbn in *. split; [by constructor | done]. }
  destruct (negb q); [apply IH; [cbn; lia | done] |]. destruct x1 as [|c1 x2]; [by split; constructor |].
  pose proof Hx1 as [_ Hx2]%Forall_cons_iff. destruct (decide (c1 = quote)); [| apply IH; [cbn; lia | done]].
  destruct (IH x2 ltac:(cbn; lia) true Hx2). destruct (qlex seps true x2). cbn in *. split; [| done].
  constructor; [apply quote_ok | done].
Qed.

(** qtoken leaves the token behind, with its NUL, and comes to what follows it. *)
Lemma qtoken_lex pre x z :
  str_ok x →
  ∃ pre' rest', qtoken sep (pre ++ x ++ 0 :: z) (len pre) = Ok (pre' ++ rest' ++ 0 :: z, len pre') ∧
    len pre' + len rest' = len pre + len x ∧ str_ok rest' ∧
    (∀ n, tokens n seps rest' = tokens n seps (qlex seps false x).2) ∧
    (length rest' ≤ length (qlex seps false x).2)%nat ∧
    ((∃ k, pre' = pre ++ (qlex seps false x).1 ++ 0 :: k) ∨ pre' = pre ++ (qlex seps false x).1 ∧ rest' = []).
Proof.
  intros Hx. unfold qtoken.
  destruct (qtoken_loop_lex x (S (length (pre ++ x ++ 0 :: z))) pre [] false z) as (junk & Hj & Hl & He);
    [done | constructor | rewrite !length_app; lia |].
  cbn [app length] in He. rewrite Z.add_0_r in He. rewrite He. cbn [mbind res_bind]. clear He.
  pose proof (qlex_next x false) as Hn. pose proof (qlex_ok x false Hx) as [Ht Hr].
  destruct (qlex seps false x) as [tok rest]. cbn [fst snd length] in *.
  assert (len (pre ++ tok) = len pre + len tok) as Hpt by (rewrite length_app; lia).
  destruct junk as [|j junk].
  - cbn [app length]. rewrite app_assoc. destruct rest as [|c rest]; cbn [app].
    + rewrite (get_at _ _ _ (len pre + len tok)) by done. cbn [mbind res_bind]. rewrite decide_False by tauto.
      exists (pre ++ tok), []. cbn [app length] in *. rewrite Hpt. split_and!; try done; [f_equal; f_equal; lia | lia | by right].
    + rewrite (get_at _ _ _ (len pre + len tok)) by done. apply Forall_cons_iff in Hr as [[Hc H0] Hr].
      cbn [mbind res_bind]. rewrite decide_True by done. rewrite put_at by done. cbn [mbind res_bind].
      rewrite decide_True by lia. exists (pre ++ tok ++ [0]), rest. rewrite !length_app. cbn [length] in *.
      rewrite <- !app_assoc. cbn [app]. split_and!; try done; [f_equal; f_equal; lia | lia | | lia | left; by exists []].
      intros [|n]; [done |]. cbn [tokens drop_seps]. by rewrite decide_True.
  - apply Forall_cons_iff in Hj as [[Hc H0] Hj].
    replace (pre ++ tok ++ (j :: junk) ++ rest ++ 0 :: z) with ((pre ++ tok) ++ j :: junk ++ rest ++ 0 :: z) by (by rewrite <- !app_assoc).
    rewrite (get_at _ _ _ (len pre + len tok)) by done. cbn [mbind res_bind]. rewrite decide_True by done.
    rewrite put_at by done. cbn [mbind res_bind length] in *. rewrite decide_False by lia.
    exists (pre ++ tok ++ 0 :: junk), rest. rewrite !length_app. cbn [length] in *. rewrite <- !app_assoc. cbn [app].
    split_and!; try done; [f_equal; f_equal; lia | lia | left; by exists junk].
Qed.

Lemma drop_seps_ok x : str_ok x → ∃ y, x = y ++ drop_seps seps x ∧ str_ok y ∧ str_ok (drop_seps seps x).
Proof.
  induction 1 as [|c x Hc Hx IH]; cbn; [exists []; by repeat constructor |]. case_decide; [| exists []; split_and!; [done | constructor | by constructor]].
  destruct IH as (y & Hy & Hys & Hd). exists (c :: y). split_and!; [by rewrite Hy at 1 | by constructor | done].
Qed.

Lemma drop_seps_head x c l : drop_seps seps x = c :: l → c ∉ seps.
Proof. induction x as [|b x IH]; cbn; [done |]. case_decide; [done |]. by intros [= -> ->]. Qed.

Lemma skip_seps_lex x : ∀ fuel pre z,
  str_ok x → (length x < fuel)%nat →
  skip_seps fuel sep (pre ++ x ++ 0 :: z) (len pre) = Ok (len pre + len x - len (drop_seps seps x)).
Proof.
  induction x as [|c x IH]; intros [|fuel] pre z Hx Hf; try (cbn in Hf; lia); cbn [skip_seps app].
  - rewrite get_at by done. cbn. f_equal. lia.
  - rewrite get_at by done. apply Forall_cons_iff in Hx as [[Hc H0] Hx]. cbn [mbind res_bind].
    rewrite decide_False by done. rewrite is_sep_in by done. cbn [mbind res_bind drop_seps].
    destruct (decide (c ∈ seps)) as [Hs|Hs].
    + rewrite bool_decide_eq_true_2 by done. specialize (IH fuel (pre ++ [c]) z Hx ltac:(cbn in *; lia)).
      rewrite <- app_assoc, length_app in IH. cbn [app length] in *.
      replace (len pre + 1) with (Z.of_nat (length pre + 1)) by lia. rewrite IH. f_equal. lia.
    + rewrite bool_decide_eq_false_2 by done. f_equal. cbn [length]. lia.
Qed.
End Lex.

(** A string at a place of the buffer. *)
Lemma cstring_at pre s k : str_ok s → cstring (dropZ (len pre) (pre ++ s ++ 0 :: k)) = s.
Proof. intros. rewrite at_pos. by apply cstring_app_nul. Qed.

Definition white : list Z := [32; 9; 13; 10].

Lemma tokenize_loop_lex n : ∀ pre x z,
  str_ok x →
  ∃ w args, tokenize_loop n (pre ++ x ++ 0 :: z) (len pre) = Ok (pre ++ w ++ 0 :: z, args) ∧ length w = length x ∧
    map (λ p, cstring (dropZ p (pre ++ w ++ 0 :: z))) args = tokens n white x ∧
    Forall (λ p, len pre ≤ p < len pre + len x) args.
Proof.
  assert (Hw : str_ok white) by by_decide.
  assert (Hqs : qsep = white ++ 0 :: []) by done.
  induction n as [|n IH]; intros pre x z Hx; [by exists x, []; split_and! |]. cbn [tokenize_loop tokens]. rewrite Hqs.
  rewrite skip_seps_lex by (done || rewrite !length_app; cbn; lia). cbn [mbind res_bind].
  destruct (drop_seps_ok white x Hx) as (y & Hxy & Hy & Hd). set (d := drop_seps white x) in *.
  assert (len x = len y + len d) as Hlx by (rewrite Hxy at 1; rewrite length_app; lia).
  assert (pre ++ x ++ 0 :: z = (pre ++ y) ++ d ++ 0 :: z) as -> by (rewrite Hxy at 1; by rewrite <- !app_assoc).
  assert (len (pre ++ y) = len pre + len x - len d) as Hpy by (rewrite length_app; lia). rewrite <- Hpy.
  destruct d as [|c d'] eqn:Ed; cbn [app].
  - rewrite get_at by done. cbn [mbind res_bind]. rewrite decide_True by done. exists x, [].
    rewrite app_nil_r in Hxy. subst y. rewrite <- app_assoc. done.
  - rewrite get_at by done. apply Forall_cons_iff in Hd as Hd'. destruct Hd' as [[Hc H0] Hd'].
    cbn [mbind res_bind]. rewrite decide_False by done.
    destruct (qtoken_lex white [] Hw (pre ++ y) (c :: d') z Hd) as (pre' & rest & He & Hlr & Hrest & Htk & Hrl & Hpre).
    cbn [app] in He. rewrite He. clear He. cbn [mbind res_bind]. destruct (IH pre' rest z Hrest) as (w & args & -> & Hlw & Hmap & Hargs). cbn [mbind res_bind].
    pose proof (qlex_ok white (c :: d') false Hd) as [Htok _].
    destruct (qlex white false (c :: d')) as [tok rest0] eqn:Eq. cbn [fst snd] in *. rewrite length_app in Hlr.
    assert (∃ k, pre' ++ w ++ 0 :: z = (pre ++ y) ++ tok ++ 0 :: k) as (k & Hk).
    { destruct Hpre as [[k ->]|[-> ->]].
      - exists (k ++ w ++ 0 :: z). rewrite <- !app_assoc. done.
      - destruct w; [| done]. exists z. by rewrite <- !app_assoc. }
    assert (∃ w', pre' ++ w = pre ++ w') as [w' Hw'].
    { destruct Hpre as [[k' ->]|[-> _]]; rewrite <- !app_assoc; by eexists. }
    assert (pre' ++ w ++ 0 :: z = pre ++ w' ++ 0 :: z) as Hm by (rewrite !app_assoc; by rewrite Hw').
    exists w', (len (pre ++ y) :: args). rewrite Hm in *. split_and!.
    + done.
    + apply (f_equal length) in Hw'. rewrite !length_app in Hw'. cbn [length] in *. lia.
    + cbn [map]. f_equal; [rewrite Hk; by apply cstring_at |]. rewrite Hmap. apply Htk.
    + rewrite length_app. constructor; [cbn [length] in *; lia |].
      revert Hargs. apply Forall_impl. intros p Hp. cbn [length] in *.
      assert (len pre ≤ len pre'); [| lia].
      destruct Hpre as [[k' ->]|[-> _]]; rewrite !length_app; lia.
Qed.
