(* ===== verification/TokenProps.v ===== *)
(** * TokenProps: quoting and tokenizing undo each other

    What tokenize finds in any string; what quotestrdup makes, in the room it asked for;
    and that tokens that were quoted come back. *)

From S2P Require Import Prelude Bytes Rune RuneProps Token TokenLex.

(** tokenize finds the tokens of the lexer, in any string, and stays inside it. *)
Theorem tokenize_spec n x z :
  str_ok x →
  ∃ w args, tokenize (x ++ 0 :: z) n = Ok (w ++ 0 :: z, args) ∧ length w = length x ∧
    map (λ p, cstring (dropZ p (w ++ 0 :: z))) args = tokens n white x.
Proof.
  intros Hx. destruct (tokenize_loop_lex n [] x z Hx) as (w & args & He & Hl & Hm & _). by exists w, args.
Qed.

(** ** What a quoted string is *)

Fixpoint double (s : list Z) : list Z :=
  match s with [] => [] | c :: s => if decide (c = quote) then quote :: quote :: double s else c :: double s end.

Fixpoint quotes (s : list Z) : Z :=
  match s with [] => 0 | c :: s => (if decide (c = quote) then 1 else 0) + quotes s end.

Lemma quotes_app s t : quotes (s ++ t) = quotes s + quotes t.
Proof. induction s; cbn; lia. Qed.

Lemma quotes_range s : 0 ≤ quotes s ≤ len s.
Proof. induction s as [|c s IH]; [done |]. cbn [quotes length]. case_decide; lia. Qed.

Lemma len_double s : len (double s) = len s + quotes s.
Proof. induction s as [|c s IH]; [done |]. cbn [quotes double length]. case_decide; cbn [length]; lia. Qed.

Section Quoting.
Variable doquote : option (Z → bool).

(** Whether it must be quoted: it is empty, or has a rune that calls for it. *)
Definition needs (s : list Z) : bool :=
  bool_decide (s = []) || existsb (λ r, to_quote doquote r.1) (runes s).

Definition quoted (s : list Z) : list Z := if needs s then quote :: double s ++ [quote] else s.

(** ** _quotesetup *)

Lemma quotes_take s c w :
  str_ok s → next_rune s c w → quotes (takeZ w s) = if decide (c = quote) then 1 else 0.
Proof.
  intros Hs Hn. case_decide as E.
  - subst c. destruct (next_rune_hit s quote w Hs Hn) as [_ ->]; done.
  - pose proof (next_rune_skip s c w quote Hs Hn ltac:(done) E) as Hf.
    induction Hf as [|b l Hb Hf IH]; [done |]. cbn [quotes]. by rewrite decide_False.
Qed.

(** One rune, when there is room for it with quotes. *)
Lemma quote_rune_room c w q :
  qi_nbytesout q + 2 * w + (if qi_quoted q then 0 else 2) ≤ 0x7FFFFFFF → 1 ≤ w →
  ∃ q1, quote_rune doquote c w 0x7FFFFFFF false q = Some q1 ∧
    qi_quoted q1 = qi_quoted q || to_quote doquote c ∧
    qi_nbytesout q1 = qi_nbytesout q + w + (if decide (c = quote) then 1 else 0) +
      (if to_quote doquote c && negb (qi_quoted q) then 2 else 0).
Proof.
  intros Hb Hw. unfold quote_rune. assert (0 ≤ (if qi_quoted q then 0 else 2)) by (destruct (qi_quoted q); lia).
  rewrite (decide_False (P := qi_nbytesout q + w > 0x7FFFFFFF)) by lia.
  assert (c = quote → to_quote doquote c = true) as Hcq.
  { intros ->. unfold to_quote. by rewrite orb_true_r. }
  destruct (to_quote doquote c).
  - destruct q as [[] ri bi ro bo]; cbn [qi_quoted negb qi_nbytesout qi_nrunesout] in *.
    + cbn [mbind option_bind]. destruct (decide (c = quote)).
      * rewrite decide_False by (cbn; lia). eexists. split; [done |]. split; [done |]. cbn. lia.
      * eexists. split; [done |]. split; [done |]. cbn. lia.
    + rewrite decide_False by (cbn; lia). cbn [mbind option_bind]. destruct (decide (c = quote)).
      * rewrite decide_False by (cbn; lia). eexists. split; [done |]. split; [done |]. cbn. lia.
      * eexists. split; [done |]. split; [done |]. cbn. lia.
  - rewrite (decide_False (P := c = quote)) by (intros E; by specialize (Hcq E)).
    eexists. split; [done |]. split; [by rewrite orb_false_r |]. cbn. lia.
Qed.

Lemma quotesetup_loop_bytes s :
  str_ok s → ∀ fuel r nin q, bytes_ok r → nin < 0 → (length s < fuel)%nat →
  0 ≤ qi_nbytesout q → qi_nbytesout q + 2 * len s + (if qi_quoted q then 0 else 2) ≤ 0x7FFFFFFF →
  ∃ q', quotesetup_loop doquote fuel (Ibytes (s ++ 0 :: r)) nin 0x7FFFFFFF false q = Ok q' ∧
    qi_quoted q' = qi_quoted q || existsb (λ r, to_quote doquote r.1) (runes s) ∧
    qi_nbytesout q' = qi_nbytesout q + len s + quotes s + (if qi_quoted q' && negb (qi_quoted q) then 2 else 0).
Proof.
  revert s. apply (runes_ind (λ s, ∀ fuel r nin q, bytes_ok r → nin < 0 → (length s < fuel)%nat →
    0 ≤ qi_nbytesout q → qi_nbytesout q + 2 * len s + (if qi_quoted q then 0 else 2) ≤ 0x7FFFFFFF →
    ∃ q', quotesetup_loop doquote fuel (Ibytes (s ++ 0 :: r)) nin 0x7FFFFFFF false q = Ok q' ∧
      qi_quoted q' = qi_quoted q || existsb (λ r, to_quote doquote r.1) (runes s) ∧
      qi_nbytesout q' = qi_nbytesout q + len s + quotes s + (if qi_quoted q' && negb (qi_quoted q) then 2 else 0))).
  - intros [|fuel] r nin q Hr Hnin Hf H0 Hb; [lia |]. cbn [quotesetup_loop next_in app].
    rewrite decide_False by lia.
    assert (chartorune (0 :: r) = Ok (0, 1)) as -> by done. cbn [mbind res_bind]. rewrite decide_True by done.
    exists q. split_and!; [done | by rewrite orb_false_r | cbn; destruct (qi_quoted q); cbn; lia].
  - intros s c w Hs Hne Hn IH [|fuel] r nin q Hr Hnin Hf H0 Hb; [lia |]. cbn [quotesetup_loop next_in].
    rewrite decide_False by lia. pose proof Hn as (Hw & Hd & _). rewrite Hd by done. cbn [mbind res_bind].
    assert (c ≠ 0) as Hc.
    { intros ->. destruct (next_rune_hit s 0 w Hs Hn) as [-> Ht]; [done |].
      assert (Forall (λ c, is_u8 c ∧ c ≠ 0) (takeZ 1 s)) as Hf0 by (by apply Forall_take). rewrite Ht in Hf0.
      apply Forall_cons_iff in Hf0. naive_solver. }
    rewrite decide_False by done.
    pose proof (length_dropZ_lt w s ltac:(lia) Hne) as Hlt.
    assert (len (dropZ w s) = len s - w) as Hld by (rewrite len_dropZ; lia).
    pose proof (quotes_take s c w Hs Hn) as Hq1.
    assert (quotes s = (if decide (c = quote) then 1 else 0) + quotes (dropZ w s)) as Hqs.
    { rewrite <- Hq1, <- quotes_app, takeZ_dropZ. done. }
    assert (advance_in (Ibytes (s ++ 0 :: r)) w = Ibytes (dropZ w s ++ 0 :: r)) as ->.
    { cbn. f_equal. destruct (advance [] s w (0 :: r) Hw) as [Ha _]. cbn in Ha. unfold dropZ. by rewrite drop_app_le by lia. }
    rewrite (runes_next s c w) by done. cbn [existsb fst].
    assert (∃ q1, quote_rune doquote c w 0x7FFFFFFF false q = Some q1 ∧
      qi_quoted q1 = qi_quoted q || to_quote doquote c ∧
      qi_nbytesout q1 = qi_nbytesout q + w + (if decide (c = quote) then 1 else 0) +
        (if to_quote doquote c && negb (qi_quoted q) then 2 else 0)) as (q1 & -> & Hq1q & Hq1b).
    { apply quote_rune_room; [| lia]. lia. }
    destruct (IH fuel r (nin - 1) q1 Hr) as (q' & -> & Hqq & Hqb); [lia | lia | | |].
    { rewrite Hq1b. destruct (decide (c = quote)), (_ && _); lia. }
    { rewrite Hq1b, Hld, Hq1q. destruct (decide (c = quote)), (qi_quoted q), (to_quote doquote c); cbn; lia. }
    exists q'. split; [done |]. rewrite Hqq, Hq1q. split; [by rewrite orb_assoc |].
    rewrite Hqq, Hq1q in Hqb. rewrite Hqb, Hq1b, Hld, Hqs.
    destruct (qi_quoted q), (to_quote doquote c), (existsb _ _); cbn; lia.
Qed.

Lemma quotesetup_start c l :
  c ≠ 0 → _quotesetup doquote (Ibytes (c :: l)) (-1) 0x7FFFFFFF false false =
    quotesetup_loop doquote (S (length (c :: l))) (Ibytes (c :: l)) (-1) 0x7FFFFFFF false (mkQuoteinfo false 0 0 0 0).
Proof.
  intros H0. unfold _quotesetup, get, peek. rewrite (bool_decide_eq_false_2 (-1 = 0)) by done.
  cbn [orb input_bytes]. change (res_of_option (dropZ 0 (c :: l) !! 0%nat)) with (Ok c : res Z).
  cbn [mbind res_bind]. rewrite (bool_decide_eq_false_2 (c = 0)) by done. done.
Qed.

Lemma needsquotes_spec s r :
  str_ok s → bytes_ok r → 2 * len s + 2 ≤ 0x7FFFFFFF →
  _needsquotes doquote (s ++ 0 :: r) = Ok (needs s, len s + quotes s + (if needs s then 2 else 0)).
Proof.
  intros Hs Hr Hb. unfold _needsquotes. destruct s as [|c s]; [reflexivity |].
    apply Forall_cons_iff in Hs as Hs'. destruct Hs' as [[Hc H0] _]. cbn [app]. rewrite quotesetup_start by done.
    destruct (quotesetup_loop_bytes (c :: s) Hs (S (length (c :: s ++ 0 :: r))) r (-1) (mkQuoteinfo false 0 0 0 0) Hr)
      as (q' & He & Hq & Hqb); [done | cbn [length]; rewrite length_app; lia | cbn [qi_nbytesout qi_quoted]; lia.. |].
    cbn [app] in He. rewrite He. clear He.
    cbn [mbind res_bind qi_quoted qi_nbytesout orb negb] in *. rewrite andb_true_r in Hqb. unfold needs.
    rewrite (bool_decide_eq_false_2 (c :: s = [])) by done. cbn [orb]. rewrite <- Hq, Hqb. do 2 f_equal; lia.
Qed.

(** ** quotestrdup *)

Lemma emit_room n u c : len u < n → emit n u c = Ok (u ++ [c]).
Proof. intros. unfold emit. by rewrite decide_True. Qed.

Lemma quote_copy_double n s r : ∀ u,
  str_ok s → len u + len (double s) ≤ n → quote_copy n (s ++ 0 :: r) u = Ok (u ++ double s).
Proof.
  induction s as [|c s IH]; intros u Hs Hl; cbn [quote_copy app double].
  - rewrite decide_True by done. by rewrite app_nil_r.
  - apply Forall_cons_iff in Hs as [[Hc H0] Hs]. rewrite decide_False by done. cbn [double] in Hl.
    destruct (decide (c = quote)) as [->|Hq]; cbn [length] in Hl.
    + rewrite emit_room by lia. cbn [mbind res_bind]. rewrite emit_room by (rewrite length_app; cbn [length]; lia). cbn [mbind res_bind].
      rewrite IH; [by rewrite <- !app_assoc | done |]. rewrite !length_app. cbn [length]. lia.
    + cbn [mbind res_bind]. rewrite emit_room by lia. cbn [mbind res_bind].
      rewrite IH; [by rewrite <- !app_assoc | done |]. rewrite !length_app. cbn [length]. lia.
Qed.

Lemma no_quotes s : str_ok s → needs s = false → quotes s = 0.
Proof.
  intros Hs Hn. unfold needs in Hn. apply orb_false_iff in Hn as [_ Hn]. revert Hs Hn. revert s.
  apply (runes_ind (λ s, existsb (λ r, to_quote doquote r.1) (runes s) = false → quotes s = 0)); [done |].
  intros s c w Hs Hne Hn IH. rewrite (runes_next s c w) by done. cbn [existsb fst]. intros [Hc Hr]%orb_false_iff.
  rewrite <- (takeZ_dropZ w s), quotes_app, (quotes_take s c w Hs Hn), IH by done.
  rewrite decide_False; [done |]. intros ->. unfold to_quote in Hc. by rewrite orb_true_r in Hc.
Qed.

(** quotestrdup makes the quoted string, in exactly the room it has asked for. *)
Theorem quotestrdup_spec s r :
  str_ok s → bytes_ok r → 2 * len s + 2 ≤ 0x7FFFFFFF → quotestrdup doquote (s ++ 0 :: r) = Ok (quoted s ++ [0]).
Proof.
  intros Hs Hr Hb. unfold quotestrdup. rewrite needsquotes_spec by done. cbn [mbind res_bind]. unfold quote_dup, quoted.
  destruct (needs s) eqn:Hn; cbn [negb].
  - rewrite emit_room by (cbn; pose proof (quotes_range s); lia). cbn [mbind res_bind app].
    rewrite quote_copy_double; [| done | cbn [length]; rewrite len_double; lia]. cbn [mbind res_bind].
    rewrite emit_room by (rewrite length_app, Nat2Z.inj_add, len_double; cbn [length]; lia). cbn [mbind res_bind].
    rewrite emit_room by (rewrite !length_app, !Nat2Z.inj_add, len_double; cbn [length]; lia).
    by rewrite <- ?app_assoc.
  - unfold strdup. rewrite strlen_spec by done. cbn [mbind res_bind]. f_equal.
    change (s ++ 0 :: r) with (s ++ [0] ++ r). rewrite app_assoc. apply takeZ_app. rewrite length_app. cbn. lia.
Qed.

(** ** Quoted strings as tokens *)

Lemma plain_bytes s : str_ok s → needs s = false → Forall (λ c, 32 < c ∧ c ≠ quote) s.
Proof.
  intros Hs Hn. unfold needs in Hn. apply orb_false_iff in Hn as [_ Hn]. revert Hs Hn. revert s.
  apply (runes_ind (λ s, existsb (λ r, to_quote doquote r.1) (runes s) = false → Forall (λ c, 32 < c ∧ c ≠ quote) s)); [done |].
  intros s c w Hs Hne Hn IH. rewrite (runes_next s c w) by done. cbn [existsb fst]. intros [Hc Hr]%orb_false_iff.
  rewrite <- (takeZ_dropZ w s). apply Forall_app. split; [| by apply IH].
  unfold to_quote in Hc. apply orb_false_iff in Hc as [[Hc1%bool_decide_eq_false Hc2%bool_decide_eq_false]%orb_false_iff _].
  apply Forall_lookup. intros i b Hi.
  assert (s !! i = Some b) as Hsi. { unfold takeZ in Hi. by apply lookup_take_Some in Hi as [? _]. }
  destruct (decide (b < 128)) as [Hb|Hb]; [| unfold quote; lia].
  pose proof (Forall_lookup_1 _ _ _ _ Hs Hsi) as [Hbu Hb0].
  destruct (decide (c = b)) as [->|Hcb]; [lia |].
  pose proof (next_rune_skip s c w b Hs Hn Hb Hcb) as Hsk. by destruct (Forall_lookup_1 _ _ _ _ Hsk Hi).
Qed.

Section Seps.
Variable seps : list Z.
Hypothesis Hseps : Forall (λ c, c ≤ 32) seps.

Lemma sep_small c : 32 < c → c ∉ seps.
Proof. intros Hc Hin. rewrite list.Forall_forall in Hseps. specialize (Hseps c Hin). lia. Qed.

Definition ends (rest : list Z) : Prop := match rest with [] => True | c :: _ => c ∈ seps end.

Lemma qlex_double s rest : ends rest → qlex seps true (double s ++ quote :: rest) = (s, rest).
Proof.
  intros He. induction s as [|c s IH]; cbn [double app].
  - cbn [qlex negb andb]. rewrite decide_False by tauto. destruct rest as [|c1 rest]; [done |]. cbn in He.
    rewrite decide_False.
    + cbn [qlex negb andb]. by rewrite bool_decide_eq_true_2.
    + intros ->. revert He. by apply sep_small.
  - destruct (decide (c = quote)) as [->|Hq]; cbn [app].
    + cbn [qlex negb andb]. rewrite decide_False by tauto. rewrite decide_True by done. by rewrite IH.
    + cbn [qlex negb andb]. rewrite decide_True by done. by rewrite IH.
Qed.

Lemma qlex_plain s rest :
  Forall (λ c, 32 < c ∧ c ≠ quote) s → ends rest → qlex seps false (s ++ rest) = (s, rest).
Proof.
  intros Hs He. induction Hs as [|c s [Hc Hq] Hs IH]; cbn [app].
  - destruct rest as [|c rest]; [done |]. cbn [qlex negb andb]. by rewrite bool_decide_eq_true_2.
  - cbn [qlex negb andb]. rewrite bool_decide_eq_false_2 by (by apply sep_small). rewrite decide_True by done. by rewrite IH.
Qed.

Lemma qlex_quoted s rest : str_ok s → ends rest → qlex seps false (quoted s ++ rest) = (s, rest).
Proof.
  intros Hs He. unfold quoted. destruct (needs s) eqn:Hn.
  - cbn [app]. rewrite <- app_assoc. cbn [qlex negb andb app]. rewrite bool_decide_eq_false_2 by (by apply sep_small).
    rewrite decide_False by tauto. by apply qlex_double.
  - apply qlex_plain; [by apply plain_bytes | done].
Qed.

Lemma quoted_head s : str_ok s → ∃ c l, quoted s = c :: l ∧ c ∉ seps.
Proof.
  intros Hs. unfold quoted. destruct (needs s) eqn:Hn; [exists quote, (double s ++ [quote]); split; [done | by apply sep_small] |].
  pose proof (plain_bytes s Hs Hn) as Hp. destruct s as [|c l].
  - unfold needs in Hn. by rewrite bool_decide_eq_true_2 in Hn.
  - apply Forall_cons_iff in Hp as [[Hc _] _]. exists c, l. split; [done | by apply sep_small].
Qed.
End Seps.

(** Quoted strings, with a space between them. *)
Fixpoint join (ss : list (list Z)) : list Z :=
  match ss with
  | [] => []
  | [s] => s
  | s :: ss => s ++ 32 :: join ss
  end.

Lemma white_small : Forall (λ c, c ≤ 32) white.
Proof. by_decide. Qed.

Lemma tokens_join n ss : Forall str_ok ss → tokens n white (join (quoted <$> ss)) = take n ss.
Proof.
  intros Hss. revert n. induction Hss as [|s ss Hs Hss IH]; intros [|n]; try done.
  assert (∃ rest, join (quoted <$> s :: ss) = quoted s ++ rest ∧ ends white rest ∧
    ∀ n, tokens n white rest = tokens n white (join (quoted <$> ss))) as (rest & -> & He & Hr).
  { destruct ss as [|s' ss].
    - exists []. cbn. by rewrite app_nil_r.
    - exists (32 :: join (quoted <$> s' :: ss)). split_and!; [done | cbn; set_solver |]. intros [|m]; [done |].
      cbn [tokens drop_seps]. rewrite decide_True by set_solver. done. }
  cbn [tokens take]. destruct (quoted_head white white_small s Hs) as (c & l & Hq & Hc).
  assert (drop_seps white (quoted s ++ rest) = quoted s ++ rest) as -> by (rewrite Hq; cbn; by rewrite decide_False).
  pose proof (qlex_quoted white white_small s rest Hs He) as Hl. rewrite Hq in *. cbn [app] in *. rewrite Hl.
  by rewrite Hr, IH.
Qed.

Lemma double_ok s : str_ok s → str_ok (double s).
Proof.
  induction 1 as [|c s Hc Hs IH]; [constructor |]. cbn. destruct (decide (c = quote)).
  - constructor; [apply quote_ok |]. constructor; [apply quote_ok | done].
  - by constructor.
Qed.

Lemma quoted_ok s : str_ok s → str_ok (quoted s).
Proof.
  intros Hs. unfold quoted. destruct (needs s); [| done]. constructor; [apply quote_ok |].
  apply str_ok_snoc; [by apply double_ok | apply quote_ok..].
Qed.

Lemma join_ok ss : Forall str_ok ss → str_ok (join ss).
Proof.
  induction 1 as [|s ss Hs Hss IH]; [constructor |]. cbn. destruct ss; [done |].
  apply Forall_app. split; [done |]. constructor; [split; [ranges; lia | done] | done].
Qed.

(** C10: Quoting and tokenizing undo each other.  Strings that quotestrdup has quoted, put into one string with spaces between them, come out of tokenize as they were, whatever bytes they hold; and tokenize does not leave the string. *)
Theorem tokenize_quoted ss n z :
  Forall (λ s, str_ok s ∧ 2 * len s + 2 ≤ 0x7FFFFFFF) ss →
  ∃ qs m args,
    Forall2 (λ s q, quotestrdup doquote (s ++ [0]) = Ok (q ++ [0])) ss qs ∧
    tokenize (join qs ++ 0 :: z) n = Ok (m, args) ∧
    map (λ p, cstring (dropZ p m)) args = take n ss.
Proof.
  intros Hss. assert (Forall str_ok ss) as Hok by (revert Hss; apply Forall_impl; naive_solver).
  destruct (tokenize_spec n (join (quoted <$> ss)) z) as (w & args & He & _ & Hm).
  { apply join_ok, Forall_fmap. revert Hok. apply Forall_impl. intros s Hs. by apply quoted_ok. }
  exists (quoted <$> ss), (w ++ 0 :: z), args. split_and!; [| done | by rewrite Hm, tokens_join].
  apply Forall2_fmap_r, Forall_Forall2_diag. revert Hss. apply Forall_impl. intros s [Hs Hl].
  apply quotestrdup_spec; [done | constructor | done].
Qed.
End Quoting.

(** ** unquotestrdup *)

Definition blank : list Z := [32; 9].

Lemma blank_ok : str_ok blank.
Proof. by_decide. Qed.

Lemma get_u8 m p c : bytes_ok m → get m p = Ok c → is_u8 c.
Proof.
  intros Hm H. unfold get, peek in H. destruct (dropZ p m !! 0%nat) as [b|] eqn:E; [| done].
  simplify_eq H. intros ->. eapply Forall_lookup_1; [| exact E]. by apply Forall_drop.
Qed.

Lemma put_u8 m p c m' : bytes_ok m → is_u8 c → put m p c = Ok m' → bytes_ok m'.
Proof. intros Hm Hc H. unfold put in H. case_decide; [| done]. simplify_eq H. intros <-. by apply Forall_insert. Qed.

(** Its loop is that of qtoken, with other separators. *)
Lemma unquote_loop_qtoken fuel : ∀ m s t q,
  bytes_ok m → unquote_loop fuel m s t q = qtoken_loop fuel (blank ++ 0 :: []) m s t q.
Proof.
  induction fuel as [|fuel IH]; intros m s t q Hm; [done |]. cbn [unquote_loop qtoken_loop].
  destruct (get m t) as [c| |] eqn:Hg; try done. cbn [mbind res_bind]. pose proof (get_u8 _ _ _ Hm Hg) as Hc.
  destruct (decide (c = 0)) as [->|H0].
  { rewrite decide_True by auto. by rewrite in_token_nul. }
  rewrite in_token_byte by (done || apply blank_ok). cbn [mbind res_bind].
  destruct (decide (c = 0 ∨ q = false ∧ (c = 32 ∨ c = 9))) as [[?|[-> Hb]]|Hn]; [done | |].
  { rewrite bool_decide_eq_true_2 by (unfold blank; set_solver). done. }
  replace (q || negb (bool_decide (c ∈ blank))) with true.
  2: { destruct q; [done |]. rewrite bool_decide_eq_false_2; [done |]. unfold blank. set_solver. }
  cbn [negb]. case_decide.
  { destruct (put m s c) as [m'| |] eqn:Hput; try done. cbn [mbind res_bind]. apply IH. by eapply put_u8. }
  destruct (negb q); [by apply IH |]. destruct (get m (t + 1)) as [c1| |] eqn:Hg1; try done. cbn [mbind res_bind].
  case_decide; [by apply IH |]. destruct (put m s c1) as [m'| |] eqn:Hput; try done. cbn [mbind res_bind].
  apply IH. eapply put_u8; [done | | done]. by eapply get_u8.
Qed.

(** unquotestrdup takes the quotes off the first token, and leaves what follows it. *)
Theorem unquotestrdup_spec x z :
  str_ok x → bytes_ok z →
  ∃ m, unquotestrdup (x ++ 0 :: z) = Ok m ∧ cstring m = (qlex blank false x).1 ++ (qlex blank false x).2.
Proof.
  intros Hx Hz. unfold unquotestrdup, strdup. rewrite strlen_spec by done. cbn [mbind res_bind].
  replace (takeZ (len x + 1) (x ++ 0 :: z)) with (x ++ [0]).
  2: { symmetry. change (x ++ 0 :: z) with (x ++ [0] ++ z). rewrite app_assoc. apply takeZ_app. rewrite length_app. cbn. lia. }
  rewrite unquote_loop_qtoken by (apply str_ok_bytes_nul; [done | constructor]).
  destruct (qtoken_loop_lex blank [] blank_ok x (S (length (x ++ [0]))) [] [] false []) as (junk & Hj & Hl & He);
    [done | constructor | rewrite length_app; lia |].
  cbn [app length] in He. change (Z.of_nat 0) with 0 in He. rewrite !Z.add_0_l in He. rewrite He.
  cbn [mbind res_bind]. clear He. destruct (qlex_ok blank x false Hx) as [Htok Hrest]. destruct (qlex blank false x) as [tok rest]. cbn [fst snd] in *.
  destruct junk as [|j junk].
  - rewrite decide_False by (cbn; lia). eexists. split; [done |]. cbn [app]. rewrite app_assoc. apply cstring_app_nul.
    by apply Forall_app.
  - rewrite decide_True by (cbn [length]; lia). unfold close_up.
    assert (dropZ (len tok + len (j :: junk)) (tok ++ (j :: junk) ++ rest ++ [0]) = rest ++ [0]) as ->.
    { rewrite app_assoc. apply dropZ_app. rewrite length_app. lia. }
    rewrite strlen_spec by done. cbn [mbind res_bind]. eexists. split; [done |].
    rewrite takeZ_app by done. rewrite (takeZ_all (len rest + 1)) by (rewrite length_app; cbn; lia).
    rewrite <- app_assoc. cbn [app]. rewrite app_assoc. apply cstring_app_nul. by apply Forall_app.
Qed.

Section Unquoting.
Variable doquote : option (Z → bool).

(** What quotestrdup has quoted, unquotestrdup gives back. *)
Theorem unquote_quote s z :
  str_ok s → bytes_ok z → ∃ m, unquotestrdup (quoted doquote s ++ 0 :: z) = Ok m ∧ cstring m = s.
Proof.
  intros Hs Hz. destruct (unquotestrdup_spec (quoted doquote s) z) as (m & He & Hm); [by apply quoted_ok | done |].
  exists m. split; [done |]. rewrite Hm. pose proof (qlex_quoted doquote blank ltac:(by_decide) s [] Hs I) as Hl.
  rewrite app_nil_r in Hl. rewrite Hl. by rewrite app_nil_r.
Qed.
End Unquoting.

Lemma tokenize_quoted_witness :
  ∃ qs m args,
    Forall2 (λ s q, quotestrdup None (s ++ [0]) = Ok (q ++ [0])) [[97; 32; 98]; []; [39]] qs ∧
    tokenize (join qs ++ 0 :: [7]) 5 = Ok (m, args) ∧
    map (λ p, cstring (dropZ p m)) args = [[97; 32; 98]; []; [39]].
Proof. apply (tokenize_quoted None [[97; 32; 98]; []; [39]] 5 [7]). by_decide. Defined.
