(* ===== verification/FieldProps.v ===== *)
(** * FieldProps: what getfields and gettokens find

    getfields against references on the runes of the string, with adjacent separators
    counted one by one and taken together. *)

From S2P Require Import Prelude Bytes Rune RuneProps Token TokenLex.

Section Fields.
Variables (seps r : list Z).
Hypothesis Hseps : str_ok seps.
Hypothesis Hr : bytes_ok r.

(** Whether a rune is one of the set. *)
Definition in_set (c : Z) : bool := bool_decide (is_Some (find_rune c 0 (runes seps))).

(** Fields of [s], whose runes are [rs], when [cur] has been read of the first; at most [n]. *)
Fixpoint fields (n : nat) (rs : list (Z * Z)) (cur s : list Z) : list (list Z) :=
  match rs with
  | [] => [cur]
  | (c, w) :: rs =>
      if in_set c then
        match n with
        | S (S _ as n) => cur :: fields n rs [] (dropZ w s)
        | _ => [cur ++ s]
        end
      else fields n rs (cur ++ takeZ w s) (dropZ w s)
  end.

(** The same with runs of separators taken as one: [cur] is what has been read of a field. *)
Fixpoint words (n : nat) (rs : list (Z * Z)) (cur : option (list Z)) (s : list Z) : list (list Z) :=
  match rs with
  | [] => match cur with Some f => [f] | None => [] end
  | (c, w) :: rs =>
      if in_set c then
        match cur with
        | None => words n rs None (dropZ w s)
        | Some f =>
            match n with
            | S (S _ as n) => f :: words n rs None (dropZ w s)
            | _ => [f ++ s]
            end
        end
      else words n rs (Some (default [] cur ++ takeZ w s)) (dropZ w s)
  end.

Lemma utfrune_set c : c ≠ 0 → 0 ≤ c → ∃ o, utfrune (seps ++ 0 :: r) c = Ok o ∧ in_set c = bool_decide (is_Some o).
Proof.
  intros Hc H0. pose proof (utfrune_utfrrune seps r c Hseps Hr H0) as H. rewrite decide_False in H by done.
  destruct H as [-> _]. by eexists.
Qed.

Lemma rune_nonneg s c w : str_ok s → next_rune s c w → 0 < c.
Proof.
  intros Hs Hn. pose proof Hn as (Hw & _ & Hb & [([Hc _] & _ & _)|[-> _]]); [| done].
  destruct (decide (c = 0)) as [->|]; [| lia].
  destruct (next_rune_hit s 0 w Hs Hn) as [-> Ht]; [done |].
  assert (Forall (λ c, is_u8 c ∧ c ≠ 0) (takeZ 1 s)) as Hf by (by apply Forall_take). rewrite Ht in Hf.
  apply Forall_cons_iff in Hf. naive_solver.
Qed.

(** The strings at the places [args] of a buffer. *)
Definition strings (m args : list Z) : list (list Z) := map (λ p, cstring (dropZ p m)) args.

(** The runes of a string, one after the other. *)
Ltac field_step s c w :=
  pose proof (length_dropZ_lt w s ltac:(lia) ltac:(done));
  assert (len (dropZ w s) = len s - w) by (rewrite len_dropZ; lia);
  assert (s = takeZ w s ++ dropZ w s) by (by rewrite takeZ_dropZ);
  assert (len (takeZ w s) = w) by (apply len_takeZ; lia).

Lemma getfields_loop_fields s :
  str_ok s → ∀ fuel pre cur z n args intok,
  (length s < fuel)%nat → str_ok cur → bytes_ok z → (1 ≤ n)%nat →
  ∃ w' args', getfields_loop fuel (pre ++ cur ++ s ++ 0 :: z) (len pre + len cur) (len args + Z.of_nat n) false
      (seps ++ 0 :: r) (args ++ [len pre]) (len args + 1) intok =
    Ok (pre ++ w' ++ 0 :: z, args ++ args', len args + len args') ∧
    length w' = length (cur ++ s) ∧ strings (pre ++ w' ++ 0 :: z) args' = fields n (runes s) cur s.
Proof.
  revert s. apply (runes_ind (λ s, ∀ fuel pre cur z n args intok,
    (length s < fuel)%nat → str_ok cur → bytes_ok z → (1 ≤ n)%nat →
    ∃ w' args', getfields_loop fuel (pre ++ cur ++ s ++ 0 :: z) (len pre + len cur) (len args + Z.of_nat n) false
        (seps ++ 0 :: r) (args ++ [len pre]) (len args + 1) intok =
      Ok (pre ++ w' ++ 0 :: z, args ++ args', len args + len args') ∧
      length w' = length (cur ++ s) ∧ strings (pre ++ w' ++ 0 :: z) args' = fields n (runes s) cur s)).
  - intros [|fuel] pre cur z n args intok Hf Hcur Hz Hn; [lia |]. cbn [getfields_loop app].
    assert (dropZ (len pre + len cur) (pre ++ cur ++ 0 :: z) = 0 :: z) as ->.
    { rewrite app_assoc. apply dropZ_app. rewrite length_app. lia. }
    assert (chartorune (0 :: z) = Ok (0, 1)) as -> by done. cbn [mbind res_bind]. rewrite decide_True by done.
    exists cur, [len pre]. rewrite app_nil_r. split_and!; [done.. |]. cbn. f_equal. by apply cstring_at.
  - intros s c w Hs Hne Hnx IH [|fuel] pre cur z n args intok Hf Hcur Hz Hn; [lia |]. cbn [getfields_loop].
    pose proof Hnx as (Hw & Hd & _). field_step s c w. pose proof (rune_nonneg s c w Hs Hnx) as Hc.
    assert (dropZ (len pre + len cur) (pre ++ cur ++ s ++ 0 :: z) = s ++ 0 :: z) as ->.
    { rewrite (app_assoc pre). apply dropZ_app. rewrite length_app. lia. }
    rewrite Hd by done. cbn [mbind res_bind]. rewrite decide_False by lia.
    destruct (utfrune_set c) as (o & -> & Hset); [lia | lia |]. cbn [mbind res_bind]. rewrite (runes_next s c w) by done.
    cbn [fields]. rewrite Hset. destruct o as [o|].
    + rewrite bool_decide_eq_true_2 by done. destruct n as [|[|n]]; [lia | |].
      * rewrite decide_True by lia. exists (cur ++ s), [len pre]. rewrite <- !app_assoc. split_and!; [done.. |].
        cbn. f_equal. rewrite (app_assoc cur). apply cstring_at. by apply Forall_app.
      * rewrite decide_False by lia. destruct s as [|b s1]; [done |].
        assert (put (pre ++ cur ++ (b :: s1) ++ 0 :: z) (len pre + len cur) 0 = Ok (pre ++ cur ++ (0 :: s1) ++ 0 :: z)) as ->.
        { rewrite (app_assoc pre), (app_assoc pre cur). cbn [app]. apply put_at. rewrite length_app. lia. }
        cbn [mbind res_bind].
        assert (takeZ (len args + 1) (args ++ [len pre]) = args ++ [len pre]) as -> by (apply takeZ_all; rewrite length_app; cbn; lia).
        set (s0 := takeZ (w - 1) s1). assert (s1 = s0 ++ dropZ w (b :: s1)) as Hs1.
        { unfold s0. change (dropZ w (b :: s1)) with (drop (Z.to_nat w) (b :: s1)). replace (Z.to_nat w) with (S (Z.to_nat (w - 1))) by lia.
          cbn [drop]. by rewrite <- (take_drop (Z.to_nat (w - 1)) s1) at 1. }
        assert (len s0 = w - 1) as Hls0 by (unfold s0; apply len_takeZ; cbn [length] in *; lia).
        destruct (IH fuel (pre ++ cur ++ 0 :: s0) [] z (S n) (args ++ [len pre]) false) as (w' & args' & He & Hl & Hm);
          [cbn [length] in *; lia | constructor | done | lia |].
        assert ((pre ++ cur ++ 0 :: s0) ++ [] ++ dropZ w (b :: s1) ++ 0 :: z = pre ++ cur ++ (0 :: s1) ++ 0 :: z) as Hm0.
        { rewrite <- !app_assoc. cbn [app]. rewrite Hs1 at 2. by rewrite <- !app_assoc. }
        rewrite Hm0 in He. clear Hm0.
        assert (len (pre ++ cur ++ 0 :: s0) = len pre + len cur + w) as Hlp by (rewrite !length_app; cbn [length]; lia).
        assert (len (args ++ [len pre]) = len args + 1) as Hla by (rewrite length_app; cbn; lia).
        rewrite Hlp, Hla in He. cbn [length] in He. change (Z.of_nat 0) with 0 in He. rewrite Z.add_0_r in He.
        replace (len args + Z.of_nat (S (S n))) with (len args + 1 + Z.of_nat (S n)) by lia.
        rewrite He. exists (cur ++ 0 :: s0 ++ w'), (len pre :: args').
        assert (pre ++ (cur ++ 0 :: s0 ++ w') ++ 0 :: z = (pre ++ cur ++ 0 :: s0) ++ w' ++ 0 :: z) as Hmm by (by rewrite <- !app_assoc; cbn [app]; rewrite <- !app_assoc).
        rewrite Hmm. split_and!.
        -- rewrite <- (app_assoc args). cbn [app length]. do 2 f_equal. lia.
        -- rewrite !length_app in *. cbn [length app] in *. rewrite length_app. lia.
        -- cbn [strings map]. rewrite <- Hm. unfold strings. f_equal.
           rewrite <- !app_assoc. cbn [app]. by apply cstring_at.
    + rewrite bool_decide_eq_false_2 by (by intros []).
      destruct (IH fuel pre (cur ++ takeZ w s) z n args true) as (w' & args' & He & Hl & Hm); [lia | | done | done |].
      { apply Forall_app. split; [done |]. by apply Forall_take. }
      assert ((cur ++ takeZ w s) ++ dropZ w s ++ 0 :: z = cur ++ s ++ 0 :: z) as Hcs.
      { rewrite <- app_assoc. f_equal. by rewrite app_assoc, takeZ_dropZ. }
      rewrite Hcs, length_app, Nat2Z.inj_add in He.
      replace (len (takeZ w s)) with w in He by done. rewrite Z.add_assoc in He.
      rewrite andb_false_r, He. exists w', args'. split_and!; [done | | done].
      rewrite Hl, <- app_assoc, takeZ_dropZ. done.
Qed.

(** One separator becomes a NUL, and the rest of it stays. *)
Lemma put_sep pre s w z :
  s ≠ [] → 1 ≤ w ≤ len s →
  ∃ s0, put (pre ++ s ++ 0 :: z) (len pre) 0 = Ok (pre ++ (0 :: s0) ++ dropZ w s ++ 0 :: z) ∧ len s0 = w - 1.
Proof.
  intros Hne Hw. destruct s as [|b s1]; [done |]. exists (takeZ (w - 1) s1). cbn [app]. rewrite put_at by done. split.
  - do 3 f_equal. rewrite app_assoc. f_equal. unfold takeZ, dropZ. replace (Z.to_nat w) with (S (Z.to_nat (w - 1))) by lia.
    cbn [drop]. by rewrite take_drop.
  - apply len_takeZ. cbn [length] in *. lia.
Qed.

Lemma getfields_loop_words s :
  str_ok s → ∀ fuel pre cur z n args,
  (length s < fuel)%nat → str_ok (default [] cur) → bytes_ok z → (1 ≤ n)%nat →
  ∃ w' args' ext, getfields_loop fuel (pre ++ default [] cur ++ s ++ 0 :: z) (len pre + len (default [] cur))
      (len args + Z.of_nat n) true (seps ++ 0 :: r) (args ++ [len pre])
      (len args + (if cur is Some _ then 1 else 0)) (if cur is Some _ then true else false) =
    Ok (pre ++ w' ++ 0 :: z, (args ++ args') ++ ext, len args + len args') ∧
    length w' = length (default [] cur ++ s) ∧ strings (pre ++ w' ++ 0 :: z) args' = words n (runes s) cur s.
Proof.
  revert s. apply (runes_ind (λ s, ∀ fuel pre cur z n args,
    (length s < fuel)%nat → str_ok (default [] cur) → bytes_ok z → (1 ≤ n)%nat →
    ∃ w' args' ext, getfields_loop fuel (pre ++ default [] cur ++ s ++ 0 :: z) (len pre + len (default [] cur))
        (len args + Z.of_nat n) true (seps ++ 0 :: r) (args ++ [len pre])
        (len args + (if cur is Some _ then 1 else 0)) (if cur is Some _ then true else false) =
      Ok (pre ++ w' ++ 0 :: z, (args ++ args') ++ ext, len args + len args') ∧
      length w' = length (default [] cur ++ s) ∧ strings (pre ++ w' ++ 0 :: z) args' = words n (runes s) cur s)).
  - intros [|fuel] pre cur z n args Hf Hcur Hz Hn; [lia |]. cbn [getfields_loop app].
    assert (dropZ (len pre + len (default [] cur)) (pre ++ default [] cur ++ 0 :: z) = 0 :: z) as ->.
    { rewrite app_assoc. apply dropZ_app. rewrite length_app. lia. }
    assert (chartorune (0 :: z) = Ok (0, 1)) as -> by done. cbn [mbind res_bind]. rewrite decide_True by done.
    destruct cur as [f|]; cbn [default from_option id] in *.
    + exists f, [len pre], []. rewrite !app_nil_r. split_and!; [done.. |]. cbn. f_equal. by apply cstring_at.
    + exists [], [], [len pre]. rewrite !app_nil_r. split_and!; done.
  - intros s c w Hs Hne Hnx IH [|fuel] pre cur z n args Hf Hcur Hz Hn; [lia |]. cbn [getfields_loop].
    pose proof Hnx as (Hw & Hd & _). field_step s c w. pose proof (rune_nonneg s c w Hs Hnx) as Hc.
    set (f := default [] cur) in *.
    assert (dropZ (len pre + len f) (pre ++ f ++ s ++ 0 :: z) = s ++ 0 :: z) as ->.
    { rewrite (app_assoc pre). apply dropZ_app. rewrite length_app. lia. }
    rewrite Hd by done. cbn [mbind res_bind]. rewrite decide_False by lia.
    destruct (utfrune_set c) as (o & -> & Hset); [lia | lia |]. cbn [mbind res_bind]. rewrite (runes_next s c w) by done.
    cbn [words]. rewrite Hset. destruct o as [o|].
    + rewrite bool_decide_eq_true_2 by done.
      destruct (decide (cur ≠ None ∧ n = 1%nat)) as [[Hcn ->]|Hgo].
      { destruct cur as [f'|]; [| done]. cbn [default from_option id] in f. subst f. rewrite decide_True by lia.
        exists (f' ++ s), [len pre], []. rewrite app_nil_r, <- !app_assoc. split_and!; [done.. |].
        cbn. f_equal. rewrite (app_assoc f'). apply cstring_at. by apply Forall_app. }
      assert (cur ≠ None → n ≠ 1%nat) as Hcn by (intros ? ?; by apply Hgo).
      rewrite decide_False by (destruct cur; [specialize (Hcn ltac:(done)) |]; lia).
      destruct (put_sep (pre ++ f) s w z Hne Hw) as (s0 & Hput & Hls0).
      assert (put (pre ++ f ++ s ++ 0 :: z) (len pre + len f) 0 = Ok (pre ++ f ++ (0 :: s0) ++ dropZ w s ++ 0 :: z)) as ->.
      { rewrite <- !app_assoc in Hput. rewrite <- Hput. f_equal. rewrite length_app. lia. }
      cbn [mbind res_bind].
      assert (len (pre ++ f ++ 0 :: s0) = len pre + len f + w) as Hlp by (rewrite !length_app; cbn [length]; lia).
      (* what comes after, with [args'] before it *)
      assert (Hafter : ∀ args1 n1, (1 ≤ n1)%nat → len args1 + Z.of_nat n1 = len args + Z.of_nat n →
        ∃ w' args' ext, getfields_loop fuel (pre ++ f ++ (0 :: s0) ++ dropZ w s ++ 0 :: z) (len pre + len f + w)
            (len args + Z.of_nat n) true (seps ++ 0 :: r) (args1 ++ [len pre + len f + w]) (len args1) false =
          Ok (pre ++ (f ++ 0 :: s0 ++ w') ++ 0 :: z, (args1 ++ args') ++ ext, len args1 + len args') ∧
          length (f ++ 0 :: s0 ++ w') = length (f ++ s) ∧
          strings (pre ++ (f ++ 0 :: s0 ++ w') ++ 0 :: z) args' = words n1 (runes (dropZ w s)) None (dropZ w s)).
      { intros args1 n1 Hn1 Hsum.
        destruct (IH fuel (pre ++ f ++ 0 :: s0) None z n1 args1) as (w' & args' & ext & He & Hl & Hm);
          [lia | constructor | done | done |].
        cbn [default from_option id] in He, Hl. rewrite Hlp in He. cbn [length] in He. change (Z.of_nat 0) with 0 in He.
        rewrite !Z.add_0_r, Hsum in He.
        assert ((pre ++ f ++ 0 :: s0) ++ [] ++ dropZ w s ++ 0 :: z = pre ++ f ++ (0 :: s0) ++ dropZ w s ++ 0 :: z) as Hmm by (by rewrite <- !app_assoc).
        rewrite Hmm in He. clear Hmm.
        assert (pre ++ (f ++ 0 :: s0 ++ w') ++ 0 :: z = (pre ++ f ++ 0 :: s0) ++ w' ++ 0 :: z) as Hmm by (by rewrite <- !app_assoc; cbn [app]; rewrite <- !app_assoc).
        exists w', args', ext. rewrite He, Hmm. split_and!; [done | | done].
        rewrite !length_app. cbn [length app] in *. rewrite length_app. lia. }
      destruct cur as [f'|].
      * cbn [default from_option id] in f. subst f. destruct n as [|[|n]]; [lia | by destruct Hcn |].
        assert (takeZ (len args + 1) (args ++ [len pre]) = args ++ [len pre]) as -> by (apply takeZ_all; rewrite length_app; cbn; lia).
        assert (len (args ++ [len pre]) = len args + 1) as Hla by (rewrite length_app; cbn; lia).
        destruct (Hafter (args ++ [len pre]) (S n)) as (w' & args' & ext & He & Hl & Hm); [lia | lia |]. rewrite Hla in He. rewrite He.
        exists (f' ++ 0 :: s0 ++ w'), (len pre :: args'), ext. split_and!.
        -- rewrite <- !(app_assoc args). cbn [app length]. do 2 f_equal. lia.
        -- done.
        -- cbn [strings map]. rewrite <- Hm. unfold strings. f_equal. rewrite <- !app_assoc. cbn [app]. by apply cstring_at.
      * replace (len args + 0) with (len args) by lia. assert (takeZ (len args) (args ++ [len pre]) = args) as -> by (by apply takeZ_app).
        destruct (Hafter args n) as (w' & args' & ext & He & Hl & Hm); [lia | lia |]. rewrite He.
        exists (f ++ 0 :: s0 ++ w'), args', ext. done.
    + rewrite bool_decide_eq_false_2 by (by intros []).
      destruct (IH fuel pre (Some (f ++ takeZ w s)) z n args) as (w' & args' & ext & He & Hl & Hm); [lia | | done | done |].
      { cbn. apply Forall_app. split; [done |]. by apply Forall_take. }
      cbn [default from_option id] in He, Hl.
      assert ((f ++ takeZ w s) ++ dropZ w s ++ 0 :: z = f ++ s ++ 0 :: z) as Hcs.
      { rewrite <- app_assoc. f_equal. by rewrite app_assoc, takeZ_dropZ. }
      rewrite Hcs, length_app, Nat2Z.inj_add in He.
      replace (len (takeZ w s)) with w in He by done. rewrite Z.add_assoc in He.
      assert ((if negb (if cur is Some _ then true else false) && true then len args + (if cur is Some _ then 1 else 0) + 1
        else len args + (if cur is Some _ then 1 else 0)) = len args + 1) as -> by (destruct cur; cbn; lia).
      rewrite He. exists w', args', ext. split_and!; [done | | done].
      rewrite Hl, <- app_assoc, takeZ_dropZ. done.
Qed.
End Fields.

(** C11: getfields finds the fields of any string.  What it stores in [args] are the places of the fields between the runes of the set, or, with [mflag], of the runs of other runes; the last of [max] fields holds all that is left; and it stays inside the string. *)
Theorem getfields_spec x z seps r max mflag :
  str_ok x → bytes_ok z → str_ok seps → bytes_ok r →
  if decide (max ≤ 0) then getfields (x ++ 0 :: z) max mflag (seps ++ 0 :: r) = Ok (x ++ 0 :: z, [], 0) else
  ∃ w args narg, getfields (x ++ 0 :: z) max mflag (seps ++ 0 :: r) = Ok (w ++ 0 :: z, args, narg) ∧
    length w = length x ∧ narg ≤ len args ∧
    strings (w ++ 0 :: z) (takeZ narg args) =
      (if mflag then words seps (Z.to_nat max) (runes x) None x else fields seps (Z.to_nat max) (runes x) [] x).
Proof.
  intros Hx Hz Hs Hr. unfold getfields. destruct (decide (max ≤ 0)) as [?|Hmax]; [done |].
  assert (length x < S (length (x ++ 0%Z :: z)))%nat as Hf by (rewrite length_app; lia). destruct mflag.
  - destruct (getfields_loop_words seps r Hs Hr x Hx _ [] None z (Z.to_nat max) [] Hf) as (w & args & ext & He & Hl & Hm);
      [constructor | done | lia |].
    cbn [default from_option id app length] in *. change (Z.of_nat 0) with 0 in He. rewrite !Z.add_0_l, Z2Nat.id in He by lia.
    rewrite He. exists w, (args ++ ext), (len args). rewrite takeZ_app by done. split_and!; [done.. | rewrite length_app; lia | done].
  - destruct (getfields_loop_fields seps r Hs Hr x Hx _ [] [] z (Z.to_nat max) [] false Hf) as (w & args & He & Hl & Hm);
      [constructor | done | lia |].
    cbn [app length] in *. change (Z.of_nat 0) with 0 in He. rewrite !Z.add_0_l, Z2Nat.id in He by lia.
    rewrite He. exists w, args, (len args). rewrite takeZ_all by lia. split_and!; [done.. | lia | done].
Qed.

(** A comma at the end makes a field; runs of commas are one with [mflag]. *)
Lemma getfields_spec_witness :
  ∃ w args narg, getfields ([97; 44; 44; 98; 44] ++ 0 :: []) 5 true ([44] ++ 0 :: []) = Ok (w ++ 0 :: [], args, narg) ∧
    length w = 5%nat ∧ narg ≤ len args ∧ strings (w ++ 0 :: []) (takeZ narg args) = [[97]; [98]].
Proof.
  exact (getfields_spec [97; 44; 44; 98; 44] [] [44] [] 5 true ltac:(by_decide) ltac:(by_decide) ltac:(by_decide) ltac:(by_decide)).
Defined.

(** ** gettokens *)

(** The token at the front of a string, quotes and all, and what follows it. *)
Fixpoint rawlex (sep : list Z) (quoting : bool) (l : list Z) : list Z * list Z :=
  match l with
  | [] => ([], [])
  | c :: l1 =>
      if negb quoting && bool_decide (c ∈ sep) then ([], l) else
      if decide (c ≠ quote) then let '(tok, rest) := rawlex sep quoting l1 in (c :: tok, rest) else
      if negb quoting then let '(tok, rest) := rawlex sep true l1 in (c :: tok, rest) else
      match l1 with
      | c1 :: l2 =>
          if decide (c1 = quote) then let '(tok, rest) := rawlex sep true l2 in (c :: c1 :: tok, rest)
          else let '(tok, rest) := rawlex sep false l1 in (c :: tok, rest)
      | [] => ([c], [])
      end
  end.

(** The first [n] tokens; the last of them holds all that is left. *)
Fixpoint raw_tokens (n : nat) (sep l : list Z) : list (list Z) :=
  match n with
  | O => []
  | S n' =>
      match drop_seps sep l with
      | [] => []
      | l => match n' with
             | O => [l]
             | S _ => let '(tok, rest) := rawlex sep false l in tok :: raw_tokens n' sep rest
             end
      end
  end.

Section Gettokens.
Variables (seps r : list Z).
Hypothesis Hseps : str_ok seps.
Local Abbreviation sep := (seps ++ 0 :: r).

Lemma rawlex_app x : ∀ q, x = (rawlex seps q x).1 ++ (rawlex seps q x).2 ∧
  match (rawlex seps q x).2 with [] => True | c :: _ => c ∈ seps end.
Proof.
  induction x as [x IH] using length_ind. intros q. destruct x as [|c x1]; [by split |]. cbn [rawlex].
  destruct (negb q && bool_decide (c ∈ seps)) eqn:E.
  { apply andb_true_iff in E as [_ E%bool_decide_eq_true]. done. }
  destruct (decide (c ≠ quote)).
  { destruct (IH x1 ltac:(cbn; lia) q) as [Hx Hr]. destruct (rawlex seps q x1). cbn in *. split; [by f_equal | done]. }
  destruct (negb q).
  { destruct (IH x1 ltac:(cbn; lia) true) as [Hx Hr]. destruct (rawlex seps true x1). cbn in *. split; [by f_equal | done]. }
  destruct x1 as [|c1 x2]; [by split |]. destruct (decide (c1 = quote)).
  - destruct (IH x2 ltac:(cbn; lia) true) as [Hx Hr]. destruct (rawlex seps true x2). cbn in *. split; [by do 2 f_equal | done].
  - destruct (IH (c1 :: x2) ltac:(cbn; lia) false) as [Hx Hr]. destruct (rawlex seps false (c1 :: x2)). cbn [fst snd] in *.
    split; [| done]. cbn [app]. by f_equal.
Qed.

Lemma etoken_loop_raw x : ∀ fuel pre q z,
  str_ok x → (length x < fuel)%nat →
  etoken_loop fuel sep (pre ++ x ++ 0 :: z) (len pre) q = Ok (len pre + len (rawlex seps q x).1).
Proof.
  induction x as [x IH] using length_ind. intros [|fuel] pre q z Hx Hf; [lia |]. cbn [etoken_loop].
  destruct x as [|c x1]; cbn [app].
  { rewrite (get_at _ _ _ (len pre)) by done. cbn [mbind res_bind]. rewrite in_token_nul. cbn. f_equal. lia. }
  apply Forall_cons_iff in Hx as [[Hc H0] Hx]. rewrite (get_at _ _ _ (len pre)) by done. cbn [mbind res_bind].
  rewrite in_token_byte by done. cbn [mbind res_bind rawlex].
  destruct (negb q && bool_decide (c ∈ seps)) eqn:E.
  { replace (q || negb (bool_decide (c ∈ seps))) with false by (destruct q, (bool_decide _); done). cbn. f_equal. lia. }
  replace (q || negb (bool_decide (c ∈ seps))) with true by (destruct q, (bool_decide _); done). cbn [negb].
  (* on by the bytes [k] *)
  assert (Hon : ∀ k x' q', c :: x1 = k ++ x' → k ≠ [] → str_ok x' →
    etoken_loop fuel sep (pre ++ c :: x1 ++ 0 :: z) (len pre + len k) q' = Ok (len pre + len k + len (rawlex seps q' x').1)).
  { intros k x' q' Hk Hne Hx'. assert (length (c :: x1) = length (k ++ x')) as Hl by (by rewrite Hk). rewrite length_app in Hl.
    assert (length k ≠ 0%nat) by (by destruct k). specialize (IH x' ltac:(lia) fuel (pre ++ k) q' z Hx' ltac:(cbn in *; lia)).
    rewrite length_app, Nat2Z.inj_add in IH. rewrite <- IH. f_equal. rewrite <- app_assoc. f_equal.
    change (c :: x1 ++ 0 :: z) with ((c :: x1) ++ 0 :: z). by rewrite Hk, <- app_assoc. }
  destruct (decide (c ≠ quote)) as [Hq|Hq].
  { specialize (Hon [c] x1 q eq_refl ltac:(done) Hx). cbn [length] in Hon. change (Z.of_nat 1) with 1 in Hon. rewrite Hon.
    destruct (rawlex seps q x1). cbn [fst length]. f_equal. lia. }
  destruct q; cbn [negb].
  2: { specialize (Hon [c] x1 true eq_refl ltac:(done) Hx). cbn [length] in Hon. change (Z.of_nat 1) with 1 in Hon. rewrite Hon.
    destruct (rawlex seps true x1). cbn [fst length]. f_equal. lia. }
  assert (get (pre ++ c :: x1 ++ 0 :: z) (len pre + 1) = Ok (match x1 with [] => 0 | c1 :: _ => c1 end)) as ->.
  { change (c :: x1 ++ 0 :: z) with ([c] ++ x1 ++ 0 :: z). rewrite app_assoc.
    destruct x1 as [|c1 x2]; cbn [app]; apply get_at; rewrite length_app; cbn; lia. }
  cbn [mbind res_bind]. destruct x1 as [|c1 x2].
  - rewrite decide_True by done. specialize (Hon [c] [] false eq_refl ltac:(done) Hx). cbn [length] in Hon.
    change (Z.of_nat 1) with 1 in Hon. rewrite Hon. cbn. f_equal. lia.
  - destruct (decide (c1 = quote)) as [->|Hc1].
    + rewrite decide_False by tauto. apply Forall_cons_iff in Hx as Hx2. destruct Hx2 as [_ Hx2].
      specialize (Hon [c; quote] x2 true eq_refl ltac:(done) Hx2). cbn [length] in Hon. change (Z.of_nat 2) with 2 in Hon. rewrite Hon.
      destruct (rawlex seps true x2). cbn [fst length]. f_equal. lia.
    + rewrite decide_True by done. specialize (Hon [c] (c1 :: x2) false eq_refl ltac:(done) Hx). cbn [length] in Hon.
      change (Z.of_nat 1) with 1 in Hon. rewrite Hon. destruct (rawlex seps false (c1 :: x2)). cbn [fst length]. f_equal. lia.
Qed.

Lemma nul_seps_lex x : ∀ fuel pre z,
  str_ok x → (length x < fuel)%nat →
  ∃ k, nul_seps fuel sep (pre ++ x ++ 0 :: z) (len pre) =
    Ok (pre ++ replicate k 0 ++ drop_seps seps x ++ 0 :: z, len pre + Z.of_nat k) ∧
    (k + length (drop_seps seps x) = length x)%nat ∧ str_ok (drop_seps seps x) ∧
    (k = 0%nat → x = drop_seps seps x).
Proof.
  induction x as [|c x IH]; intros [|fuel] pre z Hx Hf; try (cbn in Hf; lia); cbn [nul_seps app].
  - rewrite get_at by done. exists 0%nat. cbn. rewrite Z.add_0_r. done.
  - rewrite get_at by done. apply Forall_cons_iff in Hx as Hx'. destruct Hx' as [[Hc H0] Hx']. cbn [mbind res_bind].
    rewrite decide_False by done. rewrite is_sep_in by done. cbn [mbind res_bind drop_seps].
    destruct (decide (c ∈ seps)) as [Hs|Hs].
    + rewrite bool_decide_eq_true_2 by done. rewrite put_at by done. cbn [mbind res_bind].
      destruct (IH fuel (pre ++ [0]) z Hx' ltac:(cbn in *; lia)) as (k & He & Hl & Hd & _).
      rewrite <- !app_assoc, length_app in He. cbn [app length] in *.
      replace (len pre + 1) with (Z.of_nat (length pre + 1)) by lia. rewrite He. exists (S k). split_and!; [| lia | done | done].
      cbn [replicate app]. do 2 f_equal. lia.
    + rewrite bool_decide_eq_false_2 by done. exists 0%nat. cbn [replicate app length]. rewrite Z.add_0_r. done.
Qed.

Lemma gettokens_loop_raw n : ∀ pre x z,
  str_ok x →
  ∃ w args, gettokens_loop n sep (pre ++ x ++ 0 :: z) (len pre) = Ok (pre ++ w ++ 0 :: z, args) ∧ length w = length x ∧
    strings (pre ++ w ++ 0 :: z) args = raw_tokens n seps x ∧
    (n ≠ 0%nat → match x with [] => True | c :: _ => c ∈ seps → ∃ w', w = 0 :: w' end).
Proof.
  induction n as [|n IH]; intros pre x z Hx; [by exists x, []; split_and! |]. cbn [gettokens_loop raw_tokens].
  destruct (nul_seps_lex x (S (length (pre ++ x ++ 0 :: z))) pre z Hx) as (k & -> & Hl & Hd & Hk0); [rewrite !length_app; lia |].
  cbn [mbind res_bind].
  assert (Hhead : ∀ w, match x with [] => True | c :: _ => c ∈ seps → ∃ w', replicate k 0 ++ w = 0 :: w' end).
  { intros w. destruct x as [|c x1]; [done |]. intros Hc. destruct k; [| by eexists].
    specialize (Hk0 eq_refl). cbn in Hk0. rewrite decide_True in Hk0 by done.
    apply (f_equal length) in Hk0. destruct (drop_seps_ok seps x1) as (y' & Hy & _); [apply Forall_cons_iff in Hx as [_ Hx]; exact Hx |].
    apply (f_equal length) in Hy. rewrite length_app in Hy. cbn [length] in Hk0. lia. }
  assert (len (pre ++ replicate k 0) = len pre + Z.of_nat k) as Hlp by (rewrite length_app, length_replicate; lia).
  destruct (drop_seps seps x) as [|c d] eqn:Ed.
  - cbn [app]. rewrite (app_assoc pre), <- Hlp. rewrite get_at by done. cbn [mbind res_bind]. rewrite decide_True by done.
    exists (replicate k 0), []. rewrite <- app_assoc. split_and!; [done | rewrite length_replicate; cbn in Hl; lia | done |].
    intros _. specialize (Hhead []). by rewrite app_nil_r in Hhead.
  - rewrite (app_assoc pre), <- Hlp. cbn [app]. rewrite get_at by done. cbn [mbind res_bind].
    apply Forall_cons_iff in Hd as Hd'. destruct Hd' as [[Hcu H0] _]. rewrite decide_False by done. unfold etoken.
    pose proof (etoken_loop_raw (c :: d) (S (length ((pre ++ replicate k 0) ++ c :: d ++ 0 :: z))) (pre ++ replicate k 0) false z Hd) as He.
    cbn [app] in He. rewrite He by (rewrite !length_app; cbn [length]; rewrite !length_app; lia). clear He. cbn [mbind res_bind].
    destruct (rawlex_app (c :: d) false) as [Hcd Hr]. destruct (rawlex seps false (c :: d)) as [tok rest] eqn:Er. cbn [fst snd] in *.
    assert (str_ok tok ∧ str_ok rest) as [Htok Hrest] by (rewrite Hcd in Hd; by apply Forall_app in Hd).
    destruct (IH ((pre ++ replicate k 0) ++ tok) rest z Hrest) as (w & args & He & Hlw & Hm & Hw0).
    assert ((pre ++ replicate k 0) ++ c :: d ++ 0 :: z = ((pre ++ replicate k 0) ++ tok) ++ rest ++ 0 :: z) as Hmem.
    { change (c :: d ++ 0 :: z) with ((c :: d) ++ 0 :: z). rewrite Hcd. by rewrite <- !app_assoc. }
    rewrite Hmem. clear Hmem. rewrite length_app, Nat2Z.inj_add in He. rewrite He. cbn [mbind res_bind].
    exists (replicate k 0 ++ tok ++ w), (len (pre ++ replicate k 0) :: args).
    assert (pre ++ (replicate k 0 ++ tok ++ w) ++ 0 :: z = ((pre ++ replicate k 0) ++ tok) ++ w ++ 0 :: z) as Hmm by (by rewrite <- !app_assoc).
    rewrite Hmm. split_and!; [done | | | intros _; apply Hhead].
    + apply (f_equal length) in Hcd. rewrite length_app in Hcd. cbn [length] in *. rewrite !length_app, length_replicate. lia.
    + unfold strings in *. cbn [map]. rewrite Hm, <- app_assoc, at_pos. destruct n as [|n].
      * cbn in He. injection He as He <-. apply app_inv_head in He. assert (w = rest) as ->.
        { apply (app_inj_1 _ _ _ _) in He as [He _]; [done | by rewrite Hlw]. }
        rewrite app_assoc, <- Hcd. cbn [raw_tokens]. f_equal. by apply cstring_app_nul.
      * f_equal. specialize (Hw0 ltac:(done)). destruct rest as [|c' rest].
        -- destruct w; [| done]. by apply cstring_app_nul.
        -- destruct Hw0 as [w' ->]; [done |]. by apply cstring_app_nul.
Qed.
End Gettokens.

(** gettokens finds the tokens of any string, with their quotes, and stays inside it. *)
Theorem gettokens_spec x z seps r n :
  str_ok x → str_ok seps →
  ∃ w args, gettokens (x ++ 0 :: z) n (seps ++ 0 :: r) = Ok (w ++ 0 :: z, args) ∧ length w = length x ∧
    strings (w ++ 0 :: z) args = raw_tokens n seps x.
Proof.
  intros Hx Hs. destruct (gettokens_loop_raw seps r Hs n [] x z Hx) as (w & args & He & Hl & Hm & _). by exists w, args.
Qed.
