(* ===== verification/Clean.v ===== *)
(** * Clean: path names in their shortest form

    sys/src/libc/port/cleanname.c.  The name is the string at the start of a buffer; the
    pointers of the routine are offsets into it.  Loops over it take fuel, one more than the
    bytes of the buffer.  [Err] is the failed assertion. *)

From S2P Require Import Prelude Bytes Rune Token.

Definition slash : Z := 47.
Definition dot : Z := 46.
Definition sharp : Z := 35.

Definition SEP (c : Z) : bool := bool_decide (c = slash ∨ c = 0).

(** [strcpy(name, ".")] *)
Definition strcpy_dot (m : list Z) : res (list Z) := m ← put m 0 dot; put m 1 0.

(** [while(!SEP( *d0 )) d0 += chartorune(&r, d0)] *)
Fixpoint skip_root (fuel : nat) (m : list Z) (d0 : Z) : res Z :=
  match fuel with
  | O => Ub
  | S fuel =>
      c ← get m d0;
      if SEP c then Ok d0 else '(_, w) ← chartorune (dropZ d0 m); skip_root fuel m (d0 + w)
  end.

(** The root name: where the path begins and whether it is rooted, or that the name is
    returned as it is.  The code tests [d0], which is a pointer and not nil, and not [*d0]. *)
Definition rootname (m : list Z) : res (option (Z * bool)) :=
  c ← get m 0;
  if decide (c = sharp) then
    c1 ← get m 1;
    if decide (c1 = 0) then Ok None else
    '(_, w) ← chartorune (dropZ 1 m);
    d0 ← skip_root (S (length m)) m (1 + w);
    Ok (Some (d0 + 1, true))
  else Ok (Some (if decide (c = slash) then (1, true) else (0, false))).

(** [for(; *s == '/'; s++)] *)
Fixpoint skip_slashes (fuel : nat) (m : list Z) (s : Z) : res Z :=
  match fuel with
  | O => Ub
  | S fuel => c ← get m s; if decide (c = slash) then skip_slashes fuel m (s + 1) else Ok s
  end.

(** [while(s[1] == '/') s++] *)
Fixpoint skip_dups (fuel : nat) (m : list Z) (s : Z) : res Z :=
  match fuel with
  | O => Ub
  | S fuel => c ← get m (s + 1); if decide (c = slash) then skip_dups fuel m (s + 1) else Ok s
  end.

(** The first pass: the buffer and [d] after it. *)
Fixpoint dedup_loop (fuel : nat) (m : list Z) (d s : Z) : res (list Z * Z) :=
  match fuel with
  | O => Ub
  | S fuel =>
      c ← get m s;
      if decide (c = 0) then Ok (m, d) else
      m ← put m d c;
      c ← get m s;
      s ← (if decide (c = slash) then skip_dups (S (length m)) m s else Ok s);
      dedup_loop fuel m (d + 1) (s + 1)
  end.

(** [while(!SEP( *s )) *d++ = *s++]: the buffer, [d] and [s]. *)
Fixpoint copy_elem (fuel : nat) (m : list Z) (d s : Z) : res (list Z * Z * Z) :=
  match fuel with
  | O => Ub
  | S fuel =>
      c ← get m s;
      if SEP c then Ok (m, d, s) else m ← put m d c; copy_elem fuel m (d + 1) (s + 1)
  end.

(** [for( ; d > d0 && d[-1] != '/'; d--)] *)
Fixpoint back_up (fuel : nat) (m : list Z) (d0 d : Z) : res Z :=
  match fuel with
  | O => Ub
  | S fuel =>
      if decide (d0 < d) then c ← get m (d - 1); if decide (c ≠ slash) then back_up fuel m d0 (d - 1) else Ok d
      else Ok d
  end.

(** [s[0] == '.' && SEP(s[1])], and [s[0] == '.' && s[1] == '.' && SEP(s[2])]. *)
Definition is_dot (m : list Z) (s : Z) : res bool :=
  c ← get m s; if decide (c = dot) then c ← get m (s + 1); Ok (SEP c) else Ok false.

Definition is_dotdot (m : list Z) (s : Z) : res bool :=
  c ← get m s; if decide (c = dot) then is_dot m (s + 1) else Ok false.

(** The second pass: the buffer and [d] after it. *)
Fixpoint clean_loop (fuel : nat) (rooted : bool) (m : list Z) (d0 d s : Z) : res (list Z * Z) :=
  match fuel with
  | O => Ub
  | S fuel =>
      c ← get m s;
      if decide (c = 0) then Ok (m, d) else
      let copy d0 :=
        '(m, d, s) ← copy_elem (S (length m)) m d s;
        c ← get m s;
        if decide (c = 0) then Ok (m, d) else
        m ← put m d c;
        clean_loop fuel rooted m d0 (d + 1) (s + 1) in
      one ← is_dot m s;
      if one : bool then
        c ← get m (s + 1);
        if decide (c = 0) then Ok (m, d) else clean_loop fuel rooted m d0 d (s + 2)
      else
      two ← is_dotdot m s;
      if negb two then copy d0 else
      if bool_decide (d = d0) && rooted then
        c ← get m (s + 2);
        if decide (c = 0) then Ok (m, d) else clean_loop fuel rooted m d0 d (s + 3)
      else
      let d0 := if decide (d = d0) then d0 + 3 else d0 in
      if decide (d0 < d) then
        c ← get m (d - 1);
        if decide (d0 ≤ d - 2 ∧ c = slash) then
          d ← back_up (S (length m)) m d0 (d - 2);
          c ← get m (s + 2);
          if decide (c = 0) then Ok (m, d) else clean_loop fuel rooted m d0 d (s + 3)
        else Err
      else copy d0
  end.

(** [if(d-1 > name && d[-1] == '/') *--d = 0] *)
Definition strip_slash (m : list Z) (d : Z) : res (list Z) :=
  if decide (0 < d - 1) then c ← get m (d - 1); if decide (c = slash) then put m (d - 1) 0 else Ok m else Ok m.

(** All from [s = d0] on. *)
Definition cleanpath (m : list Z) (d0 : Z) (rooted : bool) : res (list Z) :=
  s ← (if rooted then skip_slashes (S (length m)) m d0 else Ok d0);
  '(m, d) ← dedup_loop (S (length m)) m d0 s;
  m ← put m d 0;
  '(m, d) ← clean_loop (S (length m)) rooted m d0 d0 d0;
  m ← put m d 0;
  m ← strip_slash m d;
  c ← get m 0;
  if decide (c = 0) then strcpy_dot m else Ok m.

(** What the buffer holds after it. *)
Definition cleanname (m : list Z) : res (list Z) :=
  c ← get m 0;
  if decide (c = 0) then strcpy_dot m else
  o ← rootname m;
  match o with
  | None => Ok m
  | Some (d0, rooted) => cleanpath m d0 rooted
  end.
