(* ===== verification/CleanProps.v ===== *)
(** * CleanProps: cleanname gives the shortest name

    The reference takes a name apart into its elements and keeps those that lead somewhere on
    a stack.  The two passes of cleanname are followed on a view of the buffer: what has been
    written at its front, and what is left to read. *)

From S2P Require Import Prelude Bytes Rune RuneProps Token TokenLex Clean.

(** ** The reference *)

(** What is between the slashes of a string, and the elements among that. *)
Fixpoint split_path (x : list Z) : list (list Z) :=
  match x with
  | [] => [[]]
  | c :: x =>
      if decide (c = slash) then [] :: split_path x
      else match split_path x with e :: es => (c :: e) :: es | [] => [[c]] end
  end.

Definition elements (x : list Z) : list (list Z) := filter (λ e, e ≠ []) (split_path x).

(** The elements that lead to where the path leads, the last first. *)
Definition clean_step (rooted : bool) (st : list (list Z)) (e : list Z) : list (list Z) :=
  if decide (e = [dot]) then st else
  if decide (e ≠ [dot; dot]) then e :: st else
  match st with
  | [] => if rooted then [] else [e]
  | t :: st' => if decide (t = [dot; dot]) then e :: st else st'
  end.

Definition shortest (rooted : bool) (x : list Z) : list (list Z) :=
  foldl (clean_step rooted) [] (elements x).

Fixpoint join_path (es : list (list Z)) : list Z :=
  match es with
  | [] => []
  | [e] => e
  | e :: es => e ++ slash :: join_path es
  end.

Fixpoint until_slash (x : list Z) : list Z :=
  match x with
  | [] => []
  | c :: x => if decide (c = slash) then [] else c :: until_slash x
  end.

(** The name of a root that is written with a sharp sign: the rune after it, which may be a
    slash, and all up to the next slash. *)
Definition device (x : list Z) : list Z :=
  match runes x with
  | [] => [sharp]
  | (_, w) :: _ => sharp :: takeZ w x ++ until_slash (dropZ w x)
  end.

(** There is none for the name of such a root without a slash after it. *)
Definition clean (x : list Z) : option (list Z) :=
  match x with
  | [] => Some [dot]
  | c :: x1 =>
      if decide (c = sharp) then
        if decide (x1 = []) then Some x else
        let r := device x1 in
        match dropZ (len r) x with
        | [] => None
        | _ :: rest =>
            Some (match shortest true rest with [] => r | st => r ++ slash :: join_path (reverse st) end)
        end
      else if decide (c = slash) then Some (slash :: join_path (reverse (shortest true x1)))
      else Some (match shortest false x with [] => [dot] | st => join_path (reverse st) end)
  end.

(** ** Views of the buffer *)

(** [F] at its front, and [y] from [s] on. *)
Record view (m F : list Z) (s : Z) (y : list Z) : Prop := {
  view_front : takeZ (len F) m = F;
  view_rest : dropZ s m = y;
  view_order : len F ≤ s;
  view_len : len m = s + len y
}.

Lemma takeZ_take a b (m : list Z) : a ≤ b → takeZ a (takeZ b m) = takeZ a m.
Proof. intros. unfold takeZ. rewrite take_take. f_equal. lia. Qed.

Section View.
Implicit Types (m F y : list Z).

Lemma view_skip m F s k y : view m F s (k ++ y) → view m F (s + len k) y.
Proof.
  intros [Hf Hr Ho Hl]. rewrite length_app in Hl. split; [done | | lia | lia].
  rewrite <- dropZ_dropZ, Hr by lia. by apply dropZ_app.
Qed.

Lemma view_skip1 m F s c y : view m F s (c :: y) → view m F (s + 1) y.
Proof. apply (view_skip m F s [c]). Qed.

Lemma view_get m F s c y : view m F s (c :: y) → get m s = Ok c.
Proof. intros [_ Hr _ _]. unfold get. by rewrite Hr. Qed.

Lemma view_get1 m F s b c y : view m F s (b :: c :: y) → get m (s + 1) = Ok c.
Proof. intros H%view_skip1. by eapply view_get. Qed.

Lemma view_back m F G s y : view m (F ++ G) s y → view m F s y.
Proof.
  intros [Hf Hr Ho Hl]. rewrite length_app in *. split; [| done | lia | done].
  assert (takeZ (len F) (takeZ (Z.of_nat (length F + length G)) m) = takeZ (len F) (F ++ G)) as H by (by f_equal).
  rewrite takeZ_take in H by lia. by rewrite takeZ_app in H.
Qed.

Lemma view_getfront m F c G s y : view m (F ++ c :: G) s y → get m (len F) = Ok c.
Proof.
  intros [Hf _ _ _]. unfold get. rewrite <- (takeZ_dropZ (len (F ++ c :: G)) m), Hf, <- app_assoc.
  by rewrite dropZ_app.
Qed.

(** A byte stored at the end of the front.  It may be the one that is read. *)
Lemma view_put m F s c y : view m F s (c :: y) →
  ∃ m', put m (len F) c = Ok m' ∧ view m' (F ++ [c]) (s + 1) y ∧ get m' s = Ok c ∧ len m' = len m.
Proof.
  intros [Hf Hr Ho Hl]. cbn [length] in Hl. unfold put. rewrite decide_True by lia. eexists. split; [done |].
  rewrite Nat2Z.id, length_insert. split_and!; [| | done].
  - split; rewrite ?length_app, ?length_insert; cbn [length]; [| | lia | lia].
    + unfold takeZ in *. rewrite Nat2Z.id in *. rewrite Nat.add_1_r, (take_S_r _ _ c) by (apply list_lookup_insert_eq; lia).
      f_equal. rewrite take_insert_ge by lia. done.
    + unfold dropZ in *. rewrite drop_insert_lt by lia. rewrite Z2Nat.inj_add by lia. rewrite <- drop_drop, Hr. done.
  - unfold get, peek, dropZ in *. rewrite lookup_drop, Nat.add_0_r, list_lookup_insert.
    case_decide as H; [done |]. assert (m !! Z.to_nat s = Some c) as ->; [| done].
    rewrite <- (Nat.add_0_r (Z.to_nat s)), <- lookup_drop, Hr. done.
Qed.
End View.

(** ** The first pass *)

(** A string without the slashes that follow one; [prev]: one is in front. *)
Fixpoint squeeze (prev : bool) (x : list Z) : list Z :=
  match x with
  | [] => []
  | c :: x => if decide (c = slash) then (if prev then squeeze true x else c :: squeeze true x) else c :: squeeze false x
  end.

Abbreviation drop_slashes := (drop_seps [slash]).

Lemma in_slash c : c ∈ [slash] ↔ c = slash.
Proof. rewrite list.elem_of_cons, list.elem_of_nil. tauto. Qed.

Lemma drop_slashes_split x : ∃ k, x = k ++ drop_slashes x ∧ Forall (λ c, c = slash) k ∧
  match drop_slashes x with [] => True | c :: _ => c ≠ slash end.
Proof.
  induction x as [|c x (k & Hx & Hk & Hd)]; cbn [drop_seps]; [by exists [] |]. case_decide as H.
  - exists (c :: k). apply in_slash in H. split_and!; [by rewrite Hx at 1 | by constructor | done].
  - exists []. split_and!; [done.. | by rewrite <- in_slash].
Qed.

Lemma squeeze_drop x : squeeze true x = squeeze false (drop_slashes x).
Proof.
  induction x as [|c x IH]; cbn [squeeze drop_seps]; [done |]. case_decide as H.
  - rewrite decide_True by (by apply in_slash). done.
  - rewrite decide_False by (by rewrite in_slash). cbn [squeeze]. by rewrite decide_False.
Qed.

Lemma length_squeeze b x : (length (squeeze b x) ≤ length x)%nat.
Proof.
  revert b. induction x as [|c x IH]; intros b; cbn; [done |]. pose proof (IH true). pose proof (IH false).
  repeat case_match; cbn; lia.
Qed.

Lemma squeeze_ok b x : str_ok x → str_ok (squeeze b x).
Proof.
  intros Hx. revert b. induction Hx as [|c x Hc Hx IH]; intros b; cbn; [constructor |]. case_decide; [destruct b |]; [apply IH | |];
    (constructor; [done | apply IH]).
Qed.

Lemma drop_slashes_ok x : str_ok x → str_ok (drop_slashes x).
Proof. intros Hx. destruct (drop_seps_ok [slash] x Hx) as (? & ? & ? & ?). done. Qed.

(** Reading on over slashes. *)
Lemma skip_slashes_slashes k : ∀ fuel m F s y,
  view m F s (k ++ y) → Forall (λ c, c = slash) k → match y with [] => False | c :: _ => c ≠ slash end →
  (length k < fuel)%nat → skip_slashes fuel m s = Ok (s + len k).
Proof.
  induction k as [|c k IH]; intros [|fuel] m F s y Hv Hk Hy Hf; try (cbn in Hf; lia); cbn [skip_slashes app].
  - destruct y as [|c y]; [done |]. rewrite (view_get _ _ _ _ _ Hv). cbn. rewrite decide_False by done. f_equal. lia.
  - apply Forall_cons_iff in Hk as [-> Hk]. cbn [app] in Hv. rewrite (view_get _ _ _ _ _ Hv). cbn [mbind res_bind]. rewrite decide_True by done.
    rewrite (IH fuel m F (s + 1) y); [f_equal; cbn [length]; lia | by eapply view_skip1 | done | done | cbn in Hf; lia].
Qed.

Lemma skip_dups_skip fuel m : ∀ s, skip_dups fuel m s = (p ← skip_slashes fuel m (s + 1); Ok (p - 1)).
Proof.
  induction fuel as [|fuel IH]; intros s; cbn [skip_dups skip_slashes]; [done |].
  destruct (get m (s + 1)) as [c| |]; cbn [mbind res_bind]; [| done..]. case_decide; [apply IH |]. cbn. f_equal. lia.
Qed.

(** What follows the slashes at the front of a string in a buffer. *)
Lemma after_slashes x z : match drop_slashes x ++ 0 :: z with [] => False | c :: _ => c ≠ slash end.
Proof. destruct (drop_slashes_split x) as (k & _ & _ & Hd). by destruct (drop_slashes x). Qed.

Lemma view_length m F s y : view m F s y → (length y ≤ length m)%nat.
Proof. intros [_ _ ? ?]. lia. Qed.

Lemma dedup_loop_squeeze x : ∀ fuel m F s z,
  str_ok x → view m F s (x ++ 0 :: z) → (length x < fuel)%nat →
  ∃ m', dedup_loop fuel m (len F) s = Ok (m', len (F ++ squeeze false x)) ∧
    view m' (F ++ squeeze false x) (s + len x) (0 :: z) ∧ len m' = len m.
Proof.
  induction x as [x IH] using length_ind. intros [|fuel] m F s z Hx Hv Hf; [lia |]. cbn [dedup_loop].
  destruct x as [|c x]; cbn [app squeeze] in *.
  { rewrite (view_get _ _ _ _ _ Hv). cbn. rewrite app_nil_r. exists m. rewrite Z.add_0_r. done. }
  apply Forall_cons_iff in Hx as [[Hc H0] Hx]. rewrite (view_get _ _ _ _ _ Hv). cbn [mbind res_bind]. rewrite decide_False by done.
  destruct (view_put _ _ _ _ _ Hv) as (m1 & -> & Hv1 & Hg & Hl1). cbn [mbind res_bind]. rewrite Hg. cbn [mbind res_bind].
  destruct (decide (c = slash)) as [->|Hs].
  - destruct (drop_slashes_split x) as (k & Hk & Hks & _). pose proof (after_slashes x z) as Hd.
    assert (view m1 (F ++ [slash]) (s + 1) (k ++ drop_slashes x ++ 0 :: z)) as Hv2 by (by rewrite app_assoc, <- Hk).
    rewrite skip_dups_skip, (skip_slashes_slashes k _ _ _ _ _ Hv2) by (done || apply view_length in Hv2; rewrite length_app in Hv2; lia).
    cbn [mbind res_bind]. rewrite Z.sub_add. apply view_skip in Hv2. apply (f_equal length) in Hk as Hkl. rewrite length_app in Hkl.
    destruct (IH (drop_slashes x) ltac:(cbn; lia) fuel m1 (F ++ [slash]) (s + 1 + len k) z) as (m2 & He & Hv3 & Hl2);
      [by apply drop_slashes_ok | done | cbn in Hf; lia |].
    rewrite <- app_assoc in He, Hv3. cbn [app] in *. rewrite <- squeeze_drop in *.
    exists m2. rewrite length_app in He. cbn [length] in He. split_and!; [| | lia].
    + rewrite <- He. f_equal; lia.
    + replace (s + len (slash :: x)) with (s + 1 + len k + len (drop_slashes x)) by (cbn [length]; lia). done.
  - cbn [mbind res_bind]. destruct (IH x ltac:(cbn; lia) fuel m1 (F ++ [c]) (s + 1) z Hx Hv1 ltac:(cbn in Hf; lia)) as (m2 & He & Hv3 & Hl2).
    rewrite <- app_assoc in He, Hv3. cbn [app] in *. rewrite length_app in He. cbn [length] in He.
    exists m2. split_and!; [| | lia].
    + rewrite <- He. f_equal; lia.
    + replace (s + len (c :: x)) with (s + 1 + len x) by (cbn [length]; lia). done.
Qed.

(** ** Elements *)

Definition squeezed (y : list Z) : Prop := squeeze true y = y.

Lemma squeeze_idem x : ∀ b, squeeze b (squeeze b x) = squeeze b x.
Proof.
  induction x as [|c x IH]; intros b; cbn [squeeze]; [done |]. destruct (decide (c = slash)) as [->|Hc].
  - destruct b; [apply IH |]. cbn [squeeze]. rewrite decide_True by done. by rewrite IH.
  - cbn [squeeze]. rewrite decide_False by done. by rewrite IH.
Qed.

Lemma squeeze_app e y b : Forall (λ c, c ≠ slash) e → e ≠ [] → squeeze b (e ++ y) = e ++ squeeze false y.
Proof.
  intros He Hne. assert (squeeze false (e ++ y) = e ++ squeeze false y) as Hf.
  { clear Hne. induction He as [|c e Hc He IH]; [done |]. cbn. by rewrite decide_False, IH. }
  destruct He as [|c e Hc He]; [done |]. cbn in *. by rewrite decide_False in * by done.
Qed.

Lemma until_slash_split x : ∃ r, x = until_slash x ++ r ∧ Forall (λ c, c ≠ slash) (until_slash x) ∧
  match r with [] => True | c :: _ => c = slash end.
Proof.
  induction x as [|c x (r & Hx & Hu & Hr)]; cbn [until_slash]; [by exists [] |]. case_decide.
  - exists (c :: x). done.
  - exists r. split_and!; [by rewrite Hx at 1 | by constructor | done].
Qed.

Definition plain (e : list Z) : Prop := e ≠ [] ∧ Forall (λ c, c ≠ slash) e ∧ str_ok e.

(** A squeezed string begins with an element. *)
Lemma squeezed_elem y : squeezed y → str_ok y → y ≠ [] →
  ∃ e r, plain e ∧ ((y = e ∧ r = []) ∨ y = e ++ slash :: r) ∧ squeezed r ∧ str_ok r ∧ (length r < length y)%nat.
Proof.
  intros Hq Hy Hne. destruct (until_slash_split y) as (r & Hyr & Hu & Hr).
  assert (until_slash y ≠ []) as Hu0.
  { destruct y as [|c y]; [done |]. cbn. case_decide as Hc; [| done]. subst c. unfold squeezed in Hq. cbn in Hq. rewrite decide_True in Hq by done.
    apply (f_equal length) in Hq. pose proof (length_squeeze true y). cbn in Hq. lia. }
  rewrite Hyr in Hq, Hy. apply Forall_app in Hy as [Hyu Hyr'].
  exists (until_slash y). destruct r as [|c r].
  - exists []. rewrite app_nil_r in Hyr. split_and!; [done | by left | done | done | destruct y; [done | cbn; lia]].
  - subst c. exists r. apply Forall_cons_iff in Hyr' as [_ Hyr'].
    unfold squeezed in *. rewrite squeeze_app in Hq by done. apply app_inv_head in Hq. cbn in Hq. injection Hq as Hq.
    split_and!; [done | by right | done | done |]. rewrite Hyr, length_app. cbn. lia.
Qed.

Lemma split_path_app e y : Forall (λ c, c ≠ slash) e →
  split_path (e ++ y) = match split_path y with h :: t => (e ++ h) :: t | [] => [e] end.
Proof.
  induction 1 as [|c e Hc _ IH]; cbn [app split_path].
  - destruct y as [|c y]; cbn; [done |]. case_decide; [done |]. by destruct (split_path y).
  - rewrite decide_False, IH by done. by destruct (split_path y).
Qed.

Lemma elements_elem e : plain e → elements e = [e].
Proof.
  intros (Hne & He & _). unfold elements. pose proof (split_path_app e [] He) as H. rewrite app_nil_r in H. rewrite H. cbn [split_path].
  by rewrite app_nil_r, filter_cons_True.
Qed.

Lemma elements_cons e r : plain e → elements (e ++ slash :: r) = e :: elements r.
Proof.
  intros (Hne & He & _). unfold elements. rewrite split_path_app by done. cbn [split_path]. rewrite decide_True by done.
  by rewrite app_nil_r, filter_cons_True.
Qed.

(** Squeezing a string does not change its elements. *)
Lemma elements_squeezed x : elements (squeeze true x) = elements x ∧
  ∃ h t t', split_path (squeeze false x) = h :: t ∧ split_path x = h :: t' ∧ filter (λ e, e ≠ []) t = filter (λ e, e ≠ []) t'.
Proof.
  unfold elements. induction x as [|c x [IHt (h & t & t' & Hh & Ht & Hf)]]; cbn [squeeze split_path]; [split; [done | by exists [], [], []] |].
  destruct (decide (c = slash)) as [->|Hc].
  - split; [by rewrite filter_cons_False by (intros H; by apply H) |]. cbn [split_path]. rewrite decide_True by done. by eexists [], _, _.
  - cbn [split_path]. rewrite decide_False by done. rewrite Hh, Ht. split; [| by eexists (c :: h), _, _].
    by rewrite !filter_cons_True, Hf.
Qed.

(** ** The second pass *)

(** The elements of a stack with a slash after each, and without the last. *)
Fixpoint outs (st : list (list Z)) : list Z :=
  match st with [] => [] | e :: st => outs st ++ e ++ [slash] end.

Definition path (st : list (list Z)) : list Z :=
  match st with [] => [] | e :: st => outs st ++ e end.

Lemma outs_app l k : outs (l ++ k) = outs k ++ outs l.
Proof. induction l as [|e l IH]; cbn; [by rewrite app_nil_r |]. by rewrite IH, <- app_assoc. Qed.

Lemma join_path_snoc es e : join_path (es ++ [e]) = outs (reverse es) ++ e.
Proof.
  induction es as [|x es IH]; [done |]. rewrite reverse_cons, outs_app. cbn. rewrite <- !app_assoc. cbn. rewrite <- IH.
  by destruct es.
Qed.

Lemma join_path_path st : join_path (reverse st) = path st.
Proof. destruct st as [|e st]; [done |]. by rewrite reverse_cons, join_path_snoc, reverse_involutive. Qed.

(** A stack: elements that can be taken off, above those that cannot. *)
Definition normal (e : list Z) : Prop := plain e ∧ e ≠ [dot] ∧ e ≠ [dot; dot].
Definition stack (n : nat) (l : list (list Z)) : list (list Z) := l ++ replicate n [dot; dot].

Lemma len_outs_stack n l : len (outs (stack n l)) = 3 * Z.of_nat n + len (outs l).
Proof.
  unfold stack. rewrite outs_app, length_app.
  assert (length (outs (replicate n [dot; dot])) = 3 * n)%nat as ->; [| lia].
  induction n as [|n IH]; [done |]. cbn. rewrite length_app, IH. cbn. lia.
Qed.

Lemma SEP_plain c : c ≠ slash → c ≠ 0 → SEP c = false.
Proof. intros. apply bool_decide_eq_false. tauto. Qed.

Lemma plain_bytes_sep e : Forall (λ c, c ≠ slash) e → str_ok e → Forall (λ c, SEP c = false) e.
Proof.
  rewrite !list.Forall_forall. intros He Hs c Hc. apply SEP_plain; [by apply He |]. unfold str_ok in Hs.
  rewrite list.Forall_forall in Hs. by apply Hs.
Qed.

Lemma copy_elem_plain e : ∀ fuel m F s t,
  Forall (λ c, SEP c = false) e → match t with [] => False | c :: _ => SEP c = true end → view m F s (e ++ t) → (length e < fuel)%nat →
  ∃ m', copy_elem fuel m (len F) s = Ok (m', len (F ++ e), s + len e) ∧ view m' (F ++ e) (s + len e) t ∧ len m' = len m.
Proof.
  induction e as [|c e IH]; intros [|fuel] m F s t He Ht Hv Hf; try (cbn in Hf; lia); cbn [copy_elem app] in *.
  - destruct t as [|c t]; [done |]. rewrite (view_get _ _ _ _ _ Hv). cbn [mbind res_bind]. rewrite Ht, app_nil_r, Z.add_0_r. by exists m.
  - apply Forall_cons_iff in He as [Hc He]. rewrite (view_get _ _ _ _ _ Hv). cbn [mbind res_bind]. rewrite Hc.
    destruct (view_put _ _ _ _ _ Hv) as (m1 & -> & Hv1 & _ & Hl1). cbn [mbind res_bind].
    destruct (IH fuel m1 (F ++ [c]) (s + 1) t He Ht Hv1) as (m2 & He2 & Hv2 & Hl2); [cbn in Hf; lia |].
    rewrite <- app_assoc in He2, Hv2. cbn [app] in *. rewrite length_app in He2. cbn [length] in He2.
    replace (s + 1 + len e) with (s + len (c :: e)) in * by (cbn [length]; lia).
    exists m2. split_and!; [| done | lia]. rewrite <- He2. f_equal; lia.
Qed.

(** Going back over the end of an element, to the slash in front of it or to [d0]. *)
Lemma back_up_plain t : ∀ fuel m P Q s y,
  Forall (λ c, c ≠ slash) t → (Q = [] ∨ ∃ Q', Q = Q' ++ [slash]) → view m (P ++ Q ++ t) s y → (length t < fuel)%nat →
  back_up fuel m (len P) (len (P ++ Q ++ t)) = Ok (len (P ++ Q)).
Proof.
  induction t as [|c t IH] using rev_ind; intros [|fuel] m P Q s y Ht HQ Hv Hf; try (cbn in Hf; lia); cbn [back_up].
  - rewrite app_nil_r in *. destruct HQ as [-> | [Q' ->]].
    + by rewrite app_nil_r, decide_False by lia.
    + rewrite decide_True by (rewrite !length_app; cbn; lia). rewrite app_assoc in *.
      replace (len ((P ++ Q') ++ [slash]) - 1) with (len (P ++ Q')) by (rewrite (length_app _ [slash]); cbn; lia).
      rewrite (view_getfront _ _ _ _ _ _ Hv). cbn. done.
  - apply Forall_app in Ht as [Ht Hc]. apply Forall_cons_iff in Hc as [Hc _].
    rewrite decide_True by (rewrite !length_app; cbn; lia). rewrite !app_assoc, <- (app_assoc P) in *.
    replace (len ((P ++ Q ++ t) ++ [c]) - 1) with (len (P ++ Q ++ t)) by (rewrite (length_app _ [c]); cbn; lia).
    rewrite (view_getfront _ _ _ _ _ _ Hv). cbn [mbind res_bind]. rewrite decide_True by done.
    apply (IH fuel m P Q s y); [done | done | by eapply view_back | rewrite length_app in Hf; cbn in Hf; lia].
Qed.

Lemma is_dot_elem m F s e t :
  view m F s (e ++ t) → Forall (λ c, SEP c = false) e → match t with [] => False | c :: _ => SEP c = true end →
  is_dot m s = Ok (bool_decide (e = [dot])).
Proof.
  intros Hv He Ht. destruct t as [|c0 t]; [done |]. assert (c0 ≠ dot) as H0 by (by intros ->). unfold is_dot.
  destruct e as [|c e]; cbn [app] in Hv; rewrite (view_get _ _ _ _ _ Hv); cbn [mbind res_bind].
  { by rewrite decide_False. }
  destruct (decide (c = dot)) as [->|Hc]; [| rewrite bool_decide_eq_false_2; [done | by intros [=]]].
  destruct e as [|c1 e]; cbn [app] in Hv; rewrite (view_get1 _ _ _ _ _ _ Hv); cbn [mbind res_bind].
  - rewrite Ht. done.
  - apply Forall_cons_iff in He as [_ [-> _]%Forall_cons_iff]. done.
Qed.

Lemma is_dotdot_elem m F s e t :
  view m F s (e ++ t) → Forall (λ c, SEP c = false) e → match t with [] => False | c :: _ => SEP c = true end →
  is_dotdot m s = Ok (bool_decide (e = [dot; dot])).
Proof.
  intros Hv He Ht. destruct t as [|c0 t]; [done |]. assert (c0 ≠ dot) as H0 by (by intros ->). unfold is_dotdot.
  destruct e as [|c e]; cbn [app] in Hv; rewrite (view_get _ _ _ _ _ Hv); cbn [mbind res_bind].
  { by rewrite decide_False. }
  apply Forall_cons_iff in He as [_ He].
  destruct (decide (c = dot)) as [->|Hc]; [| rewrite bool_decide_eq_false_2; [done | by intros [=]]].
  rewrite (is_dot_elem m F (s + 1) e (c0 :: t)); [| by eapply view_skip1 | done | done]. f_equal. apply bool_decide_ext. naive_solver.
Qed.

(** What the second pass leaves: the elements of [st], the last with or without its slash. *)
Definition cleaned (m0 pre : list Z) (st : list (list Z)) (s : Z) (z : list Z) (o : res (list Z * Z)) : Prop :=
  ∃ m f, o = Ok (m, len (pre ++ f)) ∧ view m (pre ++ f) s (0 :: z) ∧ len m = len m0 ∧ (f = outs st ∨ (f = path st ∧ st ≠ [])).

Section Pass.
Variables (rooted : bool) (pre z : list Z).
Abbreviation goes y := (λ st, foldl (clean_step rooted) st (elements y)).

(** The string from [s] on is one element, [e], or [e], a slash and [r]. *)
Definition begins (y e r : list Z) : Prop := (y = e ∧ r = []) ∨ y = e ++ slash :: r.

Definition rest_of (y e r : list Z) (t : list Z) : Prop := (y = e ∧ r = [] ∧ t = 0 :: z) ∨ (y = e ++ slash :: r ∧ t = slash :: r ++ 0 :: z).

Lemma begins_rest y e r : begins y e r → ∃ t, rest_of y e r t ∧ y ++ 0 :: z = e ++ t ∧ match t with [] => False | c :: _ => SEP c = true end.
Proof.
  intros [[-> ->] | ->].
  - exists (0 :: z). split_and!; [by left | done | done].
  - exists (slash :: r ++ 0 :: z). split_and!; [by right | by rewrite <- app_assoc | done].
Qed.

Lemma goes_elem y e r t st : plain e → rest_of y e r t → goes y st = goes r (clean_step rooted st e).
Proof.
  intros He [(-> & -> & _) | [-> _]].
  - by rewrite elements_elem.
  - by rewrite elements_cons.
Qed.

(** The states of the loop before [y]. *)
Definition at_elem (m : list Z) (n : nat) (l : list (list Z)) (s : Z) (y : list Z) : Prop :=
  view m (pre ++ outs (stack n l)) s (y ++ 0 :: z) ∧ Forall normal l ∧ (rooted = true → n = 0%nat).

Definition loop_ok (fuel : nat) (y : list Z) : Prop :=
  ∀ m n l s, at_elem m n l s y →
  cleaned m pre (goes y (stack n l)) (s + len y) z
    (clean_loop fuel rooted m (len pre + 3 * Z.of_nat n) (len (pre ++ outs (stack n l))) s).

(** An element that is skipped, which leaves the stack [stack n l]. *)
Lemma skip_elem fuel y e r t m n l s k :
  loop_ok fuel r → rest_of y e r t → view m (pre ++ outs (stack n l)) s (e ++ t) → Forall normal l → (rooted = true → n = 0%nat) → k = len e →
  cleaned m pre (goes r (stack n l)) (s + len y) z
    (c ← get m (s + k);
     if decide (c = 0) then Ok (m, len (pre ++ outs (stack n l)))
     else clean_loop fuel rooted m (len pre + 3 * Z.of_nat n) (len (pre ++ outs (stack n l))) (s + (k + 1))).
Proof.
  intros IH Ht Hv Hl Hn ->. apply view_skip in Hv as Hv1. destruct Ht as [(-> & -> & ->) | [-> ->]];
    rewrite (view_get _ _ _ _ _ Hv1); cbn [mbind res_bind].
  - rewrite decide_True by done. exists m, (outs (stack n l)). split_and!; [done.. | by left].
  - rewrite decide_False by done. rewrite length_app. cbn [length].
    replace (s + Z.of_nat (length e + S (length r))) with (s + (len e + 1) + len r) by lia.
    apply IH. split_and!; [| done | done]. rewrite Z.add_assoc. by eapply view_skip1.
Qed.

(** An element that is kept. *)
Lemma keep_elem fuel y e r t m n l n' l' s :
  loop_ok fuel r → plain e → rest_of y e r t → view m (pre ++ outs (stack n l)) s (e ++ t) →
  stack n' l' = e :: stack n l → Forall normal l' → (rooted = true → n' = 0%nat) →
  cleaned m pre (goes r (stack n' l')) (s + len y) z
    ('(m, d, s) ← copy_elem (S (length m)) m (len (pre ++ outs (stack n l))) s;
     c ← get m s;
     if decide (c = 0) then Ok (m, d) else
     m ← put m d c;
     clean_loop fuel rooted m (len pre + 3 * Z.of_nat n') (d + 1) (s + 1)).
Proof.
  intros IH (Hne & He & Hs) Ht Hv Hst Hl Hn.
  destruct (copy_elem_plain e (S (length m)) m (pre ++ outs (stack n l)) s t) as (m1 & -> & Hv1 & Hl1);
    [by apply plain_bytes_sep | by destruct Ht as [(-> & -> & ->) | [-> ->]] | done | apply view_length in Hv; rewrite length_app in Hv; lia |].
  cbn [mbind res_bind]. rewrite <- !app_assoc in Hv1 |- *. destruct Ht as [(-> & -> & ->) | [-> ->]].
  - rewrite (view_get _ _ _ _ _ Hv1). cbn [mbind res_bind]. rewrite decide_True by done.
    exists m1, (outs (stack n l) ++ e). split_and!; [done.. |]. right. cbn. by rewrite Hst.
  - rewrite (view_get _ _ _ _ _ Hv1). cbn [mbind res_bind]. rewrite decide_False by done.
    destruct (view_put _ _ _ _ _ Hv1) as (m2 & -> & Hv2 & _ & Hl2). cbn [mbind res_bind].
    replace ((pre ++ outs (stack n l) ++ e) ++ [slash]) with (pre ++ outs (stack n' l')) in Hv2
      by (rewrite Hst; cbn; by rewrite <- !app_assoc).
    replace (len (pre ++ outs (stack n l) ++ e) + 1) with (len (pre ++ outs (stack n' l')))
      by (rewrite Hst; cbn; rewrite !length_app; cbn; lia).
    destruct (IH m2 n' l' (s + len e + 1)) as (m3 & f & He3 & Hv3 & Hl3 & Hf); [done |].
    exists m3, f. split_and!; [done | | lia | done]. rewrite length_app. cbn [length].
    replace (s + Z.of_nat (length e + S (length r))) with (s + len e + 1 + len r) by lia. done.
Qed.

Lemma clean_step_stack n l e : Forall normal l → plain e → (rooted = true → n = 0%nat) →
  clean_step rooted (stack n l) e =
    if decide (e = [dot]) then stack n l else
    if decide (e ≠ [dot; dot]) then stack n (e :: l) else
    match l with
    | _ :: l => stack n l
    | [] => if rooted then stack n [] else stack (S n) []
    end.
Proof.
  intros Hl He Hn. unfold clean_step. case_decide; [done |]. case_decide as H2; [done |].
  subst e. destruct l as [|t l]; cbn [stack app].
  - destruct rooted; [by rewrite Hn by done |]. unfold stack. destruct n as [|n]; cbn [replicate app]; [done |].
    by rewrite decide_True.
  - apply Forall_cons_iff in Hl as [(_ & _ & Ht) _]. by rewrite decide_False.
Qed.

(** Taking the last element off again. *)
Lemma top_of_stack n x l m s y : normal x → view m (pre ++ outs (stack n (x :: l))) s y →
  2 ≤ len (outs (x :: l)) ∧ get m (len (pre ++ outs (stack n (x :: l))) - 1) = Ok slash ∧
  back_up (S (length m)) m (len pre + 3 * Z.of_nat n) (len (pre ++ outs (stack n (x :: l))) - 2) = Ok (len (pre ++ outs (stack n l))) ∧
  view m (pre ++ outs (stack n l)) s y.
Proof.
  intros [(Hx0 & Hxs & _) _] Hv. change (outs (stack n (x :: l))) with (outs (stack n l) ++ x ++ [slash]) in *.
  destruct x as [|c x _] using rev_ind; [done |]. apply Forall_app in Hxs as [Hxs _].
  assert (pre ++ outs (stack n l) ++ (x ++ [c]) ++ [slash] = ((pre ++ outs (stack n [])) ++ outs l ++ x) ++ c :: [slash]) as Heq.
  { unfold stack. rewrite outs_app. cbn. by rewrite <- !app_assoc. }
  rewrite Heq in *. set (P := pre ++ outs (stack n [])) in *.
  assert (len P = len pre + 3 * Z.of_nat n) as HP by (unfold P; rewrite length_app, Nat2Z.inj_add, len_outs_stack; cbn; lia).
  assert (pre ++ outs (stack n l) = P ++ outs l) as -> by (unfold P, stack; rewrite outs_app; cbn; by rewrite <- !app_assoc).
  assert (view m (P ++ outs l ++ x) s y) as Hv1 by (by eapply view_back).
  split_and!.
  - cbn. rewrite !length_app. cbn. lia.
  - change (c :: [slash]) with ([c] ++ [slash]) in *. rewrite (app_assoc _ [c]) in *.
    replace (len (((P ++ outs l ++ x) ++ [c]) ++ [slash]) - 1) with (len ((P ++ outs l ++ x) ++ [c])) by (rewrite (length_app _ [slash]); cbn; lia).
    by eapply view_getfront.
  - rewrite <- HP. replace (len ((P ++ outs l ++ x) ++ [c; slash]) - 2) with (len (P ++ outs l ++ x)) by (rewrite (length_app _ [c; slash]); cbn; lia).
    eapply back_up_plain; [done | | done |].
    + destruct l as [|x' l]; [by left | right]. cbn. exists (outs l ++ x'). by rewrite <- app_assoc.
    + destruct Hv1 as [_ _ Ho Hl1]. rewrite !length_app in Ho. lia.
  - rewrite app_assoc in Hv1. by eapply view_back.
Qed.

End Pass.

Lemma clean_loop_spec rooted pre z y : ∀ fuel,
  squeezed y → str_ok y → (length y < fuel)%nat → loop_ok rooted pre z fuel y.
Proof.
  induction y as [y IHy] using length_ind. intros [|fuel] Hq Hy Hf m n l s (Hv & Hl & Hn); [lia |]. cbn [clean_loop].
  destruct (decide (y = [])) as [->|Hne].
  { cbn [app] in Hv. rewrite (view_get _ _ _ _ _ Hv). cbn. rewrite Z.add_0_r. exists m, (outs (stack n l)). split_and!; [done.. | by left]. }
  destruct (squeezed_elem y Hq Hy Hne) as (e & r & He & Hb & Hqr & Hr & Hlr).
  assert (IH : loop_ok rooted pre z fuel r) by (apply IHy; [done.. | lia]). clear IHy.
  destruct (begins_rest z y e r Hb) as (t & Ht & Hyt & Hsep). rewrite Hyt in Hv.
  rewrite (goes_elem rooted z y e r t _ He Ht), clean_step_stack by done.
  pose proof He as (He0 & Hes & Hestr). apply plain_bytes_sep in Hes as Hesep; [| done].
  rewrite (is_dot_elem _ _ _ _ _ Hv), (is_dotdot_elem _ _ _ _ _ Hv) by done.
  assert (∃ c, get m s = Ok c ∧ c ≠ 0) as (c0 & -> & Hc0).
  { destruct e as [|c e]; [done |]. exists c. split; [by eapply view_get |]. by apply Forall_cons_iff in Hestr as [[_ ?] _]. }
  cbn [mbind res_bind]. rewrite (decide_False (P := c0 = 0)) by done.
  assert (Hkeep : ∀ n' l', stack n' l' = e :: stack n l → Forall normal l' → (rooted = true → n' = 0%nat) →
    cleaned m pre (foldl (clean_step rooted) (stack n' l') (elements r)) (s + len y) z
    ('(m, d, s) ← copy_elem (S (length m)) m (len (pre ++ outs (stack n l))) s;
     c ← get m s;
     if decide (c = 0) then Ok (m, d) else
     m ← put m d c;
     clean_loop fuel rooted m (len pre + 3 * Z.of_nat n') (d + 1) (s + 1))) by (intros; by eapply keep_elem).
  destruct (decide (e = [dot])) as [->|H1].
  { rewrite bool_decide_eq_true_2 by done. by eapply (skip_elem rooted pre z fuel y [dot] r t m n l s 1). }
  rewrite bool_decide_eq_false_2 by done. destruct (decide (e ≠ [dot; dot])) as [H2|H2].
  { rewrite bool_decide_eq_false_2 by done. apply Hkeep; [done | by constructor | done]. }
  assert (e = [dot; dot]) as -> by (by apply dec_stable). rewrite bool_decide_eq_true_2 by done. cbn [negb].
  assert (Hd : len (pre ++ outs (stack n l)) = len pre + 3 * Z.of_nat n + len (outs l)).
  { rewrite length_app, Nat2Z.inj_add, len_outs_stack. lia. }
  destruct l as [|x l].
  - cbn [outs length] in Hd. rewrite Z.add_0_r in Hd. rewrite bool_decide_eq_true_2 by done. destruct rooted; cbn [andb].
    + rewrite Hn in * by done. by eapply (skip_elem true pre z fuel y [dot; dot] r t m 0 [] s 2).
    + rewrite (decide_True (P := len (pre ++ outs (stack n [])) = _)), decide_False by lia.
      replace (len pre + 3 * Z.of_nat n + 3) with (len pre + 3 * Z.of_nat (S n)) by lia. by apply (Hkeep (S n) []).
  - apply Forall_cons_iff in Hl as [Hx Hl]. destruct (top_of_stack pre n x l m s _ Hx Hv) as (Hlx & Hgx & Hback & Hv').
    rewrite bool_decide_eq_false_2 by lia. cbn [andb]. rewrite (decide_False (P := _ = len pre + 3 * Z.of_nat n)) by lia.
    rewrite decide_True, Hgx by lia. cbn [mbind res_bind]. rewrite decide_True by (split; [lia | done]). rewrite Hback. cbn [mbind res_bind].
    by eapply (skip_elem rooted pre z fuel y [dot; dot] r t m n l s 2).
Qed.

(** ** cleanname *)

Lemma split_path_plain x : str_ok x → Forall (λ e, Forall (λ c, c ≠ slash) e ∧ str_ok e) (split_path x).
Proof.
  induction 1 as [|c x Hc Hx IH]; cbn [split_path]; [by repeat constructor |]. case_decide as Hs.
  - by constructor; [repeat constructor |].
  - destruct (split_path x) as [|e es]; [by constructor; [split; (constructor; [done | constructor]) |] |].
    apply Forall_cons_iff in IH as [[He Hs'] IH].
    constructor; [| done]. by split; constructor.
Qed.

Lemma elements_plain x : str_ok x → Forall plain (elements x).
Proof.
  intros Hx. pose proof (split_path_plain x Hx) as Hp. unfold elements. rewrite list.Forall_forall in Hp |- *.
  intros e [Hne He]%list_elem_of_filter. destruct (Hp e He). by split_and!.
Qed.

Lemma clean_step_plain rooted st e : Forall plain st → plain e → Forall plain (clean_step rooted st e).
Proof.
  intros Hst He. unfold clean_step. repeat case_decide; [done | by constructor |].
  destruct Hst as [|t st Ht Hst]; [destruct rooted; [constructor | by constructor; [| constructor]] |].
  case_decide; [by constructor; [| constructor] | done].
Qed.

Lemma shortest_plain rooted x : str_ok x → Forall plain (shortest rooted x).
Proof.
  intros Hx%elements_plain. unfold shortest. assert (Forall plain []) as H by constructor. revert H.
  generalize (@nil (list Z)) as st. induction Hx as [|e es He _ IH]; intros st Hst; cbn; [done |]. by apply IH, clean_step_plain.
Qed.

Lemma outs_ok st : Forall plain st → str_ok (outs st).
Proof.
  induction 1 as [|e st (_ & _ & He) _ IH]; cbn; [constructor |]. unfold str_ok in *. rewrite !list.Forall_app.
  split_and!; [done | done | by repeat constructor].
Qed.

(** The path of a stack: a string that does not end in a slash. *)
Lemma path_ok st : Forall plain st → str_ok (path st).
Proof.
  intros [|e st' (_ & _ & He) Hst]; cbn; [constructor |]. unfold str_ok. rewrite list.Forall_app. split; [by apply outs_ok | done].
Qed.

Lemma path_end st : Forall plain st → st ≠ [] → ∃ p c, path st = p ++ [c] ∧ c ≠ slash.
Proof.
  intros [|e st' (Hne & He & _) Hst] ?; [done |]. destruct e as [|c e _] using rev_ind; [done |].
  apply Forall_app in He as [_ Hc]. apply Forall_cons_iff in Hc as [Hc _]. exists (outs st' ++ e), c. cbn. by rewrite app_assoc.
Qed.

Lemma outs_path st : st ≠ [] → outs st = path st ++ [slash].
Proof. destruct st as [|e st]; [done |]. intros _. cbn. by rewrite app_assoc. Qed.

(** Back to where the front began to be written; and writing over it. *)
Lemma view_restart m F G s y : view m (F ++ G) s y →
  ∃ z, view m F (len F) (G ++ z) ∧ (∀ n, len (F ++ G) ≤ n → dropZ n m = dropZ (n - len (F ++ G)) z).
Proof.
  intros [Hf Hr Ho Hl]. exists (dropZ (len (F ++ G)) m).
  assert (m = F ++ G ++ dropZ (len (F ++ G)) m) as Hm by (rewrite app_assoc, <- Hf at 1; by rewrite takeZ_dropZ).
  split.
  - split; [| | lia |].
    + rewrite Hm at 1. by apply takeZ_app.
    + rewrite Hm at 1. by apply dropZ_app.
    + rewrite Hm at 1. rewrite length_app. lia.
  - intros n Hn. rewrite dropZ_dropZ by lia. f_equal. lia.
Qed.

Lemma view_store m F s y c : view m F s y → len F < s →
  ∃ m', put m (len F) c = Ok m' ∧ view m' (F ++ [c]) s y ∧ len m' = len m.
Proof.
  intros [Hf Hr _ Hl] Ho. unfold put. rewrite decide_True by lia. eexists. split; [done |].
  rewrite Nat2Z.id, length_insert. split; [| done]. split; rewrite ?length_app, ?length_insert; cbn [length]; [| | lia | lia].
  - unfold takeZ in *. rewrite Nat2Z.id in *. rewrite Nat.add_1_r, (take_S_r _ _ c) by (apply list_lookup_insert_eq; lia).
    f_equal. by rewrite take_insert_ge by lia.
  - unfold dropZ in *. by rewrite drop_insert_lt by lia.
Qed.

Lemma view_over m F c G s y c' : view m (F ++ c :: G) s y →
  ∃ m', put m (len F) c' = Ok m' ∧ view m' (F ++ [c']) s y ∧ len m' = len m.
Proof.
  intros Hv. pose proof Hv as [_ _ Ho _]. rewrite length_app in Ho. cbn [length] in Ho.
  apply view_store; [by eapply view_back | lia].
Qed.

Lemma view_cstring m F s y : view m (F ++ [0]) s y → str_ok F → cstring m = F.
Proof.
  intros [Hf _ _ _] HF. rewrite <- (takeZ_dropZ (len (F ++ [0])) m), Hf, <- app_assoc. by apply cstring_app_nul.
Qed.

(** How the name begins, and what is left of that when no element follows. *)
Inductive begun : list Z → bool → list Z → Prop :=
  | begun_not : begun [] false [dot]
  | begun_slash : begun [slash] true [slash]
  | begun_device r : r ≠ [] → str_ok r → begun (r ++ [slash]) true r.

Definition result (pre alone : list Z) (st : list (list Z)) : list Z :=
  match st with [] => alone | _ => pre ++ path st end.

Lemma strip_slash_keeps m F c G s y : view m (F ++ c :: G) s y → (F = [] ∨ c ≠ slash) → strip_slash m (len (F ++ [c])) = Ok m.
Proof.
  intros Hv Hc. unfold strip_slash. rewrite length_app. cbn [length].
  replace (Z.of_nat (length F + 1) - 1) with (len F) by lia. case_decide; [| done].
  rewrite (view_getfront _ _ _ _ _ _ Hv). cbn. destruct Hc as [-> | Hc]; [by cbn in * | by rewrite decide_False].
Qed.

Lemma strip_slash_strips m F G s y : F ≠ [] → view m (F ++ slash :: G) s y →
  ∃ m', strip_slash m (len (F ++ [slash])) = Ok m' ∧ view m' (F ++ [0]) s y ∧ len m' = len m.
Proof.
  intros HF Hv. unfold strip_slash. rewrite length_app. cbn [length].
  replace (Z.of_nat (length F + 1) - 1) with (len F) by lia. rewrite decide_True by (destruct F; [done | cbn; lia]).
  rewrite (view_getfront _ _ _ _ _ _ Hv). cbn [mbind res_bind]. rewrite decide_True by done. by eapply view_over.
Qed.

(** After the second pass: the last slash goes, and an empty name becomes a dot. *)
Lemma finish_name m pre rooted alone f st s y :
  begun pre rooted alone → Forall plain st → (f = outs st ∨ (f = path st ∧ st ≠ [])) → str_ok pre →
  view m ((pre ++ f) ++ [0]) s y → 2 ≤ s →
  ∃ m', (m ← strip_slash m (len (pre ++ f)); c ← get m 0; if decide (c = 0) then strcpy_dot m else Ok m) = Ok m' ∧
    cstring m' = result pre alone st ∧ dropZ s m' = y ∧ len m' = len m.
Proof.
  intros Hb Hst Hf Hpre Hv Hs.
  (* a name that is as it should be *)
  assert (Hdone : ∀ m1 g, view m1 (g ++ [0]) s y → g ≠ [] → str_ok g → len m1 = len m →
    ∃ m', (c ← get m1 0; if decide (c = 0) then strcpy_dot m1 else Ok m1) = Ok m' ∧ cstring m' = g ∧ dropZ s m' = y ∧ len m' = len m).
  { intros m1 g Hv1 Hg Hgs Hl. exists m1. destruct g as [|c g]; [done |]. apply Forall_cons_iff in Hgs as Hc. destruct Hc as [[_ Hc] _].
    pose proof (view_getfront m1 [] c (g ++ [0]) s y Hv1) as Hg0. change (len []) with 0 in Hg0. rewrite Hg0. cbn. rewrite decide_False by done.
    split_and!; [done | by eapply view_cstring | by destruct Hv1 | done]. }
  destruct st as [|e st'].
  - (* no elements *)
    assert (f = []) as -> by (by destruct Hf as [-> | [_ ?]]). rewrite app_nil_r in *. cbn [result]. destruct Hb as [| |r Hr Hrs].
    + change (strip_slash m (len [])) with (Ok m). cbn [mbind res_bind app] in *.
      pose proof (view_getfront m [] 0 [] s y Hv) as Hg0. change (len []) with 0 in Hg0. rewrite Hg0. cbn [mbind res_bind].
      rewrite decide_True by done. unfold strcpy_dot.
      destruct (view_over m [] 0 [] s y dot Hv) as (m1 & Hp1 & Hv1 & Hl1). change (len []) with 0 in Hp1. rewrite Hp1. cbn [mbind res_bind].
      destruct (view_store m1 [dot] s y 0 Hv1) as (m2 & Hp2 & Hv2 & Hl2); [cbn; lia |]. change (len [dot]) with 1 in Hp2. rewrite Hp2.
      exists m2. split_and!; [done | | by destruct Hv2 | lia]. eapply view_cstring; [done | by repeat constructor].
    + pose proof (strip_slash_keeps m [] slash [0] s y Hv (or_introl eq_refl)) as Hk. change ([] ++ [slash]) with [slash] in Hk. rewrite Hk. cbn [mbind res_bind]. by eapply Hdone.
    + rewrite <- app_assoc in Hv. cbn [app] in Hv. destruct (strip_slash_strips m r [0] s y Hr Hv) as (m1 & -> & Hv1 & Hl1). cbn [mbind res_bind].
      by eapply Hdone.
  - set (st := e :: st') in *. assert (Hne : st ≠ []) by done. destruct (path_end st Hst Hne) as (p & c & Hp & Hc).
    change (result pre alone st) with (pre ++ path st).
    assert (str_ok (pre ++ path st)) as Hok by (unfold str_ok; apply Forall_app_2; [done | by apply path_ok]).
    assert (pre ++ path st ≠ []) as Hne' by (rewrite Hp; by destruct pre, p).
    destruct Hf as [-> | [-> _]].
    + rewrite outs_path in * by done. rewrite app_assoc in *. rewrite <- (app_assoc (pre ++ path st)) in Hv. cbn [app] in Hv.
      destruct (strip_slash_strips _ _ _ _ _ Hne' Hv) as (m1 & -> & Hv1 & Hl1). cbn [mbind res_bind]. by eapply Hdone.
    + assert (strip_slash m (len (pre ++ path st)) = Ok m) as ->.
      { rewrite Hp, app_assoc in *. rewrite <- (app_assoc (pre ++ p)) in Hv. eapply strip_slash_keeps; [exact Hv | by right]. }
      cbn [mbind res_bind]. by eapply Hdone.
Qed.

Lemma cleanpath_spec m pre rest rooted alone z :
  begun pre rooted alone → str_ok pre → str_ok rest → (rooted = false → rest ≠ [] ∧ drop_slashes rest = rest) →
  view m pre (len pre) (rest ++ 0 :: z) →
  ∃ m', cleanpath m (len pre) rooted = Ok m' ∧ cstring m' = result pre alone (shortest rooted rest) ∧
    dropZ (len pre + len rest + 1) m' = z ∧ len m' = len m.
Proof.
  intros Hb Hpre Hrest Hun Hv. unfold cleanpath. set (e := len pre + len rest).
  assert (str_ok (squeeze true rest) ∧ (rooted = false → squeeze true rest ≠ [])) as [Hsq Hsne].
  { split; [by apply squeeze_ok |]. intros Hr. destruct (Hun Hr) as [Hne Hd]. rewrite squeeze_drop, Hd.
    destruct rest; [done | cbn; by case_decide]. }
  assert (∃ s, (if rooted then skip_slashes (S (length m)) m (len pre) else Ok (len pre)) = Ok s ∧
    view m pre s (drop_slashes rest ++ 0 :: z) ∧ s + len (drop_slashes rest) = e) as (s & -> & Hv0 & Hs).
  { destruct rooted.
    - destruct (drop_slashes_split rest) as (k & Hk & Hks & _). exists (len pre + len k). pose proof Hv as Hv'.
      rewrite Hk, <- app_assoc in Hv'. split_and!; [| by apply view_skip | unfold e; apply (f_equal length) in Hk; rewrite length_app in Hk; lia].
      eapply skip_slashes_slashes; [done | done | apply after_slashes | apply view_length in Hv'; rewrite length_app in Hv'; lia].
    - destruct (Hun eq_refl) as [_ ->]. by exists (len pre). }
  cbn [mbind res_bind]. apply view_length in Hv0 as Hf0. rewrite length_app in Hf0.
  destruct (dedup_loop_squeeze (drop_slashes rest) (S (length m)) m pre s z) as (m1 & -> & Hv1 & Hl1);
    [by apply drop_slashes_ok | done | lia |]. rewrite <- squeeze_drop in *. set (y := squeeze true rest) in *. rewrite Hs in Hv1. cbn [mbind res_bind].
  destruct (view_put _ _ _ _ _ Hv1) as (m2 & -> & Hv2 & _ & Hl2). cbn [mbind res_bind]. rewrite <- app_assoc in Hv2.
  destruct (view_restart _ _ _ _ _ Hv2) as (z2 & Hv2' & Hz2). rewrite <- app_assoc in Hv2'. cbn [app] in Hv2'.
  pose proof Hv2 as [_ Hdz Hord _]. rewrite Hz2 in Hdz by done.
  pose proof (clean_loop_spec rooted pre z2 y (S (length m2)) (squeeze_idem rest true) Hsq) as Hloop.
  destruct (Hloop ltac:(apply view_length in Hv2'; rewrite length_app in Hv2'; lia) m2 0%nat [] (len pre)) as (m3 & f & He3 & Hv3 & Hl3 & Hf).
  { split_and!; [by rewrite app_nil_r | constructor | done]. }
  change (stack 0 []) with (@nil (list Z)) in *. cbn [outs] in *. rewrite app_nil_r, Z.mul_0_r, Z.add_0_r in He3. rewrite He3. cbn [mbind res_bind].
  replace (elements y) with (elements rest) in Hf by (by rewrite <- (proj1 (elements_squeezed rest))). change (foldl (clean_step rooted) [] (elements rest)) with (shortest rooted rest) in Hf.
  destruct (view_put _ _ _ _ _ Hv3) as (m4 & -> & Hv4 & _ & Hl4). cbn [mbind res_bind].
  destruct (finish_name m4 pre rooted alone f (shortest rooted rest) (len pre + len y + 1) z2) as (m5 & -> & Hc5 & Hd5 & Hl5);
    [done | by apply shortest_plain | done | done | done | |].
  { destruct Hb; cbn; [| lia | rewrite length_app; cbn; lia]. specialize (Hsne eq_refl). destruct y; [done | cbn; lia]. }
  exists m5. split_and!; [done | done | | lia].
  rewrite <- Hdz, <- Hd5, dropZ_dropZ by lia. f_equal. rewrite !length_app. cbn [length]. lia.
Qed.

Lemma until_slash_app a b : Forall (λ c, c ≠ slash) a → until_slash (a ++ b) = a ++ until_slash b.
Proof. induction 1 as [|c a Hc _ IH]; [done |]. cbn. by rewrite decide_False, IH. Qed.

(** The root name goes on rune by rune, up to a slash. *)
Lemma skip_root_until z y : bytes_ok z → str_ok y → ∀ fuel m F d0,
  view m F d0 (y ++ 0 :: z) → (length y < fuel)%nat → skip_root fuel m d0 = Ok (d0 + len (until_slash y)).
Proof.
  intros Hz Hy. induction y as [y IH] using length_ind. intros [|fuel] m F d0 Hv Hf; [lia |]. cbn [skip_root].
  destruct y as [|b y1]; [cbn [app] in Hv; rewrite (view_get _ _ _ _ _ Hv); cbn; f_equal; lia |].
  destruct (next_rune_exists (b :: y1) Hy ltac:(done)) as (c & w & Hn). pose proof Hn as (Hw & Hch & _).
  apply Forall_cons_iff in Hy as Hb. destruct Hb as [[Hb Hb0] _]. rewrite (view_get _ _ _ _ _ Hv). cbn [mbind res_bind].
  destruct (decide (b = slash)) as [->|Hbs]; [change (Ok d0 = Ok (d0 + 0)); f_equal; lia |]. rewrite SEP_plain by done.
  pose proof Hv as [_ -> _ _]. rewrite Hch by done. cbn [mbind res_bind].
  assert (Forall (λ c, c ≠ slash) (takeZ w (b :: y1))) as Htk.
  { apply (next_rune_skip _ c w slash Hy Hn ltac:(done)). intros ->. destruct (next_rune_hit _ _ _ Hy Hn ltac:(done)) as [-> Htk]. by injection Htk. }
  rewrite <- (takeZ_dropZ w (b :: y1)) in Hv |- *. rewrite until_slash_app, length_app by done. rewrite <- app_assoc in Hv.
  apply view_skip in Hv. rewrite len_takeZ in Hv by lia.
  pose proof (length_dropZ_lt w (b :: y1) ltac:(lia) ltac:(done)) as Hlt.
  rewrite (IH (dropZ w (b :: y1))) with (F := F); [| done | by apply Forall_drop | done | lia].
  f_equal. rewrite Nat2Z.inj_add, len_takeZ by lia. lia.
Qed.

Lemma strcpy_dot_spec a b t : strcpy_dot (a :: b :: t) = Ok (dot :: 0 :: t).
Proof.
  unfold strcpy_dot, put. rewrite decide_True by (cbn; lia). cbn [mbind res_bind].
  by rewrite decide_True by (rewrite length_insert; cbn; lia).
Qed.

Lemma view_init pre y : view (pre ++ y) pre (len pre) y.
Proof. split; [by apply takeZ_app | by apply dropZ_app | done | rewrite length_app; lia]. Qed.

(** The name of a root that is written with a sharp sign. *)
Lemma device_split x1 : str_ok x1 → x1 ≠ [] → ∃ w r,
  1 ≤ w ∧ (∀ z, bytes_ok z → ∃ c, chartorune (x1 ++ 0 :: z) = Ok (c, w)) ∧ x1 = takeZ w x1 ++ until_slash (dropZ w x1) ++ r ∧
  device x1 = sharp :: takeZ w x1 ++ until_slash (dropZ w x1) ∧ len (takeZ w x1) = w ∧ match r with [] => True | c :: _ => c = slash end.
Proof.
  intros Hx Hne. destruct (next_rune_exists x1 Hx Hne) as (c & w & Hn). pose proof Hn as (Hw & Hch & _).
  destruct (until_slash_split (dropZ w x1)) as (r & Hr & _ & Hs). exists w, r. split_and!; [lia | | | | by apply len_takeZ; lia | done].
  - intros z Hz. exists c. by apply Hch.
  - by rewrite <- Hr, takeZ_dropZ.
  - unfold device. by rewrite (runes_next _ _ _ Hx Hn).
Qed.

Lemma rootname_device x1 z : str_ok x1 → x1 ≠ [] → bytes_ok z →
  rootname ((sharp :: x1) ++ 0 :: z) = Ok (Some (len (device x1) + 1, true)).
Proof.
  intros Hx Hne Hz. unfold rootname. destruct (device_split x1 Hx Hne) as (w & r & Hw & Hch & Hsp & -> & Hlw & _).
  pose proof (view_init [] ((sharp :: x1) ++ 0 :: z)) as Hv. cbn [app] in *.
  rewrite (view_get _ _ _ _ _ Hv : get _ 0 = _). cbn [mbind res_bind]. rewrite decide_True by done.
  apply view_skip1 in Hv. change (len [] + 1) with 1 in Hv.
  assert (∃ c, get (sharp :: x1 ++ 0 :: z) 1 = Ok c ∧ c ≠ 0) as (c & -> & Hc).
  { destruct x1 as [|c x1]; [done |]. exists c. split; [by eapply view_get |]. by apply Forall_cons_iff in Hx as [[_ ?] _]. }
  cbn [mbind res_bind]. rewrite decide_False by done. pose proof Hv as [_ -> _ _]. destruct (Hch z Hz) as [c1 ->]. cbn [mbind res_bind].
  assert (view (sharp :: x1 ++ 0 :: z) [] 1 (takeZ w x1 ++ dropZ w x1 ++ 0 :: z)) as Hv1 by (by rewrite app_assoc, takeZ_dropZ).
  apply view_skip in Hv1. rewrite Hlw in Hv1.
  rewrite (skip_root_until z (dropZ w x1) Hz) with (F := []); [| by apply Forall_drop | | ].
  - cbn [mbind res_bind length]. do 3 f_equal. rewrite length_app. lia.
  - done.
  - unfold dropZ. cbn [length]. rewrite length_drop, length_app. lia.
Qed.

(** C12: cleanname gives the shortest name.  For every string but the name of a root with a sharp sign and no slash after it, what is left in the buffer is the name with multiple slashes, dots and what dot dots lead back from taken out; the assertion holds, and the bytes after the string are not touched. *)
Theorem cleanname_spec x y z :
  str_ok x → bytes_ok z → (x = [] → z ≠ []) → clean x = Some y →
  ∃ m, cleanname (x ++ 0 :: z) = Ok m ∧ cstring m = y ∧ len m = len (x ++ 0 :: z) ∧
    ∀ n, 2 ≤ n → len x < n → dropZ n m = dropZ n (x ++ 0 :: z).
Proof.
  intros Hx Hz Hne Hc. unfold cleanname. destruct x as [|c x1].
  { destruct z as [|z0 z1]; [by specialize (Hne eq_refl) |]. injection Hc as <-. cbn [app].
    change (get (0 :: z0 :: z1) 0) with (@Ok Z 0). cbn [mbind res_bind]. rewrite decide_True, strcpy_dot_spec by done.
    exists (dot :: 0 :: z1). split_and!; [done.. |]. intros n Hn _. unfold dropZ. by destruct (Z.to_nat n) as [|[|k]] eqn:E; try lia. }
  pose proof (view_init [] ((c :: x1) ++ 0 :: z)) as Hv. cbn [app] in Hv.
  apply Forall_cons_iff in Hx as Hc0. destruct Hc0 as [[_ Hc0] Hx1].
  pose proof (view_get _ _ _ _ _ Hv : get _ 0 = _) as Hg. cbn [app]. rewrite Hg. cbn [mbind res_bind]. rewrite decide_False by done.
  (* the path after a root name *)
  assert (Hpath : ∀ pre rest rooted alone, c :: x1 = pre ++ rest → begun pre rooted alone → (rooted = false → rest ≠ [] ∧ drop_slashes rest = rest) →
    rootname (c :: x1 ++ 0 :: z) = Ok (Some (len pre, rooted)) → y = result pre alone (shortest rooted rest) →
    ∃ m, (o ← rootname (c :: x1 ++ 0 :: z); match o with Some (d0, rooted) => cleanpath (c :: x1 ++ 0 :: z) d0 rooted | None => Ok (c :: x1 ++ 0 :: z) end) = Ok m ∧
      cstring m = y ∧ len m = len (c :: x1 ++ 0 :: z) ∧ ∀ n, 2 ≤ n → len (c :: x1) < n → dropZ n m = dropZ n (c :: x1 ++ 0 :: z)).
  { intros pre rest rooted alone Hsplit Hb Hun -> ->. cbn [mbind res_bind].
    rewrite Hsplit in Hx. apply Forall_app in Hx as [Hpre Hrest].
    change (c :: x1 ++ 0 :: z) with ((c :: x1) ++ 0 :: z). rewrite Hsplit, <- app_assoc.
    destruct (cleanpath_spec (pre ++ rest ++ 0 :: z) pre rest rooted alone z) as (m & -> & Hcs & Hd & Hl); [done.. | apply view_init |].
    exists m. split_and!; [done.. |]. intros n _ Hn. rewrite length_app in Hn.
    set (k := len pre + len rest + 1) in *. assert (∀ m, dropZ n m = dropZ (n - k) (dropZ k m)) as Hnk by (intros; rewrite dropZ_dropZ by lia; f_equal; lia).
    rewrite !Hnk, Hd. f_equal.
    rewrite app_assoc. change (0 :: z) with ([0] ++ z). rewrite (app_assoc _ [0]), dropZ_app; [done |]. unfold k. rewrite !length_app. cbn. lia. }
  unfold clean in Hc. destruct (decide (c = sharp)) as [->|Hsharp].
  - destruct (decide (x1 = [])) as [->|Hx1ne].
    + injection Hc as <-. exists (sharp :: 0 :: z). done.
    + pose proof (rootname_device x1 z Hx1 Hx1ne Hz) as Hroot. destruct (device_split x1 Hx1 Hx1ne) as (w & r & _ & _ & Hsp & Hdev & _ & Hr).
      assert (sharp :: x1 = device x1 ++ r) as Hsplit by (rewrite Hdev; cbn; by rewrite <- app_assoc, <- Hsp).
      rewrite Hsplit, dropZ_app in Hc by done. destruct r as [|c rest]; [done |]. subst c. injection Hc as <-.
      apply (Hpath (device x1 ++ [slash]) rest true (device x1)).
      * by rewrite <- app_assoc.
      * apply begun_device; [by rewrite Hdev |]. rewrite Hsplit in Hx. by apply Forall_app in Hx as [? _].
      * done.
      * rewrite length_app, Nat2Z.inj_add. exact Hroot.
      * unfold result. case_match; [done |]. by rewrite join_path_path, <- app_assoc.
  - assert (rootname (c :: x1 ++ 0 :: z) = Ok (Some (if decide (c = slash) then (1, true) else (0, false)))) as Hroot.
    { unfold rootname. rewrite Hg. cbn [mbind res_bind]. by rewrite decide_False. }
    destruct (decide (c = slash)) as [->|Hs]; injection Hc as <-.
    + apply (Hpath [slash] x1 true [slash]); [done | constructor | done | done |]. rewrite join_path_path. by destruct (shortest true x1).
    + apply (Hpath [] (c :: x1) false [dot]); [done | constructor | | done |].
      * intros _. split; [done |]. cbn. by rewrite decide_False by (by rewrite in_slash).
      * unfold result. case_match; [done |]. by rewrite join_path_path.
Qed.

(** Without the slash it reads past the end of the string. *)
Theorem cleanname_overrun x : str_ok x → clean x = None → cleanname (x ++ [0]) = Ub.
Proof.
  intros Hx Hc. unfold clean in Hc. destruct x as [|c x1]; [done |]. destruct (decide (c = sharp)) as [->|]; [| by case_decide].
  destruct (decide (x1 = [])) as [->|Hne]; [done |]. apply Forall_cons_iff in Hx as [_ Hx1].
  destruct (device_split x1 Hx1 Hne) as (w & r & _ & _ & Hsp & Hdev & _ & Hr).
  assert (sharp :: x1 = device x1 ++ r) as Hsplit by (rewrite Hdev; cbn; by rewrite <- app_assoc, <- Hsp).
  rewrite Hsplit, dropZ_app in Hc by done. destruct r; [| done]. rewrite app_nil_r in Hsplit.
  unfold cleanname. cbn [app]. change (get (sharp :: x1 ++ [0]) 0) with (@Ok Z sharp). cbn [mbind res_bind]. rewrite decide_False by done.
  change (sharp :: x1 ++ [0]) with ((sharp :: x1) ++ [0]).
  rewrite rootname_device by (done || constructor). cbn [mbind res_bind]. unfold cleanpath. cbn [skip_slashes].
  assert (get ((sharp :: x1) ++ [0]) (len (device x1) + 1) = Ub) as ->; [| done].
  rewrite <- Hsplit. unfold get, dropZ. rewrite drop_ge by (rewrite length_app; cbn [length]; lia). done.
Qed.

(** ** Cleaning again *)

Lemma shortest_stack rooted x : str_ok x →
  ∃ n l, shortest rooted x = stack n l ∧ Forall normal l ∧ (rooted = true → n = 0%nat).
Proof.
  intros Hx%elements_plain. unfold shortest. change (@nil (list Z)) with (stack 0 []).
  assert (Forall normal []) as Hl by constructor. assert (rooted = true → 0%nat = 0%nat) as Hn by done. revert Hl Hn.
  generalize 0%nat at 1 3 as n. generalize (@nil (list Z)) as l.
  induction Hx as [|e es He _ IH]; intros l n Hl Hn; cbn [foldl]; [by exists n, l |]. rewrite clean_step_stack by done.
  case_decide; [by apply IH |]. case_decide; [apply IH; [by constructor | done] |]. destruct l as [|t l].
  - destruct rooted; [by apply IH |]. by apply IH.
  - apply IH; [by apply Forall_cons_iff in Hl as [_ Hl] | done].
Qed.

Lemma elements_outs st y : Forall plain st → elements (outs st ++ y) = reverse st ++ elements y.
Proof.
  intros Hst. revert y. induction Hst as [|e st He _ IH]; intros y; [done |]. cbn [outs].
  rewrite <- !app_assoc, IH, reverse_cons, <- app_assoc. f_equal. by apply elements_cons.
Qed.

Lemma elements_path st : Forall plain st → elements (path st) = reverse st.
Proof.
  intros [|e st' He Hst]; [done |]. cbn [path]. by rewrite elements_outs, reverse_cons, elements_elem.
Qed.

Lemma dotdot_plain : plain [dot; dot].
Proof. split_and!; [done | by repeat constructor | by_decide]. Qed.

Lemma stack_plain n l : Forall normal l → Forall plain (stack n l).
Proof.
  intros Hl. apply Forall_app_2; [revert Hl; apply Forall_impl; by intros e [] |].
  induction n; cbn; constructor; [apply dotdot_plain | done].
Qed.

Lemma shortest_path rooted n l : Forall normal l → (rooted = true → n = 0%nat) → shortest rooted (path (stack n l)) = stack n l.
Proof.
  intros Hl Hn. unfold shortest. rewrite elements_path by (by apply stack_plain). induction Hl as [|e l He Hl IH].
  - destruct rooted; [by rewrite Hn |]. clear Hn. unfold stack. cbn [app]. induction n as [|n IH]; [done |]. cbn [replicate].
    rewrite reverse_cons, foldl_app, IH. change (replicate n [dot; dot]) with (stack n []). cbn [foldl].
    by rewrite clean_step_stack by (done || apply dotdot_plain || constructor).
  - change (stack n (e :: l)) with (e :: stack n l). rewrite reverse_cons, foldl_app, IH. cbn [foldl]. destruct He as (He & H1 & H2).
    rewrite clean_step_stack by done. by rewrite decide_False, decide_True.
Qed.

Lemma path_head st e : Forall plain st → plain e → ∃ b p, path (e :: st) = b :: p ∧ b ≠ slash.
Proof.
  intros Hst. revert e. induction Hst as [|x st Hx _ IH]; intros e He.
  - destruct He as (Hne & He & _). destruct He as [|b p Hb _]; [done |]. by exists b, p.
  - destruct (IH x Hx) as (b & p & Hb & Hbs). cbn in *. exists b, (p ++ slash :: e). split; [| done].
    change (outs st ++ x ++ [slash]) with (outs st ++ (x ++ [slash])). by rewrite app_assoc, Hb, <- app_assoc.
Qed.

(** A name that has been cleaned stays as it is, but for one that has become a root. *)
Theorem clean_idem x y : str_ok x → clean x = Some y → head y ≠ Some sharp → clean y = Some y.
Proof.
  intros Hx Hc Hy. destruct x as [|c x1]; [by injection Hc as <- |]. apply Forall_cons_iff in Hx as Hx1. destruct Hx1 as [_ Hx1].
  unfold clean in Hc. destruct (decide (c = sharp)) as [->|Hsharp].
  { exfalso. case_decide; [by injection Hc as <- |]. destruct (device_split x1 Hx1) as (w & r & _ & _ & _ & Hdev & _); [done |].
    case_match; [done |]. injection Hc as <-. apply Hy. rewrite Hdev. by case_match. }
  destruct (decide (c = slash)) as [->|Hs].
  - injection Hc as <-. destruct (shortest_stack true x1 Hx1) as (n & l & -> & Hl & Hn). rewrite join_path_path.
    cbn [clean]. rewrite decide_False, decide_True by done. by rewrite shortest_path, join_path_path.
  - injection Hc as <-. destruct (shortest_stack false (c :: x1) Hx) as (n & l & E & Hl & Hn). rewrite E in *.
    destruct (stack n l) as [|e st] eqn:Est; [done |]. rewrite join_path_path, <- Est in *.
    pose proof (shortest_path false n l Hl Hn) as Hp. pose proof (stack_plain n l Hl) as Hpl.
    assert (∃ b p, path (stack n l) = b :: p ∧ b ≠ slash) as (b & p & Hb & Hbs).
    { rewrite Est in *. apply Forall_cons_iff in Hpl as [He Hst]. by apply path_head. }
    rewrite Hb in *. unfold clean. rewrite decide_False by (intros ->; by apply Hy). rewrite decide_False by done. rewrite Hp, Est.
    by rewrite join_path_path, <- Est, Hb.
Qed.

(** a/../b is b. *)
Lemma cleanname_spec_witness :
  ∃ m, cleanname ([97; 47; 46; 46; 47; 98] ++ 0 :: [7]) = Ok m ∧ cstring m = [98] ∧ len m = 8 ∧
    ∀ n, 2 ≤ n → 6 < n → dropZ n m = dropZ n ([97; 47; 46; 46; 47; 98] ++ 0 :: [7]).
Proof. apply (cleanname_spec [97; 47; 46; 46; 47; 98] [98] [7]); [by_decide | by_decide | done | vm_compute; reflexivity]. Defined.

(** ../../x/.. is ../.., and /../x is /x. *)
Example cleanname_dotdots :
  clean [46; 46; 47; 46; 46; 47; 120; 47; 46; 46] = Some [46; 46; 47; 46; 46] ∧ clean [47; 46; 46; 47; 120] = Some [47; 120].
Proof. done. Qed.

(** #c/ becomes #c, and cleaning that leaves the buffer; the file ./#c of a directory becomes
    the root of a device. *)
Example cleanname_devices :
  (m ← cleanname [35; 99; 47; 0]; Ok (cstring m)) = Ok [35; 99] ∧ cleanname [35; 99; 0] = Ub ∧
  (m ← cleanname [46; 47; 35; 99; 0]; Ok (cstring m)) = Ok [35; 99].
Proof. vm_compute. done. Qed.
