(* ===== verification/Strtol.v ===== *)
(** * Strtol: numbers in strings

    sys/src/libc/port/strtol.c, strtoll.c, strtoul.c, strtoull.c, atol.c and atoll.c.  A
    string is the bytes from a pointer on; the pointer returned is an offset into it.  The
    arithmetic of long and vlong wraps around, as it does in the machine. *)

From S2P Require Import Prelude Bytes Rune.

(** [case ' ': case '\t': case '\n': case '\f': case '\r': case '\v':] *)
Definition is_white (c : Z) : bool := bool_decide (c = 32 ∨ c = 9 ∨ c = 10 ∨ c = 12 ∨ c = 13 ∨ c = 11).

(** The first loop: what is left, and how far it is. *)
Fixpoint skip_white (p : list Z) (o : Z) : res (list Z * Z) :=
  match p with
  | [] => Ub
  | c :: p' => if is_white c then skip_white p' (o + 1) else Ok (p, o)
  end.

(** [if( *p == '-' || *p == '+') if( *p++ == '-') neg = 1] *)
Definition sign (p : list Z) (o : Z) : res (bool * list Z * Z) :=
  c ← peek p 0;
  Ok (if decide (c = 45 ∨ c = 43) then (bool_decide (c = 45), dropZ 1 p, o + 1) else (false, p, o)).

(** [v]: the value of a digit, or [base]. *)
Definition digit (base c : Z) : Z :=
  if decide (48 ≤ c ≤ 57) then c - 48 else
  if decide (97 ≤ c ≤ 122) then c - 97 + 10 else
  if decide (65 ≤ c ≤ 90) then c - 65 + 10 else base.

(** The loop over the digits, in the integers of [wrap]: [n], [ovfl] and [ndig]. *)
Fixpoint digits_loop (wrap : Z → Z) (base m : Z) (p : list Z) (n : Z) (ovfl : bool) (ndig : Z) : res (Z * bool * Z) :=
  match p with
  | [] => Ub
  | c :: p =>
      let v := digit base c in
      if decide (base ≤ v) then Ok (n, ovfl, ndig) else
      let nn := wrap (n * base + v) in
      digits_loop wrap base m p nn (ovfl || bool_decide (m < n) || bool_decide (nn < n)) (ndig + 1)
  end.

(** [p[1] == 'x' || p[1] == 'X'] *)
Definition is_x (p : list Z) : res bool := c ← peek p 1; Ok (bool_decide (c = 120 ∨ c = 88)).

(** The base of strtol, strtoll and strtoull; none if it is out of range. *)
Definition getbase (base : Z) (p : list Z) (o : Z) : res (option (Z * list Z * Z)) :=
  c ← peek p 0;
  if decide (base = 0) then
    if decide (c = 48) then
      x ← is_x p; Ok (Some (if x : bool then (16, dropZ 2 p, o + 2) else (8, p, o)))
    else Ok (Some (10, p, o))
  else if decide (base = 16 ∧ c = 48) then
    x ← is_x p; Ok (Some (if x : bool then (16, dropZ 2 p, o + 2) else (16, p, o)))
  else Ok (if decide (base < 0 ∨ 36 < base) then None else Some (base, p, o)).

(** The base of strtoul, which takes the prefix only if a digit follows. *)
Definition getbase_ul (base : Z) (p : list Z) (o : Z) : res (option (Z * list Z * Z)) :=
  c ← peek p 0;
  base ← (if decide (base = 0) then
            if decide (c ≠ 48) then Ok 10 else x ← is_x p; Ok (if x : bool then 16 else 8)
          else Ok base);
  if decide (base < 2 ∨ 36 < base) then Ok None else
  if decide (base = 16 ∧ c = 48) then
    x ← is_x p;
    if x : bool then
      c2 ← peek p 2;
      Ok (Some (if decide (48 ≤ c2 ≤ 57 ∨ 97 ≤ c2 ≤ 102 ∨ 65 ≤ c2 ≤ 70) then (base, dropZ 2 p, o + 2) else (base, p, o)))
    else Ok (Some (base, p, o))
  else Ok (Some (base, p, o)).

(** The common frame: the value, and what is stored in [*endptr].  [limit] is the dividend
    of [m], and [over] what is returned on overflow. *)
Definition strto (wrap : Z → Z) (getbase : Z → list Z → Z → res (option (Z * list Z * Z))) (limit : Z) (over : bool → Z)
    (nptr : list Z) (base : Z) : res (Z * Z) :=
  '(p, o) ← skip_white nptr 0;
  '(neg, p, o) ← sign p o;
  b ← getbase base p o;
  match b with
  | None => Ok (0, 0)
  | Some (base, p, o) =>
      if decide (base = 0) then Ub else
      '(n, ovfl, ndig) ← digits_loop wrap base (wrap (Z.quot limit base)) p 0 false 0;
      let p := if decide (ndig = 0) then 0 else o + ndig in
      Ok (if ovfl : bool then over neg else if neg : bool then wrap (- n) else n, p)
  end.

Definition LONG_MAX : Z := 2147483647.
Definition LONG_MIN : Z := -2147483648.
Definition VLONG_MAX : Z := 2 ^ 63 - 1.
Definition VLONG_MIN : Z := - 2 ^ 63.
Definition ULONG_MAX : Z := 4294967295.

(** [1LL<<63], which is negative; as a uvlong it is 2^63. *)
Definition UVLONG_MAX : Z := - 2 ^ 63.

Definition strtol : list Z → Z → res (Z * Z) := strto s32 getbase LONG_MAX (λ neg, if neg then LONG_MIN else LONG_MAX).
Definition strtoll : list Z → Z → res (Z * Z) := strto s64 getbase VLONG_MAX (λ neg, if neg then VLONG_MIN else VLONG_MAX).
Definition strtoul : list Z → Z → res (Z * Z) := strto u32 getbase_ul ULONG_MAX (λ _, ULONG_MAX).
Definition strtoull : list Z → Z → res (Z * Z) := strto u64 getbase UVLONG_MAX (λ _, u64 UVLONG_MAX).

(** ** atol.c *)

(** [while( *s == ' ' || *s == '\t') s++] *)
Fixpoint skip_blanks (s : list Z) : res (list Z) :=
  match s with
  | [] => Ub
  | c :: s' => if decide (c = 32 ∨ c = 9) then skip_blanks s' else Ok s
  end.

(** The loops over hexadecimal digits, and over those from 0 to [last]. *)
Fixpoint atol_hex (s : list Z) (n : Z) : res Z :=
  match s with
  | [] => Ub
  | c :: s =>
      if decide (48 ≤ c ≤ 57) then atol_hex s (s32 (n * 16 + c - 48)) else
      if decide (97 ≤ c ≤ 102) then atol_hex s (s32 (n * 16 + c - 97 + 10)) else
      if decide (65 ≤ c ≤ 70) then atol_hex s (s32 (n * 16 + c - 65 + 10)) else Ok n
  end.

Fixpoint atol_dec (base last : Z) (s : list Z) (n : Z) : res Z :=
  match s with
  | [] => Ub
  | c :: s => if decide (48 ≤ c ≤ last) then atol_dec base last s (s32 (n * base + c - 48)) else Ok n
  end.

Definition atol (s : list Z) : res Z :=
  s ← skip_blanks s;
  c ← peek s 0;
  '(f, s) ← (if decide (c = 45 ∨ c = 43) then s ← skip_blanks (dropZ 1 s); Ok (bool_decide (c = 45), s) else Ok (false, s));
  c ← peek s 0;
  c1 ← (if decide (c = 48) then peek s 1 else Ok 0);
  n ← (if decide (c = 48 ∧ c1 ≠ 0) then
         if decide (c1 = 120 ∨ c1 = 88) then atol_hex (dropZ 2 s) 0 else atol_dec 8 55 s 0
       else atol_dec 10 57 s 0);
  Ok (if f : bool then s32 (- n) else n).

Definition atoi (s : list Z) : res Z := n ← atol s; Ok (s32 n).

Definition atoll (s : list Z) : res Z := '(n, _) ← strtoll s 0; Ok n.
