(* ===== verification/StrtolProps.v ===== *)
(** * StrtolProps: the value of a number in a string

    The reference reads white space, a sign, the prefix of the base and the digits off a
    string, and gives the digits their value as an integer.  The conversions of libc give
    that value, held to the range of their type. *)

From S2P Require Import Prelude Bytes Rune RuneProps Strtol.

(** ** The reference *)

Fixpoint drop_white (x : list Z) : list Z :=
  match x with [] => [] | c :: x' => if is_white c then drop_white x' else x end.

(** Whether there is a minus sign, and what follows the sign. *)
Definition signed_by (x : list Z) : bool * list Z :=
  match x with
  | c :: x' => if decide (c = 45 ∨ c = 43) then (bool_decide (c = 45), x') else (false, x)
  | [] => (false, [])
  end.

(** What follows 0x. *)
Definition after_0x (x : list Z) : option (list Z) :=
  match x with
  | c :: c1 :: x' => if decide (c = 48 ∧ (c1 = 120 ∨ c1 = 88)) then Some x' else None
  | _ => None
  end.

(** The base of the digits, and where they begin: 0 takes it from the prefix. *)
Definition prefix (base : Z) (x : list Z) : option (Z * list Z) :=
  if decide (base < 0 ∨ 36 < base) then None else
  match after_0x x with
  | Some x' => if decide (base = 0 ∨ base = 16) then Some (16, x') else Some (base, x)
  | None => Some (if decide (base = 0) then if decide (head x = Some 48) then 8 else 10 else base, x)
  end.

(** strtoul wants a digit after the prefix, and no base 1. *)
Definition prefix_ul (base : Z) (x : list Z) : option (Z * list Z) :=
  if decide (base < 0 ∨ base = 1 ∨ 36 < base) then None else
  match after_0x x with
  | Some x' =>
      if decide (base = 0 ∨ base = 16) then
        Some (16, match x' with c :: _ => if decide (digit 16 c < 16) then x' else x | [] => x end)
      else Some (base, x)
  | None => Some (if decide (base = 0) then if decide (head x = Some 48) then 8 else 10 else base, x)
  end.

Fixpoint digits (base : Z) (x : list Z) : list Z :=
  match x with
  | [] => []
  | c :: x => if decide (base ≤ digit base c) then [] else digit base c :: digits base x
  end.

Definition value (base n : Z) (ds : list Z) : Z := foldl (λ n v, n * base + v) n ds.

(** The sign, the base, the digits and the place where they begin. *)
Definition numeral (prefix : Z → list Z → option (Z * list Z)) (base : Z) (x : list Z) : option (bool * Z * list Z * Z) :=
  let '(neg, x1) := signed_by (drop_white x) in
  '(b, x2) ← prefix base x1;
  Some (neg, b, digits b x2, len x - len x2).

(** What a conversion gives: [conv] of the sign and the value. *)
Definition converted (conv : bool → Z → Z) (o : option (bool * Z * list Z * Z)) : Z * Z :=
  match o with
  | None => (0, 0)
  | Some (neg, b, ds, k) => (conv neg (value b 0 ds), if decide (ds = []) then 0 else k + len ds)
  end.

(** The nearest number in range, and that of an unsigned type. *)
Definition clamp (lo hi : Z) (neg : bool) (v : Z) : Z := Z.max lo (Z.min hi (if neg then - v else v)).
Definition clamp_unsigned (hi : Z) (wrap : Z → Z) (neg : bool) (v : Z) : Z :=
  if decide (hi < v) then hi else if neg then wrap (- v) else v.

(** ** The digits *)

Lemma digit_nonneg base c : 0 ≤ base → 0 ≤ digit base c.
Proof. unfold digit. intros. repeat case_decide; lia. Qed.

Lemma digit_nul base : digit base 0 = base.
Proof. done. Qed.

Lemma digits_ok base x : 0 ≤ base → Forall (λ v, 0 ≤ v < base) (digits base x).
Proof.
  intros Hb. induction x as [|c x IH]; cbn; [constructor |]. case_decide; constructor; [| done].
  pose proof (digit_nonneg base c Hb). lia.
Qed.

Lemma value_mono base n ds : 1 ≤ base → 0 ≤ n → Forall (λ v, 0 ≤ v < base) ds → n ≤ value base n ds.
Proof.
  intros Hb Hn Hd. revert n Hn. induction Hd as [|v ds Hv _ IH]; intros n Hn; cbn; [lia |].
  fold (value base (n * base + v) ds). specialize (IH (n * base + v)). nia.
Qed.

(** A type of integers, with its greatest, in which one digit too many is seen. *)
Record detects (wrap : Z → Z) (MAX : Z) : Prop := {
  detects_fits n : 0 ≤ n ≤ MAX → wrap n = n;
  detects_over n base v : 1 ≤ base ≤ 36 → 0 ≤ n → n * base ≤ MAX → 0 ≤ v < base → MAX < n * base + v → wrap (n * base + v) < n
}.

Section Digits.
Context (wrap : Z → Z) (MAX base : Z) (Hw : detects wrap MAX) (Hb : 1 ≤ base ≤ 36) (Hmax : 0 ≤ MAX).

Lemma digits_loop_over x z : ∀ n k,
  ∃ n', digits_loop wrap base (MAX / base) (x ++ 0 :: z) n true k = Ok (n', true, k + len (digits base x)).
Proof.
  induction x as [|c x IH]; intros n k; cbn [app digits_loop digits].
  - rewrite digit_nul, decide_True by lia. exists n. cbn. by rewrite Z.add_0_r.
  - case_decide; [exists n; cbn; by rewrite Z.add_0_r |]. destruct (IH (wrap (n * base + digit base c)) (k + 1)) as [n' IHn].
    exists n'. cbn [orb]. rewrite IHn. do 2 f_equal. cbn [length]. lia.
Qed.

Lemma digits_loop_value x z : ∀ n k, 0 ≤ n ≤ MAX →
  ∃ n', digits_loop wrap base (MAX / base) (x ++ 0 :: z) n false k =
      Ok (n', bool_decide (MAX < value base n (digits base x)), k + len (digits base x)) ∧
    (value base n (digits base x) ≤ MAX → n' = value base n (digits base x)).
Proof.
  induction x as [|c x IH]; intros n k Hn; cbn [app digits_loop digits].
  { rewrite digit_nul, decide_True by lia. exists n. cbn. rewrite Z.add_0_r, bool_decide_eq_false_2 by lia. done. }
  case_decide as Hd. { exists n. cbn. rewrite Z.add_0_r, bool_decide_eq_false_2 by lia. done. }
  cbn [orb value foldl]. fold (value base (n * base + digit base c) (digits base x)).
  set (v := digit base c) in *. assert (0 ≤ v < base) as Hv by (pose proof (digit_nonneg base c ltac:(lia)); lia).
  replace (k + len (v :: digits base x)) with (k + 1 + len (digits base x)) by (cbn [length]; lia).
  destruct (decide (n * base + v ≤ MAX)) as [Hle|Hgt].
  - rewrite (detects_fits _ _ Hw) by nia.
    rewrite (bool_decide_eq_false_2 (MAX / base < n)) by (pose proof (Z.div_le_lower_bound MAX base n); nia).
    rewrite (bool_decide_eq_false_2 (_ < n)) by nia. apply IH. nia.
  - assert (MAX < value base (n * base + v) (digits base x)) as Hover.
    { pose proof (value_mono base (n * base + v) (digits base x) ltac:(lia) ltac:(nia) (digits_ok base x ltac:(lia))). lia. }
    assert (bool_decide (MAX / base < n) || bool_decide (wrap (n * base + v) < n) = true) as ->.
    { destruct (decide (MAX / base < n)) as [?|Hm]; [by rewrite bool_decide_eq_true_2 |].
      rewrite (bool_decide_eq_true_2 (wrap _ < n)); [by rewrite orb_true_r |].
      apply (detects_over _ _ Hw); [done | lia | | done | lia]. pose proof (Z.mul_div_le MAX base). nia. }
    destruct (digits_loop_over x z (wrap (n * base + v)) (k + 1)) as [n' ->].
    exists n'. rewrite bool_decide_eq_true_2 by done. split; [done | lia].
Qed.
End Digits.

Lemma signed_small w z : 0 < w → - 2 ^ (w - 1) ≤ z < 2 ^ (w - 1) → signed w z = z.
Proof.
  intros Hw Hz. unfold signed. replace (2 ^ w) with (2 * 2 ^ (w - 1)) by (rewrite <- Z.pow_succ_r by lia; f_equal; lia).
  destruct (decide (0 ≤ z)).
  - rewrite Z.mod_small by lia. by rewrite decide_True by lia.
  - rewrite <- (Z.mod_add z 1), Z.mod_small by lia. rewrite decide_False by lia. lia.
Qed.

Lemma s32_detects : detects s32 LONG_MAX.
Proof.
  unfold LONG_MAX. split.
  - intros n Hn. unfold s32, signed. rewrite Z.mod_small by lia. by rewrite decide_True by lia.
  - intros n base v Hb Hn Hnb Hv Hov. unfold s32, signed. rewrite Z.mod_small by lia. rewrite decide_False by lia. lia.
Qed.

Lemma s64_detects : detects s64 VLONG_MAX.
Proof.
  unfold VLONG_MAX. change (2 ^ 63 - 1) with 9223372036854775807. split.
  - intros n Hn. unfold s64, signed. rewrite Z.mod_small by lia. by rewrite decide_True by lia.
  - intros n base v Hb Hn Hnb Hv Hov. unfold s64, signed. rewrite Z.mod_small by lia. rewrite decide_False by lia. lia.
Qed.

Lemma u32_detects : detects u32 ULONG_MAX.
Proof.
  unfold ULONG_MAX. split.
  - intros n Hn. apply Z.mod_small. lia.
  - intros n base v Hb Hn Hnb Hv Hov. unfold u32. rewrite <- (Z.mod_add _ (-1)), Z.mod_small by lia.
    destruct (decide (n ≤ 34)); [nia | lia].
Qed.

(** ** What comes before the digits *)

Lemma skip_white_spec x z : ∀ o, skip_white (x ++ 0 :: z) o = Ok (drop_white x ++ 0 :: z, o + (len x - len (drop_white x))).
Proof.
  induction x as [|c x IH]; intros o; cbn [app skip_white drop_white].
  - change (is_white 0) with false. cbn. f_equal. f_equal. lia.
  - destruct (is_white c).
    + rewrite IH. do 2 f_equal. cbn [length]. lia.
    + do 2 f_equal. lia.
Qed.

Lemma drop_white_ok x : str_ok x → str_ok (drop_white x).
Proof. induction 1 as [|c x Hc Hx IH]; cbn; [constructor |]. destruct (is_white c); [done | by constructor]. Qed.

Lemma sign_spec x z o : sign (x ++ 0 :: z) o = Ok (let '(neg, x') := signed_by x in (neg, x' ++ 0 :: z, o + (len x - len x'))).
Proof.
  unfold sign, signed_by. destruct x as [|c x]; cbn [app peek lookup list_lookup res_of_option mbind res_bind].
  - cbn. by rewrite Z.add_0_r.
  - cbn. case_decide; cbn [length]; do 2 f_equal; lia.
Qed.

Lemma signed_by_ok x : str_ok x → str_ok (signed_by x).2.
Proof. intros [|c x' Hc Hx]; cbn; [constructor |]. case_decide; cbn; [done | by constructor]. Qed.

(** The outcome of a getbase: that of [prefix]. *)
Definition prefix_is (getb : Z → list Z → Z → res (option (Z * list Z * Z))) (prefix : Z → list Z → option (Z * list Z)) : Prop :=
  ∀ base x z o, str_ok x → getb base (x ++ 0 :: z) o =
    Ok (match prefix base x with None => None | Some (b, x') => Some (b, x' ++ 0 :: z, o + (len x - len x')) end) ∧
    match prefix base x with None => True | Some (b, _) => 1 ≤ b ≤ 36 end.

(** The two halves of [prefix_is] in one of the cases. *)
Ltac prefix_case :=
  repeat first [case_decide; try (exfalso; lia) | case_bool_decide; try (exfalso; lia) | progress cbn]; destruct_and?; subst; try lia; try congruence;
  try (split; [| lia];
    match goal with |- Ok (Some (_, _, ?k)) = Ok (Some (_, _, ?k')) => replace k' with k by (cbn [length]; lia); reflexivity | _ => reflexivity end).

Lemma getbase_prefix : prefix_is getbase prefix.
Proof.
  intros base x z o Hx. unfold getbase, is_x, prefix, after_0x.
  destruct (decide (base = 0)) as [->|H0]; [| destruct (decide (base = 16)) as [->|H16]].
  all: destruct x as [|c [|c1 x]]; cbn; prefix_case.
Qed.

Lemma hex_digit c : (48 ≤ c ≤ 57 ∨ 97 ≤ c ≤ 102 ∨ 65 ≤ c ≤ 70) ↔ digit 16 c < 16.
Proof. unfold digit. repeat case_decide; lia. Qed.

Lemma getbase_ul_prefix : prefix_is getbase_ul prefix_ul.
Proof.
  intros base x z o Hx. unfold getbase_ul, prefix_ul, after_0x.
  destruct (decide (base = 0)) as [->|H0]; [| destruct (decide (base = 16)) as [->|H16]].
  all: destruct x as [|c [|c1 [|c2 x]]]; cbn; prefix_case.
  all: pose proof (hex_digit c2); tauto.
Qed.

(** ** The conversions *)

Lemma strto_spec wrap getb pre MAX over conv x z base :
  detects wrap MAX → 0 ≤ MAX → prefix_is getb pre →
  (∀ neg v, 0 ≤ v ≤ MAX → (if neg : bool then wrap (- v) else v) = conv neg v) → (∀ neg v, MAX < v → over neg = conv neg v) →
  str_ok x → strto wrap getb MAX over (x ++ 0 :: z) base = Ok (converted conv (numeral pre base x)).
Proof.
  intros Hw Hmax Hpre Hin Hover Hx. unfold strto, numeral. rewrite skip_white_spec. cbn [mbind res_bind].
  rewrite sign_spec. pose proof (signed_by_ok _ (drop_white_ok x Hx)) as Hx1. destruct (signed_by (drop_white x)) as [neg x1] eqn:Es.
  cbn [mbind res_bind snd] in *. destruct (Hpre base x1 z (0 + (len x - len (drop_white x)) + (len (drop_white x) - len x1)) Hx1) as [-> Hb].
  destruct (pre base x1) as [[b x2]|]; cbn [mbind res_bind option_bind]; [| done]. rewrite decide_False by lia.
  rewrite Z.quot_div_nonneg by lia. rewrite (detects_fits _ _ Hw) by (split; [by apply Z.div_pos; lia | apply Z.div_le_upper_bound; nia]).
  destruct (digits_loop_value wrap MAX b Hw Hb Hmax x2 z 0 0) as (n & -> & Hn); [lia |]. cbn [mbind res_bind converted]. do 2 f_equal.
  - pose proof (value_mono b 0 (digits b x2) ltac:(lia) ltac:(lia) (digits_ok b x2 ltac:(lia))) as Hv0.
    case_bool_decide as Hov; [by apply Hover |]. rewrite Hn by lia. apply Hin. lia.
  - destruct (digits b x2) as [|v ds]; [done |]. rewrite decide_False by (cbn; lia). rewrite decide_False by done. cbn [length]. lia.
Qed.

(** C14: The conversions give the number that the string begins with.  For every string and base, strtol and strtoll give the value of its sign and digits, or the end of the range of long and vlong it lies beyond, strtoul the value or the greatest ulong, negated in its type after a minus sign; and the place after the digits, or the start of the string when there are none. *)
Theorem conversions_spec x z base :
  str_ok x →
  strtol (x ++ 0 :: z) base = Ok (converted (clamp LONG_MIN LONG_MAX) (numeral prefix base x)) ∧
  strtoll (x ++ 0 :: z) base = Ok (converted (clamp VLONG_MIN VLONG_MAX) (numeral prefix base x)) ∧
  strtoul (x ++ 0 :: z) base = Ok (converted (clamp_unsigned ULONG_MAX u32) (numeral prefix_ul base x)).
Proof.
  intros Hx. split_and!.
  - apply strto_spec; [apply s32_detects | done | apply getbase_prefix | | | done];
      unfold clamp, LONG_MAX, LONG_MIN; intros [] v Hv; try lia. unfold s32. rewrite signed_small; [lia | done | cbn; lia].
  - apply strto_spec; [apply s64_detects | done | apply getbase_prefix | | | done];
      unfold clamp, VLONG_MAX, VLONG_MIN; change (2 ^ 63) with 9223372036854775808; intros [] v Hv; try lia.
    unfold s64. rewrite signed_small; [lia | done | cbn; lia].
  - apply strto_spec; [apply u32_detects | done | apply getbase_ul_prefix | | | done];
      unfold clamp_unsigned; intros [] v Hv; by case_decide; try lia.
Qed.

(** -0x1G: a sign, a prefix, one digit. *)
Lemma conversions_spec_witness :
  strtol ([45; 48; 120; 49; 71] ++ 0 :: [7]) 0 = Ok (-1, 4) ∧ strtoll ([45; 48; 120; 49; 71] ++ 0 :: [7]) 0 = Ok (-1, 4) ∧
  strtoul ([45; 48; 120; 49; 71] ++ 0 :: [7]) 0 = Ok (4294967295, 4).
Proof. apply (conversions_spec [45; 48; 120; 49; 71] [7] 0). by_decide. Defined.

(** strtoull takes the greatest uvlong for 2^63 and divides it as a negative number, so that
    0x28888888888888888, of seventeen digits, is not seen to overflow; where it is seen, half
    of the range is returned. *)
Example strtoull_overflows :
  strtoull ([48; 120; 50] ++ replicate 16 56 ++ [0]) 0 = Ok (0x8888888888888888, 19) ∧
  strtoull ([48; 120; 49] ++ replicate 16 48 ++ [0]) 0 = Ok (0x8000000000000000, 19).
Proof. vm_compute. done. Qed.

(** 0x alone is nothing to strtol, and a zero to strtoul. *)
Example prefix_alone : strtol [48; 120; 0] 0 = Ok (0, 0) ∧ strtoul [48; 120; 0] 0 = Ok (0, 1).
Proof. done. Qed.

(** atol neither holds values to the range nor stops at it. *)
Example atol_wraps : atol [52; 50; 57; 52; 57; 54; 55; 50; 57; 55; 0] = Ok 1 ∧ atol [45; 32; 48; 49; 49; 0] = Ok (-9).
Proof. done. Qed.
