(* ===== verification/Qsort.v ===== *)
(** * Qsort: sorting an array in place

    sys/src/libc/port/qsort.c.  Memory is a list of bytes and a pointer a place in it; the
    memory begins at an address that a long can have.  [cmp] sees the [es] bytes at the
    pointers it is given, and returns an int.  The loops take fuel, and qsorts the levels
    it may still call itself: qsort gives it one more than the elements, as the part it
    calls itself for is the larger one, and can be all but one of them. *)

From S2P Require Import Prelude.

(** [n] bytes at [p], read or written; outside the memory this is [Ub]. *)
Definition load (m : list Z) (p n : Z) : res (list Z) :=
  if decide (0 ≤ p ∧ p + n ≤ len m) then Ok (takeZ n (dropZ p m)) else Ub.

Definition store (m : list Z) (p : Z) (c : list Z) : res (list Z) :=
  if decide (0 ≤ p ∧ p + len c ≤ len m) then Ok (takeZ p m ++ c ++ dropZ (p + len c) m) else Ub.

Definition LONG : Z := 4.

(** The loop of swapb and swapi, which go by bytes and by longs. *)
Fixpoint swap_loop (fuel : nat) (w : Z) (m : list Z) (i j es : Z) : res (list Z) :=
  match fuel with
  | O => Ub
  | S fuel =>
      c ← load m i w;
      d ← load m j w;
      m ← store m i d;
      m ← store m j c;
      let es := es - w in
      if decide (es ≠ 0) then swap_loop fuel w m (i + w) (j + w) es else Ok m
  end.

Definition swapb (m : list Z) (i j es : Z) : res (list Z) := swap_loop (Z.to_nat es) 1 m i j es.

Definition swapi (m : list Z) (i j es : Z) : res (list Z) := swap_loop (Z.to_nat es) LONG m i j es.

Record Sort : Type := mkSort {
  so_cmp : list Z → list Z → Z;
  so_swap : list Z → Z → Z → Z → res (list Z);
  so_es : Z
}.

Section Sorting.
Variable s : Sort.
Abbreviation es := (so_es s).

(** [p->cmp(i, j)] *)
Definition compare (m : list Z) (i j : Z) : res Z :=
  x ← load m i es; y ← load m j es; Ok (so_cmp s x y).

Definition pivot (m : list Z) (a n : Z) : res Z :=
  let j := n / 6 * es in
  let pi := a + j in
  let j := j + j in
  let pj := pi + j in
  let pk := pj + j in
  ij ← compare m pi pj;
  if decide (ij < 0) then
    ik ← compare m pi pk;
    if decide (ik < 0) then
      jk ← compare m pj pk;
      Ok (if decide (jk < 0) then pj else pk)
    else Ok pi
  else
    jk ← compare m pj pk;
    if decide (jk < 0) then
      ik ← compare m pi pk;
      Ok (if decide (ik < 0) then pi else pk)
    else Ok pj.

(** [do pi += es; while(pi < pn && p->cmp(pi, a) < 0)] *)
Fixpoint scan_up (fuel : nat) (m : list Z) (a pn pi : Z) : res Z :=
  match fuel with
  | O => Ub
  | S fuel =>
      let pi := pi + es in
      if decide (pi < pn) then
        c ← compare m pi a;
        if decide (c < 0) then scan_up fuel m a pn pi else Ok pi
      else Ok pi
  end.

(** [do pj -= es; while(pj > a && p->cmp(pj, a) > 0)] *)
Fixpoint scan_down (fuel : nat) (m : list Z) (a pj : Z) : res Z :=
  match fuel with
  | O => Ub
  | S fuel =>
      let pj := pj - es in
      if decide (a < pj) then
        c ← compare m pj a;
        if decide (0 < c) then scan_down fuel m a pj else Ok pj
      else Ok pj
  end.

(** The loop in the middle of qsorts: the memory and [pj] after it. *)
Fixpoint partition_loop (fuel : nat) (m : list Z) (a pn pi pj : Z) : res (list Z * Z) :=
  match fuel with
  | O => Ub
  | S fuel =>
      pi ← scan_up (S (length m)) m a pn pi;
      pj ← scan_down (S (length m)) m a pj;
      if decide (pj < pi) then Ok (m, pj) else
      m ← so_swap s m pi pj es;
      partition_loop fuel m a pn pi pj
  end.

(** The first half of a turn: the element at [j] is where it belongs. *)
Definition partition (m : list Z) (a n : Z) : res (list Z * Z) :=
  pi ← (if decide (10 < n) then pivot m a n else Ok (a + Z.shiftr n 1 * es));
  m ← so_swap s m a pi es;
  '(m, pj) ← partition_loop (S (length m)) m a (a + n * es) a (a + n * es);
  m ← so_swap s m a pj es;
  Ok (m, (pj - a) / es).

(** The loop of qsorts, which calls itself as [rec]. *)
Fixpoint qsorts_loop (rec : list Z → Z → Z → res (list Z)) (fuel : nat) (m : list Z) (a n : Z) : res (list Z) :=
  match fuel with
  | O => Ub
  | S fuel =>
      if decide (1 < n) then
        '(m, j) ← partition m a n;
        let n := n - (j + 1) in
        let pj := a + (j + 1) * es in
        if decide (n ≤ j) then m ← rec m a j; qsorts_loop rec fuel m pj n
        else m ← rec m pj n; qsorts_loop rec fuel m a j
      else Ok m
  end.

Fixpoint qsorts (depth : nat) (m : list Z) (a n : Z) : res (list Z) :=
  match depth with
  | O => Ub
  | S depth => qsorts_loop (qsorts depth) (S (Z.to_nat n)) m a n
  end.
End Sorting.

Definition qsort (m : list Z) (va n es : Z) (cmp : list Z → list Z → Z) : res (list Z) :=
  let swap := if decide (Z.lor va es mod LONG ≠ 0) then swapb else swapi in
  qsorts (mkSort cmp swap es) (S (Z.to_nat (u32 n))) m va (u32 n).
