(* ===== verification/QsortProps.v ===== *)
(** * QsortProps: qsort sorts

    The memory is that of an array: its elements, with other bytes before and after them.
    The lemmas first show that the two swaps exchange elements of any size, then what each
    loop does to a list of elements, for any comparison; only the order of the result asks
    for one that is an order. *)

From stdpp Require Import sorting.
From S2P Require Import Prelude Qsort.

(** ** Bytes *)

Lemma load_at P x Q p n : p = len P → n = len x → load (P ++ x ++ Q) p n = Ok x.
Proof.
  intros -> ->. unfold load. rewrite decide_True by (rewrite !length_app; lia).
  by rewrite dropZ_app, takeZ_app.
Qed.

Lemma store_at P x y Q p : p = len P → len y = len x → store (P ++ x ++ Q) p y = Ok (P ++ y ++ Q).
Proof.
  intros -> Hl. unfold store. rewrite decide_True by (rewrite !length_app; lia).
  rewrite takeZ_app by done. by rewrite (app_assoc P x Q), dropZ_app by (rewrite length_app; lia).
Qed.

(** A block of [w * k] bytes, its first [w] apart. *)
Lemma block_head (w k : nat) (x : list Z) :
  length x = (w * S k)%nat → ∃ c x', x = c ++ x' ∧ length c = w ∧ length x' = (w * k)%nat.
Proof. rewrite Nat.mul_succ_r. intros Hl. exists (take w x), (drop w x). rewrite take_drop, length_take, length_drop. split_and!; [done | lia..]. Qed.

Section Swap.
Variables (w : nat) (Hw : (0 < w)%nat).

Lemma swap_loop_blocks k : ∀ fuel P x M y Q,
  (k < fuel)%nat → length x = (w * S k)%nat → length y = (w * S k)%nat →
  swap_loop fuel (Z.of_nat w) (P ++ x ++ M ++ y ++ Q) (len P) (len P + len x + len M) (len x) =
    Ok (P ++ y ++ M ++ x ++ Q).
Proof.
  induction k as [|k IH]; intros [|fuel] P x M y Q Hf Hx Hy; try lia;
    destruct (block_head w _ x Hx) as (c & x' & -> & Hc & Hx'); destruct (block_head w _ y Hy) as (d & y' & -> & Hd & Hy');
    cbn [swap_loop]; rewrite <- !app_assoc.
  all: rewrite (load_at P c _ (len P)) by lia; cbn [mbind res_bind].
  all: replace (P ++ c ++ x' ++ M ++ d ++ y' ++ Q) with ((P ++ c ++ x' ++ M) ++ d ++ y' ++ Q) by (by rewrite <- !app_assoc).
  all: rewrite (load_at _ d) by (rewrite ?length_app; lia); cbn [mbind res_bind].
  all: rewrite <- !app_assoc, (store_at P c d) by lia; cbn [mbind res_bind].
  all: replace (P ++ d ++ x' ++ M ++ d ++ y' ++ Q) with ((P ++ d ++ x' ++ M) ++ d ++ y' ++ Q) by (by rewrite <- !app_assoc).
  all: rewrite (store_at _ d c) by (rewrite ?length_app; lia); cbn [mbind res_bind].
  - destruct x', y'; cbn [length] in *; try lia. rewrite decide_False by (rewrite !length_app; cbn; lia).
    by rewrite <- !app_assoc.
  - rewrite decide_True by (rewrite length_app; lia).
    specialize (IH fuel (P ++ d) x' (M ++ c) y' Q ltac:(lia) ltac:(lia) ltac:(lia)).
    rewrite <- !app_assoc in IH |- *. rewrite !length_app in *.
    replace (len P + Z.of_nat w) with (Z.of_nat (length P + length d)) by lia.
    replace (len P + Z.of_nat (length c + length x') + len M + Z.of_nat w) with (Z.of_nat (length P + length d) + len x' + Z.of_nat (length M + length c)) by lia.
    replace (Z.of_nat (length c + length x') - Z.of_nat w) with (len x') by lia. rewrite IH. by rewrite <- !app_assoc.
Qed.

Lemma swap_loop_self k : ∀ fuel P x Q,
  (k < fuel)%nat → length x = (w * S k)%nat →
  swap_loop fuel (Z.of_nat w) (P ++ x ++ Q) (len P) (len P) (len x) = Ok (P ++ x ++ Q).
Proof.
  induction k as [|k IH]; intros [|fuel] P x Q Hf Hx; try lia;
    destruct (block_head w _ x Hx) as (c & x' & -> & Hc & Hx'); cbn [swap_loop]; rewrite <- !app_assoc.
  all: rewrite (load_at P c _ (len P)) by lia; cbn [mbind res_bind]; rewrite !(store_at P c c) by lia; cbn [mbind res_bind];
    rewrite (store_at P c c) by lia; cbn [mbind res_bind].
  - rewrite decide_False by (rewrite length_app; lia). done.
  - rewrite decide_True by (rewrite length_app; lia). specialize (IH fuel (P ++ c) x' Q ltac:(lia) Hx').
    rewrite <- !app_assoc in IH. rewrite !length_app in *.
    replace (len P + Z.of_nat w) with (Z.of_nat (length P + length c)) by lia.
    replace (Z.of_nat (length c + length x') - Z.of_nat w) with (len x') by lia. done.
Qed.
End Swap.

(** What qsorts needs of a swap of elements of [es] bytes. *)
Class Swaps (es : Z) (swap : list Z → Z → Z → Z → res (list Z)) : Prop := {
  swap_two P x M y Q : len x = es → len y = es →
    swap (P ++ x ++ M ++ y ++ Q) (len P) (len P + es + len M) es = Ok (P ++ y ++ M ++ x ++ Q);
  swap_one P x Q : len x = es → swap (P ++ x ++ Q) (len P) (len P) es = Ok (P ++ x ++ Q)
}.

Lemma swapb_swaps es : 0 < es → Swaps es swapb.
Proof.
  intros Hes. unfold swapb. split.
  - intros P x M y Q Hx Hy. pose proof (swap_loop_blocks 1 ltac:(lia) (Z.to_nat es - 1) (Z.to_nat es) P x M y Q) as H.
    rewrite Hx in H. apply H; lia.
  - intros P x Q Hx. pose proof (swap_loop_self 1 ltac:(lia) (Z.to_nat es - 1) (Z.to_nat es) P x Q) as H.
    rewrite Hx in H. apply H; lia.
Qed.

Lemma swapi_swaps es : 0 < es → es mod LONG = 0 → Swaps es swapi.
Proof.
  intros Hes Hm. unfold swapi, LONG in *. assert (es = 4 * (es / 4)) as He by divlia. split.
  - intros P x M y Q Hx Hy. pose proof (swap_loop_blocks 4 ltac:(lia) (Z.to_nat (es / 4) - 1) (Z.to_nat es) P x M y Q) as H.
    rewrite Hx in H. apply H; lia.
  - intros P x Q Hx. pose proof (swap_loop_self 4 ltac:(lia) (Z.to_nat (es / 4) - 1) (Z.to_nat es) P x Q) as H.
    rewrite Hx in H. apply H; lia.
Qed.

(** ** Elements *)

Section Array.
Variables (s : Sort) (pre post : list Z).
Abbreviation es := (so_es s).
Abbreviation cmp := (so_cmp s).
Context (Hes : 0 < es) `{!Swaps es (so_swap s)}.

(** The memory around an array of the elements [xs], and where the [i]th is. *)
Definition array (xs : list (list Z)) : list Z := pre ++ concat xs ++ post.
Definition place (i : nat) : Z := len pre + Z.of_nat i * es.
Definition sized : list (list Z) → Prop := Forall (λ x, len x = es).

Lemma len_concat xs : sized xs → len (concat xs) = len xs * es.
Proof. induction 1 as [|x xs Hx _ IH]; cbn [concat]; [done |]. rewrite length_app, Nat2Z.inj_add, IH. cbn [length]. lia. Qed.

Lemma array_split l x r : sized l →
  array (l ++ x :: r) = (pre ++ concat l) ++ x ++ concat r ++ post ∧ len (pre ++ concat l) = place (length l).
Proof.
  intros Hl. unfold array, place. rewrite length_app, Nat2Z.inj_add, len_concat by done. split; [| done].
  rewrite concat_app. cbn [concat]. by rewrite <- !app_assoc.
Qed.

Lemma load_elem xs i x : sized xs → xs !! i = Some x → load (array xs) (place i) es = Ok x.
Proof.
  intros Hs Hi. destruct (list_elem_of_split_length xs i x Hi) as (l & r & -> & ->).
  apply Forall_app in Hs as [Hl Hx]. apply Forall_cons_iff in Hx as [Hx _].
  destruct (array_split l x r Hl) as [-> Hp]. by apply load_at.
Qed.

Lemma compare_elems xs i j x y : sized xs → xs !! i = Some x → xs !! j = Some y →
  compare s (array xs) (place i) (place j) = Ok (cmp x y).
Proof. intros Hs Hi Hj. unfold compare. rewrite (load_elem xs i x) by done. cbn. by rewrite (load_elem xs j y). Qed.

(** Two elements change places. *)
Lemma swap_elems l x m y r : sized (l ++ x :: m ++ y :: r) →
  so_swap s (array (l ++ x :: m ++ y :: r)) (place (length l)) (place (length l + S (length m))) es =
    Ok (array (l ++ y :: m ++ x :: r)).
Proof.
  intros Hs. apply Forall_app in Hs as [Hl Hs]. apply Forall_cons_iff in Hs as [Hx Hs].
  apply Forall_app in Hs as [Hm Hs]. apply Forall_cons_iff in Hs as [Hy _].
  pose proof (swap_two (pre ++ concat l) x (concat m) y (concat r ++ post) Hx Hy) as H.
  destruct (array_split l x (m ++ y :: r) Hl) as [-> Hp]. destruct (array_split l y (m ++ x :: r) Hl) as [-> _].
  replace (place (length l + S (length m))) with (len (pre ++ concat l) + es + len (concat m)).
  2: { rewrite Hp, len_concat by done. unfold place. lia. }
  rewrite <- Hp. set (B := pre ++ concat l) in *. rewrite !concat_app. cbn [concat]. by rewrite <- !app_assoc.
Qed.

Lemma swap_elem l x r : sized (l ++ x :: r) →
  so_swap s (array (l ++ x :: r)) (place (length l)) (place (length l)) es = Ok (array (l ++ x :: r)).
Proof.
  intros Hs. apply Forall_app in Hs as [Hl Hs]. apply Forall_cons_iff in Hs as [Hx _].
  destruct (array_split l x r Hl) as [-> Hp]. rewrite <- Hp. by apply swap_one.
Qed.

Lemma place_lt i j : place i < place j ↔ (i < j)%nat.
Proof. unfold place. nia. Qed.

Lemma place_S i : place (S i) = place i + es.
Proof. unfold place. lia. Qed.

Lemma place_0 : place 0 = len pre.
Proof. unfold place. lia. Qed.

Lemma place_array (xs : list (list Z)) : len pre + len xs * es = place (length xs).
Proof. done. Qed.

Lemma elem_after (p : list Z) L y R n : n = length L → (p :: L ++ y :: R) !! S n = Some y.
Proof. intros ->. by apply (list_lookup_middle (p :: L)). Qed.

(** ** The scans *)

Lemma scan_up_elems p U : ∀ fuel L R,
  sized (p :: L ++ U ++ R) → Forall (λ x, cmp x p < 0) U →
  match R with [] => True | y :: _ => 0 ≤ cmp y p end → (length U < fuel)%nat →
  scan_up s fuel (array (p :: L ++ U ++ R)) (place 0) (place (S (length (L ++ U ++ R)))) (place (length L)) =
    Ok (place (S (length L + length U))).
Proof.
  induction U as [|x U IH]; intros [|fuel] L R Hs HU HR Hf; try (cbn in Hf; lia); cbn [scan_up]; rewrite <- place_S.
  - cbn [app] in *. rewrite Nat.add_0_r. destruct R as [|y R].
    { by rewrite app_nil_r, decide_False by lia. }
    rewrite decide_True by (apply place_lt; rewrite length_app; cbn; lia).
    rewrite (compare_elems _ _ _ y p) by (done || by apply elem_after). cbn.
    by rewrite decide_False by lia.
  - apply Forall_cons_iff in HU as [Hx HU]. cbn [app] in *.
    rewrite decide_True by (apply place_lt; rewrite length_app; cbn; lia).
    rewrite (compare_elems _ _ _ x p) by (done || by apply elem_after). cbn [mbind res_bind].
    rewrite decide_True by done. specialize (IH fuel (L ++ [x]) R). rewrite <- app_assoc in IH. cbn [app] in IH.
    rewrite (length_app L [x]) in IH. cbn [length] in *. rewrite Nat.add_1_r in IH.
    rewrite IH by (done || lia). do 2 f_equal. lia.
Qed.

Lemma scan_down_elems p D : ∀ fuel L R,
  sized (p :: L ++ D ++ R) → Forall (λ x, 0 < cmp x p) D →
  match list.last L with Some y => cmp y p ≤ 0 | None => True end → (length D < fuel)%nat →
  scan_down s fuel (array (p :: L ++ D ++ R)) (place 0) (place (S (length L + length D))) = Ok (place (length L)).
Proof.
  induction D as [|x D IH] using rev_ind; intros [|fuel] L R Hs HD HL Hf; try (cbn in Hf; lia); cbn [scan_down].
  - cbn [length app] in *. rewrite Nat.add_0_r, place_S. replace (place (length L) + es - es) with (place (length L)) by lia.
    destruct L as [|y L _] using rev_ind; [by rewrite decide_False by (cbn; lia) |].
    rewrite last_snoc in HL. rewrite length_app, Nat.add_1_r in *. rewrite decide_True by (apply place_lt; lia).
    rewrite <- app_assoc in *. cbn [app] in *.
    rewrite (compare_elems _ _ _ y p) by (done || by apply elem_after). cbn.
    by rewrite decide_False by lia.
  - rewrite length_app, Nat.add_1_r in *. apply Forall_app in HD as [HD Hx%Forall_cons_iff].
    rewrite Nat.add_succ_r, place_S. replace (place (S (length L + length D)) + es - es) with (place (S (length L + length D))) by lia.
    rewrite decide_True by (apply place_lt; lia). rewrite <- (app_assoc D) in *. cbn [app] in *.
    rewrite (compare_elems _ _ _ x p) by (done || by rewrite app_assoc; apply elem_after; rewrite length_app).
    cbn [mbind res_bind]. rewrite decide_True by tauto. apply IH; (done || lia).
Qed.

(** A list up to the first element without a property, and after the last one. *)
Lemma split_front (P : list Z → Prop) `{∀ x, Decision (P x)} l :
  ∃ u r, l = u ++ r ∧ Forall P u ∧ match r with [] => True | y :: _ => ¬ P y end.
Proof.
  induction l as [|x l (u & r & -> & Hu & Hr)]; [by exists [], [] |]. destruct (decide (P x)).
  - exists (x :: u), r. split_and!; [done | by constructor | done].
  - by exists [], (x :: u ++ r).
Qed.

Lemma split_back (P : list Z → Prop) `{∀ x, Decision (P x)} l :
  ∃ u d, l = u ++ d ∧ Forall P d ∧ match list.last u with None => True | Some y => ¬ P y end.
Proof.
  induction l as [|x l (u & d & -> & Hd & Hu)] using rev_ind; [by exists [], [] |]. destruct (decide (P x)).
  - exists u, (d ++ [x]). split_and!; [by rewrite app_assoc | by apply Forall_app_2; [| constructor] | done].
  - exists ((u ++ d) ++ [x]), []. rewrite last_snoc, app_nil_r. done.
Qed.

Lemma last_Forall (P : list Z → Prop) l : Forall P l → match list.last l with None => True | Some y => P y end.
Proof. destruct l as [|x l _] using rev_ind; [done |]. rewrite last_snoc. intros [_ H]%Forall_app. by inversion H. Qed.

Lemma last_app_Forall (P : list Z → Prop) l u :
  match list.last l with None => True | Some y => P y end → Forall P u →
  match list.last (l ++ u) with None => True | Some y => P y end.
Proof.
  destruct u as [|x u _] using rev_ind; [by rewrite app_nil_r |]. rewrite app_assoc, last_snoc.
  intros _ [_ H]%Forall_app. by inversion H.
Qed.

(** ** The loop of a partition *)

(** What it makes of [p :: L ++ M ++ R], when [L] and [R] have been dealt with. *)
Definition parted (p : list Z) (xs : list (list Z)) (o : res (list Z * Z)) : Prop :=
  ∃ L R, o = Ok (array (p :: L ++ R), place (length L)) ∧ L ++ R ≡ₚ xs ∧
    Forall (λ x, cmp x p ≤ 0) L ∧ Forall (λ x, 0 ≤ cmp x p) R.

Lemma lt_le p U : Forall (λ x, cmp x p < 0) U → Forall (λ x, cmp x p ≤ 0) U.
Proof. apply Forall_impl. cbn. lia. Qed.

Lemma gt_ge p U : Forall (λ x, 0 < cmp x p) U → Forall (λ x, 0 ≤ cmp x p) U.
Proof. apply Forall_impl. cbn. lia. Qed.

Lemma length_array xs : sized xs → (length xs ≤ length (array xs))%nat.
Proof. intros Hs. unfold array. rewrite !length_app. pose proof (len_concat xs Hs). nia. Qed.

(** One turn: the scans meet, having passed [U] and [D], or stop at [x] and at [y]. *)
Lemma turn_meets fuel p L U D R :
  sized (p :: L ++ (U ++ D) ++ R) → Forall (λ x, cmp x p < 0) U → Forall (λ x, 0 < cmp x p) D →
  Forall (λ x, cmp x p ≤ 0) L → Forall (λ x, 0 ≤ cmp x p) R →
  partition_loop s (S fuel) (array (p :: L ++ (U ++ D) ++ R)) (place 0) (place (S (length (L ++ (U ++ D) ++ R))))
    (place (length L)) (place (S (length L + length (U ++ D)))) = Ok (array (p :: (L ++ U) ++ D ++ R), place (length (L ++ U))).
Proof.
  intros Hs HU HD HL HR. cbn [partition_loop].
  assert (Forall (λ x, 0 ≤ cmp x p) (D ++ R)) as HDR by (apply Forall_app_2; [by apply gt_ge | done]).
  pose proof (length_array _ Hs) as Hfuel. cbn [length] in Hfuel. rewrite !length_app in Hfuel.
  replace (L ++ (U ++ D) ++ R) with (L ++ U ++ D ++ R) in * by (by rewrite <- !app_assoc).
  rewrite scan_up_elems; [| done | done | destruct (D ++ R); [done | by inversion HDR] |].
  2: { lia. }
  cbn [mbind res_bind]. rewrite (app_assoc L U) in *.
  replace (length L + length (U ++ D))%nat with (length (L ++ U) + length D)%nat by (rewrite !length_app; lia).
  rewrite scan_down_elems; [| done | done | |].
  2: { apply last_app_Forall; [by apply last_Forall | by apply lt_le]. }
  2: { lia. }
  cbn [mbind res_bind]. rewrite decide_True by (apply place_lt; rewrite length_app; lia). done.
Qed.

(** The other turns: they stop at [x], and at the last element of [x :: W]. *)
Lemma turn_stops fuel p L U x W D R :
  sized (p :: L ++ (U ++ (x :: W) ++ D) ++ R) → Forall (λ x, cmp x p < 0) U → Forall (λ x, 0 < cmp x p) D →
  0 ≤ cmp x p → match list.last (x :: W) with None => True | Some y => cmp y p ≤ 0 end →
  partition_loop s (S fuel) (array (p :: L ++ (U ++ (x :: W) ++ D) ++ R)) (place 0)
    (place (S (length (L ++ (U ++ (x :: W) ++ D) ++ R)))) (place (length L)) (place (S (length L + length (U ++ (x :: W) ++ D)))) =
  (m ← so_swap s (array (p :: (L ++ U) ++ (x :: W) ++ D ++ R)) (place (S (length (L ++ U)))) (place (length ((L ++ U) ++ x :: W))) es;
   partition_loop s fuel m (place 0) (place (S (length ((L ++ U) ++ (x :: W) ++ D ++ R)))) (place (S (length (L ++ U)))) (place (length ((L ++ U) ++ x :: W)))).
Proof.
  intros Hs HU HD Hx HW. cbn [partition_loop].
  pose proof (length_array _ Hs) as Hfuel. cbn [length] in Hfuel. rewrite !length_app in Hfuel. cbn [length] in Hfuel.
  replace (L ++ (U ++ (x :: W) ++ D) ++ R) with (L ++ U ++ (x :: W) ++ D ++ R) in * by (by rewrite <- !app_assoc).
  rewrite scan_up_elems; [| done.. | lia]. cbn [mbind res_bind].
  replace (length L + length (U ++ (x :: W) ++ D))%nat with (length ((L ++ U) ++ x :: W) + length D)%nat
    by (rewrite !length_app; lia).
  replace (L ++ U ++ (x :: W) ++ D ++ R) with (((L ++ U) ++ (x :: W)) ++ D ++ R) in * by (by rewrite <- !app_assoc).
  rewrite scan_down_elems; [| done | done | | lia].
  2: { by rewrite last_app_cons. }
  cbn [mbind res_bind]. rewrite decide_False by (rewrite place_lt, !length_app; cbn [length]; lia).
  rewrite <- (length_app L U), <- !app_assoc. done.
Qed.

(** Having met at [x], which is as [p], they go past each other. *)
Lemma meet_again fuel p L x R :
  sized (p :: L ++ x :: R) → Forall (λ x, cmp x p ≤ 0) L → Forall (λ x, 0 ≤ cmp x p) R →
  partition_loop s (S fuel) (array (p :: L ++ x :: R)) (place 0) (place (S (length (L ++ x :: R)))) (place (S (length L))) (place (S (length L))) =
    Ok (array (p :: L ++ x :: R), place (length L)).
Proof.
  intros Hs HL HR. cbn [partition_loop].
  pose proof (scan_up_elems p [] (S (length (array (p :: L ++ x :: R)))) (L ++ [x]) R) as Hu.
  rewrite (length_app L [x]), <- !app_assoc in Hu. cbn [app length] in Hu. rewrite Nat.add_0_r, Nat.add_1_r in Hu.
  rewrite Hu; [| done | constructor | destruct R; [done | by inversion HR] | lia]. cbn [mbind res_bind]. clear Hu.
  pose proof (scan_down_elems p [] (S (length (array (p :: L ++ x :: R)))) L (x :: R)) as Hd.
  cbn [app length] in Hd. rewrite Nat.add_0_r in Hd.
  rewrite Hd; [| done | constructor | by apply last_Forall | lia]. cbn [mbind res_bind].
  by rewrite decide_True by (apply place_lt; lia).
Qed.

Lemma partition_loop_parted p : ∀ fuel M L R,
  sized (p :: L ++ M ++ R) → (length M < fuel)%nat → Forall (λ x, cmp x p ≤ 0) L → Forall (λ x, 0 ≤ cmp x p) R →
  parted p (L ++ M ++ R) (partition_loop s fuel (array (p :: L ++ M ++ R)) (place 0) (place (S (length (L ++ M ++ R))))
    (place (length L)) (place (S (length L + length M)))).
Proof.
  induction fuel as [|fuel IH]; intros M L R Hs Hf HL HR; [lia |].
  assert (Hmeet : ∀ U D, M = U ++ D → Forall (λ x, cmp x p < 0) U → Forall (λ x, 0 < cmp x p) D →
    parted p (L ++ M ++ R) (partition_loop s (S fuel) (array (p :: L ++ M ++ R)) (place 0) (place (S (length (L ++ M ++ R))))
      (place (length L)) (place (S (length L + length M))))).
  { intros U D -> HU HD. rewrite turn_meets by done. exists (L ++ U), (D ++ R). split_and!; [done | by rewrite <- !app_assoc | |].
    - apply Forall_app_2; [done | by apply lt_le].
    - apply Forall_app_2; [by apply gt_ge | done]. }
  destruct (split_front (λ x, cmp x p < 0) M) as (U & T & HM & HU & HT).
  destruct T as [|x M1]; [by apply (Hmeet U []) |].
  destruct (split_back (λ x, 0 < cmp x p) M1) as (V & D & -> & HD & HV).
  destruct V as [|y V _] using rev_ind; [destruct (decide (0 < cmp x p)) |].
  - apply (Hmeet U (x :: D)); [done.. | by constructor].
  - clear Hmeet. cbn [app] in HM. subst M. rewrite length_app in Hf. cbn [length app] in Hf.
    pose proof (turn_stops fuel p L U x [] D R) as Ht. cbn [app] in Ht. rewrite Ht by (done || cbn; lia). clear Ht.
    replace (L ++ (U ++ x :: D) ++ R) with ((L ++ U) ++ x :: D ++ R) in * by (by rewrite <- !app_assoc).
    replace (length ((L ++ U) ++ [x])) with (S (length (L ++ U))) by (rewrite (length_app _ [x]); cbn; lia).
    pose proof (swap_elem (p :: L ++ U) x (D ++ R) Hs) as Hsw. cbn [length app] in Hsw. rewrite Hsw. cbn [mbind res_bind].
    assert (Forall (λ x, cmp x p ≤ 0) (L ++ U)) as HLU by (apply Forall_app_2; [done | by apply lt_le]).
    assert (Forall (λ x, 0 ≤ cmp x p) (D ++ R)) as HDR by (apply Forall_app_2; [by apply gt_ge | done]).
    destruct fuel as [|fuel]; [lia |]. rewrite meet_again by done.
    exists (L ++ U), (x :: D ++ R). split_and!; [done.. | by constructor; [lia |]].
  - clear Hmeet. rewrite last_snoc in HV. subst M. rewrite !length_app in Hf. cbn [length] in Hf. rewrite !length_app in Hf.
    pose proof (turn_stops fuel p L U x (V ++ [y]) D R) as Ht. cbn [app] in Ht. rewrite Ht; [| done.. | lia |]; clear Ht.
    2: { change (x :: V ++ [y]) with ((x :: V) ++ [y]). rewrite last_snoc. lia. }
    replace (L ++ (U ++ x :: (V ++ [y]) ++ D) ++ R) with ((L ++ U) ++ x :: V ++ y :: D ++ R) in *
      by (rewrite <- !app_assoc; cbn [app]; by rewrite <- !app_assoc).
    replace ((L ++ U) ++ x :: (V ++ [y]) ++ D ++ R) with ((L ++ U) ++ x :: V ++ y :: D ++ R) by (by rewrite <- !app_assoc).
    pose proof (swap_elems (p :: L ++ U) x V y (D ++ R) Hs) as Hsw. cbn [length app Nat.add] in Hsw.
    replace (length ((L ++ U) ++ x :: V ++ [y])) with (S (length (L ++ U) + S (length V)))
      by (rewrite (length_app (L ++ U)); cbn [length]; rewrite (length_app V); cbn [length]; lia).
    rewrite Hsw. cbn [mbind res_bind]. clear Hsw.
    assert (Hperm : ((L ++ U) ++ [y]) ++ V ++ x :: D ++ R ≡ₚ (L ++ U) ++ x :: V ++ y :: D ++ R).
    { rewrite <- app_assoc. apply Permutation_app_head. cbn [app]. by rewrite <- Permutation_middle, Permutation_swap, (Permutation_middle V). }
    destruct (IH V ((L ++ U) ++ [y]) (x :: D ++ R)) as (L' & R' & He & Hp & HL' & HR').
    + eapply Permutation_Forall; [| exact Hs]. constructor. by rewrite Hperm.
    + lia.
    + apply Forall_app_2; [apply Forall_app_2; [done | by apply lt_le] | by constructor; [lia |]].
    + constructor; [lia |]. apply Forall_app_2; [by apply gt_ge | done].
    + exists L', R'. split_and!; [| by rewrite Hp, Hperm | done | done]. rewrite <- He.
      replace (((L ++ U) ++ [y]) ++ V ++ x :: D ++ R) with ((L ++ U) ++ y :: V ++ x :: D ++ R) by (by rewrite <- !app_assoc).
      replace (length ((L ++ U) ++ y :: V ++ x :: D ++ R)) with (length ((L ++ U) ++ x :: V ++ y :: D ++ R))
        by (rewrite !(length_app (L ++ U)); cbn [length]; by rewrite !(length_app V)).
      rewrite (length_app (L ++ U) [y]). cbn [length]. by rewrite Nat.add_1_r, Nat.add_succ_r.
Qed.

(** ** A partition *)

Lemma sized_perm xs ys : ys ≡ₚ xs → sized xs → sized ys.
Proof. intros Hp. apply Permutation_Forall. by symmetry. Qed.

Lemma compare_in xs i j : sized xs → (i < length xs)%nat → (j < length xs)%nat →
  ∃ c, compare s (array xs) (place i) (place j) = Ok c.
Proof.
  intros Hs Hi Hj. apply lookup_lt_is_Some_2 in Hi as [x Hx]. apply lookup_lt_is_Some_2 in Hj as [y Hy].
  exists (cmp x y). by apply compare_elems.
Qed.

Lemma pivot_place xs : sized xs → 10 < len xs →
  ∃ i, (i < length xs)%nat ∧ pivot s (array xs) (len pre) (len xs) = Ok (place i).
Proof.
  intros Hs Hn. unfold pivot. set (k := Z.to_nat (len xs / 6)).
  assert (5 * k < length xs)%nat as Hk by (unfold k; divlia).
  assert (len xs / 6 = Z.of_nat k) as -> by (unfold k; divlia).
  replace (len pre + Z.of_nat k * es) with (place k) by done.
  replace (place k + (Z.of_nat k * es + Z.of_nat k * es)) with (place (3 * k)) by (unfold place; lia).
  replace (place (3 * k) + (Z.of_nat k * es + Z.of_nat k * es)) with (place (5 * k)) by (unfold place; lia).
  destruct (compare_in xs k (3 * k)) as [ij ->]; [done | lia.. |].
  destruct (compare_in xs k (5 * k)) as [ik ->]; [done | lia.. |].
  destruct (compare_in xs (3 * k) (5 * k)) as [jk ->]; [done | lia.. |]. cbn [mbind res_bind].
  repeat case_decide; eexists; (split; [| reflexivity]); lia.
Qed.

Lemma swap_first xs i : sized xs → (i < length xs)%nat →
  ∃ ys, so_swap s (array xs) (place 0) (place i) es = Ok (array ys) ∧ ys ≡ₚ xs.
Proof.
  intros Hs Hi. destruct xs as [|x xs]; [cbn in Hi; lia |]. destruct i as [|i].
  - exists (x :: xs). split; [by apply (swap_elem []) | done].
  - cbn in Hi. destruct (lookup_lt_is_Some_2 xs i) as [y Hy]; [lia |].
    destruct (list_elem_of_split_length xs i y Hy) as (m & r & -> & ->).
    exists (y :: m ++ x :: r). split; [by apply (swap_elems []) |]. by rewrite <- !Permutation_middle, Permutation_swap.
Qed.

(** The element at [j] has no greater ones before it and no less ones after it. *)
Lemma partition_elems xs : sized xs → 1 < len xs →
  ∃ p L R, partition s (array xs) (len pre) (len xs) = Ok (array (L ++ p :: R), len L) ∧ L ++ p :: R ≡ₚ xs ∧
    Forall (λ x, cmp x p ≤ 0) L ∧ Forall (λ x, 0 ≤ cmp x p) R.
Proof.
  intros Hs Hn. unfold partition.
  assert (∃ i, (i < length xs)%nat ∧ (if decide (10 < len xs) then pivot s (array xs) (len pre) (len xs)
    else Ok (len pre + Z.shiftr (len xs) 1 * es)) = Ok (place i)) as (i & Hi & ->).
  { case_decide; [by apply pivot_place |]. rewrite Z.shiftr_div_pow2 by lia. change (2 ^ 1) with 2.
    exists (Z.to_nat (len xs / 2)). split; [divlia |]. unfold place. by rewrite Z2Nat.id by divlia. }
  cbn [mbind res_bind]. rewrite <- place_0. destruct (swap_first xs i Hs Hi) as (ys & -> & Hys). cbn [mbind res_bind].
  apply (sized_perm _ ys) in Hs; [| done]. apply Permutation_length in Hys as Hl. rewrite <- Hl in *. setoid_rewrite <- Hys. clear Hys Hl Hi i xs.
  destruct ys as [|p xs]; [cbn in Hn; lia |].
  pose proof (length_array _ Hs) as Hfuel. cbn [length] in Hfuel.
  destruct (partition_loop_parted p (S (length (array (p :: xs)))) xs [] []) as (L & R & He & Hp & HL & HR);
    [by rewrite app_nil_r | lia | done | done |].
  cbn [app length] in He, Hp. rewrite app_nil_r in He, Hp. rewrite place_0, Nat.add_0_l in *.
  rewrite place_array. cbn [length]. rewrite He. cbn [mbind res_bind].
  assert (sized (p :: L ++ R)) as Hs' by (eapply sized_perm; [| exact Hs]; by rewrite Hp).
  replace ((place (length L) - len pre) / es) with (len L)
    by (unfold place; rewrite Z.add_simpl_l, Z.div_mul by lia; done).
  destruct L as [|z L _] using rev_ind.
  - pose proof (swap_elem [] p R Hs') as Hsw. cbn [app length] in Hsw |- *. rewrite place_0 in *. rewrite Hsw. exists p, [], R. split_and!; [done | by rewrite Hp | done..].
  - rewrite length_app, Nat.add_1_r in *. rewrite <- (app_assoc L) in Hs' |- *. cbn [app] in *.
    pose proof (swap_elems [] p L z R Hs') as Hsw. cbn [app length Nat.add] in Hsw. rewrite place_0 in Hsw.
    rewrite Hsw. cbn [mbind res_bind]. exists p, (z :: L), R. cbn [app length]. split_and!; [done | | | done].
    + rewrite <- Hp. rewrite <- app_assoc. cbn [app]. by rewrite <- !Permutation_middle, Permutation_swap.
    + apply Forall_app in HL as [? Hz]. inversion Hz. by constructor.
Qed.
End Array.

(** ** qsorts and qsort *)

(** A comparison that is an order, of which elements may be equal. *)
Record ordering (cmp : list Z → list Z → Z) : Prop := {
  ordering_trans x y z : cmp x y ≤ 0 → cmp y z ≤ 0 → cmp x z ≤ 0;
  ordering_flip x y : 0 ≤ cmp x y → cmp y x ≤ 0
}.

Section Sorts.
Variable s : Sort.
Abbreviation es := (so_es s).
Abbreviation cmp := (so_cmp s).
Abbreviation sorted := (StronglySorted (λ x y, cmp x y ≤ 0)).
Context (Hes : 0 < es) `{!Swaps es (so_swap s)}.

(** The outcome [o] is the memory with the elements [xs] in order. *)
Definition sorts (pre post : list Z) (xs : list (list Z)) (o : res (list Z)) : Prop :=
  ∃ ys, o = Ok (array pre post ys) ∧ ys ≡ₚ xs ∧ (ordering cmp → sorted ys).

Lemma array_left pre post L p R : array pre post (L ++ p :: R) = array pre (concat (p :: R) ++ post) L.
Proof. unfold array. by rewrite concat_app, <- app_assoc. Qed.

Lemma array_right pre post L p R : array pre post (L ++ p :: R) = array (pre ++ concat (L ++ [p])) post R.
Proof. unfold array. rewrite !concat_app. cbn [concat]. by rewrite <- !app_assoc. Qed.

Lemma sorted_around (L R : list (list Z)) p L' R' :
  ordering cmp → Forall (λ x, cmp x p ≤ 0) L → Forall (λ x, 0 ≤ cmp x p) R → L' ≡ₚ L → R' ≡ₚ R →
  sorted L' → sorted R' → sorted (L' ++ p :: R').
Proof.
  intros Ho HL HR HpL HpR HsL HsR. rewrite <- HpL in HL. rewrite <- HpR in HR.
  assert (Forall (λ y, cmp p y ≤ 0) R') as HR' by (revert HR; apply Forall_impl; intros y; apply (ordering_flip _ Ho)).
  apply StronglySorted_app_2; [| done | by constructor]. intros x y Hx Hy.
  rewrite list.Forall_forall in HL, HR'. apply list.elem_of_cons in Hy as [-> | Hy]; [by apply HL |].
  apply (ordering_trans _ Ho) with p; [by apply HL | by apply HR'].
Qed.

Lemma qsorts_loop_sorts rec B :
  (1 ≤ B → ∀ pre post xs, sized s xs → len xs ≤ B → sorts pre post xs (rec (array pre post xs) (len pre) (len xs))) →
  ∀ fuel pre post xs, sized s xs → (length xs < fuel)%nat → len xs ≤ B + 1 →
  sorts pre post xs (qsorts_loop s rec fuel (array pre post xs) (len pre) (len xs)).
Proof.
  intros Hrec. induction fuel as [|fuel IH]; intros pre post xs Hs Hf Hn; [lia |]. cbn [qsorts_loop].
  destruct (decide (1 < len xs)) as [H1|H1].
  2: { exists xs. split_and!; [done | done |]. intros _. destruct xs as [|x [|]]; [constructor | by repeat constructor | cbn in H1; lia]. }
  destruct (partition_elems s pre post Hes xs Hs H1) as (p & L & R & -> & Hp & HL & HR). cbn [mbind res_bind].
  assert (sized s (L ++ p :: R)) as [HsL [Hsp HsR]%Forall_cons_iff]%Forall_app by (by eapply sized_perm).
  assert (len xs = len L + 1 + len R) as Hl by (rewrite <- Hp, length_app; cbn [length]; lia).
  replace (len xs - (len L + 1)) with (len R) by lia.
  assert (Hr : ∀ L', L' ≡ₚ L → len pre + (len L + 1) * es = len (pre ++ concat (L' ++ [p]))).
  { intros L' HpL. rewrite length_app, Nat2Z.inj_add, (len_concat s).
    - rewrite HpL, length_app. cbn [length]. lia.
    - apply Forall_app_2; [by eapply sized_perm | by constructor]. }
  assert (Hall : ∀ L' R', L' ≡ₚ L → R' ≡ₚ R → (ordering cmp → sorted L') → (ordering cmp → sorted R') →
    L' ++ p :: R' ≡ₚ xs ∧ (ordering cmp → sorted (L' ++ p :: R'))).
  { intros L' R' HpL HpR H2 H3. split; [by rewrite HpL, HpR | intros Ho]. eapply sorted_around; eauto. }
  case_decide.
  - rewrite array_left. destruct (Hrec ltac:(lia) pre (concat (p :: R) ++ post) L HsL) as (L' & -> & HpL & HoL); [lia |].
    cbn [mbind res_bind]. rewrite <- array_left, array_right, (Hr L' HpL).
    destruct (IH (pre ++ concat (L' ++ [p])) post R HsR) as (R' & -> & HpR & HoR); [lia.. |].
    exists (L' ++ p :: R'). rewrite <- array_right. split; [done | by apply Hall].
  - rewrite array_right, (Hr L) by done.
    destruct (Hrec ltac:(lia) (pre ++ concat (L ++ [p])) post R HsR) as (R' & -> & HpR & HoR); [lia |].
    cbn [mbind res_bind]. rewrite <- array_right, array_left.
    destruct (IH pre (concat (p :: R') ++ post) L HsL) as (L' & -> & HpL & HoL); [lia.. |].
    exists (L' ++ p :: R'). rewrite <- array_left. split; [done | by apply Hall].
Qed.

(** As many levels of qsorts as there are elements are enough. *)
Lemma qsorts_sorts d : ∀ pre post xs, sized s xs → (length xs ≤ S d)%nat →
  sorts pre post xs (qsorts s (S d) (array pre post xs) (len pre) (len xs)).
Proof.
  induction d as [|d IH]; intros pre post xs Hs Hn;
    change (qsorts s (S ?d)) with (λ m a n, qsorts_loop s (qsorts s d) (S (Z.to_nat n)) m a n); cbn beta; rewrite Nat2Z.id.
  - apply (qsorts_loop_sorts _ 0); [lia | done | lia | lia].
  - apply (qsorts_loop_sorts _ (Z.of_nat (S d))); [| done | lia | lia].
    intros _ pre' post' xs' Hs' Hn'. apply IH; [done | lia].
Qed.
End Sorts.

Lemma aligned_size a es : 0 ≤ a → 0 ≤ es → Z.lor a es mod LONG = 0 → es mod LONG = 0.
Proof.
  unfold LONG. change 4 with (2 ^ 2). intros ??. rewrite <- !Z.land_ones, Z.land_lor_distr_l by lia.
  rewrite Z.lor_eq_0_iff. tauto.
Qed.

(** C13: qsort sorts.  Whatever the comparison says, qsort returns, stays inside the array, and leaves its elements there, each as often as before; and when the comparison is an order they are in order. *)
Theorem qsort_sorts pre post xs es cmp :
  0 < es → Forall (λ x, len x = es) xs → len xs ≤ 0x7FFFFFFF →
  ∃ ys, qsort (array pre post xs) (len pre) (len xs) es cmp = Ok (array pre post ys) ∧ ys ≡ₚ xs ∧
    (ordering cmp → StronglySorted (λ x y, cmp x y ≤ 0) ys).
Proof.
  intros Hes Hs Hn. unfold qsort. set (swap := if decide _ then _ else _). set (s := mkSort cmp swap es).
  assert (Swaps es swap).
  { subst swap. destruct (decide (Z.lor (len pre) es mod LONG ≠ 0)) as [H|H]; [by apply swapb_swaps |].
    apply swapi_swaps; [done |]. apply (aligned_size (len pre)); lia. }
  rewrite u32_small, Nat2Z.id by (unfold is_u32; lia). apply (qsorts_sorts s Hes); [done | lia].
Qed.

(** Elements of two bytes, of which the first is the key. *)
Definition by_first (x y : list Z) : Z := default 0 (head x) - default 0 (head y).

Lemma by_first_ordering : ordering by_first.
Proof. unfold by_first. split; intros *; lia. Qed.

Lemma qsort_sorts_witness :
  ∃ ys, qsort (array [9] [7; 7] [[3; 1]; [1; 2]; [2; 3]; [1; 4]]) 1 4 2 by_first = Ok (array [9] [7; 7] ys) ∧
    ys ≡ₚ [[3; 1]; [1; 2]; [2; 3]; [1; 4]] ∧ StronglySorted (λ x y, by_first x y ≤ 0) ys.
Proof.
  destruct (qsort_sorts [9] [7; 7] [[3; 1]; [1; 2]; [2; 3]; [1; 4]] 2 by_first) as (ys & He & Hp & Ho);
    [lia | by repeat constructor | cbn; lia |].
  exists ys. split_and!; [exact He | exact Hp | exact (Ho by_first_ordering)].
Defined.

(** Elements of four bytes at a place divisible by four go by longs. *)
Example qsort_runs :
  qsort [9; 9; 9; 9; 3; 0; 0; 1; 1; 0; 0; 2; 2; 0; 0; 3; 1; 0; 0; 4; 8] 4 4 4 by_first =
    Ok [9; 9; 9; 9; 1; 0; 0; 2; 1; 0; 0; 4; 2; 0; 0; 3; 3; 0; 0; 1; 8].
Proof. vm_compute. reflexivity. Qed.

(** qsorts calls itself for the larger part: forty elements can take more than twenty levels,
    where six would do for the smaller one. *)
Definition unlucky : list Z :=
  [24; 38; 13; 30; 15; 34; 22; 35; 19; 37; 21; 31; 26; 28; 25; 32; 27; 36; 0; 33; 2; 6; 4; 8; 12; 10; 14; 18; 16; 20; 1; 7; 3; 9; 5;
   11; 17; 23; 29; 39].

Example qsorts_deep :
  let s := mkSort by_first swapb 1 in
  qsorts s 23 unlucky 0 40 = Ub ∧ qsorts s 24 unlucky 0 40 = Ok (Z.of_nat <$> seq 0 40).
Proof. vm_compute. done. Qed.
