(* ===== verification/Intmap.v ===== *)
(** * Intmap: the hash table from ids to objects of lib9p

    sys/src/lib9p/intmap.c.  A table is its 128 chains, each chain the list of its
    (id, aux) nodes in link order.  [inc] is called on a value found while the table
    is read-locked; it acts on the caller's world [W].  Each operation holds the
    table's lock throughout, so it is one step here.

    The second half shows that the table implements a finite map. *)

From S2P Require Import Prelude.

Definition NHASH : Z := 128.

Record Intmap (V : Type) : Type := mkIntmap { hash : list (list (Z * V)) }.
Arguments mkIntmap {V} _.
Arguments hash {V} _.

Definition hashid (id : Z) : Z := id `mod` NHASH.

Section Intmap.
Context {V W : Type}.
Implicit Types (m : Intmap V) (l : list (Z * V)).

Definition nop (_ : V) (w : W) : W := w.

(** The empty table, and the [inc] it will use. *)
Definition allocmap (inc : option (V → W → W)) : Intmap V * (V → W → W) :=
  (mkIntmap (replicate (Z.to_nat NHASH) []), default nop inc).

Definition freemap (m : Intmap V) (destroy : option (V → W → W)) (w : W) : W :=
  foldl (λ w chain, foldl (λ w p, default nop destroy p.2 w) w chain) w (hash m).

(** The walk along a chain: the nodes passed, and those from the match on (none when
    there is no match).  [lf] points between the two. *)
Fixpoint llookup_chain (l : list (Z * V)) (id : Z) : list (Z * V) * list (Z * V) :=
  match l with
  | [] => ([], [])
  | p :: l =>
      if decide (p.1 = id) then ([], p :: l)
      else let '(before, rest) := llookup_chain l id in (p :: before, rest)
  end.

Definition chain (m : Intmap V) (id : Z) : list (Z * V) :=
  default [] (hash m !! Z.to_nat (hashid id)).

Definition llookup (m : Intmap V) (id : Z) : list (Z * V) * list (Z * V) :=
  llookup_chain (chain m id) id.

Definition set_chain (m : Intmap V) (id : Z) (l : list (Z * V)) : Intmap V :=
  mkIntmap (<[Z.to_nat (hashid id) := l]> (hash m)).

Definition lookupkey (inc : V → W → W) (m : Intmap V) (id : Z) (w : W) : option V * W :=
  match llookup m id with
  | (_, f :: _) => (Some f.2, inc f.2 w)
  | (_, []) => (None, w)
  end.

Definition insertkey (m : Intmap V) (id : Z) (v : V) : option V * Intmap V :=
  match llookup m id with
  | (before, f :: after) => (Some f.2, set_chain m id (before ++ (f.1, v) :: after))
  | (_, []) => (None, set_chain m id ((id, v) :: chain m id))
  end.

Definition caninsertkey (m : Intmap V) (id : Z) (v : V) : bool * Intmap V :=
  match llookup m id with
  | (_, _ :: _) => (false, m)
  | (_, []) => (true, set_chain m id ((id, v) :: chain m id))
  end.

Definition deletekey (m : Intmap V) (id : Z) : option V * Intmap V :=
  match llookup m id with
  | (before, f :: after) => (Some f.2, set_chain m id (before ++ after))
  | (_, []) => (None, m)
  end.

(** ** The table as a finite map *)

Definition chain_ok (i : nat) l : Prop :=
  NoDup l.*1 ∧ Forall (λ p, Z.to_nat (hashid p.1) = i) l.

(** Every node is on the chain its id hashes to, and ids are unique. *)
Definition intmap_ok m : Prop :=
  length (hash m) = Z.to_nat NHASH ∧ ∀ i l, hash m !! i = Some l → chain_ok i l.

Definition abs m : gmap Z V := list_to_map (concat (hash m)).

Lemma hashid_lt id : (Z.to_nat (hashid id) < Z.to_nat NHASH)%nat.
Proof. unfold hashid, NHASH. pose proof (Z.mod_pos_bound id 128). lia. Qed.

Lemma chain_lookup m id :
  intmap_ok m → hash m !! Z.to_nat (hashid id) = Some (chain m id).
Proof.
  intros [Hl _]. pose proof (hashid_lt id) as Hlt. rewrite <- Hl in Hlt.
  unfold chain. by destruct (lookup_lt_is_Some_2 _ _ Hlt) as [l ->].
Qed.

Lemma llookup_chain_spec l id before rest :
  NoDup l.*1 → llookup_chain l id = (before, rest) →
  l = before ++ rest ∧ (id ∉ before.*1) ∧
  match rest with [] => id ∉ l.*1 | f :: after => f.1 = id ∧ (id ∉ after.*1) end.
Proof.
  revert before. induction l as [|p l IH]; intros before Hnd Hl; cbn in Hl.
  { injection Hl as <- <-. split_and!; [done | set_solver | set_solver]. }
  apply list.NoDup_cons in Hnd as [Hp Hnd]. case_decide as Hid.
  - injection Hl as <- <-. split_and!; [done | set_solver | done | by rewrite <- Hid].
  - destruct (llookup_chain l id) as [b r] eqn:Hr. injection Hl as <- <-.
    destruct (IH b Hnd eq_refl) as (-> & Hb & Hrest). split_and!; [done | set_solver |].
    destruct r; [set_solver | done].
Qed.

(** A key is in the table iff it is on its chain. *)
Lemma abs_chain m id :
  intmap_ok m → abs m !! id = list_to_map (M := gmap Z V) (chain m id) !! id.
Proof.
  intros Hok. pose proof (chain_lookup m id Hok) as Hc. destruct Hok as [_ Hok].
  assert (∀ hs k, (∀ i c, hs !! i = Some c → chain_ok (k + i) c) →
    list_to_map (M := gmap Z V) (concat hs) !! id =
    list_to_map (M := gmap Z V) (default [] (if decide (k ≤ Z.to_nat (hashid id))%nat
      then hs !! (Z.to_nat (hashid id) - k)%nat else None)) !! id) as Hgen.
  { induction hs as [|c hs IH]; intros k Hk.
    { by case_decide. }
    cbn [concat]. rewrite list_to_map_app, lookup_union.
    rewrite (IH (S k)) by (intros i c' Hi; rewrite Nat.add_succ_comm; by apply (Hk (S i))).
    destruct (Hk 0%nat c eq_refl) as [_ Hc0]. rewrite Nat.add_0_r in Hc0.
    assert (k ≠ Z.to_nat (hashid id) → list_to_map (M := gmap Z V) c !! id = None) as Hnone.
    { intros Hne. apply not_elem_of_list_to_map_1. intros ([? v] & -> & Hin)%list_elem_of_fmap.
      rewrite list.Forall_forall in Hc0. exact (Hne (eq_sym (Hc0 _ Hin))). }
    destruct (decide (k = Z.to_nat (hashid id))) as [->|Hne].
    - rewrite (decide_False (P := (S _ ≤ _)%nat)), (decide_True (P := (_ ≤ _)%nat)) by lia.
      rewrite Nat.sub_diag. cbn. by rewrite lookup_empty, (right_id_L None (∪)).
    - rewrite Hnone, (left_id_L None (∪)) by done. do 2 case_decide; try lia; [| done].
      by replace (Z.to_nat (hashid id) - k)%nat with (S (Z.to_nat (hashid id) - S k)) by lia. }
  unfold abs. rewrite (Hgen (hash m) 0%nat) by (intros; by apply Hok).
  rewrite decide_True, Nat.sub_0_r, Hc by lia. done.
Qed.

Lemma set_chain_ok m id l :
  intmap_ok m → chain_ok (Z.to_nat (hashid id)) l → intmap_ok (set_chain m id l).
Proof.
  intros [Hl Hok] Hc. split; cbn; [by rewrite length_insert |].
  intros i l' Hi. destruct (decide (i = Z.to_nat (hashid id))) as [->|Hne].
  - rewrite list_lookup_insert_eq in Hi by (rewrite Hl; apply hashid_lt). by injection Hi as <-.
  - rewrite list_lookup_insert_ne in Hi by done. by apply Hok.
Qed.

(** Replacing the chain of [id] changes the map as the chain changes. *)
Lemma abs_set_chain m id l id' :
  intmap_ok m → chain_ok (Z.to_nat (hashid id)) l →
  abs (set_chain m id l) !! id' =
  if decide (hashid id' = hashid id) then list_to_map (M := gmap Z V) l !! id' else abs m !! id'.
Proof.
  intros Hok Hc. pose proof (set_chain_ok m id l Hok Hc) as Hok'.
  rewrite abs_chain by done. unfold chain, set_chain. cbn. destruct Hok as [Hl Hok].
  case_decide as Hid.
  - rewrite Hid, list_lookup_insert_eq by (rewrite Hl; apply hashid_lt). done.
  - rewrite list_lookup_insert_ne; [by rewrite abs_chain by (by split) |].
    intros Heq. apply Hid. unfold hashid in *.
    pose proof (Z.mod_pos_bound id' NHASH ltac:(done)).
    pose proof (Z.mod_pos_bound id NHASH ltac:(done)). lia.
Qed.

Lemma chain_ok_split i (l1 l2 : list (Z * V)) f :
  chain_ok i (l1 ++ f :: l2) → chain_ok i (l1 ++ l2) ∧ ∀ v, chain_ok i (l1 ++ (f.1, v) :: l2).
Proof.
  intros [Hnd Hf]. rewrite fmap_app, fmap_cons in Hnd. apply Forall_app in Hf as [H1 H2].
  apply Forall_cons_iff in H2 as [Hf0 H2]. split.
  - split; [| by apply Forall_app]. rewrite fmap_app.
    eapply sublist_NoDup; [exact Hnd |]. apply sublist_app; [done |]. by apply sublist_cons.
  - intros v. split; [by rewrite fmap_app, fmap_cons |]. apply Forall_app. by split; [| constructor].
Qed.

(** The outcome of [llookup], in terms of the map. *)
Lemma llookup_spec m id :
  intmap_ok m →
  (∃ before v after, llookup m id = (before, (id, v) :: after) ∧
     chain m id = before ++ (id, v) :: after ∧ abs m !! id = Some v ∧
     (id ∉ before.*1) ∧ (id ∉ after.*1)) ∨
  (∃ before, llookup m id = (before, []) ∧ abs m !! id = None ∧ (id ∉ (chain m id).*1)).
Proof.
  intros Hok. pose proof (chain_lookup m id Hok) as Hc. pose proof Hok as [_ Hch].
  destruct (Hch _ _ Hc) as [Hnd _]. unfold llookup.
  destruct (llookup_chain (chain m id) id) as [before rest] eqn:Hl.
  destruct (llookup_chain_spec _ _ _ _ Hnd Hl) as (Heq & Hb & Hr).
  destruct rest as [|[i v] after]; [right | left].
  - exists before. split_and!; [done | | done]. rewrite abs_chain by done.
    by apply not_elem_of_list_to_map_1.
  - destruct Hr as [Hi Ha]. cbn in Hi. subst i. exists before, v, after.
    split_and!; [done | done | | done | done]. rewrite abs_chain, Heq by done.
    rewrite list_to_map_app, lookup_union, not_elem_of_list_to_map_1 by done.
    cbn. by rewrite (left_id_L None (∪)), lookup_insert_eq.
Qed.

Lemma hash_chain_ok m id : intmap_ok m → chain_ok (Z.to_nat (hashid id)) (chain m id).
Proof. intros Hok. apply Hok. by apply chain_lookup. Qed.

Lemma push_ok m id v :
  intmap_ok m → (id ∉ (chain m id).*1) → chain_ok (Z.to_nat (hashid id)) ((id, v) :: chain m id).
Proof.
  intros Hok Hni. destruct (hash_chain_ok m id Hok) as [Hnd Hf].
  split; [by apply list.NoDup_cons | by constructor].
Qed.

Lemma abs_push m id v :
  intmap_ok m → (id ∉ (chain m id).*1) →
  abs (set_chain m id ((id, v) :: chain m id)) = <[id := v]> (abs m).
Proof.
  intros Hok Hni. apply map_eq. intros id'.
  rewrite abs_set_chain by auto using push_ok. cbn.
  destruct (decide (id' = id)) as [->|Hne].
  - rewrite decide_True by done. by rewrite !lookup_insert_eq.
  - rewrite !lookup_insert_ne by done. case_decide as Hh; [| done].
    rewrite abs_chain by done. unfold chain. by rewrite Hh.
Qed.

Lemma abs_replace m id before f after mid :
  intmap_ok m → chain m id = before ++ (id, f) :: after → (id ∉ before.*1) → (id ∉ after.*1) →
  mid = None ∨ (∃ v, mid = Some v) →
  abs (set_chain m id (before ++ match mid with Some v => (id, v) :: after | None => after end))
  = partial_alter (λ _, mid) id (abs m).
Proof.
  intros Hok Heq Hb Ha Hmid. pose proof (hash_chain_ok m id Hok) as Hc. rewrite Heq in Hc.
  destruct (chain_ok_split _ _ _ _ Hc) as [Hc1 Hc2]. apply map_eq. intros id'.
  assert (list_to_map (M := gmap Z V) (chain m id) !! id' = abs m !! id' ∨
    hashid id' ≠ hashid id) as Habs.
  { destruct (decide (hashid id' = hashid id)) as [Hh|]; [left | by right].
    rewrite abs_chain by done. unfold chain. by rewrite Hh. }
  rewrite abs_set_chain by (done || by destruct mid; [apply Hc2 |]).
  destruct (decide (id' = id)) as [->|Hne].
  - rewrite lookup_partial_alter_eq, decide_True by done.
    rewrite list_to_map_app, lookup_union, not_elem_of_list_to_map_1, (left_id_L None (∪)) by done.
    destruct mid; cbn; [by rewrite lookup_insert_eq | by apply not_elem_of_list_to_map_1].
  - rewrite lookup_partial_alter_ne by done. case_decide as Hh; [| done].
    destruct Habs as [<-|]; [| done]. rewrite Heq, !list_to_map_app, !lookup_union. f_equal.
    destruct mid; cbn; by rewrite ?lookup_insert_ne by done.
Qed.

Lemma allocmap_ok inc : intmap_ok (allocmap inc).1 ∧ abs (allocmap inc).1 = ∅.
Proof.
  split; [| done]. split; [done |]. intros i l Hi.
  apply lookup_replicate in Hi as [-> _]. split; constructor.
Qed.

(** The laws one operation at a time, in the form the pools of fids and requests
    rewrite with. *)
Lemma deletekey_abs m id :
  intmap_ok m →
  ∃ m', deletekey m id = (abs m !! id, m') ∧ intmap_ok m' ∧ abs m' = delete id (abs m).
Proof.
  intros Hok. unfold deletekey. pose proof (hash_chain_ok m id Hok) as Hc.
  destruct (llookup_spec m id Hok) as [(be & x & af & -> & Heq & -> & Hb & Ha) | (be & -> & Hn & Hni)].
  - rewrite Heq in Hc. destruct (chain_ok_split _ _ _ _ Hc) as [Hc1 _]. eexists.
    split_and!; [done | by apply set_chain_ok |]. by apply (abs_replace m id be x af None); eauto.
  - exists m. rewrite Hn. split_and!; [done | done |]. by rewrite delete_id.
Qed.

Lemma caninsertkey_abs m id v :
  intmap_ok m →
  (abs m !! id = None ∧ ∃ m', caninsertkey m id v = (true, m') ∧ intmap_ok m' ∧
     abs m' = <[id := v]> (abs m)) ∨
  (is_Some (abs m !! id) ∧ caninsertkey m id v = (false, m)).
Proof.
  intros Hok. unfold caninsertkey.
  destruct (llookup_spec m id Hok) as [(be & x & af & -> & _ & -> & _) | (be & -> & Hn & Hni)].
  - right. split; [by eexists | done].
  - left. split; [done |]. eexists. split_and!; [done | by apply set_chain_ok, push_ok |].
    by apply abs_push.
Qed.

Lemma lookupkey_abs (inc : V → W → W) m id w :
  intmap_ok m →
  lookupkey inc m id w =
    (abs m !! id, match abs m !! id with Some x => inc x w | None => w end).
Proof.
  intros Hok. unfold lookupkey.
  by destruct (llookup_spec m id Hok) as [(be & x & af & -> & _ & -> & _) | (be & -> & -> & _)].
Qed.
Lemma insertkey_abs m id v :
  intmap_ok m →
  ∃ m', insertkey m id v = (abs m !! id, m') ∧ intmap_ok m' ∧ abs m' = <[id := v]> (abs m).
Proof.
  intros Hok. unfold insertkey. pose proof (hash_chain_ok m id Hok) as Hc.
  destruct (llookup_spec m id Hok) as [(be & x & af & -> & Heq & -> & Hb & Ha) | (be & -> & -> & Hni)].
  - rewrite Heq in Hc. destruct (chain_ok_split _ _ _ _ Hc) as [_ Hc2]. eexists.
    split_and!; [done | apply set_chain_ok; [done | by apply Hc2] |].
    by apply (abs_replace m id be x af (Some v)); eauto.
  - eexists. split_and!; [done | by apply set_chain_ok, push_ok |]. by apply abs_push.
Qed.

(** C15: the table is a finite map.  On any table whose chains are in order (the
    empty one is), lookupkey finds exactly what the map holds and calls [inc] on it
    once; insertkey returns what it replaced; caninsertkey refuses a key in use and
    changes nothing; deletekey returns what it removed; and each leaves the chains in
    order. *)
Theorem intmap_refines (inc : V → W → W) m id v w :
  intmap_ok m →
  lookupkey inc m id w =
    (abs m !! id, match abs m !! id with Some x => inc x w | None => w end) ∧
  (let '(ov, m') := insertkey m id v in
   intmap_ok m' ∧ ov = abs m !! id ∧ abs m' = <[id := v]> (abs m)) ∧
  (let '(b, m') := caninsertkey m id v in
   intmap_ok m' ∧ b = bool_decide (abs m !! id = None) ∧
   abs m' = if b : bool then <[id := v]> (abs m) else abs m) ∧
  (let '(ov, m') := deletekey m id in
   intmap_ok m' ∧ ov = abs m !! id ∧ abs m' = delete id (abs m)).
Proof.
  intros Hok. split_and!.
  - by apply lookupkey_abs.
  - destruct (insertkey_abs m id v Hok) as (m' & -> & Hok' & Habs). done.
  - destruct (caninsertkey_abs m id v Hok) as [(Hn & m' & -> & Hok' & Habs)|[[x Hx] ->]].
    + by rewrite bool_decide_true.
    + rewrite bool_decide_false; [done | by rewrite Hx].
  - destruct (deletekey_abs m id Hok) as (m' & -> & Hok' & Habs). done.
Qed.
End Intmap.

Lemma intmap_refines_witness :
  let m := mkIntmap (<[1%nat := [(1, true)]]> (replicate 128 [])) in
  (deletekey m 129).1 = None ∧ (deletekey m 1).1 = Some true ∧
  abs (deletekey m 1).2 = delete 1 (abs m).
Proof.
  intros m. assert (intmap_ok m) as Hok.
  { split; [done |]. intros i l Hi. destruct (decide (i = 1%nat)) as [->|Hne].
    - cbn in Hi. injection Hi as <-. split; [apply NoDup_singleton | by repeat constructor].
    - cbn [hash] in Hi. unfold m in Hi. cbn [hash] in Hi. rewrite list_lookup_insert_ne in Hi by done.
      apply lookup_replicate in Hi as [-> _]. split; constructor. }
  destruct (intmap_refines (W := unit) (λ _ w, w) m 129 true () Hok) as (_ & _ & _ & Hd).
  destruct (intmap_refines (W := unit) (λ _ w, w) m 1 true () Hok) as (_ & _ & _ & Hd').
  split_and!; [reflexivity | reflexivity |]. destruct (deletekey m 1) as [ov m']. apply Hd'.
Defined.
