(* ===== verification/Srv.v ===== *)
(** * Srv: the 9P file server loop of lib9p

    sys/src/lib9p/fid.c, req.c and srv.c.

    Fids and Reqs live in heaps indexed by address, with their reference counts; a
    pointer is an address and nil is [None].  The two pools are {!Intmap} tables from
    fid numbers and tags to addresses.  Dereferencing nil or a freed object is [Ub];
    a failed assert, abort, sysfatal or allocation, after which the process is gone, is
    [Err].

    The server program is reached through the callbacks of struct Srv, which it
    supplies.  A callback such as [srv->open(r)] may answer at once or keep [r] and
    answer later from another thread: the call is recorded in [s_upcalls], and the
    answer is the separate step {!reply}, which installs the members of [r] and of its
    fids the program has assigned and calls respond.  [walk1] and [clone], which return their result, are
    functions.  Destroy callbacks and [aux] pointers do not touch the state kept
    here.  The file tree (file.c) is reached through the interface {!FileTree}.

    The locks of struct Srv and Req are not represented: each step runs to its end. *)

From stdpp Require Import strings.
From S2P Require Import Prelude Bytes Fcall Stat Rune Intmap.

(** ** Constants *)

Definition str (s : string) : list Z :=
  (λ a, Z.of_N (Ascii.N_of_ascii a)) <$> String.list_ascii_of_string s.

Definition Edupfid := str "duplicate fid".
Definition Eduptag := str "duplicate tag".
Definition Eunknownfid := str "unknown fid".
Definition Ewalknodir := str "walk in non-directory".
Definition Enotfound := str "file not found".
Definition Ebotch := str "9P protocol botch".
Definition Eisdir := str "is a directory".
Definition Eperm := str "permission denied".
Definition Ecreatenondir := str "create in non-directory".
Definition Enocreate := str "create prohibited".
Definition Ebadoffset := str "bad offset".
Definition Enoremove := str "remove prohibited".
Definition Enostat := str "stat prohibited".
Definition Enowstat := str "wstat prohibited".
Definition Ebaddir := str "bad directory in wstat".

Definition OREAD : Z := 0.
Definition OWRITE : Z := 1.
Definition ORDWR : Z := 2.
Definition OEXEC : Z := 3.
Definition OTRUNC : Z := 16.
Definition ORCLOSE : Z := 64.
Definition AEXEC : Z := 1.
Definition AWRITE : Z := 2.
Definition AREAD : Z := 4.
Definition QTDIR : Z := 0x80.
Definition DMDIR : Z := 0x80000000.

Abbreviation addr := positive.

(** ** Interface to the file tree

    What srv.c uses of file.c.  Operations thread the state [T] of the tree. *)
Class FileTree (T F RD : Type) := {
  tree_root : T → F;
  file_dir : T → F → Dir;
  (* f->parent, which is nil once the file has been removed *)
  file_parent : T → F → option F;
  file_incref : F → T → T;
  closefile : F → T → T;
  (* it goes through f->parent for the name .. *)
  walkfile : F → cptr → T → res (option F * T);
  hasperm : T → F → cptr → Z → bool;
  opendirfile : F → T → option RD * T;
  readdirfile : RD → Z → T → list Z * T;
  closedirfile : RD → T → T;
  (* the error string when it fails *)
  removefile : F → T → cptr * T;
  file_incvers : F → T → T
}.

(** ** struct Fid, struct Req *)

Record Fid (F RD : Type) : Type := mkFid {
  fi_fid : Z;
  fi_omode : Z;
  fi_file : option F;
  fi_uid : cptr;
  fi_qid : Qid;
  fi_rdir : option RD;
  fi_ref : Z;
  fi_diroffset : Z
}.
Arguments mkFid {F RD}.
Arguments fi_fid {F RD}.
Arguments fi_omode {F RD}.
Arguments fi_file {F RD}.
Arguments fi_uid {F RD}.
Arguments fi_qid {F RD}.
Arguments fi_rdir {F RD}.
Arguments fi_ref {F RD}.
Arguments fi_diroffset {F RD}.

#[export] Instance Fid_rebuild F RD : Rebuild (Fid F RD) := λ f,
  mkFid (fi_fid f) (fi_omode f) (fi_file f) (fi_uid f) (fi_qid f) (fi_rdir f) (fi_ref f)
    (fi_diroffset f).

Record Req : Type := mkReq {
  rq_tag : Z;
  rq_ifcall : Fcall;
  rq_ofcall : Fcall;
  rq_d : Dir;
  rq_oldreq : option addr;
  rq_fid : option addr;
  rq_afid : option addr;
  rq_newfid : option addr;
  rq_ref : Z;
  rq_pool : bool;         (* pool != nil *)
  rq_responded : bool;
  rq_error : cptr;
  rq_flush : list addr
}.

#[export] Instance Req_rebuild : Rebuild Req := λ r,
  mkReq (rq_tag r) (rq_ifcall r) (rq_ofcall r) (rq_d r) (rq_oldreq r) (rq_fid r) (rq_afid r)
    (rq_newfid r) (rq_ref r) (rq_pool r) (rq_responded r) (rq_error r) (rq_flush r).

(** The callbacks of struct Srv: which are set, and those that return a result. *)
Inductive upcall : Type :=
  | Uauth | Uattach | Uflush | Uwalk | Uopen | Ucreate | Uread | Uwrite | Uremove | Ustat | Uwstat.

#[export] Instance upcall_eq_dec : EqDecision upcall.
Proof. solve_decision. Defined.

Record SrvOps (F RD : Type) : Type := mkSrvOps {
  op_set : upcall → bool;
  op_tree : bool;
  op_walk1 : option (Fid F RD → cptr → cptr * Qid);
  op_clone : option (Fid F RD → Fid F RD → cptr);
  (* the text snprint makes of "%s: authentication not required" *)
  op_noauth : list Z;
  (* and of "write on fid with open mode 0x%ux" *)
  op_badwrite : Z → list Z
}.
Arguments op_set {F RD}.
Arguments op_tree {F RD}.
Arguments op_walk1 {F RD}.
Arguments op_clone {F RD}.
Arguments op_noauth {F RD}.
Arguments op_badwrite {F RD}.

(** What a program leaves behind when it answers: the members it has assigned. *)
Record Answer (F RD : Type) : Type := mkAnswer {
  an_ofcall : Fcall;
  an_d : Dir;
  an_fid : Fid F RD → Fid F RD;
  an_newfid : Fid F RD → Fid F RD;
  an_error : cptr
}.
Arguments mkAnswer {F RD}.
Arguments an_ofcall {F RD}.
Arguments an_d {F RD}.
Arguments an_fid {F RD}.
Arguments an_newfid {F RD}.
Arguments an_error {F RD}.

Record St (T F RD IN : Type) : Type := mkSt {
  s_fids : gmap addr (Fid F RD);
  s_reqs : gmap addr Req;
  s_fpool : Intmap addr;
  s_rpool : Intmap addr;
  s_next : addr;
  s_msize : Z;
  s_bufs : option Z;      (* size of rbuf and wbuf, when allocated *)
  s_in : IN;
  s_out : list (list Z);
  s_tree : T;
  s_upcalls : list (upcall * addr)
}.
Arguments mkSt {T F RD IN}.
Arguments s_fids {T F RD IN}.
Arguments s_reqs {T F RD IN}.
Arguments s_fpool {T F RD IN}.
Arguments s_rpool {T F RD IN}.
Arguments s_next {T F RD IN}.
Arguments s_msize {T F RD IN}.
Arguments s_bufs {T F RD IN}.
Arguments s_in {T F RD IN}.
Arguments s_out {T F RD IN}.
Arguments s_tree {T F RD IN}.
Arguments s_upcalls {T F RD IN}.

#[export] Instance St_rebuild T F RD IN : Rebuild (St T F RD IN) := λ s,
  mkSt (s_fids s) (s_reqs s) (s_fpool s) (s_rpool s) (s_next s) (s_msize s) (s_bufs s) (s_in s)
    (s_out s) (s_tree s) (s_upcalls s).

Section Srv.
Context {T F RD IN : Type} `{FileTree T F RD}.
Variable ops : SrvOps F RD.
Variable read : IN → Z → Z * list Z * IN.

Local Abbreviation World := (St T F RD IN).

(** Stateful code: the heap and pools are threaded; [Err] and [Ub] end the run. *)
Definition M (A : Type) : Type := World → res (A * World).
#[export] Instance M_ret : MRet M := λ A a s, Ok (a, s).
#[export] Instance M_bind : MBind M := λ A B k m s,
  match m s with Ok (a, s) => k a s | Err => Err | Ub => Ub end.

Definition get : M World := λ s, Ok (s, s).
Definition modify (g : World → World) : M () := λ s, Ok ((), g s).
Definition die {A} : M A := λ _, Err.
Definition wild {A} : M A := λ _, Ub.
Definition assert (b : bool) : M () := if b then mret () else die.

(** [*p] for a pointer that may be nil. *)
Definition nonnil {A} (p : option A) : M A :=
  match p with Some a => mret a | None => wild end.

Definition lift {A} (r : res A) : M A :=
  match r with Ok a => mret a | Err => die | Ub => wild end.

Definition getfid (a : addr) : M (Fid F RD) := s ← get; nonnil (s_fids s !! a).
Definition setfid (a : addr) (f : Fid F RD) : M () :=
  modify (λ s, s <| s_fids := <[a := f]> (s_fids s) |>).
Definition getreq_ (a : addr) : M Req := s ← get; nonnil (s_reqs s !! a).
Definition setreq (a : addr) (r : Req) : M () :=
  modify (λ s, s <| s_reqs := <[a := r]> (s_reqs s) |>).
Definition settree (t : T) : M () := modify (λ s, s <| s_tree := t |>).

Definition modreq (a : addr) (g : Req → Req) : M () := r ← getreq_ a; setreq a (g r).
Definition modfid (a : addr) (g : Fid F RD → Fid F RD) : M () := f ← getfid a; setfid a (g f).
Definition modofcall (a : addr) (g : Fcall → Fcall) : M () :=
  modreq a (λ r, r <| rq_ofcall := g (rq_ofcall r) |>).

Definition fresh : M addr :=
  s ← get; _ ← modify (λ s, s <| s_next := Pos.succ (s_next s) |>); mret (s_next s).

(** ** fid.c *)

(** [incref] on a live object; the pools call it through the table. *)
Definition incfidref (a : addr) (w : res World) : res World :=
  s ← w;
  match s_fids s !! a with
  | Some f => Ok (s <| s_fids := <[a := f <| fi_ref := fi_ref f + 1 |>]> (s_fids s) |>)
  | None => Ub
  end.

Definition closefid (p : option addr) : M () :=
  a ← nonnil p;
  f ← getfid a;
  let f := f <| fi_ref := fi_ref f - 1 |> in
  _ ← setfid a f;
  if decide (fi_ref f = 0) then
    _ ← match fi_rdir f with
        | Some d => s ← get; settree (closedirfile d (s_tree s))
        | None => mret ()
        end;
    _ ← match fi_file f with
        | Some g => s ← get; settree (closefile g (s_tree s))
        | None => mret ()
        end;
    modify (λ s, s <| s_fids := delete a (s_fids s) |>)
  else mret ().

Definition allocfid (fid : Z) : M (option addr) :=
  a ← fresh;
  _ ← setfid a (mkFid fid (-1) None None qid0 None 2 0);
  s ← get;
  match caninsertkey (s_fpool s) fid a with
  | (true, m) => _ ← modify (λ s, s <| s_fpool := m |>); mret (Some a)
  | (false, _) => _ ← closefid (Some a); _ ← closefid (Some a); mret None
  end.

Definition lookupfid (fid : Z) : M (option addr) := λ s,
  let '(v, w) := lookupkey incfidref (s_fpool s) fid (Ok s) in
  s ← w; Ok (v, s).

Definition removefid (fid : Z) : M (option addr) :=
  s ← get;
  let '(v, m) := deletekey (s_fpool s) fid in
  _ ← modify (λ s, s <| s_fpool := m |>); mret v.

(** ** req.c *)

Definition increqref (a : addr) (w : res World) : res World :=
  s ← w;
  match s_reqs s !! a with
  | Some r => Ok (s <| s_reqs := <[a := r <| rq_ref := rq_ref r + 1 |>]> (s_reqs s) |>)
  | None => Ub
  end.

(** [emalloc9p(sizeof *r)] *)
Definition req0 : Req :=
  mkReq 0 fcall0 fcall0 dir0 None None None None 0 false false None [].

Definition lookupreq (tag : Z) : M (option addr) := λ s,
  let '(v, w) := lookupkey increqref (s_rpool s) tag (Ok s) in
  s ← w; Ok (v, s).

Definition removereq (tag : Z) : M (option addr) :=
  s ← get;
  let '(v, m) := deletekey (s_rpool s) tag in
  _ ← modify (λ s, s <| s_rpool := m |>); mret v.

(** ** The second halves: what respond does for each kind of request *)

Definition setfcallerror (f : Fcall) (err : cptr) : Fcall :=
  f <| f_ename := err |> <| f_type := mtype_code Rerror |>.

(** [msize] is an [int]: emalloc9p of a negative size does not return. *)
Definition changemsize (msize : Z) : M () :=
  s ← get;
  if decide (is_Some (s_bufs s) ∧ s_msize s = u32 msize) then mret () else
  if decide (s32 msize < 0) then die else
  modify (λ s, s <| s_msize := u32 msize |> <| s_bufs := Some (s32 msize) |>).

Definition rversion (a : addr) (error : cptr) : M () :=
  _ ← assert (bool_decide (error = None));
  r ← getreq_ a; changemsize (f_msize (rq_ofcall r)).

Definition rauth (a : addr) (error : cptr) : M () :=
  r ← getreq_ a;
  match error, rq_afid r with
  | Some _, Some fa => f ← getfid fa; v ← removefid (fi_fid f); closefid v
  | _, _ => mret ()
  end.

Definition rattach (a : addr) (error : cptr) : M () :=
  r ← getreq_ a;
  match error, rq_fid r with
  | Some _, Some fa => f ← getfid fa; v ← removefid (fi_fid f); closefid v
  | _, _ => mret ()
  end.

(** [true] for -1: the answer waits for the flushed request. *)
Definition rflush (closereq : option addr → M ()) (a : addr) (error : cptr) : M bool :=
  _ ← assert (bool_decide (error = None));
  r ← getreq_ a;
  match rq_oldreq r with
  | Some o =>
      or ← getreq_ o;
      if rq_responded or then
        _ ← closereq (Some o);
        _ ← modreq a (λ r, r <| rq_oldreq := None |>); mret false
      else
        _ ← setreq o (or <| rq_flush := rq_flush or ++ [a] |>); mret true
  | None => _ ← modreq a (λ r, r <| rq_oldreq := None |>); mret false
  end.

Definition rwalk (a : addr) (error : cptr) : M () :=
  r ← getreq_ a;
  let i := rq_ifcall r in
  let o := rq_ofcall r in
  if decide (error ≠ None ∨ f_nwqid o < f_nwname i) then
    _ ← (if decide (f_fid i ≠ f_newfid i) then
           match rq_newfid r with
           | Some nf => f ← getfid nf; v ← removefid (fi_fid f); closefid v
           | None => mret ()
           end
         else mret ());
    if decide (f_nwqid o = 0) then
      if decide (error = None ∧ f_nwname i ≠ 0) then
        modreq a (λ r, r <| rq_error := Some Enotfound |>)
      else mret ()
    else modreq a (λ r, r <| rq_error := None |>)
  else
    nf ← nonnil (rq_newfid r);
    if decide (f_nwqid o = 0) then
      fa ← nonnil (rq_fid r); f ← getfid fa; modfid nf (λ n, n <| fi_qid := fi_qid f |>)
    else
      q ← nonnil (f_wqid o !! Z.to_nat (f_nwqid o - 1));
      modfid nf (λ n, n <| fi_qid := q |>).

Definition ropen (a : addr) (error : cptr) : M () :=
  match error with Some _ => mret () | None =>
  r ← getreq_ a; fa ← nonnil (rq_fid r);
  _ ← modfid fa (λ f, f <| fi_omode := s8 (f_mode (rq_ifcall r)) |>
                        <| fi_qid := f_qid (rq_ofcall r) |>);
  if decide (Z.land (q_type (f_qid (rq_ofcall r))) QTDIR ≠ 0) then
    modfid fa (λ f, f <| fi_diroffset := 0 |>)
  else mret ()
  end.

Definition rcreate (a : addr) (error : cptr) : M () :=
  match error with Some _ => mret () | None =>
  r ← getreq_ a; fa ← nonnil (rq_fid r);
  modfid fa (λ f, f <| fi_omode := s8 (f_mode (rq_ifcall r)) |>
                    <| fi_qid := f_qid (rq_ofcall r) |>)
  end.

Definition rread (a : addr) (error : cptr) : M () :=
  match error with Some _ => mret () | None =>
  r ← getreq_ a; fa ← nonnil (rq_fid r); f ← getfid fa;
  if decide (Z.land (q_type (fi_qid f)) QTDIR ≠ 0) then
    setfid fa (f <| fi_diroffset := s64 (fi_diroffset f + f_count (rq_ofcall r)) |>)
  else mret ()
  end.

Definition rwrite (a : addr) (error : cptr) : M () :=
  match error with Some _ => mret () | None =>
  r ← getreq_ a; fa ← nonnil (rq_fid r); f ← getfid fa;
  match fi_file f with
  | Some g => s ← get; settree (file_incvers g (s_tree s))
  | None => mret ()
  end
  end.

Definition rclunk (a : addr) (error : cptr) : M () := mret ().

Definition rremove (a : addr) (error : cptr) : M () :=
  match error with Some _ => mret () | None =>
  r ← getreq_ a; fa ← nonnil (rq_fid r); f ← getfid fa;
  match fi_file f with
  | Some g =>
      s ← get;
      let '(e, t) := removefile g (s_tree s) in
      _ ← settree t;
      _ ← (if e is Some e then modreq a (λ r, r <| rq_error := Some e |>) else mret ());
      modfid fa (λ f, f <| fi_file := None |>)
  | None => mret ()
  end
  end.

(** convD2M's value as an [int] and its bytes; 0 for its error return. *)
Definition convD2M_int (d : Dir) (n : Z) : M (Z * list Z) := λ s,
  match convD2M d n with Ok v => Ok (v, s) | Err => Ok ((0, []), s) | Ub => Ub end.

Definition rstat (a : addr) (error : cptr) : M () :=
  match error with Some _ => mret () | None =>
  r ← getreq_ a;
  '(n, tmp) ← convD2M_int (rq_d r) BIT16SZ;
  if decide (n ≠ BIT16SZ) then
    modreq a (λ r, r <| rq_error := Some (str "convD2M(_,_,BIT16SZ) did not return BIT16SZ") |>)
  else
    c ← (λ s, c ← GBIT16 tmp; Ok (c, s)) : M Z;
    let n := c + BIT16SZ in
    '(nstat, statbuf) ← convD2M_int (rq_d r) n;
    let nstat := u16 nstat in
    _ ← modofcall a (λ o, o <| f_nstat := nstat |> <| f_stat := statbuf |>);
    if decide (nstat ≤ BIT16SZ) then
      modreq a (λ r, r <| rq_error := Some (str "convD2M fails") |>)
    else mret ()
  end.

Definition rwstat (a : addr) (error : cptr) : M () := mret ().
(** [for(i=0; i<n; i++) respond(flush[i], nil);] *)
Definition respond_all (respond : addr → cptr → M ()) (l : list addr) : M () :=
  foldr (λ a k, _ ← respond a None; k) (mret ()) l.

(** [if(p) closefid(p);] *)
Definition closefid_opt (p : option addr) : M () :=
  match p with Some a => closefid (Some a) | None => mret () end.

(** The switch of respond; [true] when the answer has to wait. *)
Definition second_half (closereq : option addr → M ()) (a : addr) (error : cptr) : M bool :=
  r ← getreq_ a;
  match mtype_of (f_type (rq_ifcall r)) with
  | Some Tflush => rflush closereq a error
  | Some Tversion => _ ← rversion a error; mret false
  | Some Tauth => _ ← rauth a error; mret false
  | Some Tattach => _ ← rattach a error; mret false
  | Some Twalk => _ ← rwalk a error; mret false
  | Some Topen => _ ← ropen a error; mret false
  | Some Tcreate => _ ← rcreate a error; mret false
  | Some Tread => _ ← rread a error; mret false
  | Some Twrite => _ ← rwrite a error; mret false
  | Some Tclunk => _ ← rclunk a error; mret false
  | Some Tremove => _ ← rremove a error; mret false
  | Some Tstat => _ ← rstat a error; mret false
  | Some Twstat => _ ← rwstat a error; mret false
  | _ => die
  end.

(** The message respond makes of [ofcall]: the tag and type of the request, and the
    error if there is one. *)
Definition final (r : Req) : Fcall :=
  let o := (rq_ofcall r) <| f_tag := f_tag (rq_ifcall r) |> <| f_type := u8 (f_type (rq_ifcall r) + 1) |> in
  match rq_error r with Some e => setfcallerror o (Some e) | None => o end.

(** The rest of respond.  The write of the answer succeeds: any other outcome is
    sysfatal. *)
Definition send_answer (closereq : option addr → M ()) (respond : addr → cptr → M ()) (a : addr) : M () :=
  _ ← modreq a (λ r, r <| rq_ofcall := final r |>);
  r ← getreq_ a;
  s ← get;
  wbuf ← nonnil (s_bufs s);
  msg ← ((λ s, match convS2M (rq_ofcall r) (s_msize s) with
         | Ok msg => Ok (msg, s)
         | Err => Err
         | Ub => Ub
         end) : M (list Z));
  _ ← assert (bool_decide (len msg > 2));
  _ ← (if rq_pool r then v ← removereq (f_tag (rq_ifcall r)); closereq v else mret ());
  _ ← modify (λ s, s <| s_out := s_out s ++ [msg] |>);
  _ ← modreq a (λ r, r <| rq_responded := true |>);
  r ← getreq_ a;
  _ ← respond_all respond (rq_flush r);
  _ ← modreq a (λ r, r <| rq_flush := [] |>);
  if rq_pool r then closereq (Some a)
  else modify (λ s, s <| s_reqs := delete a (s_reqs s) |>).

(** respond and closereq call each other along the flushes that wait on a request;
    [fuel] bounds the nesting. *)
Fixpoint respond (fuel : nat) (a : addr) (error : cptr) {struct fuel} : M () :=
  match fuel with
  | O => wild
  | S fuel =>
      r ← getreq_ a;
      _ ← assert (negb (rq_responded r));
      _ ← setreq a (r <| rq_error := error |>);
      delay ← second_half (closereq fuel) a error;
      if delay : bool then mret () else send_answer (closereq fuel) (respond fuel) a
  end
with closereq (fuel : nat) (p : option addr) {struct fuel} : M () :=
  match fuel with
  | O => wild
  | S fuel =>
      match p with
      | None => mret ()
      | Some a =>
          r ← getreq_ a;
          let r := r <| rq_ref := rq_ref r - 1 |> in
          _ ← setreq a r;
          if decide (rq_ref r = 0) then
            _ ← closefid_opt (rq_fid r);
            _ ← closefid_opt (rq_newfid r);
            _ ← closefid_opt (rq_afid r);
            _ ← (if rq_oldreq r is Some o then closereq fuel (Some o) else mret ());
            _ ← respond_all (respond fuel) (rq_flush r);
            _ ← (if rq_pool r then mret () else wild);
            modify (λ s, s <| s_reqs := delete a (s_reqs s) |>)
          else mret ()
      end
  end.

(** Enough for any chain of waiting flushes. *)
Definition fuel_for (s : World) : nat := (2 * size (s_reqs s) + 4)%nat.

Definition respond_now (a : addr) (error : cptr) : M () := λ s,
  respond (fuel_for s) a error s.

(** [srv->op(r)] *)
Definition call (u : upcall) (a : addr) : M () :=
  modify (λ s, s <| s_upcalls := s_upcalls s ++ [(u, a)] |>).

Definition call_or (u : upcall) (a : addr) (error : cptr) : M () :=
  if op_set ops u then call u a else respond_now a error.

(** [estrdup9p(s)] *)
Definition estrdup9p (s : cptr) : M cptr := c ← nonnil s; mret (Some c).

Definition allocreq (tag : Z) : M (option addr) :=
  a ← fresh;
  _ ← setreq a (req0 <| rq_tag := tag |> <| rq_pool := true |> <| rq_ref := 2 |>);
  s ← get;
  match caninsertkey (s_rpool s) tag a with
  | (true, m) => _ ← modify (λ s, s <| s_rpool := m |>); mret (Some a)
  | (false, _) => _ ← closereq (fuel_for s) (Some a); _ ← closereq (fuel_for s) (Some a); mret None
  end.

(** ** The first halves: the handlers *)

Definition sversion (a : addr) : M () :=
  r ← getreq_ a;
  v ← nonnil (f_version (rq_ifcall r));
  c ← ((λ s, c ← strncmp (v ++ [0]) (str "9P" ++ [0]) 2; Ok (c, s)) : M Z);
  if decide (c ≠ 0) then
    _ ← modofcall a (λ o, o <| f_version := Some (str "unknown") |>);
    respond_now a None
  else
    _ ← modofcall a (λ o, o <| f_version := Some (str "9P2000") |>
                            <| f_msize := f_msize (rq_ifcall r) |>);
    respond_now a None.

Definition sauth (a : addr) : M () :=
  r ← getreq_ a;
  fa ← allocfid (f_afid (rq_ifcall r));
  _ ← modreq a (λ r, r <| rq_afid := fa |>);
  match fa with
  | None => respond_now a (Some Edupfid)
  | Some _ => call_or Uauth a (Some (op_noauth ops))
  end.

Definition sattach (a : addr) : M () :=
  r ← getreq_ a;
  p ← allocfid (f_fid (rq_ifcall r));
  _ ← modreq a (λ r, r <| rq_fid := p |>);
  match p with
  | None => respond_now a (Some Edupfid)
  | Some fa =>
      _ ← modreq a (λ r, r <| rq_afid := None |>);
      ok ← (if decide (f_afid (rq_ifcall r) = NOFID) then mret true else
            af ← lookupfid (f_afid (rq_ifcall r));
            _ ← modreq a (λ r, r <| rq_afid := af |>);
            mret (bool_decide (af ≠ None)));
      if ok : bool then
        u ← estrdup9p (f_uname (rq_ifcall r));
        _ ← modfid fa (λ f, f <| fi_uid := u |>);
        _ ← (if op_tree ops then
               s ← get;
               let g := tree_root (s_tree s) in
               _ ← settree (file_incref g (s_tree s));
               let q := d_qid (file_dir (s_tree s) g) in
               _ ← modofcall a (λ o, o <| f_qid := q |>);
               modfid fa (λ f, f <| fi_file := Some g |> <| fi_qid := q |>)
             else mret ());
        call_or Uattach a None
      else respond_now a (Some Eunknownfid)
  end.

Definition sflush (a : addr) : M () :=
  r ← getreq_ a;
  o ← lookupreq (f_oldtag (rq_ifcall r));
  _ ← modreq a (λ r, r <| rq_oldreq := o |>);
  if decide (o = None ∨ o = Some a) then respond_now a None
  else call_or Uflush a None.

(** [for(i=0; i<nwname; i++)] of filewalk: the file reached, if any, and [i]. *)
Fixpoint filewalk_loop (a : addr) (names : list cptr) (g : F) (i : nat) : M (option F * nat) :=
  match names with
  | [] => mret (Some g, i)
  | n :: names =>
      s ← get;
      '(g', t) ← lift (walkfile g n (s_tree s));
      _ ← settree t;
      match g' with
      | Some g' =>
          _ ← modofcall a (λ o, o <| f_wqid :=
                <[i := d_qid (file_dir t g')]> (f_wqid o) |>);
          filewalk_loop a names g' (S i)
      | None => mret (None, i)
      end
  end.

(** The [nwname] names of a Twalk. *)
Definition wnames (f : Fcall) : list cptr := take (Z.to_nat (f_nwname f)) (f_wname f).

Definition filewalk (a : addr) : M () :=
  r ← getreq_ a;
  fa ← nonnil (rq_fid r);
  f ← getfid fa;
  g ← (match fi_file f with Some g => mret g | None => die end : M F);
  s ← get;
  _ ← settree (file_incref g (s_tree s));
  '(g', i) ← filewalk_loop a (wnames (rq_ifcall r)) g 0;
  _ ← modofcall a (λ o, o <| f_nwqid := Z.of_nat i |>);
  _ ← match g' with
      | Some g' =>
          nf ← nonnil (rq_newfid r);
          s ← get;
          modfid nf (λ n, n <| fi_file := Some g' |>
                            <| fi_qid := d_qid (file_dir (s_tree s) g') |>)
      | None => mret ()
      end;
  respond_now a None.

(** The loop of walkandclone over oldwalk1: the error, if any, and [i]. *)
Fixpoint walk_loop (walk1 : Fid F RD → cptr → cptr * Qid) (a nf : addr) (names : list cptr)
    (i : nat) : M (cptr * nat) :=
  match names with
  | [] => mret (None, i)
  | n :: names =>
      f ← getfid nf;
      match walk1 f n with
      | (Some e, _) => mret (Some e, i)
      | (None, q) =>
          _ ← modfid nf (λ f, f <| fi_qid := q |>);
          _ ← modofcall a (λ o, o <| f_wqid := <[i := q]> (f_wqid o) |>);
          walk_loop walk1 a nf names (S i)
      end
  end.

(** walkandclone(r, oldwalk1, oldclone, srv) *)
Definition walkandclone (walk1 : Fid F RD → cptr → cptr * Qid) (a : addr) : M () :=
  r ← getreq_ a;
  fa ← nonnil (rq_fid r);
  nf ← nonnil (rq_newfid r);
  if decide (fa = nf ∧ f_nwname (rq_ifcall r) > 1) then
    respond_now a (Some (str "lib9p: unused documented feature not implemented"))
  else
    e ← (if decide (fa ≠ nf) then
           f ← getfid fa;
           _ ← modfid nf (λ n, n <| fi_qid := fi_qid f |>);
           n ← getfid nf;
           mret (match op_clone ops with Some clone => clone f n | None => None end)
         else mret None);
    if e is Some e then respond_now a (Some e) else
    '(e, i) ← walk_loop walk1 a nf (wnames (rq_ifcall r)) 0;
    _ ← modofcall a (λ o, o <| f_nwqid := Z.of_nat i |>);
    if decide (e ≠ None ∧ i = 0%nat) then respond_now a e else respond_now a None.

Definition swalk (a : addr) : M () :=
  r ← getreq_ a;
  p ← lookupfid (f_fid (rq_ifcall r));
  _ ← modreq a (λ r, r <| rq_fid := p |>);
  match p with
  | None => respond_now a (Some Eunknownfid)
  | Some fa =>
      f ← getfid fa;
      if decide (fi_omode f ≠ -1) then respond_now a (Some (str "cannot clone open fid")) else
      if decide (f_nwname (rq_ifcall r) ≠ 0 ∧ Z.land (q_type (fi_qid f)) QTDIR = 0)
      then respond_now a (Some Ewalknodir) else
      ok ← (if decide (f_fid (rq_ifcall r) ≠ f_newfid (rq_ifcall r)) then
              np ← allocfid (f_newfid (rq_ifcall r));
              _ ← modreq a (λ r, r <| rq_newfid := np |>);
              match np with
              | None => mret false
              | Some nf => u ← estrdup9p (fi_uid f);
                           _ ← modfid nf (λ n, n <| fi_uid := u |>); mret true
              end
            else
              _ ← modfid fa (λ f, f <| fi_ref := fi_ref f + 1 |>);
              _ ← modreq a (λ r, r <| rq_newfid := Some fa |>); mret true);
      if ok : bool then
        match fi_file f, op_walk1 ops with
        | Some _, _ => filewalk a
        | None, Some walk1 => walkandclone walk1 a
        | None, None => if op_set ops Uwalk then call Uwalk a else die
        end
      else respond_now a (Some Edupfid)
  end.

(** The permission a mode asks for: the switch, and OTRUNC. *)
Definition openperm (mode : Z) : Z :=
  let p := if decide (Z.land mode 3 = OREAD) then AREAD else
           if decide (Z.land mode 3 = OWRITE) then AWRITE else
           if decide (Z.land mode 3 = ORDWR) then Z.lor AREAD AWRITE else AEXEC in
  if decide (Z.land mode OTRUNC ≠ 0) then Z.lor p AWRITE else p.

(** [hasperm(f->file->parent, f->uid, AWRITE)] *)
Definition parentperm (f : Fid F RD) (g : F) : M bool :=
  s ← get;
  d ← nonnil (file_parent (s_tree s) g);
  mret (hasperm (s_tree s) d (fi_uid f) AWRITE).

Definition sopen (a : addr) : M () :=
  r ← getreq_ a;
  let mode := f_mode (rq_ifcall r) in
  p ← lookupfid (f_fid (rq_ifcall r));
  _ ← modreq a (λ r, r <| rq_fid := p |>);
  match p with
  | None => respond_now a (Some Eunknownfid)
  | Some fa =>
      f ← getfid fa;
      if decide (fi_omode f ≠ -1) then respond_now a (Some Ebotch) else
      let isdir := bool_decide (Z.land (q_type (fi_qid f)) QTDIR ≠ 0) in
      if isdir && bool_decide (Z.land mode (Z.lnot ORCLOSE) ≠ OREAD)
      then respond_now a (Some Eisdir) else
      _ ← modofcall a (λ o, o <| f_qid := fi_qid f |>);
      let p := openperm mode in
      if isdir && bool_decide (p ≠ AREAD) then respond_now a (Some Eperm) else
      match fi_file f with
      | Some g =>
          s ← get;
          if negb (hasperm (s_tree s) g (fi_uid f) p) then respond_now a (Some Eperm) else
          ok ← (if decide (Z.land mode ORCLOSE ≠ 0) then parentperm f g else mret true);
          if negb ok then respond_now a (Some Eperm) else
          let q := d_qid (file_dir (s_tree s) g) in
          _ ← modofcall a (λ o, o <| f_qid := q |>);
          if decide (Z.land (q_type q) QTDIR ≠ 0) then
            let '(d, t) := opendirfile g (s_tree s) in
            _ ← settree t;
            _ ← modfid fa (λ f, f <| fi_rdir := d |>);
            if d is None then respond_now a (Some (str "opendirfile failed"))
            else call_or Uopen a None
          else call_or Uopen a None
      | None => call_or Uopen a None
      end
  end.

Definition screate (a : addr) : M () :=
  r ← getreq_ a;
  p ← lookupfid (f_fid (rq_ifcall r));
  _ ← modreq a (λ r, r <| rq_fid := p |>);
  match p with
  | None => respond_now a (Some Eunknownfid)
  | Some fa =>
      f ← getfid fa;
      s ← get;
      if decide (fi_omode f ≠ -1) then respond_now a (Some Ebotch) else
      if decide (Z.land (q_type (fi_qid f)) QTDIR = 0) then respond_now a (Some Ecreatenondir) else
      if (if fi_file f is Some g then negb (hasperm (s_tree s) g (fi_uid f) AWRITE) else false)
      then respond_now a (Some Eperm) else
      call_or Ucreate a (Some Enocreate)
  end.

(** [if(r->ifcall.count > srv->msize - IOHDRSZ) r->ifcall.count = srv->msize - IOHDRSZ;] *)
Definition clip_count (a : addr) : M () :=
  s ← get;
  let room := u32 (s_msize s - IOHDRSZ) in
  modreq a (λ r, if decide (f_count (rq_ifcall r) > room)
                 then r <| rq_ifcall := (rq_ifcall r) <| f_count := room |> |> else r).

Definition sread (a : addr) : M () :=
  r ← getreq_ a;
  p ← lookupfid (f_fid (rq_ifcall r));
  _ ← modreq a (λ r, r <| rq_fid := p |>);
  match p with
  | None => respond_now a (Some Eunknownfid)
  | Some fa =>
      f ← getfid fa;
      if decide (s32 (f_count (rq_ifcall r)) < 0) then respond_now a (Some Ebotch) else
      let off := f_offset (rq_ifcall r) in
      if decide (off < 0 ∨ (Z.land (q_type (fi_qid f)) QTDIR ≠ 0 ∧ off ≠ 0 ∧ off ≠ fi_diroffset f))
      then respond_now a (Some Ebadoffset) else
      _ ← clip_count a;
      r ← getreq_ a;
      let count := f_count (rq_ifcall r) in
      _ ← modofcall a (λ o, o <| f_data := replicate (Z.to_nat count) 0 |>);
      let o := Z.land (fi_omode f) 3 in
      if decide (o ≠ OREAD ∧ o ≠ ORDWR ∧ o ≠ OEXEC) then respond_now a (Some Ebotch) else
      if decide (Z.land (q_type (fi_qid f)) QTDIR ≠ 0 ∧ fi_file f ≠ None) then
        d ← nonnil (fi_rdir f);
        s ← get;
        let '(data, t) := readdirfile d count (s_tree s) in
        _ ← settree t;
        _ ← modofcall a (λ o, o <| f_data := data |> <| f_count := len data |>);
        respond_now a None
      else call_or Uread a (Some (str "no srv->read"))
  end.

Definition swrite (a : addr) : M () :=
  r ← getreq_ a;
  p ← lookupfid (f_fid (rq_ifcall r));
  _ ← modreq a (λ r, r <| rq_fid := p |>);
  match p with
  | None => respond_now a (Some Eunknownfid)
  | Some fa =>
      f ← getfid fa;
      if decide (s32 (f_count (rq_ifcall r)) < 0) then respond_now a (Some Ebotch) else
      if decide (f_offset (rq_ifcall r) < 0) then respond_now a (Some Ebotch) else
      _ ← clip_count a;
      let o := Z.land (fi_omode f) 3 in
      if decide (o ≠ OWRITE ∧ o ≠ ORDWR)
      then respond_now a (Some (op_badwrite ops (fi_omode f))) else
      call_or Uwrite a (Some (str "no srv->write"))
  end.

Definition sclunk (a : addr) : M () :=
  r ← getreq_ a;
  p ← removefid (f_fid (rq_ifcall r));
  _ ← modreq a (λ r, r <| rq_fid := p |>);
  if p is None then respond_now a (Some Eunknownfid) else respond_now a None.

Definition sremove (a : addr) : M () :=
  r ← getreq_ a;
  p ← removefid (f_fid (rq_ifcall r));
  _ ← modreq a (λ r, r <| rq_fid := p |>);
  match p with
  | None => respond_now a (Some Eunknownfid)
  | Some fa =>
      f ← getfid fa;
      ok ← (if fi_file f is Some g then parentperm f g else mret true);
      if negb ok then respond_now a (Some Eperm) else
      call_or Uremove a (if fi_file f is Some _ then None else Some Enoremove)
  end.

Definition sstat (a : addr) : M () :=
  r ← getreq_ a;
  p ← lookupfid (f_fid (rq_ifcall r));
  _ ← modreq a (λ r, r <| rq_fid := p |>);
  match p with
  | None => respond_now a (Some Eunknownfid)
  | Some fa =>
      f ← getfid fa;
      s ← get;
      _ ← (if fi_file f is Some g
           then modreq a (λ r, r <| rq_d := file_dir (s_tree s) g |>) else mret ());
      call_or Ustat a (if fi_file f is Some _ then None else Some Enostat)
  end.

(** convM2D copies the strings over the front of the message it reads.  When it fails
    it returns 0, which is also what is asked for when [nstat] is 0: the checks that
    follow then see the zeros of a new Req. *)
Definition swstat (a : addr) : M () :=
  r ← getreq_ a;
  p ← lookupfid (f_fid (rq_ifcall r));
  _ ← modreq a (λ r, r <| rq_fid := p |>);
  match p with
  | None => respond_now a (Some Eunknownfid)
  | Some fa =>
      f ← getfid fa;
      if negb (op_set ops Uwstat) then respond_now a (Some Enowstat) else
      let n := f_nstat (rq_ifcall r) in
      '(m, stat, d) ← (match convM2D (f_stat (rq_ifcall r)) 0 n (Some 0) with
                       | Ub => wild
                       | Err => mret (0, f_stat (rq_ifcall r), rq_d r)
                       | Ok v => mret v
                       end : M (Z * list Z * Dir));
      _ ← modreq a (λ r, r <| rq_ifcall := (rq_ifcall r) <| f_stat := stat |> |> <| rq_d := d |>);
      if decide (m ≠ n) then respond_now a (Some Ebaddir) else
      if decide (d_type d ≠ 2 ^ 16 - 1)
      then respond_now a (Some (str "wstat -- attempt to change type")) else
      if decide (d_dev d ≠ 2 ^ 32 - 1)
      then respond_now a (Some (str "wstat -- attempt to change dev")) else
      if decide (q_type (d_qid d) ≠ 2 ^ 8 - 1 ∨ q_vers (d_qid d) ≠ 2 ^ 32 - 1 ∨
                 q_path (d_qid d) ≠ 2 ^ 64 - 1)
      then respond_now a (Some (str "wstat -- attempt to change qid")) else
      if decide (default [] (d_muid d) ≠ [])
      then respond_now a (Some (str "wstat -- attempt to change muid")) else
      if decide (d_mode d ≠ 2 ^ 32 - 1 ∧
                 Z.land (d_mode d) DMDIR ≫ 24 ≠ Z.land (q_type (fi_qid f)) QTDIR)
      then respond_now a (Some (str "wstat -- attempt to change DMDIR bit")) else
      call Uwstat a
  end.

(** ** The loop *)

(** One message from [infd]; [None] ends the service. *)
Definition getreq : M (option addr) :=
  s ← get;
  '(n, buf) ← ((λ s, '(n, buf, i) ← read9pmsg read (s_in s) (s_msize s);
                     Ok ((n, buf), s <| s_in := i |>)) : M (Z * list Z));
  if decide (n ≤ 0) then mret None else
  match convM2S (takeZ n buf) fcall0 with
  | Ub => wild
  | Err => mret None
  | Ok (m, f) =>
      if decide (m ≠ n) then mret None else
      p ← allocreq (f_tag f);
      match p with
      | None =>
          a ← fresh;
          _ ← setreq a (req0 <| rq_ref := 1 |> <| rq_tag := f_tag f |> <| rq_ifcall := f |>
                             <| rq_error := Some Eduptag |>);
          mret (Some a)
      | Some a =>
          _ ← modreq a (λ r, r <| rq_responded := false |> <| rq_ifcall := f |>
                               <| rq_ofcall := fcall0 |>);
          mret (Some a)
      end
  end.

(** The body of the loop in srv: [if(r->error) ... switch(r->ifcall.type)]. *)
Definition dispatch (a : addr) : M () :=
  r ← getreq_ a;
  if rq_error r is Some e then respond_now a (Some e) else
  match mtype_of (f_type (rq_ifcall r)) with
  | Some Tversion => sversion a
  | Some Tauth => sauth a
  | Some Tattach => sattach a
  | Some Tflush => sflush a
  | Some Twalk => swalk a
  | Some Topen => sopen a
  | Some Tcreate => screate a
  | Some Tread => sread a
  | Some Twrite => swrite a
  | Some Tclunk => sclunk a
  | Some Tremove => sremove a
  | Some Tstat => sstat a
  | Some Twstat => swstat a
  | _ => respond_now a (Some (str "unknown message"))
  end.

(** The program answers request [a]: it has filled in [ofcall] and [d], perhaps changed
    the fids of the request, and calls respond. *)
Definition reply (a : addr) (an : Answer F RD) : M () :=
  _ ← modify (λ s, s <| s_upcalls := filter (λ u, u.2 ≠ a) (s_upcalls s) |>);
  r ← getreq_ a;
  _ ← (if rq_fid r is Some x then modfid x (an_fid an) else mret ());
  _ ← (if rq_newfid r is Some x then modfid x (an_newfid an) else mret ());
  _ ← modreq a (λ r, r <| rq_ofcall := an_ofcall an |> <| rq_d := an_d an |>);
  respond_now a (an_error an).

(** [while(r = getreq(srv)) ...], [n] turns of it at most; [false] when it ended. *)
Fixpoint srv_loop (n : nat) : M bool :=
  match n with
  | O => mret true
  | S n =>
      p ← getreq;
      match p with
      | None => mret false
      | Some a => _ ← dispatch a; srv_loop n
      end
  end.

(** A struct Srv with no pools yet, reading [i]. *)
Definition srv_init (i : IN) (t : T) : World :=
  mkSt ∅ ∅ (allocmap (V := addr) (W := res World) (Some incfidref)).1
    (allocmap (V := addr) (W := res World) (Some increqref)).1 1 (16 * 1024 + IOHDRSZ) None i [] t [].

(** srv up to its loop. *)
Definition srv_start (i : IN) (t : T) : res World :=
  '(_, s) ← changemsize (16 * 1024 + IOHDRSZ) (srv_init i t); Ok s.
End Srv.
