(* ===== verification/SrvInv.v ===== *)
(** * SrvInv: who refers to what in a 9P server

    The bookkeeping of lib9p (fid.c, req.c, srv.c) as an invariant of the two heaps.  A
    Fid is referred to by its pool and by the requests that name it; a Req by its pool,
    by whoever is to answer it, by the Tflush requests that name it, and by the call of
    respond that is answering the flushes waiting on it.  The counts agree with this,
    which is why nothing in use is ever freed.  The lemmas follow the assignments of the
    code one at a time; SrvProps.v runs the code over them. *)

From S2P Require Import Prelude Bytes Fcall Stat Intmap Srv.

Definition b2z (P : Prop) `{Decision P} : Z := if decide P then 1 else 0.

(** ** Sums over the requests *)

Definition total (g : Req → Z) (m : gmap addr Req) : Z := map_fold (λ _ r z, g r + z) 0 m.

Lemma total_new g m a r : m !! a = None → total g (<[a := r]> m) = g r + total g m.
Proof.
  intros Ha. unfold total. rewrite map_fold_insert_L; [done | | done]. intros. lia.
Qed.

Lemma total_delete g m a r : m !! a = Some r → total g (delete a m) = total g m - g r.
Proof.
  intros Ha. rewrite <- (insert_delete_id m a r) at 2 by done.
  rewrite total_new by apply lookup_delete_eq. lia.
Qed.

Lemma total_upd g m a r r' : m !! a = Some r → total g (<[a := r']> m) = total g m - g r + g r'.
Proof.
  intros Ha. rewrite <- insert_delete_eq. rewrite total_new by apply lookup_delete_eq.
  rewrite (total_delete _ _ _ r) by done. lia.
Qed.

Lemma total_nonneg g m : (∀ r, 0 ≤ g r) → 0 ≤ total g m.
Proof.
  intros Hg. induction m as [|a r m Ha IH] using map_ind; [done |].
  rewrite total_new by done. specialize (Hg r). lia.
Qed.

Lemma total_ge g m a r : (∀ r, 0 ≤ g r) → m !! a = Some r → g r ≤ total g m.
Proof.
  intros Hg Ha. pose proof (total_delete g m a r Ha).
  pose proof (total_nonneg g (delete a m) Hg). lia.
Qed.

Lemma total_pos g m : 0 < total g m → ∃ a r, m !! a = Some r ∧ 0 < g r.
Proof.
  induction m as [|a r m Ha IH] using map_ind; [unfold total; rewrite map_fold_empty; lia |].
  rewrite total_new by done. intros Ht. destruct (decide (0 < g r)).
  - exists a, r. by rewrite lookup_insert_eq.
  - destruct IH as (b & r' & Hb & ?); [lia |]. exists b, r'. split; [| done].
    by rewrite lookup_insert_ne by (intros ->; congruence).
Qed.

Lemma total_le_size g m : (∀ r, g r ≤ 1) → total g m ≤ Z.of_nat (size m).
Proof.
  intros Hg. induction m as [|a r m Ha IH] using map_ind.
  - unfold total. by rewrite map_fold_empty, map_size_empty.
  - rewrite total_new, map_size_insert_None by done. specialize (Hg r). lia.
Qed.

Lemma total_one g m :
  (∀ r, 0 ≤ g r ≤ 1) → (∀ a r b r', m !! a = Some r → m !! b = Some r' → 0 < g r → 0 < g r' → a = b) →
  total g m ≤ 1.
Proof.
  intros Hg Hu. destruct (decide (0 < total g m)) as [Ht | ]; [| lia].
  destruct (total_pos _ _ Ht) as (a & r & Ha & Hr). pose proof (total_delete g m a r Ha) as Hd.
  destruct (decide (0 < total g (delete a m))) as [Ht'|]; [| specialize (Hg r); lia].
  destruct (total_pos _ _ Ht') as (b & r' & [Hne Hb]%lookup_delete_Some & Hr').
  by destruct Hne, (Hu a r b r').
Qed.

Lemma b2z_range P `{Decision P} : 0 ≤ b2z P ≤ 1.
Proof. unfold b2z. case_decide; lia. Qed.

Lemma b2z_true P `{Decision P} : P → b2z P = 1.
Proof. intros. unfold b2z. by rewrite decide_True. Qed.

Lemma b2z_pos P `{Decision P} : 0 < b2z P → P.
Proof. unfold b2z. case_decide; [done | lia]. Qed.

(** Forget what the truth values in the goal are of. *)
Ltac b2z_bounds :=
  repeat match goal with
  | |- context [@b2z ?P ?D] =>
      pose proof (@b2z_range P D); generalize dependent (@b2z P D); intros ? ?
  end.

(** How often a request refers to the fid [x], or to the request [o]. *)
Definition fid_uses (x : addr) (r : Req) : Z :=
  b2z (rq_fid r = Some x) + b2z (rq_newfid r = Some x) + b2z (rq_afid r = Some x).
Definition old_uses (o : addr) (r : Req) : Z := b2z (rq_oldreq r = Some o).

Lemma fid_uses_nonneg x r : 0 ≤ fid_uses x r.
Proof. unfold fid_uses, b2z. repeat case_decide; lia. Qed.
Lemma old_uses_nonneg o r : 0 ≤ old_uses o r.
Proof. unfold old_uses, b2z. case_decide; lia. Qed.
#[export] Hint Resolve fid_uses_nonneg old_uses_nonneg : p9.

(** [upd U x d]: [d] more references to [x]. *)
Definition upd (U : addr → Z) (x : addr) (d : Z) : addr → Z := λ y, U y + (if decide (y = x) then d else 0).

(** Case analysis on a lookup in an updated heap. *)
Ltac heap_cases :=
  repeat match goal with
  | H : <[_ := _]> _ !! _ = Some _ |- _ =>
      apply lookup_insert_Some in H as [[? ?] | [? H]]; subst
  | H : delete _ _ !! _ = Some _ |- _ => apply lookup_delete_Some in H as [? H]
  end.

Ltac heap_simpl :=
  rewrite ?lookup_insert_eq, ?lookup_delete_eq, ?lookup_insert_ne, ?lookup_delete_ne by congruence.

(** ** Fids *)
Section Fids.
Context {F RD : Type}.
Implicit Types (fids : gmap addr (Fid F RD)) (U : addr → Z) (fp : gmap Z addr) (ex : option addr).

(** [U x] counts the references to [x] other than the pool's.  A fid in the pool has its
    [uid] set, except for [ex], a fid not yet filled in. *)
Record FInv ex fids U fp (next : addr) : Prop := {
  fv_next : ∀ x f, fids !! x = Some f → (x < next)%positive;
  fv_count : ∀ x f, fids !! x = Some f →
    fi_ref f = b2z (fp !! fi_fid f = Some x) + U x ∧ 0 < fi_ref f;
  fv_live : ∀ x, 0 < U x → is_Some (fids !! x);
  fv_key : ∀ k x, fp !! k = Some x →
    ∃ f, fids !! x = Some f ∧ fi_fid f = k ∧ (ex = Some x ∨ fi_uid f ≠ None)
}.

Lemma FInv_ext ex fids U U' fp next :
  (∀ x, U' x = U x) → FInv ex fids U fp next → FInv ex fids U' fp next.
Proof.
  intros HU []. constructor; [done | | | done].
  - intros x f Hx. rewrite HU. auto.
  - intros x. rewrite HU. auto.
Qed.

Lemma FInv_grow ex fids U fp next next' :
  (next ≤ next')%positive → FInv ex fids U fp next → FInv ex fids U fp next'.
Proof. intros Hn []. constructor; [| done..]. intros x f Hx. specialize (fv_next0 x f Hx). lia. Qed.

(** Assigning members other than the number and the count. *)
Lemma FInv_set ex ex' fids U fp next x f f' :
  fids !! x = Some f → fi_ref f' = fi_ref f → fi_fid f' = fi_fid f →
  (ex' = ex ∧ (fi_uid f ≠ None → fi_uid f' ≠ None)) ∨ (fi_uid f' ≠ None ∧ (ex' = ex ∨ ex = Some x)) →
  FInv ex fids U fp next → FInv ex' (<[x := f']> fids) U fp next.
Proof.
  intros Hx Hr Hn Hu []. constructor.
  - intros y g Hy. heap_cases; eauto.
  - intros y g Hy. heap_cases; [rewrite Hr, Hn |]; eauto.
  - intros y Hy. destruct (decide (x = y)) as [->|]; heap_simpl; eauto.
  - intros k y Hk. destruct (fv_key0 k y Hk) as (g & Hg & <- & Hug).
    destruct (decide (x = y)) as [<-|Hne]; heap_simpl.
    + rewrite Hx in Hg. injection Hg as <-. eexists; split_and!; [done | done |].
      destruct Hu as [[-> Hu] | [Hu _]]; [destruct Hug |]; auto.
    + eexists; split_and!; [done | done |].
      destruct Hu as [[-> _] | [_ [-> | ->]]]; auto. destruct Hug; [congruence | auto].
Qed.

Lemma FInv_incref ex fids U fp next x f :
  fids !! x = Some f → FInv ex fids U fp next →
  FInv ex (<[x := f <| fi_ref := fi_ref f + 1 |>]> fids) (upd U x 1) fp next.
Proof.
  intros Hx []. constructor.
  - intros y g Hy. heap_cases; eauto.
  - intros y g Hy. unfold upd. heap_cases.
    + destruct (fv_count0 _ _ Hx). cbn. rewrite decide_True by done. lia.
    + rewrite decide_False by done. rewrite Z.add_0_r. auto.
  - intros y Hy. unfold upd in Hy. destruct (decide (x = y)) as [->|]; heap_simpl; [by eexists |].
    rewrite decide_False in Hy by done. apply fv_live0. lia.
  - intros k y Hk. destruct (fv_key0 k y Hk) as (g & Hg & <- & Hug).
    destruct (decide (x = y)) as [<-|Hne]; heap_simpl; [| by eauto].
    rewrite Hx in Hg. injection Hg as <-. by eauto.
Qed.

(** allocfid: the pool's reference and the caller's. *)
Lemma FInv_alloc fids U fp next k f :
  fp !! k = None → fi_fid f = k → fi_ref f = 2 → (∀ x, 0 ≤ U x) → FInv None fids U fp next →
  FInv (Some next) (<[next := f]> fids) (upd U next 1) (<[k := next]> fp) (Pos.succ next).
Proof.
  intros Hk Hf Hr HU [].
  assert (fids !! next = None) as Hn.
  { destruct (fids !! next) as [g|] eqn:Hg; [| done]. specialize (fv_next0 _ _ Hg). lia. }
  assert (U next = 0) as HU0.
  { destruct (decide (0 < U next)) as [Hp|]; [| specialize (HU next); lia].
    destruct (fv_live0 _ Hp). congruence. }
  constructor.
  - intros y g Hy. heap_cases; [lia |]. specialize (fv_next0 _ _ Hy). lia.
  - intros y g Hy. unfold upd. heap_cases.
    + rewrite decide_True by done. unfold b2z. rewrite lookup_insert_eq, decide_True by done. lia.
    + rewrite decide_False by done. rewrite Z.add_0_r. destruct (fv_count0 _ _ Hy) as [Hc Hp].
      split; [| done]. rewrite Hc. f_equal. unfold b2z.
      destruct (decide (fi_fid g = fi_fid f)) as [He|]; [| by rewrite lookup_insert_ne by done].
      rewrite He, lookup_insert_eq, Hk. by rewrite !decide_False by congruence.
  - intros y Hy. unfold upd in Hy. destruct (decide (next = y)) as [->|]; heap_simpl; [by eexists |].
    rewrite decide_False in Hy by done. apply fv_live0. lia.
  - intros k' y Hk'. apply lookup_insert_Some in Hk' as [[<- <-] | [Hne Hk']].
    + exists f. rewrite lookup_insert_eq. auto.
    + destruct (fv_key0 _ _ Hk') as (g & Hg & He & Hu). exists g.
      rewrite lookup_insert_ne by (intros ->; congruence). destruct Hu; [done | auto].
Qed.

(** Taking a fid out of the pool leaves its reference with the caller. *)
Lemma FInv_remove ex fids U fp next k x :
  fp !! k = Some x → FInv ex fids U fp next →
  FInv (if decide (ex = Some x) then None else ex) fids (upd U x 1) (delete k fp) next.
Proof.
  intros Hk []. destruct (fv_key0 _ _ Hk) as (f & Hf & <- & Hu). constructor.
  - done.
  - intros y g Hy. destruct (fv_count0 _ _ Hy) as [Hc Hp]. split; [| done]. rewrite Hc.
    unfold upd, b2z. destruct (decide (y = x)) as [->|Hne].
    + rewrite Hf in Hy. injection Hy as <-. rewrite lookup_delete_eq, Hk.
      rewrite decide_True, decide_False by done. lia.
    + rewrite Z.add_0_r. f_equal. destruct (decide (fi_fid g = fi_fid f)) as [->|].
      * rewrite lookup_delete_eq, Hk. by rewrite !decide_False by congruence.
      * by rewrite lookup_delete_ne by done.
  - intros y Hy. unfold upd in Hy. case_decide; [subst; eauto | apply fv_live0; lia].
  - intros k' y Hk'. apply lookup_delete_Some in Hk' as [Hne Hk'].
    destruct (fv_key0 _ _ Hk') as (g & Hg & <- & Hug). exists g. split_and!; [done | done |].
    destruct Hug as [-> | Hug]; [| by right]. left. rewrite decide_False; [done |]. congruence.
Qed.

(** closefid: the caller's reference goes, and the fid with the last one. *)
Definition drop_fid (x : addr) (f : Fid F RD) fids : gmap addr (Fid F RD) :=
  if decide (fi_ref f - 1 = 0) then delete x fids
  else <[x := f <| fi_ref := fi_ref f - 1 |>]> fids.

Lemma FInv_drop ex fids U fp next x f :
  fids !! x = Some f → 0 < U x → FInv ex fids U fp next →
  FInv ex (drop_fid x f fids) (upd U x (-1)) fp next.
Proof.
  intros Hx HU []. destruct (fv_count0 _ _ Hx) as [Hc Hp]. pose proof (b2z_range (fp !! fi_fid f = Some x)).
  unfold drop_fid. destruct (decide (fi_ref f - 1 = 0)) as [Hz | Hz].
  - assert (fp !! fi_fid f ≠ Some x) as Hnp.
    { intros He. unfold b2z in Hc. rewrite decide_True in Hc by done. lia. }
    constructor.
    + intros y g Hy. heap_cases; eauto.
    + intros y g Hy. heap_cases. unfold upd. rewrite decide_False, Z.add_0_r by done. auto.
    + intros y Hy. unfold upd in Hy. case_decide; [subst y; lia |].
      heap_simpl. apply fv_live0. lia.
    + intros k y Hk. destruct (fv_key0 _ _ Hk) as (g & Hg & <- & Hu).
      exists g. rewrite lookup_delete_ne; [done |]. intros ->. congruence.
  - constructor.
    + intros y g Hy. heap_cases; eauto.
    + intros y g Hy. unfold upd. heap_cases.
      * rewrite decide_True by done. cbn. lia.
      * rewrite decide_False, Z.add_0_r by done. auto.
    + intros y Hy. unfold upd in Hy. destruct (decide (x = y)) as [->|]; heap_simpl; [by eexists |].
      rewrite decide_False in Hy by done. apply fv_live0. lia.
    + intros k y Hk. destruct (fv_key0 k y Hk) as (g & Hg & <- & Hug).
      destruct (decide (x = y)) as [<-|Hne]; heap_simpl; [| by eauto].
      rewrite Hx in Hg. injection Hg as <-. by eauto.
Qed.

(** The fids of a request that is being freed, closed one after the other. *)
Definition drop_opt (p : option addr) fids fids' : Prop :=
  match p with Some x => ∃ f, fids !! x = Some f ∧ fids' = drop_fid x f fids | None => fids' = fids end.

Definition close_fids (r : Req) fids fids' : Prop :=
  ∃ m1 m2, drop_opt (rq_fid r) fids m1 ∧ drop_opt (rq_newfid r) m1 m2 ∧ drop_opt (rq_afid r) m2 fids'.

Lemma FInv_drop_opt ex fids U fp next p :
  (∀ x, p = Some x → 0 < U x) → FInv ex fids U fp next →
  ∃ fids', drop_opt p fids fids' ∧ FInv ex fids' (λ x, U x - b2z (p = Some x)) fp next.
Proof.
  intros HU Hinv. destruct p as [x|].
  - destruct (fv_live _ _ _ _ _ Hinv x) as [f Hf]; [by apply HU |].
    exists (drop_fid x f fids). split; [by exists f |].
    eapply FInv_ext, (FInv_drop _ _ _ _ _ _ _ Hf (HU x eq_refl) Hinv).
    intros y. unfold upd, b2z. do 2 case_decide; simplify_eq; lia.
  - exists fids. split; [done |]. eapply FInv_ext, Hinv. intros y. unfold b2z.
    rewrite decide_False by done. lia.
Qed.

Lemma FInv_close ex fids U fp next r :
  (∀ x, fid_uses x r ≤ U x) → FInv ex fids U fp next →
  ∃ fids', close_fids r fids fids' ∧ FInv ex fids' (λ x, U x - fid_uses x r) fp next.
Proof.
  intros HU Hinv. unfold fid_uses in *.
  destruct (FInv_drop_opt ex fids U fp next (rq_fid r)) as (m1 & H1 & Hi1); [| done |].
  { intros x Hx. specialize (HU x). rewrite (b2z_true _ Hx) in HU. revert HU. b2z_bounds. lia. }
  apply (FInv_drop_opt _ _ _ _ _ (rq_newfid r)) in Hi1 as (m2 & H2 & Hi2).
  2: { intros x Hx. specialize (HU x). rewrite (b2z_true _ Hx) in HU. cbn beta. revert HU. b2z_bounds. lia. }
  apply (FInv_drop_opt _ _ _ _ _ (rq_afid r)) in Hi2 as (m3 & H3 & Hi3).
  2: { intros x Hx. specialize (HU x). rewrite (b2z_true _ Hx) in HU. cbn beta. revert HU. b2z_bounds. lia. }
  exists m3. split; [by exists m1, m2 |]. eapply FInv_ext, Hi3. intros x. cbn. lia.
Qed.
End Fids.

(** ** Requests *)

Definition up_type (u : upcall) : mtype :=
  match u with
  | Uauth => Tauth | Uattach => Tattach | Uflush => Tflush | Uwalk => Twalk | Uopen => Topen
  | Ucreate => Tcreate | Uread => Tread | Uwrite => Twrite | Uremove => Tremove
  | Ustat => Tstat | Uwstat => Twstat
  end.

(** What the program finds in a request it is handed. *)
Definition up_ok (u : upcall) (r : Req) : Prop :=
  mtype_of (f_type (rq_ifcall r)) = Some (up_type u) ∧
  match u with
  | Uflush => True
  | Uauth => rq_afid r ≠ None
  | Uwalk => rq_fid r ≠ None ∧ rq_newfid r ≠ None
  | _ => rq_fid r ≠ None
  end.

Section Reqs.
Implicit Types (reqs : gmap addr Req) (h : gmap addr (list addr)) (tok : option addr).
Implicit Types (rp : gmap Z addr) (up : list (upcall * addr)).

(** [h]: the requests whose flushes are being answered, with those still to go. *)
Definition waiters h (a : addr) (r : Req) : list addr := default (rq_flush r) (h !! a).

Definition waits_on reqs (a f : addr) : Prop :=
  ∃ rf, reqs !! f = Some rf ∧ rq_responded rf = false ∧ rq_oldreq rf = Some a.

(** No Req has [a] among the flushes to answer. *)
Definition idle h reqs (a : addr) : Prop := ∀ o ro, reqs !! o = Some ro → a ∉ waiters h o ro.

(** An unanswered request is referred to by the pool and by whoever is to answer it. *)
Definition refs h tok reqs (a : addr) (r : Req) : Z :=
  (if rq_responded r then 0 else 2) + b2z (is_Some (h !! a)) + b2z (tok = Some a) +
  total (old_uses a) reqs.

(** The table of tags holds exactly the unanswered requests. *)
Record RTab reqs rp (next : addr) : Prop := {
  r_next : ∀ a r, reqs !! a = Some r → (a < next)%positive;
  r_pool : ∀ a r, reqs !! a = Some r → rq_pool r = true;
  r_tag : ∀ a r, reqs !! a = Some r → f_tag (rq_ifcall r) = rq_tag r ∧ is_u16 (rq_tag r);
  r_key : ∀ t a, rp !! t = Some a → ∃ r, reqs !! a = Some r ∧ rq_tag r = t ∧ rq_responded r = false;
  r_open : ∀ a r, reqs !! a = Some r → rq_responded r = false → rp !! rq_tag r = Some a
}.

(** [tok]: a reference in the hands of the code. *)
Record RCnt h tok reqs : Prop := {
  r_ref : ∀ a r, reqs !! a = Some r → rq_ref r = refs h tok reqs a r ∧ 0 < rq_ref r;
  r_tok : ∀ a, tok = Some a → is_Some (reqs !! a)
}.

(** Flushes: who waits for whom. *)
Record RWt h reqs : Prop := {
  r_old : ∀ a r o, reqs !! a = Some r → rq_oldreq r = Some o →
    is_Some (reqs !! o) ∧ mtype_of (f_type (rq_ifcall r)) = Some Tflush ∧ rq_responded r = false;
  r_wait : ∀ a r, reqs !! a = Some r →
    NoDup (waiters h a r) ∧ ∀ f, f ∈ waiters h a r → waits_on reqs a f;
  r_held : ∀ a, is_Some (h !! a) → ∃ r, reqs !! a = Some r ∧ rq_responded r = true;
  r_done : ∀ a r, reqs !! a = Some r → rq_responded r = true → h !! a = None → rq_flush r = []
}.

(** The requests the program has been handed. *)
Record RUp h reqs up : Prop := {
  r_up : NoDup up.*2;
  r_upok : ∀ u a, (u, a) ∈ up →
    ∃ r, reqs !! a = Some r ∧ rq_responded r = false ∧ idle h reqs a ∧ up_ok u r
}.

Record RInv h tok reqs rp (next : addr) up : Prop := {
  ri_tab : RTab reqs rp next;
  ri_cnt : RCnt h tok reqs;
  ri_wt : RWt h reqs;
  ri_up : RUp h reqs up
}.

(** A request somebody may answer now. *)
Record ready h reqs up (a : addr) (r : Req) : Prop := {
  rd_live : reqs !! a = Some r;
  rd_open : rq_responded r = false;
  rd_idle : idle h reqs a;
  rd_up : a ∉ up.*2
}.

(** *** Assignments that leave a part of the invariant alone *)

Lemma live_set reqs a r' b : is_Some (reqs !! b) → is_Some (<[a := r']> reqs !! b).
Proof. intros Hb. destruct (decide (a = b)) as [->|]; heap_simpl; eauto. Qed.

Lemma RTab_set reqs rp next a r r' :
  reqs !! a = Some r → rq_tag r' = rq_tag r → f_tag (rq_ifcall r') = f_tag (rq_ifcall r) →
  rq_pool r' = rq_pool r → rq_responded r' = rq_responded r →
  RTab reqs rp next → RTab (<[a := r']> reqs) rp next.
Proof.
  intros Ha Ht Hi Hp Hr []. constructor.
  - intros b s Hb. heap_cases; eauto.
  - intros b s Hb. heap_cases; [rewrite Hp |]; eauto.
  - intros b s Hb. heap_cases; [rewrite Hi, Ht |]; eauto.
  - intros t b Hb. destruct (r_key0 _ _ Hb) as (s & Hs & ? & ?).
    destruct (decide (a = b)) as [->|]; heap_simpl; [| by eauto].
    rewrite Ha in Hs. injection Hs as <-. eexists; split_and!; [done | congruence..].
  - intros b s Hb Hs. heap_cases; [| eauto]. rewrite Ht. apply r_open0; congruence.
Qed.

Lemma total_old_set reqs a r r' o :
  reqs !! a = Some r → rq_oldreq r' = rq_oldreq r →
  total (old_uses o) (<[a := r']> reqs) = total (old_uses o) reqs.
Proof. intros Ha Ho. rewrite (total_upd _ _ _ r) by done. unfold old_uses. rewrite Ho. lia. Qed.

(** The references counted by [ref] may move between [h] and [tok]. *)
Lemma RCnt_set h tok h' tok' reqs a r r' :
  reqs !! a = Some r → rq_oldreq r' = rq_oldreq r →
  (∀ b, b ≠ a → b2z (is_Some (h' !! b)) + b2z (tok' = Some b) =
                b2z (is_Some (h !! b)) + b2z (tok = Some b)) →
  refs h' tok' reqs a r' - refs h tok reqs a r = rq_ref r' - rq_ref r → 0 < rq_ref r' →
  (∀ b, tok' = Some b → is_Some (reqs !! b)) →
  RCnt h tok reqs → RCnt h' tok' (<[a := r']> reqs).
Proof.
  intros Ha Ho Hb Hr Hp Ht []. constructor.
  - intros b s Hs. unfold refs. rewrite (total_old_set _ _ r) by done.
    heap_cases; [destruct (r_ref0 _ _ Ha); unfold refs in *; lia |].
    destruct (r_ref0 _ _ Hs). split; [| done]. unfold refs in *. specialize (Hb b). lia.
  - intros b Hb'. apply live_set. auto.
Qed.

Lemma waits_on_set reqs a r r' b f :
  reqs !! a = Some r → rq_responded r' = rq_responded r → rq_oldreq r' = rq_oldreq r →
  waits_on reqs b f → waits_on (<[a := r']> reqs) b f.
Proof.
  intros Ha Hr Ho (rf & ? & ? & ?). unfold waits_on.
  destruct (decide (a = f)) as [->|]; heap_simpl; [| by eauto].
  eexists; split_and!; [done | congruence..].
Qed.

Lemma RWt_set h reqs a r r' :
  reqs !! a = Some r → rq_oldreq r' = rq_oldreq r → rq_responded r' = rq_responded r →
  f_type (rq_ifcall r') = f_type (rq_ifcall r) → rq_flush r' = rq_flush r →
  RWt h reqs → RWt h (<[a := r']> reqs).
Proof.
  intros Ha Ho Hr Ht Hf []. constructor.
  - intros b s o Hb Hold. assert (∃ s', reqs !! b = Some s' ∧ rq_oldreq s' = Some o ∧
      f_type (rq_ifcall s') = f_type (rq_ifcall s) ∧ rq_responded s' = rq_responded s)
      as (s' & Hs' & Ho' & <- & <-) by (heap_cases; [exists r | exists s]; split_and!; congruence).
    destruct (r_old0 _ _ _ Hs' Ho') as (? & ? & ?). auto using live_set.
  - intros b s Hb. assert (∃ s', reqs !! b = Some s' ∧ rq_flush s' = rq_flush s) as (s' & Hs' & Hf')
      by (heap_cases; [exists r | exists s]; split_and!; congruence).
    unfold waiters. rewrite <- Hf'. destruct (r_wait0 _ _ Hs') as [? Hw]. split; [done |].
    intros f ?. apply (waits_on_set _ _ r); auto.
  - intros b Hb. destruct (r_held0 _ Hb) as (s & ? & ?).
    destruct (decide (a = b)) as [->|]; heap_simpl; [| by eauto].
    eexists; split; [done | congruence].
  - intros b s Hb Hs Hh. heap_cases; [rewrite Hf; apply (r_done0 _ _ Ha); congruence | eauto].
Qed.

Lemma idle_set h reqs a r r' b :
  reqs !! a = Some r → rq_flush r' = rq_flush r → idle h reqs b → idle h (<[a := r']> reqs) b.
Proof.
  intros Ha Hf Hi o ro Ho. heap_cases; [| by eapply Hi].
  unfold waiters. rewrite Hf. by apply (Hi _ _ Ha).
Qed.

Lemma RUp_set h reqs up a r r' :
  reqs !! a = Some r → rq_flush r' = rq_flush r →
  (a ∉ up.*2 ∨ rq_responded r' = rq_responded r ∧ ∀ u, up_ok u r → up_ok u r') →
  RUp h reqs up → RUp h (<[a := r']> reqs) up.
Proof.
  intros Ha Hf Hok []. constructor; [done |]. intros u b Hb.
  destruct (r_upok0 _ _ Hb) as (s & Hs & ? & Hi & ?).
  pose proof (idle_set h reqs a r r' b Ha Hf Hi) as Hi'.
  destruct (decide (a = b)) as [->|]; heap_simpl; [| by eauto].
  destruct Hok as [Hu | [Hr Hok]].
  - destruct Hu. apply list_elem_of_fmap. by exists (u, b).
  - rewrite Ha in Hs. injection Hs as <-. eexists; split_and!; [done | congruence | done | auto].
Qed.

Lemma ready_set h reqs up a r r' :
  rq_responded r' = rq_responded r → rq_flush r' = rq_flush r →
  ready h reqs up a r → ready h (<[a := r']> reqs) up a r'.
Proof.
  intros Hr Hf []. constructor; [apply lookup_insert_eq | congruence | | done].
  by apply (idle_set _ _ _ r).
Qed.

Lemma ready_set_ne h reqs up a r b rb rb' :
  a ≠ b → reqs !! b = Some rb → rq_flush rb' = rq_flush rb →
  ready h reqs up a r → ready h (<[b := rb']> reqs) up a r.
Proof.
  intros Hne Hb Hf []. constructor; [by heap_simpl | done | | done]. by apply (idle_set _ _ _ rb).
Qed.

(** *** The steps of the code *)

(** What the invariant sees of a request, its fids apart. *)
Definition core (r : Req) :=
  (rq_tag r, f_tag (rq_ifcall r), f_type (rq_ifcall r), rq_oldreq r, rq_ref r, rq_pool r,
   rq_responded r, rq_flush r).

Lemma RInv_core h tok reqs rp next up a r r' :
  ready h reqs up a r → core r' = core r → RInv h tok reqs rp next up →
  RInv h tok (<[a := r']> reqs) rp next up ∧ ready h (<[a := r']> reqs) up a r'.
Proof.
  intros Hrd Hc []. pose proof Hrd as [Ha Ho Hi Hu]. injection Hc as ? ? ? ? ? ? ? ?.
  split; [| by apply (ready_set _ _ _ _ r)]. constructor.
  - by apply (RTab_set _ _ _ _ r).
  - destruct (r_ref _ _ _ ri_cnt0 _ _ Ha). apply (RCnt_set h tok _ _ _ _ r); try done; try lia.
    + unfold refs. replace (rq_responded r') with (rq_responded r) by done. lia.
    + apply (r_tok _ _ _ ri_cnt0).
  - by apply (RWt_set _ _ _ r).
  - apply (RUp_set _ _ _ _ r); auto.
Qed.

Lemma RInv_grow h tok reqs rp next next' up :
  (next ≤ next')%positive → RInv h tok reqs rp next up → RInv h tok reqs rp next' up.
Proof.
  intros Hn [[] ? ? ?]. constructor; [constructor | ..]; try done.
  intros b s Hb. specialize (r_next0 b s Hb). lia.
Qed.

(** incref on a request. *)
Lemma RInv_incref h reqs rp next up o ro :
  reqs !! o = Some ro → RInv h None reqs rp next up →
  RInv h (Some o) (<[o := ro <| rq_ref := rq_ref ro + 1 |>]> reqs) rp next up.
Proof.
  intros Ho []. constructor.
  - by apply (RTab_set _ _ _ _ ro).
  - destruct (r_ref _ _ _ ri_cnt0 _ _ Ho). apply (RCnt_set h None _ _ _ _ ro); try done.
    + intros b Hb. unfold b2z. by rewrite !(decide_False (P := _ = Some b)) by congruence.
    + unfold refs, b2z. rewrite (decide_True (P := Some o = Some o)) by done.
      rewrite (decide_False (P := None = Some o)) by done. cbn. lia.
    + cbn. lia.
    + intros b [= <-]. eauto.
  - by apply (RWt_set _ _ _ ro).
  - apply (RUp_set _ _ _ _ ro); [done | done | right; split; [done |] | done].
    intros u. unfold up_ok. by destruct u.
Qed.

(** Assigning [r->oldreq] moves a reference between the request and the code. *)
Lemma RInv_oldreq h tok tok' reqs rp next up a r p :
  ready h reqs up a r →
  (∀ b, b2z (tok' = Some b) + b2z (p = Some b) = b2z (tok = Some b) + b2z (rq_oldreq r = Some b)) →
  (∀ b, tok' = Some b → is_Some (reqs !! b)) →
  (∀ b, p = Some b → is_Some (reqs !! b) ∧ mtype_of (f_type (rq_ifcall r)) = Some Tflush) →
  RInv h tok reqs rp next up →
  RInv h tok' (<[a := r <| rq_oldreq := p |>]> reqs) rp next up.
Proof.
  intros [Ha Hop Hi Hu] Hmv Htok Hp []. constructor.
  - by apply (RTab_set _ _ _ _ r).
  - destruct ri_cnt0. constructor; [| eauto using live_set]. intros b s Hb. unfold refs.
    rewrite (total_upd _ _ _ r) by done. unfold old_uses at 2 3. cbn [rq_oldreq].
    assert (rq_ref s = refs h tok reqs b s ∧ 0 < rq_ref s) as [Hr ?]
      by (heap_cases; [apply (r_ref0 _ _ Ha) | by apply r_ref0]).
    split; [| done]. rewrite Hr. unfold refs. specialize (Hmv b). cbn. lia.
  - destruct ri_wt0. constructor.
    + intros b s q Hb Hq. heap_cases; [| destruct (r_old0 _ _ _ Hb Hq) as (? & ? & ?); auto using live_set].
      destruct (Hp _ Hq). auto using live_set.
    + intros b s Hb. assert (∃ s', reqs !! b = Some s' ∧ rq_flush s' = rq_flush s) as (s' & Hs' & Hf)
        by (heap_cases; eauto). unfold waiters. rewrite <- Hf.
      destruct (r_wait0 _ _ Hs') as [? Hw]. split; [done |]. intros f Hf'.
      destruct (Hw f Hf') as (rf & ? & ? & ?). exists rf. rewrite lookup_insert_ne; [done |].
      intros ->. by apply (Hi _ _ Hs').
    + intros b Hb. destruct (r_held0 _ Hb) as (s & Hs & Hr). exists s.
      rewrite lookup_insert_ne; [done |]. congruence.
    + intros b s Hb. heap_cases; [| eauto]. cbn. congruence.
  - apply (RUp_set _ _ _ _ r); auto.
Qed.

(** rflush on an unanswered request: the flush joins those that wait for it. *)
Lemma RInv_delay h reqs rp next up a r o ro :
  ready h reqs up a r → rq_oldreq r = Some o → reqs !! o = Some ro → rq_responded ro = false →
  RInv h None reqs rp next up →
  RInv h None (<[o := ro <| rq_flush := rq_flush ro ++ [a] |>]> reqs) rp next up.
Proof.
  intros [Ha Hop Hi Hu] Hold Ho Hro [].
  assert (h !! o = None) as Hh.
  { destruct (h !! o) eqn:Hh; [| done].
    destruct (r_held _ _ ri_wt0 o) as (s & ? & ?); [by eexists | congruence]. }
  constructor.
  - by apply (RTab_set _ _ _ _ ro).
  - destruct (r_ref _ _ _ ri_cnt0 _ _ Ho). apply (RCnt_set h None _ _ _ _ ro); try done.
    unfold refs. cbn. lia.
  - destruct ri_wt0. constructor.
    + intros b s q Hb Hq. assert (∃ s', reqs !! b = Some s' ∧ rq_oldreq s' = Some q ∧
        f_type (rq_ifcall s') = f_type (rq_ifcall s) ∧ rq_responded s' = rq_responded s)
        as (s' & Hs' & Ho' & <- & <-) by (heap_cases; eauto 6).
      destruct (r_old0 _ _ _ Hs' Ho') as (? & ? & ?). auto using live_set.
    + intros b s Hb. heap_cases.
      * unfold waiters. rewrite Hh. cbn. destruct (r_wait0 _ _ Ho) as [Hnd Hw].
        unfold waiters in Hnd, Hw. rewrite Hh in Hnd, Hw. cbn in Hnd, Hw. split.
        -- apply list.NoDup_app. split_and!; [done | | by apply NoDup_singleton].
           intros f Hf ->%list_elem_of_singleton. apply (Hi _ _ Ho). unfold waiters. by rewrite Hh.
        -- intros f [Hf | ->%list_elem_of_singleton]%elem_of_app;
             apply (waits_on_set _ _ ro); auto. by exists r.
      * destruct (r_wait0 _ _ Hb) as [? Hw]. split; [done |]. intros f Hf.
        apply (waits_on_set _ _ ro); auto.
    + intros b Hb. destruct (r_held0 _ Hb) as (s & Hs & Hr). exists s.
      rewrite lookup_insert_ne; [done |]. congruence.
    + intros b s Hb. heap_cases; [| eauto]. cbn. congruence.
  - destruct ri_up0. constructor; [done |]. intros u b Hb.
    destruct (r_upok0 _ _ Hb) as (s & Hs & Hr & Hib & Hok).
    assert (b ≠ a) as Hne by (intros ->; apply Hu, list_elem_of_fmap; by exists (u, a)).
    assert (idle h (<[o:=ro <| rq_flush := rq_flush ro ++ [a] |>]> reqs) b) as Hid.
    { intros q rq Hq. heap_cases; [| by eapply Hib]. unfold waiters. rewrite Hh. cbn.
      specialize (Hib _ _ Ho). unfold waiters in Hib. rewrite Hh in Hib. cbn in Hib.
      rewrite elem_of_app, list_elem_of_singleton. tauto. }
    destruct (decide (o = b)) as [->|]; heap_simpl; [| by eauto].
    rewrite Ho in Hs. injection Hs as <-. eexists; split_and!; [done | done | done |].
    by destruct u.
Qed.

(** respond has sent the answer: the tag is free, the pool's reference is gone, and the
    flushes waiting on the request are next. *)
Lemma RInv_answer h reqs rp next up a r r' :
  ready h reqs up a r → rq_oldreq r = None →
  core r' = core (r <| rq_ref := rq_ref r - 1 |> <| rq_responded := true |>) →
  RInv h None reqs rp next up →
  RInv (<[a := rq_flush r]> h) None (<[a := r']> reqs) (delete (rq_tag r) rp) next up.
Proof.
  intros [Ha Hop Hi Hu] Hold Hc [[] ? ? ?].
  injection Hc as Htg Hitg Hty Hold' Hrf Hp Hrs Hfl. cbn in *.
  assert (h !! a = None) as Hh.
  { destruct (h !! a) eqn:Hh; [| done].
    destruct (r_held _ _ ri_wt0 a) as (s & ? & ?); [by eexists | congruence]. }
  constructor.
  - constructor.
    + intros b s Hb. heap_cases; eauto.
    + intros b s Hb. heap_cases; [rewrite Hp |]; eauto.
    + intros b s Hb. heap_cases; [rewrite Hitg, Htg |]; eauto.
    + intros t b [Hne Hb]%lookup_delete_Some. destruct (r_key0 _ _ Hb) as (s & Hs & ? & ?).
      exists s. rewrite lookup_insert_ne; [done |]. congruence.
    + intros b s Hb Hs. heap_cases; [congruence |]. rewrite lookup_delete_ne; [eauto |].
      intros He. pose proof (r_open0 _ _ Hb Hs). pose proof (r_open0 _ _ Ha Hop). congruence.
  - destruct (r_ref _ _ _ ri_cnt0 _ _ Ha) as [Hr ?].
    apply (RCnt_set h None _ _ _ _ r); try done; try congruence.
    + intros b Hb. by rewrite lookup_insert_ne by done.
    + rewrite Hrf. unfold refs, b2z. rewrite lookup_insert_eq, Hh, Hop, Hrs.
      rewrite (decide_True (P := is_Some (Some _))) by (by eexists).
      rewrite (decide_False (P := is_Some None)) by (by intros []). lia.
    + rewrite Hrf, Hr. unfold refs. rewrite Hop.
      pose proof (total_nonneg (old_uses a) reqs (old_uses_nonneg a)).
      b2z_bounds. lia.
  - destruct ri_wt0. constructor.
    + intros b s q Hb Hq. heap_cases; [congruence |].
      destruct (r_old0 _ _ _ Hb Hq) as (? & ? & ?); auto using live_set.
    + intros b s Hb.
      assert (∃ s', reqs !! b = Some s' ∧ waiters (<[a:=rq_flush r]> h) b s = waiters h b s')
        as (s' & Hs' & ->).
      { unfold waiters. heap_cases; heap_simpl; [| by eauto]. exists r. by rewrite Hh. }
      destruct (r_wait0 _ _ Hs') as [? Hw]. split; [done |]. intros f Hf.
      destruct (Hw f Hf) as (rf & ? & ? & ?). exists rf. rewrite lookup_insert_ne; [done |].
      intros ->. by apply (Hi _ _ Hs').
    + intros b Hb. destruct (decide (a = b)) as [<-|]; [by exists r'; heap_simpl |].
      rewrite lookup_insert_ne in Hb by done. heap_simpl. auto.
    + intros b s Hb Hs Hhb. heap_cases; [by rewrite lookup_insert_eq in Hhb |].
      rewrite lookup_insert_ne in Hhb by done. eauto.
  - destruct ri_up0. constructor; [done |]. intros u b Hb.
    destruct (r_upok0 _ _ Hb) as (s & Hs & Hr & Hib & Hok). exists s.
    assert (a ≠ b) as Hne by (intros ->; apply Hu, list_elem_of_fmap; by exists (u, b)).
    heap_simpl. split_and!; [done | done | | done]. intros q rq Hq. unfold waiters.
    heap_cases; heap_simpl; [| by eapply Hib].
    specialize (Hib _ _ Ha). unfold waiters in Hib. by rewrite Hh in Hib.
Qed.

(** The next of the flushes to answer. *)
Lemma RInv_pop h reqs rp next up a f l :
  RInv (<[a := f :: l]> h) None reqs rp next up →
  RInv (<[a := l]> h) None reqs rp next up ∧
  ∃ rf, ready (<[a := l]> h) reqs up f rf ∧ mtype_of (f_type (rq_ifcall rf)) = Some Tflush.
Proof.
  intros [? [] [] []]. destruct (r_held0 a) as (r & Ha & Hr); [by rewrite lookup_insert_eq |].
  destruct (r_wait0 _ _ Ha) as [Hnd Hw]. unfold waiters in Hnd, Hw.
  rewrite lookup_insert_eq in Hnd, Hw. cbn in Hnd, Hw.
  destruct (Hw f) as (rf & Hf & Hrf & Hof); [by left |].
  apply list.NoDup_cons in Hnd as [Hfl Hnd].
  assert (∀ b s, waiters (<[a:=l]> h) b s ⊆ waiters (<[a:=f :: l]> h) b s) as Hsub.
  { intros b s. unfold waiters. destruct (decide (a = b)) as [<-|]; heap_simpl; cbn; set_solver. }
  split; [constructor; [done | ..] |].
  - constructor; [| done]. intros b s Hb. destruct (r_ref0 _ _ Hb) as [Hc ?]. split; [| done].
    rewrite Hc. unfold refs. do 3 f_equal. unfold b2z.
    destruct (decide (a = b)) as [<-|]; heap_simpl; [| done].
    by rewrite !decide_True by (by eexists).
  - constructor; [done | | |].
    + intros b s Hb. destruct (r_wait0 _ _ Hb) as [Hnd' Hw']. split; [| set_solver].
      unfold waiters in *. destruct (decide (a = b)) as [<-|];
        [rewrite lookup_insert_eq | rewrite lookup_insert_ne in * by done]; done.
    + intros b Hb. apply r_held0. destruct (decide (a = b)) as [<-|]; [by rewrite lookup_insert_eq |].
      by rewrite lookup_insert_ne in Hb |- * by done.
    + intros b s Hb Hs Hhb. apply (r_done0 b s); [done | done |].
      destruct (decide (a = b)) as [<-|]; [by rewrite lookup_insert_eq in Hhb |].
      by rewrite lookup_insert_ne in Hhb |- * by done.
  - constructor; [done |]. intros u b Hb. destruct (r_upok0 _ _ Hb) as (s & Hs & ? & Hi & ?).
    exists s. split_and!; [done | done | | done]. intros q rq Hq Hin. eapply Hi; [done |]. by apply Hsub.
  - exists rf. split; [| by eapply r_old0]. constructor; [done | done | |].
    + intros o ro Ho Hin. assert (o = a) as ->.
      { destruct (r_wait0 _ _ Ho) as [_ Hwo]. destruct (Hwo f) as (rf' & ? & ? & ?);
          [by apply Hsub | congruence]. }
      unfold waiters in Hin. by rewrite lookup_insert_eq in Hin.
    + intros ([u b] & -> & Hb)%list_elem_of_fmap. destruct (r_upok0 _ _ Hb) as (s & Hs & ? & Hi & ?).
      apply (Hi _ _ Ha). unfold waiters. rewrite lookup_insert_eq. by left.
Qed.

(** All flushes are answered: the reference respond still has is the one it closes. *)
Lemma RInv_release h reqs rp next up a r :
  h !! a = None → reqs !! a = Some r → RInv (<[a := []]> h) None reqs rp next up →
  RInv h (Some a) (<[a := r <| rq_flush := [] |>]> reqs) rp next up.
Proof.
  intros Hh Ha [? ? ? []]. constructor.
  - by apply (RTab_set _ _ _ _ r).
  - destruct (r_ref _ _ _ ri_cnt0 _ _ Ha).
    apply (RCnt_set (<[a := []]> h) None _ _ _ _ r); try done.
    + intros b Hb. heap_simpl. f_equal. unfold b2z. by rewrite !decide_False by congruence.
    + unfold refs, b2z. rewrite lookup_insert_eq, Hh.
      rewrite (decide_True (P := is_Some (Some []))) by (by eexists).
      rewrite (decide_False (P := is_Some None)) by (by intros []).
      rewrite (decide_True (P := Some a = Some a)), (decide_False (P := None = Some a)) by done.
      cbn. lia.
    + intros b [= <-]. eauto.
  - destruct ri_wt0. destruct (r_held0 a) as (r' & Ha' & Hr); [by rewrite lookup_insert_eq |].
    rewrite Ha in Ha'. injection Ha' as <-. constructor.
    + intros b s q Hb Hq. heap_cases; [destruct (r_old0 _ _ _ Ha Hq) as (? & ? & ?); congruence |].
      destruct (r_old0 _ _ _ Hb Hq) as (? & ? & ?). auto using live_set.
    + intros b s Hb. unfold waiters. heap_cases; [rewrite Hh; cbn; split; [constructor | set_solver] |].
      destruct (r_wait0 _ _ Hb) as [Hnd Hw]. unfold waiters in Hnd, Hw.
      rewrite lookup_insert_ne in Hnd, Hw by done. split; [done |]. intros f Hf.
      apply (waits_on_set _ _ r); auto.
    + intros b Hb. destruct (r_held0 b) as (s & Hs & ?).
      { destruct (decide (a = b)) as [<-|]; heap_simpl; [by eexists | done]. }
      destruct (decide (a = b)) as [<-|]; heap_simpl; eauto.
    + intros b s Hb Hs Hhb. heap_cases; [done |]. apply (r_done0 b s); [done | done |]. by heap_simpl.
  - constructor; [done |]. intros u b Hb. destruct (r_upok0 _ _ Hb) as (s & Hs & ? & Hi & ?).
    exists s. assert (a ≠ b).
    { intros ->. destruct (r_held _ _ ri_wt0 b) as (s' & ? & ?); [by rewrite lookup_insert_eq | congruence]. }
    heap_simpl. split_and!; [done | done | | done]. intros q rq Hq. unfold waiters.
    heap_cases; [rewrite Hh; set_solver |].
    specialize (Hi _ _ Hq). unfold waiters in Hi. by rewrite lookup_insert_ne in Hi by done.
Qed.

(** closereq, with references left ... *)
Lemma RInv_decref h reqs rp next up o r :
  reqs !! o = Some r → rq_ref r - 1 ≠ 0 → RInv h (Some o) reqs rp next up →
  RInv h None (<[o := r <| rq_ref := rq_ref r - 1 |>]> reqs) rp next up.
Proof.
  intros Ho Hz []. constructor.
  - by apply (RTab_set _ _ _ _ r).
  - destruct (r_ref _ _ _ ri_cnt0 _ _ Ho). apply (RCnt_set h (Some o) _ _ _ _ r); try done.
    + intros b Hb. unfold b2z. by rewrite !(decide_False (P := _ = Some b)) by congruence.
    + unfold refs, b2z. rewrite (decide_True (P := Some o = Some o)) by done.
      rewrite (decide_False (P := None = Some o)) by done. cbn. lia.
    + cbn. lia.
  - by apply (RWt_set _ _ _ r).
  - apply (RUp_set _ _ _ _ r); [done | done | right; split; [done |] | done].
    intros u. unfold up_ok. by destruct u.
Qed.

(** ... and with the last one: nothing refers to the request any more. *)
Lemma RInv_free h reqs rp next up o r :
  reqs !! o = Some r → rq_ref r - 1 = 0 → RInv h (Some o) reqs rp next up →
  RInv h None (delete o reqs) rp next up ∧ rq_oldreq r = None ∧ rq_flush r = [] ∧ rq_responded r = true.
Proof.
  intros Ho Hz [[] [] [] []]. destruct (r_ref0 _ _ Ho) as [Hr _].
  assert (rq_responded r = true ∧ h !! o = None ∧ total (old_uses o) reqs = 0) as (Hrs & Hh & Hold).
  { unfold refs in Hr. unfold b2z at 2 in Hr. rewrite decide_True in Hr by done.
    pose proof (total_nonneg (old_uses o) reqs (old_uses_nonneg o)).
    destruct (h !! o) eqn:Hh; unfold b2z in Hr;
      [rewrite decide_True in Hr by (by eexists) | rewrite decide_False in Hr by (by intros [])];
      destruct (rq_responded r); try lia. split_and!; [done | done | lia]. }
  assert (∀ a s, reqs !! a = Some s → rq_oldreq s ≠ Some o) as Hno.
  { intros a s Ha He. pose proof (total_ge (old_uses o) reqs a s (old_uses_nonneg o) Ha).
    unfold old_uses at 1, b2z in H. rewrite decide_True in H by done. lia. }
  assert (rq_oldreq r = None) as Hor.
  { destruct (rq_oldreq r) eqn:He; [| done]. destruct (r_old0 _ _ _ Ho He) as (? & ? & ?). congruence. }
  split_and!; [constructor; constructor | done | by apply (r_done0 _ _ Ho) | done].
  - intros a s Ha. heap_cases; eauto.
  - intros a s Ha. heap_cases; eauto.
  - intros a s Ha. heap_cases; eauto.
  - intros t a Ha. destruct (r_key0 _ _ Ha) as (s & Hs & ? & ?). exists s.
    rewrite lookup_delete_ne; [done |]. congruence.
  - intros a s Ha. heap_cases; eauto.
  - intros a s Ha. heap_cases. destruct (r_ref0 _ _ Ha) as [Hc ?]. split; [| done]. rewrite Hc.
    unfold refs. rewrite (total_delete _ _ _ _ Ho). unfold old_uses at 3, b2z. rewrite Hor.
    rewrite !(decide_False (P := _ = Some a)) by congruence. lia.
  - done.
  - intros a s p Ha Hp. heap_cases. destruct (r_old0 _ _ _ Ha Hp) as (? & ? & ?).
    split_and!; [| done..]. rewrite lookup_delete_ne; [done |]. intros ->. by apply (Hno _ _ Ha).
  - intros a s Ha. heap_cases. destruct (r_wait0 _ _ Ha) as [? Hw]. split; [done |]. intros f Hf.
    destruct (Hw f Hf) as (rf & ? & ? & ?). exists rf. rewrite lookup_delete_ne; [done |]. congruence.
  - intros a Ha. destruct (r_held0 _ Ha) as (s & ? & ?). exists s.
    rewrite lookup_delete_ne; [done |]. intros ->. rewrite Hh in Ha. by destruct Ha.
  - intros a s Ha. heap_cases. eauto.
  - done.
  - intros u a Ha. destruct (r_upok0 _ _ Ha) as (s & ? & ? & Hi & ?). exists s.
    rewrite lookup_delete_ne by congruence. split_and!; [done | done | | done].
    intros q rq Hq. heap_cases. eauto.
Qed.

Lemma ready_delete h reqs up a r o :
  a ≠ o → ready h reqs up a r → ready h (delete o reqs) up a r.
Proof.
  intros Hne []. constructor; [by heap_simpl | done | | done].
  intros q rq Hq. heap_cases. eauto.
Qed.

(** allocreq: a new request under a new tag. *)
Lemma RInv_alloc reqs rp next up t r :
  rp !! t = None → is_u16 t →
  core r = (t, t, f_type (rq_ifcall r), None, 2, true, false, []) →
  RInv ∅ None reqs rp next up →
  RInv ∅ None (<[next := r]> reqs) (<[t := next]> rp) (Pos.succ next) up ∧
  ready ∅ (<[next := r]> reqs) up next r.
Proof.
  intros Ht H16 Hc [[] [] [] []]. injection Hc as Htg Hitg Hold Hrf Hp Hrs Hfl.
  assert (∀ a s, reqs !! a = Some s → a ≠ next) as Hfresh.
  { intros a s Ha ->. specialize (r_next0 _ _ Ha). lia. }
  assert (reqs !! next = None) as Hn.
  { destruct (reqs !! next) eqn:He; [| done]. by destruct (Hfresh _ _ He). }
  assert (∀ b, total (old_uses b) (<[next := r]> reqs) = total (old_uses b) reqs) as Hto.
  { intros b. rewrite total_new by done. unfold old_uses at 1, b2z. rewrite Hold.
    by rewrite decide_False by done. }
  assert (total (old_uses next) reqs = 0) as Hno.
  { pose proof (total_nonneg (old_uses next) reqs (old_uses_nonneg next)).
    destruct (decide (0 < total (old_uses next) reqs)) as [Hpos|]; [| lia].
    destruct (total_pos _ _ Hpos) as (a & s & Ha & Hu). apply b2z_pos in Hu.
    destruct (r_old0 _ _ _ Ha Hu) as ([s' Hs'] & _). by destruct (Hfresh _ _ Hs'). }
  assert (∀ b, idle ∅ reqs b → b ≠ next → idle ∅ (<[next := r]> reqs) b) as Hidle.
  { intros b Hb Hne q rq Hq. unfold waiters. rewrite lookup_empty. cbn.
    heap_cases; [rewrite Hfl; set_solver | apply (Hb _ _ Hq)]. }
  assert (∀ q rq, <[next := r]> reqs !! q = Some rq → next ∉ waiters ∅ q rq) as Hni.
  { intros q rq Hq Hin. heap_cases; [unfold waiters in Hin; rewrite lookup_empty in Hin; cbn in Hin;
      rewrite Hfl in Hin; set_solver |].
    destruct (r_wait0 _ _ Hq) as [_ Hw]. destruct (Hw _ Hin) as (s & Hs & _). by destruct (Hfresh _ _ Hs). }
  split; [constructor; constructor |].
  - intros a s Ha. heap_cases; [lia |]. specialize (r_next0 _ _ Ha). lia.
  - intros a s Ha. heap_cases; eauto.
  - intros a s Ha. heap_cases; [split; congruence | eauto].
  - intros k a [[<- <-] | [Hne Hk]]%lookup_insert_Some; [exists r; by heap_simpl |].
    destruct (r_key0 _ _ Hk) as (s & Hs & ?). exists s. pose proof (Hfresh _ _ Hs). by heap_simpl.
  - intros a s Ha Hs. heap_cases; [by heap_simpl |].
    pose proof (r_open0 _ _ Ha Hs). rewrite lookup_insert_ne; [done |]. congruence.
  - intros a s Ha. unfold refs. rewrite Hto. heap_cases; [| by apply (r_ref0 a s)].
    rewrite Hrf, Hrs, Hno, lookup_empty. unfold b2z.
    rewrite !decide_False by (done || by intros []). lia.
  - done.
  - intros a s o Ha Ho. heap_cases; [congruence |].
    destruct (r_old0 _ _ _ Ha Ho) as (? & ? & ?). auto using live_set.
  - intros a s Ha. unfold waiters. rewrite lookup_empty. cbn.
    heap_cases; [rewrite Hfl; split; [constructor | set_solver] |].
    destruct (r_wait0 _ _ Ha) as [? Hw]. unfold waiters in *. rewrite lookup_empty in *. split; [done |].
    intros f Hf. destruct (Hw f Hf) as (rf & Hrf' & ?). exists rf. pose proof (Hfresh _ _ Hrf'). by heap_simpl.
  - intros a [? Ha]. by rewrite lookup_empty in Ha.
  - intros a s Ha Hs Hh. heap_cases; [done | eauto].
  - done.
  - intros u a Ha. destruct (r_upok0 _ _ Ha) as (s & Hs & ? & ? & ?). exists s.
    pose proof (Hfresh _ _ Hs). heap_simpl. auto.
  - constructor; [by heap_simpl | done | done |]. intros ([u b] & Hb & Hin)%list_elem_of_fmap.
    destruct (r_upok0 _ _ Hin) as (s & Hs & _). cbn in Hb. subst b. by destruct (Hfresh _ _ Hs).
Qed.

(** [srv->op(r)]: the request is the program's to answer. *)
Lemma RInv_call h tok reqs rp next up u a r :
  ready h reqs up a r → up_ok u r → RInv h tok reqs rp next up →
  RInv h tok reqs rp next (up ++ [(u, a)]).
Proof.
  intros [] Hok [? ? ? []]. constructor; [done.. |]. constructor.
  - rewrite fmap_app. apply list.NoDup_app. split_and!; [done | | by apply NoDup_singleton].
    intros b Hb ->%list_elem_of_singleton. done.
  - intros v b [Hb | [= -> ->]%list_elem_of_singleton]%elem_of_app; eauto 6.
Qed.

(** respond called by the program. *)
Lemma RInv_uncall h tok reqs rp next up u a :
  (u, a) ∈ up → RInv h tok reqs rp next up →
  let up' := filter (λ v, v.2 ≠ a) up in
  RInv h tok reqs rp next up' ∧ ∃ r, ready h reqs up' a r ∧ up_ok u r.
Proof.
  intros Hin [? ? ? []] up'. split; [constructor; [done.. |]; constructor |].
  - apply (sublist_NoDup _ up.*2); [done |]. apply fmap_sublist, sublist_filter.
  - intros v b [_ Hb]%list_elem_of_filter. eauto.
  - destruct (r_upok0 _ _ Hin) as (r & ? & ? & ? & ?). exists r. split; [| done].
    constructor; [done.. |]. intros (v & -> & [Hne _]%list_elem_of_filter)%list_elem_of_fmap. done.
Qed.
End Reqs.
