(* ===== verification/SrvProps.v ===== *)
(** * SrvProps: the request life cycle keeps the bookkeeping

    The pools, the reference counts, the completions of the R messages and respond itself:
    from a state in which the counts of {!SrvInv} are right, each of them either ends the
    process or leaves such a state, and touches no freed or foreign memory. *)

From S2P Require Import Prelude Bytes Fcall FcallProps Stat StatProps Rune RuneProps Intmap Srv SrvInv.

#[export] Instance mtype_eq_dec : EqDecision mtype.
Proof. solve_decision. Defined.

(** ** The answer on the wire *)

(** Where the type and the tag of an encoded message are. *)
Definition msg_type (m : list Z) : res Z := GBIT8 (dropZ BIT32SZ m).
Definition msg_tag (m : list Z) : res Z := GBIT16 (dropZ (BIT32SZ + BIT8SZ) m).

Definition small (s : cptr) : Prop := len (default [] s) < 2 ^ 31.

(** What an answer needs for convS2M to stay inside the memory it points to. *)
Definition sendable (f : Fcall) : Prop :=
  match mtype_of (f_type f) with
  | Some Rversion => small (f_version f)
  | Some Rerror => small (f_ename f)
  | Some Rwalk => 0 ≤ f_nwqid f ≤ MAXWELEM ∧ len (f_wqid f) = MAXWELEM
  | Some Rread => 0 ≤ f_count f ≤ len (f_data f) ∧ f_count f < 2 ^ 31
  | Some Rstat => 0 ≤ f_nstat f ≤ len (f_stat f) ∧ f_nstat f < 2 ^ 16
  | Some t => is_T t = false
  | None => False
  end.

Lemma small_size s : small s → BIT16SZ ≤ stringsz s < 2 ^ 31 + BIT16SZ.
Proof. unfold small. destruct s; cbn; unfold BIT16SZ; lia. Qed.

Ltac send_case :=
  eexists; split_and!; [reflexivity | |];
  [solve [ranges; lens] | f_equal; ranges; rewrite Z.mod_small; solve [lens]].

Lemma sendable_body f t :
  mtype_of (f_type f) = Some t → sendable f →
  is_T t = false ∧ ∃ body, convS2M_R t f = Ok body ∧ len body < 2 ^ 31 + 16 ∧
    sizeS2M f = Ok (BIT32SZ + BIT8SZ + BIT16SZ + len body).
Proof.
  intros Ht Hs. unfold sendable in Hs. rewrite Ht in Hs. unfold sizeS2M. rewrite Ht.
  destruct t; try discriminate Hs; (split; [reflexivity |]); cbn [convS2M_R mbind res_bind];
    try send_case.
  - apply small_size in Hs. send_case.
  - apply small_size in Hs. send_case.
  - destruct Hs as [Hn Hl]. destruct (pwqids_ok (Z.to_nat (f_nwqid f)) 0 (f_wqid f)) as (b & -> & Hb);
      [unfold MAXWELEM in *; lia |]. rewrite decide_False by lia. cbn [mbind res_bind]. send_case.
  - rewrite memread_ok by lia. cbn [mbind res_bind]. send_case.
  - rewrite memread_ok by lia. cbn [mbind res_bind]. send_case.
Qed.

Lemma convS2M_answer f n :
  sendable f →
  match convS2M f n with
  | Ok m => msg_type m = Ok (u8 (f_type f)) ∧ msg_tag m = Ok (u16 (f_tag f)) ∧ BIT32SZ + BIT8SZ + BIT16SZ ≤ len m ≤ n
  | Err => True
  | Ub => False
  end.
Proof.
  intros Hs. destruct (mtype_of (f_type f)) as [t|] eqn:Ht; [| unfold sendable in Hs; by rewrite Ht in Hs].
  destruct (sendable_body f t Ht Hs) as (HT & body & Hb & Hlen & Hsz).
  unfold convS2M. rewrite Hsz, Ht, HT, Hb. cbn [mbind res_bind].
  rewrite decide_False by lens. case_decide as Hn; [done |].
  rewrite !decide_False by (revert Hn; lens). unfold msg_type, msg_tag.
  rewrite app_assoc, (dropZ_app _ _ (BIT32SZ + BIT8SZ)) by lens.
  rewrite <- app_assoc, (dropZ_app _ _ BIT32SZ) by lens.
  rewrite GBIT8_PBIT8, GBIT16_PBIT16. split_and!; [done | done | |]; revert Hn; lens.
Qed.

(** ** Running the code *)
Section Server.
Context {T F RD IN : Type} {FT : FileTree T F RD}.
Variable ops : SrvOps F RD.
Variable read : IN → Z → Z * list Z * IN.

Local Abbreviation World := (St T F RD IN).
Implicit Types (s : World) (a x : addr) (r : Req) (error : cptr).

(** What the server program and the file tree promise: the strings they make for error
    messages and directory entries are of sane length, and reading a directory gives no
    more bytes than were asked for. *)
Record server_ok : Prop := {
  so_noauth : small (Some (op_noauth ops));
  so_badwrite : ∀ m, small (Some (op_badwrite ops m));
  so_walk1 : ∀ w f n, op_walk1 ops = Some w → small (w f n).1;
  so_clone : ∀ c f n, op_clone ops = Some c → small (c f n);
  so_removefile : ∀ g t, small (removefile g t).1;
  so_dir : ∀ t g, stat_size (file_dir t g) < 2 ^ 31;
  so_readdir : ∀ d n t, 0 ≤ n → len (readdirfile d n t).1 ≤ n
}.
Hypothesis Hsrv : server_ok.

(** [wp m s Q]: run from [s], [m] does nothing undefined, and [Q] holds of its result
    unless the process dies. *)
Definition wp {A} (m : M A) s (Q : A → World → Prop) : Prop :=
  match m s with Ok (v, s') => Q v s' | Err => True | Ub => False end.

Lemma wp_bind {A B} (m : M A) (k : A → M B) s Q :
  wp m s (λ v s', wp (k v) s' Q) → wp (m ≫= k) s Q.
Proof. unfold wp, mbind, M_bind. by destruct (m s) as [[v s'] | |]. Qed.

Lemma wp_mono {A} (m : M A) s (P Q : A → World → Prop) :
  wp m s P → (∀ v s', P v s' → Q v s') → wp m s Q.
Proof. unfold wp. destruct (m s) as [[v s'] | |]; auto. Qed.

Lemma wp_ret {A} (v : A) s (Q : A → World → Prop) : Q v s → wp (mret v) s Q.
Proof. done. Qed.

Lemma wp_get s (Q : World → World → Prop) : Q s s → wp get s Q.
Proof. done. Qed.

Lemma wp_modify g s (Q : () → World → Prop) : Q () (g s) → wp (modify g) s Q.
Proof. done. Qed.

Lemma wp_assert b s (Q : () → World → Prop) : (b = true → Q () s) → wp (assert b) s Q.
Proof. destruct b; [| done]. intros HQ. by apply HQ. Qed.

Lemma wp_nonnil {A} (p : option A) v s (Q : A → World → Prop) : p = Some v → Q v s → wp (nonnil p) s Q.
Proof. by intros ->. Qed.

Lemma wp_lift {A} (r : res A) s (Q : A → World → Prop) :
  r ≠ Ub → (∀ v, r = Ok v → Q v s) → wp (lift r) s Q.
Proof. destruct r; [| done..]. intros _ HQ. by apply HQ. Qed.

Lemma wp_getreq_ a r s (Q : Req → World → Prop) :
  s_reqs s !! a = Some r → Q r s → wp (getreq_ a) s Q.
Proof. intros Ha HQ. apply wp_bind, wp_get. by apply (wp_nonnil _ r). Qed.

Lemma wp_getfid x f s (Q : Fid F RD → World → Prop) :
  s_fids s !! x = Some f → Q f s → wp (getfid x) s Q.
Proof. intros Hx HQ. apply wp_bind, wp_get. by apply (wp_nonnil _ f). Qed.

Lemma wp_modreq a r g s (Q : () → World → Prop) :
  s_reqs s !! a = Some r → Q () (s <| s_reqs := <[a := g r]> (s_reqs s) |>) → wp (modreq a g) s Q.
Proof. intros Ha HQ. apply wp_bind, (wp_getreq_ _ r); [done |]. done. Qed.

Lemma wp_modfid x f g s (Q : () → World → Prop) :
  s_fids s !! x = Some f → Q () (s <| s_fids := <[x := g f]> (s_fids s) |>) → wp (modfid x g) s Q.
Proof. intros Ha HQ. apply wp_bind, (wp_getfid _ f); [done |]. done. Qed.

(** A second assignment replaces the first. *)
Lemma wp_modreq_again a r g s (Q : () → World → Prop) :
  Q () (s <| s_reqs := <[a := g r]> (s_reqs s) |>) →
  wp (modreq a g) (s <| s_reqs := <[a := r]> (s_reqs s) |>) Q.
Proof.
  intros HQ. apply (wp_modreq _ r); [apply lookup_insert_eq |].
  rewrite <- (insert_insert_eq _ _ _ r) in HQ. by destruct s.
Qed.

Lemma wp_modfid_again x f g s (Q : () → World → Prop) :
  Q () (s <| s_fids := <[x := g f]> (s_fids s) |>) →
  wp (modfid x g) (s <| s_fids := <[x := f]> (s_fids s) |>) Q.
Proof.
  intros HQ. apply (wp_modfid _ f); [apply lookup_insert_eq |].
  rewrite <- (insert_insert_eq _ _ _ f) in HQ. by destruct s.
Qed.

(** ** The state of the server *)

(** [ex]: a fid not filled in yet; [h]: requests whose flushes are being answered;
    [tok]: a reference in the hands of the code.  Between steps there is none. *)
Record good (ex : option addr) (h : gmap addr (list addr)) (tok : option addr) s : Prop := {
  g_fpool : intmap_ok (s_fpool s);
  g_rpool : intmap_ok (s_rpool s);
  g_bufs : s_bufs s = Some (s_msize s);
  g_msize : 0 ≤ s_msize s < 2 ^ 31;
  g_fids : FInv ex (s_fids s) (λ x, total (fid_uses x) (s_reqs s)) (abs (s_fpool s)) (s_next s);
  g_reqs : RInv h tok (s_reqs s) (abs (s_rpool s)) (s_next s) (s_upcalls s)
}.

Abbreviation may_answer h s a r := (ready h (s_reqs s) (s_upcalls s) a r).

(** closefid: the tree may change, the heap loses one reference. *)
Lemma wp_closefid x f s (Q : () → World → Prop) :
  s_fids s !! x = Some f →
  (∀ t, Q () (s <| s_fids := drop_fid x f (s_fids s) |> <| s_tree := t |>)) →
  wp (closefid (Some x)) s Q.
Proof.
  intros Hx HQ. apply wp_bind, wp_ret, wp_bind, (wp_getfid _ f); [done |].
  apply wp_bind, wp_modify. unfold drop_fid in HQ. cbn. case_decide as Hz.
  - rewrite <- (delete_insert_eq _ _ (f <| fi_ref := fi_ref f - 1 |>)) in HQ.
    destruct s, (fi_rdir f) as [d|], (fi_file f) as [g|]; exact (HQ _).
  - destruct s. exact (HQ _).
Qed.

Lemma total_fids_upd x y (reqs : gmap addr Req) a r r' d :
  reqs !! a = Some r → fid_uses x r' = fid_uses x r + d → (y ≠ x → fid_uses y r' = fid_uses y r) →
  total (fid_uses y) (<[a := r']> reqs) = upd (λ z, total (fid_uses z) reqs) x d y.
Proof.
  intros Ha Hx Hy. rewrite (total_upd _ _ _ r) by done. unfold upd.
  case_decide as He; [subst; lia |]. rewrite Hy by done. lia.
Qed.

(** Assigning members of a request that are not pointers. *)
Lemma good_core ex h tok s a r r' :
  may_answer h s a r → core r' = core r →
  rq_fid r' = rq_fid r → rq_newfid r' = rq_newfid r → rq_afid r' = rq_afid r →
  good ex h tok s →
  good ex h tok (s <| s_reqs := <[a := r']> (s_reqs s) |>) ∧
  may_answer h (s <| s_reqs := <[a := r']> (s_reqs s) |>) a r'.
Proof.
  intros Hrd Hc Hf Hn Ha []. destruct (RInv_core _ _ _ _ _ _ _ _ r' Hrd Hc g_reqs0) as [Hr' Hrd'].
  split; [| done]. constructor; try done. cbn. eapply FInv_ext, g_fids0. intros y. cbn.
  rewrite (total_upd _ _ _ r) by apply Hrd. unfold fid_uses. rewrite Hf, Hn, Ha. lia.
Qed.

(** Assigning members of a fid other than its number and count. *)
Lemma good_fid ex ex' h tok s x f f' :
  s_fids s !! x = Some f → fi_ref f' = fi_ref f → fi_fid f' = fi_fid f →
  (ex' = ex ∧ (fi_uid f ≠ None → fi_uid f' ≠ None)) ∨ (fi_uid f' ≠ None ∧ (ex' = ex ∨ ex = Some x)) →
  good ex h tok s → good ex' h tok (s <| s_fids := <[x := f']> (s_fids s) |>).
Proof. intros Hx Hr Hn Hu []. constructor; try done. by eapply FInv_set. Qed.

(** Members the invariant does not mention. *)
Lemma good_other ex h tok s i out t :
  good ex h tok s → good ex h tok (s <| s_in := i |> <| s_out := out |> <| s_tree := t |>).
Proof. by intros []. Qed.

(** ** closereq *)

Lemma wp_closefid_opt p s fids' (Q : () → World → Prop) :
  drop_opt p (s_fids s) fids' → (∀ t, Q () (s <| s_fids := fids' |> <| s_tree := t |>)) →
  wp (closefid_opt p) s Q.
Proof.
  intros Hd HQ. destruct p as [x|]; cbn in Hd.
  - destruct Hd as (f & Hx & ->). by apply (wp_closefid _ f).
  - subst fids'. apply wp_ret. destruct s. exact (HQ _).
Qed.

(** What closereq does to the heaps. *)
Lemma closereq_run fuel o r s (Q : () → World → Prop) :
  s_reqs s !! o = Some r →
  (rq_ref r - 1 ≠ 0 → Q () (s <| s_reqs := <[o := r <| rq_ref := rq_ref r - 1 |>]> (s_reqs s) |>)) →
  (rq_ref r - 1 = 0 → rq_pool r = true ∧ rq_oldreq r = None ∧ rq_flush r = [] ∧
     ∃ fids', close_fids r (s_fids s) fids' ∧
       ∀ t, Q () (s <| s_fids := fids' |> <| s_tree := t |> <| s_reqs := delete o (s_reqs s) |>)) →
  wp (closereq (S fuel) (Some o)) s Q.
Proof.
  intros Ho Hdec Hfree. cbn [closereq]. apply wp_bind, (wp_getreq_ _ r); [done |].
  apply wp_bind, wp_modify. set (r' := r <| rq_ref := rq_ref r - 1 |>) in *.
  case_decide as Hz; [| by apply wp_ret, Hdec].
  destruct (Hfree Hz) as (Hp & Hold & Hfl & fids' & (m1 & m2 & H1 & H2 & H3) & HQ).
  apply wp_bind, (wp_closefid_opt _ _ m1); [done |]. intros t1.
  apply wp_bind, (wp_closefid_opt _ _ m2); [done |]. intros t2.
  apply wp_bind, (wp_closefid_opt _ _ fids'); [done |]. intros t3.
  change (rq_pool r' = true) in Hp. change (rq_oldreq r' = None) in Hold.
  change (rq_flush r' = []) in Hfl. rewrite Hp, Hold, Hfl. rewrite <- (delete_insert_eq _ _ r') in HQ.
  destruct s. exact (HQ t3).
Qed.

(** What is left of the requests after a reference to [o] is gone. *)
Definition dropped_req (o : addr) (r : Req) (reqs reqs' : gmap addr Req) : Prop :=
  reqs' = <[o := r <| rq_ref := rq_ref r - 1 |>]> reqs ∨
  reqs' = delete o reqs ∧ rq_responded r = true.

Lemma good_closereq ex h o r s :
  good ex h (Some o) s → s_reqs s !! o = Some r →
  (rq_ref r - 1 ≠ 0 →
     good ex h None (s <| s_reqs := <[o := r <| rq_ref := rq_ref r - 1 |>]> (s_reqs s) |>)) ∧
  (rq_ref r - 1 = 0 → rq_pool r = true ∧ rq_oldreq r = None ∧ rq_flush r = [] ∧ rq_responded r = true ∧
     ∃ fids', close_fids r (s_fids s) fids' ∧ ∀ t,
       good ex h None (s <| s_fids := fids' |> <| s_tree := t |> <| s_reqs := delete o (s_reqs s) |>)).
Proof.
  intros [] Ho. split; intros Hz.
  - constructor; try done; [| by apply RInv_decref].
    eapply FInv_ext, g_fids0. intros x. cbn. rewrite (total_upd _ _ _ r) by done. unfold fid_uses. cbn. lia.
  - destruct (RInv_free _ _ _ _ _ _ _ Ho Hz g_reqs0) as (Hr & ? & ? & ?).
    split_and!; [destruct g_reqs0 as [[] _ _ _]; eauto | done.. |].
    destruct (FInv_close _ _ _ _ _ r (λ x, total_ge _ _ _ _ (fid_uses_nonneg x) Ho) g_fids0)
      as (fids' & Hcl & Hf).
    exists fids'. split; [exact Hcl |]. intros t. constructor; try done. cbn.
    eapply FInv_ext, Hf. intros x. cbn. by rewrite (total_delete _ _ _ _ Ho).
Qed.

Lemma wp_closereq fuel ex h o r s (Q : () → World → Prop) :
  good ex h (Some o) s → s_reqs s !! o = Some r →
  (∀ fids' t reqs', dropped_req o r (s_reqs s) reqs' →
     let s' := s <| s_fids := fids' |> <| s_tree := t |> <| s_reqs := reqs' |> in
     good ex h None s' → Q () s') →
  wp (closereq (S fuel) (Some o)) s Q.
Proof.
  intros Hg Ho HQ. destruct (good_closereq _ _ _ _ _ Hg Ho) as [H1 H2].
  apply (closereq_run _ _ r); [done | |].
  - intros Hz. specialize (H1 Hz). specialize (HQ (s_fids s) (s_tree s) _ (or_introl eq_refl)).
    destruct s. exact (HQ H1).
  - intros Hz. destruct (H2 Hz) as (? & ? & ? & ? & fids' & ? & ?). split_and!; [done.. |].
    exists fids'. split; [done |]. intros t. apply HQ; [by right | auto].
Qed.

(** ** What respond does before it sends the answer *)

(** Unanswered requests counted by tag. *)
Definition tally (P : Z → Z) s : Z :=
  total (λ r, if rq_responded r then 0 else P (f_tag (rq_ifcall r))) (s_reqs s).

(** Nothing was sent, handed out or answered. *)
Record quiet s s' : Prop := {
  q_in : s_in s' = s_in s;
  q_out : s_out s' = s_out s;
  q_up : s_upcalls s' = s_upcalls s;
  q_tally : ∀ P, tally P s' = tally P s
}.

#[export] Instance quiet_preorder : PreOrder quiet.
Proof.
  split; [done |]. intros s1 s2 s3 [] []. constructor; [congruence.. |]. intros P. by rewrite q_tally1.
Qed.

Lemma quiet_set s a r r' :
  s_reqs s !! a = Some r → rq_responded r' = rq_responded r →
  f_tag (rq_ifcall r') = f_tag (rq_ifcall r) → quiet s (s <| s_reqs := <[a := r']> (s_reqs s) |>).
Proof.
  intros Ha Hr Ht. constructor; [done.. |]. intros P. unfold tally. cbn.
  rewrite (total_upd _ _ _ r) by done. rewrite Ht, Hr. lia.
Qed.

Lemma quiet_core s a r r' :
  s_reqs s !! a = Some r → core r' = core r → quiet s (s <| s_reqs := <[a := r']> (s_reqs s) |>).
Proof. intros Ha Hc. injection Hc as _ Ht _ _ _ _ Hr _. by apply (quiet_set _ _ r). Qed.

Definition settled h a r s s1 : Prop :=
  ∃ r1, good None h None s1 ∧ may_answer h s1 a r1 ∧ core r1 = core r ∧ quiet s s1 ∧
    sendable (final r1).

(** [closefid(removefid(pool, k))] *)
Lemma wp_unpool ex h s k y (Q : () → World → Prop) :
  good ex h None s → abs (s_fpool s) !! k = Some y →
  (∀ fids' fpool' t, let s' := s <| s_fpool := fpool' |> <| s_fids := fids' |> <| s_tree := t |> in
     good (if decide (ex = Some y) then None else ex) h None s' → Q () s') →
  wp (v ← removefid k; closefid v) s Q.
Proof.
  intros [] Hk HQ. apply wp_bind, wp_bind, wp_get.
  destruct (deletekey_abs (s_fpool s) k) as (m & -> & Hm & Habs); [done |].
  apply wp_bind, wp_modify, wp_ret. rewrite Hk.
  pose proof (FInv_remove _ _ _ _ _ _ _ Hk g_fids0) as Hf.
  destruct (fv_live _ _ _ _ _ Hf y) as [f Hy].
  { unfold upd. rewrite decide_True by done.
    pose proof (total_nonneg _ (s_reqs s) (fid_uses_nonneg y)). lia. }
  apply (wp_closefid _ f); [done |]. intros t. apply HQ. constructor; try done. cbn. rewrite Habs.
  eapply FInv_ext, (FInv_drop _ _ _ _ _ _ _ Hy), Hf.
  - intros x. unfold upd. cbn. destruct (decide (x = y)); lia.
  - unfold upd. rewrite decide_True by done.
    pose proof (total_nonneg _ (s_reqs s) (fid_uses_nonneg y)). lia.
Qed.

Definition payload (t : mtype) (o : Fcall) : Prop :=
  match t with
  | Tversion => small (f_version o)
  | Twalk => 0 ≤ f_nwqid o ≤ MAXWELEM ∧ len (f_wqid o) = MAXWELEM
  | Tread => 0 ≤ f_count o ≤ len (f_data o) ∧ f_count o < 2 ^ 31
  | Tstat => 0 ≤ f_nstat o ≤ len (f_stat o) ∧ f_nstat o < 2 ^ 16
  | _ => is_T t = true ∧ t ≠ Terror
  end.

Lemma sendable_error r e : rq_error r = Some e → small (Some e) → sendable (final r).
Proof. intros He Hs. unfold final. by rewrite He. Qed.

Lemma sendable_final r t :
  rq_error r = None → mtype_of (f_type (rq_ifcall r)) = Some t → payload t (rq_ofcall r) →
  sendable (final r).
Proof.
  intros He Ht Hp. unfold final, sendable. rewrite He. apply mtype_of_Some in Ht. cbn. rewrite Ht.
  destruct t; cbn in *; try done; by destruct Hp.
Qed.

(** The number of [p] is in the pool, so that it can be taken out again; if a fid is not
    filled in, it is the one that goes. *)
Definition pooled (ex : option addr) s (p : option addr) : Prop :=
  match p with
  | Some x => ∃ f y, s_fids s !! x = Some f ∧ abs (s_fpool s) !! fi_fid f = Some y ∧
                     (ex = None ∨ ex = Some y)
  | None => ex = None
  end.

(** What respond relies on. *)
Definition resp_ok (ex : option addr) s r error : Prop :=
  small error ∧
  match mtype_of (f_type (rq_ifcall r)) with
  | Some Tversion => ex = None ∧ payload Tversion (rq_ofcall r)
  | Some Tauth => if error is None then ex = None else pooled ex s (rq_afid r)
  | Some Tattach => if error is None then ex = None else pooled ex s (rq_fid r)
  | Some Twalk => ex = None ∧ payload Twalk (rq_ofcall r) ∧
      (error ≠ None ∨ f_nwqid (rq_ofcall r) < f_nwname (rq_ifcall r) →
       f_fid (rq_ifcall r) ≠ f_newfid (rq_ifcall r) → pooled None s (rq_newfid r)) ∧
      (error = None → f_nwname (rq_ifcall r) ≤ f_nwqid (rq_ofcall r) → rq_fid r ≠ None ∧ rq_newfid r ≠ None)
  | Some (Topen | Tcreate | Twrite | Tremove) => ex = None ∧ (error = None → rq_fid r ≠ None)
  | Some Tread => ex = None ∧ (error = None → rq_fid r ≠ None ∧ payload Tread (rq_ofcall r))
  | Some Tstat => ex = None ∧ (error = None → stat_size (rq_d r) < 2 ^ 31)
  | _ => ex = None
  end.

Lemma fid_live ex h tok s a r x :
  good ex h tok s → s_reqs s !! a = Some r → 0 < fid_uses x r → ∃ f, s_fids s !! x = Some f.
Proof.
  intros [] Ha Hx. apply (fv_live _ _ _ _ _ g_fids0).
  pose proof (total_ge _ _ _ _ (fid_uses_nonneg x) Ha). lia.
Qed.

Lemma uses_fid x r : rq_fid r = Some x → 0 < fid_uses x r.
Proof. intros Hx. unfold fid_uses. rewrite (b2z_true _ Hx). b2z_bounds. lia. Qed.
Lemma uses_newfid x r : rq_newfid r = Some x → 0 < fid_uses x r.
Proof. intros Hx. unfold fid_uses. rewrite (b2z_true _ Hx). b2z_bounds. lia. Qed.
Lemma uses_afid x r : rq_afid r = Some x → 0 < fid_uses x r.
Proof. intros Hx. unfold fid_uses. rewrite (b2z_true _ Hx). b2z_bounds. lia. Qed.

Lemma settled_now h a r s :
  good None h None s → may_answer h s a r → sendable (final r) → settled h a r s s.
Proof. intros. by exists r. Qed.

(** rauth and rattach: a failed request takes its new fid back. *)
Lemma wp_takeback ex h s a r p error (Q : () → World → Prop) :
  good ex h None s → may_answer h s a r → rq_error r = error → small error →
  (if error is None then ex = None ∧ sendable (final r) else pooled ex s p) →
  (∀ s', settled h a r s s' → Q () s') →
  wp (match error, p with
      | Some _, Some fa => f ← getfid fa; v ← removefid (fi_fid f); closefid v
      | _, _ => mret ()
      end) s Q.
Proof.
  intros Hg Hrd He Hsm Hp HQ. destruct error as [e|].
  - pose proof (sendable_error r e He Hsm). destruct p as [x|]; cbn in Hp.
    + destruct Hp as (f & y & Hx & Hy & Hex). apply wp_bind, (wp_getfid _ f); [done |].
      eapply wp_unpool; [done | done |]. intros fids' fpool' t s' Hg'. apply HQ. exists r.
      replace (if decide (ex = Some y) then None else ex) with (@None addr) in Hg'
        by (destruct Hex as [-> | ->]; by case_decide). split_and!; try done.
    + subst ex. by apply wp_ret, HQ, settled_now.
  - destruct Hp as [-> ?]. apply wp_ret, HQ. by apply settled_now.
Qed.

Lemma wp_rversion h s a r error (Q : () → World → Prop) :
  good None h None s → may_answer h s a r → rq_error r = error →
  mtype_of (f_type (rq_ifcall r)) = Some Tversion → payload Tversion (rq_ofcall r) →
  (∀ s', settled h a r s s' → Q () s') → wp (rversion a error) s Q.
Proof.
  intros Hg Hrd He Ht Hp HQ. apply wp_bind, wp_assert. intros Hn%bool_decide_eq_true. subst error.
  pose proof (sendable_final _ _ Hn Ht Hp) as Hsend.
  apply wp_bind, (wp_getreq_ _ r); [apply Hrd |]. apply wp_bind, wp_get.
  case_decide; [by apply wp_ret, HQ, settled_now |]. case_decide as Hneg; [done |].
  apply wp_modify, HQ. exists r. split_and!; try done.
  destruct Hg. constructor; try done; cbn.
  - f_equal. unfold s32, signed, u32 in *. case_decide; [done |].
    pose proof (Z.mod_pos_bound (f_msize (rq_ofcall r)) (2 ^ 32)). lia.
  - unfold s32, signed, u32 in *. change (2 ^ (32 - 1)) with (2 ^ 31) in *.
    pose proof (Z.mod_pos_bound (f_msize (rq_ofcall r)) (2 ^ 32)). case_decide; lia.
Qed.

(** Changing the error, the answer or the entry of a request before it is sent. *)
Lemma settled_core h a r r1 s :
  good None h None s → may_answer h s a r → core r1 = core r →
  rq_fid r1 = rq_fid r → rq_newfid r1 = rq_newfid r → rq_afid r1 = rq_afid r → sendable (final r1) →
  settled h a r s (s <| s_reqs := <[a := r1]> (s_reqs s) |>).
Proof.
  intros Hg Hrd Hc Hf Hn Ha Hs. destruct (good_core _ _ _ _ _ _ r1 Hrd Hc Hf Hn Ha Hg).
  exists r1. split_and!; try done. apply (quiet_core _ _ r); [apply Hrd | done].
Qed.

Lemma settled_fid h a r x f f' s :
  good None h None s → may_answer h s a r → s_fids s !! x = Some f → fi_ref f' = fi_ref f →
  fi_fid f' = fi_fid f → fi_uid f' = fi_uid f → sendable (final r) →
  settled h a r s (s <| s_fids := <[x := f']> (s_fids s) |>).
Proof.
  intros Hg Hrd Hx Hr Hn Hu Hs. exists r. split_and!; try done.
  apply (good_fid None None _ _ _ _ f); try done. left. by rewrite Hu.
Qed.

Lemma settled_trans h a r r1 s s1 s2 :
  core r1 = core r → quiet s s1 → settled h a r1 s1 s2 → settled h a r s s2.
Proof.
  intros Hc Hq (r2 & ? & ? & ? & ? & ?). exists r2. split_and!; try done; [congruence | by etrans].
Qed.

Lemma wp_rwalk h s a r error (Q : () → World → Prop) :
  good None h None s → may_answer h s a r → rq_error r = error →
  mtype_of (f_type (rq_ifcall r)) = Some Twalk → resp_ok None s r error →
  (∀ s', settled h a r s s' → Q () s') → wp (rwalk a error) s Q.
Proof.
  intros Hg Hrd He Ht [Hsm Hok] HQ. rewrite Ht in Hok. destruct Hok as (_ & Hp & Htb & Hgo).
  apply wp_bind, (wp_getreq_ _ r); [apply Hrd |]. cbv zeta. case_decide as Hfail.
  - apply wp_bind.
    eapply (wp_mono _ _ (λ _ s1, good None h None s1 ∧ may_answer h s1 a r ∧ quiet s s1)).
    { case_decide as Hne; [| by apply wp_ret]. specialize (Htb Hfail Hne).
      destruct (rq_newfid r) as [x|]; [| by apply wp_ret].
      destruct Htb as (f & y & Hx & Hy & _). apply wp_bind, (wp_getfid _ f); [done |].
      eapply wp_unpool; [done | done |]. intros fids' fpool' t s' Hg'.
      rewrite decide_False in Hg' by done. done. }
    intros _ s1 (Hg1 & Hrd1 & Hq1).
    assert (∀ s2, settled h a r s1 s2 → Q () s2) as HQ1.
    { intros s2 Hs2. by eapply HQ, settled_trans. }
    case_decide as Hz; [case_decide as Hnf |].
    + apply (wp_modreq _ r); [apply Hrd1 |]. apply HQ1. by apply settled_core.
    + apply wp_ret, HQ1, settled_now; [done | done |]. destruct error as [e|] eqn:Hee.
      * by eapply sendable_error.
      * by eapply sendable_final.
    + apply (wp_modreq _ r); [apply Hrd1 |]. apply HQ1. apply settled_core; try done.
      by eapply sendable_final.
  - assert (error = None ∧ f_nwname (rq_ifcall r) ≤ f_nwqid (rq_ofcall r)) as [-> Hle].
    { destruct error; [destruct Hfail; by left |]. split; [done | lia]. }
    destruct (Hgo eq_refl Hle) as [Hfid Hnf].
    pose proof (sendable_final _ _ He Ht Hp) as Hsend.
    destruct (rq_newfid r) as [x|] eqn:Hnx; [| done]. apply wp_bind, wp_ret.
    destruct (fid_live _ _ _ _ _ _ x Hg (rd_live _ _ _ _ _ Hrd) (uses_newfid _ _ Hnx)) as [n Hx].
    case_decide as Hz.
    + destruct (rq_fid r) as [y|] eqn:Hfy; [| done]. apply wp_bind, wp_ret.
      destruct (fid_live _ _ _ _ _ _ y Hg (rd_live _ _ _ _ _ Hrd) (uses_fid _ _ Hfy)) as [f Hy].
      apply wp_bind, (wp_getfid _ f); [done |]. apply (wp_modfid _ n); [done |].
      apply HQ. by apply (settled_fid _ _ _ _ n).
    + destruct Hp as [Hn Hl].
      destruct (lookup_lt_is_Some_2 (f_wqid (rq_ofcall r)) (Z.to_nat (f_nwqid (rq_ofcall r) - 1)))
        as [q Hq]; [lia |].
      apply wp_bind, (wp_nonnil _ q); [done |]. apply (wp_modfid _ n); [done |].
      apply HQ. by apply (settled_fid _ _ _ _ n).
Qed.

(** Find the fid a request points to. *)
Lemma request_fid h s a r :
  good None h None s → may_answer h s a r → rq_fid r ≠ None →
  ∃ x f, rq_fid r = Some x ∧ s_fids s !! x = Some f.
Proof.
  intros Hg Hrd Hn. destruct (rq_fid r) as [x|] eqn:Hx; [| done].
  destruct (fid_live _ _ _ _ _ _ x Hg (rd_live _ _ _ _ _ Hrd) (uses_fid _ _ Hx)) as [f Hf]. eauto.
Qed.

Lemma settled_tree h a r t s :
  good None h None s → may_answer h s a r → sendable (final r) →
  settled h a r s (s <| s_tree := t |>).
Proof. intros [] **. by exists r. Qed.

(** ropen, rcreate, rread and rwrite. *)
Lemma wp_rsimple h s a r error t (Q : () → World → Prop) :
  good None h None s → may_answer h s a r → rq_error r = error → small error →
  mtype_of (f_type (rq_ifcall r)) = Some t → (error = None → rq_fid r ≠ None ∧ payload t (rq_ofcall r)) →
  (∀ s', settled h a r s s' → Q () s') →
  wp (ropen a error) s Q ∧ wp (rcreate a error) s Q ∧ wp (rread a error) s Q ∧ wp (rwrite a error) s Q.
Proof.
  intros Hg Hrd He Hsm Ht Hok HQ. destruct error as [e|].
  { pose proof (HQ _ (settled_now _ _ _ _ Hg Hrd (sendable_error _ _ He Hsm))).
    split_and!; by apply wp_ret. }
  destruct (Hok eq_refl) as [Hn Hp]. pose proof (sendable_final _ _ He Ht Hp) as Hsend.
  destruct (request_fid _ _ _ _ Hg Hrd Hn) as (x & f & Hx & Hf).
  split_and!; apply wp_bind, (wp_getreq_ _ r); try apply Hrd; rewrite Hx; apply wp_bind, wp_ret.
  - apply wp_bind, (wp_modfid _ f); [done |]. case_decide.
    + apply wp_modfid_again, HQ. by apply (settled_fid _ _ _ _ f).
    + apply wp_ret, HQ. by apply (settled_fid _ _ _ _ f).
  - apply (wp_modfid _ f); [done |]. apply HQ. by apply (settled_fid _ _ _ _ f).
  - apply wp_bind, (wp_getfid _ f); [done |]. case_decide; [| by apply wp_ret, HQ, settled_now].
    apply wp_modify, HQ. by apply (settled_fid _ _ _ _ f).
  - apply wp_bind, (wp_getfid _ f); [done |].
    destruct (fi_file f); [| by apply wp_ret, HQ, settled_now].
    apply wp_bind, wp_get, wp_modify, HQ. by apply settled_tree.
Qed.

Lemma wp_rremove h s a r error (Q : () → World → Prop) :
  good None h None s → may_answer h s a r → rq_error r = error → small error →
  mtype_of (f_type (rq_ifcall r)) = Some Tremove → (error = None → rq_fid r ≠ None) →
  (∀ s', settled h a r s s' → Q () s') → wp (rremove a error) s Q.
Proof.
  intros Hg Hrd He Hsm Ht Hok HQ. destruct error as [e|].
  { apply wp_ret, HQ, settled_now; [done | done |]. by eapply sendable_error. }
  assert (sendable (final r)) as Hsend by (by eapply sendable_final).
  destruct (request_fid _ _ _ _ Hg Hrd (Hok eq_refl)) as (x & f & Hx & Hf).
  apply wp_bind, (wp_getreq_ _ r); [apply Hrd |]. rewrite Hx. apply wp_bind, wp_ret.
  apply wp_bind, (wp_getfid _ f); [done |].
  destruct (fi_file f) as [g|]; [| apply wp_ret, HQ, settled_now; auto].
  apply wp_bind, wp_get. pose proof (so_removefile Hsrv g (s_tree s)) as Hrm.
  destruct (removefile g (s_tree s)) as [e t]. apply wp_bind, wp_modify, wp_bind.
  set (s1 := s <| s_tree := t |>). assert (good None h None s1) as Hg1 by (by destruct Hg).
  assert (may_answer h s1 a r) as Hrd1 by done. assert (quiet s s1) as Hq1 by done.
  destruct e as [e|].
  - apply (wp_modreq _ r); [apply Hrd1 |]. apply (wp_modfid _ f); [done |].
    eapply HQ, (settled_trans _ _ _ (r <| rq_error := Some e |>)), settled_fid; try done.
    + etrans; [exact Hq1 |]. by apply (quiet_core _ _ r); [apply Hrd1 |].
    + by apply (good_core None h None _ _ r).
    + by apply (good_core None h None _ _ r).
  - apply wp_ret, (wp_modfid _ f); [done |].
    eapply HQ, settled_trans, settled_fid; try done.
Qed.

Lemma convD2M_int_ok d n s (Q : Z * list Z → World → Prop) :
  stat_size d < 2 ^ 31 → BIT16SZ ≤ n →
  Q (if decide (n < stat_size d) then (BIT16SZ, PBIT16 (stat_size d - BIT16SZ))
     else (stat_size d, dir_bytes d)) s →
  wp (convD2M_int d n) s Q.
Proof.
  intros Hd Hn HQ. unfold wp, convD2M_int. destruct (convD2M_cases d n Hd) as [_ ->].
  rewrite decide_False by lia. by case_decide.
Qed.

Lemma wp_rstat h s a r error (Q : () → World → Prop) :
  good None h None s → may_answer h s a r → rq_error r = error → small error →
  mtype_of (f_type (rq_ifcall r)) = Some Tstat → (error = None → stat_size (rq_d r) < 2 ^ 31) →
  (∀ s', settled h a r s s' → Q () s') → wp (rstat a error) s Q.
Proof.
  intros Hg Hrd He Hsm Ht Hok HQ. destruct error as [e|].
  { apply wp_ret, HQ, settled_now; [done | done |]. by eapply sendable_error. }
  specialize (Hok eq_refl). pose proof (stat_size_pos (rq_d r)).
  apply wp_bind, (wp_getreq_ _ r); [apply Hrd |].
  apply wp_bind, convD2M_int_ok; [done | done |]. rewrite decide_True by (unfold BIT16SZ; lia).
  rewrite decide_False by (by intros []). unfold wp, mbind at 1, M_bind at 1.
  replace (GBIT16 (PBIT16 (stat_size (rq_d r) - BIT16SZ)))
    with (Ok (u16 (stat_size (rq_d r) - BIT16SZ))) by (by rewrite <- (app_nil_r (PBIT16 _)), GBIT16_PBIT16).
  cbn [mbind res_bind]. fold (@wp ()). pose proof (u16_range (stat_size (rq_d r) - BIT16SZ)).
  apply wp_bind, convD2M_int_ok; [done | ranges; lia |].
  case_decide; cbv zeta beta iota; apply wp_bind, (wp_modreq _ r); try apply Hrd.
  - rewrite decide_True by done. apply wp_modreq_again, HQ. by apply settled_core.
  - case_decide.
    + apply wp_modreq_again, HQ. by apply settled_core.
    + apply wp_ret, HQ, settled_core; try done. eapply sendable_final; [done | done |].
      change (0 ≤ u16 (stat_size (rq_d r)) ≤ len (dir_bytes (rq_d r)) ∧ u16 (stat_size (rq_d r)) < 2 ^ 16).
      rewrite len_dir_bytes. pose proof (u16_range (stat_size (rq_d r))). split; [| ranges; lia].
      split; [ranges; lia |]. unfold u16. apply Z.mod_le; ranges; lia.
Qed.

(** The reference a flush has to the request it flushes goes to the code. *)
Lemma good_oldreq h s a r o :
  good None h None s → may_answer h s a r → rq_oldreq r = Some o →
  let s' := s <| s_reqs := <[a := r <| rq_oldreq := None |>]> (s_reqs s) |> in
  good None h (Some o) s' ∧ may_answer h s' a (r <| rq_oldreq := None |>).
Proof.
  intros [] Hrd Hold. split; [| by apply (ready_set _ _ _ _ r)].
  constructor; try done.
  - eapply FInv_ext, g_fids0. intros x. cbn. rewrite (total_upd _ _ _ r) by apply Hrd.
    unfold fid_uses. cbn. lia.
  - eapply RInv_oldreq; [done | | | done | done].
    + intros b. rewrite Hold. unfold b2z at 2 3. rewrite !(decide_False (P := None = Some b)) by done. lia.
    + intros b [= <-]. destruct g_reqs0 as [_ _ [] _]. by eapply r_old, Hold; apply Hrd.
Qed.

Definition no_error s a : Prop := ∀ r, s_reqs s !! a = Some r → rq_error r = None.

Lemma no_error_set s a r : rq_error r = None → no_error (s <| s_reqs := <[a := r]> (s_reqs s) |>) a.
Proof. intros He r' Hr'. cbn in Hr'. rewrite lookup_insert_eq in Hr'. congruence. Qed.

Lemma wp_rflush fuel h s a r error (Q : bool → World → Prop) :
  good None h None s → may_answer h s a r → rq_error r = error →
  mtype_of (f_type (rq_ifcall r)) = Some Tflush →
  (∀ s', good None h None s' → quiet s s' → s_msize s' = s_msize s → Q true s') →
  (∀ s', settled h a (r <| rq_oldreq := None |>) s s' → no_error s' a → Q false s') →
  wp (rflush (closereq (S fuel)) a error) s Q.
Proof.
  intros Hg Hrd He Ht Hdelay HQ. apply wp_bind, wp_assert. intros Hn%bool_decide_eq_true. subst error.
  pose proof (rd_live _ _ _ _ _ Hrd) as Ha.
  assert (sendable (final (r <| rq_oldreq := None |>))) as Hsend by (by eapply sendable_final).
  apply wp_bind, (wp_getreq_ _ r); [done |]. destruct (rq_oldreq r) as [o|] eqn:Hold.
  2: { apply wp_bind, (wp_modreq _ r); [done |]. apply wp_ret, HQ; [| by apply no_error_set].
       assert (core (r <| rq_oldreq := None |>) = core r) as Hc by (unfold core; cbn; by rewrite Hold).
       destruct (settled_core h a r (r <| rq_oldreq := None |>) s) as (r1 & ? & ? & ? & ? & ?); try done.
       exists r1. split_and!; try done. etrans; [eassumption | by symmetry]. }
  destruct (good_oldreq h s a r o Hg Hrd Hold) as [Hgv Hrdv].
  assert (∃ ro, s_reqs s !! o = Some ro) as [ro Ho].
  { destruct Hg as [_ _ _ _ _ [_ _ [] _]]. by eapply r_old, Hold. }
  apply wp_bind, (wp_getreq_ _ ro); [done |]. destruct (rq_responded ro) eqn:Hro.
  - assert (a ≠ o) as Hne by (intros ->; pose proof (rd_open _ _ _ _ _ Hrd); congruence).
    assert (s_reqs (s <| s_reqs := <[a := r <| rq_oldreq := None |>]> (s_reqs s) |>) !! o = Some ro) as Hov
      by (cbn; by rewrite lookup_insert_ne by done).
    destruct (good_closereq _ _ _ _ _ Hgv Hov) as [Hdec Hfree]. cbn in Hdec, Hfree.
    apply wp_bind, (closereq_run _ _ ro); [done | |].
    + intros Hz. specialize (Hdec Hz).
      apply wp_bind, (wp_modreq _ r); [cbn; by rewrite lookup_insert_ne by done |].
      apply wp_ret, HQ; [| by apply no_error_set].
      rewrite (insert_insert_ne _ o a) in Hdec by done.
      exists (r <| rq_oldreq := None |>). split_and!; [exact Hdec | | done | | done].
      * apply (ready_set _ _ _ _ r); [done | done |]. by apply (ready_set_ne _ _ _ _ _ _ ro).
      * transitivity (s <| s_reqs := <[o := ro <| rq_ref := rq_ref ro - 1 |>]> (s_reqs s) |>);
          [by apply (quiet_set _ _ ro) |].
        apply (quiet_set (s <| s_reqs := <[o := ro <| rq_ref := rq_ref ro - 1 |>]> (s_reqs s) |>) a r);
          [cbn; by rewrite lookup_insert_ne by done | done | done].
    + intros Hz. destruct (Hfree Hz) as (? & ? & ? & ? & fids' & Hcl & Hgood).
      split_and!; [done.. |]. exists fids'. split; [done |]. intros t. specialize (Hgood t).
      apply wp_bind, (wp_modreq _ r); [cbn; by rewrite lookup_delete_ne by done |].
      apply wp_ret, HQ; [| by apply no_error_set].
      rewrite delete_insert_ne in Hgood by done.
      exists (r <| rq_oldreq := None |>). split_and!; [exact Hgood | | done | | done].
      * apply (ready_set _ _ _ _ r); [done | done |]. by apply ready_delete.
      * set (s1 := s <| s_fids := fids' |> <| s_tree := t |> <| s_reqs := delete o (s_reqs s) |>).
        transitivity s1.
        -- constructor; [done.. |]. intros P. unfold tally. cbn.
           rewrite (total_delete _ _ _ _ Ho), Hro. lia.
        -- apply (quiet_set s1 a r); [cbn; by rewrite lookup_delete_ne by done | done | done].
  - apply wp_bind, wp_modify, wp_ret, Hdelay; [| by apply (quiet_set _ _ ro) | done].
    destruct Hg. constructor; try done; cbn.
    + eapply FInv_ext, g_fids0. intros x. cbn. rewrite (total_upd _ _ _ ro) by done.
      unfold fid_uses. cbn. lia.
    + by apply (RInv_delay _ _ _ _ _ _ r).
Qed.

(** The switch of respond. *)
Lemma wp_second_half fuel ex h s a r error (Q : bool → World → Prop) :
  good ex h None s → may_answer h s a r → rq_error r = error → resp_ok ex s r error →
  (∀ s', good None h None s' → quiet s s' → s_msize s' = s_msize s →
     mtype_of (f_type (rq_ifcall r)) = Some Tflush → Q true s') →
  (∀ s', settled h a (r <| rq_oldreq := None |>) s s' →
     (mtype_of (f_type (rq_ifcall r)) = Some Tflush → no_error s' a) → Q false s') →
  wp (second_half (closereq (S fuel)) a error) s Q.
Proof.
  intros Hg Hrd He Hok Hdelay HQ. pose proof Hok as [Hsm Hty].
  apply wp_bind, (wp_getreq_ _ r); [apply Hrd |].
  destruct (mtype_of (f_type (rq_ifcall r))) as [t|] eqn:Ht; [| done].
  destruct (decide (t = Tflush)) as [->|Hnf].
  { subst ex. apply (wp_rflush _ h _ _ r); eauto. }
  assert (∀ s', settled h a r s s' → wp (mret false) s' Q) as Hdone.
  { intros s' (r1 & ? & ? & ? & ? & ?). apply wp_ret, HQ; [| congruence]. exists r1. split_and!; try done.
    assert (rq_oldreq r = None) as Hold.
    { destruct (rq_oldreq r) eqn:Hold; [| done]. destruct Hg as [_ _ _ _ _ [_ _ [Ho _ _ _] _]].
      destruct (Ho _ _ _ (rd_live _ _ _ _ _ Hrd) Hold) as (_ & Ht' & _). congruence. }
    transitivity (core r); [done |]. unfold core. cbn. by rewrite Hold. }
  destruct t; try done; apply wp_bind.
  - destruct Hty as [-> ?]. by eapply wp_rversion.
  - apply wp_bind, (wp_getreq_ _ r); [apply Hrd |]. eapply wp_takeback; try done.
    destruct error; [done |]. split; [done |]. by eapply sendable_final.
  - apply wp_bind, (wp_getreq_ _ r); [apply Hrd |]. eapply wp_takeback; try done.
    destruct error; [done |]. split; [done |]. by eapply sendable_final.
  - assert (ex = None) as -> by apply Hty. eapply wp_rwalk; try done.
  - destruct Hty as [-> Hn]. eapply (wp_rsimple _ _ _ _ error Topen); try done. intros ?. split; [auto | done].
  - destruct Hty as [-> Hn]. eapply (wp_rsimple _ _ _ _ error Tcreate); try done. intros ?. split; [auto | done].
  - destruct Hty as [-> Hn]. eapply (wp_rsimple _ _ _ _ error Tread); try done.
  - destruct Hty as [-> Hn]. eapply (wp_rsimple _ _ _ _ error Twrite); try done. intros ?. split; [auto | done].
  - subst ex. apply wp_ret, Hdone, settled_now; [done | done |].
    destruct error; [by eapply sendable_error | by eapply sendable_final].
  - destruct Hty as [-> Hn]. by eapply wp_rremove.
  - destruct Hty as [-> Hn]. by eapply wp_rstat.
  - subst ex. apply wp_ret, Hdone, settled_now; [done | done |].
    destruct error; [by eapply sendable_error | by eapply sendable_final].
Qed.

(** ** respond *)

Definition answered (t : Z) s : Z := len (filter (λ m, msg_tag m = Ok t) (s_out s)).
Definition outstanding (t : Z) s : Z := tally (λ t', b2z (t' = t)) s.
Definition pending s : Z := tally (λ _, 1) s.

(** A Tversion can make the buffers too small for any message, but then the server does
    not survive its own answer. *)
Definition roomy s : Prop := BIT32SZ + BIT8SZ + BIT16SZ ≤ s_msize s.

Definition is_rflush (m : list Z) : Prop := msg_type m = Ok (mtype_code Rflush).

(** What answering the request [r] sends: nothing yet, for a flush that has to wait;
    otherwise the answer, and then those of the flushes that waited. *)
Definition sent_for r (l : list (list Z)) : Prop :=
  let t := mtype_of (f_type (rq_ifcall r)) in
  (l = [] ∧ t = Some Tflush) ∨
  ∃ m rest, l = m :: rest ∧ msg_tag m = Ok (f_tag (rq_ifcall r)) ∧ Forall is_rflush rest ∧
    (msg_type m = Ok (u8 (f_type (rq_ifcall r) + 1)) ∨
     t ≠ Some Tflush ∧ msg_type m = Ok (mtype_code Rerror)).

(** One request fewer to answer, one answer more, for each tag. *)
Record flow s s' : Prop := {
  fl_room : roomy s';
  fl_in : s_in s' = s_in s;
  fl_up : s_upcalls s' = s_upcalls s;
  fl_tag : ∀ t, answered t s' + outstanding t s' = answered t s + outstanding t s;
  fl_pending : pending s' ≤ pending s
}.

Lemma flow_trans s1 s2 s3 : flow s1 s2 → flow s2 s3 → flow s1 s3.
Proof.
  intros [_ ? ? Ht Hp] [? ? ? Ht' Hp']. constructor; [done | congruence | congruence | | lia].
  intros t. by rewrite Ht'.
Qed.

Lemma flow_quiet s s' : roomy s' → quiet s s' → flow s s'.
Proof.
  intros Hr [Hi Ho Hu Ht]. constructor; [done | done | done | |].
  - intros t. unfold answered, outstanding. by rewrite Ho, Ht.
  - unfold pending. by rewrite Ht.
Qed.

Definition responds fuel : Prop := ∀ ex h s a r error (Q : () → World → Prop),
  good ex h None s → may_answer h s a r → resp_ok ex s r error → roomy s →
  pending s < Z.of_nat fuel →
  (∀ s', good None h None s' → flow s s' →
     (∃ l, s_out s' = s_out s ++ l ∧ sent_for r l) → Q () s') →
  wp (respond fuel a error) s Q.

(** The flushes that waited. *)
Lemma wp_respond_all fuel h a l s (Q : () → World → Prop) :
  responds fuel → good None (<[a := l]> h) None s → roomy s → pending s < Z.of_nat fuel →
  (∀ s', good None (<[a := []]> h) None s' → flow s s' →
     (∃ l', s_out s' = s_out s ++ l' ∧ Forall is_rflush l') → Q () s') →
  wp (respond_all (respond fuel) l) s Q.
Proof.
  intros IH. revert s. induction l as [|f l IHl]; intros s Hg Hroom Hp HQ.
  { apply wp_ret, HQ; [done | by apply flow_quiet | by exists []; rewrite app_nil_r]. }
  destruct Hg as [? ? ? ? ? Hr]. destruct (RInv_pop _ _ _ _ _ _ _ _ Hr) as (Hr' & rf & Hrd & Ht).
  apply wp_bind. eapply (IH None (<[a := l]> h)); [done | exact Hrd | | done | done |].
  { split; [unfold small; cbn; lia |]. by rewrite Ht. }
  intros s1 Hg1 Hf1 (l1 & Hl1 & Hsent). cbn beta. apply IHl; [done | apply Hf1 | |].
  { destruct Hf1. lia. }
  intros s2 Hg2 Hf2 (l2 & Hl2 & Hrest). apply HQ; [done | by eapply flow_trans |].
  exists (l1 ++ l2). rewrite Hl2, Hl1, app_assoc. split; [done |]. apply Forall_app. split; [| done].
  destruct Hsent as [[-> _] | (m & rest & -> & _ & ? & Hm)]; [done |]. constructor; [| done].
  unfold is_rflush. apply mtype_of_Some in Ht as Ht'.
  destruct Hm as [-> | [Hm _]]; [by rewrite Ht' | done].
Qed.

Lemma ref_two h s a r : good None h None s → may_answer h s a r → 1 < rq_ref r.
Proof.
  intros Hg [Ha Hop _ _]. destruct Hg as [_ _ _ _ _ [_ [Hc _] _ _]].
  destruct (Hc _ _ Ha) as [-> _]. unfold refs. rewrite Hop.
  pose proof (total_nonneg (old_uses a) (s_reqs s) (old_uses_nonneg a)). b2z_bounds. lia.
Qed.

Lemma answered_snoc t s m : answered t (s <| s_out := s_out s ++ [m] |>) = answered t s + b2z (msg_tag m = Ok t).
Proof.
  unfold answered. cbn. rewrite list.filter_app, length_app, Nat2Z.inj_add. f_equal.
  rewrite filter_cons. unfold b2z. by case_decide.
Qed.

(** The answer is on its way: the flushes are next. *)
Definition sent s a r (m : Intmap addr) (msg : list Z) : World :=
  s <| s_reqs := <[a := r <| rq_ofcall := final r |> <| rq_ref := rq_ref r - 1 |> <| rq_responded := true |>]> (s_reqs s) |>
    <| s_rpool := m |> <| s_out := s_out s ++ [msg] |>.

Lemma good_sent h s a r m msg :
  good None h None s → may_answer h s a r → rq_oldreq r = None →
  intmap_ok m → abs m = delete (f_tag (rq_ifcall r)) (abs (s_rpool s)) →
  roomy s → msg_tag msg = Ok (u16 (f_tag (rq_ifcall r))) →
  good None (<[a := rq_flush r]> h) None (sent s a r m msg) ∧ flow s (sent s a r m msg) ∧
  pending (sent s a r m msg) = pending s - 1.
Proof.
  intros [] Hrd Hold Hm Habs Hroom Hmsg. pose proof g_reqs0 as [[_ _ Htag _ _] _ _ _].
  destruct (Htag _ _ (rd_live _ _ _ _ _ Hrd)) as [Htg H16]. rewrite Htg in *.
  assert (∀ P, tally P (sent s a r m msg) = tally P s - P (rq_tag r)) as Htally.
  { intros P. unfold tally. cbn. rewrite (total_upd _ _ _ r) by apply Hrd.
    rewrite (rd_open _ _ _ _ _ Hrd). cbn. rewrite Htg. lia. }
  split_and!; [| constructor; [done | done | done | |] |].
  - constructor; try done; cbn.
    + eapply FInv_ext, g_fids0. intros x. cbn. rewrite (total_upd _ _ _ r) by apply Hrd.
      unfold fid_uses. cbn. lia.
    + rewrite Habs. by eapply RInv_answer.
  - intros t. unfold outstanding. rewrite Htally.
    replace (answered t (sent s a r m msg)) with (answered t (s <| s_out := s_out s ++ [msg] |>)) by done.
    rewrite answered_snoc, Hmsg, u16_small by done. unfold b2z.
    destruct (decide (rq_tag r = t)) as [->|]; [rewrite decide_True | rewrite decide_False by congruence]; try done; lia.
  - unfold pending. rewrite Htally. lia.
  - unfold pending. rewrite Htally. lia.
Qed.

(** respond lets go of the request. *)
Lemma wp_let_go n h a s (Q : () → World → Prop) :
  good None (<[a := []]> h) None s → h !! a = None → roomy s →
  (∀ s', good None h None s' → flow s s' → s_out s' = s_out s → Q () s') →
  wp (_ ← modreq a (λ r, r <| rq_flush := [] |>); closereq (S n) (Some a)) s Q.
Proof.
  intros [] Hh Hroom HQ. pose proof g_reqs0 as [_ _ [_ _ Hheld _] _].
  destruct (Hheld a) as (r & Ha & Hr); [by rewrite lookup_insert_eq |].
  apply wp_bind, (wp_modreq _ r); [done |]. set (s1 := s <| s_reqs := _ |>).
  assert (good None h (Some a) s1) as Hg1.
  { constructor; try done; cbn; [| by apply RInv_release].
    eapply FInv_ext, g_fids0. intros x. cbn. rewrite (total_upd _ _ _ r) by done. unfold fid_uses. cbn. lia. }
  apply (wp_closereq _ None h _ (r <| rq_flush := [] |>)); [done | apply lookup_insert_eq |].
  intros fids' t reqs' Hd s2 Hg2. apply HQ; [done | | done]. apply flow_quiet; [done |].
  constructor; [done.. |]. intros P. unfold tally. cbn.
  assert (total (λ r0, if rq_responded r0 then 0 else P (f_tag (rq_ifcall r0))) (s_reqs s1) =
          total (λ r0, if rq_responded r0 then 0 else P (f_tag (rq_ifcall r0))) (s_reqs s)) as Heq
    by (cbn; rewrite (total_upd _ _ _ r) by done; cbn; lia).
  assert (s_reqs s1 !! a = Some (r <| rq_flush := [] |>)) as Ha1 by apply lookup_insert_eq.
  destruct Hd as [-> | [-> _]];
    [rewrite (total_upd _ _ _ _ _ Ha1) | rewrite (total_delete _ _ _ _ Ha1)];
    rewrite Heq; cbn; rewrite Hr; lia.
Qed.

Lemma wp_send_answer n h s a r (Q : () → World → Prop) :
  responds (S n) → good None h None s → may_answer h s a r → rq_oldreq r = None →
  sendable (final r) → pending s ≤ Z.of_nat (S n) →
  (∀ s' msg l, good None h None s' → flow s s' → s_out s' = s_out s ++ msg :: l → Forall is_rflush l →
     msg_tag msg = Ok (f_tag (rq_ifcall r)) → msg_type msg = Ok (u8 (f_type (final r))) → Q () s') →
  wp (send_answer (closereq (S n)) (respond (S n)) a) s Q.
Proof.
  intros IH Hg Hrd Hold Hsend Hp HQ. pose proof (rd_live _ _ _ _ _ Hrd) as Ha.
  set (r1 := r <| rq_ofcall := final r |>).
  apply wp_bind, (wp_modreq _ r); [done |]. fold r1.
  apply wp_bind, (wp_getreq_ _ r1); [apply lookup_insert_eq |]. apply wp_bind, wp_get.
  apply wp_bind, (wp_nonnil _ (s_msize s)); [apply Hg |]. apply wp_bind.
  pose proof (convS2M_answer (final r) (s_msize s) Hsend) as Hmsg. unfold wp at 1.
  change (convS2M (rq_ofcall r1) (s_msize (s <| s_reqs := <[a := r1]> (s_reqs s) |>)))
    with (convS2M (final r) (s_msize s)).
  destruct (convS2M (final r) (s_msize s)) as [msg | |]; [| done | done].
  destruct Hmsg as (Hmty & Hmtag & Hlen).
  assert (roomy s) as Hroom by (unfold roomy; lia).
  assert (rq_pool r1 = true ∧ f_tag (final r) = f_tag (rq_ifcall r) ∧
          abs (s_rpool s) !! f_tag (rq_ifcall r) = Some a ∧ h !! a = None ∧
          is_u16 (f_tag (rq_ifcall r))) as (Hpool & Hftag & Hkey & Hh & H16).
  { pose proof Hg as [_ _ _ _ _ [[_ Hpool Htag _ Hopen] _ [_ _ Hheld _] _]].
    destruct (Htag _ _ Ha) as [Ht ?]. rewrite Ht. split_and!; [by apply (Hpool a r) | | | | done].
    - unfold final. by destruct (rq_error r).
    - apply Hopen; [done | apply Hrd].
    - destruct (h !! a) eqn:Hh; [| done]. destruct (Hheld a) as (r' & ? & ?); [by eexists |].
      pose proof (rd_open _ _ _ _ _ Hrd). congruence.
  }
  apply wp_bind, wp_assert. intros _. rewrite Hpool.
  apply wp_bind, wp_bind, wp_bind, wp_get. cbn beta.
  destruct (deletekey_abs (s_rpool s) (f_tag (rq_ifcall r))) as (m & Hdel & Hm & Habs); [apply Hg |].
  change (deletekey (s_rpool (s <| s_reqs := <[a := r1]> (s_reqs s) |>)) (f_tag (rq_ifcall r1)))
    with (deletekey (s_rpool s) (f_tag (rq_ifcall r))). rewrite Hdel, Hkey.
  apply wp_bind, wp_modify, wp_ret.
  pose proof (ref_two _ _ _ _ Hg Hrd). 
  apply (closereq_run _ _ r1); [apply lookup_insert_eq | | intros Hz; cbn in Hz; lia]. intros _.
  apply wp_bind, wp_modify.
  apply wp_bind. eapply wp_modreq; [apply lookup_insert_eq |].
  apply wp_bind. eapply wp_getreq_; [apply lookup_insert_eq |]. apply wp_bind.
  lazymatch goal with |- wp _ ?st _ => replace st with (sent s a r m msg) end.
  2: { unfold sent, r1. destruct s. cbn -[insert final]. by rewrite !insert_insert_eq. }
  assert (msg_tag msg = Ok (u16 (f_tag (rq_ifcall r)))) as Hmtag' by (by rewrite <- Hftag).
  destruct (good_sent h s a r m msg) as (Hg2 & Hf2 & Hp2); try done.
  apply (wp_respond_all _ h a); [done | done | done | unfold roomy; cbn; lia |].
  intros s3 Hg3 Hf3 (l & Hl & Hrest). cbn [rq_pool update].
  change (rq_pool (r1 <| rq_ref := rq_ref r1 - 1 |> <| rq_responded := true |>)) with (rq_pool r1).
  rewrite Hpool. apply (wp_let_go _ h); [done | done | apply Hf3 |].
  intros s4 Hg4 Hf4 Hout4. apply (HQ _ msg l); try done.
  - eapply flow_trans, Hf4. by eapply flow_trans.
  - rewrite Hout4, Hl. cbn. by rewrite <- app_assoc.
  - rewrite Hmtag, Hftag. by rewrite u16_small.
Qed.

Lemma pending_pos h s a r : may_answer h s a r → 1 ≤ pending s.
Proof.
  intros [Ha Hop _ _].
  pose proof (total_ge (λ r, if rq_responded r then 0 else 1) (s_reqs s) a r) as Ht.
  cbn beta in Ht. rewrite Hop in Ht. apply Ht; [| done]. intros r'. by destruct (rq_responded r').
Qed.

Lemma respond_S fuel a error :
  respond (S fuel) a error =
  (r ← getreq_ a; _ ← assert (negb (rq_responded r)); _ ← setreq a (r <| rq_error := error |>);
   delay ← second_half (closereq fuel) a error;
   if delay : bool then mret () else send_answer (closereq fuel) (respond fuel) a : @M T F RD IN ()).
Proof. done. Qed.

(** The recursion ends: every nested call of respond answers one request more. *)
Lemma respond_ok fuel : responds fuel.
Proof.
  induction fuel as [|fuel IH]; intros ex h s a r error Q Hg Hrd Hok Hroom Hp HQ;
    pose proof (pending_pos _ _ _ _ Hrd); [lia |].
  destruct fuel as [|n]; [lia |]. pose proof (rd_live _ _ _ _ _ Hrd) as Ha. rewrite respond_S.
  apply wp_bind, (wp_getreq_ _ r); [done |]. apply wp_bind, wp_assert. intros _.
  apply wp_bind, wp_modify. set (r0 := r <| rq_error := error |>). set (s0 := s <| s_reqs := _ |>).
  destruct (good_core ex h None s a r r0 Hrd) as [Hg0 Hrd0]; [done.. |]. fold s0 in Hg0, Hrd0.
  assert (quiet s s0) as Hq0 by (by apply (quiet_core _ _ r)).
  apply wp_bind. eapply (wp_second_half _ ex h _ _ r0); [done | done | done | done | |].
  - intros s1 Hg1 Hq1 Hms Ht. apply wp_ret, HQ; [done | | exists []].
    + apply flow_quiet; [unfold roomy; by rewrite Hms |]. by etrans.
    + rewrite app_nil_r. split; [by rewrite (q_out _ _ Hq1) |]. by left.
  - intros s1 (r1 & Hg1 & Hrd1 & Hc1 & Hq1 & Hs1) Hne. injection Hc1 as _ Htag Hty Hold _ _ _ _.
    assert (quiet s s1) as Hq by (by etrans).
    apply (wp_send_answer _ h _ _ r1); [exact IH | done | done | done | done | |].
    { unfold pending in *. rewrite (q_tally _ _ Hq). lia. }
    intros s2 msg l Hg2 Hf2 Hout Hrest Hmtag Hmty. apply HQ; [done | |].
    + destruct Hf2. constructor; [done | by rewrite fl_in0, (q_in _ _ Hq) | by rewrite fl_up0, (q_up _ _ Hq) | |].
      * intros t. rewrite fl_tag0. unfold answered, outstanding. by rewrite (q_out _ _ Hq), (q_tally _ _ Hq).
      * unfold pending in *. by rewrite <- (q_tally _ _ Hq).
    + exists (msg :: l). rewrite Hout, (q_out _ _ Hq). split; [done |]. right. exists msg, l.
      split_and!; [done | by rewrite Hmtag, Htag | done |].
      rewrite Hmty. unfold final. destruct (rq_error r1) eqn:He;
        [| left; cbn; by rewrite Hty, (u8_small (u8 _)) by apply u8_range].
      right. split; [| done]. intros Ht. specialize (Hne Ht _ (rd_live _ _ _ _ _ Hrd1)). congruence.
Qed.
End Server.
