(* ===== verification/SrvSteps.v ===== *)
(** * SrvSteps: the handlers of the 9P server, and the server as a whole

    Each handler of srv.c, run on a request just read, leaves the server in a good state:
    it answers the request or hands it to the program.  The properties of the whole
    server follow. *)

From stdpp Require Import strings.
From S2P Require Import Prelude Bytes Fcall FcallProps Stat StatProps Rune RuneProps Intmap Srv SrvInv SrvProps.

Section Steps.
Context {T F RD IN : Type} {FT : FileTree T F RD}.
Variable ops : SrvOps F RD.
Hypothesis Hsrv : server_ok ops.
(** A fid made for Tauth has no [uid] until the program sets it. *)
Hypothesis Hauth : op_set ops Uauth = false.

Local Abbreviation World := (St T F RD IN).
Implicit Types (s : World) (a x : addr) (r : Req) (error : cptr).
Local Abbreviation may_answer s a r := (ready ∅ (s_reqs s) (s_upcalls s) a r).

(** What a step of the server guarantees. *)
Record served s s' : Prop := {
  sv_good : good None ∅ None s';
  sv_room : roomy s';
  sv_in : s_in s' = s_in s;
  sv_tag : ∀ t, answered t s' + outstanding t s' = answered t s + outstanding t s;
  sv_out : s_out s `prefix_of` s_out s'
}.

(** A handler at work on [a], having started from [s0]. *)
Record cur (ex : option addr) s0 s a r : Prop := {
  c_good : good ex ∅ None s;
  c_rdy : may_answer s a r;
  c_quiet : quiet s0 s;
  c_room : roomy s
}.

Lemma cur_modreq ex s0 s a r r' :
  core r' = core r → rq_fid r' = rq_fid r → rq_newfid r' = rq_newfid r → rq_afid r' = rq_afid r →
  cur ex s0 s a r → cur ex s0 (s <| s_reqs := <[a := r']> (s_reqs s) |>) a r'.
Proof.
  intros Hc Hf Hn Ha []. destruct (good_core ex ∅ None s a r r' c_rdy0 Hc Hf Hn Ha c_good0).
  constructor; try done. etrans; [done |]. apply (quiet_core _ _ r); [apply c_rdy0 | done].
Qed.

Lemma cur_modfid ex ex' s0 s a r x f f' :
  s_fids s !! x = Some f → fi_ref f' = fi_ref f → fi_fid f' = fi_fid f →
  (ex' = ex ∧ (fi_uid f ≠ None → fi_uid f' ≠ None)) ∨ (fi_uid f' ≠ None ∧ (ex' = ex ∨ ex = Some x)) →
  cur ex s0 s a r → cur ex' s0 (s <| s_fids := <[x := f']> (s_fids s) |>) a r.
Proof.
  intros Hx Hr Hn Hu [? ? [] ?]. constructor; [by apply (good_fid ex ex' _ _ _ _ f) | done | by constructor | done].
Qed.

Lemma cur_tree ex s0 s a r t : cur ex s0 s a r → cur ex s0 (s <| s_tree := t |>) a r.
Proof. intros [[] ? [] ?]. by constructor. Qed.

Lemma pending_size s : pending s ≤ Z.of_nat (size (s_reqs s)).
Proof. apply total_le_size. intros r. by destruct (rq_responded r). Qed.

(** [respond(r, e)] from a handler. *)
Lemma cur_respond_sent ex s0 s a r error (Q : () → World → Prop) :
  cur ex s0 s a r → resp_ok ex s r error →
  (∀ s', served s0 s' → (∃ l, s_out s' = s_out s ++ l ∧ sent_for r l) → Q () s') → wp (respond_now a error) s Q.
Proof.
  intros [Hg Hrd Hq Hroom] Hok HQ. unfold respond_now, wp.
  apply (respond_ok ops Hsrv (fuel_for s) ex ∅ s a r error); try done.
  { pose proof (pending_size s). unfold fuel_for. lia. }
  intros s' Hg' Hf Hl. apply HQ; [| done]. destruct Hl as (l & Hl & _), Hf, Hq. constructor; try done.
  - congruence.
  - intros t. rewrite fl_tag. unfold answered, outstanding. by rewrite q_out, q_tally.
  - rewrite Hl, q_out. by exists l.
Qed.

Lemma cur_respond ex s0 s a r error (Q : () → World → Prop) :
  cur ex s0 s a r → resp_ok ex s r error → (∀ s', served s0 s' → Q () s') → wp (respond_now a error) s Q.
Proof. intros Hc Hok HQ. eapply cur_respond_sent; eauto. Qed.

(** [srv->op(r)] from a handler. *)
Lemma cur_call s0 s a r u (Q : () → World → Prop) :
  cur None s0 s a r → up_ok u r → (∀ s', served s0 s' → Q () s') → wp (call u a) s Q.
Proof.
  intros [Hg Hrd [] Hroom] Hu HQ. apply wp_modify, HQ. constructor; [| done | done | |].
  - destruct Hg. constructor; try done. by eapply RInv_call.
  - intros t. unfold answered, outstanding. rewrite <- q_tally. cbn. by rewrite q_out.
  - cbn. by rewrite q_out.
Qed.

Lemma cur_call_or s0 s a r u error (Q : () → World → Prop) :
  cur None s0 s a r → up_ok u r → (op_set ops u = false → resp_ok None s r error) →
  (∀ s', served s0 s' → Q () s') → wp (call_or ops u a error) s Q.
Proof.
  intros Hc Hu Hok HQ. unfold call_or. destruct (op_set ops u).
  - by eapply cur_call.
  - eapply cur_respond; [done | by apply Hok | done].
Qed.

(** ** Pointers to fids

    [g p] stores the pointer [p] in a member of the request that was nil. *)
Definition points (g : option addr → Req → Req) r : Prop :=
  (∀ p, core (g p r) = core r) ∧
  ∀ p x, fid_uses x (g p r) = fid_uses x r + b2z (p = Some x).

Lemma points_fid r : rq_fid r = None → points (λ p r, r <| rq_fid := p |>) r.
Proof. intros Hn. split; [done |]. intros p x. unfold fid_uses. cbn. rewrite Hn.
  replace (b2z (None = Some x)) with 0 by done. lia.
Qed.
Lemma points_newfid r : rq_newfid r = None → points (λ p r, r <| rq_newfid := p |>) r.
Proof. intros Hn. split; [done |]. intros p x. unfold fid_uses. cbn. rewrite Hn.
  replace (b2z (None = Some x)) with 0 by done. lia.
Qed.
Lemma points_afid r : rq_afid r = None → points (λ p r, r <| rq_afid := p |>) r.
Proof. intros Hn. split; [done |]. intros p x. unfold fid_uses. cbn. rewrite Hn.
  replace (b2z (None = Some x)) with 0 by done. lia.
Qed.

Lemma uses_set g r p reqs a y :
  points g r → reqs !! a = Some r →
  total (fid_uses y) (<[a := g p r]> reqs) = total (fid_uses y) reqs + b2z (p = Some y).
Proof. intros [_ Hu] Ha. rewrite (total_upd _ _ _ r) by done. rewrite Hu. lia. Qed.

Lemma cur_point ex ex' s0 s a r g p fids fpool next :
  cur ex s0 s a r → points g r → intmap_ok fpool → (s_next s ≤ next)%positive →
  FInv ex' fids (λ y, total (fid_uses y) (s_reqs s) + b2z (p = Some y)) (abs fpool) next →
  cur ex' s0 (s <| s_fids := fids |> <| s_fpool := fpool |> <| s_next := next |>
                <| s_reqs := <[a := g p r]> (s_reqs s) |>) a (g p r).
Proof.
  intros [[] Hrd Hq Hroom] Hg Hfp Hn Hf. pose proof (rd_live _ _ _ _ _ Hrd) as Ha.
  destruct Hg as [Hc Hu]. destruct (RInv_core _ _ _ _ _ _ _ _ (g p r) Hrd (Hc p) g_reqs) as [Hr' Hrd'].
  constructor; [constructor | done | | done]; try done; cbn.
  - eapply FInv_ext, Hf. intros y. cbn. apply uses_set; [by split | done].
  - by eapply RInv_grow.
  - etrans; [done |]. destruct (quiet_core s a r (g p r) Ha (Hc p)). by constructor.
Qed.

(** [r->p = lookupfid(pool, k)] *)
Lemma wp_lookup {B} g ex s0 s a r k (K : option addr → M B) Q :
  cur ex s0 s a r → points g r →
  (abs (s_fpool s) !! k = None → ∀ s', s' = s <| s_reqs := <[a := g None r]> (s_reqs s) |> →
     cur ex s0 s' a (g None r) → wp (K None) s' Q) →
  (∀ x f s', abs (s_fpool s) !! k = Some x → s_fids s !! x = Some f → fi_fid f = k →
     s' = s <| s_fids := <[x := f <| fi_ref := fi_ref f + 1 |>]> (s_fids s) |>
            <| s_reqs := <[a := g (Some x) r]> (s_reqs s) |> →
     cur ex s0 s' a (g (Some x) r) → wp (K (Some x)) s' Q) →
  wp (p ← lookupfid k; _ ← modreq a (g p); K p) s Q.
Proof.
  intros Hc Hg Hnone Hsome. pose proof Hc as [[] Hrd _ _]. pose proof (rd_live _ _ _ _ _ Hrd) as Ha.
  apply wp_bind. unfold wp at 1, lookupfid. rewrite lookupkey_abs by done.
  destruct (abs (s_fpool s) !! k) as [x|] eqn:Hk.
  - destruct (fv_key _ _ _ _ _ g_fids _ _ Hk) as (f & Hx & Hf & _).
    unfold incfidref. cbn [mbind res_bind]. rewrite Hx. cbn [mbind res_bind].
    apply wp_bind, (wp_modreq _ r); [done |]. eapply (Hsome x f); try done.
    pose proof (cur_point ex ex s0 s a r g (Some x) (<[x := f <| fi_ref := fi_ref f + 1 |>]> (s_fids s))
      (s_fpool s) (s_next s) Hc Hg g_fpool) as Hp.
    destruct s. apply Hp; [done |]. eapply FInv_ext, (FInv_incref _ _ _ _ _ _ _ Hx), g_fids.
    intros y. unfold upd, b2z. do 2 case_decide; simplify_eq; lia.
  - cbn [mbind res_bind]. apply wp_bind, (wp_modreq _ r); [done |]. apply Hnone; [done | done |].
    pose proof (cur_point ex ex s0 s a r g None (s_fids s) (s_fpool s) (s_next s) Hc Hg g_fpool) as Hp.
    destruct s. apply Hp; [done |]. eapply FInv_ext, g_fids. intros y. unfold b2z.
    rewrite decide_False by done. lia.
Qed.

Definition newfid (k : Z) : Fid F RD := mkFid k (-1) None None qid0 None 2 0.

Lemma fresh_fid ex s : good ex ∅ None s → s_fids s !! s_next s = None.
Proof.
  intros []. destruct (s_fids s !! s_next s) as [f|] eqn:Hf; [| done].
  pose proof (fv_next _ _ _ _ _ g_fids _ _ Hf). lia.
Qed.

(** [r->p = allocfid(pool, k)]: nil when the number is in use. *)
Lemma wp_alloc {B} g s0 s a r k (K : option addr → M B) Q :
  cur None s0 s a r → points g r →
  (∀ s', cur None s0 s' a (g None r) → s_fids s' = s_fids s → s_fpool s' = s_fpool s →
     is_Some (abs (s_fpool s) !! k) → wp (K None) s' Q) →
  (∀ x s' m, abs (s_fpool s) !! k = None → s_fids s !! x = None → abs m = <[k := x]> (abs (s_fpool s)) →
     s' = s <| s_fids := <[x := newfid k]> (s_fids s) |> <| s_fpool := m |> <| s_next := Pos.succ (s_next s) |>
            <| s_reqs := <[a := g (Some x) r]> (s_reqs s) |> →
     cur (Some x) s0 s' a (g (Some x) r) → wp (K (Some x)) s' Q) →
  wp (p ← allocfid k; _ ← modreq a (g p); K p) s Q.
Proof.
  intros Hc Hg Hnone Hsome. pose proof Hc as [Hgood Hrd _ _]. pose proof Hgood as [Hfp ? ? ? Hf ?].
  pose proof (rd_live _ _ _ _ _ Hrd) as Ha. pose proof (fresh_fid _ _ Hgood) as Hfr.
  apply wp_bind. apply wp_bind, wp_bind, wp_get, wp_bind, wp_modify, wp_ret.
  apply wp_bind, wp_modify. apply wp_bind, wp_get. cbn beta.
  change (mkFid k (-1) None None qid0 None 2 0) with (newfid k).
  lazymatch goal with |- context [caninsertkey ?m k _] => change m with (s_fpool s) end.
  destruct (caninsertkey_abs (s_fpool s) k (s_next s) Hfp) as [(Hk & m & -> & Hm & Habs) | (Hk & ->)].
  - apply wp_bind, wp_modify, wp_ret. apply wp_bind, (wp_modreq _ r); [done |].
    eapply (Hsome (s_next s) _ m); [done | done | done | by destruct s |].
    apply (cur_point None (Some (s_next s)) s0 s a r g (Some (s_next s))
      (<[s_next s := newfid k]> (s_fids s)) m (Pos.succ (s_next s)) Hc Hg Hm); [lia |].
    rewrite Habs. eapply FInv_ext, (FInv_alloc _ _ _ _ k (newfid k)), Hf; try done.
    + intros y. unfold upd, b2z. do 2 case_decide; simplify_eq; lia.
    + intros y. apply total_nonneg, fid_uses_nonneg.
  - apply wp_bind, (wp_closefid _ (newfid k)); [apply lookup_insert_eq |]. intros t1. cbn beta.
    apply wp_bind, (wp_closefid _ ((newfid k) <| fi_ref := 1 |>)); [apply lookup_insert_eq |].
    intros t2. apply wp_ret. apply wp_bind, (wp_modreq _ r); [done |].
    lazymatch goal with |- wp _ ?st _ => set (s' := st) end.
    assert (s' = s <| s_fids := s_fids s |> <| s_fpool := s_fpool s |> <| s_next := Pos.succ (s_next s) |>
                   <| s_reqs := <[a := g None r]> (s_reqs s) |> <| s_tree := t2 |>) as ->.
    { assert (drop_fid (s_next s) ((newfid k) <| fi_ref := 1 |>) (drop_fid (s_next s) (newfid k)
        (<[s_next s := newfid k]> (s_fids s))) = s_fids s) as Hdd.
      { unfold drop_fid. rewrite decide_True, decide_False by done.
        by rewrite insert_insert_eq, delete_insert_id. }
      destruct s as [fids reqs fpool rpool next ms bufs inn out tree ups].
      exact (f_equal (λ m, mkSt m (<[a:=g None r]> reqs) fpool rpool (Pos.succ next) ms bufs inn out t2 ups) Hdd). }
    apply Hnone; [| by destruct s | by destruct s | done]. apply cur_tree.
    apply (cur_point None None s0 s a r g None _ _ _ Hc Hg Hfp); [lia |].
    eapply FInv_grow; [| eapply FInv_ext, Hf]; [lia |]. intros y. unfold b2z.
    rewrite decide_False by done. lia.
Qed.

(** [r->fid = removefid(pool, k)] *)
Lemma wp_clunkfid {B} g s0 s a r k (K : option addr → M B) Q :
  cur None s0 s a r → points g r →
  (∀ s', cur None s0 s' a (g None r) → wp (K None) s' Q) →
  (∀ x f s', abs (s_fpool s) !! k = Some x → s_fids s !! x = Some f → s_fids s' = s_fids s → s_tree s' = s_tree s →
     cur None s0 s' a (g (Some x) r) → wp (K (Some x)) s' Q) →
  wp (p ← removefid k; _ ← modreq a (g p); K p) s Q.
Proof.
  intros Hc Hg Hnone Hsome. pose proof Hc as [Hgood Hrd _ _]. pose proof Hgood as [Hfp ? ? ? Hf ?].
  pose proof (rd_live _ _ _ _ _ Hrd) as Ha.
  apply wp_bind, wp_bind, wp_get. destruct (deletekey_abs (s_fpool s) k Hfp) as (m & -> & Hm & Habs).
  apply wp_bind, wp_modify, wp_ret. apply wp_bind, (wp_modreq _ r); [done |].
  destruct (abs (s_fpool s) !! k) as [x|] eqn:Hk.
  - destruct (fv_key _ _ _ _ _ Hf _ _ Hk) as (f & Hx & _ & _).
    apply (Hsome x f); [done | done | done | done |].
    assert (FInv None (s_fids s) (λ y, total (fid_uses y) (s_reqs s) + b2z (Some x = Some y)) (abs m)
      (s_next s)) as HF.
    { pose proof (FInv_remove _ _ _ _ _ _ _ Hk Hf) as HR. rewrite decide_False in HR by done.
      rewrite Habs. eapply FInv_ext, HR.
      intros y. unfold upd, b2z. do 2 case_decide; simplify_eq; lia. }
    pose proof (cur_point None None s0 s a r g (Some x) _ m _ Hc Hg Hm (Pos.le_refl _) HF) as Hp.
    by destruct s.
  - apply Hnone.
    assert (FInv None (s_fids s) (λ y, total (fid_uses y) (s_reqs s) + b2z (None = Some y)) (abs m)
      (s_next s)) as HF.
    { rewrite Habs, delete_id by done. eapply FInv_ext, Hf. intros y. unfold b2z.
      rewrite decide_False by done. lia. }
    pose proof (cur_point None None s0 s a r g None _ m _ Hc Hg Hm (Pos.le_refl _) HF) as Hp.
    by destruct s.
Qed.

(** ** The handlers *)

(** What convM2S guarantees of a T-message. *)
Record decoded (f : Fcall) : Prop := {
  dc_version : mtype_of (f_type f) = Some Tversion → f_version f ≠ None;
  dc_uname : mtype_of (f_type f) = Some Tattach → f_uname f ≠ None;
  dc_nwname : mtype_of (f_type f) = Some Twalk → 0 ≤ f_nwname f ≤ MAXWELEM;
  dc_count : mtype_of (f_type f) = Some Tread → is_u32 (f_count f);
  dc_stat : mtype_of (f_type f) = Some Twstat →
    0 ≤ f_nstat f ≤ len (f_stat f) ∧ bytes_ok (f_stat f)
}.

(** A request as the loop of srv hands it to a handler. *)
Record started t s0 s a r : Prop := {
  st_cur : cur None s0 s a r;
  st_type : mtype_of (f_type (rq_ifcall r)) = Some t;
  st_in : decoded (rq_ifcall r);
  st_out : rq_ofcall r = fcall0;
  st_d : rq_d r = dir0;
  st_fid : rq_fid r = None;
  st_newfid : rq_newfid r = None;
  st_afid : rq_afid r = None;
  st_old : rq_oldreq r = None
}.

Lemma small_str (z : string) : Z.of_nat (String.length z) < 2 ^ 31 → small (Some (str z)).
Proof.
  intros Hz. unfold small, str. cbn. rewrite length_fmap.
  assert (length (String.list_ascii_of_string z) = String.length z) as -> by (clear; induction z; cbn; congruence).
  done.
Qed.

Lemma strncmp_9p v : ∃ c, strncmp (v ++ [0]) (str "9P" ++ [0]) 2 = Ok c.
Proof.
  destruct v as [|c0 [|c1 v]]; [by eexists | |]; unfold strncmp; cbn;
    repeat (case_decide; [by eexists |]); eauto.
Qed.

(** ** Nil pointers of the file tree

    The requests on which a handler follows a nil pointer it got from the file tree: of
    what srv.c tests, all passes, and what it does not test is wrong. *)

Definition on_fid s (i : Fcall) (P : Fid F RD → Prop) : Prop :=
  ∃ x f, abs (s_fpool s) !! f_fid i = Some x ∧ s_fids s !! x = Some f ∧ P f.

Local Abbreviation isdir f := (Z.land (q_type (fi_qid f)) QTDIR ≠ 0).

(** The fid of a Tread is a directory of the file tree that has not been opened by
    Topen, so that it has no [rdir]. *)
Definition no_rdir s (i : Fcall) : Prop :=
  on_fid s i (λ f, ¬ s32 (f_count i) < 0 ∧
    ¬ (f_offset i < 0 ∨ (isdir f ∧ f_offset i ≠ 0 ∧ f_offset i ≠ fi_diroffset f)) ∧
    ¬ (Z.land (fi_omode f) 3 ≠ OREAD ∧ Z.land (fi_omode f) 3 ≠ ORDWR ∧ Z.land (fi_omode f) 3 ≠ OEXEC) ∧
    (isdir f ∧ fi_file f ≠ None) ∧ fi_rdir f = None).

(** The file has been removed, through another fid. *)
Definition orphan s (f : Fid F RD) : Prop := from_option (λ g, file_parent (s_tree s) g = None) False (fi_file f).

Definition orphan_open s (i : Fcall) : Prop :=
  on_fid s i (λ f, fi_omode f = -1 ∧ ¬ (isdir f ∧ Z.land (f_mode i) (Z.lnot ORCLOSE) ≠ OREAD) ∧
    ¬ (isdir f ∧ openperm (f_mode i) ≠ AREAD) ∧
    from_option (λ g, hasperm (s_tree s) g (fi_uid f) (openperm (f_mode i)) = true) False (fi_file f) ∧
    Z.land (f_mode i) ORCLOSE ≠ 0 ∧ orphan s f).

Definition orphan_remove s (i : Fcall) : Prop := on_fid s i (orphan s).

(** A walk goes through the parent of a removed directory. *)
Fixpoint walks_off (names : list cptr) (g : F) (t : T) : Prop :=
  match names with
  | [] => False
  | n :: names =>
      match walkfile g n t with
      | Ok (Some g', t') => walks_off names g' t'
      | Ub => True
      | _ => False
      end
  end.

Definition orphan_walk s (i : Fcall) : Prop :=
  on_fid s i (λ f, fi_omode f = -1 ∧ ¬ (f_nwname i ≠ 0 ∧ Z.land (q_type (fi_qid f)) QTDIR = 0) ∧
    (f_fid i = f_newfid i ∨ abs (s_fpool s) !! f_newfid i = None) ∧
    from_option (λ g, walks_off (wnames i) g (file_incref g (s_tree s))) False (fi_file f)).

Definition strays s (i : Fcall) : Prop :=
  match mtype_of (f_type i) with
  | Some Tread => no_rdir s i
  | Some Topen => orphan_open s i
  | Some Tremove => orphan_remove s i
  | Some Twalk => orphan_walk s i
  | _ => False
  end.

(** A handler on a request it has just been given. *)
Definition handles t (handler : addr → M ()) : Prop :=
  ∀ s0 s a r (Q : () → World → Prop), started t s0 s a r → ¬ strays s (rq_ifcall r) →
    (∀ s', served s0 s' → Q () s') → wp (handler a) s Q.

Lemma wp_started t s0 s a r (Q : Req → World → Prop) : started t s0 s a r → Q r s → wp (getreq_ a) s Q.
Proof. intros Hst. apply wp_getreq_, Hst. Qed.

Lemma sversion_ok : handles Tversion sversion.
Proof.
  intros s0 s a r Q Hst Hgone HQ. apply wp_bind, (wp_started _ _ _ _ _ _ Hst). pose proof Hst as [Hc Ht Hin].
  destruct (f_version (rq_ifcall r)) as [v|] eqn:Hv; [| by destruct (dc_version _ Hin Ht)].
  apply wp_bind, wp_ret. destruct (strncmp_9p v) as [c Hcmp]. apply wp_bind. unfold wp at 1. rewrite Hcmp. cbn [mbind res_bind].
  case_decide; apply wp_bind, (wp_modreq _ r); try apply Hc;
    (eapply cur_respond; [by apply (cur_modreq _ _ _ _ r) | | exact HQ]).
  all: split; [done |]; cbn; rewrite Ht; split; [done |]; by vm_compute.
Qed.

Lemma sauth_ok : handles Tauth (sauth ops).
Proof.
  intros s0 s a r Q Hst Hgone HQ. apply wp_bind, (wp_started _ _ _ _ _ _ Hst). pose proof Hst as [Hc Ht Hin].
  apply (wp_alloc (λ p r, r <| rq_afid := p |>) s0 s a r); [done | by apply points_afid, Hst | |].
  - intros s' Hc' _ _ _. eapply cur_respond; [done | | exact HQ]. split; [by apply small_str |].
    cbn. by rewrite Ht.
  - intros x s' m _ Hx Hm -> Hc'. unfold call_or. rewrite Hauth.
    eapply cur_respond; [done | | exact HQ]. split; [by apply so_noauth |]. cbn. rewrite Ht. cbn.
    exists (newfid (f_afid (rq_ifcall r))), x. rewrite lookup_insert_eq, Hm. cbn.
    rewrite lookup_insert_eq. auto.
Qed.

(** sattach once the fids are found. *)
Definition attach_rest a x (uname : cptr) : @M T F RD IN () :=
  u ← estrdup9p uname;
  _ ← modfid x (λ f, f <| fi_uid := u |>);
  _ ← (if op_tree ops then
         s ← get;
         let g := tree_root (s_tree s) in
         _ ← settree (file_incref g (s_tree s));
         let q := d_qid (file_dir (s_tree s) g) in
         _ ← modofcall a (λ o, o <| f_qid := q |>);
         modfid x (λ f, f <| fi_file := Some g |> <| fi_qid := q |>)
       else mret ());
  call_or ops Uattach a None.

Lemma attach_rest_ok s0 s a r x f uname (Q : () → World → Prop) :
  cur (Some x) s0 s a r → mtype_of (f_type (rq_ifcall r)) = Some Tattach → rq_fid r = Some x →
  s_fids s !! x = Some f → uname ≠ None →
  (∀ s', served s0 s' → Q () s') → wp (attach_rest a x uname) s Q.
Proof.
  intros Hc Ht Hfid Hx Hu HQ. destruct uname as [u|]; [| done].
  apply wp_bind, wp_bind, wp_ret, wp_ret. apply wp_bind, (wp_modfid _ f); [done |].
  set (s1 := s <| s_fids := _ |>).
  assert (cur None s0 s1 a r) as Hc1.
  { apply (cur_modfid (Some x) None _ _ _ _ _ f); auto. }
  apply wp_bind. eapply (wp_mono _ _ (λ _ s2, ∃ r2, cur None s0 s2 a r2 ∧ rq_ifcall r2 = rq_ifcall r ∧ rq_fid r2 = Some x)).
  { destruct (op_tree ops); [| apply wp_ret; eauto].
    apply wp_bind, wp_get, wp_bind, wp_modify.
    apply wp_bind, (wp_modreq _ r); [apply Hc1 |].
    eapply wp_modfid; [apply lookup_insert_eq |].
    lazymatch goal with |- context [<[a := ?r2]> _] => exists r2; split; [| done] end.
    eapply (cur_modfid None None _ _ _ _ _ (f <| fi_uid := Some u |>));
      [apply lookup_insert_eq | done | done | by left |].
    by eapply (cur_modreq _ _ _ _ r), cur_tree, Hc1. }
  intros _ s2 (r2 & Hc2 & Hi2 & Hf2). eapply cur_call_or; [done | | | exact HQ].
  - split; [by rewrite Hi2 | by rewrite Hf2].
  - intros _. split; [by vm_compute |]. by rewrite Hi2, Ht.
Qed.

Lemma sattach_ok : handles Tattach (sattach ops).
Proof.
  intros s0 s a r Q Hst Hgone HQ. apply wp_bind, (wp_started _ _ _ _ _ _ Hst). pose proof Hst as [Hc Ht Hin].
  pose proof (dc_uname _ Hin Ht) as Hu.
  apply (wp_alloc (λ p r, r <| rq_fid := p |>) s0 s a r); [done | by apply points_fid, Hst | |].
  - intros s' Hc' _ _ _. eapply cur_respond; [done | | exact HQ]. split; [by apply small_str |].
    cbn. by rewrite Ht.
  - intros x s1 m _ Hx Hm Hs1 Hc1. set (r1 := r <| rq_fid := Some x |>) in *.
    apply wp_bind, (wp_modreq _ r1); [apply Hc1 |]. set (r2 := r1 <| rq_afid := None |>).
    set (s2 := s1 <| s_reqs := _ |>).
    assert (cur (Some x) s0 s2 a r2) as Hc2 by (apply (cur_modreq _ _ _ _ r1); try done; symmetry; apply Hst).
    assert (s_fids s2 !! x = Some (newfid (f_fid (rq_ifcall r)))) as Hx2 by (subst s2 s1; apply lookup_insert_eq).
    assert (abs (s_fpool s2) !! f_fid (rq_ifcall r) = Some x) as Hk2
      by (subst s2 s1; cbn; rewrite Hm; apply lookup_insert_eq).
    apply wp_bind. case_decide as Haf.
    + apply wp_ret. by eapply (attach_rest_ok _ _ _ r2).
    + apply (wp_lookup (λ p r, r <| rq_afid := p |>) (Some x) s0 s2 a r2); [done | by apply points_afid | |].
      * intros _ s3 -> Hc3. apply wp_ret. eapply cur_respond; [done | | exact HQ].
        split; [by apply small_str |]. cbn. rewrite Ht. exists (newfid (f_fid (rq_ifcall r))), x. auto.
      * intros y f s3 Hy Hf _ Hs3 Hc3. apply wp_ret. destruct (decide (x = y)) as [->|Hne].
        -- eapply (attach_rest_ok _ _ _ _ y); [done.. | subst s3; apply lookup_insert_eq | done | exact HQ].
        -- eapply (attach_rest_ok _ _ _ _ x); [done.. | | done | exact HQ].
           subst s3. cbn. by rewrite lookup_insert_ne by done.
Qed.

(** The two references of a flush: from the table to the code, from the code to [oldreq]. *)
Lemma cur_oldreq s0 s a r o ro :
  cur None s0 s a r → mtype_of (f_type (rq_ifcall r)) = Some Tflush → rq_oldreq r = None →
  s_reqs s !! o = Some ro →
  ∃ r1, <[o := ro <| rq_ref := rq_ref ro + 1 |>]> (s_reqs s) !! a = Some r1 ∧
    let r2 := r1 <| rq_oldreq := Some o |> in
    rq_ifcall r2 = rq_ifcall r ∧
    cur None s0 (s <| s_reqs := <[a := r2]> (<[o := ro <| rq_ref := rq_ref ro + 1 |>]> (s_reqs s)) |>) a r2.
Proof.
  intros [[] Hrd Hq Hroom] Ht Hold Ho. pose proof (rd_live _ _ _ _ _ Hrd) as Ha.
  set (ro' := ro <| rq_ref := rq_ref ro + 1 |>). set (reqs1 := <[o := ro']> (s_reqs s)).
  assert (∃ r1, ready ∅ reqs1 (s_upcalls s) a r1 ∧ rq_oldreq r1 = None ∧ rq_ifcall r1 = rq_ifcall r ∧
    rq_responded r1 = rq_responded r ∧ ∀ x, fid_uses x r1 = fid_uses x r) as (r1 & Hrd1 & Ho1 & Hi1 & Hr1 & Hu1).
  { destruct (decide (o = a)) as [->|Hne].
    - rewrite Ha in Ho. injection Ho as <-. exists ro'. split_and!; try done. by apply (ready_set _ _ _ _ r).
    - exists r. split_and!; try done. by apply (ready_set_ne _ _ _ _ _ _ ro). }
  exists r1. split; [apply Hrd1 |]. split; [done |].
  assert (RInv ∅ (Some o) reqs1 (abs (s_rpool s)) (s_next s) (s_upcalls s)) as Hinv by (by apply RInv_incref).
  constructor; [constructor | | | done]; try done; cbn.
  - eapply FInv_ext, g_fids. intros x. cbn.
    rewrite (total_upd _ _ _ r1) by apply Hrd1. unfold reqs1. rewrite (total_upd _ _ _ ro) by done.
    unfold fid_uses. cbn. lia.
  - eapply RInv_oldreq; [done | | | | exact Hinv]; rewrite ?Ho1, ?Hi1.
    + intros b. lia.
    + done.
    + intros b [= <-]. split; [| done]. unfold reqs1. rewrite lookup_insert_eq. by eexists.
  - by apply (ready_set _ _ _ _ r1).
  - destruct Hq. constructor; [done | done | done |]. intros P. rewrite <- q_tally. unfold tally. cbn.
    rewrite (total_upd _ _ _ r1) by apply Hrd1. unfold reqs1. rewrite (total_upd _ _ _ ro) by done. cbn. lia.
Qed.

Lemma sflush_ok : handles Tflush (sflush ops).
Proof.
  intros s0 s a r Q Hst Hgone HQ. apply wp_bind, (wp_started _ _ _ _ _ _ Hst). pose proof Hst as [Hc Ht Hin].
  pose proof Hc as [[? Hrp _ _ _ Hri] Hrd _ _]. pose proof (rd_live _ _ _ _ _ Hrd) as Ha.
  apply wp_bind. unfold wp at 1, lookupreq. rewrite lookupkey_abs by done.
  assert (∀ s1 r1, cur None s0 s1 a r1 → rq_ifcall r1 = rq_ifcall r →
    wp (respond_now a None) s1 Q ∧ wp (call_or ops Uflush a None) s1 Q) as Hend.
  { intros s1 r1 Hc1 Hi1. assert (resp_ok None s1 r1 None) as Hok
      by (split; [by vm_compute |]; by rewrite Hi1, Ht).
    split; [by eapply cur_respond | eapply cur_call_or; [done | | done | exact HQ]].
    split; [by rewrite Hi1 | done]. }
  destruct (abs (s_rpool s) !! f_oldtag (rq_ifcall r)) as [o|] eqn:Ho.
  - destruct Hri as [[_ _ _ Hkey _] _ _ _]. destruct (Hkey _ _ Ho) as (ro & Hro & _).
    unfold increqref. cbn [mbind res_bind]. rewrite Hro. cbn [mbind res_bind].
    destruct (cur_oldreq s0 s a r o ro Hc Ht) as (r1 & Hr1 & Hi & Hc2); [apply Hst | done |].
    apply wp_bind, (wp_modreq _ r1); [done |]. case_decide; by eapply Hend.
  - cbn [mbind res_bind]. apply wp_bind, (wp_modreq _ r); [done |]. rewrite decide_True by auto.
    eapply Hend; [apply (cur_modreq _ _ _ _ r); [| done.. | exact Hc] | done].
    unfold core. cbn. by rewrite (st_old _ _ _ _ _ Hst).
Qed.

(** Refusing a request: a literal message will do for any type but Tauth, Tattach and
    Twalk, which have a fid to give back. *)
Lemma refuse_ok s r e :
  small (Some e) →
  match mtype_of (f_type (rq_ifcall r)) with
  | Some (Tversion | Tauth | Tattach | Twalk) => False
  | Some _ => True
  | None => False
  end → resp_ok None s r (Some e).
Proof.
  intros He Ht. split; [done |]. destruct (mtype_of (f_type (rq_ifcall r))) as [t|]; [| done].
  destruct t; done.
Qed.

Ltac refuse Ht :=
  eapply cur_respond; [eassumption | apply refuse_ok; [by apply small_str | first [by rewrite Ht | by cbn; rewrite Ht]] | eassumption].

(** The fid of a request, as a handler has just looked it up. *)
Lemma wp_lookup_fid {B} t s0 s a r (K : option addr → @M T F RD IN B) Q :
  started t s0 s a r →
  (∀ s', cur None s0 s' a (r <| rq_fid := None |>) → wp (K None) s' Q) →
  (∀ x f s', abs (s_fpool s) !! f_fid (rq_ifcall r) = Some x → s_fids s !! x = Some f →
     s_fids s' !! x = Some (f <| fi_ref := fi_ref f + 1 |>) →
     fi_uid f ≠ None → s_fpool s' = s_fpool s → s_tree s' = s_tree s →
     cur None s0 s' a (r <| rq_fid := Some x |>) → wp (K (Some x)) s' Q) →
  wp (p ← lookupfid (f_fid (rq_ifcall r)); _ ← modreq a (λ r, r <| rq_fid := p |>); K p) s Q.
Proof.
  intros Hst Hn Hs. eapply (wp_lookup (λ p r, r <| rq_fid := p |>)); [apply Hst | by apply points_fid, Hst | |].
  - intros _ s' -> Hc. by apply Hn.
  - intros x f s' Hx Hf _ Hs' Hc. eapply (Hs x f); try done; [by subst s'; apply lookup_insert_eq | | by subst s'..].
    pose proof (c_good _ _ _ _ _ (st_cur _ _ _ _ _ Hst)) as [_ _ _ _ Hfi _].
    destruct (fv_key _ _ _ _ _ Hfi _ _ Hx) as (f' & Hf' & _ & [? | Hu]); [done | congruence].
Qed.

Lemma andb_bool_decide_false (P R : Prop) `{Decision P, Decision R} : bool_decide P && bool_decide R = false → ¬ (P ∧ R).
Proof. rewrite <- bool_decide_and. apply bool_decide_eq_false_1. Qed.

Lemma sopen_ok : handles Topen (sopen ops).
Proof.
  intros s0 s a r Q Hst Hgone HQ. apply wp_bind, (wp_started _ _ _ _ _ _ Hst). pose proof Hst as [_ Ht Hin].
  apply (wp_lookup_fid _ _ _ _ _ _ _ Hst); [intros s1 Hc1; refuse Ht |].
  intros x f s1 Hk Hf0 Hx _ _ Htree Hc1. apply wp_bind, (wp_getfid _ _ _ _ Hx). cbv zeta.
  case_decide as Hom; [refuse Ht |].
  destruct (bool_decide _ && bool_decide _) eqn:Hd1; [refuse Ht |].
  apply andb_bool_decide_false in Hd1.
  set (r1 := r <| rq_fid := Some x |>) in *.
  apply wp_bind, (wp_modreq _ r1); [apply Hc1 |].
  set (r2 := r1 <| rq_ofcall := _ |>). set (s2 := s1 <| s_reqs := _ |>).
  assert (cur None s0 s2 a r2) as Hc2 by (by apply (cur_modreq _ _ _ _ r1)).
  destruct (bool_decide _ && bool_decide _) eqn:Hd2; [refuse Ht |].
  apply andb_bool_decide_false in Hd2.
  assert (∀ s' r', cur None s0 s' a r' → rq_ifcall r' = rq_ifcall r → rq_fid r' = Some x →
    wp (call_or ops Uopen a None) s' Q) as Hend.
  { intros s' r' Hc' Hi' Hf'. eapply cur_call_or; [done | | | done].
    - split; [by rewrite Hi' | by rewrite Hf'].
    - intros _. split; [by vm_compute |]. rewrite Hi', Ht. split; [done |]. by rewrite Hf'. }
  cbn [fi_file update]. change (fi_file (f <| fi_ref := fi_ref f + 1 |>)) with (fi_file f).
  destruct (fi_file f) as [g|] eqn:Hfile; [| by eapply Hend].
  apply wp_bind, wp_get. destruct (negb _) eqn:Hperm; [refuse Ht |].
  apply wp_bind. eapply (wp_mono _ _ (λ _ s', s' = s2)).
  { case_decide as Horc; [| by apply wp_ret]. apply wp_bind, wp_get.
    destruct (file_parent (s_tree s2) g) as [d|] eqn:Hd; [by apply wp_ret, wp_ret |].
    destruct Hgone. unfold strays. rewrite Ht. exists x, f. unfold orphan. rewrite Hfile. cbn. rewrite <- Htree.
    apply negb_false_iff in Hperm. by split_and!. }
  intros ok s' ->. destruct (negb ok); [refuse Ht |].
  apply wp_bind, wp_modreq_again. set (r3 := r2 <| rq_ofcall := _ |>). set (s3 := s1 <| s_reqs := _ |>).
  assert (cur None s0 s3 a r3) as Hc3 by (by apply (cur_modreq _ _ _ _ r1)).
  case_decide; [| by eapply Hend].
  destruct (opendirfile g (s_tree s2)) as [d t]. apply wp_bind, wp_modify.
  apply wp_bind, (wp_modfid _ (f <| fi_ref := fi_ref f + 1 |>)); [exact Hx |].
  lazymatch goal with |- wp _ ?st _ => assert (cur None s0 st a r3) as Hc4 end.
  { eapply (cur_modfid None None); [exact Hx | done | done | by left | by apply cur_tree]. }
  destruct d; [by eapply Hend | refuse Ht].
Qed.

Lemma screate_ok : handles Tcreate (screate ops).
Proof.
  intros s0 s a r Q Hst Hgone HQ. apply wp_bind, (wp_started _ _ _ _ _ _ Hst). pose proof Hst as [_ Ht Hin].
  apply (wp_lookup_fid _ _ _ _ _ _ _ Hst); [intros s1 Hc1; refuse Ht |].
  intros x f s1 Hk Hf0 Hx _ _ Htree Hc1. apply wp_bind, (wp_getfid _ _ _ _ Hx). apply wp_bind, wp_get.
  case_decide; [refuse Ht |]. case_decide; [refuse Ht |].
  destruct (match fi_file _ with Some _ => _ | None => _ end); [refuse Ht |].
  eapply cur_call_or; [done | done | | done].
  intros _. apply refuse_ok; [by apply small_str | by cbn; rewrite Ht].
Qed.

Lemma wp_clip_count s0 s a r (Q : () → World → Prop) :
  cur None s0 s a r → mtype_of (f_type (rq_ifcall r)) = Some Tread ∨ mtype_of (f_type (rq_ifcall r)) = Some Twrite →
  (∀ s' r', cur None s0 s' a r' → s_fids s' = s_fids s →
     mtype_of (f_type (rq_ifcall r')) = mtype_of (f_type (rq_ifcall r)) → rq_fid r' = rq_fid r →
     f_count (rq_ifcall r') ≤ f_count (rq_ifcall r) →
     (0 ≤ f_count (rq_ifcall r) → 0 ≤ f_count (rq_ifcall r')) → s_reqs s' !! a = Some r' → Q () s') →
  wp (clip_count a) s Q.
Proof.
  intros Hc Ht HQ. apply wp_bind, wp_get. cbv zeta. apply (wp_modreq _ r); [apply Hc |].
  pose proof (u32_range (s_msize s - IOHDRSZ)) as Hr. case_decide as Hcnt.
  - eapply HQ; [by apply (cur_modreq _ _ _ _ r) | done | done | done | cbn; lia | | apply lookup_insert_eq].
    intros _. cbn. unfold is_u32 in Hr. lia.
  - eapply HQ; [by apply (cur_modreq _ _ _ _ r) | done | done | done | lia | done | apply lookup_insert_eq].
Qed.

Lemma s32_count z : is_u32 z → ¬ s32 z < 0 → 0 ≤ z < 2 ^ 31.
Proof.
  intros Hz Hs. destruct (decide (z < 2 ^ 31)); [unfold is_u32 in Hz; lia |]. destruct Hs.
  unfold s32, signed. change (2 ^ (32 - 1)) with (2 ^ 31). ranges.
  rewrite Z.mod_small, decide_False by lia. lia.
Qed.

Lemma resp_read s r :
  mtype_of (f_type (rq_ifcall r)) = Some Tread → rq_fid r ≠ None → payload Tread (rq_ofcall r) →
  resp_ok None s r None.
Proof. intros Ht Hf Hp. split; [by vm_compute |]. by rewrite Ht. Qed.

Lemma sread_ok : handles Tread (sread ops).
Proof.
  intros s0 s a r Q Hst Hdir HQ. apply wp_bind, (wp_started _ _ _ _ _ _ Hst). pose proof Hst as [_ Ht Hin].
  apply (wp_lookup_fid _ _ _ _ _ _ _ Hst); [intros s1 Hc1; refuse Ht |].
  intros x f s1 Hk Hf0 Hx _ _ Htree Hc1. apply wp_bind, (wp_getfid _ _ _ _ Hx).
  case_decide as Hneg; [refuse Ht |]. cbv zeta. case_decide as Hoff; [refuse Ht |].
  apply wp_bind, (wp_clip_count _ _ _ _ _ Hc1); [by left |].
  intros s2 r2 Hc2 Hfids Ht2 Hfid Hle H0 Ha2. cbn [rq_ifcall rq_fid update] in *.
  apply wp_bind, (wp_getreq_ _ r2); [done |].
  apply wp_bind, (wp_modreq _ r2); [done |]. set (r3 := r2 <| rq_ofcall := _ |>). set (s3 := s2 <| s_reqs := _ |>).
  assert (cur None s0 s3 a r3) as Hc3 by (by apply (cur_modreq _ _ _ _ r2)).
  assert (mtype_of (f_type (rq_ifcall r3)) = Some Tread) as Ht3 by (by cbn; rewrite Ht2).
  case_decide as Hmode; [refuse Ht3 |]. case_decide as Hd.
  - destruct (fi_rdir f) as [d|] eqn:Hrd.
    + apply wp_bind, (wp_nonnil _ d); [exact Hrd |]. apply wp_bind, wp_get.
      pose proof (s32_count _ (dc_count _ Hin Ht) Hneg) as Hcount.
      pose proof (so_readdir _ Hsrv d (f_count (rq_ifcall r2)) (s_tree s3) (H0 (proj1 Hcount))) as Hlen.
      destruct (readdirfile d (f_count (rq_ifcall r2)) (s_tree s3)) as [data t]. cbn in Hlen.
      apply wp_bind, wp_modify. apply wp_bind, (wp_modreq _ r3); [apply lookup_insert_eq |].
      lazymatch goal with |- wp _ (_ <| s_reqs := <[a := ?r4]> _ |>) _ =>
        eapply (cur_respond _ _ _ _ r4); [by apply (cur_modreq _ _ _ _ r3), cur_tree, Hc3 | | exact HQ] end.
      apply resp_read; [exact Ht3 | cbn; by rewrite Hfid |]. cbn. lia.
    + destruct Hdir. unfold strays. rewrite Ht. exists x, f. destruct Hd. by split_and!.
  - eapply cur_call_or; [exact Hc3 | split; [exact Ht3 | cbn; by rewrite Hfid] | | exact HQ].
    intros _. apply refuse_ok; [by apply small_str | by rewrite Ht3].
Qed.

Lemma swrite_ok : handles Twrite (swrite ops).
Proof.
  intros s0 s a r Q Hst Hgone HQ. apply wp_bind, (wp_started _ _ _ _ _ _ Hst). pose proof Hst as [_ Ht Hin].
  apply (wp_lookup_fid _ _ _ _ _ _ _ Hst); [intros s1 Hc1; refuse Ht |].
  intros x f s1 Hk Hf0 Hx _ _ Htree Hc1. apply wp_bind, (wp_getfid _ _ _ _ Hx).
  case_decide; [refuse Ht |]. case_decide; [refuse Ht |].
  apply wp_bind, (wp_clip_count _ _ _ _ _ Hc1); [by right |].
  intros s2 r2 Hc2 _ Ht2 Hfid _ _ _. cbn [rq_ifcall rq_fid update] in *. rewrite Ht in Ht2. cbv zeta.
  case_decide.
  - eapply cur_respond; [exact Hc2 | | exact HQ]. apply refuse_ok; [by apply so_badwrite | by rewrite Ht2].
  - eapply cur_call_or; [exact Hc2 | split; [exact Ht2 | by rewrite Hfid] | | exact HQ].
    intros _. apply refuse_ok; [by apply small_str | by rewrite Ht2].
Qed.

Lemma sclunk_ok : handles Tclunk sclunk.
Proof.
  intros s0 s a r Q Hst Hgone HQ. apply wp_bind, (wp_started _ _ _ _ _ _ Hst). pose proof Hst as [Hc Ht Hin].
  apply (wp_clunkfid (λ p r, r <| rq_fid := p |>) s0 s a r); [done | by apply points_fid, Hst | |].
  - intros s1 Hc1. refuse Ht.
  - intros x f s1 _ _ _ _ Hc1. eapply cur_respond; [exact Hc1 | | exact HQ].
    split; [by vm_compute |]. cbn. by rewrite Ht.
Qed.

Lemma sremove_ok : handles Tremove (sremove ops).
Proof.
  intros s0 s a r Q Hst Hgone HQ. apply wp_bind, (wp_started _ _ _ _ _ _ Hst). pose proof Hst as [Hc Ht Hin].
  apply (wp_clunkfid (λ p r, r <| rq_fid := p |>) s0 s a r); [done | by apply points_fid, Hst | |].
  - intros s1 Hc1. refuse Ht.
  - intros x f s1 Hk Hx Hfids Htree Hc1. apply wp_bind, (wp_getfid x f); [by rewrite Hfids |]. apply wp_bind.
    eapply (wp_mono _ _ (λ _ s', s' = s1)).
    { destruct (fi_file f) as [g|] eqn:Hfile; [| by apply wp_ret]. apply wp_bind, wp_get.
      destruct (file_parent (s_tree s1) g) as [d|] eqn:Hd; [by apply wp_ret, wp_ret |].
      destruct Hgone. unfold strays. rewrite Ht. exists x, f. unfold orphan. rewrite Hfile. cbn. by rewrite <- Htree. }
    intros ok s' ->. destruct (negb ok); [refuse Ht |].
    eapply cur_call_or; [exact Hc1 | done | | exact HQ]. intros _.
    destruct (fi_file f); [split; [by vm_compute |]; cbn; by rewrite Ht |].
    apply refuse_ok; [by apply small_str | by cbn; rewrite Ht].
Qed.

Lemma sstat_ok : handles Tstat (sstat ops).
Proof.
  intros s0 s a r Q Hst Hgone HQ. apply wp_bind, (wp_started _ _ _ _ _ _ Hst). pose proof Hst as [_ Ht Hin].
  apply (wp_lookup_fid _ _ _ _ _ _ _ Hst); [intros s1 Hc1; refuse Ht |].
  intros x f s1 Hk Hf0 Hx _ _ Htree Hc1. apply wp_bind, (wp_getfid _ _ _ _ Hx). apply wp_bind, wp_get.
  change (fi_file (f <| fi_ref := fi_ref f + 1 |>)) with (fi_file f).
  set (r1 := r <| rq_fid := Some x |>) in *. destruct (fi_file f) as [g|].
  - apply wp_bind, (wp_modreq _ r1); [apply Hc1 |]. set (r2 := r1 <| rq_d := _ |>).
    set (s2 := s1 <| s_reqs := _ |>). assert (cur None s0 s2 a r2) as Hc2 by (by apply (cur_modreq _ _ _ _ r1)).
    eapply cur_call_or; [exact Hc2 | done | | exact HQ].
    intros _. split; [by vm_compute |]. cbn. rewrite Ht. split; [done |]. intros _. by apply (so_dir _ Hsrv).
  - apply wp_bind, wp_ret. eapply cur_call_or; [exact Hc1 | done | | exact HQ].
    intros _. apply refuse_ok; [by apply small_str | by cbn; rewrite Ht].
Qed.

Lemma swstat_ok : handles Twstat (swstat ops).
Proof.
  intros s0 s a r Q Hst Hgone HQ. apply wp_bind, (wp_started _ _ _ _ _ _ Hst). pose proof Hst as [_ Ht Hin].
  apply (wp_lookup_fid _ _ _ _ _ _ _ Hst); [intros s1 Hc1; refuse Ht |].
  intros x f s1 Hk Hf0 Hx _ _ Htree Hc1. apply wp_bind, (wp_getfid _ _ _ _ Hx).
  destruct (negb _); [refuse Ht |]. cbv zeta. destruct (dc_stat _ Hin Ht) as [Hn Hb].
  set (r1 := r <| rq_fid := Some x |>) in *.
  assert (convM2D (f_stat (rq_ifcall r)) 0 (f_nstat (rq_ifcall r)) (Some 0) ≠ Ub) as Hsafe.
  { apply convM2D_inside; [done | lia | done |]. split; [done | by left]. }
  apply wp_bind. eapply (wp_mono _ _ (λ v s2, s2 = s1)).
  { destruct (convM2D _ _ _ _) as [v | |]; [by apply wp_ret | by apply wp_ret | done]. }
  intros [[m stat] d] s2 ->. apply wp_bind, (wp_modreq _ r1); [apply Hc1 |].
  lazymatch goal with |- wp _ (_ <| s_reqs := <[a := ?r']> _ |>) _ => set (r2 := r') end.
  set (s2 := s1 <| s_reqs := _ |>). assert (cur None s0 s2 a r2) as Hc2 by (by apply (cur_modreq _ _ _ _ r1)).
  assert (mtype_of (f_type (rq_ifcall r2)) = Some Twstat) as Ht2 by done.
  repeat (case_decide; [refuse Ht2 |]). eapply cur_call; [exact Hc2 | done | exact HQ].
Qed.

(** *** Twalk *)

(** A walk from [fa] to [nf] under way. *)
Record walking s0 a (i0 : Fcall) fa nf s r : Prop := {
  wk_cur : cur None s0 s a r;
  wk_type : mtype_of (f_type i0) = Some Twalk;
  wk_names : 0 ≤ f_nwname i0 ≤ MAXWELEM;
  wk_in : rq_ifcall r = i0;
  wk_fid : rq_fid r = Some fa;
  wk_newfid : rq_newfid r = Some nf;
  wk_pool : f_fid i0 ≠ f_newfid i0 → pooled None s (Some nf);
  wk_out : payload Twalk (rq_ofcall r)
}.

Lemma walk_respond s0 a i0 fa nf s r error (Q : () → World → Prop) :
  walking s0 a i0 fa nf s r → small error → (∀ s', served s0 s' → Q () s') → wp (respond_now a error) s Q.
Proof.
  intros [] Hsm HQ. eapply cur_respond; [done | | exact HQ]. split; [done |].
  rewrite wk_in0, wk_type0. split_and!; try done; [apply wk_out0.. | |].
  - intros _ Hne. rewrite wk_newfid0. auto.
  - intros _ _. by rewrite wk_fid0, wk_newfid0.
Qed.

Lemma walk_out s0 a i0 fa nf s r o :
  walking s0 a i0 fa nf s r → payload Twalk o →
  walking s0 a i0 fa nf (s <| s_reqs := <[a := r <| rq_ofcall := o |>]> (s_reqs s) |>) (r <| rq_ofcall := o |>).
Proof. intros [] Hp. constructor; try done. by apply (cur_modreq _ _ _ _ r). Qed.

Lemma walk_fid s0 a i0 fa nf s r x f f' :
  walking s0 a i0 fa nf s r → s_fids s !! x = Some f → fi_ref f' = fi_ref f → fi_fid f' = fi_fid f →
  fi_uid f' = fi_uid f → walking s0 a i0 fa nf (s <| s_fids := <[x := f']> (s_fids s) |>) r.
Proof.
  intros [] Hx Hr Hn Hu. constructor; try done.
  - apply (cur_modfid None None _ _ _ _ _ f); try done. left. by rewrite Hu.
  - intros Hne. destruct (wk_pool0 Hne) as (g & y & Hg & Hy & ?). cbn.
    destruct (decide (x = nf)) as [->|]; [| by exists g, y; rewrite lookup_insert_ne by done].
    exists f', y. rewrite lookup_insert_eq, Hn. rewrite Hx in Hg. injection Hg as <-. auto.
Qed.

Lemma walk_tree s0 a i0 fa nf s r t :
  walking s0 a i0 fa nf s r → walking s0 a i0 fa nf (s <| s_tree := t |>) r.
Proof. intros []. constructor; try done. by apply cur_tree. Qed.

Lemma walk_live s0 a i0 fa nf s r :
  walking s0 a i0 fa nf s r → (∃ f, s_fids s !! fa = Some f) ∧ (∃ f, s_fids s !! nf = Some f).
Proof.
  intros []. destruct wk_cur0 as [Hg Hrd _ _].
  split; eapply fid_live; [exact Hg | apply Hrd | by apply uses_fid | exact Hg | apply Hrd | by apply uses_newfid].
Qed.

Lemma payload_wqid o i q :
  payload Twalk o → payload Twalk (o <| f_wqid := <[i := q]> (f_wqid o) |>).
Proof. intros [? ?]. split; [done |]. cbn. by rewrite length_insert. Qed.

Lemma payload_nwqid o i : payload Twalk o → 0 ≤ i ≤ MAXWELEM → payload Twalk (o <| f_nwqid := i |>).
Proof. by intros []. Qed.

Lemma filewalk_loop_ok s0 a i0 fa nf names g i s r (Q : option F * nat → World → Prop) :
  ¬ walks_off names g (s_tree s) → walking s0 a i0 fa nf s r → Z.of_nat (i + length names) ≤ MAXWELEM →
  (∀ g' j s' r', walking s0 a i0 fa nf s' r' → Z.of_nat j ≤ MAXWELEM → Q (g', j) s') →
  wp (filewalk_loop a names g i) s Q.
Proof.
  revert g i s r. induction names as [|n names IH]; intros g i s r Hoff Hw Hi HQ; cbn [filewalk_loop].
  { apply wp_ret. eapply HQ; [done | cbn in Hi; lia]. }
  cbn [walks_off] in Hoff. apply wp_bind, wp_get, wp_bind, wp_lift; [intros Hub; by rewrite Hub in Hoff |].
  intros [g' t] Hok. rewrite Hok in Hoff. apply wp_bind, wp_modify. destruct g' as [g'|].
  - apply wp_bind, (wp_modreq _ r); [apply Hw |]. eapply IH; [exact Hoff | | cbn in Hi; lia | exact HQ].
    apply walk_out; [by apply walk_tree | apply payload_wqid, Hw].
  - apply wp_ret. eapply HQ; [by apply walk_tree | cbn in Hi; lia].
Qed.

Lemma length_wnames i0 : 0 ≤ f_nwname i0 ≤ MAXWELEM → Z.of_nat (length (wnames i0)) ≤ MAXWELEM.
Proof. intros Hn. unfold wnames. rewrite length_take. lia. Qed.

Lemma filewalk_ok s0 a i0 fa nf s r f (Q : () → World → Prop) :
  s_fids s !! fa = Some f →
  ¬ from_option (λ g, walks_off (wnames i0) g (file_incref g (s_tree s))) False (fi_file f) →
  walking s0 a i0 fa nf s r → (∀ s', served s0 s' → Q () s') → wp (filewalk a) s Q.
Proof.
  intros Hf Hoff Hw HQ. apply wp_bind, (wp_getreq_ _ r); [apply Hw |]. rewrite (wk_fid _ _ _ _ _ _ _ Hw).
  apply wp_bind, wp_ret. apply wp_bind, (wp_getfid _ f); [done |]. apply wp_bind. destruct (fi_file f) as [g|]; [| done].
  apply wp_ret, wp_bind, wp_get, wp_bind, wp_modify, wp_bind. rewrite (wk_in _ _ _ _ _ _ _ Hw).
  eapply filewalk_loop_ok; [exact Hoff | by apply walk_tree | apply length_wnames, Hw |].
  intros g' j s1 r1 Hw1 Hj. apply wp_bind, (wp_modreq _ r1); [apply Hw1 |].
  set (o := (rq_ofcall r1) <| f_nwqid := Z.of_nat j |>).
  apply (walk_out _ _ _ _ _ _ r1 o) in Hw1; [| apply payload_nwqid; [apply Hw1 | lia]].
  apply wp_bind. destruct g' as [g'|]; [| by apply wp_ret; eapply walk_respond].
  apply wp_bind, (wp_nonnil _ nf); [apply Hw |]. apply wp_bind, wp_get.
  destruct (walk_live _ _ _ _ _ _ _ Hw1) as [_ [n Hn]]. apply (wp_modfid _ n); [exact Hn |].
  eapply walk_respond; [by eapply walk_fid | done | exact HQ].
Qed.

Lemma walk_loop_ok w s0 a i0 fa nf names i s r (Q : cptr * nat → World → Prop) :
  op_walk1 ops = Some w → walking s0 a i0 fa nf s r → Z.of_nat (i + length names) ≤ MAXWELEM →
  (∀ e j s' r', walking s0 a i0 fa nf s' r' → Z.of_nat j ≤ MAXWELEM → small e → Q (e, j) s') →
  wp (walk_loop w a nf names i) s Q.
Proof.
  intros Hop. revert i s r. induction names as [|n names IH]; intros i s r Hw Hi HQ; cbn [walk_loop].
  { apply wp_ret. eapply HQ; [done | cbn in Hi; lia | by vm_compute]. }
  destruct (walk_live _ _ _ _ _ _ _ Hw) as [_ [f Hf]]. apply wp_bind, (wp_getfid _ f); [done |].
  pose proof (so_walk1 _ Hsrv w f n Hop) as Hsm. destruct (w f n) as [[e|] q].
  - apply wp_ret. eapply HQ; [done | cbn in Hi; lia | done].
  - apply wp_bind, (wp_modfid _ f); [done |]. apply wp_bind, (wp_modreq _ r); [apply Hw |].
    eapply IH; [| cbn in Hi; lia | exact HQ].
    apply (walk_out _ _ _ _ _ _ r); [by eapply walk_fid | apply payload_wqid, Hw].
Qed.

Lemma walkandclone_ok w s0 a i0 fa nf s r (Q : () → World → Prop) :
  op_walk1 ops = Some w → walking s0 a i0 fa nf s r → (∀ s', served s0 s' → Q () s') →
  wp (walkandclone ops w a) s Q.
Proof.
  intros Hop Hw HQ. apply wp_bind, (wp_getreq_ _ r); [apply Hw |].
  apply wp_bind, (wp_nonnil _ fa); [apply Hw |]. apply wp_bind, (wp_nonnil _ nf); [apply Hw |].
  case_decide; [by eapply walk_respond; [done | apply small_str |] |].
  apply wp_bind. eapply (wp_mono _ _ (λ e s1, small e ∧ walking s0 a i0 fa nf s1 r)).
  { case_decide; [| by apply wp_ret]. destruct (walk_live _ _ _ _ _ _ _ Hw) as [[f Hf] [n Hn]].
    apply wp_bind, (wp_getfid _ f); [done |]. apply wp_bind, (wp_modfid _ n); [done |].
    apply wp_bind. eapply wp_getfid; [apply lookup_insert_eq |]. apply wp_ret.
    split; [| by eapply walk_fid]. destruct (op_clone ops) as [c|] eqn:Hc; [| by vm_compute].
    by apply (so_clone _ Hsrv). }
  intros e s1 [Hsm Hw1]. destruct e as [e|]; [by eapply walk_respond |].
  apply wp_bind. rewrite (wk_in _ _ _ _ _ _ _ Hw).
  eapply walk_loop_ok; [done | done | apply length_wnames, Hw |].
  intros e j s2 r2 Hw2 Hj He. apply wp_bind, (wp_modreq _ r2); [apply Hw2 |].
  set (o := (rq_ofcall r2) <| f_nwqid := Z.of_nat j |>).
  apply (walk_out _ _ _ _ _ _ r2 o) in Hw2; [| apply payload_nwqid; [apply Hw2 | lia]].
  case_decide; by eapply walk_respond.
Qed.

(** swalk once both fids are there. *)
Lemma walk_go_ok s0 a i0 fa nf s r f (file : option F) (Q : () → World → Prop) :
  s_fids s !! fa = Some f → fi_file f = file →
  ¬ from_option (λ g, walks_off (wnames i0) g (file_incref g (s_tree s))) False file →
  walking s0 a i0 fa nf s r → (∀ s', served s0 s' → Q () s') →
  wp (match file, op_walk1 ops with
      | Some _, _ => filewalk a
      | None, Some walk1 => walkandclone ops walk1 a
      | None, None => if op_set ops Uwalk then call Uwalk a else die
      end) s Q.
Proof.
  intros Hf Hfile Hoff Hw HQ. destruct file; [eapply (filewalk_ok _ _ _ _ _ _ _ f); try done; by rewrite Hfile |].
  destruct (op_walk1 ops) eqn:Hop; [by eapply walkandclone_ok |].
  destruct (op_set ops Uwalk); [| done].
  eapply cur_call; [apply Hw | | exact HQ]. destruct Hw. split; [by rewrite wk_in0 |].
  by rewrite wk_fid0, wk_newfid0.
Qed.

(** A second reference to the fid of the request. *)
Lemma cur_share s0 s a r fa f :
  cur None s0 s a r → rq_newfid r = None → s_fids s !! fa = Some f →
  cur None s0 (s <| s_fids := <[fa := f <| fi_ref := fi_ref f + 1 |>]> (s_fids s) |>
                 <| s_reqs := <[a := r <| rq_newfid := Some fa |>]> (s_reqs s) |>) a
    (r <| rq_newfid := Some fa |>).
Proof.
  intros Hc Hn Hf. pose proof Hc as [[] _ _ _].
  pose proof (cur_point None None s0 s a r (λ p r, r <| rq_newfid := p |>) (Some fa)
    (<[fa := f <| fi_ref := fi_ref f + 1 |>]> (s_fids s)) (s_fpool s) (s_next s) Hc
    (points_newfid _ Hn) g_fpool (Pos.le_refl _)) as Hp.
  destruct s. apply Hp. eapply FInv_ext, (FInv_incref _ _ _ _ _ _ _ Hf), g_fids.
  intros y. unfold upd, b2z. do 2 case_decide; simplify_eq; lia.
Qed.

Lemma refuse_walk s0 s a r (e : list Z) (Q : () → World → Prop) :
  cur None s0 s a r → mtype_of (f_type (rq_ifcall r)) = Some Twalk → rq_ofcall r = fcall0 →
  rq_newfid r = None → small (Some e) → (∀ s', served s0 s' → Q () s') →
  wp (respond_now a (Some e)) s Q.
Proof.
  intros Hc Ht Ho Hn Hsm HQ. eapply cur_respond; [exact Hc | | exact HQ]. split; [done |].
  rewrite Ht, Ho, Hn. split_and!; [done | by cbn; split; [done | vm_compute] | done | done].
Qed.

Lemma swalk_ok : handles Twalk (swalk ops).
Proof.
  intros s0 s a r Q Hst Hgone HQ. apply wp_bind, (wp_started _ _ _ _ _ _ Hst). pose proof Hst as [Hc Ht Hin Hout _ _ Hnf].
  apply (wp_lookup_fid _ _ _ _ _ _ _ Hst).
  { intros s1 Hc1. by eapply refuse_walk; [.. | apply small_str |]. }
  intros fa f s1 Hk Hf0 Hx Hu Hfp Htree Hc1. apply wp_bind, (wp_getfid _ _ _ _ Hx).
  set (r1 := r <| rq_fid := Some fa |>) in *.
  case_decide as Hom; [by eapply refuse_walk; [.. | apply small_str |] |].
  case_decide as Hdir; [by eapply refuse_walk; [.. | apply small_str |] |].
  assert (f_fid (rq_ifcall r) = f_newfid (rq_ifcall r) ∨ abs (s_fpool s) !! f_newfid (rq_ifcall r) = None →
    ¬ from_option (λ g, walks_off (wnames (rq_ifcall r)) g (file_incref g (s_tree s))) False (fi_file f)) as Hoff.
  { intros Hnew Hoff. destruct Hgone. unfold strays. rewrite Ht. exists fa, f. by split_and!. }
  rewrite <- Hfp, <- Htree in Hoff.
  pose proof (dc_nwname _ Hin Ht) as Hnw. apply wp_bind. case_decide as Hne.
  - apply (wp_alloc (λ p r, r <| rq_newfid := p |>) s0 s1 a r1); [done | by apply points_newfid | |].
    + intros s2 Hc2 _ _ _. apply wp_ret. by eapply refuse_walk; [.. | apply small_str |].
    + intros nf s2 m Hfree Hnew Hm Hs2 Hc2. change (fi_uid (f <| fi_ref := fi_ref f + 1 |>)) with (fi_uid f).
      destruct (fi_uid f) as [u|]; [| done]. apply wp_bind, wp_bind, wp_ret, wp_ret.
      assert (s_fids s2 !! nf = Some (newfid (f_newfid (rq_ifcall r)))) as Hn2 by (subst s2; apply lookup_insert_eq).
      apply wp_bind. eapply wp_modfid; [exact Hn2 |]. apply wp_ret.
      eapply (walk_go_ok _ _ (rq_ifcall r) fa nf _ (r1 <| rq_newfid := Some nf |>) (f <| fi_ref := fi_ref f + 1 |>)); [| done | | | exact HQ].
      { subst s2. cbn. by rewrite !lookup_insert_ne by congruence. }
      { subst s2. apply Hoff. by right. }
      constructor; try done.
      * eapply (cur_modfid (Some nf) None); [exact Hn2 | done | done | right; split; [done | by right] | exact Hc2].
      * intros _. eexists _, nf. cbn. rewrite lookup_insert_eq. split_and!; [done | | by left].
        cbn. subst s2. cbn. rewrite Hm. apply lookup_insert_eq.
      * cbn. rewrite Hout. by split; [| vm_compute].
  - apply wp_bind, (wp_modfid _ _ _ _ _ Hx). apply wp_bind, (wp_modreq _ r1); [apply Hc1 |]. apply wp_ret.
    eapply (walk_go_ok _ _ (rq_ifcall r) fa fa _ (r1 <| rq_newfid := Some fa |>)); [apply lookup_insert_eq | done | | | exact HQ].
    { apply Hoff. by left. }
    constructor; [exact (cur_share _ _ _ _ _ _ Hc1 Hnf Hx) | done..| | by cbn; rewrite Hout; split; [| vm_compute]]. 
    intros Hd. by destruct Hd.
Qed.
End Steps.
