(* ===== verification/SrvNil.v ===== *)
(** * SrvNil: where the 9P server follows a nil pointer of the file tree

    The requests that {!SrvSteps} excludes, [strays], are exactly those on which a handler
    goes wrong: on each of them the handler is run up to the nil pointer. *)

From S2P Require Import Prelude Bytes Fcall Stat Intmap Srv SrvInv SrvProps SrvSteps.

Section Nil.
Context {T F RD IN : Type} {FT : FileTree T F RD}.
Variable ops : SrvOps F RD.

Local Abbreviation World := (St T F RD IN).
Implicit Types (s : World) (a x : addr) (r : Req).

Lemma bind_run {A B} (m : @M T F RD IN A) (k : A → M B) s v s1 :
  m s = Ok (v, s1) → (m ≫= k) s = k v s1.
Proof. unfold mbind, M_bind. by intros ->. Qed.

Lemma getreq_run a r s : s_reqs s !! a = Some r → @getreq_ T F RD IN a s = Ok (r, s).
Proof. intros Ha. unfold getreq_, mbind, M_bind, get. by rewrite Ha. Qed.

Lemma getfid_run x f s : s_fids s !! x = Some f → @getfid T F RD IN x s = Ok (f, s).
Proof. intros Hx. unfold getfid, mbind, M_bind, get. by rewrite Hx. Qed.

Lemma modreq_run a r g s :
  s_reqs s !! a = Some r → @modreq T F RD IN a g s = Ok ((), s <| s_reqs := <[a := g r]> (s_reqs s) |>).
Proof. intros Ha. unfold modreq. by rewrite (bind_run _ _ _ _ _ (getreq_run _ _ _ Ha)). Qed.

Lemma lookupfid_run s k x f :
  intmap_ok (s_fpool s) → abs (s_fpool s) !! k = Some x → s_fids s !! x = Some f →
  @lookupfid T F RD IN k s = Ok (Some x, s <| s_fids := <[x := f <| fi_ref := fi_ref f + 1 |>]> (s_fids s) |>).
Proof.
  intros Hok Hk Hx. unfold lookupfid. rewrite lookupkey_abs, Hk by done.
  unfold incfidref. cbn [mbind res_bind]. by rewrite Hx.
Qed.

(** sread reads through the [rdir] of the fid, whether there is one or not. *)
Lemma sread_nil s a r :
  good None ∅ None s → s_reqs s !! a = Some r → no_rdir s (rq_ifcall r) → sread ops a s = Ub.
Proof.
  intros [] Ha (x & f & Hk & Hx & Hcnt & Hoff & Hmode & Hdir & Hnil). unfold sread.
  rewrite (bind_run _ _ _ _ _ (getreq_run _ _ _ Ha)).
  rewrite (bind_run _ _ _ _ _ (lookupfid_run _ _ _ _ g_fpool Hk Hx)).
  erewrite bind_run by (by apply (modreq_run _ r)).
  erewrite bind_run by (apply getfid_run, lookup_insert_eq).
  rewrite decide_False by done. cbv zeta. rewrite decide_False by done.
  erewrite bind_run by (by eapply modreq_run, lookup_insert_eq).
  erewrite bind_run by (apply getreq_run, lookup_insert_eq).
  erewrite bind_run by (by eapply modreq_run, lookup_insert_eq).
  rewrite decide_False by done. rewrite decide_True by done.
  change (fi_rdir (f <| fi_ref := fi_ref f + 1 |>)) with (fi_rdir f). by rewrite Hnil.
Qed.

Lemma allocfid_run s k :
  intmap_ok (s_fpool s) → abs (s_fpool s) !! k = None →
  ∃ m, allocfid k s = Ok (Some (s_next s),
    s <| s_next := Pos.succ (s_next s) |> <| s_fids := <[s_next s := newfid k]> (s_fids s) |> <| s_fpool := m |>).
Proof.
  intros Hok Hk. unfold allocfid, fresh, setfid, mbind, M_bind, get, modify, mret, M_ret. cbn.
  destruct (caninsertkey_abs (s_fpool s) k (s_next s) Hok) as [(_ & m & -> & _) | (Hs & _)].
  - exists m. by destruct s.
  - rewrite Hk in Hs. by destruct Hs.
Qed.

Lemma removefid_run s k x :
  intmap_ok (s_fpool s) → abs (s_fpool s) !! k = Some x →
  ∃ m, removefid k s = Ok (Some x, s <| s_fpool := m |>).
Proof.
  intros Hok Hk. unfold removefid, mbind, M_bind, get, modify, mret, M_ret. cbn.
  destruct (deletekey_abs (s_fpool s) k Hok) as (m & -> & _). exists m. by rewrite Hk.
Qed.

Lemma modfid_run x f g s :
  s_fids s !! x = Some f → @modfid T F RD IN x g s = Ok ((), s <| s_fids := <[x := g f]> (s_fids s) |>).
Proof. intros Hx. unfold modfid. by rewrite (bind_run _ _ _ _ _ (getfid_run _ _ _ Hx)). Qed.

(** [file->parent] of a file that has been removed. *)
Lemma parentperm_nil s f g : file_parent (s_tree s) g = None → parentperm f g s = Ub.
Proof. intros Hp. unfold parentperm, mbind, M_bind, get. by rewrite Hp. Qed.

Lemma then_Ub {A B} (m : @M T F RD IN A) (k : A → M B) s : m s = Ub → (m ≫= k) s = Ub.
Proof. unfold mbind, M_bind. by intros ->. Qed.

Lemma sopen_nil s a r :
  good None ∅ None s → s_reqs s !! a = Some r → orphan_open s (rq_ifcall r) → sopen ops a s = Ub.
Proof.
  intros [] Ha (x & f & Hk & Hx & Hom & Hd1 & Hd2 & Hperm & Horc & Hor). unfold sopen, orphan in *.
  rewrite (bind_run _ _ _ _ _ (getreq_run _ _ _ Ha)).
  rewrite (bind_run _ _ _ _ _ (lookupfid_run _ _ _ _ g_fpool Hk Hx)).
  erewrite bind_run by (by apply (modreq_run _ r)).
  erewrite bind_run by (apply getfid_run, lookup_insert_eq).
  rewrite decide_False by (intros Hne; by apply Hne). cbv zeta.
  rewrite <- bool_decide_and, bool_decide_eq_false_2 by done.
  erewrite bind_run by (by eapply modreq_run, lookup_insert_eq).
  rewrite <- bool_decide_and, bool_decide_eq_false_2 by done.
  change (fi_file (f <| fi_ref := fi_ref f + 1 |>)) with (fi_file f).
  destruct (fi_file f) as [g|]; [| done]. cbn in Hperm, Hor.
  erewrite bind_run by reflexivity. cbn [s_tree update].
  lazymatch goal with |- context [negb ?b] => change b with (hasperm (s_tree s) g (fi_uid f) (openperm (f_mode (rq_ifcall r)))) end.
  rewrite Hperm. cbn [negb]. apply then_Ub. rewrite decide_True by done. by apply parentperm_nil.
Qed.

Lemma sremove_nil s a r :
  good None ∅ None s → s_reqs s !! a = Some r → orphan_remove s (rq_ifcall r) → sremove ops a s = Ub.
Proof.
  intros [] Ha (x & f & Hk & Hx & Hor). unfold sremove, orphan in *.
  rewrite (bind_run _ _ _ _ _ (getreq_run _ _ _ Ha)).
  destruct (removefid_run s _ _ g_fpool Hk) as [m Hrm]. rewrite (bind_run _ _ _ _ _ Hrm).
  erewrite bind_run by (by apply (modreq_run _ r)).
  erewrite bind_run by (by apply getfid_run).
  destruct (fi_file f) as [g|]; [| done]. apply then_Ub. by apply parentperm_nil.
Qed.

Lemma filewalk_loop_nil a r names g i s :
  s_reqs s !! a = Some r → walks_off names g (s_tree s) → filewalk_loop a names g i s = Ub.
Proof.
  revert g i s r. induction names as [|n names IH]; intros g i s r Ha; [done |]. cbn [walks_off filewalk_loop].
  intros Hoff. erewrite bind_run by reflexivity. unfold lift.
  destruct (walkfile g n (s_tree s)) as [[g' t] | |]; [| done | done].
  erewrite bind_run by reflexivity. cbv beta iota. erewrite bind_run by reflexivity. destruct g' as [g'|]; [| done].
  erewrite bind_run by (by apply (modreq_run _ r)).
  eapply IH; [apply lookup_insert_eq | done].
Qed.

Lemma filewalk_nil a r x f g s :
  s_reqs s !! a = Some r → rq_fid r = Some x → s_fids s !! x = Some f → fi_file f = Some g →
  walks_off (wnames (rq_ifcall r)) g (file_incref g (s_tree s)) → filewalk a s = Ub.
Proof.
  intros Ha Hr Hx Hf Hoff. unfold filewalk.
  rewrite (bind_run _ _ _ _ _ (getreq_run _ _ _ Ha)), Hr. erewrite bind_run by reflexivity.
  rewrite (bind_run _ _ _ _ _ (getfid_run _ _ _ Hx)), Hf. do 3 erewrite bind_run by reflexivity.
  apply then_Ub. by eapply filewalk_loop_nil.
Qed.

Lemma swalk_nil s a r :
  good None ∅ None s → s_reqs s !! a = Some r → orphan_walk s (rq_ifcall r) → swalk ops a s = Ub.
Proof.
  intros Hg Ha (x & f & Hk & Hx & Hom & Hdir & Hnew & Hoff). pose proof Hg as []. unfold swalk.
  rewrite (bind_run _ _ _ _ _ (getreq_run _ _ _ Ha)).
  rewrite (bind_run _ _ _ _ _ (lookupfid_run _ _ _ _ g_fpool Hk Hx)).
  erewrite bind_run by (by apply (modreq_run _ r)).
  erewrite bind_run by (apply getfid_run, lookup_insert_eq).
  rewrite decide_False by (intros Hne; by apply Hne). rewrite decide_False by done.
  change (fi_file (f <| fi_ref := fi_ref f + 1 |>)) with (fi_file f).
  change (fi_uid (f <| fi_ref := fi_ref f + 1 |>)) with (fi_uid f).
  destruct (fi_file f) as [g|] eqn:Hf; [| done]. cbn in Hoff.
  destruct (decide (f_fid (rq_ifcall r) = f_newfid (rq_ifcall r))) as [Heq | Hne].
  - rewrite decide_False by (intros Hn; by apply Hn).
    erewrite (bind_run _ _ _ true); [| erewrite bind_run by (eapply modfid_run, lookup_insert_eq);
      erewrite bind_run by (eapply modreq_run, lookup_insert_eq); reflexivity].
    eapply (filewalk_nil _ _ x); [apply lookup_insert_eq | done | apply lookup_insert_eq | done | exact Hoff].
  - rewrite decide_True by done. destruct Hnew as [? | Hfree]; [done |].
    lazymatch goal with |- (_ ≫= _) ?st = _ => set (s1 := st) end.
    destruct (allocfid_run s1 (f_newfid (rq_ifcall r)) g_fpool Hfree) as [m Hal].
    pose proof (fresh_fid _ _ Hg) as Hfr.
    assert (x ≠ s_next s) as Hxn by congruence.
    destruct (fi_uid f) as [u|] eqn:Hu.
    + erewrite (bind_run _ _ _ true); [| rewrite (bind_run _ _ _ _ _ Hal);
        erewrite bind_run by (eapply modreq_run, lookup_insert_eq);
        erewrite bind_run by reflexivity; erewrite bind_run by (eapply modfid_run, lookup_insert_eq); reflexivity].
      eapply (filewalk_nil _ _ x (f <| fi_ref := fi_ref f + 1 |>)); [apply lookup_insert_eq | done | | done | exact Hoff].
      cbn. rewrite !lookup_insert_ne by done. apply lookup_insert_eq.
    + apply then_Ub. rewrite (bind_run _ _ _ _ _ Hal).
      erewrite bind_run by (eapply modreq_run, lookup_insert_eq). reflexivity.
Qed.

Lemma strays_dies s a r t :
  good None ∅ None s → s_reqs s !! a = Some r → mtype_of (f_type (rq_ifcall r)) = Some t →
  strays s (rq_ifcall r) →
  match t with
  | Tread => sread ops a s = Ub
  | Topen => sopen ops a s = Ub
  | Tremove => sremove ops a s = Ub
  | Twalk => swalk ops a s = Ub
  | _ => False
  end.
Proof.
  unfold strays. intros Hg Ha -> Hs. destruct t; try done.
  - by eapply swalk_nil.
  - by eapply sopen_nil.
  - by eapply sread_nil.
  - by eapply sremove_nil.
Qed.

(** *** Whether a request strays can be told *)

Lemma on_fid_dec s i P : (∀ f, P f ∨ ¬ P f) → on_fid s i P ∨ ¬ on_fid s i P.
Proof.
  intros Hdec. unfold on_fid. destruct (abs (s_fpool s) !! f_fid i) as [x|] eqn:Hx; [| by right; intros (? & ? & ? & _)].
  destruct (s_fids s !! x) as [f|] eqn:Hf; [| by right; intros (? & ? & ? & ? & _); simplify_eq].
  destruct (Hdec f) as [Hp | Hn]; [left; by exists x, f |].
  right. intros (y & g & Hy & Hg & Hp). by simplify_eq.
Qed.

Lemma and_dec P R : P ∨ ¬ P → R ∨ ¬ R → (P ∧ R) ∨ ¬ (P ∧ R).
Proof. tauto. Qed.

Lemma decided P `{Decision P} : P ∨ ¬ P.
Proof. destruct (decide P); auto. Qed.

Lemma orphan_dec s f : orphan s f ∨ ¬ orphan s f.
Proof.
  unfold orphan. destruct (fi_file f) as [g|]; cbn; [| by right; intros []].
  destruct (file_parent (s_tree s) g); [by right | by left].
Qed.

Lemma walks_off_dec names g (t : T) : walks_off names g t ∨ ¬ walks_off names g t.
Proof.
  revert g t. induction names as [|n names IH]; intros g t; cbn; [by right; intros [] |].
  destruct (walkfile g n t) as [[[g'|] t'] | |]; tauto || apply IH.
Qed.

Lemma strays_dec s i : strays s i ∨ ¬ strays s i.
Proof.
  unfold strays. destruct (mtype_of (f_type i)) as [[]|]; try tauto; apply on_fid_dec; intros f.
  - do 3 (apply and_dec; [apply decided; apply _ |]).
    destruct (fi_file f); cbn; [apply walks_off_dec | tauto].
  - do 3 (apply and_dec; [apply decided; apply _ |]). apply and_dec; [| apply and_dec; [apply decided; apply _ | apply orphan_dec]].
    destruct (fi_file f); cbn; [apply decided; apply _ | tauto].
  - do 3 (apply and_dec; [apply decided; apply _ |]). apply decided. apply _.
  - apply orphan_dec.
Qed.
End Nil.
