(* ===== verification/SrvRun.v ===== *)
(** * SrvRun: a 9P server as a whole

    The loop of srv (sys/src/lib9p/srv.c) and the answers of the program as the steps of
    one system: what holds of every state it can reach. *)

From stdpp Require Import strings.
From S2P Require Import Prelude Bytes Fcall FcallProps Stat StatProps Rune RuneProps Intmap Srv SrvInv SrvProps SrvSteps SrvNil.

(** How many of the messages [l] have the tag [t]. *)
Definition tagged (t : Z) (l : list (list Z)) : Z := len (filter (λ m, msg_tag m = Ok t) l).

(** *** Fuel *)
Section Fuel.
Context {T F RD IN : Type} {FT : FileTree T F RD}.
Local Abbreviation M := (@M T F RD IN).

(** [m'] is [m] with more fuel. *)
Definition extends {A} (m m' : M A) : Prop := ∀ s, m s = Ub ∨ m' s = m s.

#[local] Instance extends_refl {A} : Reflexive (@extends A).
Proof. intros m s. by right. Qed.

Lemma extends_bind {A B} (m m' : M A) (k k' : A → M B) :
  extends m m' → (∀ v, extends (k v) (k' v)) → extends (m ≫= k) (m' ≫= k').
Proof.
  intros Hm Hk s. unfold mbind, M_bind. destruct (Hm s) as [-> | ->]; [by left |].
  destruct (m s) as [[v s'] | |]; [apply Hk | by right..].
Qed.

Lemma extends_if {A} (b : bool) (m m' n n' : M A) :
  extends m m' → extends n n' → extends (if b then m else n) (if b then m' else n').
Proof. by destruct b. Qed.

Lemma extends_all (g g' : addr → cptr → M ()) l :
  (∀ a e, extends (g a e) (g' a e)) → extends (respond_all g l) (respond_all g' l).
Proof.
  intros Hg. induction l as [|a l IH]; [done |]. apply extends_bind; [apply Hg | by intros _].
Qed.

Lemma extends_second_half c c' a e :
  (∀ p, extends (c p) (c' p)) → extends (second_half c a e) (second_half c' a e).
Proof.
  intros Hc. apply extends_bind; [done |]. intros r. destruct (mtype_of _) as [t|]; [| done].
  destruct t; try done. apply extends_bind; [done |]. intros _. apply extends_bind; [done |]. intros r'.
  destruct (rq_oldreq r'); [| done]. apply extends_bind; [done |]. intros o.
  apply extends_if; [| done]. by apply extends_bind.
Qed.

Lemma extends_send c c' g g' a :
  (∀ p, extends (c p) (c' p)) → (∀ a e, extends (g a e) (g' a e)) →
  extends (send_answer c g a) (send_answer c' g' a).
Proof.
  intros Hc Hg. unfold send_answer.
  repeat first
    [ apply extends_bind; [first [apply extends_if | apply extends_all | idtac] | intros ?]
    | apply extends_if | apply Hc | done ].
  all: try (apply extends_bind; [done | intros ?; apply Hc]).
Qed.

(** More fuel changes nothing once there is enough. *)
Lemma more_fuel m n :
  (m ≤ n)%nat →
  (∀ a e, extends (@respond T F RD IN FT m a e) (respond n a e)) ∧
  (∀ p, extends (@closereq T F RD IN FT m p) (closereq n p)).
Proof.
  revert n. induction m as [|m IH]; intros n Hn; [split; intros; intros s; by left |].
  destruct n as [|n]; [lia |]. destruct (IH n) as [IHr IHc]; [lia |]. split.
  - intros a e. rewrite !respond_S. apply extends_bind; [done |]. intros r.
    apply extends_bind; [done |]. intros _. apply extends_bind; [done |]. intros _.
    apply extends_bind; [by apply extends_second_half |]. intros [|]; [done |]. by apply extends_send.
  - intros [a|]; [| done]. cbn [closereq]. apply extends_bind; [done |]. intros r.
    apply extends_bind; [done |]. intros _. case_decide; [| done].
    do 3 (apply extends_bind; [done |]; intros _).
    apply extends_bind; [by destruct (rq_oldreq _) |]. intros _.
    apply extends_bind; [by apply extends_all |]. by intros _.
Qed.
End Fuel.

Section Run.
Context {T F RD IN : Type} {FT : FileTree T F RD}.
Variable ops : SrvOps F RD.
Variable read : IN → Z → Z * list Z * IN.
Context {BS : ByteStream IN read}.
Hypothesis Hsrv : server_ok ops.
Hypothesis Hauth : op_set ops Uauth = false.

Local Abbreviation World := (St T F RD IN).
Implicit Types (s : World) (a x : addr) (r : Req) (error : cptr) (m : list Z).
Local Abbreviation may_answer s a r := (ready ∅ (s_reqs s) (s_upcalls s) a r).
Local Abbreviation input s := (StatProps.pending (s_in s)).

(** Between steps. *)
Record sound s : Prop := {
  so_good : good None ∅ None s;
  so_room : roomy s;
  so_bytes : bytes_ok (input s)
}.

(** *** Requests no handler sees *)

Lemma wp_fuel a e n s (Q : () → World → Prop) :
  fuel_for s = S n → wp (respond (S n) a e) s Q → wp (respond_now a e) s Q.
Proof. unfold wp, respond_now. by intros ->. Qed.

Lemma wp_False {A} (m : @M T F RD IN A) s : wp m s (λ _ _, False) → m s = Err.
Proof. unfold wp. by destruct (m s) as [[] | |]. Qed.

(** A message that is not a request ends the process. *)
Lemma respond_dies s a r e (Q : () → World → Prop) :
  s_reqs s !! a = Some r →
  match mtype_of (f_type (rq_ifcall r)) with Some t => is_T t = false | None => True end →
  wp (respond_now a e) s Q.
Proof.
  intros Ha Ht. apply (wp_fuel a e (2 * size (s_reqs s) + 3)); [unfold fuel_for; lia |].
  rewrite respond_S. apply wp_bind, (wp_getreq_ _ r); [done |].
  apply wp_bind, wp_assert. intros _. apply wp_bind, wp_modify. apply wp_bind.
  apply wp_bind. eapply wp_getreq_; [apply lookup_insert_eq |]. cbn.
  destruct (mtype_of _) as [t|]; [by destruct t | done].
Qed.

(** The request made for a message whose tag is in use. *)
Definition dup_req (f : Fcall) : Req :=
  req0 <| rq_ref := 1 |> <| rq_tag := f_tag f |> <| rq_ifcall := f |> <| rq_error := Some Eduptag |>.

Lemma respond_dup fuel a s f t (Q : () → World → Prop) :
  mtype_of (f_type f) = Some t → is_u16 (f_tag f) → s_bufs s = Some (s_msize s) →
  (∀ msg, msg_tag msg = Ok (f_tag f) → msg_type msg = Ok (mtype_code Rerror) →
     Q () (s <| s_reqs := delete a (s_reqs s) |> <| s_out := s_out s ++ [msg] |>)) →
  wp (respond (S fuel) a (Some Eduptag)) (s <| s_reqs := <[a := dup_req f]> (s_reqs s) |>) Q.
Proof.
  intros Ht Htag Hbuf HQ. set (w := s <| s_reqs := _ |>).
  assert (s_reqs w !! a = Some (dup_req f)) as Ha by apply lookup_insert_eq.
  assert (w <| s_reqs := <[a := dup_req f]> (s_reqs w) |> = w) as Hw.
  { subst w. cbn. rewrite insert_insert_eq. by destruct s. }
  rewrite respond_S. apply wp_bind, (wp_getreq_ _ _ _ _ Ha).
  apply wp_bind, wp_assert. intros _. apply wp_bind, wp_modify.
  change ((dup_req f) <| rq_error := Some Eduptag |>) with (dup_req f). rewrite Hw.
  apply wp_bind. apply (wp_mono _ _ (λ d s', d = false ∧ s' = w)).
  { apply wp_bind, (wp_getreq_ _ _ _ _ Ha). cbn [rq_ifcall update dup_req].
    change (f_type (rq_ifcall _)) with (f_type f). rewrite Ht.
    destruct t; try done; apply wp_bind; try (by apply wp_ret);
      apply wp_bind, (wp_getreq_ _ _ _ _ Ha); try (by apply wp_ret).
    cbn zeta. rewrite decide_True by (by left). apply wp_bind. case_decide; by apply wp_ret. }
  intros d s' [-> ->]. apply wp_bind, (wp_modreq _ _ _ _ _ Ha).
  set (r1 := (dup_req f) <| rq_ofcall := final (dup_req f) |>).
  apply wp_bind, (wp_getreq_ _ r1); [apply lookup_insert_eq |]. apply wp_bind, wp_get.
  apply wp_bind, (wp_nonnil _ (s_msize s)); [done |]. apply wp_bind.
  pose proof (convS2M_answer (final (dup_req f)) (s_msize s)) as Hmsg. unfold wp at 1.
  change (convS2M (rq_ofcall r1) _) with (convS2M (final (dup_req f)) (s_msize s)).
  destruct (convS2M _ _) as [msg | |]; [| done | destruct Hmsg; by vm_compute].
  destruct Hmsg as (Hmty & Hmtag & _); [by vm_compute |].
  apply wp_bind, wp_assert. intros _. apply wp_bind, wp_ret, wp_bind, wp_modify.
  apply wp_bind. eapply wp_modreq; [apply lookup_insert_eq |].
  apply wp_bind. eapply wp_getreq_; [apply lookup_insert_eq |]. apply wp_bind, wp_ret.
  apply wp_bind. eapply wp_modreq; [apply lookup_insert_eq |]. apply wp_modify.
  specialize (HQ msg). rewrite Hmtag, Hmty, u16_small in HQ by done.
  lazymatch goal with |- Q () ?st => replace st with
    (s <| s_reqs := delete a (s_reqs s) |> <| s_out := s_out s ++ [msg] |>); [by apply HQ |] end.
  destruct s. cbn. by rewrite !insert_insert_eq, delete_insert_eq.
Qed.

(** *** getreq *)

Definition tag_req t : Req := req0 <| rq_tag := t |> <| rq_pool := true |> <| rq_ref := 2 |>.

Lemma fresh_req ex s : good ex ∅ None s → s_reqs s !! s_next s = None.
Proof.
  intros []. destruct (s_reqs s !! s_next s) as [r|] eqn:Hr; [| done].
  destruct g_reqs as [[Hn _ _ _ _] _ _ _]. specialize (Hn _ _ Hr). lia.
Qed.

(** allocreq: nil, and nothing allocated, when the tag is in use. *)
Lemma wp_allocreq s t (Q : option addr → World → Prop) :
  good None ∅ None s →
  (∀ rp, abs (s_rpool s) !! t = None → intmap_ok rp → abs rp = <[t := s_next s]> (abs (s_rpool s)) →
     Q (Some (s_next s)) (s <| s_next := Pos.succ (s_next s) |>
       <| s_reqs := <[s_next s := tag_req t]> (s_reqs s) |> <| s_rpool := rp |>)) →
  (is_Some (abs (s_rpool s) !! t) →
   ∀ tree, Q None (s <| s_next := Pos.succ (s_next s) |> <| s_tree := tree |>)) →
  wp (allocreq t) s Q.
Proof.
  intros Hg Hnew Hdup. pose proof (fresh_req _ _ Hg) as Hfr.
  apply wp_bind, wp_bind, wp_get, wp_bind, wp_modify, wp_ret. apply wp_bind, wp_modify.
  apply wp_bind, wp_get. cbn beta. fold (tag_req t). set (s1 := _ <| s_reqs := _ |>).
  change (s_rpool s1) with (s_rpool s).
  destruct (caninsertkey_abs (s_rpool s) t (s_next s)) as [(Hk & rp & -> & Hm & Habs) | (Hk & ->)]; [apply Hg | |].
  - apply wp_bind, wp_modify, wp_ret. by apply Hnew.
  - assert (∃ n, fuel_for s1 = S n) as [n ->] by (exists (2 * size (s_reqs s1) + 3)%nat; unfold fuel_for; lia).
    apply wp_bind, (closereq_run _ _ (tag_req t)); [apply lookup_insert_eq | | done]. intros _.
    set (s2 := _ <| s_reqs := _ |>).
    apply wp_bind, (closereq_run _ _ ((tag_req t) <| rq_ref := 1 |>)); [apply lookup_insert_eq | done |].
    intros _. split_and!; [done.. |]. exists (s_fids s2). split; [by exists (s_fids s2), (s_fids s2) |].
    intros tree. apply wp_ret. specialize (Hdup Hk tree).
    lazymatch goal with |- Q None ?st => replace st with
      (s <| s_next := Pos.succ (s_next s) |> <| s_tree := tree |>); [exact Hdup |] end.
    subst s2 s1. destruct s. cbn in *. by rewrite insert_insert_eq, delete_insert_id.
Qed.

(** A tag in use is no way out for a Tversion or a Tflush. *)
Lemma dup_dies a s f t :
  mtype_of (f_type f) = Some t → t = Tversion ∨ t = Tflush →
  dispatch ops a (s <| s_reqs := <[a := dup_req f]> (s_reqs s) |>) = Err.
Proof.
  intros Ht Hor. set (w := s <| s_reqs := _ |>).
  assert (s_reqs w !! a = Some (dup_req f)) as Ha by apply lookup_insert_eq.
  apply wp_False, wp_bind, (wp_getreq_ _ _ _ _ Ha).
  apply (wp_fuel a (Some Eduptag) (2 * size (s_reqs w) + 3)); [unfold fuel_for; lia |].
  rewrite respond_S. apply wp_bind, (wp_getreq_ _ _ _ _ Ha).
  apply wp_bind, wp_assert. intros _. apply wp_bind, wp_modify.
  apply wp_bind, wp_bind. eapply wp_getreq_; [apply lookup_insert_eq |].
  cbn [rq_ifcall update dup_req]. change (f_type (rq_ifcall _)) with (f_type f). rewrite Ht.
  destruct Hor as [-> | ->]; exact I.
Qed.

(** What a received message is known to be. *)
Record request m f t : Prop := {
  rr_dec : ∃ n, convM2S m fcall0 = Ok (n, f);
  rr_tag : msg_tag m = Ok (f_tag f);
  rr_u16 : is_u16 (f_tag f);
  rr_type : mtype_of (f_type f) = Some t;
  rr_err : t ≠ Terror;
  rr_in : decoded f
}.

Lemma request_decoded m n f :
  convM2S m fcall0 = Ok (n, f) → bytes_ok m → len m < 2 ^ 32 → ∃ t, request m f t.
Proof.
  intros Hm Hb Hlen. destruct (decode_header _ _ _ _ Hm) as (Htag & Hv & Hu).
  destruct (decode_message _ _ _ _ Hm Hb Hlen fcall0_wt) as (_ & [] & He & _).
  unfold encodable in He. destruct (mtype_of (f_type f)) as [t|] eqn:Ht; [| done].
  exists t. constructor; try done; [by exists n | by intros -> |]. constructor; rewrite Ht.
  - done.
  - done.
  - intros [= ->]. ranges. lia.
  - done.
  - intros [= ->]. ranges. split; [lia | done].
Qed.

(** A new request, ready to be handled. *)
Lemma started_new s f t rp :
  good None ∅ None s → roomy s → is_u16 (f_tag f) → mtype_of (f_type f) = Some t → decoded f →
  abs (s_rpool s) !! f_tag f = None → intmap_ok rp → abs rp = <[f_tag f := s_next s]> (abs (s_rpool s)) →
  let r := (tag_req (f_tag f)) <| rq_ifcall := f |> in
  let s1 := s <| s_next := Pos.succ (s_next s) |> <| s_reqs := <[s_next s := r]> (s_reqs s) |>
              <| s_rpool := rp |> in
  started t s1 s1 (s_next s) r ∧ ∀ P, tally P s1 = tally P s + P (f_tag f).
Proof.
  intros Hg Hroom H16 Ht Hin Hk Hrp Habs r s1. pose proof (fresh_req _ _ Hg) as Hfr. destruct Hg.
  destruct (RInv_alloc (s_reqs s) (abs (s_rpool s)) (s_next s) (s_upcalls s) (f_tag f) r) as [Hr Hrd]; [done.. |].
  split.
  - constructor; try done. constructor; try done. constructor; try done; cbn.
    + eapply FInv_grow; [| eapply FInv_ext, g_fids]; [lia |]. intros y. cbn. rewrite total_new by done.
      by rewrite Z.add_0_l.
    + by rewrite Habs.
  - intros P. unfold tally. cbn. rewrite total_new by done. cbn. lia.
Qed.

(** What the loop of srv has in hand after getreq: a new request, or one that only
    carries the error for a tag in use. *)
Inductive got s m (a : addr) s1 : Prop :=
  | got_new f t r :
      request m f t → started t s1 s1 a r → rq_ifcall r = f → rq_error r = None →
      (∀ P, tally P s1 = tally P s + P (f_tag f)) →
      abs (s_rpool s) !! f_tag f = None → got s m a s1
  | got_dup f t s' :
      request m f t → good None ∅ None s' → roomy s' → s_reqs s' !! a = None →
      s1 = s' <| s_reqs := <[a := dup_req f]> (s_reqs s') |> → s_out s' = s_out s →
      (∀ P, tally P s' = tally P s) → is_Some (abs (s_rpool s) !! f_tag f) →
      s_reqs s' = s_reqs s → s_fids s' = s_fids s → got s m a s1.

Lemma wp_getreq s (Q : option addr → World → Prop) :
  sound s → (∀ s1, Q None s1) →
  (∀ m a s1, input s = m ++ input s1 → bytes_ok (input s1) → s_out s1 = s_out s → got s m a s1 → Q (Some a) s1) →
  wp (getreq read) s Q.
Proof.
  intros [Hg Hroom Hb] Hnone Hsome. apply wp_bind, wp_get.
  destruct (read9pmsg_got (s_in s) (s_msize s) Hb) as (n & buf & i & Hread & Hgot);
    [unfold roomy, BIT32SZ, BIT8SZ, BIT16SZ in *; lia |].
  apply wp_bind. unfold wp at 1. rewrite Hread. cbn [mbind res_bind].
  case_decide as Hn; [by apply wp_ret |]. destruct Hgot as (Hin & Hlen & Hle); [lia |].
  rewrite takeZ_all by lia. pose proof Hb as Hb'. rewrite Hin in Hb'. apply bytes_ok_app in Hb' as [Hbuf Hrest].
  pose proof (g_msize _ _ _ _ Hg) as Hms.
  destruct (convM2S buf fcall0) as [[m f] | |] eqn:Hdec; [| by apply wp_ret | by destruct (decode_safe buf fcall0 Hdec)].
  case_decide as Hm; [by apply wp_ret |].
  destruct (request_decoded _ _ _ Hdec Hbuf) as (t & Hreq); [lia |]. pose proof Hreq as [_ _ H16 Ht _ Hf].
  set (s0 := s <| s_in := i |>). assert (good None ∅ None s0) as Hg0 by (by destruct Hg).
  apply wp_bind, wp_allocreq; [done | |].
  - intros rp Hk Hrp Habs. apply wp_bind. eapply wp_modreq; [apply lookup_insert_eq |]. apply wp_ret.
    destruct (started_new s0 f t rp) as [Hst Hta]; [done.. |].
    assert (∀ s1 : World, s1 = s0 <| s_next := Pos.succ (s_next s0) |>
      <| s_reqs := <[s_next s0 := (tag_req (f_tag f)) <| rq_ifcall := f |>]> (s_reqs s0) |> <| s_rpool := rp |> →
      Q (Some (s_next s0)) s1) as HQ; [| apply HQ; destruct s; cbn; by rewrite insert_insert_eq].
    intros s1 ->. eapply Hsome; [done | done | done |]. by eapply got_new.
  - intros Hk tree. apply wp_bind, wp_bind, wp_get, wp_bind, wp_modify, wp_ret.
    apply wp_bind, wp_modify, wp_ret. eapply Hsome; [done.. |].
    set (s' := s0 <| s_next := Pos.succ (Pos.succ (s_next s)) |> <| s_tree := tree |>).
    apply (got_dup _ _ _ _ f t s'); try done.
    + destruct Hg0. constructor; try done; cbn.
      * eapply FInv_grow, g_fids. cbn. lia.
      * eapply RInv_grow, g_reqs. cbn. lia.
    + cbn. destruct (s_reqs s !! Pos.succ (s_next s)) as [r|] eqn:Hr; [| done].
      destruct Hg as [_ _ _ _ _ [[Hnext _ _ _ _] _ _ _]]. specialize (Hnext _ _ Hr). lia.
Qed.

(** *** A turn of the loop *)

(** The request takes its handler through a nil pointer of the file tree. *)
Definition astray s a : Prop :=
  ∃ r, s_reqs s !! a = Some r ∧ rq_error r = None ∧ strays s (rq_ifcall r).

Record turned s m s' : Prop := {
  tn_sound : sound s';
  tn_in : input s = m ++ input s';
  tn_tag : ∀ t, answered t s' + outstanding t s' = answered t s + outstanding t s + b2z (msg_tag m = Ok t);
  tn_out : s_out s `prefix_of` s_out s'
}.

Lemma tag_is m f t tg : request m f t → b2z (msg_tag m = Ok tg) = b2z (f_tag f = tg).
Proof. intros [_ Hm _ _ _ _]. unfold b2z. rewrite Hm. do 2 case_decide; congruence. Qed.

(** The tag in use is refused at once, and nothing else changes. *)
Lemma dup_answer f t s' m a (Q : () → World → Prop) :
  request m f t → good None ∅ None s' → s_reqs s' !! a = None →
  (∀ msg, msg_tag msg = Ok (f_tag f) → msg_type msg = Ok (mtype_code Rerror) →
     Q () (s' <| s_out := s_out s' ++ [msg] |>)) →
  wp (dispatch ops a) (s' <| s_reqs := <[a := dup_req f]> (s_reqs s') |>) Q.
Proof.
  intros [_ Htag H16 Ht _ _] Hg Ha HQ.
  apply wp_bind. eapply wp_getreq_; [apply lookup_insert_eq |]. cbn [rq_error update dup_req].
  set (s1 := s' <| s_reqs := _ |>).
  apply (wp_fuel a (Some Eduptag) (2 * size (s_reqs s1) + 3)); [unfold fuel_for; lia |].
  apply (respond_dup _ _ _ _ t); [done | done | apply Hg |]. intros msg Hmt Hmty.
  specialize (HQ msg Hmt Hmty). destruct s'; cbn in *. by rewrite delete_id.
Qed.

Lemma dup_turn s m f t s' a (Q : () → World → Prop) :
  request m f t → good None ∅ None s' → roomy s' → s_reqs s' !! a = None → s_out s' = s_out s →
  (∀ P, tally P s' = tally P s) → input s = m ++ input s' → bytes_ok (input s') →
  (∀ s2, turned s m s2 → Q () s2) →
  wp (dispatch ops a) (s' <| s_reqs := <[a := dup_req f]> (s_reqs s') |>) Q.
Proof.
  intros Hreq Hg Hroom Ha Hout Hta Hin Hb HQ. eapply dup_answer; [done.. |]. intros msg Hmt _.
  apply HQ. constructor.
  - constructor; [| done | done]. by destruct Hg.
  - done.
  - intros tg. rewrite answered_snoc, Hmt, (tag_is _ _ _ _ Hreq).
    unfold outstanding. change (tally ?P (s' <| s_out := _ |>)) with (tally P s').
    rewrite Hta. unfold answered. rewrite Hout. unfold b2z. do 2 case_decide; simplify_eq; lia.
  - cbn. rewrite Hout. by eexists.
Qed.

Lemma dispatch_ok s m a s1 (Q : () → World → Prop) :
  got s m a s1 → s_out s1 = s_out s → input s = m ++ input s1 → bytes_ok (input s1) → ¬ astray s1 a →
  (∀ s2, turned s m s2 → Q () s2) → wp (dispatch ops a) s1 Q.
Proof.
  intros Hgot Hout Hin Hb Hdir HQ. destruct Hgot as [f t r Hreq Hst Hf He Hta _ | f t s' Hreq Hg Hroom Ha -> Ho Hta _ _ _].
  2: { eapply dup_turn; try done. }
  apply wp_bind, (wp_started _ _ _ _ _ _ Hst). rewrite He, Hf. pose proof Hreq as [_ _ _ Ht Herr _]. rewrite Ht.
  assert (∀ s2, served s1 s2 → Q () s2) as HQ'.
  { intros s2 []. apply HQ. constructor.
    - constructor; [done | done | by rewrite sv_in].
    - by rewrite sv_in.
    - intros tg. rewrite sv_tag, (tag_is _ _ _ _ Hreq). unfold outstanding. rewrite Hta.
      unfold answered. rewrite Hout. lia.
    - by rewrite <- Hout. }
  assert (Some t = mtype_of (f_type (rq_ifcall r))) as Ht' by (by rewrite Hf).
  assert (¬ strays s1 (rq_ifcall r)) as Hno by (intros Hn; apply Hdir; exists r; split_and!; [apply (st_cur _ _ _ _ _ Hst) | done | done]).
  destruct t; try done;
    try (eapply (respond_dies _ _ r); [apply (st_cur _ _ _ _ _ Hst) | by rewrite <- Ht']).
  - by eapply sversion_ok.
  - by eapply sauth_ok.
  - by eapply sattach_ok.
  - by eapply sflush_ok.
  - by eapply swalk_ok.
  - by eapply sopen_ok.
  - by eapply screate_ok.
  - by eapply sread_ok.
  - by eapply swrite_ok.
  - by eapply sclunk_ok.
  - by eapply sremove_ok.
  - by eapply sstat_ok.
  - by eapply swstat_ok.
Qed.

Lemma getreq_got s a s1 :
  sound s → getreq read s = Ok (Some a, s1) →
  ∃ m, input s = m ++ input s1 ∧ bytes_ok (input s1) ∧ s_out s1 = s_out s ∧ got s m a s1.
Proof.
  intros Hs Hget.
  pose proof (wp_getreq s (λ p s1, ∀ a, p = Some a →
    ∃ m, input s = m ++ input s1 ∧ bytes_ok (input s1) ∧ s_out s1 = s_out s ∧ got s m a s1) Hs) as Hw.
  unfold wp in Hw. rewrite Hget in Hw. apply Hw; [done | | done]. intros m b s2 ? ? ? ? ? [= <-]. eauto 6.
Qed.

Lemma astray_dec s a : astray s a ∨ ¬ astray s a.
Proof.
  unfold astray. destruct (s_reqs s !! a) as [r|]; [| by right; intros (? & ? & _)].
  destruct (decide (rq_error r = None)) as [He|]; [| by right; intros (? & [= <-] & ? & _)].
  destruct (strays_dec s (rq_ifcall r)); [left; by exists r |].
  right. by intros (? & [= <-] & _ & ?).
Qed.

Lemma astray_dies s m a s1 : got s m a s1 → astray s1 a → dispatch ops a s1 = Ub.
Proof.
  intros Hgot (r & Ha & He & Hd). destruct Hgot as [f t r' Hreq Hst Hf _ _ _ | f t s' _ _ _ _ -> _ _ _ _ _].
  - pose proof (rd_live _ _ _ _ _ (c_rdy _ _ _ _ _ (st_cur _ _ _ _ _ Hst))) as Ha'. rewrite Ha in Ha'. injection Ha' as <-.
    unfold dispatch. rewrite (bind_run _ _ _ _ _ (getreq_run _ _ _ Ha)), He, (st_type _ _ _ _ _ Hst).
    pose proof (strays_dies ops s1 a r t (c_good _ _ _ _ _ (st_cur _ _ _ _ _ Hst)) Ha (st_type _ _ _ _ _ Hst) Hd).
    by destruct t.
  - cbn in Ha. rewrite lookup_insert_eq in Ha. injection Ha as <-. done.
Qed.

(** *** The answers of the program *)

(** What the program may assign to a fid: anything but its number and its count, and it
    does not take away the user. *)
Definition tame (g : Fid F RD → Fid F RD) : Prop :=
  ∀ f, fi_ref (g f) = fi_ref f ∧ fi_fid (g f) = fi_fid f ∧ (fi_uid f ≠ None → fi_uid (g f) ≠ None).

(** What the program has to leave behind.  Refusing a Tattach or a Twalk takes the new
    fid back, which must not have been clunked meanwhile. *)
Definition answer_ok (u : upcall) s r (an : Answer F RD) : Prop :=
  small (an_error an) ∧ tame (an_fid an) ∧ tame (an_newfid an) ∧
  match u with
  | Uauth => an_error an = None ∨ pooled None s (rq_afid r)
  | Uattach => an_error an = None ∨ pooled None s (rq_fid r)
  | Uwalk =>
      payload Twalk (an_ofcall an) ∧
      (an_error an ≠ None ∨ f_nwqid (an_ofcall an) < f_nwname (rq_ifcall r) →
       f_fid (rq_ifcall r) ≠ f_newfid (rq_ifcall r) → pooled None s (rq_newfid r))
  | Uread => an_error an = None → payload Tread (an_ofcall an)
  | Ustat => an_error an = None → stat_size (an_d an) < 2 ^ 31
  | _ => True
  end.

Lemma pooled_set s s' (p : option addr) :
  s_fpool s' = s_fpool s →
  (∀ x f, s_fids s !! x = Some f → ∃ f', s_fids s' !! x = Some f' ∧ fi_fid f' = fi_fid f) →
  pooled None s p → pooled None s' p.
Proof.
  intros Hp Hf. destruct p as [x|]; [| done]. intros (f & y & Hx & Hy & _).
  destruct (Hf _ _ Hx) as (f' & Hf' & He). exists f', y. rewrite Hp, He. auto.
Qed.

(** The members of a fid of the request are assigned. *)
Lemma wp_assign s0 s a r (p : option addr) g (Q : () → World → Prop) :
  cur None s0 s a r → tame g → (∀ x, p = Some x → 0 < fid_uses x r) →
  (∀ s', cur None s0 s' a r → s_out s' = s_out s → (∀ q, pooled None s q → pooled None s' q) → Q () s') →
  wp (if p is Some x then modfid x g else mret ()) s Q.
Proof.
  intros Hc Hg Hp HQ. destruct p as [x|]; [| by apply wp_ret, HQ].
  pose proof Hc as [Hgd Hrd _ _].
  destruct (fid_live _ _ _ _ _ _ _ Hgd (rd_live _ _ _ _ _ Hrd) (Hp x eq_refl)) as [f Hf].
  destruct (Hg f) as (Hr & Hn & Hu).
  apply (wp_modfid _ f); [done |]. apply HQ; [| done |].
  - apply (cur_modfid None None _ _ _ _ _ f); auto.
  - intros q. apply pooled_set; [done |]. intros y f' Hy. cbn. destruct (decide (x = y)) as [->|].
    + rewrite lookup_insert_eq. eexists; split; [done |]. congruence.
    + rewrite lookup_insert_ne by done. eauto.
Qed.

Lemma answer_resp u s s' r r' an :
  up_ok u r → answer_ok u s r an → (∀ q, pooled None s q → pooled None s' q) →
  rq_ifcall r' = rq_ifcall r → rq_fid r' = rq_fid r → rq_newfid r' = rq_newfid r →
  rq_afid r' = rq_afid r → rq_ofcall r' = an_ofcall an → rq_d r' = an_d an → resp_ok None s' r' (an_error an).
Proof.
  intros [Ht Hu] (Hsm & _ & _ & Hok) Hp Hi Hf Hn Ha Ho Hd. split; [done |].
  rewrite Hi, Hf, Hn, Ha, Ho, Hd, Ht. destruct u; cbn in *; try done.
  - destruct (an_error an); [| done]. destruct Hok as [? | ?]; [done | auto].
  - destruct (an_error an); [| done]. destruct Hok as [? | ?]; [done | auto].
  - destruct Hok as [Hpay Hok]. do 2 (split; [done |]). split; [auto | done].
  - split; [done |]. auto.
Qed.

Lemma reply_ok s u a r an (Q : () → World → Prop) :
  sound s → (u, a) ∈ s_upcalls s → s_reqs s !! a = Some r → answer_ok u s r an →
  (∀ s', served s s' → (∃ l, s_out s' = s_out s ++ l ∧ sent_for r l) → Q () s') →
  wp (reply a an) s Q.
Proof.
  intros [Hg Hroom _] Hin Ha Han HQ. pose proof Han as (_ & Hf & Hn & _).
  apply wp_bind, wp_modify. set (s1 := s <| s_upcalls := _ |>).
  pose proof Hg as [_ _ _ _ _ Hr]. destruct (RInv_uncall _ _ _ _ _ _ _ _ Hin Hr) as (Hr1 & r' & Hrd & Hup).
  assert (r' = r) as -> by (pose proof (rd_live _ _ _ _ _ Hrd); congruence).
  assert (cur None s1 s1 a r) as Hc1.
  { constructor; try done. destruct Hg. by constructor. }
  apply wp_bind, (wp_getreq_ _ r); [done |]. apply wp_bind.
  apply (wp_assign _ _ _ _ _ _ _ Hc1 Hf); [intros x; apply uses_fid |]. intros s2 Hc2 Hout2 Hp2.
  apply wp_bind, (wp_assign _ _ _ _ _ _ _ Hc2 Hn); [intros x; apply uses_newfid |]. intros s3 Hc3 Hout3 Hp3.
  apply wp_bind, (wp_modreq _ r); [apply Hc3 |].
  set (r4 := r <| rq_ofcall := an_ofcall an |> <| rq_d := an_d an |>).
  eapply (cur_respond_sent ops Hsrv _ _ _ _ r4); [by apply (cur_modreq _ _ _ _ r) | |].
  - apply (answer_resp u s _ r); try done. intros q Hq. exact (Hp3 _ (Hp2 _ Hq)).
  - intros s4 [] (l & Hl & Hs). apply HQ; [| exists l; split; [| done]].
    + constructor; try done.
    + rewrite Hl. cbn. by rewrite Hout3, Hout2.
Qed.

(** *** The states of a server *)

(** The server reading [i], the messages [l] having been handled: the loop takes a
    message, or the program answers a request it was handed. *)
Inductive reach (i : IN) (tree : T) : list (list Z) → World → Prop :=
  | reach_start s : srv_start i tree = Ok s → reach i tree [] s
  | reach_turn l s m a s1 s2 :
      reach i tree l s → getreq read s = Ok (Some a, s1) → input s = m ++ input s1 →
      dispatch ops a s1 = Ok ((), s2) → reach i tree (l ++ [m]) s2
  | reach_reply l s u a r an s1 :
      reach i tree l s → (u, a) ∈ s_upcalls s → s_reqs s !! a = Some r → answer_ok u s r an →
      reply a an s = Ok ((), s1) → reach i tree l s1.

Lemma start_sound i tree s :
  bytes_ok (StatProps.pending i) → srv_start i tree = Ok s →
  sound s ∧ s_out s = [] ∧ ∀ P, tally P s = 0.
Proof.
  intros Hb Hs. injection Hs as <-. split_and!; [| done | done]. set (s := _ <| s_bufs := _ |>).
  assert (intmap_ok (s_fpool s) ∧ abs (s_fpool s) = ∅) as [Hf Hfa] by apply allocmap_ok.
  assert (intmap_ok (s_rpool s) ∧ abs (s_rpool s) = ∅) as [Hr Hra] by apply allocmap_ok.
  constructor; [| done | done]. constructor; try done; rewrite ?Hfa, ?Hra.
  constructor; constructor; try done; [by intros a [] | constructor | by intros u a Hu%elem_of_nil].
Qed.

(** What every reachable state satisfies. *)
Lemma reach_inv i tree l s :
  bytes_ok (StatProps.pending i) → reach i tree l s →
  sound s ∧ ∀ t, answered t s + outstanding t s = tagged t l.
Proof.
  intros Hb. induction 1 as [s Hs | l s m a s1 s2 _ [Hs Ht] Hget Hin Hdis | l s u a r an s1 _ [Hs Ht] Hup Ha Han Hrep].
  - destruct (start_sound i tree s Hb Hs) as (? & Ho & Hta). split; [done |]. intros t.
    unfold answered, outstanding. by rewrite Ho, Hta.
  - destruct (getreq_got _ _ _ Hs Hget) as (m' & Hin' & Hb1 & Ho1 & Hgot).
    assert (m' = m) as -> by (rewrite Hin in Hin'; by apply app_inv_tail in Hin').
    assert (turned s m s2) as [? _ Htag _].
    { assert (¬ astray s1 a) as Hno by (intros Hun; by rewrite (astray_dies _ _ _ _ Hgot Hun) in Hdis).
      pose proof (dispatch_ok s m a s1 (λ _ s2, turned s m s2) Hgot Ho1 Hin Hb1 Hno (λ _ H, H)) as Hw.
      unfold wp in Hw. by rewrite Hdis in Hw. }
    split; [done |]. intros t. rewrite Htag, Ht. unfold tagged. by rewrite list.filter_app, length_app,
      filter_cons; unfold b2z; case_decide; cbn; lia.
  - pose proof (reply_ok s u a r an (λ _ s1, served s s1) Hs Hup Ha Han (λ _ H _, H)) as Hw.
    unfold wp in Hw. rewrite Hrep in Hw. destruct Hw. split; [| intros t; by rewrite sv_tag].
    constructor; [done | done |]. rewrite sv_in. apply Hs.
Qed.

Lemma tag_taken s t : sound s → outstanding t s = 1 → is_Some (abs (s_rpool s) !! t).
Proof.
  intros [[_ _ _ _ _ [[_ _ Htag _ Hopen] _ _ _]] _ _] Hone. unfold outstanding, tally in Hone.
  match type of Hone with total ?g ?m = _ => destruct (total_pos g m) as (a & r & Ha & Hr); [lia |] end.
  cbn in Hr. destruct (rq_responded r) eqn:Hrr; [lia |]. apply b2z_pos in Hr.
  destruct (Htag _ _ Ha) as [He _]. exists a. rewrite <- Hr, He. auto.
Qed.

Lemma outstanding_one s t : sound s → 0 ≤ outstanding t s ≤ 1.
Proof.
  intros [[_ _ _ _ _ [[_ _ Htag _ Hopen] _ _ _]] _ _]. unfold outstanding, tally. split.
  - apply total_nonneg. intros r. destruct (rq_responded r); [done | apply b2z_range].
  - apply total_one; [intros r; destruct (rq_responded r); [done | apply b2z_range] |].
    intros a r b r' Ha Hb Hr Hr'. destruct (rq_responded r) eqn:Hrr; [lia |]. destruct (rq_responded r') eqn:Hrr'; [lia |].
    apply b2z_pos in Hr, Hr'. pose proof (Hopen _ _ Ha Hrr). pose proof (Hopen _ _ Hb Hrr').
    destruct (Htag _ _ Ha), (Htag _ _ Hb). congruence.
Qed.




(** The order of answers.  When the program answers a request, the answer goes out
    first, with the request's tag and its own type or Rerror, and after it only the
    answers to flushes that were waiting for it; the answer to a flush may itself have
    to wait. *)
Theorem reply_order i tree l s u a r an s' :
  bytes_ok (StatProps.pending i) → reach i tree l s → (u, a) ∈ s_upcalls s → s_reqs s !! a = Some r →
  answer_ok u s r an → reply a an s = Ok ((), s') →
  ∃ out, s_out s' = s_out s ++ out ∧ sent_for r out.
Proof.
  intros Hb Hr Hup Ha Han Hrep. destruct (reach_inv i tree l s Hb Hr) as [Hs _].
  pose proof (reply_ok s u a r an (λ _ s1, ∃ out, s_out s1 = s_out s ++ out ∧ sent_for r out) Hs Hup Ha Han
    (λ _ _ H, H)) as Hw. unfold wp in Hw. by rewrite Hrep in Hw.
Qed.

(** C23: termination.  respond and closereq call each other; the nesting is bounded by
    the number of unanswered requests.  With any fuel above it respond returns, or the
    process ends, and the outcome is the one with the fuel the model gives it. *)
Theorem respond_terminates ex h s a r error fuel :
  good ex h None s → roomy s → ready h (s_reqs s) (s_upcalls s) a r → resp_ok ex s r error →
  pending s < Z.of_nat fuel →
  respond fuel a error s ≠ Ub ∧ respond fuel a error s = respond_now a error s.
Proof.
  intros Hg Hroom Hrd Hok Hfuel.
  assert (∀ n, pending s < Z.of_nat n → respond n a error s ≠ Ub) as Hn.
  { intros n Hn Hub. pose proof (respond_ok ops Hsrv n ex h s a r error (λ _ _, True) Hg Hrd Hok Hroom Hn) as Hw.
    unfold wp in Hw. rewrite Hub in Hw. by apply Hw. }
  assert (pending s < Z.of_nat (fuel_for s)) as Hf by (pose proof (pending_size s); unfold fuel_for; lia).
  split; [auto |]. unfold respond_now. destruct (decide (fuel ≤ fuel_for s)%nat) as [Hle | Hle].
  - destruct (proj1 (more_fuel _ _ Hle) a error s) as [Hub | ->]; [by destruct (Hn fuel) | done].
  - destruct (proj1 (more_fuel (fuel_for s) fuel ltac:(lia)) a error s) as [Hub | ->];
      [by destruct (Hn _ Hf) | done].
Qed.


(** Messages that are not requests.  A message of one of the answer types makes the
    server abort: it is neither answered nor ignored. *)
Theorem not_a_request i tree l s a s1 m f n t :
  bytes_ok (StatProps.pending i) → reach i tree l s → getreq read s = Ok (Some a, s1) →
  input s = m ++ input s1 → convM2S m fcall0 = Ok (n, f) → mtype_of (f_type f) = Some t → is_T t = false →
  dispatch ops a s1 = Err.
Proof.
  intros Hb Hr Hget Hin Hdec Ht HT. destruct (reach_inv i tree l s Hb Hr) as [Hs _].
  destruct (getreq_got _ _ _ Hs Hget) as (m' & Hin' & _ & _ & Hgot).
  assert (m' = m) as -> by (rewrite Hin in Hin'; by apply app_inv_tail in Hin').
  apply wp_False. destruct Hgot as [f' ty r Hreq Hst Hf He _ _ | f' ty s' Hreq Hg _ Ha -> _ _ _ _ _];
    (assert (f' = f) as -> by (destruct (rr_dec _ _ _ Hreq) as [? Hd]; congruence)).
  - pose proof (rd_live _ _ _ _ _ (c_rdy _ _ _ _ _ (st_cur _ _ _ _ _ Hst))) as Ha.
    apply wp_bind, (wp_getreq_ _ _ _ _ Ha). rewrite He, Hf, Ht.
    destruct t; try done; (apply (respond_dies _ _ r); [done | by rewrite Hf, Ht]).
  - apply wp_bind. eapply wp_getreq_; [apply lookup_insert_eq |].
    eapply respond_dies; [apply lookup_insert_eq |]. cbn. by rewrite Ht.
Qed.

(** rversion of an [ofcall] without an [msize] leaves no room for any answer. *)
Lemma version_dies s a r :
  sound s → may_answer s a r → mtype_of (f_type (rq_ifcall r)) = Some Tversion →
  f_msize (rq_ofcall r) = 0 → small (f_version (rq_ofcall r)) → respond_now a None s = Err.
Proof.
  intros [[] Hroom _] Hrd Ht Hms Hsm. apply wp_False. pose proof (rd_live _ _ _ _ _ Hrd) as Ha.
  apply (wp_fuel a None (2 * size (s_reqs s) + 3)); [unfold fuel_for; lia |]. rewrite respond_S.
  apply wp_bind, (wp_getreq_ _ _ _ _ Ha). apply wp_bind, wp_assert. intros _. apply wp_bind, wp_modify.
  set (r1 := r <| rq_error := None |>). set (s1 := s <| s_reqs := _ |>).
  assert (s_reqs s1 !! a = Some r1) as Ha1 by apply lookup_insert_eq.
  apply wp_bind. apply wp_bind, (wp_getreq_ _ _ _ _ Ha1).
  change (rq_ifcall r1) with (rq_ifcall r). rewrite Ht. apply wp_bind.
  apply wp_bind, wp_assert. intros _. apply wp_bind, (wp_getreq_ _ _ _ _ Ha1).
  apply wp_bind, wp_get. change (f_msize (rq_ofcall r1)) with (f_msize (rq_ofcall r)). rewrite Hms.
  rewrite decide_False
    by (intros [_ H0]; unfold roomy, BIT32SZ, BIT8SZ, BIT16SZ in Hroom; change (s_msize s = 0) in H0; lia).
  rewrite decide_False by (by vm_compute). apply wp_modify, wp_ret.
  apply wp_bind, (wp_modreq _ r1); [exact Ha1 |]. set (r2 := r1 <| rq_ofcall := _ |>).
  apply wp_bind, (wp_getreq_ _ r2); [apply lookup_insert_eq |]. apply wp_bind, wp_get.
  apply wp_bind. eapply wp_nonnil; [done |]. apply wp_bind.
  pose proof (convS2M_answer (final r1) 0) as Hmsg. unfold wp at 1.
  change (convS2M (rq_ofcall r2) _) with (convS2M (final r1) 0).
  assert (sendable (final r1)) as Hsend by (eapply sendable_final; [done | exact Ht | exact Hsm]).
  specialize (Hmsg Hsend). destruct (convS2M _ _) as [msg | |]; [| done | done].
  destruct Hmsg as (_ & _ & Hlen). unfold BIT32SZ, BIT8SZ, BIT16SZ in Hlen. lia.
Qed.

(** Versions.  A Tversion that does not ask for a 9P version makes the server end:
    it answers "unknown" with an msize of 0, and resizes its buffers to that first. *)
Theorem unknown_version i tree l s a s1 m f n v c :
  bytes_ok (StatProps.pending i) → reach i tree l s → getreq read s = Ok (Some a, s1) →
  input s = m ++ input s1 → convM2S m fcall0 = Ok (n, f) → mtype_of (f_type f) = Some Tversion →
  f_version f = Some v → strncmp (v ++ [0]) (str "9P" ++ [0]) 2 = Ok c → c ≠ 0 →
  dispatch ops a s1 = Err.
Proof.
  intros Hb Hr Hget Hin Hdec Ht Hv Hcmp Hc. destruct (reach_inv i tree l s Hb Hr) as [Hs _].
  destruct (getreq_got _ _ _ Hs Hget) as (m' & Hin' & Hb1 & _ & Hgot).
  assert (m' = m) as -> by (rewrite Hin in Hin'; by apply app_inv_tail in Hin').
  apply wp_False. destruct Hgot as [f' ty r Hreq Hst Hf He _ _ | f' ty s' Hreq Hg _ Ha -> _ _ _ _ _];
    (assert (f' = f) as -> by (destruct (rr_dec _ _ _ Hreq) as [? Hd]; congruence)).
  - pose proof (st_cur _ _ _ _ _ Hst) as [Hg1 Hrd _ Hroom1]. pose proof (rd_live _ _ _ _ _ Hrd) as Ha.
    apply wp_bind, (wp_getreq_ _ _ _ _ Ha). rewrite He, Hf, Ht.
    apply wp_bind, (wp_getreq_ _ _ _ _ Ha). apply wp_bind, (wp_nonnil _ v); [by rewrite Hf |].
    apply wp_bind. unfold wp at 1. rewrite Hcmp. cbn [mbind res_bind]. rewrite decide_True by done.
    apply wp_bind, (wp_modreq _ _ _ _ _ Ha). set (r1 := r <| rq_ofcall := _ |>).
    destruct (good_core None ∅ None s1 a r r1 Hrd) as [Hg2 Hrd2]; [done.. |].
    unfold wp. erewrite version_dies; [done | | exact Hrd2 | | |]; [by constructor | by cbn; rewrite Hf | | ].
    + cbn. by rewrite (st_out _ _ _ _ _ Hst).
    + by vm_compute.
  - unfold wp. rewrite (dup_dies _ _ _ Tversion); [done | done | by left].
Qed.

(** [n] turns of the loop. *)
Fixpoint turns (n : nat) (l : list (list Z)) (s : World) : option (list (list Z) * World) :=
  match n with
  | O => Some (l, s)
  | S n =>
      match getreq read s with
      | Ok (Some a, s1) =>
          match dispatch ops a s1 with
          | Ok (_, s2) => turns n (l ++ [takeZ (len (input s) - len (input s1)) (input s)]) s2
          | _ => None
          end
      | _ => None
      end
  end.

Lemma turns_reach i tree n l s l' s' :
  bytes_ok (StatProps.pending i) → reach i tree l s → turns n l s = Some (l', s') → reach i tree l' s'.
Proof.
  intros Hb. revert l s. induction n as [|n IH]; intros l s Hr Ht; cbn [turns] in Ht; [by injection Ht as <- <- |].
  destruct (getreq read s) as [[[a|] s1] | |] eqn:Hget; try done.
  destruct (dispatch ops a s1) as [[[] s2] | |] eqn:Hdis; try done.
  destruct (getreq_got s a s1 (proj1 (reach_inv i tree l s Hb Hr)) Hget) as (m & Hin & _).
  apply (IH _ s2 (reach_turn _ _ _ _ m _ _ _ Hr Hget Hin Hdis)).
  rewrite Hin, length_app in Ht. by rewrite takeZ_app in Ht by lia.
Qed.
End Run.

(** ** Two small servers

    One has no file tree, and its program answers reads; the other serves a tree that is
    an empty directory. *)
Definition root_dir : Dir := dir0 <| d_qid := mkQid 0 0 QTDIR |>.

#[local] Instance root_only : FileTree () () () := {|
  tree_root := λ _, ();
  file_dir := λ _ _, root_dir;
  file_parent := λ _ _, Some ();
  file_incref := λ _ t, t;
  closefile := λ _ t, t;
  walkfile := λ _ _ t, Ok (None, t);
  hasperm := λ _ _ _ _, true;
  opendirfile := λ _ t, (Some (), t);
  readdirfile := λ _ _ t, ([], t);
  closedirfile := λ _ t, t;
  removefile := λ _ t, (None, t);
  file_incvers := λ _ t, t
|}.

Local Abbreviation Ops := (SrvOps () ()).
Local Abbreviation Server := (St () () () (list (list Z))).

Definition read_ops : Ops :=
  mkSrvOps _ _ (λ u, bool_decide (u = Uread)) false None None (str "no authentication") (λ _, str "bad write").
Definition tree_ops : Ops :=
  mkSrvOps _ _ (λ u, false) true None None (str "no authentication") (λ _, str "bad write").

Lemma read_ops_ok : server_ok read_ops.
Proof. by constructor; try done; intros; try (by vm_compute); cbn; lia. Qed.
Lemma tree_ops_ok : server_ok tree_ops.
Proof. by constructor; try done; intros; try (by vm_compute); cbn; lia. Qed.

Definition message (f : Fcall) : list Z := match convS2M f 8192 with Ok m => m | _ => [] end.
Definition a_version (v : string) := message (fcall0 <| f_type := 100 |> <| f_tag := NOTAG |>
  <| f_msize := 8192 |> <| f_version := Some (str v) |>).
Definition an_attach t fid := message (fcall0 <| f_type := 104 |> <| f_tag := t |> <| f_fid := fid |>
  <| f_afid := NOFID |> <| f_uname := Some (str "glenda") |> <| f_aname := Some [] |>).
Definition an_open t fid := message (fcall0 <| f_type := 112 |> <| f_tag := t |> <| f_fid := fid |>).
Definition a_read t fid := message (fcall0 <| f_type := 116 |> <| f_tag := t |> <| f_fid := fid |> <| f_count := 10 |>).
Definition a_flush t old := message (fcall0 <| f_type := 108 |> <| f_tag := t |> <| f_oldtag := old |>).
Definition an_rclunk t := message (fcall0 <| f_type := 121 |> <| f_tag := t |>).

(** A session: the read is handed to the program, and the flush waits for it. *)
Definition session : list (list Z) :=
  [a_version "9P2000"; an_attach 1 5; an_open 2 5; a_read 3 5; a_flush 4 3].

(** Where a server is after [n] messages, and the request it then takes. *)
Definition after (ops : Ops) (i : list (list Z)) (n : nat) : list (list Z) * Server :=
  match srv_start i () with
  | Ok s => default ([], s) (turns ops chunk_read n [] s)
  | _ => ([], srv_init [] ())
  end.

Definition taken (ops : Ops) i n : addr * Server :=
  match getreq chunk_read (after ops i n).2 with
  | Ok (Some a, s1) => (a, s1)
  | _ => (1%positive, (after ops i n).2)
  end.

Lemma after_reach ops i n l s :
  server_ok ops → op_set ops Uauth = false → bytes_ok (concat i) →
  match srv_start i () with Ok s0 => turns ops chunk_read n [] s0 = Some (l, s) | _ => False end →
  reach ops chunk_read i () l s.
Proof.
  intros Hok Hauth Hb. destruct (srv_start i ()) as [s0 | |] eqn:Hs; [| done..]. intros Ht.
  by eapply (turns_reach ops chunk_read Hok Hauth); [exact Hb | apply reach_start, Hs | exact Ht].
Qed.

(** The states of these runs, evaluated. *)
Definition heard : list (list Z) := Eval vm_compute in (after read_ops session 5).1.
Definition reading : Server := Eval vm_compute in (after read_ops session 5).2.

(** A client reads a directory it has not opened. *)
Definition rude : list (list Z) := [a_version "9P2000"; an_attach 1 5; a_read 3 5].
Definition rude_heard : list (list Z) := Eval vm_compute in (after tree_ops rude 2).1.
Definition rude_state : Server := Eval vm_compute in (after tree_ops rude 2).2.
Definition rude_taken : addr * Server := Eval vm_compute in (taken tree_ops rude 2).

(** The session, and one more message: a tag in use, an answer, an unknown version. *)
Definition then_state (m : list Z) : Server := reading <| s_in := [[]; m] |>.
Definition dup_taken : addr * Server := Eval vm_compute in (taken read_ops (session ++ [an_open 3 5]) 5).
Definition answer_taken : addr * Server := Eval vm_compute in (taken read_ops (session ++ [an_rclunk 9]) 5).
Definition version_taken : addr * Server := Eval vm_compute in (taken read_ops (session ++ [a_version "8P"]) 5).

Lemma session_reach : reach read_ops chunk_read session () heard reading.
Proof. apply (after_reach _ _ 5); [exact read_ops_ok | reflexivity | by_decide | vm_compute; reflexivity]. Qed.

Lemma rude_reach : reach tree_ops chunk_read rude () rude_heard rude_state.
Proof. apply (after_reach _ _ 2); [exact tree_ops_ok | reflexivity | by_decide | vm_compute; reflexivity]. Qed.


Lemma then_reach m l :
  bytes_ok (concat (session ++ [m])) →
  match srv_start (session ++ [m]) () with
  | Ok s0 => turns read_ops chunk_read 5 [] s0 = Some (l, then_state m)
  | _ => False
  end → reach read_ops chunk_read (session ++ [m]) () l (then_state m).
Proof. intros Hb. by apply after_reach; [apply read_ops_ok | |]. Qed.

(** What the program answers to the read. *)
Definition read_answer : Answer () () :=
  mkAnswer (fcall0 <| f_count := 2 |> <| f_data := [104; 105] |>) dir0 id id None.

Lemma read_answer_ok (s : Server) r : answer_ok Uread s r read_answer.
Proof. split; [by vm_compute |]. split; [by intros f |]. split; [by intros f | done]. Qed.

Definition the_read : Req := Eval vm_compute in default req0 (s_reqs reading !! 5%positive).
Definition read_replied : Server :=
  Eval vm_compute in match reply 5%positive read_answer reading with Ok (_, s) => s | _ => reading end.



Lemma reply_order_witness : ∃ out, s_out read_replied = s_out reading ++ out ∧ sent_for the_read out.
Proof.
  apply (reply_order read_ops chunk_read read_ops_ok eq_refl session () heard reading Uread 5%positive
    the_read read_answer read_replied).
  - by_decide.
  - exact session_reach.
  - left.
  - vm_compute. reflexivity.
  - apply read_answer_ok.
  - vm_compute. reflexivity.
Defined.

(** The program has called respond for the read, and the flush is waiting. *)
Definition answering : Server := reading <| s_upcalls := [] |>.

Lemma answering_good :
  good None ∅ None answering ∧ roomy answering ∧
  ready ∅ (s_reqs answering) (s_upcalls answering) 5%positive the_read.
Proof.
  destruct (reach_inv read_ops chunk_read read_ops_ok eq_refl session () heard reading)
    as [[Hg Hroom _] _]; [by_decide | exact session_reach |].
  pose proof Hg as [_ _ _ _ _ Hr]. assert ((Uread, 5%positive) ∈ s_upcalls reading) as Hin by left.
  destruct (RInv_uncall _ _ _ _ _ _ Uread 5%positive Hin Hr) as (Hr' & r & Hrd & _).
  pose proof (rd_live _ _ _ _ _ Hrd) as Hl. change (Some the_read = Some r) in Hl. injection Hl as <-.
  split; [| split; [exact Hroom | exact Hrd]].
  destruct Hg as [? ? ? ? ? _]. constructor; [assumption.. | exact Hr'].
Qed.

Lemma respond_terminates_witness :
  pending answering = 2 ∧
  respond 3 5%positive (Some (str "i/o error")) answering ≠ Ub ∧
  respond 3 5%positive (Some (str "i/o error")) answering =
    respond_now 5%positive (Some (str "i/o error")) answering.
Proof.
  split; [vm_compute; reflexivity |]. destruct answering_good as (Hg & Hroom & Hrd).
  apply (respond_terminates read_ops read_ops_ok None ∅ answering 5%positive the_read);
    [exact Hg | exact Hroom | exact Hrd | | vm_compute; reflexivity].
  split; [by apply small_str |]. split; [reflexivity | done].
Defined.

Definition dup_open : Fcall := Eval vm_compute in match convM2S (an_open 3 5) fcall0 with Ok (_, f) => f | _ => fcall0 end.
Definition dup_refused : Server :=
  Eval vm_compute in match dispatch read_ops dup_taken.1 dup_taken.2 with Ok (_, s) => s | _ => reading end.


Lemma not_a_request_witness : dispatch read_ops answer_taken.1 answer_taken.2 = Err.
Proof.
  apply (not_a_request read_ops chunk_read read_ops_ok eq_refl (session ++ [an_rclunk 9]) () heard
    (then_state (an_rclunk 9)) _ _ (an_rclunk 9) (fcall0 <| f_type := 121 |> <| f_tag := 9 |>) 7 Rclunk).
  - by_decide.
  - apply then_reach; [by_decide | vm_compute; reflexivity].
  - vm_compute. reflexivity.
  - vm_compute. reflexivity.
  - vm_compute. reflexivity.
  - reflexivity.
  - reflexivity.
Defined.

Lemma unknown_version_witness : dispatch read_ops version_taken.1 version_taken.2 = Err.
Proof.
  apply (unknown_version read_ops chunk_read read_ops_ok eq_refl (session ++ [a_version "8P"]) () heard
    (then_state (a_version "8P")) _ _ (a_version "8P")
    (fcall0 <| f_type := 100 |> <| f_tag := NOTAG |> <| f_msize := 8192 |> <| f_version := Some (str "8P") |>)
    15 (str "8P") (-1)).
  - by_decide.
  - apply then_reach; [by_decide | vm_compute; reflexivity].
  - vm_compute. reflexivity.
  - vm_compute. reflexivity.
  - vm_compute. reflexivity.
  - reflexivity.
  - reflexivity.
  - vm_compute. reflexivity.
  - done.
Defined.
