(* ===== verification/Qio.v ===== *)
(** * Qio: blocks and queues of the kernel's I/O

    sys/src/9/port/qio.c, and block allocation from sys/src/9/port/allocb.c.

    A block is its buffer, from [base] to [lim], with [rp] and [wp] as offsets from
    [base]; a chain linked by [next] is the list of its blocks, each referenced once.
    A queue is the chain from [bfirst]; [blast], which every routine sets to the last
    block of a non-empty chain, is the end of the list.  Reading or writing outside a
    buffer is [Ub]; panic is [Err].  Routines that hand blocks to freeb drop them.

    Each routine runs under the queue's ilock, so is one step.  Where it would sleep,
    the outcome says so and carries the state in which it sleeps.  A routine that
    calls wakeup returns that as a flag. *)

From S2P Require Import Prelude.

Record Block : Type := mkBlock { b_buf : list Z; b_rp : Z; b_wp : Z }.

#[export] Instance Block_rebuild : Rebuild Block := λ b, mkBlock (b_buf b) (b_rp b) (b_wp b).

Definition BLEN (b : Block) : Z := b_wp b - b_rp b.
Definition BALLOC (b : Block) : Z := len (b_buf b).

(** The bytes from [rp], [n] of them. *)
Definition bget (b : Block) (n : Z) : res (list Z) :=
  if decide (0 ≤ n ∧ 0 ≤ b_rp b ∧ b_rp b + n ≤ BALLOC b)
  then Ok (takeZ n (dropZ (b_rp b) (b_buf b))) else Ub.

(** [memmove(b->wp, l, n); b->wp += n;] *)
Definition bput (b : Block) (l : list Z) : res Block :=
  if decide (0 ≤ b_wp b ∧ b_wp b + len l ≤ BALLOC b)
  then Ok (mkBlock (takeZ (b_wp b) (b_buf b) ++ l ++ dropZ (b_wp b + len l) (b_buf b))
             (b_rp b) (b_wp b + len l))
  else Ub.

(** ** Queues *)

(** Bits of [state]. *)
Definition Qstarve : Z := 0.
Definition Qmsg : Z := 1.
Definition Qclosed : Z := 2.
Definition Qflow : Z := 3.
Definition Qcoalesce : Z := 4.
Definition Qkick : Z := 5.

Definition Maxatomic : Z := 64 * 1024.

Record Queue : Type := mkQueue {
  q_blocks : list Block;
  q_len : Z;
  q_dlen : Z;
  q_limit : Z;
  q_inilim : Z;
  q_state : Z;
  q_noblock : bool;
  q_bypass : bool;        (* bypass != nil *)
  q_eof : Z;
  q_err : list Z
}.

#[export] Instance Queue_rebuild : Rebuild Queue := λ q,
  mkQueue (q_blocks q) (q_len q) (q_dlen q) (q_limit q) (q_inilim q) (q_state q) (q_noblock q)
    (q_bypass q) (q_eof q) (q_err q).

(** [q->state & bit], [q->state |= bit], [q->state &= ~bit] *)
Definition has (q : Queue) (bit : Z) : bool := Z.testbit (q_state q) bit.
Definition setst (q : Queue) (bit : Z) : Queue := q <| q_state := Z.setbit (q_state q) bit |>.
Definition clrst (q : Queue) (bit : Z) : Queue := q <| q_state := Z.clearbit (q_state q) bit |>.

Fixpoint blocklen (bs : list Block) : Z :=
  match bs with [] => 0 | b :: bs => BLEN b + blocklen bs end.

Fixpoint blockalloclen (bs : list Block) : Z :=
  match bs with [] => 0 | b :: bs => BALLOC b + blockalloclen bs end.

Section Qio.
(** malloc decides where a block's data starts: [headroom n] bytes are left before
    it in a block for [n] bytes, whose data area is [n] rounded up to [blockalign]. *)
Variables (headroom : Z → Z) (blockalign : Z).

Definition ALIGNUP (n : Z) : Z := (n + (blockalign - 1)) `div` blockalign * blockalign.

(** mem2block on fresh memory; allocb panics rather than return nil. *)
Definition allocb (size : Z) : res Block :=
  if decide (size < 0 ∨ headroom size < 0) then Err else
  Ok (mkBlock (replicate (Z.to_nat (headroom size + ALIGNUP size)) 0)
        (headroom size) (headroom size)).

(** ** Blocks *)

(** padblock on the chain [bp :: next]. *)
Definition padblock (bp : Block) (next : list Block) (size : Z) : res (list Block) :=
  if decide (0 ≤ size) then
    if decide (size ≤ b_rp bp) then Ok (bp <| b_rp := b_rp bp - size |> :: next) else
    if decide (next ≠ []) then Err else
    let n := BLEN bp in
    nbp ← allocb (size + n);
    let nbp := mkBlock (b_buf nbp) (b_rp nbp + size) (b_rp nbp + size) in
    d ← bget bp n;
    nbp ← bput nbp d;
    Ok [nbp <| b_rp := b_rp nbp - size |>]
  else
    let size := - size in
    if decide (next ≠ []) then Err else
    if decide (size ≤ BALLOC bp - b_wp bp) then Ok [bp] else
    let n := BLEN bp in
    nbp ← allocb (size + n);
    d ← bget bp n;
    nbp ← bput nbp d;
    Ok [nbp].

(** [for(f = bp; f; f = f->next) ...], copying each block into [nb]. *)
Fixpoint copy_all (nb : Block) (bs : list Block) : res Block :=
  match bs with
  | [] => Ok nb
  | f :: bs => d ← bget f (BLEN f); nb ← bput nb d; copy_all nb bs
  end.

Definition concatblock (bs : list Block) : res (list Block) :=
  match bs with
  | [] => Ub
  | [b] => Ok [b]
  | _ => nb ← allocb (blocklen bs); nb ← copy_all nb bs; Ok [nb]
  end.

(** [while(nbp = bp->next)] *)
Fixpoint pullup_loop (bp : Block) (rest : list Block) (n : Z) : res (list Block) :=
  match rest with
  | [] => Ok []
  | nbp :: rest =>
      let i := BLEN nbp in
      if decide (i > n) then
        d ← bget nbp n;
        bp ← bput bp d;
        Ok (bp :: nbp <| b_rp := b_rp nbp + n |> :: rest)
      else
        let i := Z.max 0 i in
        d ← bget nbp i;
        bp ← bput bp d;
        if decide (n - i = 0) then Ok (bp :: rest) else pullup_loop bp rest (n - i)
  end.

(** The new chain; nil (and everything freed) when it holds fewer than [n] bytes. *)
Definition pullupblock (bs : list Block) (n : Z) : res (list Block) :=
  match bs with
  | [] => Ub
  | bp :: next =>
      if decide (n ≤ BLEN bp) then Ok bs else
      if decide (BALLOC bp - b_rp bp < n) then
        nbp ← allocb n; pullup_loop nbp bs (n - BLEN nbp)
      else pullup_loop bp next (n - BLEN bp)
  end.

Definition pullupqueue (q : Queue) (n : Z) : res Queue :=
  match q_blocks q with
  | [] => Ub
  | b :: _ =>
      if decide (n ≤ BLEN b) then Ok q else
      bs ← pullupblock (q_blocks q) n; Ok (q <| q_blocks := bs |>)
  end.

(** [while((l = BLEN(bp)) < offset)]: [l] is a ulong, so is the comparison. *)
Fixpoint trim_front (bs : list Block) (offset : Z) : res (list Block * Z) :=
  match bs with
  | [] => Ub
  | b :: bs' => if decide (BLEN b < offset) then trim_front bs' (offset - BLEN b)
                else Ok (bs, offset)
  end.

Fixpoint trim_back (bs : list Block) (len : Z) : res (list Block) :=
  match bs with
  | [] => Ub
  | b :: bs =>
      if decide (BLEN b < len) then r ← trim_back bs (len - BLEN b); Ok (b :: r)
      else Ok [b <| b_wp := b_wp b - (BLEN b - len) |>]
  end.

Definition trimblock (bs : list Block) (offset len : Z) : res (list Block) :=
  if decide (offset < 0 ∨ len < 0) then Ok [] else
  if decide (blocklen bs < offset + len) then Ok [] else
  '(bs, offset) ← trim_front bs offset;
  match bs with
  | [] => Ub
  | b :: bs => trim_back (b <| b_rp := b_rp b + offset |> :: bs) len
  end.

(** [for(; count > 0 && bp != 0; bp = bp->next)]: the block and the count left. *)
Fixpoint copy_some (nbp : Block) (bs : list Block) (count : Z) : res (Block * Z) :=
  match bs with
  | [] => Ok (nbp, count)
  | b :: bs =>
      if decide (count > 0) then
        let l := if decide (BLEN b > count) then count else BLEN b in
        d ← bget b l; nbp ← bput nbp d; copy_some nbp bs (count - l)
      else Ok (nbp, count)
  end.

Definition copyblock (bs : list Block) (count : Z) : res Block :=
  nbp ← allocb count;
  '(nbp, count) ← copy_some nbp bs count;
  if decide (count > 0) then bput nbp (replicate (Z.to_nat count) 0) else Ok nbp.

Definition adjustblock (bs : list Block) (len : Z) : res (list Block) :=
  match bs with
  | [] => Ub
  | bp :: next =>
      if decide (len < 0) then Ok [] else
      if decide (b_rp bp + len > BALLOC bp) then nbp ← copyblock bs len; Ok [nbp] else
      let n := BLEN bp in
      bp ← (if decide (len > n) then bput bp (replicate (Z.to_nat (len - n)) 0) else Ok bp);
      Ok (bp <| b_wp := b_rp bp + len |> :: next)
  end.

(** pullblock(&bs, count): what is left, and the bytes thrown away. *)
Fixpoint pullblock (bs : list Block) (count bytes : Z) : list Block * Z :=
  match bs with
  | [] => ([], bytes)
  | bp :: next =>
      if decide (count = 0) then (bs, bytes) else
      let n := if decide (count < BLEN bp) then count else BLEN bp in
      let bp := bp <| b_rp := b_rp bp + n |> in
      if decide (BLEN bp = 0) then pullblock next (count - n) (bytes + n)
      else (bp :: next, bytes + n)
  end.

(** [for(l = &bp; *l; ...)]: replace each block much larger than its data. *)
Fixpoint packblock (bs : list Block) : res (list Block) :=
  match bs with
  | [] => Ok []
  | nbp :: next =>
      let n := BLEN nbp in
      b ← (if decide (n ≪ 2 < BALLOC nbp)
           then l ← allocb n; d ← bget nbp n; bput l d else Ok nbp);
      next ← packblock next;
      Ok (b :: next)
  end.

(** bl2mem: the bytes copied, and the first unconsumed block with those after it. *)
Fixpoint bl2mem (bs : list Block) (n : Z) : res (list Z * list Block) :=
  match bs with
  | [] => Ok ([], [])
  | b :: bs =>
      let i := BLEN b in
      if decide (i > n) then
        d ← bget b n; Ok (d, b <| b_rp := b_rp b + n |> :: bs)
      else
        d ← bget b i;
        '(l, r) ← bl2mem bs (n - i);
        Ok (d ++ l, r)
  end.

(** One turn of [do ... while(len > 0)] in mem2bl; [fuel] is the bytes of [p]. *)
Fixpoint mem2bl_loop (fuel : nat) (p : list Z) : res (list Block) :=
  match fuel with
  | O => Ub
  | S fuel =>
      let n := Z.min (len p) Maxatomic in
      b ← allocb n;
      b ← bput b (takeZ n p);
      if decide (len p - n > 0)
      then bs ← mem2bl_loop fuel (dropZ n p); Ok (b :: bs) else Ok [b]
  end.

Definition mem2bl (p : list Z) : res (list Block) := mem2bl_loop (S (length p)) p.
(** ** Queues *)

(** [if((q->state & Qflow) && q->len < lim)]: let the writer go. *)
Definition unflow (q : Queue) (lim : Z) : Queue * bool :=
  if has q Qflow && bool_decide (q_len q < lim) then (clrst q Qflow, true) else (q, false).

(** [if(q->state & Qstarve)]: wake the reader. *)
Definition unstarve (q : Queue) : Queue * bool :=
  if has q Qstarve then (clrst q Qstarve, true) else (q, false).

(** C's division. *)
Definition half (n : Z) : Z := n `quot` 2.

Definition qremove (q : Queue) : option Block * Queue :=
  match q_blocks q with
  | [] => (None, q)
  | b :: bs =>
      (Some b, q <| q_blocks := bs |> <| q_dlen := q_dlen q - BLEN b |>
                 <| q_len := q_len q - BALLOC b |>)
  end.

Definition qget (q : Queue) : option Block * Queue * bool :=
  match q_blocks q with
  | [] => (None, setst q Qstarve, false)
  | b :: bs =>
      let q := q <| q_blocks := bs |> <| q_len := q_len q - BALLOC b |>
                 <| q_dlen := q_dlen q - BLEN b |> in
      let '(q, w) := unflow q (half (q_limit q)) in (Some b, q, w)
  end.

(** [for(sofar = 0; sofar < len; sofar += n)], along the chain. *)
Fixpoint qdiscard_loop (bs : list Block) (q : Queue) (len sofar : Z) : Queue * Z :=
  if decide (sofar < len) then
    match bs with
    | [] => (q, sofar)
    | b :: bs =>
        let n := BLEN b in
        if decide (n ≤ len - sofar) then
          qdiscard_loop bs (q <| q_blocks := bs |> <| q_len := q_len q - BALLOC b |>
                              <| q_dlen := q_dlen q - BLEN b |>) len (sofar + n)
        else
          let n := len - sofar in
          (q <| q_blocks := b <| b_rp := b_rp b + n |> :: bs |> <| q_dlen := q_dlen q - n |>,
           sofar + n)
    end
  else (q, sofar).

Definition qdiscard (q : Queue) (len : Z) : Z * Queue * bool :=
  let '(q, sofar) := qdiscard_loop (q_blocks q) q len 0 in
  let '(q, w) := unflow q (q_limit q) in (sofar, q, w).

(** The loop past empty blocks: the first block with data, and those passed. *)
Fixpoint qconsume_skip (bs : list Block) (q : Queue) (tofree : list Block) :
    option Block * Queue * list Block :=
  match bs with
  | [] => (None, q, tofree)
  | b :: bs =>
      if decide (BLEN b > 0) then (Some b, q, tofree)
      else qconsume_skip bs (q <| q_blocks := bs |> <| q_len := q_len q - BALLOC b |>)
             (b :: tofree)
  end.

(** The bytes copied ([None] for -1), the queue, the blocks it freed, and wakeup. *)
Definition qconsume (q : Queue) (len : Z) : res (option (list Z) * Queue * list Block * bool) :=
  let '(ob, q, tofree) := qconsume_skip (q_blocks q) q [] in
  match ob with
  | None => Ok (None, setst q Qstarve, [], false)
  | Some b =>
      let n := BLEN b in
      let len := if decide (n < len) then n else len in
      d ← bget b len;
      let b := b <| b_rp := b_rp b + len |> in
      let rest := tail (q_blocks q) in
      let q := q <| q_blocks := b :: rest |> <| q_dlen := q_dlen q - len |> in
      let '(q, tofree) :=
        if has q Qmsg || bool_decide (len = n) then
          (q <| q_blocks := rest |> <| q_len := q_len q - BALLOC b |>
             <| q_dlen := q_dlen q - BLEN b |>, b :: tofree)
        else (q, tofree) in
      let '(q, w) := unflow q (half (q_limit q)) in
      Ok (Some d, q, tofree, w)
  end.

(** Append a chain. *)
Definition qaddlist (q : Queue) (bs : list Block) : Queue :=
  q <| q_blocks := q_blocks q ++ bs |> <| q_len := q_len q + blockalloclen bs |>
    <| q_dlen := q_dlen q + blocklen bs |>.

(** What qpass and qpassnolim do once the chain is accepted. *)
Definition qpass_queue (q : Queue) (bs : list Block) : Z * Queue * bool :=
  let q := qaddlist q bs in
  let q := if decide (half (q_limit q) ≤ q_len q) then setst q Qflow else q in
  let '(q, w) := unstarve q in
  (blockalloclen bs, q, w).

Definition qpass (q : Queue) (bs : list Block) : res (Z * Queue * bool) :=
  match bs with
  | [] => Ub
  | b :: _ =>
      if decide (q_limit q ≤ q_len q) then Ok (-1, q, false) else
      if has q Qclosed then Ok (BALLOC b, q, false) else
      Ok (qpass_queue q bs)
  end.

(** On a closed queue it frees the chain and then looks at its first block. *)
Definition qpassnolim (q : Queue) (bs : list Block) : res (Z * Queue * bool) :=
  match bs with
  | [] => Ub
  | _ => if has q Qclosed then Ub else Ok (qpass_queue q bs)
  end.

(** iallocb gives up ([alloc] is false) when interrupt-level memory is short. *)
Definition qproduce (q : Queue) (alloc : bool) (p : list Z) : res (Z * Queue * bool) :=
  if decide (q_limit q ≤ q_len q) then Ok (-1, setst q Qflow, false) else
  if negb alloc then Ok (0, q, false) else
  b ← allocb (len p);
  b ← bput b p;
  let q := qaddlist q [b] in
  let '(q, w) := unstarve q in
  let q := if decide (q_limit q ≤ q_len q) then setst q Qflow else q in
  Ok (len p, q, w).

(** qcopy's second loop: [l] is what is to be copied from the current block. *)
Fixpoint qcopy_loop (nb : Block) (l : list Z) (bs : list Block) (len sofar : Z) : res Block :=
  if decide (sofar < len) then
    let d := if decide (Z.of_nat (length l) > len - sofar) then takeZ (len - sofar) l else l in
    nb ← bput nb d;
    match bs with
    | [] => Ok nb
    | b :: bs => l ← bget b (BLEN b); qcopy_loop nb l bs len (sofar + Z.of_nat (length d))
    end
  else Ok nb.

(** The first loop: go to [offset]. *)
Fixpoint qcopy_seek (nb : Block) (bs : list Block) (len sofar offset : Z) : res Block :=
  match bs with
  | [] => Ok nb
  | b :: bs =>
      let n := BLEN b in
      if decide (sofar + n > offset) then
        l ← bget (b <| b_rp := b_rp b + (offset - sofar) |>) (n - (offset - sofar));
        qcopy_loop nb l bs len 0
      else qcopy_seek nb bs len (sofar + n) offset
  end.

Definition qcopy (q : Queue) (len offset : Z) : res Block :=
  nb ← allocb len; qcopy_seek nb (q_blocks q) len 0 offset.

(** Ehungup, "i/o on hungup channel", as bytes; the model only compares with it. *)
Variable Ehungup : list Z.

Definition qopen (limit msg : Z) : Queue :=
  setst (mkQueue [] 0 0 limit limit msg false false 0 []) Qstarve.

Definition qbypass : Queue := mkQueue [] 0 0 0 0 0 false true 0 [].

(** 1, 0 and -1, and the sleep for data. *)
Inductive wait : Type := Wdata | Weof | Werr | Wsleep.

Definition qwait (q : Queue) : wait * Queue :=
  match q_blocks q with
  | _ :: _ => (Wdata, q)
  | [] =>
      if has q Qclosed then
        let q := q <| q_eof := q_eof q + 1 |> in
        if decide (q_eof q > 3) then (Werr, q) else
        if decide (q_err q ≠ [] ∧ q_err q ≠ Ehungup) then (Werr, q) else (Weof, q)
      else (Wsleep, setst q Qstarve)
  end.

Definition qputback (q : Queue) (b : Block) : Queue :=
  q <| q_blocks := b :: q_blocks q |> <| q_len := q_len q + BALLOC b |>
    <| q_dlen := q_dlen q + BLEN b |>.

Definition qwakeup_iunlock (q : Queue) : Queue * bool := unflow q (half (q_limit q)).

(** A blocking routine returns, raises [error(q->err)], or sleeps. *)
Inductive outcome (A : Type) : Type := Done (a : A) | Raise (e : list Z) | Sleep (a : A).
Arguments Done {A} a.
Arguments Raise {A} e.
Arguments Sleep {A} a.

(** [None] is the nil returned at end of file. *)
Definition qbread (q : Queue) (len : Z) : res (outcome (option Block) * Queue) :=
  match qwait q with
  | (Weof, q) => Ok (Done None, q)
  | (Werr, q) => Ok (Raise (q_err q), q)
  | (Wsleep, q) => Ok (Sleep None, q)
  | (Wdata, q) =>
      match qremove q with
      | (None, _) => Ub
      | (Some nb, q) =>
          let n := BLEN nb in
          if decide (n > len) then
            q ← (if has q Qmsg then Ok q else
                 let n := n - len in
                 b ← allocb n;
                 d ← bget (nb <| b_rp := b_rp nb + len |>) n;
                 b ← bput b d;
                 Ok (qputback q b));
            let nb := nb <| b_wp := b_rp nb + len |> in
            Ok (Done (Some nb), (qwakeup_iunlock q).1)
          else Ok (Done (Some nb), (qwakeup_iunlock q).1)
      end
  end.

(** The first block plus as many of the following as fit; each turn removes one. *)
Fixpoint coalesce (fuel : nat) (q : Queue) (n m len : Z) : res (list Block * Z * Queue) :=
  match fuel with
  | O => Ub
  | S fuel =>
      match qremove q with
      | (None, _) => Ub
      | (Some b, q) =>
          let n := n + m in
          match q_blocks q with
          | [] => Ok ([b], n, q)
          | b' :: _ =>
              if decide (n + BLEN b' > len) then Ok ([b], n, q) else
              '(bs, n, q) ← coalesce fuel q n (BLEN b') len;
              Ok (b :: bs, n, q)
          end
      end
  end.

(** From the blocks taken, [n] bytes in all, to the user's memory and back; the
    count returned and the bytes copied out. *)
Definition qread_finish (q : Queue) (first : list Block) (n len : Z) :
    res (outcome (Z * list Z) * Queue) :=
  '(d, rest) ← bl2mem first len;
  let '(n, q) :=
    match rest with
    | [] => (n, q)
    | b :: _ => (n - BLEN b, if has q Qmsg then q else qputback q b)
    end in
  Ok (Done (n, d), (qwakeup_iunlock q).1).

(** [again:] is passed once per empty block at the front. *)
Fixpoint qread_loop (fuel : nat) (q : Queue) (len : Z) : res (outcome (Z * list Z) * Queue) :=
  match fuel with
  | O => Ub
  | S fuel =>
      match qwait q with
      | (Weof, q) => Ok (Done (0, []), q)
      | (Werr, q) => Ok (Raise (q_err q), q)
      | (Wsleep, q) => Ok (Sleep (0, []), q)
      | (Wdata, q) =>
          match q_blocks q with
          | [] => Ub
          | b :: _ =>
              if has q Qcoalesce then
                if decide (BLEN b ≤ 0) then qread_loop fuel (qremove q).2 len else
                '(first, n, q) ← coalesce (S (length (q_blocks q))) q 0 (BLEN b) len;
                qread_finish q first n len
              else qread_finish (qremove q).2 [b] (BLEN b) len
          end
      end
  end.

Definition qread (q : Queue) (len : Z) : res (outcome (Z * list Z) * Queue) :=
  qread_loop (S (length (q_blocks q))) q len.

Definition qnotfull (q : Queue) : bool :=
  bool_decide (q_len q < q_limit q) || has q Qclosed.

(** The count; [Sleep] when the block is queued and the writer then waits. *)
Definition qbwrite (q : Queue) (b : Block) : outcome Z * Queue :=
  let n := BLEN b in
  if q_bypass q then (Done n, q) else
  if has q Qclosed then (Raise (q_err q), q) else
  if bool_decide (q_limit q ≤ q_len q) && q_noblock q then (Done n, q) else
  let q := q <| q_blocks := q_blocks q ++ [b] |> <| q_len := q_len q + BALLOC b |>
             <| q_dlen := q_dlen q + n |> in
  let '(q, _) := unstarve q in
  if q_noblock q || qnotfull q then (Done n, q) else (Sleep n, setst q Qflow).

(** qwrite from [sofar] on: [do ... while(sofar < len && !Qmsg)].  When a qbwrite
    sleeps, the bytes before [sofar] are queued and the rest are not. *)
Fixpoint qwrite_loop (fuel : nat) (q : Queue) (p : list Z) (sofar : Z) :
    res (outcome Z * Queue) :=
  match fuel with
  | O => Ub
  | S fuel =>
      let n := Z.min (len p - sofar) Maxatomic in
      b ← allocb n;
      b ← bput b (takeZ n (dropZ sofar p));
      match qbwrite q b with
      | (Raise e, q) => Ok (Raise e, q)
      | (Sleep _, q) => Ok (Sleep (sofar + n), q)
      | (Done _, q) =>
          if decide (sofar + n < len p) then
            if has q Qmsg then Ok (Done (len p), q) else qwrite_loop fuel q p (sofar + n)
          else Ok (Done (len p), q)
      end
  end.

Definition qwrite (q : Queue) (p : list Z) : res (outcome Z * Queue) :=
  qwrite_loop (S (length p)) q p 0.

(** [alloc k] says whether the [k]th iallocb succeeds. *)
Fixpoint qiwrite_loop (fuel : nat) (q : Queue) (alloc : nat → bool) (p : list Z) (sofar : Z) :
    res (Z * Queue) :=
  match fuel with
  | O => Ub
  | S fuel =>
      let n := Z.min (len p - sofar) Maxatomic in
      if negb (alloc fuel) then Ok (sofar, q) else
      b ← allocb n;
      b ← bput b (takeZ n (dropZ sofar p));
      if decide (16 * 1024 ≤ q_dlen q) then Ok (sofar, q) else
      let q := qaddlist q [b] in
      let '(q, _) := unstarve q in
      let sofar := sofar + n in
      if decide (sofar < len p) then
        if has q Qmsg then Ok (sofar, q) else qiwrite_loop fuel q alloc p sofar
      else Ok (sofar, q)
  end.

Definition qiwrite (q : Queue) (alloc : nat → bool) (p : list Z) : res (Z * Queue) :=
  qiwrite_loop (S (length p)) q alloc p 0.

Definition qclose (q : Queue) : Queue :=
  let q := clrst (clrst (setst q Qclosed) Qflow) Qstarve in
  q <| q_err := Ehungup |> <| q_blocks := [] |> <| q_len := 0 |> <| q_dlen := 0 |>
    <| q_noblock := false |>.

(** [msg] is the string given, cut to what fits in [q->err]. *)
Definition qhangup (q : Queue) (msg : list Z) : Queue :=
  let q := setst q Qclosed in
  q <| q_err := if decide (msg = []) then Ehungup else msg |>.

Definition qisclosed (q : Queue) : bool := has q Qclosed.

Definition qreopen (q : Queue) : Queue :=
  let q := setst (clrst q Qclosed) Qstarve in
  q <| q_eof := 0 |> <| q_limit := q_inilim q |>.

Definition qlen (q : Queue) : Z := q_dlen q.
Definition qwindow (q : Queue) : Z :=
  let l := q_limit q - q_len q in if decide (l < 0) then 0 else l.
Definition qcanread (q : Queue) : bool := bool_decide (q_blocks q ≠ []).
Definition qsetlimit (q : Queue) (limit : Z) : Queue := q <| q_limit := limit |>.
Definition qnoblock (q : Queue) (onoff : bool) : Queue := q <| q_noblock := onoff |>.
Definition qflush (q : Queue) : Queue :=
  q <| q_blocks := [] |> <| q_len := 0 |> <| q_dlen := 0 |>.
Definition qfull (q : Queue) : bool := has q Qflow.
End Qio.

Arguments Done {A} a.
Arguments Raise {A} e.
Arguments Sleep {A} a.
