(* ===== verification/QioProps.v ===== *)
(** * QioProps: blocks keep their bytes, queues are byte streams

    The data of a block is what lies between [rp] and [wp]; [contents] is the data of
    a chain.  The chain routines are specified by what they do to the contents, the
    queue routines by the contents and by the invariant [q_ok], that [len] and [dlen]
    count the space and the bytes of the chain. *)

From S2P Require Import Prelude Qio.

Definition block_ok (b : Block) : Prop := 0 ≤ b_rp b ∧ b_rp b ≤ b_wp b ∧ b_wp b ≤ BALLOC b.

Definition data (b : Block) : list Z := takeZ (BLEN b) (dropZ (b_rp b) (b_buf b)).

Definition contents (bs : list Block) : list Z := bs ≫= data.

Definition chain_ok (bs : list Block) : Prop := Forall block_ok bs.

#[export] Instance block_ok_dec b : Decision (block_ok b).
Proof. unfold block_ok. apply _. Defined.
#[export] Instance chain_ok_dec bs : Decision (chain_ok bs).
Proof. unfold chain_ok. apply _. Defined.

(** Split a chain into its blocks. *)
Ltac by_chain :=
  unfold chain_ok in *;
  repeat match goal with
  | |- Forall _ (_ :: _) => apply Forall_cons_iff; split
  | |- Forall _ (_ ++ _) => apply Forall_app; split
  | |- Forall _ [] => apply list.Forall_nil_2
  end; done.

(** ** One block *)

Lemma len_data b : block_ok b → len (data b) = BLEN b.
Proof.
  intros (H1 & H2 & H3). unfold data, BLEN in *. apply len_takeZ.
  rewrite len_dropZ by lia. unfold BALLOC in *. lia.
Qed.

Lemma takeZ_takeZ m n (l : list Z) : takeZ m (takeZ n l) = takeZ (Z.min m n) l.
Proof. unfold takeZ. rewrite take_take. f_equal. lia. Qed.

Lemma dropZ_takeZ m n (l : list Z) : 0 ≤ m → dropZ m (takeZ n l) = takeZ (n - m) (dropZ m l).
Proof.
  intros. unfold takeZ, dropZ. rewrite skipn_firstn_comm. f_equal. lia.
Qed.

Lemma bget_ok b n : block_ok b → 0 ≤ n ≤ BLEN b → bget b n = Ok (takeZ n (data b)).
Proof.
  intros (H1 & H2 & H3) Hn. unfold bget, BLEN in *. rewrite decide_True by lia.
  unfold data, BLEN. rewrite takeZ_takeZ. do 2 f_equal. lia.
Qed.

Lemma bget_all b : block_ok b → bget b (BLEN b) = Ok (data b).
Proof.
  intros Hb. pose proof Hb as (H1 & H2 & H3). rewrite bget_ok by (unfold BLEN in *; auto with lia).
  f_equal. apply takeZ_all. rewrite len_data by done. lia.
Qed.

(** [b] without its first [n] bytes. *)
Lemma skip_ok b n :
  block_ok b → 0 ≤ n ≤ BLEN b →
  let b' := b <| b_rp := b_rp b + n |> in
  block_ok b' ∧ data b' = dropZ n (data b) ∧ BLEN b' = BLEN b - n ∧ BALLOC b' = BALLOC b.
Proof.
  intros (H1 & H2 & H3) Hn b'. unfold block_ok, data, BLEN, BALLOC in *. cbn.
  split_and!; [lia.. | | lia | done].
  rewrite dropZ_takeZ by lia. rewrite dropZ_dropZ by lia. f_equal. lia.
Qed.

(** [b] cut to its first [n] bytes. *)
Lemma cut_ok b n :
  block_ok b → 0 ≤ n ≤ BLEN b →
  let b' := b <| b_wp := b_rp b + n |> in
  block_ok b' ∧ data b' = takeZ n (data b) ∧ BLEN b' = n ∧ BALLOC b' = BALLOC b.
Proof.
  intros (H1 & H2 & H3) Hn b'. unfold block_ok, data, BLEN, BALLOC in *. cbn.
  split_and!; [lia.. | | lia | done]. rewrite takeZ_takeZ. f_equal. lia.
Qed.

(** What [bput] gives when there is room. *)
Record put_of (b : Block) (l : list Z) (b' : Block) : Prop := {
  put_ok : block_ok b';
  put_data : data b' = data b ++ l;
  put_rp : b_rp b' = b_rp b;
  put_wp : b_wp b' = b_wp b + len l;
  put_alloc : BALLOC b' = BALLOC b
}.

Lemma bput_ok b l :
  block_ok b → b_wp b + len l ≤ BALLOC b → ∃ b', bput b l = Ok b' ∧ put_of b l b'.
Proof.
  intros (H1 & H2 & H3) Hl. unfold bput, BALLOC in *. rewrite decide_True by lia.
  eexists; split; [done |].
  assert (len (takeZ (b_wp b) (b_buf b)) = b_wp b) as Ht by (apply len_takeZ; lia).
  assert (Z.of_nat (length (takeZ (b_wp b) (b_buf b) ++ l ++ dropZ (b_wp b + len l) (b_buf b)))
    = len (b_buf b)) as Hlen.
  { rewrite !length_app, !Nat2Z.inj_add, Ht, len_dropZ by lia. lia. }
  split; cbn; [| | done | done | apply Hlen].
  - unfold block_ok, BALLOC. cbn. rewrite Hlen. lia.
  - unfold data, BLEN. cbn. set (buf := b_buf b) in *.
    assert (dropZ (b_rp b) (takeZ (b_wp b) buf ++ l ++ dropZ (b_wp b + len l) buf) =
      takeZ (b_wp b - b_rp b) (dropZ (b_rp b) buf) ++ l ++ dropZ (b_wp b + len l) buf) as ->.
    { unfold dropZ at 1. rewrite drop_app_le by lia.
      change (drop (Z.to_nat (b_rp b))) with (dropZ (b_rp b)). by rewrite dropZ_takeZ by lia. }
    rewrite app_assoc. apply takeZ_app. rewrite length_app, Nat2Z.inj_add, len_takeZ; [lia |].
    rewrite len_dropZ by lia. lia.
Qed.

(** ** Chains *)

Lemma contents_cons b bs : contents (b :: bs) = data b ++ contents bs.
Proof. done. Qed.

Lemma contents_app bs bs' : contents (bs ++ bs') = contents bs ++ contents bs'.
Proof. apply bind_app. Qed.

Lemma len_contents bs : chain_ok bs → len (contents bs) = blocklen bs.
Proof.
  induction 1 as [|b bs Hb _ IH]; [done |]. rewrite contents_cons, length_app, Nat2Z.inj_add.
  cbn [blocklen]. rewrite IH, len_data by done. done.
Qed.

Lemma blocklen_app bs bs' : blocklen (bs ++ bs') = blocklen bs + blocklen bs'.
Proof. induction bs as [|b bs IH]; cbn; [done |]. rewrite IH. lia. Qed.

Lemma blockalloclen_app bs bs' : blockalloclen (bs ++ bs') = blockalloclen bs + blockalloclen bs'.
Proof. induction bs as [|b bs IH]; cbn [blockalloclen app]; [done |]. rewrite IH. lia. Qed.

Lemma blocklen_nonneg bs : chain_ok bs → 0 ≤ blocklen bs.
Proof. intros H. rewrite <- len_contents by done. lia. Qed.

Lemma blen_nonneg b : block_ok b → 0 ≤ BLEN b.
Proof. intros (H1 & H2 & H3). unfold BLEN. lia. Qed.

Section Blocks.
Variables (headroom : Z → Z) (blockalign : Z).
Hypothesis Hhead : ∀ n, 0 ≤ headroom n.
Hypothesis Halign : 0 < blockalign.

Local Abbreviation allocb := (allocb headroom blockalign).

Lemma ALIGNUP_le n : n ≤ ALIGNUP blockalign n.
Proof. unfold ALIGNUP. Z.to_euclidean_division_equations. nia. Qed.

Lemma allocb_ok n :
  0 ≤ n → ∃ b, allocb n = Ok b ∧ block_ok b ∧ data b = [] ∧ BLEN b = 0 ∧
    n ≤ BALLOC b - b_wp b.
Proof.
  intros Hn. pose proof (ALIGNUP_le n). pose proof (Hhead n). unfold Qio.allocb.
  rewrite decide_False by lia. eexists; split; [done |].
  unfold block_ok, data, BLEN, BALLOC. cbn. rewrite length_replicate, Z.sub_diag.
  split_and!; [lia.. | done | done | lia].
Qed.

Lemma copy_all_ok bs nb :
  chain_ok bs → block_ok nb → b_wp nb + blocklen bs ≤ BALLOC nb →
  ∃ nb', copy_all nb bs = Ok nb' ∧ block_ok nb' ∧ data nb' = data nb ++ contents bs.
Proof.
  intros Hbs. revert nb. induction Hbs as [|b bs Hb Hbs IH]; intros nb Hnb Hroom; cbn [copy_all].
  { exists nb. split_and!; [done | done |]. by rewrite app_nil_r. }
  cbn [blocklen] in Hroom. pose proof (blocklen_nonneg bs Hbs).
  rewrite bget_all by done. cbn [mbind res_bind].
  destruct (bput_ok nb (data b)) as (nb1 & -> & [Hok Hd _ Hwp Hal]);
    [done | rewrite len_data by done; lia |].
  cbn [mbind res_bind]. destruct (IH nb1) as (nb' & -> & Hok' & Hd'); [done | |].
  { rewrite Hwp, Hal, len_data by done. lia. }
  exists nb'. split_and!; [done | done |]. by rewrite Hd', Hd, contents_cons, app_assoc.
Qed.

Lemma concatblock_ok bs :
  chain_ok bs → bs ≠ [] →
  ∃ b, concatblock headroom blockalign bs = Ok [b] ∧ block_ok b ∧ data b = contents bs.
Proof.
  intros Hbs Hne. destruct bs as [|b [|b' bs]]; [done | |]; cbn [concatblock].
  { exists b. apply Forall_cons_iff in Hbs as [Hb _]. split_and!; [done | done |].
    rewrite contents_cons. cbn. by rewrite app_nil_r. }
  pose proof (blocklen_nonneg _ Hbs) as Hn.
  destruct (allocb_ok (blocklen (b :: b' :: bs)) Hn) as (nb & -> & Hok & Hd & _ & Hroom).
  cbn [mbind res_bind].
  destruct (copy_all_ok (b :: b' :: bs) nb) as (nb' & -> & Hok' & Hd'); [done | done | lia |].
  exists nb'. split_and!; [done | done |]. by rewrite Hd', Hd.
Qed.

Lemma pullup_loop_ok rest bp n :
  chain_ok rest → block_ok bp → 0 < n → b_wp bp + n ≤ BALLOC bp →
  if decide (blocklen rest < n) then pullup_loop bp rest n = Ok []
  else ∃ b r, pullup_loop bp rest n = Ok (b :: r) ∧ chain_ok (b :: r) ∧
    data b ++ contents r = data bp ++ contents rest ∧ BLEN b = BLEN bp + n.
Proof.
  intros Hrest. revert bp n. induction Hrest as [|nb rest Hnb Hrest IH]; intros bp n Hbp Hn Hroom.
  { cbn. by rewrite decide_True by lia. }
  pose proof (blen_nonneg nb Hnb) as Hi. pose proof (blocklen_nonneg rest Hrest) as Hr.
  cbn [blocklen pullup_loop]. destruct (decide (BLEN nb > n)) as [Hgt|Hle].
  - rewrite decide_False by lia. rewrite bget_ok by (done || lia). cbn [mbind res_bind].
    destruct (bput_ok bp (takeZ n (data nb))) as (b & -> & [Hok Hd Hrp Hwp Hal]);
      [done | rewrite len_takeZ; [lia | rewrite len_data by done; lia] |].
    rewrite len_takeZ in Hwp by (rewrite len_data by done; lia). cbn [mbind res_bind].
    destruct (skip_ok nb n Hnb) as (Hok' & Hd' & _); [lia |]. do 2 eexists. split_and!; [done | | |].
    + by_chain.
    + rewrite contents_cons, Hd, Hd', contents_cons, <- app_assoc. f_equal.
      by rewrite app_assoc, takeZ_dropZ.
    + unfold BLEN in *. lia.
  - rewrite Z.max_r by lia. rewrite bget_all by done. cbn [mbind res_bind].
    destruct (bput_ok bp (data nb)) as (b & -> & [Hok Hd Hrp Hwp Hal]);
      [done | rewrite len_data by done; lia |].
    rewrite len_data in Hwp by done. cbn [mbind res_bind].
    destruct (decide (n - BLEN nb = 0)) as [Hz|Hz].
    + rewrite decide_False by lia. do 2 eexists. split_and!; [done | by_chain | |].
      * by rewrite Hd, contents_cons, app_assoc.
      * unfold BLEN in *. lia.
    + specialize (IH b (n - BLEN nb) Hok ltac:(lia) ltac:(lia)).
      destruct (decide (blocklen rest < n - BLEN nb)).
      { by rewrite decide_True by lia. }
      rewrite decide_False by lia. destruct IH as (b' & r & -> & Hc & Hcont & Hl).
      do 2 eexists. split_and!; [done | done | |].
      * by rewrite Hcont, Hd, contents_cons, app_assoc.
      * rewrite Hl. unfold BLEN in *. lia.
Qed.

Lemma pullupblock_ok bs n :
  chain_ok bs → bs ≠ [] →
  if decide (blocklen bs < n) then pullupblock headroom blockalign bs n = Ok []
  else ∃ b r, pullupblock headroom blockalign bs n = Ok (b :: r) ∧ chain_ok (b :: r) ∧
    contents (b :: r) = contents bs ∧ n ≤ BLEN b.
Proof.
  intros Hbs Hne. destruct bs as [|b bs]; [done |]. cbn [pullupblock].
  pose proof Hbs as [Hb Hrest]%Forall_cons_iff. pose proof (blocklen_nonneg _ Hrest).
  pose proof (blen_nonneg b Hb). destruct (decide (n ≤ BLEN b)).
  { rewrite decide_False by (cbn [blocklen]; lia). do 2 eexists. by split_and!. }
  destruct (decide (BALLOC b - b_rp b < n)).
  - destruct (allocb_ok n) as (nb & -> & Hok & Hd & Hl & Hroom); [lia |]. cbn [mbind res_bind].
    rewrite Hl, Z.sub_0_r.
    pose proof (pullup_loop_ok (b :: bs) nb n Hbs Hok ltac:(lia) ltac:(lia)) as Hp.
    case_decide; [done |]. destruct Hp as (b' & r & -> & Hc & Hcont & Hlen).
    do 2 eexists. split_and!; [done | done | by rewrite contents_cons, Hcont, Hd | lia].
  - pose proof (pullup_loop_ok bs b (n - BLEN b) Hrest Hb ltac:(lia)) as Hp.
    specialize (Hp ltac:(unfold BLEN in *; lia)). cbn [blocklen].
    destruct (decide (blocklen bs < n - BLEN b)); [by rewrite decide_True by lia |].
    rewrite decide_False by lia. destruct Hp as (b' & r & -> & Hc & Hcont & Hlen).
    do 2 eexists. split_and!; [done | done | by rewrite contents_cons, Hcont | lia].
Qed.

Lemma trim_front_ok bs offset :
  chain_ok bs → 0 ≤ offset ≤ blocklen bs → bs ≠ [] →
  ∃ b r o, trim_front bs offset = Ok (b :: r, o) ∧ chain_ok (b :: r) ∧ 0 ≤ o ≤ BLEN b ∧
    dropZ o (data b) ++ contents r = dropZ offset (contents bs).
Proof.
  intros Hbs. revert offset. induction Hbs as [|b bs Hb Hbs IH]; intros offset Ho Hne; [done |].
  cbn [trim_front blocklen] in *. pose proof (blen_nonneg b Hb). pose proof (len_data b Hb) as Hl.
  case_decide as Hlt.
  - destruct (decide (bs = [])) as [->|Hne']; [cbn in Ho; lia |].
    destruct (IH (offset - BLEN b)) as (b' & r & o & -> & Hc & Hr & Hd); [lia | done |].
    do 3 eexists. split_and!; [done | done | lia | lia |]. rewrite Hd, contents_cons.
    unfold dropZ. rewrite drop_app_ge by lia. f_equal. lia.
  - do 3 eexists. split_and!; [done | by_chain | lia | lia |]. rewrite contents_cons.
    unfold dropZ. by rewrite drop_app_le by lia.
Qed.

Lemma trim_back_ok bs n :
  chain_ok bs → 0 ≤ n ≤ blocklen bs → bs ≠ [] →
  ∃ r, trim_back bs n = Ok r ∧ chain_ok r ∧ contents r = takeZ n (contents bs).
Proof.
  intros Hbs. revert n. induction Hbs as [|b bs Hb Hbs IH]; intros n Hn Hne; [done |].
  cbn [trim_back blocklen] in *. pose proof (blen_nonneg b Hb). pose proof (len_data b Hb) as Hl.
  case_decide as Hlt.
  - destruct (decide (bs = [])) as [->|Hne']; [cbn in Hn; lia |].
    destruct (IH (n - BLEN b)) as (r & -> & Hc & Hd); [lia | done |].
    eexists. split_and!; [done | by_chain |]. rewrite !contents_cons, Hd.
    unfold takeZ. rewrite take_app_ge by lia. do 2 f_equal. lia.
  - destruct (cut_ok b n Hb) as (Hok & Hd & _); [lia |].
    replace (b_wp b - (BLEN b - n)) with (b_rp b + n) by (unfold BLEN; lia).
    eexists. split_and!; [done | by_chain |]. rewrite !contents_cons, Hd.
    cbn. rewrite app_nil_r. unfold takeZ. by rewrite take_app_le by lia.
Qed.

Lemma trimblock_ok bs offset n :
  chain_ok bs → bs ≠ [] →
  if decide (0 ≤ offset ∧ 0 ≤ n ∧ offset + n ≤ blocklen bs)
  then ∃ r, trimblock bs offset n = Ok r ∧ chain_ok r ∧
    contents r = takeZ n (dropZ offset (contents bs))
  else trimblock bs offset n = Ok [].
Proof.
  intros Hbs Hne. unfold trimblock. case_decide as Hr.
  - rewrite !decide_False by lia.
    destruct (trim_front_ok bs offset) as (b & r & o & -> & Hc & Ho & Hd); [done | lia | done |].
    cbn [mbind res_bind]. apply Forall_cons_iff in Hc as [Hb Hc].
    destruct (skip_ok b o Hb Ho) as (Hok & Hdb & Hlb & _).
    destruct (trim_back_ok (b <| b_rp := b_rp b + o |> :: r) n) as (r' & -> & Hc' & Hd');
      [by_chain | | done |].
    + split; [lia |]. rewrite <- len_contents by by_chain.
      rewrite contents_cons, Hdb, Hd, len_dropZ by lia. rewrite len_contents by done. lia.
    + exists r'. split_and!; [done | done |]. by rewrite Hd', contents_cons, Hdb, Hd.
  - repeat case_decide; try done; lia.
Qed.

Lemma copy_some_ok bs nb count :
  chain_ok bs → block_ok nb → 0 ≤ count → b_wp nb + count ≤ BALLOC nb →
  ∃ nb' c, copy_some nb bs count = Ok (nb', c) ∧ block_ok nb' ∧ 0 ≤ c ∧
    b_wp nb' + c ≤ BALLOC nb' ∧ data nb' = data nb ++ takeZ count (contents bs) ∧
    c = count - Z.min count (blocklen bs).
Proof.
  intros Hbs. revert nb count.
  induction Hbs as [|b bs Hb Hbs IH]; intros nb count Hnb Hc Hroom; cbn [copy_some].
  { do 2 eexists. split_and!; [done | done | done | done | | cbn; lia].
    unfold takeZ. cbn. by rewrite take_nil, app_nil_r. }
  pose proof (blen_nonneg b Hb). pose proof (len_data b Hb) as Hl.
  pose proof (blocklen_nonneg bs Hbs). cbn [blocklen]. rewrite contents_cons.
  case_decide as Hpos.
  2: { assert (count = 0) as -> by lia. do 2 eexists. split_and!; [done | done | done | done | |].
       - unfold takeZ. cbn. by rewrite app_nil_r.
       - lia. }
  case_decide as Hgt.
  - rewrite bget_ok by (done || lia). cbn [mbind res_bind].
    assert (len (takeZ count (data b)) = count) as Hlt by (apply len_takeZ; lia).
    destruct (bput_ok nb (takeZ count (data b))) as (nb1 & -> & [Hok Hd _ Hwp Hal]); [done | lia |].
    cbn [mbind res_bind]. rewrite Z.sub_diag.
    destruct (IH nb1 0) as (nb' & c & -> & Hok' & Hc' & Hr' & Hd' & ->); [done | lia | lia |].
    do 2 eexists. split_and!; [done | done | lia | lia | | lia].
    rewrite Hd', Hd. unfold takeZ. rewrite take_app_le by lia. cbn. by rewrite app_nil_r.
  - rewrite bget_all by done. cbn [mbind res_bind].
    destruct (bput_ok nb (data b)) as (nb1 & -> & [Hok Hd _ Hwp Hal]); [done | lia |].
    cbn [mbind res_bind].
    destruct (IH nb1 (count - BLEN b)) as (nb' & c & -> & Hok' & Hc' & Hr' & Hd' & ->);
      [done | lia | lia |].
    do 2 eexists. split_and!; [done | done | lia | lia | | lia].
    rewrite Hd', Hd, <- app_assoc. f_equal. unfold takeZ. rewrite take_app_ge by lia. do 2 f_equal. lia.
Qed.

(** Bytes cut to [n], padded with zeros if there are fewer. *)
Definition fit_to (n : Z) (l : list Z) : list Z :=
  takeZ n l ++ replicate (Z.to_nat (n - len l)) 0.

Lemma copyblock_ok bs n :
  chain_ok bs → 0 ≤ n →
  ∃ b, copyblock headroom blockalign bs n = Ok b ∧ block_ok b ∧ data b = fit_to n (contents bs).
Proof.
  intros Hbs Hn. unfold copyblock. pose proof (blocklen_nonneg bs Hbs).
  destruct (allocb_ok n Hn) as (nb & -> & Hok & Hd & _ & Hroom). cbn [mbind res_bind].
  destruct (copy_some_ok bs nb n) as (nb' & c & -> & Hok' & Hc & Hr & Hd' & Hcv);
    [done | done | lia | lia |].
  cbn [mbind res_bind]. unfold fit_to. rewrite len_contents by done.
  case_decide.
  - destruct (bput_ok nb' (replicate (Z.to_nat c) 0)) as (b & -> & [Hokb Hdb _ _ _]);
      [done | rewrite length_replicate; lia |].
    exists b. split_and!; [done | done |]. rewrite Hdb, Hd', Hd. cbn [app]. do 2 f_equal. lia.
  - exists nb'. split_and!; [done | done |]. rewrite Hd', Hd.
    replace (Z.to_nat (n - blocklen bs)) with 0%nat by lia. cbn. by rewrite app_nil_r.
Qed.

Lemma adjustblock_ok b n :
  block_ok b →
  if decide (n < 0) then adjustblock headroom blockalign [b] n = Ok []
  else ∃ b', adjustblock headroom blockalign [b] n = Ok [b'] ∧ block_ok b' ∧
    data b' = fit_to n (data b).
Proof.
  intros Hb. unfold adjustblock. case_decide as Hn; [done |].
  pose proof (len_data b Hb) as Hl. pose proof (blen_nonneg b Hb). pose proof Hb as (H1 & H2 & H3).
  case_decide as Hfit.
  - destruct (copyblock_ok [b] n) as (nb & -> & Hok & Hd); [by_chain | lia |].
    exists nb. split_and!; [done | done |]. rewrite Hd. unfold contents. cbn. by rewrite app_nil_r.
  - case_decide as Hgt.
    + destruct (bput_ok b (replicate (Z.to_nat (n - BLEN b)) 0)) as (b' & -> & [Hok Hd Hrp Hwp Hal]);
        [done | rewrite length_replicate; unfold BLEN in *; lia |].
      cbn [mbind res_bind]. rewrite length_replicate in Hwp.
      destruct (cut_ok b' n Hok) as (Hok' & Hd' & _); [unfold BLEN in *; lia |].
      eexists. split_and!; [done | done |]. rewrite Hd', Hd. unfold fit_to.
      rewrite Hl, (takeZ_all n (data b)) by lia. apply takeZ_all.
      rewrite length_app, length_replicate. lia.
    + cbn [mbind res_bind]. destruct (cut_ok b n Hb) as (Hok' & Hd' & _); [lia |].
      eexists. split_and!; [done | done |]. rewrite Hd'. unfold fit_to. rewrite Hl.
      replace (Z.to_nat (n - BLEN b)) with 0%nat by lia. cbn. by rewrite app_nil_r.
Qed.

(** Front padding makes room for a header before the data; back padding, after. *)
Lemma padblock_ok b next size :
  block_ok b → chain_ok next →
  if decide (0 ≤ size) then
    padblock headroom blockalign b next size = Err ∧ next ≠ [] ∧ b_rp b < size ∨
    ∃ b', padblock headroom blockalign b next size = Ok (b' :: next) ∧ block_ok b' ∧
      BLEN b' = BLEN b + size ∧ dropZ size (data b') = data b
  else
    padblock headroom blockalign b next size = Err ∧ next ≠ [] ∨
    ∃ b', padblock headroom blockalign b next size = Ok [b'] ∧ block_ok b' ∧
      data b' = data b ∧ - size ≤ BALLOC b' - b_wp b'.
Proof.
  intros Hb Hnext. unfold padblock. pose proof (len_data b Hb) as Hl. pose proof (blen_nonneg b Hb).
  pose proof Hb as (H1 & H2 & H3). case_decide as Hs.
  - case_decide as Hrp.
    { right. eexists. split_and!; [done | | |]; unfold block_ok, data, BLEN, BALLOC in *; cbn;
        [lia.. |].
      rewrite dropZ_takeZ, dropZ_dropZ by lia. f_equal; [lia |]. f_equal. lia. }
    case_decide as Hnx; [left; split_and!; [done | done | lia] |]. right.
    subst next.
    destruct (allocb_ok (size + BLEN b)) as (nb & -> & Hok & Hd & Hz & Hroom); [lia |].
    cbn [mbind res_bind]. rewrite bget_all by done. cbn [mbind res_bind].
    pose proof Hok as (H4 & H5 & H6). unfold BLEN in Hz, Hroom.
    destruct (bput_ok (mkBlock (b_buf nb) (b_rp nb + size) (b_rp nb + size)) (data b))
      as (b' & -> & [Hok' Hd' Hrp' Hwp' Hal']).
    { unfold block_ok, BALLOC in *. cbn. unfold BLEN in *. lia. }
    { unfold BALLOC in *. cbn. rewrite Hl. unfold BLEN. lia. }
    cbn in Hrp', Hwp'. cbn [mbind res_bind]. eexists. split_and!; [done | | |].
    + unfold block_ok, BALLOC in *. cbn in *. lia.
    + unfold BLEN in *. cbn. lia.
    + unfold data, BLEN in *. cbn. rewrite dropZ_takeZ, dropZ_dropZ by lia.
      replace (b_rp b' - size + size) with (b_rp b') by lia.
      replace (b_wp b' - (b_rp b' - size) - size) with (b_wp b' - b_rp b') by lia.
      rewrite Hd'. cbn. by rewrite Z.sub_diag.
  - case_decide as Hnx; [by left |]. right. subst next.
    case_decide as Hroom0; [exists b; split_and!; [done | done | done | lia] |].
    destruct (allocb_ok (- size + BLEN b)) as (nb & -> & Hok & Hd & Hz & Hroom); [lia |].
    cbn [mbind res_bind]. rewrite bget_all by done. cbn [mbind res_bind].
    destruct (bput_ok nb (data b)) as (b' & -> & [Hok' Hd' Hrp' Hwp' Hal']); [done | lia |].
    cbn [mbind res_bind]. eexists. split_and!; [done | done | by rewrite Hd', Hd | lia].
Qed.

Lemma packblock_ok bs :
  chain_ok bs →
  ∃ r, packblock headroom blockalign bs = Ok r ∧ chain_ok r ∧ contents r = contents bs.
Proof.
  induction 1 as [|b bs Hb Hbs IH]; [exists []; split_and!; by_chain |]. cbn [packblock].
  destruct IH as (r & Hr & Hc & Hd).
  assert (∃ b', (if decide (BLEN b ≪ 2 < BALLOC b)
           then l ← allocb (BLEN b); d ← bget b (BLEN b); bput l d else Ok b) = Ok b' ∧
           block_ok b' ∧ data b' = data b) as (b' & Hb' & Hok & Hd').
  { case_decide; [| by exists b]. pose proof (blen_nonneg b Hb).
    destruct (allocb_ok (BLEN b)) as (nb & -> & Hok & Hdn & _ & Hroom); [done |].
    cbn [mbind res_bind]. rewrite bget_all by done. cbn [mbind res_bind].
    destruct (bput_ok nb (data b)) as (b' & -> & [Hok' Hd' _ _ _]);
      [done | rewrite len_data by done; lia |].
    exists b'. split_and!; [done | done |]. by rewrite Hd', Hdn. }
  rewrite Hb'. cbn [mbind res_bind]. rewrite Hr. cbn [mbind res_bind].
  eexists. split_and!; [done | by_chain |]. by rewrite !contents_cons, Hd', Hd.
Qed.

Lemma pullblock_ok bs count bytes :
  chain_ok bs → 0 ≤ count →
  ∃ r, pullblock bs count bytes = (r, bytes + Z.min count (blocklen bs)) ∧ chain_ok r ∧
    contents r = dropZ count (contents bs).
Proof.
  intros Hbs. revert count bytes. induction Hbs as [|b bs Hb Hbs IH]; intros count bytes Hc;
    cbn [pullblock blocklen].
  { exists []. split_and!; [f_equal; lia | by_chain |]. unfold dropZ. cbn. by rewrite drop_nil. }
  pose proof (blen_nonneg b Hb). pose proof (len_data b Hb) as Hl.
  pose proof (blocklen_nonneg bs Hbs). rewrite contents_cons. case_decide as Hz.
  { subst count. eexists. split_and!; [f_equal; lia | by_chain | done]. }
  destruct (decide (count < BLEN b)) as [Hlt|Hlt].
  - destruct (skip_ok b count Hb) as (Hok & Hd & Hln & _); [lia |].
    rewrite decide_False by lia. eexists. split_and!; [f_equal; lia | by_chain |].
    rewrite contents_cons, Hd. unfold dropZ. by rewrite drop_app_le by lia.
  - destruct (skip_ok b (BLEN b) Hb) as (Hok & Hd & Hln & _); [lia |].
    rewrite decide_True by lia.
    destruct (IH (count - BLEN b) (bytes + BLEN b)) as (r & -> & Hr & Hdr); [lia |].
    exists r. split_and!; [f_equal; lia | done |]. rewrite Hdr.
    unfold dropZ. rewrite drop_app_ge by lia. f_equal. lia.
Qed.

Lemma bl2mem_ok bs n :
  chain_ok bs → 0 ≤ n →
  ∃ r, bl2mem bs n = Ok (takeZ n (contents bs), r) ∧ chain_ok r ∧
    contents r = dropZ n (contents bs) ∧ (blocklen bs ≤ n → r = []) ∧
    (length r ≤ length bs)%nat.
Proof.
  intros Hbs. revert n. induction Hbs as [|b bs Hb Hbs IH]; intros n Hn; cbn [bl2mem].
  { exists []. unfold takeZ, dropZ. cbn. rewrite take_nil, drop_nil. split_and!; by_chain. }
  pose proof (blen_nonneg b Hb). pose proof (len_data b Hb) as Hl.
  pose proof (blocklen_nonneg bs Hbs). rewrite contents_cons. cbn [blocklen].
  case_decide as Hgt.
  - rewrite bget_ok by (done || lia). cbn [mbind res_bind].
    destruct (skip_ok b n Hb) as (Hok & Hd & Hln & _); [lia |].
    exists (b <| b_rp := b_rp b + n |> :: bs). split_and!; [| by_chain | | lia | cbn; lia].
    + unfold takeZ. by rewrite (take_app_le _ (contents bs)) by lia.
    + rewrite contents_cons, Hd. unfold dropZ. by rewrite drop_app_le by lia.
  - rewrite bget_all by done. cbn [mbind res_bind].
    destruct (IH (n - BLEN b)) as (r & -> & Hr & Hdr & Hnil & Hlr); [lia |]. cbn [mbind res_bind].
    exists r. split_and!; [| done | | intros; apply Hnil; lia | cbn; lia].
    + do 2 f_equal. unfold takeZ. rewrite take_app_ge by lia. do 2 f_equal. lia.
    + rewrite Hdr. unfold dropZ. rewrite drop_app_ge by lia. f_equal. lia.
Qed.

Lemma mem2bl_loop_ok fuel p :
  (length p < fuel)%nat →
  ∃ bs, mem2bl_loop headroom blockalign fuel p = Ok bs ∧ chain_ok bs ∧ contents bs = p ∧ bs ≠ [] ∧
    Forall (λ b, BLEN b ≤ Maxatomic) bs.
Proof.
  revert p. induction fuel as [|fuel IH]; intros p Hf; [lia |]. cbn [mem2bl_loop].
  unfold Maxatomic in *. set (n := Z.min (len p) (64 * 1024)).
  assert (0 ≤ n ≤ len p) as Hn by lia.
  destruct (allocb_ok n) as (nb & -> & Hok & Hd & Hz & Hroom); [lia |]. cbn [mbind res_bind].
  assert (len (takeZ n p) = n) as Hl by (apply len_takeZ; lia).
  destruct (bput_ok nb (takeZ n p)) as (b & -> & [Hokb Hdb Hrp Hwp _]); [done | lia |].
  cbn [mbind res_bind].
  assert (BLEN b ≤ 64 * 1024) as Hmax by (unfold BLEN in *; lia).
  case_decide.
  - destruct (IH (dropZ n p)) as (bs & -> & Hc & Hcont & Hne & Hm).
    { unfold dropZ. rewrite length_drop. lia. }
    cbn [mbind res_bind]. eexists. split_and!; [done | by_chain | | done | by constructor].
    rewrite contents_cons, Hdb, Hd, Hcont. cbn. apply takeZ_dropZ.
  - eexists. split_and!; [done | by_chain | | done | by repeat constructor].
    rewrite contents_cons, Hdb, Hd. cbn. rewrite app_nil_r. apply takeZ_all. lia.
Qed.

(** Rearranging a chain keeps its bytes.  pullupblock brings [n] bytes into the
    first block, or frees a chain that has fewer; trimblock leaves exactly the [n]
    bytes at [offset], or frees the chain when they are not all there; pullblock
    drops up to [n] bytes from the front and says how many. *)
Theorem chain_surgery bs n offset :
  chain_ok bs → bs ≠ [] → 0 ≤ n →
  (if decide (blocklen bs < n) then pullupblock headroom blockalign bs n = Ok []
   else ∃ b r, pullupblock headroom blockalign bs n = Ok (b :: r) ∧ chain_ok (b :: r) ∧
     contents (b :: r) = contents bs ∧ n ≤ BLEN b) ∧
  (if decide (0 ≤ offset ∧ offset + n ≤ blocklen bs)
   then ∃ r, trimblock bs offset n = Ok r ∧ chain_ok r ∧
     contents r = takeZ n (dropZ offset (contents bs))
   else trimblock bs offset n = Ok []) ∧
  (∃ r, pullblock bs n 0 = (r, Z.min n (blocklen bs)) ∧ chain_ok r ∧
     contents r = dropZ n (contents bs)).
Proof.
  intros Hbs Hne Hn. split_and!.
  - by apply pullupblock_ok.
  - pose proof (trimblock_ok bs offset n Hbs Hne) as Ht. repeat case_decide; done || lia.
  - by apply (pullblock_ok bs n 0).
Qed.

(** Copying blocks keeps their bytes.  concatblock makes one block of a chain;
    copyblock and adjustblock give exactly [n] bytes, padding with zeros; packblock
    reallocates wasteful blocks; mem2bl cuts memory into blocks and bl2mem copies
    blocks out, leaving the rest. *)
Theorem chain_copies bs b n p :
  chain_ok bs → bs ≠ [] → block_ok b → 0 ≤ n →
  (∃ c, concatblock headroom blockalign bs = Ok [c] ∧ block_ok c ∧ data c = contents bs) ∧
  (∃ c, copyblock headroom blockalign bs n = Ok c ∧ block_ok c ∧
     data c = fit_to n (contents bs)) ∧
  (∃ c, adjustblock headroom blockalign [b] n = Ok [c] ∧ block_ok c ∧ data c = fit_to n (data b)) ∧
  (∃ r, packblock headroom blockalign bs = Ok r ∧ chain_ok r ∧ contents r = contents bs) ∧
  (∃ r, mem2bl headroom blockalign p = Ok r ∧ chain_ok r ∧ contents r = p) ∧
  (∃ r, bl2mem bs n = Ok (takeZ n (contents bs), r) ∧ chain_ok r ∧
     contents r = dropZ n (contents bs)).
Proof.
  intros Hbs Hne Hb Hn. split_and!.
  - by apply concatblock_ok.
  - by apply copyblock_ok.
  - pose proof (adjustblock_ok b n Hb) as Ha. by rewrite decide_False in Ha by lia.
  - by apply packblock_ok.
  - destruct (mem2bl_loop_ok (S (length p)) p) as (r & Hr & Hc & Hd & _); [lia | by exists r].
  - destruct (bl2mem_ok bs n Hbs Hn) as (r & Hr & Hc & Hd & _). by exists r.
Qed.

(** ** Queues *)

Record q_ok (q : Queue) : Prop := {
  qk_chain : chain_ok (q_blocks q);
  qk_len : q_len q = blockalloclen (q_blocks q);
  qk_dlen : q_dlen q = blocklen (q_blocks q)
}.

Abbreviation bytes q := (contents (q_blocks q)).

(** Only the wakeup bits of [state] differ. *)
Record wakes (q q' : Queue) : Prop := {
  wk_blocks : q_blocks q' = q_blocks q;
  wk_len : q_len q' = q_len q;
  wk_dlen : q_dlen q' = q_dlen q;
  wk_limit : q_limit q' = q_limit q;
  wk_noblock : q_noblock q' = q_noblock q;
  wk_bypass : q_bypass q' = q_bypass q;
  wk_state : ∀ bit, bit ≠ Qstarve → bit ≠ Qflow → has q' bit = has q bit
}.

#[local] Instance wakes_refl : Reflexive wakes.
Proof. by intros q. Qed.

#[local] Instance wakes_trans : Transitive wakes.
Proof.
  intros q1 q2 q3 [] []. split; try congruence. intros bit H1 H2.
  transitivity (has q2 bit); auto.
Qed.

Lemma wakes_set q bit : bit = Qstarve ∨ bit = Qflow → wakes q (setst q bit).
Proof.
  intros Hb. split; try done. intros bit' H1 H2. unfold has, setst. cbn.
  apply Z.setbit_neq; [by destruct Hb as [-> | ->] | by destruct Hb as [-> | ->]].
Qed.

Lemma wakes_clr q bit : bit = Qstarve ∨ bit = Qflow → wakes q (clrst q bit).
Proof.
  intros Hb. split; try done. intros bit' H1 H2. unfold has, clrst. cbn.
  apply Z.clearbit_neq. by destruct Hb as [-> | ->].
Qed.

Lemma wakes_unflow q lim : wakes q (unflow q lim).1.
Proof. unfold unflow. case_match; cbn; [by apply wakes_clr; right | done]. Qed.

Lemma wakes_unstarve q : wakes q (unstarve q).1.
Proof. unfold unstarve. case_match; cbn; [by apply wakes_clr; left | done]. Qed.

Lemma wakes_ok q q' : wakes q q' → q_ok q → q_ok q'.
Proof. intros [Hb Hl Hd _ _ _ _] [H1 H2 H3]. split; by rewrite ?Hb, ?Hl, ?Hd. Qed.

Lemma wakes_bytes q q' : wakes q q' → bytes q' = bytes q.
Proof. by intros [-> _ _ _ _ _ _]. Qed.

(** What is taken from the front of a queue. *)
Definition takes (q : Queue) (d : list Z) (q' : Queue) : Prop :=
  q_ok q' ∧ bytes q = d ++ bytes q'.

Lemma takes_wakes q d q' q'' : takes q d q' → wakes q' q'' → takes q d q''.
Proof.
  intros [Hok Hd] Hw. split; [by eapply wakes_ok |]. by rewrite (wakes_bytes _ _ Hw).
Qed.

(** The queue with its chain and counts set. *)
Lemma q_ok_remove q b bs :
  q_ok q → q_blocks q = b :: bs →
  let q' := q <| q_blocks := bs |> <| q_len := q_len q - BALLOC b |>
              <| q_dlen := q_dlen q - BLEN b |> in
  block_ok b ∧ takes q (data b) q'.
Proof.
  intros [Hc Hl Hd] Hb q'. rewrite Hb in *. apply Forall_cons_iff in Hc as [Hbk Hc].
  cbn [blockalloclen blocklen] in *. split; [done |]. split; [split; cbn; [done | lia | lia] |].
  rewrite Hb. cbn. done.
Qed.

Lemma qremove_ok q b bs :
  q_ok q → q_blocks q = b :: bs →
  ∃ q', qremove q = (Some b, q') ∧ block_ok b ∧ takes q (data b) q' ∧ q_blocks q' = bs ∧
    (∀ bit, has q' bit = has q bit).
Proof.
  intros Hok Hb. unfold qremove. rewrite Hb. destruct (q_ok_remove q b bs Hok Hb) as [Hbk [Hq Hd]].
  eexists. split_and!; [done | done | | done | done]. split; [| done].
  destruct Hq as [H1 H2 H3]. by split.
Qed.

Lemma qputback_ok q b :
  q_ok q → block_ok b → q_ok (qputback q b) ∧ bytes (qputback q b) = data b ++ bytes q.
Proof.
  intros [Hc Hl Hd] Hb. split; [split |]; cbn; [by_chain | lia | lia | done].
Qed.

Lemma qaddlist_ok q bs :
  q_ok q → chain_ok bs → q_ok (qaddlist q bs) ∧ bytes (qaddlist q bs) = bytes q ++ contents bs.
Proof.
  intros [Hc Hl Hd] Hb. split; [split |]; cbn; [by_chain | | | by rewrite contents_app].
  - rewrite blockalloclen_app. lia.
  - rewrite blocklen_app. lia.
Qed.

Lemma qget_ok q :
  q_ok q →
  match qget q with
  | (None, q', _) => bytes q = [] ∧ takes q [] q'
  | (Some b, q', _) => block_ok b ∧ takes q (data b) q'
  end.
Proof.
  intros Hok. unfold qget. destruct (q_blocks q) as [|b bs] eqn:Hb.
  - split; [done |]. eapply takes_wakes; [by split |]. by apply wakes_set; left.
  - destruct (q_ok_remove q b bs Hok Hb) as [Hbk Ht].
    match goal with |- context [unflow ?q' ?l] => pose proof (wakes_unflow q' l) as Hw;
      destruct (unflow q' l) as [q'' w] end.
    split; [done |]. by eapply takes_wakes.
Qed.

Lemma takeZ_app_cons n (l k : list Z) : len l ≤ n → takeZ n (l ++ k) = l ++ takeZ (n - len l) k.
Proof. intros. unfold takeZ. rewrite take_app_ge by lia. do 2 f_equal. lia. Qed.

Lemma takes_trans q d q' d' q'' : takes q d q' → takes q' d' q'' → takes q (d ++ d') q''.
Proof. intros [_ H1] [Hok H2]. split; [done |]. by rewrite H1, H2, app_assoc. Qed.

Lemma qdiscard_loop_ok bs q n sofar :
  q_ok q → q_blocks q = bs → sofar ≤ n →
  ∃ q', qdiscard_loop bs q n sofar = (q', sofar + Z.min (n - sofar) (blocklen bs)) ∧
    takes q (takeZ (n - sofar) (bytes q)) q'.
Proof.
  revert q sofar. induction bs as [|b bs IH]; intros q sofar Hok Hb Hn; cbn [qdiscard_loop blocklen].
  { exists q. split; [case_decide; f_equal; lia |]. split; [done |]. rewrite Hb.
    unfold takeZ. cbn. by rewrite take_nil. }
  destruct (q_ok_remove q b bs Hok Hb) as [Hbk Ht]. pose proof (blen_nonneg b Hbk).
  pose proof (len_data b Hbk) as Hl. pose proof Hok as [Hch _ _]. rewrite Hb in Hch.
  apply Forall_cons_iff in Hch as [_ Hch]. pose proof (blocklen_nonneg bs Hch).
  case_decide as Hlt.
  2: { exists q. split; [f_equal; lia |]. split; [done |].
       unfold takeZ. by replace (Z.to_nat (n - sofar)) with 0%nat by lia. }
  case_decide as Hle.
  - set (q1 := q <| q_blocks := bs |> <| q_len := q_len q - BALLOC b |>
                 <| q_dlen := q_dlen q - BLEN b |>) in *.
    destruct (IH q1 (sofar + BLEN b)) as (q' & -> & Ht'); [apply Ht | done | lia |].
    exists q'. split; [f_equal; lia |]. pose proof (takes_trans _ _ _ _ _ Ht Ht') as Ht2.
    replace (takeZ (n - sofar) (bytes q)) with (data b ++ takeZ (n - (sofar + BLEN b)) (bytes q1));
      [done |].
    rewrite Hb, contents_cons, takeZ_app_cons by lia. do 2 f_equal. lia.
  - eexists. split; [f_equal; lia |]. destruct (skip_ok b (n - sofar) Hbk) as (Hok' & Hd' & Hl' & Ha');
      [lia |].
    destruct Hok as [Hc Hql Hqd]. rewrite Hb in *. cbn [blockalloclen blocklen] in *. split.
    + split; cbn [q_blocks q_len q_dlen update]; [by_chain | |];
        cbn [blockalloclen blocklen]; rewrite ?Ha', ?Hl'; cbn; lia.
    + rewrite Hb, contents_cons. unfold takeZ. rewrite take_app_le by lia.
      transitivity (take (Z.to_nat (n - sofar)) (data b) ++ dropZ (n - sofar) (data b) ++ contents bs);
        [by unfold dropZ; rewrite app_assoc, take_drop |].
      f_equal. apply (f_equal (λ l, l ++ contents bs) (eq_sym Hd')).
Qed.

Lemma qconsume_skip_ok bs q tofree :
  q_ok q → q_blocks q = bs →
  ∃ ob q' tf, qconsume_skip bs q tofree = (ob, q', tf) ∧ takes q [] q' ∧
    (∀ bit, has q' bit = has q bit) ∧
    match ob with
    | None => q_blocks q' = []
    | Some b => 0 < BLEN b ∧ ∃ r, q_blocks q' = b :: r
    end.
Proof.
  revert q tofree. induction bs as [|b bs IH]; intros q tofree Hok Hb; cbn [qconsume_skip].
  { do 3 eexists. split_and!; [done | by split | done | done]. }
  destruct (q_ok_remove q b bs Hok Hb) as [Hbk [Hq Hd]]. pose proof (blen_nonneg b Hbk).
  pose proof (len_data b Hbk) as Hl. case_decide.
  { do 3 eexists. split_and!; [done | by split | done | split; [lia | by eexists]]. }
  assert (BLEN b = 0) as Hz by lia. assert (data b = []) as Hdz by (apply length_zero_iff_nil; lia).
  destruct (IH (q <| q_blocks := bs |> <| q_len := q_len q - BALLOC b |>) (b :: tofree))
    as (ob & q' & tf & -> & Ht & Hbit & Hm); [| done |].
  { destruct Hq as [H1 H2 H3]. split; cbn in *; [done | done | lia]. }
  do 3 eexists. split_and!; [done | | by intros; rewrite Hbit | done].
  rewrite Hdz in Hd. cbn [app] in Hd. destruct Ht as [Hok' Hd'']. split; [done |].
  rewrite Hd. cbn [q_blocks update]. cbn in *. done.
Qed.

Lemma has_update q bs l d bit :
  has (q <| q_blocks := bs |> <| q_len := l |> <| q_dlen := d |>) bit = has q bit.
Proof. done. Qed.

Lemma qconsume_ok q n :
  q_ok q → has q Qmsg = false → 0 ≤ n →
  ∃ od q' fr w, qconsume q n = Ok (od, q', fr, w) ∧
    match od with
    | None => bytes q = [] ∧ takes q [] q'
    | Some d => takes q d q' ∧ len d ≤ n ∧ (0 < n → d ≠ [])
    end.
Proof.
  intros Hok Hmsg Hn. unfold qconsume.
  destruct (qconsume_skip_ok (q_blocks q) q [] Hok eq_refl) as (ob & q1 & tf & -> & Ht & Hbit & Hm).
  destruct ob as [b|].
  2: { do 4 eexists. split; [done |]. split.
       - destruct Ht as [_ Hd]. by rewrite Hd, Hm.
       - eapply takes_wakes; [done |]. by apply wakes_set; left. }
  destruct Hm as [Hpos [r Hr]]. pose proof Ht as [Hok1 _].
  destruct (q_ok_remove q1 b r Hok1 Hr) as [Hbk Hrem]. pose proof (len_data b Hbk) as Hl.
  set (k := if decide (BLEN b < n) then BLEN b else n).
  assert (0 ≤ k ≤ BLEN b) as Hk by (unfold k; case_decide; lia).
  rewrite bget_ok by (done || lia). cbn [mbind res_bind].
  destruct (skip_ok b k Hbk Hk) as (Hok' & Hd' & Hl' & Ha').
  rewrite Hr. cbn [tail]. set (b' := b <| b_rp := b_rp b + k |>) in *.
  assert (len (takeZ k (data b)) = k) as Hlk by (apply len_takeZ; lia).
  match goal with |- context [has ?x Qmsg] => replace (has x Qmsg) with false
    by (symmetry; transitivity (has q1 Qmsg); [done | by rewrite Hbit]) end.
  cbn [orb].
  assert (takes q (takeZ k (data b)) (if decide (k = BLEN b) then
      q1 <| q_blocks := r |> <| q_dlen := q_dlen q1 - k - BLEN b' |> <| q_len := q_len q1 - BALLOC b' |>
    else q1 <| q_blocks := b' :: r |> <| q_dlen := q_dlen q1 - k |>)) as Htk.
  { rewrite <- (app_nil_l (takeZ k (data b))). eapply takes_trans; [exact Ht |].
    destruct Hok1 as [Hc Hql Hqd]. rewrite Hr in Hc, Hql, Hqd. cbn [blockalloclen blocklen] in *.
    apply Forall_cons_iff in Hc as [_ Hc]. case_decide as Hkb.
    - split; [split; cbn; [done | rewrite Ha'; lia | lia] |].
      rewrite Hr, contents_cons. cbn. rewrite takeZ_all by lia. done.
    - split; [split; cbn [q_blocks q_len q_dlen update]; cbn; [by_chain | rewrite Ha'; lia | lia] |].
      rewrite Hr, contents_cons.
      transitivity (takeZ k (data b) ++ dropZ k (data b) ++ contents r);
        [by rewrite app_assoc, takeZ_dropZ |].
      f_equal. apply (f_equal (λ l, l ++ contents r) (eq_sym Hd')). }
  case_bool_decide as Hkb.
  - rewrite decide_True in Htk by done.
    match goal with |- context [unflow ?q' ?l] => pose proof (wakes_unflow q' l) as Hw;
      destruct (unflow q' l) as [q'' w] end.
    do 4 eexists. split; [done |]. split_and!; [| unfold k in *; case_decide; lia |].
    + eapply takes_wakes; [exact Htk | exact Hw].
    + intros Hn0 Hnil. rewrite Hnil in Hlk. unfold k in Hlk. case_decide; cbn in Hlk; lia.
  - rewrite decide_False in Htk by done.
    match goal with |- context [unflow ?q' ?l] => pose proof (wakes_unflow q' l) as Hw;
      destruct (unflow q' l) as [q'' w] end.
    do 4 eexists. split; [done |]. split_and!; [| unfold k in *; case_decide; lia |].
    + eapply takes_wakes; [exact Htk | exact Hw].
    + intros Hn0 Hnil. rewrite Hnil in Hlk. unfold k in Hlk. case_decide; cbn in Hlk; lia.
Qed.

Variable Ehungup : list Z.

Lemma qwait_ok q :
  wakes q (qwait Ehungup q).2 ∧ ((qwait Ehungup q).1 = Wdata ↔ q_blocks q ≠ []).
Proof.
  unfold qwait. destruct (q_blocks q) as [|b bs] eqn:Hb; [| done].
  destruct (has q Qclosed).
  - repeat case_decide; split; (done || by split).
  - split; [by apply wakes_set; left | done].
Qed.

Lemma takes_wakes_l q q1 d q2 : wakes q q1 → takes q1 d q2 → takes q d q2.
Proof. intros Hw [Hok Hd]. split; [done |]. by rewrite <- Hd, (wakes_bytes _ _ Hw). Qed.

(** The outcomes of a blocking read. *)
Definition read_outcome {A} (q : Queue) (o : outcome A) (q' : Queue) (P : A → Prop) : Prop :=
  match o with
  | Done a => P a
  | Raise _ | Sleep _ => bytes q = [] ∧ takes q [] q'
  end.

Lemma qbread_ok q n :
  q_ok q → has q Qmsg = false → 0 ≤ n →
  ∃ o q', qbread headroom blockalign Ehungup q n = Ok (o, q') ∧
    read_outcome q o q' (λ ob,
      match ob with
      | None => bytes q = [] ∧ takes q [] q'
      | Some b => block_ok b ∧ BLEN b ≤ n ∧ takes q (data b) q'
      end).
Proof.
  intros Hok Hmsg Hn. unfold qbread. pose proof (qwait_ok q) as [Hw Hd].
  destruct (qwait Ehungup q) as [w q1]. cbn [fst snd] in *.
  pose proof (wakes_ok _ _ Hw Hok) as Hok1.
  destruct w; try (do 2 eexists; split; [done |]; cbn;
    assert (q_blocks q = []) as Hnil by (apply dec_stable; rewrite <- Hd; done);
    split; [by rewrite Hnil | eapply takes_wakes_l; [exact Hw | by split]]).
  destruct (q_blocks q1) as [|b bs] eqn:Hb.
  { exfalso. apply (proj1 Hd eq_refl). by rewrite <- (wk_blocks _ _ Hw). }
  destruct (qremove_ok q1 b bs Hok1 Hb) as (q2 & -> & Hbk & Ht & Hb2 & Hbit).
  assert (takes q (data b) q2) as Htq by by eapply takes_wakes_l.
  pose proof (blen_nonneg b Hbk). pose proof (len_data b Hbk) as Hl.
  assert (has q2 Qmsg = false) as Hmsg2 by (rewrite Hbit, (wk_state _ _ Hw) by done; done).
  case_decide as Hgt.
  - rewrite Hmsg2. destruct (allocb_ok (BLEN b - n)) as (nb & -> & Hnb & Hdn & Hzn & Hroom); [lia |].
    cbn [mbind res_bind]. destruct (skip_ok b n Hbk) as (Hsk & Hdsk & Hlsk & _); [lia |].
    rewrite <- Hlsk. rewrite bget_all by done. cbn [mbind res_bind].
    destruct (bput_ok nb (data (b <| b_rp := b_rp b + n |>))) as (nb' & -> & [Hok' Hd' _ _ _]);
      [done | rewrite len_data by done; lia |].
    cbn [mbind res_bind]. destruct (cut_ok b n Hbk) as (Hcut & Hdcut & Hlcut & _); [lia |].
    do 2 eexists. split; [done |]. cbn [read_outcome].
    split_and!; [done | unfold BLEN in *; cbn in *; lia |].
    eapply takes_wakes; [| apply wakes_unflow]. destruct Htq as [Hok2 Hby].
    destruct (qputback_ok q2 nb' Hok2 Hok') as [Hokp Hbyp]. split; [done |].
    rewrite Hbyp, Hd', Hdn, Hdsk, Hdcut, Hby. cbn [app]. by rewrite app_assoc, takeZ_dropZ.
  - do 2 eexists. split; [done |]. cbn [read_outcome]. split_and!; [done | lia |].
    eapply takes_wakes; [exact Htq | apply wakes_unflow].
Qed.

Lemma coalesce_ok fuel q b bs n len :
  q_ok q → q_blocks q = b :: bs → (length bs < fuel)%nat →
  ∃ first k q', coalesce fuel q n (BLEN b) len = Ok (first, k, q') ∧ chain_ok first ∧
    takes q (contents first) q' ∧ k = n + blocklen first ∧ (∀ bit, has q' bit = has q bit) ∧
    (first = [b] ∨ k ≤ len).
Proof.
  revert q b bs n. induction fuel as [|fuel IH]; intros q b bs n Hok Hb Hf; [lia |].
  cbn [coalesce]. destruct (qremove_ok q b bs Hok Hb) as (q1 & -> & Hbk & Ht & Hb1 & Hbit).
  rewrite Hb1. destruct bs as [|b' bs].
  { do 3 eexists. split_and!; [done | by_chain | | cbn; lia | done | by left].
    unfold contents. cbn. by rewrite app_nil_r. }
  case_decide as Hgt.
  { do 3 eexists. split_and!; [done | by_chain | | cbn; lia | done | by left].
    unfold contents. cbn. by rewrite app_nil_r. }
  destruct (IH q1 b' bs (n + BLEN b)) as (first & k & q' & -> & Hc & Ht' & -> & Hbit' & Hk);
    [apply Ht | done | cbn in Hf; lia |].
  cbn [mbind res_bind]. do 3 eexists. split_and!; [done | by_chain | | cbn; lia | |].
  - rewrite contents_cons. by eapply takes_trans.
  - intros. by rewrite Hbit', Hbit.
  - right. destruct Hk as [->|Hk]; [cbn; lia | lia].
Qed.

Lemma qread_finish_ok q q1 first n k :
  chain_ok first → takes q (contents first) q1 → has q1 Qmsg = false → 0 ≤ n →
  k = blocklen first → (length first = 1%nat ∨ k ≤ n) →
  ∃ d q', qread_finish q1 first k n = Ok (Done (len d, d), q') ∧ takes q d q' ∧ len d ≤ n.
Proof.
  intros Hc Ht Hmsg Hn -> Hone. unfold qread_finish.
  destruct (bl2mem_ok first n Hc Hn) as (r & -> & Hr & Hd & Hnil & Hlen). cbn [mbind res_bind].
  pose proof (len_contents first Hc) as Hlc.
  assert (len (takeZ n (contents first)) ≤ n) as Hle by (unfold takeZ; rewrite length_take; lia).
  destruct r as [|b r].
  - assert (takeZ n (contents first) = contents first) as Hall.
    { rewrite <- (takeZ_dropZ n (contents first)) at 2. rewrite <- Hd. cbn. by rewrite app_nil_r. }
    rewrite Hall in *. rewrite <- Hlc. do 2 eexists. split_and!; [done | | done].
    eapply takes_wakes; [exact Ht | apply wakes_unflow].
  - assert (r = []) as ->.
    { destruct Hone as [H1|H1]; [| by specialize (Hnil H1)]. cbn in Hlen. destruct r; [done |]. cbn in *. lia. }
    rewrite Hmsg. apply Forall_cons_iff in Hr as [Hb _].
    unfold contents in Hd at 1. cbn in Hd. rewrite app_nil_r in Hd.
    assert (blocklen first - BLEN b = len (takeZ n (contents first))) as ->.
    { rewrite <- (len_data b Hb), Hd, len_dropZ by lia. unfold takeZ. rewrite length_take. lia. }
    do 2 eexists. split_and!; [done | | done].
    eapply takes_wakes; [| apply wakes_unflow]. destruct Ht as [Hok Hby].
    destruct (qputback_ok q1 b Hok Hb) as [Hokp Hbyp]. split; [done |].
    rewrite Hbyp, Hd, app_assoc, takeZ_dropZ. done.
Qed.

Lemma qread_loop_ok fuel q n :
  q_ok q → has q Qmsg = false → 0 ≤ n → (length (q_blocks q) < fuel)%nat →
  ∃ o q', qread_loop Ehungup fuel q n = Ok (o, q') ∧
    read_outcome q o q' (λ '(k, d), k = len d ∧ k ≤ n ∧ takes q d q').
Proof.
  revert q. induction fuel as [|fuel IH]; intros q Hok Hmsg Hn Hf; [lia |]. cbn [qread_loop].
  pose proof (qwait_ok q) as [Hw Hd]. destruct (qwait Ehungup q) as [w q1]. cbn [fst snd] in *.
  pose proof (wakes_ok _ _ Hw Hok) as Hok1.
  destruct w; try (do 2 eexists; split; [done |]; cbn;
    assert (q_blocks q = []) as Hnil by (apply dec_stable; rewrite <- Hd; done);
    split_and?; try (by rewrite ?Hnil); try done; eapply takes_wakes_l; [exact Hw | by split]).
  destruct (q_blocks q1) as [|b bs] eqn:Hb.
  { exfalso. apply (proj1 Hd eq_refl). by rewrite <- (wk_blocks _ _ Hw). }
  assert (has q1 Qmsg = false) as Hmsg1 by (rewrite (wk_state _ _ Hw) by done; done).
  assert (q_blocks q = b :: bs) as Hbq by (by rewrite <- (wk_blocks _ _ Hw)).
  destruct (qremove_ok q1 b bs Hok1 Hb) as (q2 & Hrem & Hbk & Ht & Hb2 & Hbit).
  pose proof (blen_nonneg b Hbk). destruct (has q1 Qcoalesce).
  - case_decide as Hz.
    + rewrite Hrem. cbn [snd]. assert (data b = []) as Hdz.
      { apply length_zero_iff_nil. pose proof (len_data b Hbk). lia. }
      assert (takes q [] q2) as Ht0 by (rewrite <- Hdz; by eapply takes_wakes_l).
      destruct (IH q2) as (o & q' & -> & Ho); [apply Ht0 | by rewrite Hbit | done | |].
      { rewrite Hb2. rewrite Hbq in Hf. cbn in Hf. lia. }
      do 2 eexists. split; [done |]. destruct Ht0 as [_ Hby]. cbn [app] in Hby.
      destruct o as [[k d]| |]; cbn [read_outcome] in *; unfold takes in *; by rewrite Hby.
    + destruct (coalesce_ok (S (length (b :: bs))) q1 b bs 0 n) as
        (first & k & q3 & -> & Hc & Ht3 & -> & Hbit3 & Hk); [done | done | cbn; lia |].
      cbn [mbind res_bind]. rewrite Z.add_0_l in *.
      destruct (qread_finish_ok q q3 first n (blocklen first)) as (d & q' & -> & Hd' & Hl);
        [done | by eapply takes_wakes_l | by rewrite Hbit3 | done | done | |].
      { destruct Hk as [->|]; [by left | by right]. }
      do 2 eexists. split; [done |]. by split_and!.
  - rewrite Hrem. cbn [snd].
    destruct (qread_finish_ok q q2 [b] n (BLEN b)) as (d & q' & -> & Hd' & Hl);
      [by_chain | | by rewrite Hbit | done | cbn; lia | by left |].
    { unfold contents. cbn. rewrite app_nil_r. by eapply takes_wakes_l. }
    do 2 eexists. split; [done |]. by split_and!.
Qed.

(** What is added at the back of a queue. *)
Definition gives (q : Queue) (d : list Z) (q' : Queue) : Prop :=
  q_ok q' ∧ bytes q' = bytes q ++ d.

Lemma gives_wakes q d q' q'' : gives q d q' → wakes q' q'' → gives q d q''.
Proof. intros [Hok Hd] Hw. split; [by eapply wakes_ok |]. by rewrite (wakes_bytes _ _ Hw). Qed.

Lemma gives_trans q d q' d' q'' : gives q d q' → gives q' d' q'' → gives q (d ++ d') q''.
Proof. intros [_ H1] [Hok H2]. split; [done |]. by rewrite H2, H1, app_assoc. Qed.

(** A new block holding [l]. *)
Lemma alloc_put l :
  ∃ b, (b ← allocb (len l); bput b l) = Ok b ∧ block_ok b ∧ data b = l.
Proof.
  destruct (allocb_ok (len l)) as (nb & -> & Hok & Hd & _ & Hroom); [lia |]. cbn [mbind res_bind].
  destruct (bput_ok nb l) as (b & -> & [Hok' Hd' _ _ _]); [done | lia |].
  exists b. split_and!; [done | done |]. by rewrite Hd', Hd.
Qed.

Lemma qpass_queue_ok q bs :
  q_ok q → chain_ok bs →
  ∃ q', qpass_queue q bs = (blockalloclen bs, q', has q Qstarve) ∧ gives q (contents bs) q'.
Proof.
  intros Hok Hc. unfold qpass_queue. pose proof (qaddlist_ok q bs Hok Hc) as Hadd.
  set (q1 := qaddlist q bs) in *.
  set (q2 := if decide (half (q_limit q1) ≤ q_len q1) then setst q1 Qflow else q1).
  assert (wakes q1 q2) as Hw by (unfold q2; case_decide; [by apply wakes_set; right | done]).
  assert (has q2 Qstarve = has q Qstarve) as Hst.
  { unfold q2. case_decide; [| done]. by apply (Z.setbit_neq (q_state q) Qflow Qstarve). }
  pose proof (wakes_unstarve q2) as Hw2. unfold unstarve in *. rewrite Hst in *.
  destruct (has q Qstarve); cbn [fst snd] in *; (eexists; split; [done |]);
    (eapply gives_wakes; [exact Hadd |]); by etransitivity.
Qed.

Lemma qproduce_ok q alloc p :
  q_ok q →
  ∃ r q' w, qproduce headroom blockalign q alloc p = Ok (r, q', w) ∧
    (r = -1 ∧ q_limit q ≤ q_len q ∧ gives q [] q' ∨
     r = 0 ∧ alloc = false ∧ gives q [] q' ∨ r = len p ∧ gives q p q').
Proof.
  intros Hok. unfold qproduce. assert (gives q [] q) as Hg0 by (split; [done | by rewrite app_nil_r]).
  case_decide as Hfull.
  { do 3 eexists. split; [done |]. left. split_and!; [done | done |].
    eapply gives_wakes; [exact Hg0 |]. by apply wakes_set; right. }
  destruct alloc; cbn [negb]; [| do 3 eexists; split; [done |]; right; left; by split_and!].
  destruct (alloc_put p) as (b & Hb & Hbk & Hd). apply bind_Ok in Hb as (b0 & -> & Hb).
  cbn [mbind res_bind]. rewrite Hb. cbn [mbind res_bind].
  destruct (qaddlist_ok q [b] Hok ltac:(by_chain)) as [Hok1 Hby].
  set (q1 := qaddlist q [b]) in *. pose proof (wakes_unstarve q1) as Hw.
  destruct (unstarve q1) as [q2 w]. cbn [fst] in Hw. do 3 eexists. split; [done |].
  right. right. split; [done |]. eapply (gives_wakes _ _ q1).
  - split; [done |]. rewrite Hby. unfold contents at 2. cbn. by rewrite app_nil_r, Hd.
  - etransitivity; [exact Hw |]. case_decide; [by apply wakes_set; right | done].
Qed.

Lemma qbwrite_ok q b :
  q_ok q → block_ok b → q_bypass q = false →
  match qbwrite q b with
  | (Raise e, q') => has q Qclosed = true ∧ e = q_err q ∧ q' = q
  | (Done n, q') => n = BLEN b ∧
      (q' = q ∧ q_noblock q = true ∧ q_limit q ≤ q_len q ∨
       gives q (data b) q' ∧ (∀ bit, bit ≠ Qstarve → bit ≠ Qflow → has q' bit = has q bit) ∧
       q_noblock q' = q_noblock q ∧ q_bypass q' = false)
  | (Sleep n, q') => n = BLEN b ∧ gives q (data b) q' ∧ has q' Qflow = true ∧ q_limit q' ≤ q_len q'
  end.
Proof.
  intros Hok Hb Hby. unfold qbwrite. rewrite Hby.
  destruct (has q Qclosed) eqn:Hcl; [done |]. destruct (bool_decide _ && _) eqn:Hnb.
  { apply andb_true_iff in Hnb as [Hl%bool_decide_eq_true Hnb]. split; [done |]. by left. }
  set (q1 := q <| q_blocks := q_blocks q ++ [b] |> <| q_len := q_len q + BALLOC b |>
               <| q_dlen := q_dlen q + BLEN b |>).
  assert (gives q (data b) q1) as Hg.
  { destruct Hok as [Hc Hl Hd]. split; [split |]; cbn.
    - by_chain.
    - rewrite blockalloclen_app. cbn. lia.
    - rewrite blocklen_app. cbn. lia.
    - rewrite contents_app. unfold contents at 2. cbn. by rewrite app_nil_r. }
  pose proof (wakes_unstarve q1) as Hw. destruct (unstarve q1) as [q2 w]. cbn [fst] in Hw.
  pose proof (gives_wakes _ _ _ _ Hg Hw) as Hg2.
  destruct (q_noblock q2 || qnotfull q2) eqn:Hnf.
  - split; [done |]. right. split_and!; [done | | by rewrite (wk_noblock _ _ Hw) |].
    + intros bit H1 H2. by rewrite (wk_state _ _ Hw) by done.
    + by rewrite (wk_bypass _ _ Hw).
  - apply orb_false_iff in Hnf as [_ [Hl%bool_decide_eq_false _]%orb_false_iff].
    split_and!; [done | | |].
    + eapply gives_wakes; [exact Hg2 |]. by apply wakes_set; right.
    + by apply (Z.setbit_eq (q_state q2) Qflow).
    + cbn. lia.
Qed.

Lemma qwrite_loop_ok fuel q p sofar :
  q_ok q → q_bypass q = false → q_noblock q = false → has q Qmsg = false → has q Qclosed = false →
  0 ≤ sofar ≤ len p → (Z.to_nat (len p - sofar) < fuel)%nat →
  ∃ o q', qwrite_loop headroom blockalign fuel q p sofar = Ok (o, q') ∧
    match o with
    | Done n => n = len p ∧ gives q (dropZ sofar p) q'
    | Sleep n => sofar ≤ n ≤ len p ∧ gives q (takeZ (n - sofar) (dropZ sofar p)) q'
    | Raise _ => False
    end.
Proof.
  revert q sofar. induction fuel as [|fuel IH]; intros q sofar Hok Hbp Hnb Hmsg Hcl Hs Hf; [lia |].
  cbn [qwrite_loop]. unfold Maxatomic. set (n := Z.min (len p - sofar) (64 * 1024)).
  assert (0 ≤ n ≤ len p - sofar) as Hn by lia.
  assert (len (takeZ n (dropZ sofar p)) = n) as Hl by (apply len_takeZ; rewrite len_dropZ; lia).
  destruct (alloc_put (takeZ n (dropZ sofar p))) as (b & Hb & Hbk & Hd). rewrite Hl in Hb.
  apply bind_Ok in Hb as (b0 & -> & Hb). cbn [mbind res_bind]. rewrite Hb. cbn [mbind res_bind].
  pose proof (qbwrite_ok q b Hok Hbk Hbp) as Hw. rewrite Hd in Hw.
  destruct (qbwrite q b) as [[k|e|k] q1].
  - destruct Hw as [-> [(_ & Hnb' & _)|(Hg & Hbits & Hnb1 & Hbp1)]]; [congruence |].
    assert (has q1 Qmsg = false) as Hmsg1 by (rewrite Hbits by done; done).
    assert (has q1 Qclosed = false) as Hcl1 by (rewrite Hbits by done; done).
    case_decide as Hmore.
    + rewrite Hmsg1. destruct (IH q1 (sofar + n)) as (o & q' & -> & Ho);
        [apply Hg | done | congruence | done | done | lia | lia |].
      do 2 eexists. split; [done |]. destruct o as [k|e|k]; [| done |].
      * destruct Ho as [-> Hg']. split; [done |]. pose proof (gives_trans _ _ _ _ _ Hg Hg') as Ht.
        rewrite <- (dropZ_dropZ sofar n), takeZ_dropZ in Ht by lia. done.
      * destruct Ho as [Hk Hg']. split; [lia |]. pose proof (gives_trans _ _ _ _ _ Hg Hg') as Ht.
        rewrite <- (dropZ_dropZ sofar n) in Ht by lia.
        replace (takeZ (k - sofar) (dropZ sofar p)) with
          (takeZ n (dropZ sofar p) ++ takeZ (k - (sofar + n)) (dropZ n (dropZ sofar p))); [done |].
        unfold takeZ, dropZ. rewrite take_take_drop. f_equal. lia.
    + do 2 eexists. split; [done |]. split; [done |].
      rewrite takeZ_all in Hg by (rewrite len_dropZ; lia). done.
  - destruct Hw as (Hc & _). congruence.
  - destruct Hw as (-> & Hg & _). do 2 eexists. split; [done |]. split; [lia |].
    by replace (sofar + n - sofar) with n by lia.
Qed.

(** ** Any sequence of operations on a stream queue *)

Inductive qop : Type :=
  | Oget | Odiscard (n : Z) | Oconsume (n : Z) | Obread (n : Z) | Oread (n : Z)
  | Opass (bs : list Block) | Oproduce (alloc : bool) (p : list Z) | Owrite (p : list Z).

Definition op_ok (op : qop) : Prop :=
  match op with
  | Oget | Oproduce _ _ | Owrite _ => True
  | Odiscard n | Oconsume n | Obread n | Oread n => 0 ≤ n
  | Opass bs => chain_ok bs ∧ bs ≠ []
  end.

(** One operation: the bytes it accepted, the bytes it handed over (or threw away),
    and the queue. *)
Definition exec (op : qop) (q : Queue) : res (list Z * list Z * Queue) :=
  match op with
  | Oget =>
      match qget q with
      | (Some b, q', _) => Ok ([], data b, q')
      | (None, q', _) => Ok ([], [], q')
      end
  | Odiscard n =>
      let '(k, q', _) := qdiscard q n in Ok ([], takeZ k (bytes q), q')
  | Oconsume n =>
      '(d, q', _, _) ← qconsume q n; Ok ([], default [] d, q')
  | Obread n =>
      '(o, q') ← qbread headroom blockalign Ehungup q n;
      Ok ([], match o with Done (Some b) => data b | _ => [] end, q')
  | Oread n =>
      '(o, q') ← qread Ehungup q n;
      Ok ([], match o with Done (_, d) => d | _ => [] end, q')
  | Opass bs =>
      '(r, q', _) ← qpass q bs;
      Ok (if decide (r = -1) then [] else if has q Qclosed then [] else contents bs, [], q')
  | Oproduce alloc p =>
      '(r, q', _) ← qproduce headroom blockalign q alloc p;
      Ok (if decide (r = len p ∧ alloc = true) then p else [], [], q')
  | Owrite p =>
      '(o, q') ← qwrite headroom blockalign q p;
      Ok (match o with Done _ => p | Sleep n => takeZ n p | Raise _ => [] end, [], q')
  end.

Fixpoint execs (ops : list qop) (q : Queue) : res (list Z * list Z * Queue) :=
  match ops with
  | [] => Ok ([], [], q)
  | op :: ops =>
      '(i, o, q) ← exec op q;
      '(i', o', q) ← execs ops q;
      Ok (i ++ i', o ++ o', q)
  end.

(** A queue opened without Qmsg, blocking, not bypassed. *)
Definition stream (q : Queue) : Prop :=
  q_ok q ∧ has q Qmsg = false ∧ q_noblock q = false ∧ q_bypass q = false.

(** What no operation changes. *)
Record keeps (q q' : Queue) : Prop := {
  kp_noblock : q_noblock q' = q_noblock q;
  kp_bypass : q_bypass q' = q_bypass q;
  kp_msg : has q' Qmsg = has q Qmsg
}.

Lemma keeps_trans q1 q2 q3 : keeps q1 q2 → keeps q2 q3 → keeps q1 q3.
Proof. intros [] []. split; congruence. Qed.

Lemma keeps_wakes q q' : wakes q q' → keeps q q'.
Proof. intros []. split; auto. Qed.

Lemma keeps_unflow q q0 lim : keeps q q0 → keeps q (unflow q0 lim).1.
Proof. intros. eapply keeps_trans; [done |]. apply keeps_wakes, wakes_unflow. Qed.

Lemma keeps_unstarve q q0 : keeps q q0 → keeps q (unstarve q0).1.
Proof. intros. eapply keeps_trans; [done |]. apply keeps_wakes, wakes_unstarve. Qed.

Lemma keeps_setst q q0 bit : bit = Qstarve ∨ bit = Qflow → keeps q q0 → keeps q (setst q0 bit).
Proof. intros. eapply keeps_trans; [done |]. by apply keeps_wakes, wakes_set. Qed.

Lemma keeps_discard bs q n sofar : keeps q (qdiscard_loop bs q n sofar).1.
Proof.
  revert q sofar. induction bs as [|b bs IH]; intros q sofar; cbn [qdiscard_loop];
    repeat case_decide; try done. eapply keeps_trans; [| apply IH]. done.
Qed.

Lemma keeps_skip bs q tf : keeps q (qconsume_skip bs q tf).1.2.
Proof.
  revert q tf. induction bs as [|b bs IH]; intros q tf; cbn [qconsume_skip]; [done |].
  case_decide; [done |]. eapply keeps_trans; [| apply IH]. done.
Qed.

Lemma keeps_consume q n od q' fr w : qconsume q n = Ok (od, q', fr, w) → keeps q q'.
Proof.
  unfold qconsume. pose proof (keeps_skip (q_blocks q) q []) as Hk.
  destruct (qconsume_skip _ _ _) as [[ob q1] tf]. cbn in Hk. destruct ob as [b|].
  2: { intros [= <- <- <- <-]. by apply keeps_setst; [left |]. }
  intros (d & _ & He)%bind_Ok. destruct (has _ _ || _);
    match type of He with context [unflow ?x ?l] => pose proof (keeps_unflow q x l) as Hu;
      destruct (unflow x l) as [q2 w2] end; injection He as <- <- <- <-; apply Hu; destruct Hk; by split.
Qed.

Lemma keeps_bread q n o q' :
  qbread headroom blockalign Ehungup q n = Ok (o, q') → keeps q q'.
Proof.
  unfold qbread. destruct (qwait_ok q) as [Hw _]. destruct (qwait Ehungup q) as [w q1].
  cbn in Hw. apply keeps_wakes in Hw. destruct w; try (intros [= <- <-]; done).
  unfold qremove. destruct (q_blocks q1) as [|b bs]; [done |]. case_decide.
  - intros (q2 & Hq2 & He)%bind_Ok. injection He as <- <-. apply keeps_unflow.
    eapply keeps_trans; [exact Hw |]. destruct (has _ Qmsg); [by injection Hq2 as <- |].
    apply bind_Ok in Hq2 as (? & _ & (? & _ & (? & _ & [= <-])%bind_Ok)%bind_Ok). done.
  - intros [= <- <-]. apply keeps_unflow. eapply keeps_trans; [exact Hw |]. done.
Qed.

Lemma keeps_coalesce fuel q n m len first k q' :
  coalesce fuel q n m len = Ok (first, k, q') → keeps q q'.
Proof.
  revert q n m first k. induction fuel as [|fuel IH]; intros q n m first k; [done |].
  cbn [coalesce]. unfold qremove at 1. destruct (q_blocks q) as [|b bs]; [done |].
  cbn [q_blocks update]. cbn. destruct bs as [|b' bs]; [by intros [= <- <- <-] |].
  case_decide; [by intros [= <- <- <-] |].
  intros ([[f k'] q1] & Hc & [= <- <- <-])%bind_Ok. apply IH in Hc.
  eapply keeps_trans; [| exact Hc]. done.
Qed.

Lemma keeps_finish q q1 first k n o q' :
  keeps q q1 → qread_finish q1 first k n = Ok (o, q') → keeps q q'.
Proof.
  intros Hk. unfold qread_finish. intros ([d r] & _ & He)%bind_Ok.
  destruct r as [|b r]; injection He as <- <-; apply keeps_unflow; [done |].
  match goal with |- keeps _ (if ?c then _ else _) => destruct c end; [done | destruct Hk; by split].
Qed.

Lemma keeps_read fuel q n o q' : qread_loop Ehungup fuel q n = Ok (o, q') → keeps q q'.
Proof.
  revert q. induction fuel as [|fuel IH]; intros q; [done |]. cbn [qread_loop].
  destruct (qwait_ok q) as [Hw _]. destruct (qwait Ehungup q) as [w q1].
  cbn in Hw. apply keeps_wakes in Hw. destruct w; try (intros [= <- <-]; done).
  unfold qremove. destruct (q_blocks q1) as [|b bs]; [done |]. destruct (has q1 Qcoalesce).
  - case_decide.
    + intros He%IH. eapply keeps_trans; [exact Hw |]. eapply keeps_trans; [| exact He]. done.
    + intros ([[f k] q2] & Hc & He)%bind_Ok. eapply keeps_finish; [| exact He].
      eapply keeps_trans; [exact Hw |]. by eapply keeps_coalesce.
  - intros He. eapply keeps_finish; [| exact He]. eapply keeps_trans; [exact Hw |]. done.
Qed.

Lemma keeps_pass_queue q bs : keeps q (qpass_queue q bs).1.2.
Proof.
  unfold qpass_queue. match goal with |- context [unstarve ?x] =>
    pose proof (keeps_unstarve q x) as Hu; destruct (unstarve x) as [q2 w] end.
  apply Hu. case_decide; [by apply keeps_setst; [right |] | done].
Qed.

Lemma keeps_bwrite q b : keeps q (qbwrite q b).2.
Proof.
  unfold qbwrite. destruct (q_bypass q); [done |]. destruct (has q Qclosed); [done |].
  destruct (_ && _); [done |].
  match goal with |- context [unstarve ?x] =>
    pose proof (keeps_unstarve q x) as Hu; destruct (unstarve x) as [q2 w] end.
  cbn in Hu. destruct (_ || _); cbn; [by apply Hu | apply keeps_setst; [by right | by apply Hu]].
Qed.

Lemma keeps_write fuel q p sofar o q' :
  qwrite_loop headroom blockalign fuel q p sofar = Ok (o, q') → keeps q q'.
Proof.
  revert q sofar. induction fuel as [|fuel IH]; intros q sofar; [done |]. cbn [qwrite_loop].
  intros (b0 & _ & (b & _ & He)%bind_Ok)%bind_Ok. pose proof (keeps_bwrite q b) as Hk.
  destruct (qbwrite q b) as [[k|e|k] q1]; cbn in Hk; [| by injection He as <- <-..].
  case_decide; [| by injection He as <- <-]. destruct (has q1 Qmsg); [by injection He as <- <- |].
  eapply keeps_trans; [exact Hk |]. by eapply IH.
Qed.

Lemma keeps_produce q alloc p r q' w :
  qproduce headroom blockalign q alloc p = Ok (r, q', w) → keeps q q'.
Proof.
  unfold qproduce. case_decide; [intros [= <- <- <-]; by apply keeps_setst; [right |] |].
  destruct alloc; cbn [negb]; [| by intros [= <- <- <-]].
  intros (b0 & _ & (b & _ & He)%bind_Ok)%bind_Ok.
  match type of He with context [unstarve ?x] =>
    pose proof (keeps_unstarve q x) as Hu; destruct (unstarve x) as [q2 w2] end.
  cbn in Hu. injection He as <- <- <-. case_decide; [apply keeps_setst; [by right |] |]; by apply Hu.
Qed.

Lemma stream_keeps q q' : stream q → keeps q q' → q_ok q' → stream q'.
Proof. intros (_ & H1 & H2 & H3) [K1 K2 K3] Hok. split_and!; congruence. Qed.

(** One operation on a stream: what goes in is appended, what comes out was first. *)
Lemma exec_ok op q :
  stream q → op_ok op →
  ∃ i o q', exec op q = Ok (i, o, q') ∧ stream q' ∧ bytes q ++ i = o ++ bytes q'.
Proof.
  intros Hst Hop. pose proof Hst as (Hok & Hmsg & Hnb & Hbp).
  assert (∀ d q', keeps q q' → takes q d q' → stream q' ∧ bytes q ++ [] = d ++ bytes q') as Htk.
  { intros d q' Hk [Hok' Hd]. split; [by eapply stream_keeps |]. by rewrite app_nil_r. }
  assert (∀ d q', keeps q q' → gives q d q' → stream q' ∧ bytes q ++ d = [] ++ bytes q') as Hgv.
  { intros d q' Hk [Hok' Hd]. split; [by eapply stream_keeps | done]. }
  destruct op as [|n|n|n|n|bs|alloc p|p]; cbn [exec op_ok] in *.
  - pose proof (qget_ok q Hok) as Hg.
    assert (keeps q (qget q).1.2) as Hk.
    { unfold qget. destruct (q_blocks q); [by apply keeps_setst; [left |] |].
      match goal with |- context [unflow ?x ?l] => pose proof (keeps_unflow q x l) as Hu;
        destruct (unflow x l) as [q2 w2] end. by apply Hu. }
    destruct (qget q) as [[[b|] q'] w]; do 3 eexists; (split; [done |]); apply Htk; naive_solver.
  - unfold qdiscard. pose proof (keeps_discard (q_blocks q) q n 0) as Hk.
    destruct (qdiscard_loop_ok (q_blocks q) q n 0 Hok eq_refl) as (q1 & Hq1 & Ht); [lia |].
    rewrite Hq1 in *. cbn [fst] in Hk. rewrite Z.add_0_l, Z.sub_0_r in *.
    match goal with |- context [unflow ?x ?l] => pose proof (keeps_unflow q x l Hk) as Hu;
      pose proof (wakes_unflow x l) as Hw; destruct (unflow x l) as [q2 w2] end.
    do 3 eexists. split; [done |]. apply Htk; [done |]. eapply takes_wakes; [| exact Hw].
    replace (takeZ (Z.min n (blocklen (q_blocks q))) (bytes q)) with (takeZ n (bytes q)); [done |].
    pose proof (len_contents _ (qk_chain _ Hok)).
    destruct (decide (n ≤ blocklen (q_blocks q))); [by rewrite Z.min_l by lia |].
    rewrite Z.min_r, !takeZ_all by lia. done.
  - destruct (qconsume_ok q n Hok Hmsg Hop) as (od & q' & fr & w & He & Hd). rewrite He.
    cbn [mbind res_bind]. do 3 eexists. split; [done |]. apply Htk; [by eapply keeps_consume |].
    destruct od; cbn; naive_solver.
  - destruct (qbread_ok q n Hok Hmsg Hop) as (o & q' & He & Ho). rewrite He. cbn [mbind res_bind].
    do 3 eexists. split; [done |]. apply Htk; [by eapply keeps_bread |].
    destruct o as [[b|]| |]; cbn in *; naive_solver.
  - unfold qread. destruct (qread_loop_ok (S (length (q_blocks q))) q n Hok Hmsg Hop) as (o & q' & He & Ho);
      [lia |].
    rewrite He. cbn [mbind res_bind]. do 3 eexists. split; [done |].
    apply Htk; [by eapply keeps_read |]. destruct o as [[k d]| |]; cbn in *; naive_solver.
  - destruct Hop as [Hc Hne]. unfold qpass. destruct bs as [|b bs]; [done |]. case_decide as Hfull.
    { do 3 eexists. split; [done |]. cbn. by rewrite app_nil_r. }
    assert (0 ≤ BALLOC b) by (unfold BALLOC; lia). destruct (has q Qclosed).
    { do 3 eexists. split; [done |]. rewrite decide_False by lia. cbn. by rewrite app_nil_r. }
    destruct (qpass_queue_ok q (b :: bs) Hok Hc) as (q' & Hq' & Hg). rewrite Hq'.
    cbn [mbind res_bind]. do 3 eexists. split; [done |]. rewrite decide_False.
    + apply Hgv; [| done]. pose proof (keeps_pass_queue q (b :: bs)) as Hk. by rewrite Hq' in Hk.
    + cbn [blockalloclen]. assert (0 ≤ blockalloclen bs); [| lia]. clear.
      induction bs as [|c bs IH]; cbn [blockalloclen]; [lia |]. unfold BALLOC. lia.
  - destruct (qproduce_ok q alloc p Hok) as (r & q' & w & He & Hr). rewrite He. cbn [mbind res_bind].
    do 3 eexists. split; [done |]. apply Hgv; [by eapply keeps_produce |].
    destruct Hr as [(-> & _ & Hg)|[(-> & -> & Hg)|(-> & Hg)]].
    + by rewrite decide_False by lia.
    + by rewrite decide_False by naive_solver.
    + destruct alloc; [by rewrite decide_True |]. rewrite decide_False by naive_solver.
      unfold qproduce in He. case_decide; cbn in He; [injection He as Hz _ _; lia |].
      injection He as Hz _ _. by destruct p.
  - unfold qwrite. destruct (has q Qclosed) eqn:Hcl.
    + cbn [qwrite_loop]. rewrite Z.sub_0_r. unfold Maxatomic. set (n := Z.min (len p) _).
      assert (len (takeZ n (dropZ 0 p)) = n) as Hl by (apply len_takeZ; rewrite len_dropZ; lia).
      destruct (alloc_put (takeZ n (dropZ 0 p))) as (b & Hb & Hbk & Hd). rewrite Hl in Hb.
      apply bind_Ok in Hb as (b0 & -> & Hb). cbn [mbind res_bind]. rewrite Hb. cbn [mbind res_bind].
      unfold qbwrite. rewrite Hbp, Hcl. cbn [mbind res_bind]. do 3 eexists. split; [done |].
      cbn. by rewrite app_nil_r.
    + destruct (qwrite_loop_ok (S (length p)) q p 0) as (o & q' & He & Ho); [done.. | lia | lia |].
      rewrite He. cbn [mbind res_bind]. do 3 eexists. split; [done |].
      apply Hgv; [by eapply keeps_write |]. destruct o as [k|e|k]; [| done |].
      * by destruct Ho as [_ Hg].
      * destruct Ho as [_ Hg]. by rewrite Z.sub_0_r in Hg.
Qed.

(** C16: a queue is a byte stream.  Over any sequence of reads and writes, by any of
    the routines, on a queue that is not a message queue: the bytes handed out,
    followed by those still queued, are those queued at the start followed by the
    bytes accepted.  Nothing is lost, duplicated, reordered or made up, no routine
    reads or writes outside a block, and [len] and [dlen] stay exact. *)
Theorem queue_is_a_stream ops q :
  stream q → Forall op_ok ops →
  ∃ i o q', execs ops q = Ok (i, o, q') ∧ stream q' ∧ bytes q ++ i = o ++ bytes q'.
Proof.
  intros Hst Hops. revert q Hst. induction Hops as [|op ops Hop _ IH]; intros q Hst; cbn [execs].
  { do 3 eexists. split_and!; [done | done |]. by rewrite app_nil_r. }
  destruct (exec_ok op q Hst Hop) as (i & o & q1 & -> & Hst1 & H1). cbn [mbind res_bind].
  destruct (IH q1 Hst1) as (i' & o' & q2 & -> & Hst2 & H2). cbn [mbind res_bind].
  do 3 eexists. split_and!; [done | done |]. by rewrite app_assoc, H1, <- !app_assoc, H2.
Qed.

(** A read returns what was first in the queue.  qread gives at most [n] bytes,
    its count is their number, and it reports end of file, an error or a wait only
    when the queue holds no bytes; qbread gives one block of at most [n] bytes. *)
Theorem reads_in_order q n :
  q_ok q → has q Qmsg = false → 0 ≤ n →
  (∃ o q', qread Ehungup q n = Ok (o, q') ∧
     read_outcome q o q' (λ '(k, d), k = len d ∧ k ≤ n ∧ takes q d q')) ∧
  (∃ o q', qbread headroom blockalign Ehungup q n = Ok (o, q') ∧
     read_outcome q o q' (λ ob,
       match ob with
       | None => bytes q = [] ∧ takes q [] q'
       | Some b => block_ok b ∧ BLEN b ≤ n ∧ takes q (data b) q'
       end)).
Proof.
  intros Hok Hmsg Hn. split; [| by apply qbread_ok]. apply qread_loop_ok; [done.. | lia].
Qed.

End Blocks.

(** ** Witnesses, with 64 bytes of headroom and 8-byte alignment *)

Definition blk (l : list Z) : Block := mkBlock (replicate 64 0 ++ l ++ [0; 0]) 64 (64 + len l).

Lemma chain_surgery_witness :
  ∃ b r, pullupblock (λ _, 64) 8 [blk [1; 2]; blk [3; 4]] 3 = Ok (b :: r) ∧ 3 ≤ BLEN b.
Proof.
  destruct (chain_surgery (λ _, 64) 8 ltac:(done) ltac:(done) [blk [1; 2]; blk [3; 4]] 3 1)
    as (H & _ & _); [by_decide | done | done |].
  rewrite decide_False in H by done. destruct H as (b & r & H1 & _ & _ & H2). by exists b, r.
Defined.

Lemma chain_copies_witness :
  ∃ c, copyblock (λ _, 64) 8 [blk [1; 2]; blk [3]] 5 = Ok c ∧ data c = [1; 2; 3; 0; 0].
Proof.
  destruct (chain_copies (λ _, 64) 8 ltac:(done) ltac:(done) [blk [1; 2]; blk [3]] (blk []) 5 [])
    as (_ & (c & H1 & _ & H2) & _); [by_decide | done | by_decide | done |].
  exists c. split; [exact H1 | exact H2].
Defined.

Lemma qopen_stream limit : stream (qopen limit 0).
Proof. by split_and!; [split; [by_decide | |] | | |]. Qed.

Lemma queue_is_a_stream_witness :
  ∃ i o q', execs (λ _, 64) 8 [] [Owrite [1; 2; 3]; Oread 2; Oproduce true [4]; Oget] (qopen 100 0)
              = Ok (i, o, q') ∧ stream q' ∧ [] ++ i = o ++ contents (q_blocks q').
Proof.
  apply (queue_is_a_stream (λ _, 64) 8); [done | done | apply qopen_stream |].
  repeat constructor; done.
Defined.

Lemma reads_in_order_witness :
  let q := qaddlist (qopen 100 0) [blk [1; 2]; blk [3]] in
  ∃ o q', qread [] q 1 = Ok (o, q') ∧
    read_outcome q o q' (λ '(k, d), k = len d ∧ k ≤ 1 ∧ takes q d q').
Proof.
  intros q. apply (reads_in_order (λ _, 64) 8); [done | done | | done | done].
  split; [by_decide | reflexivity | reflexivity].
Defined.


(** qpassnolim on a closed queue frees the chain before reading its size. *)
Example qpassnolim_closed :
  qpassnolim (qclose [] (qopen 100 0)) [blk [1]] = Ub.
Proof. reflexivity. Qed.

(** qconsume of a queue that holds only an empty block takes it off the queue and
    frees nothing. *)
Example qconsume_leak :
  match qconsume (qaddlist (qopen 100 0) [blk []]) 1 with
  | Ok (od, q', freed, _) => od = None ∧ q_blocks q' = [] ∧ freed = []
  | _ => False
  end.
Proof. vm_compute. done. Qed.

(** With a limit of 1 a writer put to sleep is not woken when the queue is emptied. *)
Example tiny_limit_stalls :
  let q := (qbwrite (qopen 1 0) (blk [1])).2 in
  has q Qflow = true ∧ let '(_, q', w) := qget q in w = false ∧ q_blocks q' = [].
Proof. vm_compute. done. Qed.
