(* ===== verification/Qlock.v ===== *)
(** * Qlock: queueing locks of the kernel

    sys/src/9/port/qlock.c.  The waiting list is kept as the code keeps it, threaded
    through [qnext] of the waiting processes from [head] to [tail].  Every routine runs
    with the spin lock [use] held, up to its call of sched, so is one step.  ready(p)
    makes a waiting process runnable: it continues as the holder of the lock. *)

From S2P Require Import Prelude.

Abbreviation pid := positive.

Inductive pstate : Type := Running | Queueing | QueueingR | QueueingW.

#[export] Instance pstate_eq_dec : EqDecision pstate.
Proof. solve_decision. Defined.

Record Proc : Type := mkProc { p_state : pstate; p_qnext : option pid }.

Abbreviation procs := (gmap pid Proc).

(** [up->state = s; up->qnext = 0] *)
Definition setproc (ps : procs) (p : pid) (s : pstate) (n : option pid) : procs :=
  <[p := mkProc s n]> ps.

Definition setqnext (ps : procs) (p : pid) (n : option pid) : procs :=
  alter (λ r, mkProc (p_state r) n) p ps.

Definition qnext (ps : procs) (p : pid) : option pid := ps !! p ≫= p_qnext.

(** ready(p) *)
Definition ready (ps : procs) (p : pid) : procs :=
  alter (λ r, mkProc Running (p_qnext r)) p ps.

(** ** The waiting list, common to both locks *)

Record waitq : Type := mkWaitq { w_head : option pid; w_tail : option pid }.

(** [p = q->tail; if(p == 0) q->head = up; else p->qnext = up; q->tail = up; ...] *)
Definition enqueue (w : waitq) (ps : procs) (up : pid) (s : pstate) : waitq * procs :=
  match w_tail w with
  | None => (mkWaitq (Some up) (Some up), setproc ps up s None)
  | Some p => (mkWaitq (w_head w) (Some up), setproc (setqnext ps p (Some up)) up s None)
  end.

(** [q->head = p->qnext; if(q->head == 0) q->tail = 0;] *)
Definition dequeue (w : waitq) (ps : procs) (p : pid) : waitq :=
  let h := qnext ps p in mkWaitq h (match h with None => None | Some _ => w_tail w end).

(** ** QLock *)

Record QLock : Type := mkQLock { ql_wait : waitq; ql_locked : bool }.

(** [true]: returned with the lock; [false]: queued and asleep. *)
Definition qlock (q : QLock) (ps : procs) (up : pid) : QLock * procs * bool :=
  if ql_locked q then
    let '(w, ps) := enqueue (ql_wait q) ps up Queueing in (mkQLock w true, ps, false)
  else (mkQLock (ql_wait q) true, ps, true).

(** [spin]: whether canlock got [q->use]. *)
Definition canqlock (q : QLock) (spin : bool) : QLock * bool :=
  if negb spin then (q, false) else
  if ql_locked q then (q, false) else (mkQLock (ql_wait q) true, true).

(** The process made ready, if any. *)
Definition qunlock (q : QLock) (ps : procs) : QLock * procs * option pid :=
  match w_head (ql_wait q) with
  | Some p => (mkQLock (dequeue (ql_wait q) ps p) (ql_locked q), ready ps p, Some p)
  | None => (mkQLock (ql_wait q) false, ps, None)
  end.

(** ** RWlock *)

Record RWlock : Type := mkRWlock { rw_wait : waitq; rw_readers : Z; rw_writer : bool }.

Definition rlock (q : RWlock) (ps : procs) (up : pid) : RWlock * procs * bool :=
  if negb (rw_writer q) && bool_decide (w_head (rw_wait q) = None)
  then (mkRWlock (rw_wait q) (rw_readers q + 1) (rw_writer q), ps, true)
  else let '(w, ps) := enqueue (rw_wait q) ps up QueueingR in
       (mkRWlock w (rw_readers q) (rw_writer q), ps, false).

Definition canrlock (q : RWlock) : RWlock * bool :=
  if negb (rw_writer q) && bool_decide (w_head (rw_wait q) = None)
  then (mkRWlock (rw_wait q) (rw_readers q + 1) (rw_writer q), true) else (q, false).

Definition statep (ps : procs) (p : pid) : option pstate := p_state <$> ps !! p.

(** [Err] is panic. *)
Definition runlock (q : RWlock) (ps : procs) : res (RWlock * procs * option pid) :=
  let r := rw_readers q - 1 in
  match w_head (rw_wait q) with
  | None => Ok (mkRWlock (rw_wait q) r (rw_writer q), ps, None)
  | Some p =>
      if decide (r > 0) then Ok (mkRWlock (rw_wait q) r (rw_writer q), ps, None) else
      if decide (statep ps p ≠ Some QueueingW) then Err else
      Ok (mkRWlock (dequeue (rw_wait q) ps p) r true, ready ps p, Some p)
  end.

Definition wlock (q : RWlock) (ps : procs) (up : pid) : RWlock * procs * bool :=
  if bool_decide (rw_readers q = 0) && negb (rw_writer q)
  then (mkRWlock (rw_wait q) (rw_readers q) true, ps, true)
  else let '(w, ps) := enqueue (rw_wait q) ps up QueueingW in
       (mkRWlock w (rw_readers q) (rw_writer q), ps, false).

(** [while(q->head != nil && q->head->state == QueueingR)]: the readers woken. *)
Fixpoint wake_readers (fuel : nat) (h : option pid) (ps : procs) (readers : Z) :
    res (option pid * procs * Z * list pid) :=
  match fuel with
  | O => Ub
  | S fuel =>
      match h with
      | Some p =>
          if decide (statep ps p = Some QueueingR) then
            '(h, ps, readers, woken) ← wake_readers fuel (qnext ps p) (ready ps p) (readers + 1);
            Ok (h, ps, readers, p :: woken)
          else Ok (h, ps, readers, [])
      | None => Ok (h, ps, readers, [])
      end
  end.

Definition wunlock (q : RWlock) (ps : procs) : res (RWlock * procs * list pid) :=
  match w_head (rw_wait q) with
  | None => Ok (mkRWlock (rw_wait q) (rw_readers q) false, ps, [])
  | Some p =>
      if decide (statep ps p = Some QueueingW) then
        Ok (mkRWlock (dequeue (rw_wait q) ps p) (rw_readers q) (rw_writer q), ready ps p, [p])
      else if decide (statep ps p ≠ Some QueueingR) then Err else
        '(h, ps, readers, woken) ←
          wake_readers (S (size ps)) (w_head (rw_wait q)) ps (rw_readers q);
        Ok (mkRWlock (mkWaitq h (match h with None => None | Some _ => w_tail (rw_wait q) end))
              readers false, ps, woken)
  end.

(** ** The waiting list represents a sequence *)

(** [q] is threaded through [qnext] from [head] to [tail]. *)
Fixpoint threaded (ps : procs) (q : list pid) : Prop :=
  match q with
  | [] => True
  | p :: q => qnext ps p = head q ∧ threaded ps q
  end.

Record represents (w : waitq) (ps : procs) (q : list pid) : Prop := {
  rp_head : w_head w = head q;
  rp_tail : w_tail w = list.last q;
  rp_thread : threaded ps q;
  rp_nodup : NoDup q;
  rp_live : Forall (λ p, is_Some (ps !! p)) q
}.

Lemma threaded_ext ps ps' q :
  (∀ p, p ∈ q → qnext ps' p = qnext ps p) → threaded ps q → threaded ps' q.
Proof.
  induction q as [|p q IH]; intros He; [done |]. intros [H1 H2].
  split; [rewrite He by set_solver; done |]. apply IH; [set_solver | done].
Qed.

Lemma qnext_setqnext_ne ps p p' n : p ≠ p' → qnext (setqnext ps p n) p' = qnext ps p'.
Proof. intros. unfold qnext, setqnext. by rewrite lookup_alter_ne. Qed.

Lemma qnext_setproc_ne ps p p' s n : p ≠ p' → qnext (setproc ps p s n) p' = qnext ps p'.
Proof. intros. unfold qnext, setproc. by rewrite lookup_insert_ne. Qed.

Lemma qnext_ready ps p p' : qnext (ready ps p) p' = qnext ps p'.
Proof.
  unfold qnext, ready. destruct (decide (p = p')) as [->|Hne].
  - rewrite lookup_alter_eq. by destruct (ps !! p').
  - by rewrite lookup_alter_ne.
Qed.

Lemma threaded_snoc ps q p up s :
  threaded ps (q ++ [p]) → NoDup (q ++ [p]) → is_Some (ps !! p) → (up ∉ q ++ [p]) →
  threaded (setproc (setqnext ps p (Some up)) up s None) (q ++ [p; up]).
Proof.
  intros Ht Hnd Hp Hup. induction q as [|x q IH]; cbn in *.
  - split_and!; [| | done].
    + rewrite qnext_setproc_ne by set_solver. unfold qnext, setqnext.
      rewrite lookup_alter_eq. by destruct Hp as [r ->].
    + unfold qnext, setproc. by rewrite lookup_insert_eq.
  - destruct Ht as [Hx Ht]. apply list.NoDup_cons in Hnd as [Hxn Hnd]. split.
    + rewrite qnext_setproc_ne, qnext_setqnext_ne by set_solver. rewrite Hx. by destruct q.
    + apply IH; [done | done | set_solver].
Qed.

Lemma enqueue_represents w ps q up s :
  represents w ps q → (up ∉ q) →
  ∃ w' ps', enqueue w ps up s = (w', ps') ∧ represents w' ps' (q ++ [up]) ∧
    statep ps' up = Some s ∧ (∀ p, p ≠ up → statep ps' p = statep ps p).
Proof.
  intros [Hh Ht Hth Hnd Hl] Hup. unfold enqueue. rewrite Ht.
  destruct q as [|p q _] using rev_ind.
  - do 2 eexists. split; [done |]. split; [| split].
    + split; cbn; [done | done | | by apply NoDup_singleton | ].
      * split; [| done]. unfold qnext, setproc. by rewrite lookup_insert_eq.
      * constructor; [| constructor]. unfold setproc. rewrite lookup_insert_eq. by eexists.
    + unfold statep, setproc. by rewrite lookup_insert_eq.
    + intros p Hp. unfold statep, setproc. by rewrite lookup_insert_ne.
  - rewrite last_snoc. do 2 eexists. split; [done |].
    apply Forall_app in Hl as [Hlq Hlp]. apply Forall_cons_iff in Hlp as [Hlp _].
    assert (p ≠ up) as Hpu by set_solver. rewrite <- app_assoc. cbn [app]. split; [| split].
    + split; cbn.
      * rewrite Hh. by destruct q.
      * by rewrite last_app.
      * by apply threaded_snoc.
      * change [p; up] with ([p] ++ [up]). rewrite app_assoc. apply list.NoDup_app.
        split_and!; [done | set_solver | apply NoDup_singleton].
      * unfold setproc, setqnext. apply Forall_app. split.
        -- revert Hlq. apply Forall_impl. intros x Hx. destruct (decide (x = up)) as [->|]; [rewrite lookup_insert_eq; by eexists |].
           rewrite lookup_insert_ne by done. destruct (decide (x = p)) as [->|].
           ++ rewrite lookup_alter_eq. destruct Hx as [r ->]. by eexists.
           ++ by rewrite lookup_alter_ne.
        -- repeat constructor.
           ++ rewrite lookup_insert_ne, lookup_alter_eq by done. destruct Hlp as [r ->]. by eexists.
           ++ rewrite lookup_insert_eq. by eexists.
    + unfold statep, setproc. by rewrite lookup_insert_eq.
    + intros x Hx. unfold statep, setproc, setqnext. rewrite lookup_insert_ne by done.
      destruct (decide (x = p)) as [->|]; [| by rewrite lookup_alter_ne].
      rewrite lookup_alter_eq. by destruct Hlp as [r ->].
Qed.

Lemma dequeue_represents w ps p q :
  represents w ps (p :: q) →
  represents (dequeue w ps p) (ready ps p) q ∧ w_head w = Some p ∧ (p ∉ q) ∧
  statep (ready ps p) p = Some Running ∧ (∀ x, x ≠ p → statep (ready ps p) x = statep ps x).
Proof.
  intros [Hh Ht [Hp Hth] [Hpq Hnd]%list.NoDup_cons Hl]. apply Forall_cons_iff in Hl as [Hlp Hl].
  split_and!; [| done | done | |].
  - unfold dequeue. rewrite Hp. split; cbn.
    + done.
    + rewrite Ht. by destruct q.
    + eapply threaded_ext; [| exact Hth]. intros. apply qnext_ready.
    + done.
    + revert Hl. apply Forall_impl. intros x [r Hr]. unfold ready.
      destruct (decide (p = x)) as [->|]; [rewrite lookup_alter_eq, Hr; by eexists |].
      rewrite lookup_alter_ne, Hr by done. by eexists.
  - unfold statep, ready. rewrite lookup_alter_eq. by destruct Hlp as [r ->].
  - intros x Hx. unfold statep, ready. by rewrite lookup_alter_ne.
Qed.

(** ** QLock: the system, its specification, and the simulation *)

(** The lock, the processes, and who has been given the lock and not released it. *)
Record QSys : Type := mkQSys { y_lock : QLock; y_procs : procs; y_held : list pid }.

Inductive qstep : QSys → QSys → Prop :=
  | step_qlock s up q ps b :
      statep (y_procs s) up = Some Running → (up ∉ y_held s) →
      qlock (y_lock s) (y_procs s) up = (q, ps, b) →
      qstep s (mkQSys q ps (if b : bool then up :: y_held s else y_held s))
  | step_canqlock s up spin q b :
      statep (y_procs s) up = Some Running → (up ∉ y_held s) →
      canqlock (y_lock s) spin = (q, b) →
      qstep s (mkQSys q (y_procs s) (if b : bool then up :: y_held s else y_held s))
  | step_qunlock s up q ps r :
      up ∈ y_held s → qunlock (y_lock s) (y_procs s) = (q, ps, r) →
      qstep s (mkQSys q ps (option_list r ++ filter (λ p, p ≠ up) (y_held s))).

(** A fair lock: one holder, the others in order of arrival. *)
Record fair : Type := mkFair { a_holder : option pid; a_waiting : list pid }.

Inductive fair_step : fair → fair → Prop :=
  | fair_take up : fair_step (mkFair None []) (mkFair (Some up) [])
  | fair_wait h ws up : fair_step (mkFair (Some h) ws) (mkFair (Some h) (ws ++ [up]))
  | fair_fail a : fair_step a a
  | fair_pass up p ws : fair_step (mkFair (Some up) (p :: ws)) (mkFair (Some p) ws)
  | fair_drop up : fair_step (mkFair (Some up) []) (mkFair None []).

Record implements (s : QSys) (a : fair) : Prop := {
  im_held : y_held s = option_list (a_holder a);
  im_locked : ql_locked (y_lock s) = bool_decide (a_holder a ≠ None);
  im_free : a_holder a = None → a_waiting a = [];
  im_wait : represents (ql_wait (y_lock s)) (y_procs s) (a_waiting a);
  im_asleep : Forall (λ p, statep (y_procs s) p = Some Queueing) (a_waiting a);
  im_awake : ∀ h, a_holder a = Some h → statep (y_procs s) h = Some Running
}.

Lemma asleep_ext ps ps' s (l : list pid) up :
  (∀ p, p ≠ up → statep ps' p = statep ps p) → (up ∉ l) →
  Forall (λ p, statep ps p = Some s) l → Forall (λ p, statep ps' p = Some s) l.
Proof.
  intros He Hup Hl. rewrite list.Forall_forall in *. intros p Hp. rewrite He by set_solver. auto.
Qed.

Lemma running_not_waiting ps s (l : list pid) up :
  statep ps up = Some Running → s ≠ Running → Forall (λ p, statep ps p = Some s) l → (up ∉ l).
Proof. intros Hr Hs Hl Hin. rewrite list.Forall_forall in Hl. specialize (Hl _ Hin). congruence. Qed.

Lemma qstep_simulates s s' a :
  implements s a → qstep s s' → ∃ a', fair_step a a' ∧ implements s' a'.
Proof.
  intros [Hheld Hlk Hfree Hrep Hsl Haw] Hstep. destruct a as [h ws]. cbn in *.
  destruct Hstep as [s up q ps b Hrun Hnin He | s up spin q b Hrun Hnin He | s up q ps r Hin He].
  - unfold qlock in He. rewrite Hlk in He. case_bool_decide as Hh.
    + destruct h as [h|]; [| done].
      assert (up ∉ ws) as Hws by by apply (running_not_waiting (y_procs s) Queueing).
      destruct (enqueue_represents _ _ _ up Queueing Hrep Hws) as (w & ps' & Hen & Hr' & Hs1 & Hs2).
      rewrite Hen in He. injection He as <- <- <-. exists (mkFair (Some h) (ws ++ [up])).
      split; [constructor |]. split; cbn; [done | done | done | done | |].
      * apply Forall_app. split; [by eapply asleep_ext | by repeat constructor].
      * intros h' [= <-]. rewrite Hs2; [by apply Haw |]. intros ->. apply Hnin. rewrite Hheld. by left.
    + destruct h as [h|]; [done |]. specialize (Hfree eq_refl). subst ws.
      injection He as <- <- <-. exists (mkFair (Some up) []). split; [constructor |].
      split; cbn; [by rewrite Hheld | done | done | done | done |]. by intros ? [= <-].
  - unfold canqlock in He. destruct spin; cbn in He.
    2: { injection He as <- <-. exists (mkFair h ws). split; [constructor |]. by split. }
    rewrite Hlk in He. case_bool_decide as Hh; injection He as <- <-.
    + exists (mkFair h ws). split; [constructor |]. split; cbn; try done.
      rewrite Hlk. by rewrite bool_decide_true.
    + destruct h as [h|]; [done |]. specialize (Hfree eq_refl). subst ws.
      exists (mkFair (Some up) []). split; [constructor |].
      split; cbn; [by rewrite Hheld | done | done | done | done |]. by intros ? [= <-].
  - rewrite Hheld in Hin. destruct h as [h|]; [| by apply elem_of_nil in Hin].
    cbn in Hin. apply list_elem_of_singleton in Hin as ->.
    assert (filter (λ p, p ≠ h) (y_held s) = []) as ->.
    { rewrite Hheld. cbn. by rewrite decide_False by (intros Hn; by apply Hn). }
    unfold qunlock in He. destruct ws as [|p ws].
    + rewrite (rp_head _ _ _ Hrep) in He. cbn in He. injection He as <- <- <-.
      exists (mkFair None []). split; [constructor |]. by split.
    + destruct (dequeue_represents _ _ _ _ Hrep) as (Hr' & Hhd & Hpn & Hs1 & Hs2).
      rewrite Hhd in He. injection He as <- <- <-. exists (mkFair (Some p) ws).
      split; [constructor |]. apply Forall_cons_iff in Hsl as [_ Hsl].
      split; cbn; [done | by rewrite Hlk | done | done | |].
      * by eapply asleep_ext.
      * by intros ? [= <-].
Qed.

Definition qsys0 (ps : procs) : QSys := mkQSys (mkQLock (mkWaitq None None) false) ps [].



(** ** RWlock *)

(** The lock, the processes, and those reading and writing. *)
Record RWSys : Type := mkRWSys { z_lock : RWlock; z_procs : procs; z_r : list pid; z_w : list pid }.

(** An outcome: the new state, or a panic. *)
Inductive rwstep : RWSys → res RWSys → Prop :=
  | step_rlock s up q ps b :
      statep (z_procs s) up = Some Running → (up ∉ z_r s ++ z_w s) →
      rlock (z_lock s) (z_procs s) up = (q, ps, b) →
      rwstep s (Ok (mkRWSys q ps (if b : bool then up :: z_r s else z_r s) (z_w s)))
  | step_canrlock s up q b :
      statep (z_procs s) up = Some Running → (up ∉ z_r s ++ z_w s) →
      canrlock (z_lock s) = (q, b) →
      rwstep s (Ok (mkRWSys q (z_procs s) (if b : bool then up :: z_r s else z_r s) (z_w s)))
  | step_wlock s up q ps b :
      statep (z_procs s) up = Some Running → (up ∉ z_r s ++ z_w s) →
      wlock (z_lock s) (z_procs s) up = (q, ps, b) →
      rwstep s (Ok (mkRWSys q ps (z_r s) (if b : bool then up :: z_w s else z_w s)))
  | step_runlock s up :
      up ∈ z_r s →
      rwstep s ('(q, ps, r) ← runlock (z_lock s) (z_procs s);
                Ok (mkRWSys q ps (filter (λ p, p ≠ up) (z_r s)) (option_list r ++ z_w s)))
  | step_wunlock s up :
      up ∈ z_w s →
      rwstep s ('(q, ps, l) ← wunlock (z_lock s) (z_procs s);
                Ok (if decide (statep (z_procs s) <$> head l = Some (Some QueueingW))
                    then mkRWSys q ps (z_r s) (l ++ filter (λ p, p ≠ up) (z_w s))
                    else mkRWSys q ps (l ++ z_r s) (filter (λ p, p ≠ up) (z_w s)))).

(** How a waiting process waits. *)
Definition wants (ps : procs) (p : pid) : Prop :=
  statep ps p = Some QueueingR ∨ statep ps p = Some QueueingW.

Record rw_ok (s : RWSys) (q : list pid) : Prop := {
  rk_readers : rw_readers (z_lock s) = Z.of_nat (length (z_r s));
  rk_writer : rw_writer (z_lock s) = bool_decide (z_w s ≠ []);
  rk_one : (length (z_w s) ≤ 1)%nat;
  rk_excl : z_w s ≠ [] → z_r s = [];
  rk_nodup : NoDup (z_r s);
  rk_wait : represents (rw_wait (z_lock s)) (z_procs s) q;
  rk_wants : Forall (wants (z_procs s)) q;
  rk_awake : Forall (λ p, statep (z_procs s) p = Some Running) (z_r s ++ z_w s);
  rk_busy : q ≠ [] → z_r s ++ z_w s ≠ [];
  rk_turn : z_r s ≠ [] → ∀ p, head q = Some p → statep (z_procs s) p = Some QueueingW
}.

Lemma running_not_wanting ps (l : list pid) up :
  statep ps up = Some Running → Forall (wants ps) l → (up ∉ l).
Proof.
  intros Hr Hl Hin. rewrite list.Forall_forall in Hl. destruct (Hl _ Hin); congruence.
Qed.

Lemma wants_ext ps ps' (l : list pid) up :
  (∀ p, p ≠ up → statep ps' p = statep ps p) → (up ∉ l) →
  Forall (wants ps) l → Forall (wants ps') l.
Proof.
  intros He Hup Hl. rewrite list.Forall_forall in *. intros p Hp. unfold wants.
  rewrite He by set_solver. by apply Hl.
Qed.

(** A process joins the waiting list. *)
Lemma rw_enqueue s q up st :
  rw_ok s q → statep (z_procs s) up = Some Running → (up ∉ z_r s ++ z_w s) →
  st = QueueingR ∨ st = QueueingW → z_r s ++ z_w s ≠ [] →
  (z_r s ≠ [] → q = [] → st = QueueingW) →
  ∃ w ps, enqueue (rw_wait (z_lock s)) (z_procs s) up st = (w, ps) ∧
    rw_ok (mkRWSys (mkRWlock w (rw_readers (z_lock s)) (rw_writer (z_lock s))) ps (z_r s) (z_w s))
      (q ++ [up]).
Proof.
  intros [Hrd Hwr Hone Hex Hnd Hrep Hwants Haw Hbusy Hturn] Hrun Hnin Hst Hne Hfirst.
  assert (up ∉ q) as Hq by by eapply running_not_wanting.
  destruct (enqueue_represents _ _ _ up st Hrep Hq) as (w & ps & -> & Hr' & Hs1 & Hs2).
  exists w, ps. split; [done |]. split; cbn; try done.
  - apply Forall_app. split; [by eapply wants_ext |]. constructor; [| constructor].
    unfold wants. rewrite Hs1. by destruct Hst as [-> | ->]; [left | right].
  - by eapply asleep_ext.
  - intros Hz p Hp. destruct q as [|x q]; cbn in Hp; injection Hp as <-.
    + rewrite Hs1. f_equal. by apply Hfirst.
    + rewrite Hs2 by set_solver. by apply Hturn.
Qed.

Lemma length_waiting w ps q : represents w ps q → (length q ≤ size ps)%nat.
Proof.
  intros [_ _ _ Hnd Hl]. rewrite <- size_dom. rewrite <- (size_list_to_set (C := gset pid) q Hnd).
  apply subseteq_size. intros p Hp. apply elem_of_list_to_set in Hp.
  rewrite list.Forall_forall in Hl. by apply elem_of_dom, Hl.
Qed.

Lemma wake_readers_spec fuel q ps readers w :
  represents w ps q → Forall (wants ps) q → (length q < fuel)%nat →
  ∃ woken q' ps', wake_readers fuel (head q) ps readers =
      Ok (head q', ps', readers + Z.of_nat (length woken), woken) ∧
    q = woken ++ q' ∧ represents (mkWaitq (head q') (list.last q')) ps' q' ∧
    Forall (λ p, statep ps' p = Some Running) woken ∧
    (∀ p, (p ∉ woken) → statep ps' p = statep ps p) ∧
    (∀ p, head q' = Some p → statep ps' p = Some QueueingW) ∧
    (∀ p, head q = Some p → statep ps p = Some QueueingR → woken ≠ []).
Proof.
  revert q ps readers w. induction fuel as [|fuel IH]; intros q ps readers w Hrep Hwant Hf; [lia |].
  destruct q as [|p q]; cbn [head wake_readers].
  { exists [], [], ps. cbn. rewrite Z.add_0_r.
    split_and!; try done. split; cbn; [done | done | done | apply NoDup_nil_2 | constructor]. }
  apply Forall_cons_iff in Hwant as [Hp Hwant]. case_decide as Hst.
  - destruct (dequeue_represents _ _ _ _ Hrep) as (Hr' & _ & Hpq & Hs1 & Hs2).
    assert (qnext ps p = head q) as -> by apply Hrep.
    destruct (IH q (ready ps p) (readers + 1) _ Hr') as
      (woken & q' & ps' & -> & -> & Hr2 & Hw1 & Hw2 & Hw3 & _);
      [by eapply wants_ext | cbn in Hf; lia |].
    cbn [mbind res_bind]. exists (p :: woken), q', ps'. split_and!; try done.
    + by replace (readers + 1 + Z.of_nat (length woken)) with (readers + Z.of_nat (length (p :: woken)))
        by (cbn [length]; lia).
    + constructor; [| done]. rewrite Hw2 by set_solver. done.
    + intros x Hx. rewrite Hw2 by set_solver. apply Hs2. set_solver.
  - exists [], (p :: q), ps. cbn [length app]. rewrite Z.add_0_r. split_and!; try done.
    + destruct Hrep as [H1 H2 H3 H4 H5]. by split.
    + intros x [= <-]. by destruct Hp.
    + by intros x [= <-].
Qed.

Lemma rw_join s q up :
  rw_ok s q → statep (z_procs s) up = Some Running → (up ∉ z_r s ++ z_w s) →
  rw_writer (z_lock s) = false → w_head (rw_wait (z_lock s)) = None →
  rw_ok (mkRWSys (mkRWlock (rw_wait (z_lock s)) (rw_readers (z_lock s) + 1) (rw_writer (z_lock s)))
           (z_procs s) (up :: z_r s) (z_w s)) q.
Proof.
  intros [Hrd Hwr Hone Hex Hnd Hrep Hwants Haw Hbusy Hturn] Hrun Hnin Hw Hh.
  assert (z_w s = []) as Hzw by (rewrite Hwr in Hw; by apply bool_decide_eq_false, dec_stable in Hw).
  rewrite (rp_head _ _ _ Hrep) in Hh.
  split; cbn; try done.
  - lia.
  - apply list.NoDup_cons. split; [set_solver | done].
  - by constructor.
  - intros _ p Hp. congruence.
Qed.

(** Removing a process from a list. *)
Lemma filter_ne_notin (l : list pid) up : (up ∉ l) → filter (λ p, p ≠ up) l = l.
Proof.
  induction l as [|x l IH]; intros Hn; [done |]. rewrite filter_cons_True by set_solver.
  f_equal. apply IH. set_solver.
Qed.

Lemma length_filter_ne (l : list pid) up :
  NoDup l → up ∈ l → length l = S (length (filter (λ p, p ≠ up) l)).
Proof.
  induction 1 as [|x l Hx Hnd IH]; intros Hin; [by apply elem_of_nil in Hin |].
  apply elem_of_cons in Hin as [->|Hin].
  - rewrite filter_cons_False by (intros Hn; by apply Hn). by rewrite filter_ne_notin.
  - rewrite filter_cons_True by (intros ->; done). cbn [length]. by rewrite <- IH.
Qed.

Lemma Forall_filter_ne (P : pid → Prop) (l : list pid) up :
  Forall P l → Forall P (filter (λ p, p ≠ up) l).
Proof.
  rewrite !list.Forall_forall. intros Hl x Hx. apply Hl. by apply list_elem_of_filter in Hx as [_ ?].
Qed.

(** The last reader leaves: a waiting writer is next. *)
Lemma rw_runlock s q up :
  rw_ok s q → up ∈ z_r s →
  ∃ l ps r q', runlock (z_lock s) (z_procs s) = Ok (l, ps, r) ∧
    rw_ok (mkRWSys l ps (filter (λ p, p ≠ up) (z_r s)) (option_list r ++ z_w s)) q'.
Proof.
  intros [Hrd Hwr Hone Hex Hnd Hrep Hwants Haw Hbusy Hturn] Hin. unfold runlock.
  assert (z_w s = []) as Hzw.
  { apply dec_stable. intros Hz. rewrite (Hex Hz) in Hin. by apply elem_of_nil in Hin. }
  rewrite Hzw in *. rewrite app_nil_r in Haw.
  assert (Z.of_nat (length (filter (λ p, p ≠ up) (z_r s))) = rw_readers (z_lock s) - 1) as Hlen.
  { rewrite Hrd. pose proof (length_filter_ne (z_r s) up Hnd Hin). lia. }
  assert (Forall (λ p, statep (z_procs s) p = Some Running) (filter (λ p, p ≠ up) (z_r s))) as Haw'
    by by apply Forall_filter_ne.
  assert (NoDup (filter (λ p, p ≠ up) (z_r s))) as Hnd' by by apply list.NoDup_filter.
  rewrite (rp_head _ _ _ Hrep). destruct q as [|p q]; cbn [head].
  { exists (mkRWlock (rw_wait (z_lock s)) (rw_readers (z_lock s) - 1) (rw_writer (z_lock s))),
      (z_procs s), None, []. split; [done |]. split; cbn; rewrite ?Hzw, ?app_nil_r; try done; lia. }
  assert (z_r s ≠ []) as Hzr by (intros Hz; rewrite Hz in Hin; by apply elem_of_nil in Hin).
  specialize (Hturn Hzr p eq_refl) as Hpw. case_decide as Hpos.
  { do 2 eexists. exists None, (p :: q). split; [done |].
    split; cbn; rewrite ?Hzw, ?app_nil_r; try done.
    - intros _ Hz. rewrite Hz in Hlen. cbn in Hlen. lia.
    - intros _ x [= <-]. done. }
  rewrite decide_False by (rewrite Hpw; intros Hn; by apply Hn).
  destruct (dequeue_represents _ _ _ _ Hrep) as (Hr' & _ & Hpq & Hs1 & Hs2).
  assert (filter (λ p, p ≠ up) (z_r s) = []) as Hnil.
  { apply length_zero_iff_nil. assert (rw_readers (z_lock s) > 0); [| lia].
    rewrite Hrd. destruct (z_r s); [done | cbn; lia]. }
  do 2 eexists. exists (Some p), q. split; [done |]. apply Forall_cons_iff in Hwants as [_ Hwants].
  split; cbn; rewrite ?Hnil, ?Hzw; cbn; try done.
  - rewrite <- Hlen, Hnil. done.
  - apply NoDup_nil_2.
  - by eapply wants_ext.
  - by repeat constructor.
Qed.

Lemma rw_wunlock s q up :
  rw_ok s q → up ∈ z_w s →
  ∃ l ps woken q', wunlock (z_lock s) (z_procs s) = Ok (l, ps, woken) ∧
    rw_ok (if decide (statep (z_procs s) <$> head woken = Some (Some QueueingW))
           then mkRWSys l ps (z_r s) (woken ++ filter (λ p, p ≠ up) (z_w s))
           else mkRWSys l ps (woken ++ z_r s) (filter (λ p, p ≠ up) (z_w s))) q'.
Proof.
  intros [Hrd Hwr Hone Hex Hnd Hrep Hwants Haw Hbusy Hturn] Hin. unfold wunlock.
  assert (z_w s ≠ []) as Hne by (intros Hz; rewrite Hz in Hin; by apply elem_of_nil in Hin).
  rewrite (Hex Hne) in *. cbn in Hrd.
  assert (filter (λ p, p ≠ up) (z_w s) = []) as ->.
  { destruct (z_w s) as [|x [|y l]]; [done | | cbn in Hone; lia].
    apply list_elem_of_singleton in Hin as ->. cbn. by rewrite decide_False by (intros Hn; by apply Hn). }
  rewrite bool_decide_true in Hwr by done.
  rewrite (rp_head _ _ _ Hrep). destruct q as [|p q]; cbn [head].
  { do 2 eexists. exists [], []. split; [done |]. cbn. rewrite decide_False by done.
    split; cbn; try done; lia. }
  pose proof Hwants as [Hp Hwants']%Forall_cons_iff. case_decide as Hst.
  - destruct (dequeue_represents _ _ _ _ Hrep) as (Hr' & _ & Hpq & Hs1 & Hs2).
    do 2 eexists. exists [p], q. split; [done |]. cbn. rewrite decide_True by (by f_equal).
    split; cbn; try done; [by eapply wants_ext |].
    by repeat constructor.
  - destruct Hp as [Hp|]; [| done]. rewrite decide_False by (rewrite Hp; intros Hn; by apply Hn).
    pose proof (length_waiting _ _ _ Hrep) as Hsz.
    destruct (wake_readers_spec (S (size (z_procs s))) (p :: q) (z_procs s) (rw_readers (z_lock s)) _
      Hrep Hwants) as (woken & q' & ps' & Hwk & Hq & Hr' & Hw1 & Hw2 & Hw3 & Hw4); [lia |].
    cbn [head] in Hwk. rewrite Hwk. cbn [mbind res_bind]. do 2 eexists. exists woken, q'.
    split; [done |]. specialize (Hw4 p eq_refl Hp).
    assert (head woken = Some p) as Hhd by (destruct woken; [done | by injection Hq as <- _]).
    rewrite Hhd. cbn. rewrite decide_False by (rewrite Hp; congruence).
    destruct Hrep as [_ Ht _ Hnodup _]. rewrite Hq in Hnodup, Hwants, Ht.
    apply list.NoDup_app in Hnodup as (Hnd1 & Hdis & Hnd2). apply Forall_app in Hwants as [_ Hwq].
    rewrite app_nil_r. split; cbn; try done.
    + lia.
    + lia.
    + destruct Hr' as [R1 R2 R3 R4 R5]. split; cbn; try done.
      rewrite Ht, last_app. destruct q' as [|x q']; cbn; [done |].
      destruct (list.last (x :: q')) eqn:E; [done | by apply last_None in E].
    + rewrite list.Forall_forall in *. intros x Hx. unfold wants. rewrite Hw2; [by apply Hwq |].
      intros Hxw. by apply (Hdis x).
    + by rewrite app_nil_r.
    + intros _. by rewrite app_nil_r.
Qed.

Lemma rwstep_ok s q o : rw_ok s q → rwstep s o → ∃ s' q', o = Ok s' ∧ rw_ok s' q'.
Proof.
  intros Hok Hstep. destruct Hstep as [s up l ps b Hrun Hnin He | s up l b Hrun Hnin He |
    s up l ps b Hrun Hnin He | s up Hin | s up Hin].
  - unfold rlock in He. destruct (negb _ && _) eqn:Hc.
    + injection He as <- <- <-. apply andb_true_iff in Hc as [Hw%negb_true_iff Hh%bool_decide_eq_true].
      do 2 eexists. split; [done |]. by apply rw_join.
    + destruct (rw_enqueue s q up QueueingR) as (w & ps' & Hen & Hok'); [done.. | by left | | |].
      * intros Hz. apply app_eq_nil in Hz as [Hz1 Hz2]. destruct Hok.
        rewrite rk_writer0, Hz2 in Hc. cbn in Hc. apply bool_decide_eq_false in Hc.
        rewrite (rp_head _ _ _ rk_wait0) in Hc. destruct q; [done |].
        by apply rk_busy0; [| rewrite Hz1, Hz2].
      * intros Hz ->. destruct Hok. exfalso.
        rewrite (rp_head _ _ _ rk_wait0) in Hc. cbn in Hc. rewrite andb_true_r in Hc.
        apply negb_false_iff in Hc. rewrite rk_writer0 in Hc. apply bool_decide_eq_true in Hc. auto.
      * rewrite Hen in He. injection He as <- <- <-. by do 2 eexists.
  - unfold canrlock in He. destruct (negb _ && _) eqn:Hc; injection He as <- <-.
    + apply andb_true_iff in Hc as [Hw%negb_true_iff Hh%bool_decide_eq_true].
      do 2 eexists. split; [done |]. by apply rw_join.
    + exists s, q. split; [by destruct s |]. done.
  - unfold wlock in He. destruct (bool_decide _ && _) eqn:Hc.
    + injection He as <- <- <-. apply andb_true_iff in Hc as [Hr%bool_decide_eq_true Hw%negb_true_iff].
      destruct Hok. assert (z_r s = []) as Hzr by (apply length_zero_iff_nil; lia).
      assert (z_w s = []) as Hzw by (rewrite rk_writer0 in Hw; by apply bool_decide_eq_false, dec_stable in Hw).
      assert (q = []) as -> by (apply dec_stable; intros Hq; apply (rk_busy0 Hq); by rewrite Hzr, Hzw).
      eexists. exists []. split; [done |].
      split; cbn; rewrite ?Hzr, ?Hzw in *; try done. by repeat constructor.
    + destruct (rw_enqueue s q up QueueingW) as (w & ps' & Hen & Hok'); [done.. | by right | | done |].
      * intros Hz. apply app_eq_nil in Hz as [Hz1 Hz2]. destruct Hok.
        rewrite rk_writer0, rk_readers0, Hz1, Hz2 in Hc. done.
      * rewrite Hen in He. injection He as <- <- <-. by do 2 eexists.
  - destruct (rw_runlock s q up Hok Hin) as (l & ps & r & q' & -> & Hok'). by do 2 eexists.
  - destruct (rw_wunlock s q up Hok Hin) as (l & ps & w & q' & -> & Hok'). cbn [mbind res_bind].
    by do 2 eexists.
Qed.

Definition rwsys0 (ps : procs) : RWSys := mkRWSys (mkRWlock (mkWaitq None None) 0 false) ps [] [].


