(* ===== verification/Avl.v ===== *)
(** * Avl: balanced search trees

    sys/src/libavl/avl.c.

    A node is the address of the struct Avl in its client's record; [cmp] is the client's
    comparison of two such records.  A tree is what hangs from one link: for every node its
    address, its parent pointer as stored, its balance and the trees of its two links.  A
    routine that takes the link [tp] returns the tree it leaves there.  Following a nil
    pointer is [Ub] and a failed assertion or abort [Err]. *)

From S2P Require Import Prelude.

Abbreviation addr := positive.

Inductive tree : Type :=
  | Nil
  | Node (p : option addr) (a : addr) (bal : Z) (l r : tree).

(** [if(t != nil) t->p = p] *)
Definition reparent (p : option addr) (t : tree) : tree :=
  match t with Nil => Nil | Node _ a b l r => Node p a b l r end.

Definition bal (t : tree) : res Z := match t with Nil => Ub | Node _ _ b _ _ => Ok b end.

(** ** Rotations *)

Definition singleleft (t : tree) (p : option addr) : res tree :=
  match t with
  | Node pa a ab al (Node _ c cb cl cr) =>
      let r2 := cb in
      let l := Z.max r2 0 + 1 - ab in
      let a' := Node (Some c) a (- l) al (reparent (Some a) cl) in
      Ok (Node p c (r2 - (Z.max l 0 + 1)) a' cr)
  | _ => Ub
  end.

Definition singleright (t : tree) (p : option addr) : res tree :=
  match t with
  | Node pa a ab (Node _ c cb cl cr) ar =>
      let l2 := - cb in
      let r := ab + (Z.max l2 0 + 1) in
      let a' := Node (Some c) a r (reparent (Some a) cr) ar in
      Ok (Node p c (Z.max r 0 + 1 - l2) cl a')
  | _ => Ub
  end.

Definition doublerightleft (t : tree) (p : option addr) : res tree :=
  match t with
  | Node pa a b l r => r ← singleright r (Some a); singleleft (Node pa a b l r) p
  | Nil => Ub
  end.

Definition doubleleftright (t : tree) (p : option addr) : res tree :=
  match t with
  | Node pa a b l r => l ← singleleft l (Some a); singleright (Node pa a b l r) p
  | Nil => Ub
  end.

Definition balance (t : tree) (p : option addr) : res tree :=
  match t with
  | Nil => Ub
  | Node _ _ b l r =>
      if decide (b = -2) then
        bl ← bal l;
        if decide (bl ≤ 0) then singleright t p
        else if decide (bl = 1) then doubleleftright t p else Err
      else if decide (b = 2) then
        br ← bal r;
        if decide (0 ≤ br) then singleleft t p
        else if decide (br = -1) then doublerightleft t p else Err
      else Ok t
  end.

Definition canoncmp (cmp : Z) : Z := if decide (cmp < 0) then -1 else if decide (cmp > 0) then 1 else 0.

(** ** Insertion and deletion *)
Section Avl.
Variable cmp : addr → addr → Z.

(** The tree, the value returned, and [*rfree]. *)
Fixpoint _insertavl (t : tree) (p : option addr) (r : addr) : res (tree * Z * option addr) :=
  match t with
  | Nil => Ok (Node p r 0 Nil Nil, 1, None)
  | Node pt a ob tl tr =>
      let i := canoncmp (cmp r a) in
      if decide (i = 0) then
        Ok (Node pt r ob (reparent (Some r) tl) (reparent (Some r) tr), 0, Some a)
      else
        '(t, rfree) ← (if decide (i < 0) then
            '(tl, d, rfree) ← _insertavl tl (Some a) r; Ok (Node pt a (ob + i * d) tl tr, rfree)
          else
            '(tr, d, rfree) ← _insertavl tr (Some a) r; Ok (Node pt a (ob + i * d) tl tr, rfree));
        t ← balance t p;
        b ← bal t;
        Ok (t, if decide (ob = 0 ∧ b ≠ 0) then 1 else 0, rfree)
  end.

(** The tree, the value returned, and the node taken out. *)
Fixpoint successor (t : tree) (p : option addr) : res (tree * Z * addr) :=
  match t with
  | Nil => Ub
  | Node _ a _ Nil tr => Ok (reparent p tr, -1, a)
  | Node pt a ob tl tr =>
      '(tl, d, r) ← successor tl (Some a);
      t ← balance (Node pt a (ob - d) tl tr) p;
      b ← bal t;
      Ok (t, if decide (ob ≠ 0 ∧ b = 0) then -1 else 0, r)
  end.

(** The tree, the value returned, and [*del]. *)
Fixpoint _deleteavl (t : tree) (p : option addr) (rx : addr) : res (tree * Z * option addr) :=
  match t with
  | Nil => Ok (Nil, 0, None)
  | Node pt a ob tl tr =>
      let i := canoncmp (cmp rx a) in
      if decide (i = 0) then
        match tl, tr with
        | Nil, _ => Ok (reparent p tr, -1, Some a)
        | _, Nil => Ok (reparent p tl, -1, Some a)
        | _, _ =>
            '(tr, d, r) ← successor tr (Some a);
            t ← balance (Node p r (ob + d) (reparent (Some r) tl) (reparent (Some r) tr)) p;
            b ← bal t;
            Ok (t, if decide (ob ≠ 0 ∧ b = 0) then -1 else 0, Some a)
        end
      else
        '(t, del) ← (if decide (i < 0) then
            '(tl, d, del) ← _deleteavl tl (Some a) rx; Ok (Node pt a (ob + i * d) tl tr, del)
          else
            '(tr, d, del) ← _deleteavl tr (Some a) rx; Ok (Node pt a (ob + i * d) tl tr, del));
        t ← balance t p;
        b ← bal t;
        Ok (t, if decide (ob ≠ 0 ∧ b = 0) then -1 else 0, del)
  end.

(** ** Pointers into a tree *)

(** [*a]: the tree at the node [a]. *)
Fixpoint deref (t : tree) (a : addr) : option tree :=
  match t with
  | Nil => None
  | Node _ b _ l r => if decide (a = b) then Some t else
      match deref l a with Some s => Some s | None => deref r a end
  end.

Definition node (t : tree) (a : addr) : res tree := res_of_option (deref t a).

(** [for(; a->n[i]; a = a->n[i]);] *)
Fixpoint rightmost (a : addr) (t : tree) : addr :=
  match t with Nil => a | Node _ a _ _ r => rightmost a r end.
Fixpoint leftmost (a : addr) (t : tree) : addr :=
  match t with Nil => a | Node _ a _ l _ => leftmost a l end.

Definition root (t : tree) : option addr := match t with Nil => None | Node _ a _ _ _ => Some a end.
Definition parent (t : tree) : option addr := match t with Nil => None | Node p _ _ _ _ => p end.
Definition left (t : tree) : tree := match t with Nil => Nil | Node _ _ _ l _ => l end.
Definition right (t : tree) : tree := match t with Nil => Nil | Node _ _ _ _ r => r end.

(** [while(a->p && a->p->n[i] == a) a = a->p; return a->p;] *)
Fixpoint climb (fuel : nat) (child : tree → tree) (t : tree) (a : addr) : res (option addr) :=
  match fuel with
  | O => Ub
  | S fuel =>
      n ← node t a;
      match parent n with
      | None => Ok None
      | Some p =>
          np ← node t p;
          if decide (root (child np) = Some a) then climb fuel child t p else Ok (Some p)
      end
  end.

Fixpoint size (t : tree) : nat := match t with Nil => 0 | Node _ _ _ l r => S (size l + size r) end.

Definition findpredecessor (t : tree) (a : option addr) : res (option addr) :=
  match a with
  | None => Ok None
  | Some a =>
      n ← node t a;
      match left n with
      | Node _ c _ _ r => Ok (Some (rightmost c r))
      | Nil => climb (S (size t)) left t a
      end
  end.

Definition findsuccessor (t : tree) (a : option addr) : res (option addr) :=
  match a with
  | None => Ok None
  | Some a =>
      n ← node t a;
      match right n with
      | Node _ c _ l _ => Ok (Some (leftmost c l))
      | Nil => climb (S (size t)) right t a
      end
  end.

(** The descent of _lookupavl from the node [t], below [p]: the node found, or the last
    node passed and the last comparison. *)
Fixpoint lookup_loop (t : tree) (p : option addr) (r : addr) (i : Z) : res (addr + option addr * Z) :=
  match t with
  | Nil => Ok (inr (p, i))
  | Node pt a _ tl tr =>
      if decide (pt ≠ p) then Err else
      let i := canoncmp (cmp r a) in
      if decide (i = 0) then Ok (inl a)
      else if decide (i < 0) then lookup_loop tl (Some a) r i else lookup_loop tr (Some a) r i
  end.

Definition _lookupavl (t : tree) (r : addr) (neighbor : Z) : res (option addr) :=
  match t with
  | Nil => Ok None
  | _ =>
      v ← lookup_loop t None r 0;
      match v with
      | inl a => Ok (Some a)
      | inr (p, i) =>
          if decide (neighbor = 0) then Ok None
          else if decide (neighbor < 0) then (if decide (i > 0) then Ok p else findpredecessor t p)
          else (if decide (i < 0) then Ok p else findsuccessor t p)
      end
  end.

(** ** Trees and walks *)

Record Avlwalk : Type := mkAvlwalk { w_started : bool; w_moved : bool; w_node : option addr }.

#[export] Instance Avlwalk_rebuild : Rebuild Avlwalk := λ w,
  mkAvlwalk (w_started w) (w_moved w) (w_node w).

(** The walks are the records of the list [t->walks], under their addresses. *)
Record Avltree : Type := mkAvltree { t_root : tree; t_walks : list (addr * Avlwalk) }.

#[export] Instance Avltree_rebuild : Rebuild Avltree := λ t, mkAvltree (t_root t) (t_walks t).

Definition mkavltree : Avltree := mkAvltree Nil [].

Definition insertavl (t : Avltree) (new : addr) : res (Avltree * option addr) :=
  '(r, _, old) ← _insertavl (t_root t) None new; Ok (t <| t_root := r |>, old).

Definition searchavl (t : Avltree) (key : addr) (neighbor : Z) : res (option addr) :=
  _lookupavl (t_root t) key neighbor.

Definition lookupavl (t : Avltree) (key : addr) : res (option addr) := _lookupavl (t_root t) key 0.

Definition walkdel (t : Avltree) (a : addr) : res (list (addr * Avlwalk)) :=
  p ← findpredecessor (t_root t) (Some a);
  Ok (map (λ w, if decide (w_node w.2 = Some a)
                then (w.1, mkAvlwalk (if p is None then false else w_started w.2) true p)
                else w) (t_walks t)).

(** walkdel runs on the tree as it was, before the node found is unlinked. *)
Definition deleteavl (t : Avltree) (key : addr) : res (Avltree * option addr) :=
  '(r, _, old) ← _deleteavl (t_root t) None key;
  ws ← (match old with Some a => walkdel t a | None => Ok (t_walks t) end);
  Ok (mkAvltree r ws, old).

(** [w] is the address malloc gives. *)
Definition avlwalk (t : Avltree) (w : addr) : Avltree :=
  t <| t_walks := (w, mkAvlwalk false false None) :: t_walks t |>.

Definition avlnext (t : Avltree) (w : Avlwalk) : res (Avlwalk * option addr) :=
  if negb (w_started w) then
    let a := match t_root t with Nil => None | Node _ a _ l _ => Some (leftmost a l) end in
    Ok (w <| w_node := a |> <| w_started := true |>, a)
  else
    a ← findsuccessor (t_root t) (w_node w);
    if decide (a = w_node w) then Err else Ok (w <| w_node := a |>, a).

Definition avlprev (t : Avltree) (w : Avlwalk) : res (Avlwalk * option addr) :=
  if negb (w_started w) then
    let a := match t_root t with Nil => None | Node _ a _ _ r => Some (rightmost a r) end in
    Ok (w <| w_node := a |> <| w_started := true |>, a)
  else if w_moved w then Ok (w <| w_moved := false |>, w_node w)
  else
    a ← findpredecessor (t_root t) (w_node w);
    if decide (a = w_node w) then Err else Ok (w <| w_node := a |>, a).

Fixpoint unlink (w : addr) (l : list (addr * Avlwalk)) : list (addr * Avlwalk) :=
  match l with [] => [] | v :: l => if decide (v.1 = w) then l else v :: unlink w l end.

Definition endwalk (t : Avltree) (w : addr) : Avltree := t <| t_walks := unlink w (t_walks t) |>.

Fixpoint walkavl {W} (f : addr → W → W) (t : tree) (v : W) : W :=
  match t with Nil => v | Node _ a _ l r => walkavl f r (f a (walkavl f l v)) end.
End Avl.
