(* ===== verification/AvlProps.v ===== *)
(** * AvlProps: an AVL tree is a sorted list, in logarithmic depth

    A tree in order ([in_order] of {!AvlWalk}) has its nodes sorted by [cmp], heights that differ by what the
    balances say and by at most one, and parent pointers that point to the parents.
    Insertion and deletion act on the sequence of nodes as on a sorted list and keep the
    tree in order, so that no assertion fails and no nil pointer is followed. *)

From Stdlib Require Import Sorting.Sorted.
From S2P Require Import Prelude Avl.

(** ** Shape *)

Fixpoint elements (t : tree) : list addr :=
  match t with Nil => [] | Node _ a _ l r => elements l ++ a :: elements r end.

Fixpoint height (t : tree) : Z :=
  match t with Nil => 0 | Node _ _ _ l r => 1 + Z.max (height l) (height r) end.

Fixpoint balanced (t : tree) : Prop :=
  match t with
  | Nil => True
  | Node _ _ b l r => b = height r - height l ∧ -1 ≤ b ≤ 1 ∧ balanced l ∧ balanced r
  end.

Fixpoint parents (p : option addr) (t : tree) : Prop :=
  match t with
  | Nil => True
  | Node q a _ l r => q = p ∧ parents (Some a) l ∧ parents (Some a) r
  end.

Lemma height_nonneg t : 0 ≤ height t.
Proof. induction t; cbn; lia. Qed.

Lemma elements_reparent p t : elements (reparent p t) = elements t.
Proof. by destruct t. Qed.
Lemma height_reparent p t : height (reparent p t) = height t.
Proof. by destruct t. Qed.
Lemma balanced_reparent p t : balanced (reparent p t) ↔ balanced t.
Proof. by destruct t. Qed.
Lemma parents_reparent p q t : parents q t → parents p (reparent p t).
Proof. destruct t; cbn; naive_solver. Qed.
Lemma bal_reparent p t : bal (reparent p t) = bal t.
Proof. by destruct t. Qed.

Ltac reparent_simpl :=
  rewrite ?elements_reparent, ?height_reparent, ?balanced_reparent, ?bal_reparent in *.

#[export] Hint Resolve parents_reparent : p9.

(** What a link holds that may be out of balance by two. *)
Record leaning (pt : option addr) (a : addr) (b : Z) (l r : tree) : Prop := {
  ln_l : balanced l; ln_r : balanced r;
  ln_b : b = height r - height l; ln_2 : -2 ≤ b ≤ 2;
  ln_pl : parents (Some a) l; ln_pr : parents (Some a) r
}.

(** What balance makes of it. *)
Record righted (p : option addr) (pt : option addr) (a : addr) (b : Z) (l r t : tree) (b' : Z) : Prop := {
  rt_bal : bal t = Ok b';
  rt_ok : balanced t;
  rt_par : parents p t;
  rt_el : elements t = elements l ++ a :: elements r;
  rt_small : -1 ≤ b ≤ 1 → t = Node pt a b l r;
  rt_height : b = -2 ∨ b = 2 → height t = height (Node pt a b l r) - (if decide (b' = 0) then 1 else 0);
  rt_zero : b = -2 ∧ bal l ≠ Ok 0 ∨ b = 2 ∧ bal r ≠ Ok 0 → b' = 0
}.

Ltac shape :=
  cbn [bal reparent height balanced parents elements] in *; destruct_and?; subst; reparent_simpl.

Lemma not_zero (x : Z) : Ok x ≠ Ok 0 → x ≠ 0.
Proof. congruence. Qed.

(** A rotation has been done: check what came out. *)
Ltac rotated :=
  eexists _, _; split; [reflexivity |]; constructor;
  [ reflexivity | shape; split_and?; try done; lia | shape; split_and?; try done; eauto with p9
  | shape; rewrite <- ?app_assoc; cbn; by rewrite <- ?app_assoc | intros; exfalso; lia
  | shape; case_decide; lia
  | intros [[? Hz] | [? Hz]]; shape; try (apply not_zero in Hz); lia ].

Lemma balance_ok pt a b l r p :
  leaning pt a b l r → (-1 ≤ b ≤ 1 → pt = p) →
  ∃ t b', balance (Node pt a b l r) p = Ok t ∧ righted p pt a b l r t b'.
Proof.
  intros [] Hp. unfold balance. case_decide as H1; [| case_decide as H2].
  - pose proof (height_nonneg r). destruct l as [|pc c cb cl cr]; [cbn in *; lia |].
    cbn [bal mbind res_bind]. case_decide; [shape; rotated | rewrite decide_True by (cbn in *; lia)].
    pose proof (height_nonneg cl). destruct cr as [|pd d db dl dr]; [cbn in *; lia |].
    shape. rotated.
  - pose proof (height_nonneg l). destruct r as [|pc c cb cl cr]; [cbn in *; lia |].
    cbn [bal mbind res_bind]. case_decide; [shape; rotated | rewrite decide_True by (cbn in *; lia)].
    pose proof (height_nonneg cr). destruct cl as [|pd d db dl dr]; [cbn in *; lia |].
    shape. rotated.
  - eexists _, _. split; [reflexivity |]. constructor; [reflexivity | | | done | done | lia | ].
    + cbn. auto with lia.
    + cbn. split_and!; [apply Hp; lia | done | done].
    + intros [[? _] | [? _]]; lia.
Qed.

Lemma righted_same p pt a b l r t b' :
  righted p pt a b l r t b' → -1 ≤ b ≤ 1 → b' = b ∧ height t = 1 + Z.max (height l) (height r).
Proof. intros [Hb _ _ _ Ht _ _] H. rewrite (Ht H) in *. cbn in *. by injection Hb. Qed.

(** The balance tells whether a subtree that grew by [dl] or [dr] made the tree grow. *)
Lemma grown_height p pt a b l r t b' hl hr dl dr :
  righted p pt a b l r t b' → height l = hl + dl → height r = hr + dr →
  (dl = 0 ∨ dl = 1) ∧ dr = 0 ∨ dl = 0 ∧ (dr = 0 ∨ dr = 1) →
  -1 ≤ hr - hl ≤ 1 → b = hr - hl + dr - dl →
  (dl = 1 → height l = 1 ∨ bal l ≠ Ok 0) → (dr = 1 → height r = 1 ∨ bal r ≠ Ok 0) → 0 ≤ hl → 0 ≤ hr →
  let d := if decide (hr - hl = 0 ∧ b' ≠ 0) then 1 else 0 in
  height t = 1 + Z.max hl hr + d ∧ (d = 1 → b' ≠ 0).
Proof.
  intros Hr Hl Hrr Hd Hob Hb Hgl Hgr H0 H0'. pose proof (rt_height _ _ _ _ _ _ _ _ Hr) as Hh.
  pose proof (rt_zero _ _ _ _ _ _ _ _ Hr) as Hz. pose proof (righted_same _ _ _ _ _ _ _ _ Hr) as Hs.
  cbn in Hh. cbv zeta. split; [| by destruct (decide (hr - hl = 0 ∧ b' ≠ 0)) as [[_ ?] |]].
  destruct (decide (-1 ≤ b ≤ 1)) as [Hsm | Hsm].
  - destruct (Hs Hsm) as [-> ->]. clear Hh; destruct (decide _); lia.
  - assert (b' = 0) as ->.
    { apply Hz. destruct Hd as [[[-> | ->] ->] | [-> [-> | ->]]]; try lia.
      - left. split; [lia |]. destruct Hgl; [done | lia | done].
      - right. split; [lia |]. destruct Hgr; [done | lia | done]. }
    rewrite Hh by lia. rewrite decide_True, decide_False by (done || lia). lia.
Qed.

(** And whether one that shrank made it shrink. *)
Lemma shrunk_height p pt a b l r t b' hl hr dl dr :
  righted p pt a b l r t b' → height l = hl + dl → height r = hr + dr →
  (dl = 0 ∨ dl = -1) ∧ dr = 0 ∨ dl = 0 ∧ (dr = 0 ∨ dr = -1) →
  -1 ≤ hr - hl ≤ 1 → b = hr - hl + dr - dl →
  height t = 1 + Z.max hl hr + (if decide (hr - hl ≠ 0 ∧ b' = 0) then -1 else 0).
Proof.
  intros Hr Hl Hrr Hd Hob Hb. pose proof (rt_height _ _ _ _ _ _ _ _ Hr) as Hh.
  pose proof (righted_same _ _ _ _ _ _ _ _ Hr) as Hs. cbn in Hh.
  destruct (decide (-1 ≤ b ≤ 1)) as [Hsm | Hsm].
  - destruct (Hs Hsm) as [-> ->]. clear Hh. destruct (decide _); lia.
  - rewrite Hh by lia. repeat case_decide; lia.
Qed.

(** ** Order *)
Section Order.
Variable cmp : addr → addr → Z.

(** [cmp] is a total order up to equality of keys. *)
Record cmp_ok : Prop := {
  cmp_sym : ∀ a b, canoncmp (cmp b a) = - canoncmp (cmp a b);
  cmp_trans : ∀ a b c, canoncmp (cmp a b) = -1 → canoncmp (cmp b c) = -1 → canoncmp (cmp a c) = -1;
  cmp_eq : ∀ a b c, canoncmp (cmp a b) = 0 → canoncmp (cmp a c) = canoncmp (cmp b c)
}.
Hypothesis Hcmp : cmp_ok.

Local Abbreviation order a b := (canoncmp (cmp a b)).

Lemma order_cases a b : order a b = -1 ∨ order a b = 0 ∨ order a b = 1.
Proof. unfold canoncmp. repeat case_decide; auto. Qed.

Definition sorted (l : list addr) : Prop := StronglySorted (λ a b, order a b = -1) l.

(** The sorted list with [x] in it, and the node it displaces. *)
Fixpoint ins (x : addr) (l : list addr) : list addr :=
  match l with
  | [] => [x]
  | y :: l => if decide (order x y < 0) then x :: y :: l
              else if decide (order x y = 0) then x :: l else y :: ins x l
  end.
Definition same (x : addr) (l : list addr) : option addr := head (filter (λ y, order x y = 0) l).
Definition del (x : addr) (l : list addr) : list addr := filter (λ y, order x y ≠ 0) l.

(** What is in front of [a] and what is behind it. *)
Lemma sorted_app l a r :
  sorted (l ++ a :: r) ↔
  sorted l ∧ sorted r ∧ Forall (λ y, order y a = -1) l ∧ Forall (λ y, order a y = -1) r ∧
  Forall (λ y, Forall (λ z, order y z = -1) r) l.
Proof.
  unfold sorted. induction l as [|y l IH]; cbn.
  - split.
    + intros [? ?]%StronglySorted_inv. repeat split; first [done | constructor].
    + intros (_ & ? & _ & ? & _). by constructor.
  - rewrite !Forall_cons_iff. split.
    + intros [(? & ? & ? & ? & ?)%IH Hy]%StronglySorted_inv.
      apply Forall_app in Hy as [? [? ?]%Forall_cons_iff]. split_and!; try done. by constructor.
    + intros ([? ?]%StronglySorted_inv & ? & [? ?] & ? & [? ?]).
      constructor; [by apply IH |]. apply Forall_app. split; [done |]. by constructor.
Qed.

Lemma order_before x a y : order y a = -1 → 0 ≤ order x a → order x y = 1.
Proof.
  intros Hy Hx. destruct (order_cases x y) as [H | [H | H]]; [| | done].
  - rewrite (cmp_trans Hcmp _ _ _ H Hy) in Hx. lia.
  - rewrite (cmp_eq Hcmp _ _ a H) in Hx. lia.
Qed.

Lemma order_behind x a y : order a y = -1 → order x a ≤ 0 → order x y = -1.
Proof.
  intros Hy Hx. destruct (order_cases x a) as [H | [H | H]]; [| | lia].
  - by apply (cmp_trans Hcmp _ a).
  - by rewrite (cmp_eq Hcmp _ _ y H).
Qed.

Lemma ins_app x l a r :
  sorted (l ++ a :: r) →
  ins x (l ++ a :: r) =
    if decide (order x a = 0) then l ++ x :: r
    else if decide (order x a < 0) then ins x l ++ a :: r else l ++ a :: ins x r.
Proof.
  intros (_ & _ & Hl & _ & _)%sorted_app. induction Hl as [|y l Hy _ IH]; cbn.
  - repeat case_decide; by try lia.
  - rewrite IH. clear IH. destruct (decide (0 ≤ order x a)) as [Hx | Hx].
    + rewrite (order_before x a y) by done. rewrite (decide_False (P := 1 < 0)), (decide_False (P := 1 = 0)) by done.
      repeat case_decide; by try lia.
    + rewrite !(decide_False (P := order x a = 0)), !(decide_True (P := order x a < 0)) by lia.
      destruct (decide (order x y < 0)); [done |]. by destruct (decide (order x y = 0)).
Qed.

(** Where a node with the key of [x] can be. *)
Lemma filter_none (P : addr → Prop) `{∀ y, Decision (P y)} l : Forall (λ y, ¬ P y) l → filter P l = [].
Proof. induction 1; [done |]. by rewrite filter_cons_False. Qed.
Lemma filter_all (P : addr → Prop) `{∀ y, Decision (P y)} l : Forall P l → filter P l = l.
Proof. induction 1 as [|? ? ? ? IH]; [done |]. by rewrite filter_cons_True, IH. Qed.

Lemma same_app x l a r :
  sorted (l ++ a :: r) →
  same x (l ++ a :: r) =
    if decide (order x a = 0) then Some a else if decide (order x a < 0) then same x l else same x r.
Proof.
  intros (_ & _ & Hl & Hr & _)%sorted_app. unfold same. rewrite list.filter_app, filter_cons.
  destruct (order_cases x a) as [H | [H | H]]; rewrite H.
  - rewrite (filter_none _ r), app_nil_r; [done |].
    eapply Forall_impl; [| exact Hr]. cbv beta. intros y Hy. rewrite (order_behind x a y); lia.
  - rewrite (filter_none _ l); [done |].
    eapply Forall_impl; [| exact Hl]. cbv beta. intros y Hy. rewrite (order_before x a y); lia.
  - rewrite (filter_none _ l); [done |].
    eapply Forall_impl; [| exact Hl]. cbv beta. intros y Hy. rewrite (order_before x a y); lia.
Qed.

Lemma del_app x l a r :
  sorted (l ++ a :: r) →
  del x (l ++ a :: r) =
    if decide (order x a = 0) then l ++ r
    else if decide (order x a < 0) then del x l ++ a :: r else l ++ a :: del x r.
Proof.
  intros (_ & _ & Hl & Hr & _)%sorted_app. unfold del. rewrite list.filter_app, filter_cons.
  assert (order x a ≤ 0 → filter (λ y, order x y ≠ 0) r = r) as Hfr.
  { intros. apply filter_all. eapply Forall_impl; [| exact Hr]. cbv beta. intros y Hy.
    rewrite (order_behind x a y); lia. }
  assert (0 ≤ order x a → filter (λ y, order x y ≠ 0) l = l) as Hfl.
  { intros. apply filter_all. eapply Forall_impl; [| exact Hl]. cbv beta. intros y Hy.
    rewrite (order_before x a y); lia. }
  destruct (order_cases x a) as [H | [H | H]]; rewrite H in *; cbn.
  - by rewrite Hfr.
  - by rewrite Hfl, Hfr.
  - by rewrite Hfl.
Qed.

(** ** Insertion *)

Record inserted (x : addr) (p : option addr) (t t' : tree) (d : Z) : Prop := {
  it_ok : balanced t';
  it_par : parents p t';
  it_el : elements t' = ins x (elements t);
  it_d : d = 0 ∨ d = 1;
  it_height : height t' = height t + d;
  it_grown : d = 1 → height t' = 1 ∨ bal t' ≠ Ok 0
}.

Lemma insert_tree t p x :
  balanced t → parents p t → sorted (elements t) →
  ∃ t' d, _insertavl cmp t p x = Ok (t', d, same x (elements t)) ∧ inserted x p t t' d.
Proof.
  revert p. induction t as [|pt a ob tl IHl tr IHr]; intros p Hb Hp Hs.
  { eexists _, _. split; [reflexivity |]. constructor; cbn; auto. split_and!; auto; lia. }
  cbn [_insertavl elements]. cbn in Hb, Hp, Hs.
  destruct Hb as (Hob & Hob1 & Hbl & Hbr), Hp as (-> & Hpl & Hpr).
  rewrite (same_app x _ _ _ Hs). pose proof (ins_app x _ _ _ Hs) as Hins.
  apply sorted_app in Hs as (Hsl & Hsr & _). destruct (decide (order x a = 0)) as [Hz | Hz].
  - eexists _, _. split; [reflexivity |].
    constructor; cbn; reparent_simpl; rewrite ?Hins; eauto; [split_and!; eauto with p9 | lia].
  - destruct (order_cases x a) as [H | [H | H]]; [| done |]; rewrite H in *.
    + rewrite !(decide_True (P := -1 < 0)) in * by done.
      destruct (IHl (Some a)) as (tl' & d & -> & []); [done.. |]. cbn [mbind res_bind].
      destruct (balance_ok p a (ob + -1 * d) tl' tr p) as (t' & b' & -> & Hr); [constructor; auto; lia | done |].
      pose proof Hr as [Hbal ? ? Hel _ _ _].
      destruct (grown_height _ _ _ _ _ _ _ _ (height tl) (height tr) d 0 Hr) as [Hh Hg];
        [done | lia | auto | lia | lia | done | done | auto using height_nonneg.. |].
      cbn [mbind res_bind]. rewrite Hbal. cbn [mbind res_bind]. rewrite Hob. eexists _, _. split; [reflexivity |].
      constructor; [done | done | cbn [elements]; by rewrite Hel, it_el0, Hins | case_decide; auto | done |].
      intros Hd. right. rewrite Hbal. intros [= ->]. by apply Hg.
    + rewrite !(decide_False (P := 1 < 0)) in * by done.
      destruct (IHr (Some a)) as (tr' & d & -> & []); [done.. |]. cbn [mbind res_bind].
      destruct (balance_ok p a (ob + 1 * d) tl tr' p) as (t' & b' & -> & Hr); [constructor; auto; lia | done |].
      pose proof Hr as [Hbal ? ? Hel _ _ _].
      destruct (grown_height _ _ _ _ _ _ _ _ (height tl) (height tr) 0 d Hr) as [Hh Hg];
        [lia | done | auto | lia | lia | done | done | auto using height_nonneg.. |].
      cbn [mbind res_bind]. rewrite Hbal. cbn [mbind res_bind]. rewrite Hob. eexists _, _. split; [reflexivity |].
      constructor; [done | done | cbn [elements]; by rewrite Hel, it_el0, Hins | case_decide; auto | done |].
      intros Hd. right. rewrite Hbal. intros [= ->]. by apply Hg.
Qed.

(** ** Deletion *)

Record shrunk (p : option addr) (l : list addr) (t t' : tree) (d : Z) : Prop := {
  sk_ok : balanced t';
  sk_par : parents p t';
  sk_el : elements t' = l;
  sk_d : d = 0 ∨ d = -1;
  sk_height : height t' = height t + d
}.

(** One side has shrunk: put it back and balance. *)
Lemma shrunk_side p pt a b l r hl hr dl dr el :
  leaning pt a b l r → (-1 ≤ b ≤ 1 → pt = p) → height l = hl + dl → height r = hr + dr →
  (dl = 0 ∨ dl = -1) ∧ dr = 0 ∨ dl = 0 ∧ (dr = 0 ∨ dr = -1) → -1 ≤ hr - hl ≤ 1 → b = hr - hl + dr - dl →
  elements l ++ a :: elements r = el →
  ∃ t' b', balance (Node pt a b l r) p = Ok t' ∧ bal t' = Ok b' ∧
    ∀ t, height t = 1 + Z.max hl hr →
      shrunk p el t t' (if decide (hr - hl ≠ 0 ∧ b' = 0) then -1 else 0).
Proof.
  intros Hl Hp Hhl Hhr Hd Hob Hb Hel. destruct (balance_ok pt a b l r p Hl Hp) as (t' & b' & Ht & Hr).
  exists t', b'. split; [done |]. pose proof Hr as [Hbal Hok Hpar Hel' _ _ _]. split; [done |]. intros t Ht'.
  constructor; [done | done | by rewrite Hel' | case_decide; auto |].
  rewrite Ht'. by eapply shrunk_height.
Qed.

Lemma successor_tree t p :
  t ≠ Nil → balanced t → parents p t →
  ∃ t' d r l, successor t p = Ok (t', d, r) ∧ elements t = r :: l ∧ shrunk p l t t' d.
Proof.
  revert p. induction t as [|pt a ob tl IHl tr _]; intros p Hn Hb Hp; [done |]. clear Hn.
  destruct Hb as (Hob & Hob1 & Hbl & Hbr), Hp as (-> & Hpl & Hpr).
  assert (tl = Nil ∨ tl ≠ Nil) as [-> | Hne] by (destruct tl; auto).
  - eexists _, _, _, _. split; [reflexivity |]. split; [reflexivity |]. pose proof (height_nonneg tr).
    constructor; reparent_simpl; cbn; eauto with p9. lia.
  - destruct (IHl (Some a) Hne Hbl Hpl) as (tl' & d & r & l & Hs & Hel & []).
    destruct (shrunk_side p p a (ob - d) tl' tr (height tl) (height tr) d 0 (l ++ a :: elements tr))
      as (t' & b' & Hbal & Hb' & Hsh); [by constructor; auto; lia | done | lia | lia | lia | lia | lia | by rewrite sk_el0 |].
    exists t', (if decide (ob ≠ 0 ∧ b' = 0) then -1 else 0), r, (l ++ a :: elements tr).
    split_and!; [| by cbn; rewrite Hel | rewrite Hob; by apply Hsh].
    cbn [successor]. destruct tl; [done |]. rewrite Hs. cbn [mbind res_bind]. rewrite Hbal.
    cbn [mbind res_bind]. by rewrite Hb'.
Qed.

Lemma delete_tree t p x :
  balanced t → parents p t → sorted (elements t) →
  ∃ t' d, _deleteavl cmp t p x = Ok (t', d, same x (elements t)) ∧ shrunk p (del x (elements t)) t t' d.
Proof.
  revert p. induction t as [|pt a ob tl IHl tr IHr]; intros p Hb Hp Hs.
  { eexists _, _. split; [reflexivity |]. constructor; auto. }
  cbn [_deleteavl elements]. cbn in Hb, Hp, Hs.
  destruct Hb as (Hob & Hob1 & Hbl & Hbr), Hp as (-> & Hpl & Hpr).
  rewrite (same_app x _ _ _ Hs). rewrite (del_app x _ _ _ Hs).
  apply sorted_app in Hs as (Hsl & Hsr & _).
  pose proof (height_nonneg tl). pose proof (height_nonneg tr).
  destruct (order_cases x a) as [H1 | [H1 | H1]]; rewrite H1.
  - rewrite !(decide_False (P := -1 = 0)), !(decide_True (P := -1 < 0)) by done.
    destruct (IHl (Some a)) as (tl' & d & -> & []); [done.. |]. cbn [mbind res_bind].
    destruct (shrunk_side p p a (ob + -1 * d) tl' tr (height tl) (height tr) d 0 (del x (elements tl) ++ a :: elements tr))
      as (t' & b' & -> & Hb' & Hsh); [by constructor; auto; lia | done | lia | lia | lia | lia | lia | by rewrite sk_el0 |].
    cbn [mbind res_bind]. rewrite Hb'. eexists _, _. split; [reflexivity |]. rewrite Hob. by apply Hsh.
  - rewrite !(decide_True (P := 0 = 0)) by done. destruct tl as [|pl al bl ll rl] eqn:Htl; [| rewrite <- Htl in *].
    { eexists _, _. split; [reflexivity |]. constructor; reparent_simpl; cbn in *; eauto with p9. lia. }
    destruct tr as [|pr ar br lr rr] eqn:Htr; [| rewrite <- Htr in *].
    { rewrite Htl. cbn match. rewrite <- Htl. eexists _, _. split; [reflexivity |].
      constructor; reparent_simpl; eauto with p9; [by rewrite app_nil_r | cbn in *; lia]. }
    destruct (successor_tree tr (Some a)) as (tr' & d & r & l & Hsu & Hel & []); [by rewrite Htr | done | done |].
    rewrite Hsu. rewrite Htl, Htr. cbn match. rewrite <- Htl, <- Htr. cbn [mbind res_bind].
    destruct (shrunk_side p p r (ob + d) (reparent (Some r) tl) (reparent (Some r) tr') (height tl) (height tr) 0 d
      (elements tl ++ elements tr)) as (t' & b' & -> & Hb' & Hsh);
      [by constructor; reparent_simpl; eauto with p9; lia | done | by reparent_simpl; lia.. | lia | lia | lia | |].
    { reparent_simpl. by rewrite sk_el0, Hel. }
    cbn [mbind res_bind]. rewrite Hb'. eexists _, _. split; [reflexivity |]. rewrite Hob. by apply Hsh.
  - rewrite !(decide_False (P := 1 = 0)), !(decide_False (P := 1 < 0)) by done.
    destruct (IHr (Some a)) as (tr' & d & -> & []); [done.. |]. cbn [mbind res_bind].
    destruct (shrunk_side p p a (ob + 1 * d) tl tr' (height tl) (height tr) 0 d (elements tl ++ a :: del x (elements tr)))
      as (t' & b' & -> & Hb' & Hsh); [by constructor; auto; lia | done | lia | lia | lia | lia | lia | by rewrite sk_el0 |].
    cbn [mbind res_bind]. rewrite Hb'. eexists _, _. split; [reflexivity |]. rewrite Hob. by apply Hsh.
Qed.
End Order.

(** ** Pointers *)

(** The way from a subtree up to the root: for each node passed, whether the subtree hangs
    on its left, its members, and the other subtree. *)
Record frame : Type := mkFrame { fr_left : bool; fr_p : option addr; fr_a : addr; fr_b : Z; fr_t : tree }.

Definition hang (f : frame) (s : tree) : tree :=
  if fr_left f then Node (fr_p f) (fr_a f) (fr_b f) s (fr_t f)
  else Node (fr_p f) (fr_a f) (fr_b f) (fr_t f) s.

Fixpoint plug (c : list frame) (s : tree) : tree :=
  match c with [] => s | f :: c => plug c (hang f s) end.

(** The nodes in front of the subtree and behind it. *)
Fixpoint front (c : list frame) : list addr :=
  match c with
  | [] => []
  | f :: c => front c ++ if fr_left f then [] else elements (fr_t f) ++ [fr_a f]
  end.
Fixpoint behind (c : list frame) : list addr :=
  match c with
  | [] => []
  | f :: c => (if fr_left f then fr_a f :: elements (fr_t f) else []) ++ behind c
  end.

Lemma elements_plug c s : elements (plug c s) = front c ++ elements s ++ behind c.
Proof.
  revert s. induction c as [|f c IH]; intros s; cbn; [by rewrite app_nil_r |].
  rewrite IH. unfold hang. destruct (fr_left f); cbn; rewrite ?app_nil_r, <- ?app_assoc; cbn; by rewrite <- ?app_assoc.
Qed.

Lemma elements_hang f s :
  elements (hang f s) = if fr_left f then elements s ++ fr_a f :: elements (fr_t f)
                        else elements (fr_t f) ++ fr_a f :: elements s.
Proof. unfold hang. by destruct (fr_left f). Qed.

Lemma deref_in t a s : deref t a = Some s → a ∈ elements t ∧ root s = Some a.
Proof.
  induction t as [|p b z l IHl r IHr]; cbn; [done |]. case_decide as Ha.
  - intros [= <-]. subst. set_solver.
  - destruct (deref l a).
    + intros [= ->]. destruct IHl; [done |]. set_solver.
    + intros H. destruct (IHr H). set_solver.
Qed.

Lemma deref_none t a : a ∉ elements t → deref t a = None.
Proof. intros Ha. destruct (deref t a) eqn:H; [| done]. by apply deref_in in H as [? _]. Qed.

Lemma deref_root s a : root s = Some a → deref s a = Some s.
Proof. destruct s; [done |]. cbn. intros [= <-]. by rewrite decide_True. Qed.

Lemma root_in s a : root s = Some a → a ∈ elements s.
Proof. destruct s; [done |]. cbn. intros [= <-]. set_solver. Qed.

Lemma deref_plug c s u a :
  NoDup (elements (plug c s)) → deref s a = Some u → deref (plug c s) a = Some u.
Proof.
  revert s. induction c as [|f c IH]; intros s Hnd Ha; [done |]. cbn. apply IH; [done |].
  assert (NoDup (elements (hang f s))) as Hnd'.
  { cbn in Hnd. rewrite elements_plug in Hnd. by apply list.NoDup_app in Hnd as (_ & _ & (? & _)%list.NoDup_app). }
  rewrite elements_hang in Hnd'. pose proof (deref_in _ _ _ Ha) as [Hin _]. unfold hang.
  destruct (fr_left f); cbn; apply list.NoDup_app in Hnd' as (_ & Hd & [? _]%list.NoDup_cons).
  - rewrite decide_False by (intros ->; eapply Hd; [done | set_solver]). by rewrite Ha.
  - rewrite decide_False by (intros ->; done).
    rewrite (deref_none (fr_t f)); [done |]. intros Hf. eapply Hd; [done | set_solver].
Qed.

Lemma find_plug t a : a ∈ elements t → ∃ c s, t = plug c s ∧ root s = Some a.
Proof.
  assert (∀ c s t, t = plug c s → a ∈ elements s → ∃ c s, t = plug c s ∧ root s = Some a) as Hgen.
  { intros c s. revert c. induction s as [|p b z l IHl r IHr]; intros c u -> Ha; cbn in Ha; [set_solver |].
    apply elem_of_app in Ha as [Ha | [-> | Ha]%elem_of_cons].
    - by apply (IHl (mkFrame true p b z r :: c)).
    - eauto.
    - by apply (IHr (mkFrame false p b z l :: c)). }
  by apply (Hgen [] t).
Qed.

Lemma parents_plug c s :
  parents None (plug c s) → parents (match c with [] => None | f :: _ => Some (fr_a f) end) s.
Proof.
  revert s. induction c as [|f c IH]; intros s; [done |]. cbn. intros Hp%IH.
  unfold hang in Hp. destruct (fr_left f); cbn in Hp; naive_solver.
Qed.

Lemma size_plug c s : (length c + size s ≤ size (plug c s))%nat.
Proof.
  revert s. induction c as [|f c IH]; intros s; cbn; [lia |].
  specialize (IH (hang f s)). unfold hang in *. destruct (fr_left f); cbn in *; lia.
Qed.
