(* ===== verification/AvlWalk.v ===== *)
(** * AvlWalk: searches and walks in an AVL tree

    findpredecessor and findsuccessor are the neighbours in the sequence of nodes, a search
    finds the node with the key or the one next to it, and a walk gives the nodes ahead of
    it one by one, also while nodes are inserted and deleted under it. *)

From S2P Require Import Prelude Avl AvlProps.

Abbreviation last := list.last.

(** ** Neighbours *)

Lemma leftmost_head a t : head (elements t ++ [a]) = Some (leftmost a t).
Proof.
  revert a. induction t as [|p c b l IH r _]; intros a; [done |]. cbn. rewrite <- IH. by destruct (elements l).
Qed.

Lemma rightmost_last a t : last (a :: elements t) = Some (rightmost a t).
Proof.
  revert a. induction t as [|p c b l _ r IH]; intros a; [done |]. cbn [rightmost elements].
  rewrite app_comm_cons, list.last_app, (IH c). done.
Qed.

Lemma root_hang f s : root (hang f s) = Some (fr_a f).
Proof. unfold hang. by destruct (fr_left f). Qed.

Lemma root_left_hang f s : root (left (hang f s)) = if fr_left f then root s else root (fr_t f).
Proof. unfold hang. by destruct (fr_left f). Qed.
Lemma root_right_hang f s : root (right (hang f s)) = if fr_left f then root (fr_t f) else root s.
Proof. unfold hang. by destruct (fr_left f). Qed.

(** One step up from the tree [s]. *)
Lemma climb_step child fuel c s a :
  NoDup (elements (plug c s)) → parents None (plug c s) → root s = Some a →
  climb (S fuel) child (plug c s) a =
    match c with
    | [] => Ok None
    | f :: c' => if decide (root (child (hang f s)) = Some a)
                 then climb fuel child (plug c' (hang f s)) (fr_a f) else Ok (Some (fr_a f))
    end.
Proof.
  intros Hnd Hp Ha. cbn [climb]. unfold node.
  rewrite (deref_plug c s s a Hnd) by (by apply deref_root). cbn [res_of_option mbind res_bind].
  pose proof (parents_plug _ _ Hp) as Hps. destruct s as [|q a' b l r]; [done |].
  destruct Hps as [-> _]. destruct c as [|f c]; [done |]. cbn [parent plug].
  rewrite (deref_plug c (hang f _) (hang f (Node (Some (fr_a f)) a' b l r)) (fr_a f) Hnd)
    by (apply deref_root, root_hang). done.
Qed.

Lemma other_side f s a :
  NoDup (elements (hang f s)) → root s = Some a → root (fr_t f) ≠ Some a.
Proof.
  intros Hnd Ha%root_in Hf%root_in. rewrite elements_hang in Hnd.
  destruct (fr_left f); apply list.NoDup_app in Hnd as (_ & Hd & _); (eapply Hd; [done | set_solver]).
Qed.

Lemma nodup_plug c s : NoDup (elements (plug c s)) → NoDup (elements s).
Proof. rewrite elements_plug. by intros (_ & _ & (? & _)%list.NoDup_app)%list.NoDup_app. Qed.

Lemma climb_left c s a fuel :
  NoDup (elements (plug c s)) → parents None (plug c s) → root s = Some a → (length c < fuel)%nat →
  climb fuel left (plug c s) a = Ok (last (front c)).
Proof.
  revert s a fuel. induction c as [|f c IH]; intros s a [|fuel] Hnd Hp Ha Hf; try (cbn in Hf; lia);
    rewrite climb_step by done; [done |].
  pose proof (other_side f s a (nodup_plug c _ Hnd) Ha) as Ho. cbn [front].
  rewrite root_left_hang. destruct (fr_left f).
  - rewrite Ha, decide_True, app_nil_r by done. apply IH; [done | done | apply root_hang | cbn in Hf; lia].
  - rewrite decide_False by done. by rewrite app_assoc, list.last_snoc.
Qed.

Lemma climb_right c s a fuel :
  NoDup (elements (plug c s)) → parents None (plug c s) → root s = Some a → (length c < fuel)%nat →
  climb fuel right (plug c s) a = Ok (head (behind c)).
Proof.
  revert s a fuel. induction c as [|f c IH]; intros s a [|fuel] Hnd Hp Ha Hf; try (cbn in Hf; lia);
    rewrite climb_step by done; [done |].
  pose proof (other_side f s a (nodup_plug c _ Hnd) Ha) as Ho. cbn [behind].
  rewrite root_right_hang. destruct (fr_left f).
  - by rewrite decide_False by done.
  - rewrite Ha, decide_True by done. apply IH; [done | done | apply root_hang | cbn in Hf; lia].
Qed.

(** Where [a] is splits the sequence in one way only. *)
Lemma split_unique (a : addr) l r l' r' :
  NoDup (l ++ a :: r) → l ++ a :: r = l' ++ a :: r' → l = l' ∧ r = r'.
Proof.
  revert l'. induction l as [|x l IH]; intros [|y l'] Hnd Heq; cbn in *; simplify_eq; auto.
  - apply list.NoDup_cons in Hnd as [Hn _]. set_solver.
  - apply list.NoDup_cons in Hnd as [Hn _]. set_solver.
  - apply list.NoDup_cons in Hnd as [_ ?]. by destruct (IH l') as [-> ->].
Qed.

Lemma neighbours t a l r :
  NoDup (elements t) → parents None t → elements t = l ++ a :: r →
  findpredecessor t (Some a) = Ok (last l) ∧ findsuccessor t (Some a) = Ok (head r).
Proof.
  intros Hnd Hp He. destruct (find_plug t a) as (c & s & -> & Ha); [rewrite He; set_solver |].
  pose proof (size_plug c s) as Hsz.
  unfold findpredecessor, findsuccessor, node. rewrite (deref_plug c s s a Hnd) by (by apply deref_root).
  cbn [res_of_option mbind res_bind]. pose proof (climb_left c s a) as Hcl. pose proof (climb_right c s a) as Hcr.
  destruct s as [|q a' b sl sr]; [done |]. injection Ha as ->. cbn [left right size] in *.
  assert (elements (plug c (Node q a b sl sr)) = (front c ++ elements sl) ++ a :: elements sr ++ behind c) as He'.
  { rewrite elements_plug. cbn [elements]. rewrite <- !app_assoc. done. }
  destruct (split_unique a (front c ++ elements sl) (elements sr ++ behind c) l r) as [<- <-]; [congruence.. |].
  split.
  - destruct sl as [|q' c' b' l' r']; [rewrite app_nil_r; apply Hcl; auto; lia |].
    cbn [elements]. by rewrite app_assoc, list.last_app, rightmost_last.
  - destruct sr as [|q' c' b' l' r']; [apply Hcr; auto; lia |].
    cbn [elements]. pose proof (leftmost_head c' l') as Hh. f_equal. rewrite <- Hh. by destruct (elements l').
Qed.

Section Walk.
Variable cmp : addr → addr → Z.
Hypothesis Hcmp : cmp_ok cmp.

Local Abbreviation order a b := (canoncmp (cmp a b)).
Local Abbreviation sorted := (sorted cmp).

(** A tree in order. *)
Record in_order (t : tree) : Prop := {
  io_bal : balanced t; io_par : parents None t; io_sorted : sorted (elements t)
}.

Lemma order_refl a : order a a = 0.
Proof. pose proof (cmp_sym _ Hcmp a a). lia. Qed.

Lemma sorted_nodup l : sorted l → NoDup l.
Proof.
  induction l as [|x l IH]; intros Hs; [constructor |].
  apply (sorted_app _ [] x l) in Hs as (_ & Hs & _ & Hx & _). constructor; [| by apply IH].
  intros Hin. eapply list.Forall_forall in Hx; [| exact Hin]. cbv beta in Hx. rewrite order_refl in Hx. lia.
Qed.

(** ** Search *)

(** The greatest node below the key and the least above it. *)
Definition below (x : addr) (l : list addr) : option addr := last (filter (λ y, order x y = 1) l).
Definition above (x : addr) (l : list addr) : option addr := head (filter (λ y, order x y = -1) l).

Definition top (c : list frame) : option addr := match c with [] => None | f :: _ => Some (fr_a f) end.
Definition turn (c : list frame) (i : Z) : Z := match c with [] => i | f :: _ => if fr_left f then -1 else 1 end.

(** The key of [x] lies at the end of the way [c]. *)
Record way (x : addr) (c : list frame) : Prop := {
  wy_front : Forall (λ y, order x y = 1) (front c);
  wy_behind : Forall (λ y, order x y = -1) (behind c)
}.

Lemma way_left x c pt a b l r :
  way x c → sorted (l ++ a :: elements r) → order x a = -1 → way x (mkFrame true pt a b r :: c).
Proof.
  intros [Hf Hb] (_ & _ & _ & Hr & _)%sorted_app Hx. constructor; cbn; [by rewrite app_nil_r |].
  constructor; [done |]. apply Forall_app. split; [| done].
  eapply Forall_impl; [| exact Hr]. cbv beta. intros y Hy. apply (order_behind _ Hcmp _ a); [done | lia].
Qed.

Lemma way_right x c pt a b l r :
  way x c → sorted (elements l ++ a :: r) → order x a = 1 → way x (mkFrame false pt a b l :: c).
Proof.
  intros [Hf Hb] (_ & _ & Hl & _ & _)%sorted_app Hx. constructor; cbn; [| done].
  rewrite !Forall_app. split_and!; [done | | by constructor].
  eapply Forall_impl; [| exact Hl]. cbv beta. intros y Hy. apply (order_before _ Hcmp _ a); [done | lia].
Qed.

Lemma lookup_loop_ok x s c i :
  parents (top c) s → sorted (elements s) → way x c →
  (∃ a, lookup_loop cmp s (top c) x (turn c i) = Ok (inl a) ∧ order x a = 0 ∧ a ∈ elements s) ∨
  (∃ c', lookup_loop cmp s (top c) x (turn c i) = Ok (inr (top c', turn c' i)) ∧
     plug c s = plug c' Nil ∧ way x c').
Proof.
  revert c. induction s as [|pt a b l IHl r IHr]; intros c Hp Hs Hw; [right; by exists c |].
  cbn in Hp, Hs. destruct Hp as (-> & Hpl & Hpr). cbn [lookup_loop]. rewrite decide_False by auto.
  pose proof Hs as (Hsl & Hsr & _)%sorted_app.
  destruct (order_cases cmp x a) as [H | [H | H]]; rewrite H.
  - destruct (IHl (mkFrame true (top c) a b r :: c)) as [(y & Hlk & ? & ?) | (c' & Hlk & Hpl' & ?)];
      [done | done | by eapply way_left | |]; [left | right].
    + exists y. split_and!; [exact Hlk | done | cbn; set_solver].
    + exists c'. split_and!; [exact Hlk | exact Hpl' | done].
  - left. exists a. split_and!; [done | done | cbn; set_solver].
  - destruct (IHr (mkFrame false (top c) a b l :: c)) as [(y & Hlk & ? & ?) | (c' & Hlk & Hpl' & ?)];
      [done | done | by eapply way_right | |]; [left | right].
    + exists y. split_and!; [exact Hlk | done | cbn; set_solver].
    + exists c'. split_and!; [exact Hlk | exact Hpl' | done].
Qed.

Lemma way_sides x c :
  way x c → let l := elements (plug c Nil) in
  same cmp x l = None ∧ below x l = last (front c) ∧ above x l = head (behind c).
Proof.
  intros [Hf Hb]. cbv zeta. rewrite elements_plug. cbn [elements app].
  assert (∀ P : addr → Prop, ∀ `{∀ y, Decision (P y)} l (i : Z), Forall (λ y, order x y = i) l →
    (∀ y, order x y = i → ¬ P y) → filter P l = []) as Hno.
  { intros P HP l i Hl Hn. apply filter_none. eapply Forall_impl; [| exact Hl]. done. }
  unfold same, below, above. rewrite !list.filter_app.
  rewrite (Hno (λ y, order x y = 0) _ (front c) 1), (Hno (λ y, order x y = 0) _ (behind c) (-1)) by (done || lia).
  rewrite (Hno (λ y, order x y = 1) _ (behind c) (-1)), (Hno (λ y, order x y = -1) _ (front c) 1) by (done || lia).
  rewrite !filter_all by done. by rewrite !app_nil_r.
Qed.

Lemma elem_split (a : addr) l : a ∈ l → ∃ l1 l2, l = l1 ++ a :: l2.
Proof. apply list_elem_of_split. Qed.

Lemma search_tree t x neighbor :
  in_order t →
  _lookupavl cmp t x neighbor =
    Ok (match same cmp x (elements t) with
        | Some a => Some a
        | None => if decide (neighbor = 0) then None
                  else if decide (neighbor < 0) then below x (elements t) else above x (elements t)
        end).
Proof.
  intros [Hb Hp Hs]. destruct t as [|pt a b l r] eqn:Ht; [cbn; destruct (decide (neighbor = 0)), (decide (neighbor < 0)); reflexivity |].
  unfold _lookupavl. rewrite <- Ht in *. clear Ht.
  destruct (lookup_loop_ok x t [] 0 Hp Hs) as [(y & Hl & Hy & Hin) | (c & Hl & Hc & Hw)];
    [by constructor; constructor | |]; cbn [top turn] in Hl; rewrite Hl; cbn [mbind res_bind].
  - apply elem_split in Hin as (l1 & l2 & He). rewrite He in *.
    by rewrite (same_app _ Hcmp x _ _ _ Hs), decide_True.
  - cbn [plug] in Hc. subst t. pose proof (way_sides x c Hw) as (-> & -> & ->).
    pose proof (sorted_nodup _ Hs) as Hnd. case_decide; [done |].
    pose proof (elements_plug c Nil) as He. destruct c as [|f c]; [cbn; by case_decide |].
    pose proof (neighbours (plug (f :: c) Nil) (fr_a f)) as Hnb. cbn [top turn front behind] in *.
    destruct (fr_left f); cbn [elements app] in He.
    + rewrite app_nil_r in *. destruct (Hnb _ _ Hnd Hp He) as [-> _]. by case_decide.
    + rewrite <- !app_assoc in He. cbn in He. rewrite app_assoc in He.
      destruct (Hnb _ _ Hnd Hp He) as [_ ->]. case_decide; [| done]. by rewrite app_assoc, list.last_snoc.
Qed.

(** ** Walks *)

(** The nodes behind [a] in a sequence. *)
Fixpoint after (a : addr) (l : list addr) : list addr :=
  match l with [] => [] | y :: l => if decide (y = a) then l else after a l end.

(** What a walk still has ahead. *)
Definition ahead (t : tree) (w : Avlwalk) : list addr :=
  if w_started w then match w_node w with Some a => after a (elements t) | None => [] end
  else elements t.

(** A walk that has not passed the end is at a node of the tree. *)
Definition walk_on (t : tree) (w : Avlwalk) : Prop :=
  match w_node w with Some a => w_started w = true ∧ a ∈ elements t | None => True end.

Definition finished (w : Avlwalk) : bool := w_started w && bool_decide (w_node w = None).

Lemma after_app a l r : NoDup (l ++ a :: r) → after a (l ++ a :: r) = r.
Proof.
  induction l as [|y l IH]; cbn; [by rewrite decide_True |]. intros [Hn Hnd]%list.NoDup_cons.
  rewrite decide_False; [by apply IH |]. set_solver.
Qed.

Lemma first_node t : match t with Nil => None | Node _ a _ l _ => Some (leftmost a l) end = head (elements t).
Proof.
  destruct t as [|p a b l r]; [done |]. cbn. pose proof (leftmost_head a l) as H. rewrite <- H. by destruct (elements l).
Qed.

Lemma last_node t : match t with Nil => None | Node _ a _ _ r => Some (rightmost a r) end = last (elements t).
Proof. destruct t as [|p a b l r]; [done |]. cbn [elements]. by rewrite list.last_app, rightmost_last. Qed.

Lemma ahead_split t w a :
  NoDup (elements t) → walk_on t w → w_node w = Some a →
  w_started w = true ∧ ∃ l, elements t = l ++ a :: ahead t w.
Proof.
  unfold walk_on, ahead. intros Hnd Ho Ha. rewrite Ha in *. destruct Ho as [Hst Hin]. rewrite Hst. split; [done |].
  apply elem_split in Hin as (l & r & He). exists l. rewrite He in *. by rewrite after_app.
Qed.

Lemma next_step T w :
  in_order (t_root T) → walk_on (t_root T) w →
  let t := t_root T in let w' := mkAvlwalk true (w_moved w) (head (ahead t w)) in
  avlnext T w = (if finished w then Err else Ok (w', head (ahead t w))) ∧
  ahead t w' = tail (ahead t w) ∧ walk_on t w'.
Proof.
  intros [_ Hp Hs%sorted_nodup] Ho. cbv zeta. set (t := t_root T) in *.
  assert (∀ l, elements t = l ++ ahead t w → let w' := mkAvlwalk true (w_moved w) (head (ahead t w)) in
    ahead t w' = tail (ahead t w) ∧ walk_on t w') as Hafter.
  { intros l He. destruct (ahead t w) as [|y r]; [done |]. unfold walk_on, ahead. cbn. rewrite He in *.
    rewrite after_app by done. split_and!; [done.. | set_solver]. }
  unfold avlnext, finished. fold t. destruct (w_started w) eqn:Hst; cbn [negb andb].
  - destruct (w_node w) as [a|] eqn:Ha; cbn [bool_decide].
    + destruct (ahead_split t w a Hs Ho Ha) as (_ & l & He).
      destruct (neighbours t a l _ Hs Hp He) as [_ ->]. cbn [mbind res_bind].
      split; [| apply (Hafter (l ++ [a])); by rewrite <- app_assoc].
      rewrite decide_False; [destruct w; cbn in Hst |- *; by subst |]. intros Hh. rewrite He in Hs.
      apply list.NoDup_app in Hs as (_ & _ & [Hn _]%list.NoDup_cons). destruct (ahead t w); [done |].
      injection Hh as ->. apply Hn. set_solver.
    + unfold ahead. rewrite Hst, Ha. done.
  - unfold ahead at 1 2. rewrite Hst, first_node. split; [done |].
    apply (Hafter []). unfold ahead. by rewrite Hst.
Qed.

(** ** Changes under a walk *)

Lemma sorted_cons x l : sorted (x :: l) ↔ sorted l ∧ Forall (λ y, order x y = -1) l.
Proof. rewrite (sorted_app _ [] x l). cbn. unfold AvlProps.sorted. split; [tauto |]. intros []. split_and!; try done; constructor. Qed.

Lemma sorted_filter (P : addr → Prop) `{∀ y, Decision (P y)} l : sorted l → sorted (filter P l).
Proof.
  induction l as [|y l IH]; [done |]. intros [Hs Hy]%sorted_cons. rewrite filter_cons.
  case_decide; [| by apply IH]. apply sorted_cons. split; [by apply IH |].
  apply list.Forall_forall. intros z [_ Hz]%list_elem_of_filter. by eapply list.Forall_forall in Hy.
Qed.

Lemma elem_ins x y l : y ∈ ins cmp x l → y = x ∨ y ∈ l.
Proof. induction l as [|z l IH]; cbn; [set_solver |]. repeat case_decide; set_solver. Qed.

Lemma sorted_ins x l : sorted l → sorted (ins cmp x l).
Proof.
  induction l as [|y l IH]; [intros _; apply sorted_cons; split; constructor |].
  intros Hs. pose proof Hs as [Hsl Hy]%sorted_cons. cbn. destruct (order_cases cmp x y) as [H | [H | H]]; rewrite H.
  - rewrite decide_True by done. apply sorted_cons. split; [done |]. constructor; [done |].
    eapply Forall_impl; [| exact Hy]. cbv beta. intros z Hz. by apply (order_behind _ Hcmp _ y); [| lia].
  - rewrite decide_False, decide_True by done. apply sorted_cons. split; [done |].
    eapply Forall_impl; [| exact Hy]. cbv beta. intros z Hz. by apply (order_behind _ Hcmp _ y); [| lia].
  - rewrite !decide_False by done. apply sorted_cons. split; [by apply IH |].
    apply list.Forall_forall. intros z [-> | Hz]%elem_ins.
    + pose proof (cmp_sym _ Hcmp x y). lia.
    + by eapply list.Forall_forall in Hy.
Qed.

(** A node taken out: its walks go back to the node before it. *)
Definition stepped_back (t : tree) (x : addr) (w w' : Avlwalk) : Prop :=
  match same cmp x (elements t), w_node w with
  | Some a, Some b =>
      if decide (b = a) then
        ∃ p, findpredecessor t (Some a) = Ok p ∧ w' = mkAvlwalk (if p is None then false else w_started w) true p
      else w' = w
  | _, _ => w' = w
  end.

Lemma same_at x l a r : sorted (l ++ a :: r) → order x a = 0 → same cmp x (l ++ a :: r) = Some a.
Proof. intros Hs Hx. by rewrite (same_app _ Hcmp _ _ _ _ Hs), decide_True. Qed.

Lemma same_split x l a : sorted l → same cmp x l = Some a → order x a = 0 ∧ a ∈ l.
Proof.
  unfold same. intros Hs Ha. assert (a ∈ filter (λ y, order x y = 0) l) as Hin.
  { destruct (filter _ l); [done |]. injection Ha as ->. set_solver. }
  by apply list_elem_of_filter in Hin.
Qed.

Lemma del_at x l a r : sorted (l ++ a :: r) → order x a = 0 → del cmp x (l ++ a :: r) = l ++ r ∧ del cmp x r = r.
Proof.
  intros Hs Hx. split; [by rewrite (del_app _ Hcmp _ _ _ _ Hs), decide_True |].
  apply sorted_app in Hs as (_ & _ & _ & Hr & _). apply filter_all.
  eapply Forall_impl; [| exact Hr]. cbv beta. intros y Hy. rewrite (order_behind _ Hcmp x a y); lia.
Qed.

Lemma ahead_deleted t t' x w w' :
  in_order t → walk_on t w → in_order t' → elements t' = del cmp x (elements t) → stepped_back t x w w' →
  walk_on t' w' ∧ ahead t' w' = del cmp x (ahead t w).
Proof.
  intros [_ Hp Hs] Ho [_ _ Hs'] He' Hw. pose proof (sorted_nodup _ Hs) as Hnd. pose proof (sorted_nodup _ Hs') as Hnd'.
  unfold stepped_back in Hw. destruct (w_node w) as [a|] eqn:Ha.
  2:{ assert (w' = w) as -> by (by destruct (same cmp x (elements t))).
      unfold walk_on, ahead. rewrite Ha. destruct (w_started w); rewrite ?He'; done. }
  destruct (ahead_split t w a Hnd Ho Ha) as [Hst (l & He)]. remember (ahead t w) as R eqn:HR. clear HR.
  destruct (decide (order x a = 0)) as [Hx | Hx].
  - pose proof Hs as Hs2. rewrite He in Hs2. destruct (del_at _ _ _ _ Hs2 Hx) as [Hd1 Hd2].
    rewrite He in Hw. rewrite (same_at _ _ _ _ Hs2 Hx), decide_True in Hw by done. destruct Hw as (p & Hpr & ->).
    destruct (neighbours t a _ _ Hnd Hp He) as [Hl _]. rewrite Hl in Hpr. injection Hpr as <-.
    rewrite Hd2. unfold walk_on, ahead. cbn [w_node w_started]. rewrite He', He, Hd1 in *.
    destruct l as [|p l _] using rev_ind; [done |]. rewrite list.last_snoc, Hst. rewrite <- app_assoc in *. cbn in *.
    split_and!; [done | set_solver | by apply after_app].
  - assert (w' = w) as ->.
    { destruct (same cmp x (elements t)) as [b|] eqn:Hb; [| done]. apply same_split in Hb as [Hb _]; [| done].
      rewrite decide_False in Hw by congruence. done. }
    unfold walk_on, ahead. rewrite Ha, Hst. rewrite He', He in *.
    unfold del in *. rewrite list.filter_app, filter_cons_True in * by done.
    split_and!; [done | set_solver |]. rewrite !after_app by done. done.
Qed.

Lemma delete_step T x :
  in_order (t_root T) → Forall (λ v, walk_on (t_root T) v.2) (t_walks T) →
  ∃ T', deleteavl cmp T x = Ok (T', same cmp x (elements (t_root T))) ∧ in_order (t_root T') ∧
    elements (t_root T') = del cmp x (elements (t_root T)) ∧
    Forall2 (λ v v', v'.1 = v.1 ∧ stepped_back (t_root T) x v.2 v'.2) (t_walks T) (t_walks T').
Proof.
  intros [Hb Hp Hs] Hws. destruct (delete_tree cmp Hcmp (t_root T) None x Hb Hp Hs) as (t' & d & Hdel & []).
  assert (in_order t') as Ht'. { constructor; [done.. |]. rewrite sk_el. by apply sorted_filter. }
  unfold deleteavl. rewrite Hdel. cbn [mbind res_bind].
  destruct (same cmp x (elements (t_root T))) as [a|] eqn:Ha; cbn [mbind res_bind].
  - pose proof Ha as [Hx Hin]%same_split; [| done]. apply elem_split in Hin as (l & r & He).
    destruct (neighbours _ a l r (sorted_nodup _ Hs) Hp He) as [Hpr _]. unfold walkdel. rewrite Hpr. cbn [mbind res_bind].
    eexists. split_and!; [reflexivity | done | done |]. cbn [t_walks]. rewrite Forall2_fmap_r.
    apply Forall2_same_length_lookup. split; [done |]. intros i v v' Hv Hv'. assert (v' = v) as -> by congruence. unfold stepped_back. rewrite Ha.
    unfold compose. destruct (decide (w_node v.2 = Some a)) as [Hn | Hn]; cbn [fst snd].
    + rewrite Hn, decide_True by done. eauto.
    + split; [done |]. destruct (w_node v.2); [| done]. by rewrite decide_False by congruence.
  - eexists. split_and!; [reflexivity | done | done |]. cbn [t_walks].
    apply Forall2_same_length_lookup. split; [done |]. intros i v v' Hv Hv'. assert (v' = v) as -> by congruence. unfold stepped_back. by rewrite Ha.
Qed.

Lemma insert_step T x :
  in_order (t_root T) →
  ∃ t', insertavl cmp T x = Ok (mkAvltree t' (t_walks T), same cmp x (elements (t_root T))) ∧ in_order t' ∧
    elements t' = ins cmp x (elements (t_root T)).
Proof.
  intros [Hb Hp Hs]. destruct (insert_tree cmp Hcmp (t_root T) None x Hb Hp Hs) as (t' & d & Hi & []).
  exists t'. unfold insertavl. rewrite Hi. split_and!; [by destruct T | | done].
  constructor; [done.. |]. rewrite it_el. by apply sorted_ins.
Qed.

Lemma ins_fresh_after x a l r :
  sorted (l ++ a :: r) → order x a ≠ 0 →
  ins cmp x (l ++ a :: r) = if decide (order x a < 0) then ins cmp x l ++ a :: r else l ++ a :: ins cmp x r.
Proof. intros Hs Hx. by rewrite (ins_app _ Hcmp _ _ _ _ Hs), decide_False. Qed.

Lemma ahead_inserted t t' x w :
  in_order t → walk_on t w → in_order t' → elements t' = ins cmp x (elements t) → same cmp x (elements t) = None →
  walk_on t' w ∧
  ahead t' w = match w_node w with
               | Some a => if decide (order x a < 0) then ahead t w else ins cmp x (ahead t w)
               | None => if w_started w then [] else ins cmp x (ahead t w)
               end.
Proof.
  intros [_ Hp Hs] Ho [_ _ Hs'] He' Hno. pose proof (sorted_nodup _ Hs) as Hnd. pose proof (sorted_nodup _ Hs') as Hnd'.
  destruct (w_node w) as [a|] eqn:Ha.
  2:{ unfold walk_on, ahead. rewrite Ha. by destruct (w_started w). }
  destruct (ahead_split t w a Hnd Ho Ha) as [Hst (l & He)]. remember (ahead t w) as R eqn:HR. clear HR. pose proof Hs as Hs2. rewrite He in Hs2.
  assert (order x a ≠ 0) as Hx. { intros Hx. by rewrite He, same_at in Hno. }
  pose proof (ins_fresh_after x a _ _ Hs2 Hx) as Hi. rewrite <- He in Hi.
  unfold walk_on, ahead. rewrite Ha, Hst. rewrite He' in *. rewrite Hi in *.
  case_decide; (split; [set_solver | by apply after_app]).
Qed.

(** ** Depth *)

Lemma depth_log t : balanced t → 2 ^ height t ≤ (Z.of_nat (size t) + 1) ^ 2.
Proof.
  induction t as [|p a b l IHl r IHr]; [done |]. cbn [balanced height size]. intros (-> & Hb & Hl & Hr).
  specialize (IHl Hl). specialize (IHr Hr). pose proof (height_nonneg l) as H0. pose proof (height_nonneg r) as H0'.
  assert (∀ hl hr m n, 0 ≤ hl → 0 ≤ hr → -1 ≤ hr - hl ≤ 0 → 0 ≤ m → 0 ≤ n → 2 ^ hl ≤ (m + 1) ^ 2 → 2 ^ hr ≤ (n + 1) ^ 2 →
    2 ^ (1 + hl) ≤ (m + n + 2) ^ 2) as Hgen.
  { intros hl hr m n ? ? Hd ? ? Hm Hn. rewrite Z.pow_add_r by lia. change (2 ^ 1) with 2.
    assert (2 ^ hl ≤ 2 * 2 ^ hr) as Hle.
    { transitivity (2 ^ (1 + hr)); [apply Z.pow_le_mono_r; lia | by rewrite Z.pow_add_r by lia]. }
    assert (2 ^ hl / 2 ≤ (m + 1) * (n + 1)) as Hc; [| pose proof (Z.div_mod (2 ^ hl) 2 ltac:(done)); pose proof (Z.mod_pos_bound (2 ^ hl) 2 ltac:(done)); nia].
    set (A := 2 ^ hl) in *. set (B := 2 ^ hr) in *.
    assert (0 < A) by (apply Z.pow_pos_nonneg; lia).
    pose proof (Z.div_mod A 2 ltac:(done)). pose proof (Z.mod_pos_bound A 2 ltac:(done)).
    assert (A / 2 * (A / 2) ≤ ((m + 1) * (n + 1)) * ((m + 1) * (n + 1))) by nia. nia. }
  destruct (decide (height r ≤ height l)) as [Hc | Hc].
  - rewrite Z.max_l by lia. specialize (Hgen (height l) (height r) (Z.of_nat (size l)) (Z.of_nat (size r))).
    replace (Z.of_nat (S (size l + size r)) + 1) with (Z.of_nat (size l) + Z.of_nat (size r) + 2) by lia.
    apply Hgen; auto; lia.
  - rewrite Z.max_r by lia. specialize (Hgen (height r) (height l) (Z.of_nat (size r)) (Z.of_nat (size l))).
    replace (Z.of_nat (S (size l + size r)) + 1) with (Z.of_nat (size r) + Z.of_nat (size l) + 2) by lia.
    apply Hgen; auto; lia.
Qed.

Lemma length_elements t : length (elements t) = size t.
Proof. induction t; cbn; [done |]. rewrite length_app. cbn. lia. Qed.

(** ** A tree is a sorted list *)

(** What a client asks of a tree, and what it is answered. *)
Inductive call : Type :=
  | Insert (x : addr)
  | Delete (x : addr)
  | Search (x : addr) (neighbor : Z).

Definition serve (T : Avltree) (c : call) : res (Avltree * option addr) :=
  match c with
  | Insert x => insertavl cmp T x
  | Delete x => deleteavl cmp T x
  | Search x neighbor => a ← searchavl cmp T x neighbor; Ok (T, a)
  end.

Fixpoint serves (T : Avltree) (cs : list call) : res (Avltree * list (option addr)) :=
  match cs with
  | [] => Ok (T, [])
  | c :: cs => '(T, a) ← serve T c; '(T, l) ← serves T cs; Ok (T, a :: l)
  end.

(** The same on a sorted list. *)
Definition list_serve (l : list addr) (c : call) : list addr * option addr :=
  match c with
  | Insert x => (ins cmp x l, same cmp x l)
  | Delete x => (del cmp x l, same cmp x l)
  | Search x neighbor =>
      (l, match same cmp x l with
          | Some a => Some a
          | None => if decide (neighbor = 0) then None
                    else if decide (neighbor < 0) then below x l else above x l
          end)
  end.

Fixpoint list_serves (l : list addr) (cs : list call) : list addr * list (option addr) :=
  match cs with
  | [] => (l, [])
  | c :: cs => let '(l, a) := list_serve l c in let '(l, r) := list_serves l cs in (l, a :: r)
  end.

Lemma serve_list T c :
  in_order (t_root T) → t_walks T = [] →
  ∃ T', serve T c = Ok (T', (list_serve (elements (t_root T)) c).2) ∧ in_order (t_root T') ∧ t_walks T' = [] ∧
    elements (t_root T') = (list_serve (elements (t_root T)) c).1.
Proof.
  intros HT Hw. destruct c as [x | x | x n]; cbn [serve list_serve fst snd].
  - destruct (insert_step T x HT) as (t' & -> & ? & ?). rewrite Hw. eauto.
  - destruct (delete_step T x HT) as (T' & -> & ? & ? & Hw'); [by rewrite Hw; constructor |].
    rewrite Hw in Hw'. apply Forall2_nil_inv_l in Hw'. eauto.
  - unfold searchavl. rewrite search_tree by done. cbn [mbind res_bind]. eauto.
Qed.

Lemma serves_list T cs :
  in_order (t_root T) → t_walks T = [] →
  ∃ T', serves T cs = Ok (T', (list_serves (elements (t_root T)) cs).2) ∧ in_order (t_root T') ∧
    elements (t_root T') = (list_serves (elements (t_root T)) cs).1.
Proof.
  revert T. induction cs as [|c cs IH]; intros T HT Hw; [cbn; eauto |].
  cbn [serves list_serves]. destruct (serve_list T c HT Hw) as (T1 & -> & HT1 & Hw1 & He1). cbn [mbind res_bind].
  destruct (IH T1 HT1 Hw1) as (T2 & -> & HT2 & He2). rewrite He1 in *.
  destruct (list_serve (elements (t_root T)) c) as [l a]. cbn [fst snd] in *. cbn [mbind res_bind].
  destruct (list_serves l cs) as [l' r]. cbn [fst snd] in *. eauto.
Qed.
End Walk.

(** ** The properties *)

(** The order of the addresses themselves, for the witnesses. *)
Definition by_addr (a b : addr) : Z := Z.pos a - Z.pos b.

Lemma by_addr_ok : cmp_ok by_addr.
Proof. constructor; unfold by_addr, canoncmp; intros; repeat case_decide; lia. Qed.

Lemma in_order_empty cmp : in_order cmp (t_root mkavltree).
Proof. constructor; cbn; [done | done | constructor]. Qed.

(** C36.  A tree is a sorted list: whatever is inserted, deleted and searched, starting
    with an empty tree, each call returns what it returns on the sorted list of the nodes
    (the node replaced, deleted or found), no assertion fails and no nil pointer is
    followed; the tree holds the nodes of that list in order, its balances and parent
    pointers are right, and its height is at most twice the logarithm of their number. *)
Theorem tree_refines_list cmp cs :
  cmp_ok cmp →
  ∃ T, serves cmp mkavltree cs = Ok (T, (list_serves cmp [] cs).2) ∧
    elements (t_root T) = (list_serves cmp [] cs).1 ∧ in_order cmp (t_root T) ∧
    2 ^ height (t_root T) ≤ (Z.of_nat (size (t_root T)) + 1) ^ 2.
Proof.
  intros Hc. destruct (serves_list cmp Hc mkavltree cs) as (T & Hs & HT & He); [apply in_order_empty | done |].
  exists T. split_and!; [exact Hs | exact He | exact HT |]. apply depth_log, (io_bal _ _ HT).
Qed.

Definition demo_calls : list call :=
  map Insert [4; 2; 6; 1; 3; 5; 7; 8; 9]%positive ++ map Delete [4; 1; 2; 10]%positive ++
  [Search 4%positive 1; Search 4%positive (-1); Search 6%positive 0].

Lemma tree_refines_list_witness :
  ∃ T, serves by_addr mkavltree demo_calls = Ok (T, (list_serves by_addr [] demo_calls).2) ∧
    elements (t_root T) = [3; 5; 6; 7; 8; 9]%positive ∧ height (t_root T) = 3.
Proof.
  destruct (tree_refines_list by_addr demo_calls by_addr_ok) as (T & Hs & He & _). exists T.
  split; [exact Hs |]. split; [rewrite He; vm_compute; reflexivity |].
  vm_compute in Hs. injection Hs as <-. vm_compute. reflexivity.
Defined.

(** Searchavl returns the node with the key; if there is none, with a negative
    neighbor the greatest node below the key, with a positive one the least node above it,
    and otherwise nothing. *)
Theorem search_neighbor cmp T x neighbor :
  cmp_ok cmp → in_order cmp (t_root T) →
  searchavl cmp T x neighbor =
    Ok (match same cmp x (elements (t_root T)) with
        | Some a => Some a
        | None => if decide (neighbor = 0) then None
                  else if decide (neighbor < 0) then below cmp x (elements (t_root T))
                  else above cmp x (elements (t_root T))
        end).
Proof. intros Hc HT. by apply search_tree. Qed.

(** Even numbers, with all shapes of a small tree. *)
Definition demo_tree : Avltree :=
  match serves by_addr mkavltree (map Insert [8; 4; 12; 2; 6; 10]%positive) with Ok (T, _) => T | _ => mkavltree end.

Lemma demo_in_order : in_order by_addr (t_root demo_tree).
Proof. constructor; [vm_compute; intuition congruence | vm_compute; tauto | vm_compute; repeat constructor]. Qed.

Lemma search_neighbor_witness :
  searchavl by_addr demo_tree 7 (-1) = Ok (Some 6%positive) ∧ searchavl by_addr demo_tree 7 1 = Ok (Some 8%positive) ∧
  searchavl by_addr demo_tree 1 (-1) = Ok None ∧ searchavl by_addr demo_tree 13 1 = Ok None ∧
  searchavl by_addr demo_tree 10 0 = Ok (Some 10%positive).
Proof.
  split_and!; rewrite (search_neighbor by_addr _ _ _ by_addr_ok demo_in_order); vm_compute; reflexivity.
Defined.

(** [n] calls of avlnext. *)
Fixpoint nexts (n : nat) (T : Avltree) (w : Avlwalk) : res (Avlwalk * list (option addr)) :=
  match n with
  | O => Ok (w, [])
  | S n => '(w, a) ← avlnext T w; '(w, l) ← nexts n T w; Ok (w, a :: l)
  end.

(** C37.  A new walk of a tree gives its nodes in order, one by one, and then nil; called
    once more, avlnext aborts.  A walk that is under way gives in the same way what it has
    ahead. *)
Theorem walk_enumerates cmp T w :
  cmp_ok cmp → in_order cmp (t_root T) → walk_on (t_root T) w → finished w = false →
  ∃ w', nexts (S (length (ahead (t_root T) w))) T w = Ok (w', map Some (ahead (t_root T) w) ++ [None]) ∧
    avlnext T w' = Err.
Proof.
  intros Hc HT Ho Hf. remember (ahead (t_root T) w) as l eqn:Hl. revert w Ho Hf Hl.
  induction l as [|a l IH]; intros w Ho Hf Hl; cbn [length nexts map app];
    destruct (next_step cmp Hc T w HT Ho) as (-> & Ha & Ho'); rewrite Hf, <- Hl in *; cbn [mbind res_bind list.head].
  - eexists. split; [reflexivity |]. by destruct (next_step cmp Hc T (mkAvlwalk true (w_moved w) None) HT I) as (-> & _ & _).
  - destruct (IH (mkAvlwalk true (w_moved w) (Some a))) as (w' & Hn & He); [done | done | done |].
    cbn [nexts] in Hn. exists w'. split; [| done]. cbn [list.head] in *. by rewrite Hn.
Qed.

Lemma walk_enumerates_witness :
  ∃ w', nexts 7 demo_tree (mkAvlwalk false false None) =
    Ok (w', [Some 2; Some 4; Some 6; Some 8; Some 10; Some 12; None]%positive) ∧ avlnext demo_tree w' = Err.
Proof.
  exact (walk_enumerates by_addr demo_tree (mkAvlwalk false false None) by_addr_ok demo_in_order I eq_refl).
Defined.

(** A walk survives changes of its tree: after a deletion it has ahead what it had,
    without the node deleted (also when that is the node it is at), and after an insertion
    the new node too if that lies beyond its node. *)
Theorem walk_survives cmp T x :
  cmp_ok cmp → in_order cmp (t_root T) → Forall (λ v, walk_on (t_root T) v.2) (t_walks T) →
  (∃ T' old, deleteavl cmp T x = Ok (T', old) ∧
     Forall2 (λ v v', v'.1 = v.1 ∧ walk_on (t_root T') v'.2 ∧
                      ahead (t_root T') v'.2 = del cmp x (ahead (t_root T) v.2)) (t_walks T) (t_walks T')) ∧
  (same cmp x (elements (t_root T)) = None →
   ∃ t', insertavl cmp T x = Ok (mkAvltree t' (t_walks T), None) ∧
     Forall (λ v, walk_on t' v.2 ∧
       ahead t' v.2 = match w_node v.2 with
                      | Some a => if decide (canoncmp (cmp x a) < 0) then ahead (t_root T) v.2
                                  else ins cmp x (ahead (t_root T) v.2)
                      | None => if w_started v.2 then [] else ins cmp x (ahead (t_root T) v.2)
                      end) (t_walks T)).
Proof.
  intros Hc HT Hw. split.
  - destruct (delete_step cmp Hc T x HT Hw) as (T' & Hd & HT' & He & Hs). exists T', (same cmp x (elements (t_root T))).
    split; [done |]. apply Forall2_same_length_lookup. split; [by eapply Forall2_length |].
    intros i v v' Hv Hv'. destruct (Forall2_lookup_lr _ _ _ _ _ _ Hs Hv Hv') as [? ?]. split; [done |].
    eapply ahead_deleted; [done.. | | done | done | done]. by eapply (Forall_lookup_1 _ _ _ _ Hw).
  - intros Hno. destruct (insert_step cmp Hc T x HT) as (t' & Hi & HT' & He). exists t'. rewrite Hno in Hi.
    split; [done |]. eapply Forall_impl; [| exact Hw]. cbv beta. intros v Hv. by apply (ahead_inserted cmp Hc (t_root T) t' x).
Qed.

(** A walk at 6 and one not yet started. *)
Definition demo_walks : Avltree :=
  mkAvltree (t_root demo_tree) [(1%positive, mkAvlwalk true false (Some 6%positive)); (2%positive, mkAvlwalk false false None)].

Lemma walk_survives_witness :
  ∃ T' old, deleteavl by_addr demo_walks 6 = Ok (T', old) ∧
    map (λ v, ahead (t_root T') v.2) (t_walks T') = [[8; 10; 12]; [2; 4; 8; 10; 12]]%positive.
Proof.
  destruct (walk_survives by_addr demo_walks 6 by_addr_ok demo_in_order) as [(T' & old & Hd & _) _].
  { repeat constructor; vm_compute; repeat constructor. }
  exists T', old. split; [exact Hd |]. vm_compute in Hd. injection Hd as <- _. vm_compute. reflexivity.
Defined.

(** Turning round: avlprev after avlnext goes back to the node the walk came from;
    but if a node was deleted under the walk, which sets [moved], and avlnext has been
    called since, avlprev gives the node of that call again. *)
Theorem walk_turns cmp T w a b l r :
  cmp_ok cmp → in_order cmp (t_root T) →
  elements (t_root T) = l ++ a :: b :: r → w_started w = true → w_node w = Some a →
  ∃ w' w'', avlnext T w = Ok (w', Some b) ∧
    avlprev T w' = Ok (w'', Some (if w_moved w then b else a)) ∧ w_moved w'' = false.
Proof.
  intros Hc HT He Hst Ha. pose proof HT as [_ Hp Hs%sorted_nodup]; [| done].
  destruct (neighbours _ a l (b :: r) Hs Hp He) as [_ Hn].
  destruct (neighbours _ b (l ++ [a]) r Hs Hp) as [Hb _]; [by rewrite He, <- app_assoc |].
  rewrite He in Hs. assert (a ≠ b) as Hab.
  { apply list.NoDup_app in Hs as (_ & _ & [Hni _]%list.NoDup_cons). set_solver. }
  unfold avlnext. rewrite Hst, Ha. cbn [negb]. rewrite Hn. cbn [mbind res_bind list.head].
  rewrite decide_False by congruence.
  exists (mkAvlwalk true (w_moved w) (Some b)), (mkAvlwalk true false (Some (if w_moved w then b else a))).
  destruct w as [st mv nd]. cbn in Hst, Ha. subst st nd. split; [done |].
  split; [| done]. unfold avlprev. cbn [negb w_started w_moved w_node]. destruct mv; [done |].
  rewrite Hb. cbn [mbind res_bind]. rewrite list.last_snoc. by rewrite decide_False by congruence.
Qed.

Lemma walk_turns_witness :
  (∃ w' w'', avlnext demo_tree (mkAvlwalk true false (Some 6%positive)) = Ok (w', Some 8%positive) ∧
     avlprev demo_tree w' = Ok (w'', Some 6%positive)) ∧
  (∃ w' w'', avlnext demo_tree (mkAvlwalk true true (Some 6%positive)) = Ok (w', Some 8%positive) ∧
     avlprev demo_tree w' = Ok (w'', Some 8%positive)).
Proof.
  split.
  - destruct (walk_turns by_addr demo_tree (mkAvlwalk true false (Some 6%positive)) 6 8 [2; 4] [10; 12])%positive
      as (w' & w'' & ? & ? & _); [exact by_addr_ok | exact demo_in_order | by vm_compute.. |]. by exists w', w''.
  - destruct (walk_turns by_addr demo_tree (mkAvlwalk true true (Some 6%positive)) 6 8 [2; 4] [10; 12])%positive
      as (w' & w'' & ? & ? & _); [exact by_addr_ok | exact demo_in_order | by vm_compute.. |]. by exists w', w''.
Defined.
