(* ===== verification/Chan.v ===== *)
(** * Chan: the channels of the thread library

    sys/src/libthread/channel.c, with _threadrendezvous of rendez.c.

    Channels and the client's objects live in heaps indexed by address; using a freed
    channel, or an object too small for an element, is [Ub], and abort or a failed
    assertion [Err].  An Alt is reached as its index in the array of the thread that called
    alt: a thread is in one call at a time.  The tag of an enqueued Alt points to the
    variable [c] of the call that enqueued it, so [*a->tag] is the [t_c] of that thread.

    The library works in sections under the lock [chanlock]; each of them is one step, and
    a thread stops between them where the code calls _threadrendezvous.  [nrand] are the
    numbers the calls of nrand draw; each loop calls it with increasing arguments.  The
    field entryno, which is never read, and the marking of threads for debugging and for
    threadkill are left out. *)

From S2P Require Import Prelude.

Abbreviation chan := positive.
Abbreviation tid := positive.
Abbreviation addr := positive.

(** ** Data *)

Inductive ChanOp : Type := CHANEND | CHANSND | CHANRCV | CHANNOP | CHANNOBLK.

#[export] Instance ChanOp_eq_dec : EqDecision ChanOp.
Proof. solve_decision. Defined.

(** A pointer to a value: nil, an object of the client, or a slot of a channel's [v]. *)
Inductive ptr : Type := Pnil | Pobj (a : addr) | Pslot (c : chan) (i : Z).

#[export] Instance ptr_eq_dec : EqDecision ptr.
Proof. solve_decision. Defined.

(** The member err: nil, the string [errcl], or another string. *)
Inductive errstr : Type := Enil | Errcl | Eother.

#[export] Instance errstr_eq_dec : EqDecision errstr.
Proof. solve_decision. Defined.

Record Alt : Type := mkAlt { a_c : option chan; a_v : ptr; a_op : ChanOp; a_err : errstr }.

#[export] Instance Alt_rebuild : Rebuild Alt := λ a, mkAlt (a_c a) (a_v a) (a_op a) (a_err a).

(** An enqueued Alt: a thread, and the index in its array. *)
Abbreviation entry := (tid * nat)%type.

Record Channel : Type := mkChannel {
  ch_s : Z;
  ch_f : Z;
  ch_n : Z;
  ch_e : Z;
  ch_freed : bool;
  ch_qentry : list (option entry);
  ch_closed : Z;
  ch_v : list (list Z)
}.

#[export] Instance Channel_rebuild : Rebuild Channel := λ c,
  mkChannel (ch_s c) (ch_f c) (ch_n c) (ch_e c) (ch_freed c) (ch_qentry c) (ch_closed c) (ch_v c).

(** What a rendezvous gives: 0, [Closed] or [Intred]. *)
Inductive rval : Type := Zero | Closed | Intred.

#[export] Instance rval_eq_dec : EqDecision rval.
Proof. solve_decision. Defined.

(** The variable [c] of alt: nil, a channel, or [~0]. *)
Inductive cvar : Type := Cnil | Cchan (c : chan) | Cint.

#[export] Instance cvar_eq_dec : EqDecision cvar.
Proof. solve_decision. Defined.

(** What follows a rendezvous with a waiting thread: alt returns, or chanclose goes on. *)
Inductive kont : Type := KAlt (i : Z) | KClose (c : chan) (i : nat).

(** Where a thread is: out of the library, with the result of its last call; in the
    rendezvous of its own alt, or come out of it with a value; in the rendezvous with the
    thread [u] whose alt it has chosen; or in the loop of chanclose. *)
Inductive place : Type :=
  | Idle (r : Z)
  | Waiting
  | Woken (r : rval)
  | Meeting (u : tid) (v : rval) (k : kont)
  | Closing (c : chan) (i : nat).

Record Thread : Type := mkThread { t_alts : list Alt; t_c : cvar; t_pc : place }.

#[export] Instance Thread_rebuild : Rebuild Thread := λ t, mkThread (t_alts t) (t_c t) (t_pc t).

Record world : Type := mkWorld {
  w_chans : gmap chan Channel;
  w_mem : gmap addr (list Z);
  w_threads : gmap tid Thread
}.

#[export] Instance world_rebuild : Rebuild world := λ w, mkWorld (w_chans w) (w_mem w) (w_threads w).

(** ** Memory *)

Definition getchan (w : world) (c : chan) : res Channel := res_of_option (w_chans w !! c).
Definition setchan (c : chan) (ch : Channel) (w : world) : world := w <| w_chans := <[c := ch]> (w_chans w) |>.
Definition getthread (w : world) (t : tid) : res Thread := res_of_option (w_threads w !! t).
Definition setthread (t : tid) (th : Thread) (w : world) : world := w <| w_threads := <[t := th]> (w_threads w) |>.

Definition setpc (t : tid) (p : place) (w : world) : res world :=
  th ← getthread w t; Ok (setthread t (th <| t_pc := p |>) w).

(** [*p = c] for the variable [c] of the thread [t]. *)
Definition settag (t : tid) (c : cvar) (w : world) : res world :=
  th ← getthread w t; Ok (setthread t (th <| t_c := c |>) w).

Definition load (w : world) (p : ptr) (sz : Z) : res (list Z) :=
  match p with
  | Pnil => Ub
  | Pobj a => l ← res_of_option (w_mem w !! a); if decide (sz ≤ len l) then Ok (takeZ sz l) else Ub
  | Pslot c i => ch ← getchan w c; if decide (0 ≤ i) then res_of_option (ch_v ch !! Z.to_nat i) else Ub
  end.

Definition store (p : ptr) (x : list Z) (w : world) : res world :=
  match p with
  | Pnil => Ub
  | Pobj a =>
      l ← res_of_option (w_mem w !! a);
      if decide (len x ≤ len l) then Ok (w <| w_mem := <[a := x ++ dropZ (len x) l]> (w_mem w) |>) else Ub
  | Pslot c i =>
      ch ← getchan w c;
      if decide (0 ≤ i < len (ch_v ch)) then Ok (setchan c (ch <| ch_v := <[Z.to_nat i := x]> (ch_v ch) |>) w) else Ub
  end.

Definition altcopy (dst src : ptr) (sz : Z) (w : world) : res world :=
  if decide (dst = Pnil) then Ok w
  else if decide (src = Pnil) then store dst (replicate (Z.to_nat sz) 0) w
  else x ← load w src sz; store dst x w.

(** ** Creation and freeing *)

(** The channel as _threadmalloc, which zeroes it, and the two assignments leave it. *)
Definition newchannel (elemsize elemcnt : Z) : Channel :=
  mkChannel elemcnt 0 0 elemsize false [] 0 (replicate (Z.to_nat elemcnt) (replicate (Z.to_nat elemsize) 0)).

(** [c] is the address _threadmalloc gives. *)
Definition chancreate (elemsize elemcnt : Z) (c : chan) (w : world) : option chan * world :=
  if decide (elemcnt < 0 ∨ elemsize ≤ 0) then (None, w)
  else (Some c, setchan c (newchannel elemsize elemcnt) w).

Definition chaninit (c : Channel) (elemsize elemcnt : Z) : Z * Channel :=
  if decide (elemcnt < 0 ∨ elemsize ≤ 0) then (-1, c)
  else (1, c <| ch_f := 0 |> <| ch_n := 0 |> <| ch_closed := 0 |> <| ch_freed := false |>
             <| ch_e := elemsize |> <| ch_s := elemcnt |>).

Definition _chanfree (c : chan) (w : world) : res world :=
  ch ← getchan w c;
  if decide (ch_closed ch = 1 ∨ Exists is_Some (ch_qentry ch)) then Ok (setchan c (ch <| ch_freed := true |>) w)
  else Ok (w <| w_chans := delete c (w_chans w) |>).

Definition chanfree := _chanfree.

(** ** Alts *)

Definition getalt (w : world) (e : entry) : res Alt :=
  th ← getthread w e.1; res_of_option (t_alts th !! e.2).

(** The entries of an array, up to CHANEND or CHANNOBLK, and that. *)
Fixpoint entries (alts : list Alt) : res (list Alt * ChanOp) :=
  match alts with
  | [] => Ub
  | a :: alts =>
      if decide (a_op a = CHANEND ∨ a_op a = CHANNOBLK) then Ok ([], a_op a)
      else '(l, e) ← entries alts; Ok (a :: l, e)
  end.

Definition isopenfor (ch : Channel) (op : ChanOp) : bool :=
  bool_decide (ch_closed ch = 0) || (bool_decide (op = CHANRCV) && bool_decide (0 < ch_n ch)).

(** [CHANSND+CHANRCV - op] *)
Definition otherop (op : ChanOp) : ChanOp :=
  match op with CHANSND => CHANRCV | CHANRCV => CHANSND | CHANEND => CHANNOP | CHANNOP => CHANEND | CHANNOBLK => CHANNOBLK end.

(** [c->qentry[i] && c->qentry[i]->op==op && *c->qentry[i]->tag==nil] *)
Definition ready (w : world) (op : ChanOp) (q : option entry) : res bool :=
  match q with
  | None => Ok false
  | Some e =>
      b ← getalt w e;
      if decide (a_op b = op) then th ← getthread w e.1; Ok (bool_decide (t_c th = Cnil)) else Ok false
  end.

Fixpoint canmeet (w : world) (op : ChanOp) (q : list (option entry)) : res bool :=
  match q with
  | [] => Ok false
  | e :: q => b ← ready w op e; match b with true => Ok true | false => canmeet w op q end
  end.

Definition room (ch : Channel) (op : ChanOp) : bool :=
  (bool_decide (op = CHANSND) && bool_decide (ch_n ch < ch_s ch)) ||
  (bool_decide (op = CHANRCV) && bool_decide (0 < ch_n ch)).

Definition canexec (w : world) (ch : Channel) (a : Alt) : res bool :=
  b ← canmeet w (otherop (a_op a)) (ch_qentry ch);
  Ok (b || room ch (a_op a)).

(** One pass of [if(nrand(++n) == 0) b = e]: the choice made so far and its count. *)
Definition draw {A} (nrand : nat → Z) (n : nat) (x : A) (b : option A) : nat * option A :=
  (S n, if decide (nrand (S n) = 0) then Some x else b).

Fixpoint pick (w : world) (op : ChanOp) (nrand : nat → Z) (q : list (option entry)) (n : nat) (b : option entry)
    : res (option entry) :=
  match q with
  | [] => Ok b
  | e :: q =>
      r ← ready w op e;
      match r, e with
      | true, Some e => let '(n, b) := draw nrand n e b in pick w op nrand q n b
      | _, _ => pick w op nrand q n b
      end
  end.

Definition altexecbuffered (c : chan) (a : Alt) (willreplace : bool) (w : world) : res (world * ptr) :=
  ch ← getchan w c;
  if decide (a_op a = CHANRCV ∧ 0 < ch_n ch) then
    if decide (ch_s ch = 0) then Ub else
    let ch' := if willreplace then ch else ch <| ch_n := u32 (ch_n ch - 1) |> in
    Ok (setchan c (ch' <| ch_f := u32 (ch_f ch + 1) |>) w, Pslot c (ch_f ch `mod` ch_s ch))
  else if decide (a_op a = CHANSND ∧ ch_n ch < ch_s ch) then
    if decide (ch_s ch = 0) then Ub else
    let ch' := if willreplace then ch else ch <| ch_n := u32 (ch_n ch + 1) |> in
    Ok (setchan c ch' w, Pslot c (u32 (ch_f ch + ch_n ch) `mod` ch_s ch))
  else Err.

(** Up to the unlock; the thread whose Alt was chosen, which it then meets. *)
Definition altexec (a : Alt) (nrand : nat → Z) (w : world) : res (world * option tid) :=
  match a_c a with
  | None => Ub
  | Some c =>
      ch ← getchan w c;
      b ← pick w (otherop (a_op a)) nrand (ch_qentry ch) 0 None;
      match b with
      | Some e =>
          waiter ← getalt w e;
          w ← (if decide (ch_s ch ≠ 0 ∧ ch_n ch ≠ 0) then
                 if decide (a_op a ≠ CHANRCV) then Err else
                 '(w, buf) ← altexecbuffered c a true w;
                 w ← altcopy (a_v a) buf (ch_e ch) w;
                 altcopy buf (a_v waiter) (ch_e ch) w
               else if decide (a_op a = CHANRCV) then altcopy (a_v a) (a_v waiter) (ch_e ch) w
               else altcopy (a_v waiter) (a_v a) (ch_e ch) w);
          w ← settag e.1 (Cchan c) w;
          Ok (w, Some e.1)
      | None =>
          '(w, buf) ← altexecbuffered c a false w;
          w ← (if decide (a_op a = CHANRCV) then altcopy (a_v a) buf (ch_e ch) w else altcopy buf (a_v a) (ch_e ch) w);
          Ok (w, None)
      end
  end.

(** ** Queueing *)

(** Put [e] into the first empty place of [qentry], which grows by 16 when there is none. *)
Fixpoint putentry (e : entry) (q : list (option entry)) : list (option entry) :=
  match q with
  | [] => Some e :: replicate 15 None
  | None :: q => Some e :: q
  | Some x :: q => Some x :: putentry e q
  end.

Definition enqueue (c : chan) (e : entry) (w : world) : res world :=
  ch ← getchan w c; Ok (setchan c (ch <| ch_qentry := putentry e (ch_qentry ch) |>) w).

Fixpoint delentry (e : entry) (q : list (option entry)) : list (option entry) :=
  match q with
  | [] => []
  | x :: q => if decide (x = Some e) then None :: q else x :: delentry e q
  end.

Definition dequeue (c : chan) (e : entry) (w : world) : res world :=
  ch ← getchan w c;
  if decide (Some e ∈ ch_qentry ch) then
    let ch := ch <| ch_qentry := delentry e (ch_qentry ch) |> in
    let w := setchan c ch w in
    if ch_freed ch && bool_decide (ch_closed ch ≠ 1) then _chanfree c w else Ok w
  else Ok w.

(** ** alt *)

(** The loop that tests whether any channels can proceed: [None] on a nil channel, else the
    index of the entry chosen. *)
Fixpoint scan (w : world) (nrand : nat → Z) (l : list Alt) (i n : nat) (a : option nat) : res (option (option nat)) :=
  match l with
  | [] => Ok (Some a)
  | xa :: l =>
      if decide (a_op xa = CHANNOP) then scan w nrand l (S i) n a
      else match a_c xa with
      | None => Ok None
      | Some c =>
          ch ← getchan w c;
          ok ← (if isopenfor ch (a_op xa) then canexec w ch xa else Ok false);
          match ok with
          | true => let '(n, a) := draw nrand n i a in scan w nrand l (S i) n a
          | false => scan w nrand l (S i) n a
          end
      end
  end.

(** The loop that enqueues the thread on all channels open for it: [waiting], [ca] and
    [allreadycl]. *)
Fixpoint enqueue_all (t : tid) (l : list Alt) (i : nat) (v : bool * option nat * bool) (w : world)
    : res (bool * option nat * bool * world) :=
  match l with
  | [] => Ok (v, w)
  | xa :: l =>
      if decide (a_op xa = CHANNOP) then enqueue_all t l (S i) v w
      else match a_c xa with
      | None => Ub
      | Some c =>
          ch ← getchan w c;
          let '(waiting, ca, allreadycl) := v in
          if isopenfor ch (a_op xa) then
            w ← enqueue c (t, i) w; enqueue_all t l (S i) (true, ca, allreadycl) w
          else if decide (a_err xa ≠ Errcl) then enqueue_all t l (S i) (waiting, Some i, allreadycl) w
          else enqueue_all t l (S i) (waiting, ca, true) w
      end
  end.

Definition seterr (t : tid) (i : nat) (e : errstr) (w : world) : res world :=
  th ← getthread w t;
  a ← res_of_option (t_alts th !! i);
  Ok (setthread t (th <| t_alts := <[i := a <| a_err := e |>]> (t_alts th) |>) w).

(** alt, until it returns, waits, or has to meet the thread it chose. *)
Definition alt (t : tid) (alts : list Alt) (nrand nrand' : nat → Z) (w : world) : res world :=
  th ← getthread w t;
  let w := setthread t (th <| t_alts := alts |>) w in
  '(l, e) ← entries alts;
  s ← scan w nrand l 0 0 None;
  match s with
  | None => setpc t (Idle (-1)) w
  | Some (Some i) =>
      a ← res_of_option (l !! i);
      '(w, b) ← altexec a nrand' w;
      match b with
      | Some u => setpc t (Meeting u Zero (KAlt (Z.of_nat i))) w
      | None => setpc t (Idle (Z.of_nat i)) w
      end
  | Some None =>
      if decide (e = CHANNOBLK) then setpc t (Idle (len l)) w else
      w ← settag t Cnil w;
      '(waiting, ca, allreadycl, w) ← enqueue_all t l 0 (false, None, false) w;
      match waiting, ca, allreadycl with
      | false, Some i, _ => w ← seterr t i Errcl w; setpc t (Idle (Z.of_nat i)) w
      | false, None, true => setpc t (Idle (-1)) w
      | _, _, _ => setpc t Waiting w
      end
  end.

(** The loop that dequeues from the channels and finds the selected one. *)
Fixpoint dequeue_all (t : tid) (l : list Alt) (i : nat) (c : cvar) (r : rval) (a : option nat) (w : world)
    : res (option nat * world) :=
  match l with
  | [] => Ok (a, w)
  | xa :: l =>
      if decide (a_op xa = CHANNOP) then dequeue_all t l (S i) c r a w
      else match a_c xa with
      | None => Ub
      | Some x =>
          '(a, w) ← (if decide (c = Cchan x) then
              w ← seterr t i (if decide (r = Closed) then Errcl else Enil) w; Ok (Some i, w)
            else Ok (a, w));
          w ← dequeue x (t, i) w;
          dequeue_all t l (S i) c r a w
      end
  end.

(** alt, from where its rendezvous has given [r]. *)
Definition alt_woken (t : tid) (r : rval) (w : world) : res world :=
  th ← getthread w t;
  if decide (r = Intred ∧ t_c th ≠ Cnil) then setpc t Waiting w else
  let c := if decide (r = Intred) then Cint else t_c th in
  w ← settag t c w;
  '(l, _) ← entries (t_alts th);
  '(a, w) ← dequeue_all t l 0 c r None w;
  match a with
  | Some i => setpc t (Idle (Z.of_nat i)) w
  | None => if decide (c = Cint) then setpc t (Idle (-1)) w else Err
  end.

(** ** Closing *)

(** The first place from [i] on with an entry that will fail. *)
Fixpoint closing_scan (w : world) (c : chan) (n : Z) (q : list (option entry)) (i : nat) : res (option (tid * nat)) :=
  match q with
  | [] => Ok None
  | None :: q => closing_scan w c n q (S i)
  | Some e :: q =>
      a ← getalt w e;
      th ← getthread w e.1;
      if decide (t_c th = Cnil ∧ (a_op a = CHANSND ∨ a_op a = CHANRCV ∧ n = 0)) then Ok (Some (e.1, i))
      else closing_scan w c n q (S i)
  end.

(** The loop of chanclose from [i] on, and what follows it. *)
Definition close_loop (t : tid) (c : chan) (i : nat) (w : world) : res world :=
  ch ← getchan w c;
  e ← closing_scan w c (ch_n ch) (drop i (ch_qentry ch)) i;
  match e with
  | Some (u, j) => w ← settag u (Cchan c) w; setpc t (Meeting u Closed (KClose c (S j))) w
  | None =>
      let w := setchan c (ch <| ch_closed := 2 |>) w in
      w ← (if ch_freed ch then _chanfree c w else Ok w);
      setpc t (Idle 0) w
  end.

Definition chanclose (t : tid) (c : chan) (w : world) : res world :=
  ch ← getchan w c;
  if decide (ch_closed ch ≠ 0) then setpc t (Idle (-1)) w
  else close_loop t c 0 (setchan c (ch <| ch_closed := 1 |>) w).

Definition chanclosing (ch : Channel) : Z := if decide (ch_closed ch = 0) then -1 else ch_n ch.

(** ** Sending and receiving *)

(** The array runop makes; it puts CHANEND or CHANNOBLK after the operation. *)
Definition runop_alts (op : ChanOp) (c : option chan) (v : ptr) (nb : bool) : list Alt :=
  [mkAlt c v op Enil; mkAlt None Pnil (if nb then CHANNOBLK else CHANEND) Enil].

(** And what it makes of the result of alt and the array. *)
Definition runop_ret (r : Z) (alts : list Alt) (nb : bool) : res Z :=
  if decide (r = -1) then Ok (-1)
  else if decide (r = 1) then (if nb then Ok 0 else Err)
  else if decide (r = 0) then
    a ← res_of_option (alts !! 0%nat); Ok (if decide (a_err a ≠ Enil) then -1 else 1)
  else Err.

Definition runop (t : tid) (op : ChanOp) (c : option chan) (v : ptr) (nb : bool) (nrand nrand' : nat → Z) : world → res world :=
  alt t (runop_alts op c v nb) nrand nrand'.

Definition recv t c v := runop t CHANRCV c v false.
Definition nbrecv t c v := runop t CHANRCV c v true.
Definition send t c v := runop t CHANSND c v false.
Definition nbsend t c v := runop t CHANSND c v true.

Definition channelsize (ch : Channel) (sz : Z) : res unit := if decide (ch_e ch ≠ sz) then Err else Ok ().

(** *** Words

    The wrappers for elements that are a ulong or a pointer, of [sz] bytes.  [a] is the
    address of their parameter or local variable [v]; [v] is its value. *)

Definition wordop (op : tid → option chan → ptr → (nat → Z) → (nat → Z) → world → res world)
    (sz : Z) (t : tid) (c : chan) (a : addr) (v : list Z) (nrand nrand' : nat → Z) (w : world) : res world :=
  ch ← getchan w c;
  _ ← channelsize ch sz;
  op t (Some c) (Pobj a) nrand nrand' (w <| w_mem := <[a := v]> (w_mem w) |>).

Definition sendul := wordop send.
Definition recvul := wordop recv.
Definition sendp := wordop send.
Definition recvp := wordop recv.
Definition nbsendul := wordop nbsend.
Definition nbrecvul := wordop nbrecv.
Definition nbsendp := wordop nbsend.
Definition nbrecvp := wordop nbrecv.

(** What the receivers return once recv has returned [r] and [v] holds [x]: [~0] or nil
    when it fails, the element otherwise.  When there is nothing, the forms that do not
    block return 0. *)
Definition recvul_ret (sz r : Z) (x : list Z) : list Z := if decide (r < 0) then replicate (Z.to_nat sz) 255 else x.
Definition recvp_ret (sz r : Z) (x : list Z) : list Z := if decide (r < 0) then replicate (Z.to_nat sz) 0 else x.
Definition nbrecvul_ret (sz r : Z) (x : list Z) : list Z := if decide (r = 0) then replicate (Z.to_nat sz) 0 else x.
Definition nbrecvp_ret := nbrecvul_ret.

(** ** Rendezvous *)

(** The tag a thread calls _threadrendezvous with: the thread whose variable [c] it is. *)
Definition rendtag (t : tid) (th : Thread) : option tid :=
  match t_pc th with Waiting => Some t | Meeting u _ _ => Some u | _ => None end.

Definition rendval (th : Thread) : rval := match t_pc th with Meeting _ v _ => v | _ => Zero end.

(** Where a thread goes when its rendezvous gives [r]: [while(... == Intred);] *)
Definition resume (th : Thread) (r : rval) : place :=
  match t_pc th with
  | Waiting => Woken r
  | Meeting u v k =>
      if decide (r = Intred) then Meeting u v k
      else match k with KAlt i => Idle i | KClose c i => Closing c i end
  | p => p
  end.

(** Two threads with one tag exchange their values. *)
Definition rendezvous (x y : tid) (w : world) : res world :=
  thx ← getthread w x;
  thy ← getthread w y;
  w ← setpc x (resume thx (rendval thy)) w;
  setpc y (resume thy (rendval thx)) w.

(** threadint of a thread in a rendezvous. *)
Definition interrupt (x : tid) (w : world) : res world :=
  th ← getthread w x; setpc x (resume th Intred) w.
