(* ===== verification/ChanInv.v ===== *)
(** * ChanInv: what each section of channel.c does

    The buffer of a channel as the sequence of its elements ([contents]), the entries
    enqueued on it, and what altexec, the loops of alt and the loop of chanclose change. *)

From S2P Require Import Prelude Chan.

(** ** Lists of places *)

Fixpoint somes {A} (q : list (option A)) : list A :=
  match q with [] => [] | Some x :: q => x :: somes q | None :: q => somes q end.

Lemma elem_somes {A} (q : list (option A)) x : x ∈ somes q ↔ Some x ∈ q.
Proof.
  induction q as [|[y|] q IH]; cbn; [set_solver | |]; rewrite ?list.elem_of_cons, IH; naive_solver.
Qed.

Lemma somes_none {A} n : somes (replicate n (@None A)) = [].
Proof. by induction n. Qed.

Lemma putentry_in e q x : Some x ∈ putentry e q ↔ x = e ∨ Some x ∈ q.
Proof.
  rewrite <- !elem_somes. induction q as [|[y|] q IH]; cbn [putentry somes].
  - rewrite somes_none. set_solver.
  - rewrite !list.elem_of_cons, IH. naive_solver.
  - by rewrite list.elem_of_cons.
Qed.

Lemma putentry_nodup e q : e ∉ somes q → NoDup (somes q) → NoDup (somes (putentry e q)).
Proof.
  induction q as [|[y|] q IH]; cbn [putentry somes]; intros Hn Hd.
  - rewrite somes_none. apply list.NoDup_singleton.
  - apply list.NoDup_cons in Hd as [Hy Hd]. apply list.NoDup_cons. split; [| apply IH; set_solver].
    rewrite elem_somes, putentry_in, <- elem_somes. set_solver.
  - by apply list.NoDup_cons.
Qed.

(** Empty the places of a thread. *)
Definition without (P : entry → bool) (q : list (option entry)) : list (option entry) :=
  map (λ x, match x with Some e => if P e then None else Some e | None => None end) q.

Lemma without_lookup P q k e : without P q !! k = Some (Some e) ↔ q !! k = Some (Some e) ∧ P e = false.
Proof.
  unfold without. rewrite list_lookup_fmap. destruct (q !! k) as [[y|]|]; cbn; [| split; [done | by intros [[=] _]] ..].
  destruct (P y) eqn:Hy; split; intros; destruct_and?; simplify_eq; congruence || auto.
Qed.

Lemma without_in P q e : Some e ∈ without P q ↔ Some e ∈ q ∧ P e = false.
Proof. rewrite !list_elem_of_lookup. setoid_rewrite without_lookup. naive_solver. Qed.

Lemma without_somes P q : somes (without P q) = filter (λ e, P e = false) (somes q).
Proof.
  induction q as [|[y|] q IH]; [done | | done]. cbn [without map somes]. rewrite filter_cons, <- IH.
  by destruct (P y).
Qed.

Lemma without_none P q : (∀ e, Some e ∈ q → P e = false) → without P q = q.
Proof.
  intros H. induction q as [|[y|] q IH]; cbn; [done | |].
  - rewrite (H y) by set_solver. f_equal. apply IH. set_solver.
  - f_equal. apply IH. set_solver.
Qed.

Lemma without_without P P' q : without P (without P' q) = without (λ e, P e || P' e) q.
Proof. unfold without. rewrite map_map. apply map_ext. intros [e|]; [| done].
  destruct (P' e); [by rewrite orb_true_r | by rewrite orb_false_r]. Qed.

Lemma delentry_without e q : NoDup (somes q) → delentry e q = without (λ x, bool_decide (x = e)) q.
Proof.
  induction q as [|[y|] q IH]; cbn [delentry somes without map]; intros Hd; [done | |].
  - apply list.NoDup_cons in Hd as [Hy Hd]. destruct (decide (Some y = Some e)) as [[= ->] | Hne].
    + rewrite bool_decide_true by done. f_equal. symmetry. apply (without_none (λ x, bool_decide (x = e))).
      intros x Hx. apply bool_decide_eq_false. intros ->. by apply elem_somes in Hx.
    + rewrite bool_decide_false by congruence. f_equal. by apply IH.
  - rewrite decide_False by done. f_equal. by apply IH.
Qed.

Arguments without : simpl never.

(** ** Arrays *)

Lemma entries_lookup alts l e i a :
  entries alts = Ok (l, e) → l !! i = Some a →
  alts !! i = Some a ∧ a_op a ≠ CHANEND ∧ a_op a ≠ CHANNOBLK.
Proof.
  revert l i. induction alts as [|x alts IH]; intros l i He Hl; [done |]. cbn in He.
  case_decide as Ho; [by simplify_eq |]. inv_res. destruct x0 as [l' e']. simplify_eq.
  destruct i as [|i]; cbn in *; [simplify_eq; tauto | by apply (IH l')].
Qed.

Lemma entries_end alts l e : entries alts = Ok (l, e) → e = CHANEND ∨ e = CHANNOBLK.
Proof.
  revert l. induction alts as [|x alts IH]; intros l He; [done |]. cbn in He.
  case_decide as Ho; [simplify_eq; tauto |]. inv_res. destruct x0 as [l' e']. simplify_eq. by apply (IH l').
Qed.

(** Changing err in an entry. *)
Lemma entries_insert alts l e i a a' :
  entries alts = Ok (l, e) → l !! i = Some a → a_op a' = a_op a → entries (<[i := a']> alts) = Ok (<[i := a']> l, e).
Proof.
  revert l i. induction alts as [|x alts IH]; intros l i He Hl Ho; [done |]. cbn in He.
  destruct (decide (a_op x = CHANEND ∨ a_op x = CHANNOBLK)) as [Hx | Hx]; [by simplify_eq |].
  inv_res. destruct x0 as [l' e']. simplify_eq. destruct i as [|i].
  - injection Hl as ->. cbn. rewrite Ho, decide_False by done. rewrite H. done.
  - change (<[S i:=a']> (x :: alts)) with (x :: <[i:=a']> alts). change (<[S i:=a']> (x :: l')) with (x :: <[i:=a']> l').
    cbn [entries]. rewrite decide_False by done. by rewrite (IH l' i).
Qed.

(** ** Buffers *)

(** The slot of the [k]th element of the buffer. *)
Definition slot (ch : Channel) (k : Z) : Z := u32 (ch_f ch + k) `mod` ch_s ch.

Definition element (ch : Channel) (k : nat) : list Z := default [] (ch_v ch !! Z.to_nat (slot ch (Z.of_nat k))).

Definition contents (ch : Channel) : list (list Z) := map (element ch) (seq 0 (Z.to_nat (ch_n ch))).

Record buf_ok (ch : Channel) : Prop := {
  bf_s : 0 ≤ ch_s ch < 2 ^ 31; bf_n : 0 ≤ ch_n ch ≤ ch_s ch; bf_f : is_u32 (ch_f ch); bf_e : 0 < ch_e ch;
  bf_len : len (ch_v ch) = ch_s ch; bf_v : Forall (λ x, len x = ch_e ch) (ch_v ch)
}.

(** The slots in use do not collide: the numbering wraps at 2^32. *)
Definition no_wrap (ch : Channel) : Prop := (ch_s ch | 2 ^ 32) ∨ ch_f ch + ch_s ch < 2 ^ 32.

Lemma slot_range ch k : buf_ok ch → 0 < ch_s ch → 0 ≤ slot ch k < ch_s ch.
Proof. intros H Hs. apply Z.mod_pos_bound. lia. Qed.

Lemma slot_0 ch : buf_ok ch → slot ch 0 = ch_f ch `mod` ch_s ch.
Proof. intros H. unfold slot. rewrite Z.add_0_r, u32_small; [done |]. apply H. Qed.

Lemma mod_mod_divide a m s : 0 < s → (s | m) → (a `mod` m) `mod` s = a `mod` s.
Proof.
  intros Hs [k ->]. destruct (decide (k = 0)) as [-> |]; [by rewrite Z.mul_0_l, Z.mod_0_r |].
  rewrite (Z.mul_comm k s).
  pose proof (Z.div_mod a (s * k)) as Hd. rewrite (Z.mod_eq a (s * k)) by nia.
  replace (a - s * k * (a / (s * k))) with (a + (- (k * (a / (s * k)))) * s) by ring. by rewrite Z_mod_plus_full.
Qed.

Lemma slot_wrap ch k : buf_ok ch → no_wrap ch → 0 < ch_s ch → 0 ≤ k < ch_s ch → slot ch k = (ch_f ch + k) `mod` ch_s ch.
Proof.
  intros Hb [Hd | Hf] Hs Hk; unfold slot, u32.
  - by apply mod_mod_divide.
  - f_equal. apply Z.mod_small. destruct (bf_f _ Hb). lia.
Qed.

Lemma slot_inj ch i j :
  buf_ok ch → no_wrap ch → 0 ≤ i < ch_s ch → 0 ≤ j < ch_s ch → slot ch i = slot ch j → i = j.
Proof.
  intros Hb Hw Hi Hj. rewrite !slot_wrap by (done || lia). intros H.
  assert ((i - j) `mod` ch_s ch = 0) as Hm.
  { replace (i - j) with (ch_f ch + i - (ch_f ch + j)) by ring. rewrite Zminus_mod, H, Z.sub_diag. by rewrite Z.mod_0_l by lia. }
  apply Z.mod_divide in Hm as [q Hq]; [| lia].
  assert (q = 0) as -> by nia. lia.
Qed.

Lemma u32_mod_add a b : u32 (u32 a + b) = u32 (a + b).
Proof. unfold u32. by rewrite Zplus_mod_idemp_l. Qed.

Lemma contents_length ch : length (contents ch) = Z.to_nat (ch_n ch).
Proof. unfold contents. by rewrite length_map, length_seq. Qed.

(** The buffer after a receive, after a send, and after a receive that lets a waiting
    sender put its element into the slot just read. *)
Definition got (ch : Channel) : Channel := ch <| ch_n := u32 (ch_n ch - 1) |> <| ch_f := u32 (ch_f ch + 1) |>.
Definition put (ch : Channel) (x : list Z) : Channel :=
  ch <| ch_n := u32 (ch_n ch + 1) |> <| ch_v := <[Z.to_nat (slot ch (ch_n ch)) := x]> (ch_v ch) |>.
Definition swapped (ch : Channel) (x : list Z) : Channel :=
  ch <| ch_f := u32 (ch_f ch + 1) |> <| ch_v := <[Z.to_nat (slot ch 0) := x]> (ch_v ch) |>.

Lemma map_seq_S {A} (f : nat → A) n : map f (seq 0 (S n)) = f 0%nat :: map (λ k, f (S k)) (seq 0 n).
Proof. cbn. by rewrite <- seq_shift, map_map. Qed.

Lemma map_seq_snoc {A} (f : nat → A) n : map f (seq 0 (S n)) = map f (seq 0 n) ++ [f n].
Proof. by rewrite seq_S, map_app. Qed.

Lemma map_seq_ext {A} (f g : nat → A) n : (∀ k, (k < n)%nat → f k = g k) → map f (seq 0 n) = map g (seq 0 n).
Proof. intros H. apply map_ext_in. intros k Hk%in_seq. apply H. lia. Qed.

Lemma next_slot f k : u32 (u32 (f + 1) + Z.of_nat k) = u32 (f + Z.of_nat (S k)).
Proof. rewrite u32_mod_add. f_equal. lia. Qed.

Lemma n_pred ch : buf_ok ch → 0 < ch_n ch → u32 (ch_n ch - 1) = ch_n ch - 1.
Proof. intros [Hs Hn _ _ _ _] H. apply u32_small. ranges. lia. Qed.

Lemma n_succ ch : buf_ok ch → ch_n ch < ch_s ch → u32 (ch_n ch + 1) = ch_n ch + 1.
Proof. intros [Hs Hn _ _ _ _] H. apply u32_small. ranges. lia. Qed.

Lemma contents_got ch : buf_ok ch → 0 < ch_n ch → contents ch = element ch 0 :: contents (got ch).
Proof.
  intros Hb Hn. unfold contents, got. cbn [update ch_n]. rewrite n_pred by done.
  replace (Z.to_nat (ch_n ch)) with (S (Z.to_nat (ch_n ch - 1))) by lia. rewrite map_seq_S. f_equal.
  apply map_seq_ext. intros k _. unfold element, slot. cbn. by rewrite next_slot.
Qed.

Lemma put_other ch j k x :
  buf_ok ch → no_wrap ch → 0 ≤ j < ch_s ch → 0 ≤ k < ch_s ch → j ≠ k →
  <[Z.to_nat (slot ch j) := x]> (ch_v ch) !! Z.to_nat (slot ch k) = ch_v ch !! Z.to_nat (slot ch k).
Proof.
  intros Hb Hw Hj Hk Hne. apply list_lookup_insert_ne.
  pose proof (slot_range ch j Hb ltac:(lia)). pose proof (slot_range ch k Hb ltac:(lia)).
  intros He. apply Hne, (slot_inj ch); [done.. |]. lia.
Qed.

Lemma put_same ch j x :
  buf_ok ch → 0 < ch_s ch → <[Z.to_nat (slot ch j) := x]> (ch_v ch) !! Z.to_nat (slot ch j) = Some x.
Proof.
  intros Hb Hs. apply list_lookup_insert_eq. pose proof (slot_range ch j Hb Hs). pose proof (bf_len _ Hb). lia.
Qed.

Lemma contents_put ch x :
  buf_ok ch → no_wrap ch → ch_n ch < ch_s ch → contents (put ch x) = contents ch ++ [x].
Proof.
  intros Hb Hw Hn. pose proof (bf_n _ Hb). unfold contents, put. cbn [update ch_n]. rewrite n_succ by done.
  replace (Z.to_nat (ch_n ch + 1)) with (S (Z.to_nat (ch_n ch))) by lia. rewrite map_seq_snoc. f_equal.
  - apply map_seq_ext. intros k Hk.
    change (default [] (<[Z.to_nat (slot ch (ch_n ch)) := x]> (ch_v ch) !! Z.to_nat (slot ch (Z.of_nat k))) = element ch k).
    by rewrite put_other by (done || lia).
  - f_equal.
    change (default [] (<[Z.to_nat (slot ch (ch_n ch)) := x]> (ch_v ch) !! Z.to_nat (slot ch (Z.of_nat (Z.to_nat (ch_n ch))))) = x).
    rewrite Z2Nat.id by lia. by rewrite put_same by (done || lia).
Qed.

Lemma contents_swapped ch x :
  buf_ok ch → no_wrap ch → 0 < ch_n ch → ch_n ch = ch_s ch →
  element ch 0 :: contents (swapped ch x) = contents ch ++ [x].
Proof.
  intros Hb Hw Hn Hs. unfold contents, swapped. cbn [update ch_n].
  replace (Z.to_nat (ch_n ch)) with (S (Z.to_nat (ch_n ch - 1))) by lia.
  rewrite (map_seq_S (element ch)), map_seq_snoc. rewrite <- app_comm_cons. do 2 f_equal.
  - apply map_seq_ext. intros k Hk.
    change (default [] (<[Z.to_nat (slot ch 0) := x]> (ch_v ch) !!
      Z.to_nat (u32 (u32 (ch_f ch + 1) + Z.of_nat k) `mod` ch_s ch)) = element ch (S k)).
    rewrite next_slot. fold (slot ch (Z.of_nat (S k))). by rewrite put_other by (done || lia).
  - f_equal. change (default [] (<[Z.to_nat (slot ch 0) := x]> (ch_v ch) !!
      Z.to_nat (u32 (u32 (ch_f ch + 1) + Z.of_nat (Z.to_nat (ch_n ch - 1))) `mod` ch_s ch)) = x).
    rewrite next_slot. fold (slot ch (Z.of_nat (S (Z.to_nat (ch_n ch - 1))))).
    replace (slot ch (Z.of_nat (S (Z.to_nat (ch_n ch - 1))))) with (slot ch 0); [by rewrite put_same by (done || lia) |].
    rewrite slot_0 by done. replace (Z.of_nat (S (Z.to_nat (ch_n ch - 1)))) with (ch_s ch) by lia.
    unfold slot, u32. destruct Hw as [Hd | Hf].
    + rewrite mod_mod_divide by (done || lia). by rewrite <- (Z.mul_1_l (ch_s ch)) at 2; rewrite Z_mod_plus_full.
    + rewrite (Z.mod_small (ch_f ch + ch_s ch)) by (destruct (bf_f _ Hb); lia).
      by rewrite <- (Z.mul_1_l (ch_s ch)) at 2; rewrite Z_mod_plus_full.
Qed.

(** ** Memory *)

Definition ptr_ok (m : gmap addr (list Z)) (p : ptr) (e : Z) : Prop :=
  p = Pnil ∨ ∃ a l, p = Pobj a ∧ m !! a = Some l ∧ e ≤ len l.

(** The value a pointer of the client stands for, and an object with a value stored in it. *)
Definition valof (m : gmap addr (list Z)) (p : ptr) (e : Z) : list Z :=
  match p with Pobj a => takeZ e (default [] (m !! a)) | _ => replicate (Z.to_nat e) 0 end.

Definition put_at (p : ptr) (x : list Z) (m : gmap addr (list Z)) : gmap addr (list Z) :=
  match p with Pobj a => match m !! a with Some l => <[a := x ++ dropZ (len x) l]> m | None => m end | _ => m end.

Lemma valof_len m p e : 0 ≤ e → ptr_ok m p e → len (valof m p e) = e.
Proof.
  intros He [-> | (a & l & -> & Ha & Hl)]; cbn.
  - rewrite length_replicate. lia.
  - rewrite Ha. cbn. rewrite len_takeZ; lia.
Qed.

Lemma put_at_size p x m a l :
  ptr_ok m p (len x) → put_at p x m !! a = Some l → ∃ l', m !! a = Some l' ∧ length l = length l'.
Proof.
  intros [-> | (b & k & -> & Hb & Hk)]; cbn; [eauto |]. rewrite Hb.
  destruct (decide (a = b)) as [-> | Hne]; [rewrite lookup_insert_eq; intros [= <-] | rewrite lookup_insert_ne by done; eauto].
  exists k. split; [done |]. rewrite length_app. unfold dropZ. rewrite length_drop. lia.
Qed.

Lemma put_at_ptr_ok p x m q e : ptr_ok m p (len x) → ptr_ok m q e → ptr_ok (put_at p x m) q e.
Proof.
  intros Hp [-> | (a & l & -> & Ha & Hl)]; [by left |]. right. exists a.
  destruct (put_at p x m !! a) as [l'|] eqn:Hx.
  - exists l'. split_and!; [done.. |]. destruct (put_at_size _ _ _ _ _ Hp Hx) as (k & Hk & He).
    rewrite Ha in Hk. injection Hk as <-. lia.
  - destruct p as [|b|]; cbn in Hx; [congruence | | congruence].
    destruct (m !! b); [| congruence]. apply lookup_insert_None in Hx as [? ?]. congruence.
Qed.

Lemma valof_put p x m : ptr_ok m p (len x) → p ≠ Pnil → valof (put_at p x m) p (len x) = x.
Proof.
  intros [-> | (a & l & -> & Ha & Hl)] Hp; [done |]. cbn. rewrite Ha, lookup_insert_eq. cbn. by apply takeZ_app.
Qed.

Lemma valof_put_other p x m q e : p ≠ q ∨ p = Pnil → valof (put_at p x m) q e = valof m q e.
Proof.
  intros Hne. destruct p as [|a|]; [done | | done]. cbn. destruct (m !! a) eqn:Ha; [| done].
  destruct q as [|b|]; [done | | done]. cbn. rewrite lookup_insert_ne; [done |]. naive_solver.
Qed.

Definition with_mem (w : world) (m : gmap addr (list Z)) : world := mkWorld (w_chans w) m (w_threads w).

Lemma altcopy_mem dst src e w :
  0 ≤ e → ptr_ok (w_mem w) dst e → ptr_ok (w_mem w) src e →
  altcopy dst src e w = Ok (with_mem w (put_at dst (valof (w_mem w) src e) (w_mem w))).
Proof.
  intros He Hd Hs. unfold altcopy. destruct Hd as [-> | (a & l & -> & Ha & Hl)]; [by destruct w |].
  pose proof (valof_len _ _ _ He Hs) as Hlen. rewrite decide_False by done.
  destruct Hs as [-> | (b & k & -> & Hb & Hk)]; cbn [valof] in *.
  - rewrite decide_True by done. cbn. rewrite Ha. cbn. rewrite decide_True by lia. done.
  - rewrite decide_False by done. cbn. rewrite Hb in *. cbn in *. rewrite decide_True by lia. cbn.
    rewrite Ha. cbn. rewrite decide_True by lia. done.
Qed.

Lemma altcopy_from dst c i ch x w :
  ptr_ok (w_mem w) dst (len x) → w_chans w !! c = Some ch → 0 ≤ i → ch_v ch !! Z.to_nat i = Some x →
  altcopy dst (Pslot c i) (len x) w = Ok (with_mem w (put_at dst x (w_mem w))).
Proof.
  intros [-> | (a & l & -> & Ha & Hl)] Hc Hi Hx; [by destruct w |]. unfold altcopy.
  rewrite !decide_False by done. cbn. unfold getchan. rewrite Hc. cbn. rewrite decide_True, Hx by done.
  cbn. rewrite Ha. cbn. rewrite decide_True by lia. done.
Qed.

Lemma altcopy_to src c i ch e w :
  0 ≤ e → ptr_ok (w_mem w) src e → w_chans w !! c = Some ch → 0 ≤ i < len (ch_v ch) →
  altcopy (Pslot c i) src e w = Ok (setchan c (ch <| ch_v := <[Z.to_nat i := valof (w_mem w) src e]> (ch_v ch) |>) w).
Proof.
  intros He Hs Hc Hi. unfold altcopy. rewrite decide_False by done.
  destruct Hs as [-> | (b & k & -> & Hb & Hk)].
  - rewrite decide_True by done. cbn. unfold getchan. rewrite Hc. cbn. by rewrite decide_True.
  - rewrite decide_False by done. cbn. rewrite Hb. cbn. rewrite decide_True by lia. cbn. unfold getchan. rewrite Hc.
    cbn. by rewrite decide_True.
Qed.

(** ** Choosing *)

(** An entry enqueued for [op] whose thread nobody has chosen yet. *)
Definition isready (w : world) (op : ChanOp) (e : entry) : Prop :=
  ∃ th a, w_threads w !! e.1 = Some th ∧ t_alts th !! e.2 = Some a ∧ a_op a = op ∧ t_c th = Cnil.

(** The entries of a list of places can be read. *)
Definition readable (w : world) (q : list (option entry)) : Prop :=
  ∀ e, Some e ∈ q → ∃ th a, w_threads w !! e.1 = Some th ∧ t_alts th !! e.2 = Some a.

Lemma ready_spec w op e :
  (∃ th a, w_threads w !! e.1 = Some th ∧ t_alts th !! e.2 = Some a) →
  ∃ b : bool, ready w op (Some e) = Ok b ∧ (b = true ↔ isready w op e).
Proof.
  intros (th & a & Ht & Ha). unfold ready, getalt, getthread, isready. rewrite Ht. cbn. rewrite Ha. cbn.
  case_decide as Ho.
  - eexists. split; [done |]. rewrite bool_decide_eq_true. naive_solver.
  - eexists. split; [done |]. naive_solver.
Qed.

Lemma canmeet_spec w op q :
  readable w q → ∃ b : bool, canmeet w op q = Ok b ∧ (b = true ↔ ∃ e, Some e ∈ q ∧ isready w op e).
Proof.
  induction q as [|[e|] q IH]; intros Hr; cbn.
  - exists false. split; [done |]. set_solver.
  - destruct (ready_spec w op e) as (b & Hb & He); [apply Hr; set_solver |]. unfold ready in Hb. rewrite Hb. cbn.
    destruct b; [exists true; split; [done |]; set_solver |].
    destruct IH as (b' & -> & Hb'); [intros ? ?; apply Hr; set_solver |]. exists b'. split; [done |].
    rewrite Hb'. set_solver.
  - destruct IH as (b' & -> & Hb'); [intros ? ?; apply Hr; set_solver |]. exists b'. split; [done |].
    rewrite Hb'. set_solver.
Qed.

Definition nrand_ok (nrand : nat → Z) : Prop := ∀ n, (0 < n)%nat → 0 ≤ nrand n < Z.of_nat n.

Lemma nrand_1 nrand : nrand_ok nrand → nrand 1%nat = 0.
Proof. intros H. specialize (H 1%nat ltac:(lia)). lia. Qed.

(** The first candidate is chosen, if no later one is. *)
Lemma draw_some {A} nrand n (x : A) b :
  nrand_ok nrand → (n = 0%nat ↔ b = None) →
  ∃ y, draw nrand n x b = (S n, Some y) ∧ (y = x ∨ b = Some y).
Proof.
  intros Hr Hn. unfold draw. case_decide as Hz; [eauto |]. destruct b as [y|]; [eauto |].
  assert (n = 0%nat) as -> by tauto. by rewrite nrand_1 in Hz.
Qed.

Lemma pick_spec w op nrand q n b :
  nrand_ok nrand → readable w q → (n = 0%nat ↔ b = None) →
  ∃ b', pick w op nrand q n b = Ok b' ∧
    (b' = None → b = None ∧ ∀ e, Some e ∈ q → ¬ isready w op e) ∧
    (∀ e, b' = Some e → b = Some e ∨ Some e ∈ q ∧ isready w op e).
Proof.
  intros Hn. revert n b. induction q as [|[e|] q IH]; intros n b Hr Hnb; cbn [pick].
  - exists b. split; [done |]. set_solver.
  - destruct (ready_spec w op e) as (r & -> & He); [apply Hr; set_solver |]. cbn [mbind res_bind].
    assert (readable w q) as Hq by (intros ? ?; apply Hr; set_solver). destruct r.
    + destruct (draw_some nrand n e b Hn Hnb) as (y & -> & Hy).
      destruct (IH (S n) (Some y) Hq) as (b' & -> & H1 & H2); [done |]. exists b'. split; [done |].
      split; [intros Hb; by destruct (H1 Hb) |]. intros x Hx. destruct (H2 x Hx) as [[= ->] | [? ?]]; set_solver.
    + destruct (IH n b Hq Hnb) as (b' & -> & H1 & H2). exists b'. split; [done |].
      split; [| set_solver]. intros Hb. destruct (H1 Hb) as [? Hno]. split; [done |].
      intros x [[= ->] | Hx]%list.elem_of_cons; [intros Hx; by apply He in Hx | by apply Hno].
  - cbn. destruct (IH n b) as (b' & -> & H1 & H2); [intros ? ?; apply Hr; set_solver | done |]. exists b'.
    split; [done |]. set_solver.
Qed.

(** ** What altexec does *)

(** The Alt [b], of the thread [th], is enqueued at [e] and not yet chosen. *)
Definition waiter (w : world) (ch : Channel) (e : entry) (th : Thread) (b : Alt) : Prop :=
  Some e ∈ ch_qentry ch ∧ w_threads w !! e.1 = Some th ∧ t_alts th !! e.2 = Some b ∧ t_c th = Cnil.

Definition choose (e : entry) (th : Thread) (c : chan) (w : world) : world :=
  setthread e.1 (th <| t_c := Cchan c |>) w.

(** A send into the buffer, a receive from it, a send to a waiting receiver, a receive
    from a waiting sender, and a receive from a full buffer with a sender waiting. *)
Inductive executed (w : world) (c : chan) (ch : Channel) (a : Alt) : option entry → world → Prop :=
  | ex_put : a_op a = CHANSND → ch_n ch < ch_s ch → (∀ e, Some e ∈ ch_qentry ch → ¬ isready w CHANRCV e) →
      executed w c ch a None (setchan c (put ch (valof (w_mem w) (a_v a) (ch_e ch))) w)
  | ex_get : a_op a = CHANRCV → 0 < ch_n ch → (∀ e, Some e ∈ ch_qentry ch → ¬ isready w CHANSND e) →
      executed w c ch a None (with_mem (setchan c (got ch) w) (put_at (a_v a) (element ch 0) (w_mem w)))
  | ex_give e th b : a_op a = CHANSND → ch_n ch = 0 → waiter w ch e th b → a_op b = CHANRCV →
      executed w c ch a (Some e)
        (choose e th c (with_mem w (put_at (a_v b) (valof (w_mem w) (a_v a) (ch_e ch)) (w_mem w))))
  | ex_take e th b : a_op a = CHANRCV → ch_n ch = 0 → waiter w ch e th b → a_op b = CHANSND →
      executed w c ch a (Some e)
        (choose e th c (with_mem w (put_at (a_v a) (valof (w_mem w) (a_v b) (ch_e ch)) (w_mem w))))
  | ex_swap e th b m : a_op a = CHANRCV → 0 < ch_n ch → waiter w ch e th b → a_op b = CHANSND →
      m = put_at (a_v a) (element ch 0) (w_mem w) →
      executed w c ch a (Some e)
        (choose e th c (with_mem (setchan c (swapped ch (valof m (a_v b) (ch_e ch))) w) m)).

Lemma first_element ch : buf_ok ch → 0 < ch_s ch → ch_v ch !! Z.to_nat (slot ch 0) = Some (element ch 0).
Proof.
  intros Hb Hs. unfold element. change (Z.of_nat 0) with 0. destruct (lookup_lt_is_Some_2 (ch_v ch) (Z.to_nat (slot ch 0))) as [x Hx].
  - pose proof (slot_range ch 0 Hb Hs). pose proof (bf_len _ Hb). lia.
  - by rewrite Hx.
Qed.

Lemma element_len ch : buf_ok ch → 0 < ch_s ch → len (element ch 0) = ch_e ch.
Proof. intros Hb Hs. pose proof (first_element ch Hb Hs) as Hx. by eapply Forall_lookup_1 in Hx; [| apply (bf_v _ Hb)]. Qed.

Lemma take_buffered c ch a wr w :
  w_chans w !! c = Some ch → buf_ok ch → a_op a = CHANRCV → 0 < ch_n ch →
  altexecbuffered c a wr w =
    Ok (setchan c ((if wr then ch else ch <| ch_n := u32 (ch_n ch - 1) |>) <| ch_f := u32 (ch_f ch + 1) |>) w, Pslot c (slot ch 0)).
Proof.
  intros Hc Hb Ho Hn. unfold altexecbuffered, getchan. rewrite Hc. cbn [res_of_option mbind res_bind].
  rewrite decide_True by done. pose proof (bf_n _ Hb). rewrite decide_False by lia. by rewrite slot_0.
Qed.

Lemma put_buffered c ch a w :
  w_chans w !! c = Some ch → buf_ok ch → a_op a = CHANSND → ch_n ch < ch_s ch →
  altexecbuffered c a false w = Ok (setchan c (ch <| ch_n := u32 (ch_n ch + 1) |>) w, Pslot c (slot ch (ch_n ch))).
Proof.
  intros Hc Hb Ho Hn. unfold altexecbuffered, getchan. rewrite Hc. cbn [res_of_option mbind res_bind].
  rewrite decide_False by (intros [H _]; congruence). rewrite decide_True by done.
  pose proof (bf_n _ Hb). by rewrite decide_False by lia.
Qed.

Lemma copy_out w c ch ch' dst :
  buf_ok ch → 0 < ch_s ch → ch_v ch' = ch_v ch → ptr_ok (w_mem w) dst (ch_e ch) →
  altcopy dst (Pslot c (slot ch 0)) (ch_e ch) (setchan c ch' w) =
    Ok (with_mem (setchan c ch' w) (put_at dst (element ch 0) (w_mem w))).
Proof.
  intros Hb Hs Hv Hd. pose proof (element_len ch Hb Hs) as Hl. rewrite <- Hl in *.
  apply (altcopy_from dst c (slot ch 0) ch' (element ch 0) (setchan c ch' w)); [done | apply lookup_insert_eq | by apply slot_range | by rewrite Hv, first_element].
Qed.

Lemma copy_in w c ch ch' src k :
  buf_ok ch → 0 < ch_s ch → ch_v ch' = ch_v ch → ptr_ok (w_mem w) src (ch_e ch) → w_chans w !! c = Some ch' →
  altcopy (Pslot c (slot ch k)) src (ch_e ch) w =
    Ok (setchan c (ch' <| ch_v := <[Z.to_nat (slot ch k) := valof (w_mem w) src (ch_e ch)]> (ch_v ch) |>) w).
Proof.
  intros Hb Hs Hv Hp Hc. rewrite <- Hv. pose proof (bf_e _ Hb). apply altcopy_to; [lia | done | done |].
  rewrite Hv, (bf_len _ Hb). by apply slot_range.
Qed.

Lemma setchan_setchan c x y w : setchan c x (setchan c y w) = setchan c x w.
Proof. unfold setchan. cbn. by rewrite insert_insert_eq. Qed.

(** There is somebody to meet, or room in the buffer. *)
Definition proceeds (w : world) (ch : Channel) (op : ChanOp) : Prop :=
  (∃ e, Some e ∈ ch_qentry ch ∧ isready w (otherop op) e) ∨ room ch op = true.

(** What altexec needs to know of the Alts it may choose. *)
Definition waiters_ok (w : world) (ch : Channel) : Prop :=
  readable w (ch_qentry ch) ∧
  ∀ e th b, waiter w ch e th b → ptr_ok (w_mem w) (a_v b) (ch_e ch) ∧ (a_op b = CHANRCV → ch_n ch = 0).

Lemma altexec_send w c ch a nrand :
  nrand_ok nrand → a_c a = Some c → w_chans w !! c = Some ch → buf_ok ch → a_op a = CHANSND →
  ptr_ok (w_mem w) (a_v a) (ch_e ch) → waiters_ok w ch → proceeds w ch CHANSND →
  ∃ b w', pick w (otherop (a_op a)) nrand (ch_qentry ch) 0 None = Ok b ∧
    altexec a nrand w = Ok (w', fst <$> b) ∧ executed w c ch a b w'.
Proof.
  intros Hn Ha Hc Hb Hop Hv [Hr Hw] Hgo. unfold altexec, getchan. rewrite Ha, Hc. cbn [res_of_option mbind res_bind].
  rewrite Hop. destruct (pick_spec w CHANRCV nrand (ch_qentry ch) 0 None Hn Hr) as (b & Hp & Hno & Hsome); [done |].
  cbn [otherop]. rewrite Hp. cbn [mbind res_bind]. pose proof (bf_e _ Hb) as He0. pose proof (bf_n _ Hb) as Hn0.
  destruct b as [e|].
  - destruct (Hsome e eq_refl) as [|[Hq (th & b & Ht & Hb' & Hob & Hnil)]]; [done |].
    assert (waiter w ch e th b) as Hwait by done. destruct (Hw e th b Hwait) as [Hvb Hrcv].
    unfold getalt, getthread. rewrite Ht. cbn [res_of_option mbind res_bind]. rewrite Hb'. cbn [res_of_option mbind res_bind].
    specialize (Hrcv Hob). rewrite decide_False by tauto. rewrite decide_False by done.
    rewrite altcopy_mem by (done || lia). cbn [mbind res_bind]. unfold settag, getthread. cbn [w_threads with_mem]. rewrite Ht.
    eexists (Some e), _. split; [done |]. split; [reflexivity |]. by apply (ex_give w c ch a e th b).
  - destruct (Hno eq_refl) as [_ Hnone]. destruct Hgo as [(e & Hq & He)|Hroom]; [by apply Hnone in He |].
    unfold room in Hroom. cbn in Hroom. rewrite orb_false_r in Hroom. apply bool_decide_eq_true in Hroom.
    rewrite (put_buffered c ch) by done. cbn [mbind res_bind]. rewrite decide_False by done.
    rewrite (copy_in _ c ch (ch <| ch_n := u32 (ch_n ch + 1) |>)) by (done || lia || apply lookup_insert_eq).
    rewrite setchan_setchan. eexists None, _. split; [done |]. split; [reflexivity |]. by apply ex_put.
Qed.

Lemma altexec_receive w c ch a nrand :
  nrand_ok nrand → a_c a = Some c → w_chans w !! c = Some ch → buf_ok ch → a_op a = CHANRCV →
  ptr_ok (w_mem w) (a_v a) (ch_e ch) → waiters_ok w ch → proceeds w ch CHANRCV →
  ∃ b w', pick w (otherop (a_op a)) nrand (ch_qentry ch) 0 None = Ok b ∧
    altexec a nrand w = Ok (w', fst <$> b) ∧ executed w c ch a b w'.
Proof.
  intros Hn Ha Hc Hb Hop Hv [Hr Hw] Hgo. unfold altexec, getchan. rewrite Ha, Hc. cbn [res_of_option mbind res_bind].
  rewrite Hop. destruct (pick_spec w CHANSND nrand (ch_qentry ch) 0 None Hn Hr) as (b & Hp & Hno & Hsome); [done |].
  cbn [otherop]. rewrite Hp. cbn [mbind res_bind]. pose proof (bf_e _ Hb) as He0. pose proof (bf_n _ Hb) as Hn0.
  destruct b as [e|].
  - destruct (Hsome e eq_refl) as [|[Hq (th & b & Ht & Hb' & Hob & Hnil)]]; [done |].
    assert (waiter w ch e th b) as Hwait by done. destruct (Hw e th b Hwait) as [Hvb _].
    unfold getalt, getthread. rewrite Ht. cbn [res_of_option mbind res_bind]. rewrite Hb'. cbn [res_of_option mbind res_bind].
    destruct (decide (ch_n ch = 0)) as [Hz | Hz].
    + rewrite decide_False by tauto. rewrite decide_True by done. rewrite altcopy_mem by (done || lia).
      cbn [mbind res_bind]. unfold settag, getthread. cbn [w_threads with_mem]. rewrite Ht.
      eexists (Some e), _. split; [done |]. split; [reflexivity |]. by apply (ex_take w c ch a e th b).
    + rewrite decide_True by lia. rewrite decide_False by naive_solver. rewrite (take_buffered c ch) by (done || lia).
      cbn [mbind res_bind]. rewrite copy_out by (done || lia). cbn [mbind res_bind].
      rewrite (copy_in _ c ch (ch <| ch_f := u32 (ch_f ch + 1) |>)); try done; [| lia | | apply lookup_insert_eq].
      2:{ apply put_at_ptr_ok; [by rewrite element_len by (done || lia) | done]. }
      cbn [mbind res_bind]. unfold settag, getthread. cbn [w_threads with_mem setchan update]. cbn. rewrite Ht. cbn [res_of_option mbind res_bind].
      eexists (Some e), _. split; [done |]. split; [reflexivity |].
      pose proof (ex_swap w c ch a e th b _ Hop ltac:(lia) Hwait Hob eq_refl) as Hex.
      unfold choose, setchan, with_mem, setthread in *. cbn in *. by rewrite insert_insert_eq.
  - destruct (Hno eq_refl) as [_ Hnone]. destruct Hgo as [(e & Hq & He)|Hroom]; [by apply Hnone in He |].
    apply bool_decide_eq_true in Hroom. rewrite (take_buffered c ch) by done. cbn [mbind res_bind].
    rewrite decide_True by done. rewrite copy_out by (done || lia). eexists None, _. split; [done |]. split; [reflexivity |]. by apply ex_get.
Qed.

(** ** The loops of alt *)

Lemma canexec_spec w ch a :
  readable w (ch_qentry ch) → ∃ b : bool, canexec w ch a = Ok b ∧ (b = true ↔ proceeds w ch (a_op a)).
Proof.
  intros Hr. unfold canexec, proceeds. destruct (canmeet_spec w (otherop (a_op a)) _ Hr) as (b & -> & Hb).
  eexists. split; [done |]. rewrite orb_true_iff. by rewrite Hb.
Qed.

(** An entry names a channel that can be looked at. *)
Definition scannable (w : world) (a : Alt) : Prop :=
  ∀ c, a_op a ≠ CHANNOP → a_c a = Some c → ∃ ch, w_chans w !! c = Some ch ∧ readable w (ch_qentry ch).

Definition can_proceed (w : world) (a : Alt) : Prop :=
  a_op a ≠ CHANNOP ∧ ∃ c ch, a_c a = Some c ∧ w_chans w !! c = Some ch ∧ isopenfor ch (a_op a) = true ∧ proceeds w ch (a_op a).

Lemma scan_spec w nrand l i n a :
  nrand_ok nrand → Forall (scannable w) l → (n = 0%nat ↔ a = None) →
  ∃ s, scan w nrand l i n a = Ok s ∧
    (s = Some None → a = None ∧ Forall (λ xa, a_op xa ≠ CHANNOP → is_Some (a_c xa) ∧ ¬ can_proceed w xa) l) ∧
    (∀ j, s = Some (Some j) → a = Some j ∨ ∃ k xa, j = (i + k)%nat ∧ l !! k = Some xa ∧ can_proceed w xa).
Proof.
  intros Hn Hl. revert i n a. induction Hl as [|xa l Hx Hl IH]; intros i n a Hna; cbn [scan].
  { exists (Some a). split; [done |]. split; [intros [= ->]; by split | intros j [= ->]; by left]. }
  assert (∀ n a', (n = 0%nat ↔ a' = None) → (a' = None → a = None ∧ (a_op xa ≠ CHANNOP → is_Some (a_c xa) ∧ ¬ can_proceed w xa)) →
    (∀ j, a' = Some j → a = Some j ∨ j = i ∧ can_proceed w xa) →
    ∃ s, scan w nrand l (S i) n a' = Ok s ∧
      (s = Some None → a = None ∧ Forall (λ xa, a_op xa ≠ CHANNOP → is_Some (a_c xa) ∧ ¬ can_proceed w xa) (xa :: l)) ∧
      (∀ j, s = Some (Some j) → a = Some j ∨ ∃ k xa0, j = (i + k)%nat ∧ (xa :: l) !! k = Some xa0 ∧ can_proceed w xa0)) as Hstep.
  { intros n' a' Hna' Hnone Hsome. destruct (IH (S i) n' a' Hna') as (s & -> & H1 & H2). exists s. split; [done |]. split.
    - intros Hs. destruct (H1 Hs) as [Ha' ?]. destruct (Hnone Ha') as [? ?]. split; [done |]. by constructor.
    - intros j Hj. destruct (H2 j Hj) as [Ha' | (k & xa' & -> & Hk & ?)].
      + destruct (Hsome j Ha') as [|[-> ?]]; [by left |]. right. exists 0%nat, xa. split_and!; [lia | done | done].
      + right. exists (S k), xa'. split_and!; [lia | done | done]. }
  case_decide as Hnop; [by apply Hstep; [| tauto | auto] |].
  destruct (a_c xa) as [c|] eqn:Hc; [| exists None; done].
  destruct (Hx c Hnop Hc) as (ch & Hch & Hr). unfold getchan. rewrite Hch. cbn [res_of_option mbind res_bind].
  assert (∃ b : bool, (if isopenfor ch (a_op xa) then canexec w ch xa else Ok false) = Ok b ∧
    (b = true ↔ can_proceed w xa)) as (b & -> & Hb).
  { unfold can_proceed. destruct (isopenfor ch (a_op xa)) eqn:Hop.
    - destruct (canexec_spec w ch xa Hr) as (b & -> & Hb). exists b. split; [done |]. rewrite Hb. split; [eauto 8 |].
      intros (_ & c' & ch' & ? & ? & ? & ?). congruence.
    - exists false. split; [done |]. split; [done |]. intros (_ & c' & ch' & ? & ? & ? & ?). congruence. }
  cbn [mbind res_bind]. destruct b.
  - destruct (draw_some nrand n i a Hn Hna) as (y & -> & Hy). apply Hstep; [done | done |].
    intros j [= <-]. destruct Hy as [-> | ->]; [right; split; [done |]; by apply Hb | by left].
  - apply Hstep; [done | | auto]. intros ->. split; [done |]. intros _. split; [eauto |]. intros H. by apply Hb in H.
Qed.

(** The channels after [t] has enqueued the entries of [l], numbered from [i]. *)
Definition wants (c : chan) (ch : Channel) (a : Alt) : Prop :=
  a_op a ≠ CHANNOP ∧ a_c a = Some c ∧ isopenfor ch (a_op a) = true.

Record more (t : tid) (l : list Alt) (i : nat) (c : chan) (ch ch' : Channel) : Prop := {
  mo_q : ch' = ch <| ch_qentry := ch_qentry ch' |>;
  mo_in : ∀ e, Some e ∈ ch_qentry ch' ↔
    Some e ∈ ch_qentry ch ∨ ∃ k a, e = (t, (i + k)%nat) ∧ l !! k = Some a ∧ wants c ch a;
  mo_nodup : NoDup (somes (ch_qentry ch)) → (∀ j, Some (t, j) ∈ ch_qentry ch → (j < i)%nat) → NoDup (somes (ch_qentry ch'));
  mo_none : (∀ a, a ∈ l → ¬ wants c ch a) → ch' = ch
}.

Lemma Channel_eta ch : ch = ch <| ch_qentry := ch_qentry ch |>.
Proof. by destruct ch. Qed.

Lemma more_refl t i c ch : more t [] i c ch ch.
Proof. constructor; [apply Channel_eta | | done | done]. intros e. split; [by left |]. intros [|(k & a & _ & Hk & _)]; done. Qed.

Lemma wants_q c ch q a : wants c (ch <| ch_qentry := q |>) a ↔ wants c ch a.
Proof. done. Qed.

Lemma more_skip t xa l i c ch ch' : ¬ wants c ch xa → more t l (S i) c ch ch' → more t (xa :: l) i c ch ch'.
Proof.
  intros Hx [H1 H2 H3 H4]. constructor; [done | | | ].
  - intros e. rewrite H2. split; (intros [|(k & a & -> & Hk & Ha)]; [by left |]).
    + right. exists (S k), a. split_and!; [f_equal; lia | done | done].
    + destruct k as [|k]; [naive_solver |]. right. exists k, a. split_and!; [f_equal; lia | done | done].
  - intros Hd Hj. apply H3; [done |]. intros j Hq. specialize (Hj j Hq). lia.
  - intros Hno. apply H4. set_solver.
Qed.

Lemma more_put t xa l i c ch ch' :
  wants c ch xa → more t l (S i) c (ch <| ch_qentry := putentry (t, i) (ch_qentry ch) |>) ch' → more t (xa :: l) i c ch ch'.
Proof.
  intros Hx [H1 H2 H3 H4]. constructor; [done | | | ].
  - intros e. rewrite H2. cbn. rewrite putentry_in. split.
    + intros [[-> | ?] | (k & a & -> & Hk & Ha)]; [right; exists 0%nat, xa; by rewrite Nat.add_0_r | by left |].
      right. exists (S k), a. split_and!; [f_equal; lia | done | done].
    + intros [? | (k & a & -> & Hk & Ha)]; [auto |]. destruct k as [|k]; [left; left; f_equal; lia |].
      right. exists k, a. split_and!; [f_equal; lia | done | done].
  - intros Hd Hj. apply H3; cbn.
    + apply putentry_nodup; [| done]. rewrite elem_somes. intros Hq. specialize (Hj i Hq). lia.
    + intros j [[= ->] | Hq]%putentry_in; [lia |]. specialize (Hj j Hq). lia.
  - intros Hno. exfalso. apply (Hno xa); [set_solver | done].
Qed.

(** What the loop leaves: the flags say whether anything was enqueued, and which entry of
    a closed channel is to be failed. *)
Record enqueued (t : tid) (l : list Alt) (i : nat) (v : bool * option nat * bool) (w : world)
    (v' : bool * option nat * bool) (w' : world) : Prop := {
  eq_mem : w_mem w' = w_mem w;
  eq_threads : w_threads w' = w_threads w;
  eq_more : ∀ c, match w_chans w !! c, w_chans w' !! c with
                 | Some ch, Some ch' => more t l i c ch ch' | None, None => True | _, _ => False end;
  eq_none : v'.1.1 = false →
    v.1.1 = false ∧ w' = w ∧ ∀ xa c ch, xa ∈ l → w_chans w !! c = Some ch → ¬ wants c ch xa;
  eq_ca : ∀ j, v'.1.2 = Some j → v.1.2 = Some j ∨ ∃ k, j = (i + k)%nat ∧ (k < length l)%nat
}.

Lemma enqueued_skip t xa l i v v1 w v' w' :
  v1.1.1 = v.1.1 → (∀ j, v1.1.2 = Some j → v.1.2 = Some j ∨ j = i) →
  (∀ c ch, w_chans w !! c = Some ch → ¬ wants c ch xa) →
  enqueued t l (S i) v1 w v' w' → enqueued t (xa :: l) i v w v' w'.
Proof.
  intros Hv1 Hv2 Hno [Hm Ht Hc Hw Hj]. constructor; [done | done | | | ].
  - intros c. specialize (Hc c). destruct (w_chans w !! c) eqn:Hch, (w_chans w' !! c); [| done..].
    apply more_skip; [by apply Hno | done].
  - intros Hf. destruct (Hw Hf) as (? & -> & Hn). split_and!; [congruence | done |].
    intros xa0 c ch [-> | Hin]%list.elem_of_cons; [apply Hno | by apply Hn].
  - intros j Hvj. destruct (Hj j Hvj) as [Hvj' | (k & -> & ?)].
    + destruct (Hv2 j Hvj') as [| ->]; [by left |]. right. exists 0%nat. cbn. lia.
    + right. exists (S k). cbn. lia.
Qed.

Lemma enqueued_put t xa l i c ch waiting ca cl w v' w' :
  w_chans w !! c = Some ch → wants c ch xa →
  enqueued t l (S i) (true, ca, cl) (setchan c (ch <| ch_qentry := putentry (t, i) (ch_qentry ch) |>) w) v' w' →
  enqueued t (xa :: l) i (waiting, ca, cl) w v' w'.
Proof.
  intros Hch Hx [Hm Ht Hmore Hw Hj]. constructor; [done | done | | by intros Hf; destruct (Hw Hf) | ].
  - intros c'. specialize (Hmore c'). cbn in Hmore. destruct (decide (c' = c)) as [-> | Hne].
    + rewrite lookup_insert_eq in Hmore. rewrite Hch. destruct (w_chans w' !! c); [| done]. by apply more_put.
    + rewrite lookup_insert_ne in Hmore by done. destruct (w_chans w !! c'), (w_chans w' !! c'); [| done..].
      apply more_skip; [| done]. destruct Hx as (_ & Hx & _). intros (_ & ? & _). congruence.
  - intros j Hvj. destruct (Hj j Hvj) as [|(k & -> & ?)]; [by left |]. right. exists (S k). cbn. lia.
Qed.

Lemma enqueue_all_ok t l i v w :
  Forall (λ xa, a_op xa ≠ CHANNOP → ∃ c, a_c xa = Some c ∧ is_Some (w_chans w !! c)) l →
  ∃ v' w', enqueue_all t l i v w = Ok (v', w') ∧ enqueued t l i v w v' w'.
Proof.
  revert i v w. induction l as [|xa l IH]; intros i v w Hl; cbn [enqueue_all].
  { eexists v, w. split; [done |]. constructor; auto; [| intros; split_and!; [done | done | by intros ? ? ? []%list.elem_of_nil]].
    intros c. destruct (w_chans w !! c); [apply more_refl | done]. }
  apply Forall_cons_iff in Hl as [Hx Hl]. case_decide as Hnop.
  { destruct (IH (S i) v w Hl) as (v' & w' & ? & ?). exists v', w'. split; [done |].
    eapply enqueued_skip; [reflexivity | auto | | done]. by intros c ch _ [? _]. }
  destruct (Hx Hnop) as (c & Hc & ch & Hch). rewrite Hc. unfold getchan. rewrite Hch. cbn [res_of_option mbind res_bind].
  destruct v as [[waiting ca] allreadycl]. destruct (isopenfor ch (a_op xa)) eqn:Hopen.
  - unfold enqueue, getchan. rewrite Hch. cbn [res_of_option mbind res_bind].
    destruct (IH (S i) (true, ca, allreadycl) (setchan c (ch <| ch_qentry := putentry (t, i) (ch_qentry ch) |>) w)) as (v' & w' & He & Hq).
    { eapply Forall_impl; [| exact Hl]. cbv beta. intros a Ha Hop. destruct (Ha Hop) as (c' & ? & ?). exists c'. split; [done |].
      cbn. destruct (decide (c' = c)) as [-> |]; [rewrite lookup_insert_eq; eauto | by rewrite lookup_insert_ne by done]. }
    exists v', w'. split; [done |]. by eapply enqueued_put.
  - assert (∀ c' ch', w_chans w !! c' = Some ch' → ¬ wants c' ch' xa) as Hno.
    { intros c' ch' ? (_ & ? & ?). congruence. }
    case_decide.
    + destruct (IH (S i) (waiting, Some i, allreadycl) w Hl) as (v' & w' & ? & ?). exists v', w'. split; [done |].
      eapply enqueued_skip; [| | exact Hno | done]; [done |]. cbn. intros j [= <-]. by right.
    + destruct (IH (S i) (waiting, ca, true) w Hl) as (v' & w' & ? & ?). exists v', w'. split; [done |].
      eapply enqueued_skip; [| | exact Hno | done]; [done |]. auto.
Qed.

(** A channel after the entries of which [P] is true have left: it is gone with its last
    entry if it is to be freed. *)
Definition less (P : entry → bool) (o o' : option Channel) : Prop :=
  match o with
  | None => o' = None
  | Some ch =>
      let ch' := ch <| ch_qentry := without P (ch_qentry ch) |> in
      o' = Some ch' ∨ o' = None ∧ ch_freed ch = true ∧ ch_closed ch ≠ 1 ∧ somes (ch_qentry ch') = []
  end.

Lemma without_ext P P' q : (∀ e, P e = P' e) → without P q = without P' q.
Proof. intros H. apply map_ext. intros [e|]; [| done]. by rewrite H. Qed.

Lemma less_ext P P' o o' : (∀ e, P e = P' e) → less P o o' → less P' o o'.
Proof. intros H. unfold less. destruct o as [ch|]; [| done]. by rewrite (without_ext P P'). Qed.

Lemma less_id P ch : (∀ e, Some e ∈ ch_qentry ch → P e = false) → less P (Some ch) (Some ch).
Proof. intros H. left. rewrite without_none by done. by rewrite <- Channel_eta. Qed.

Lemma less_trans P P' o o1 o2 : less P o o1 → less P' o1 o2 → less (λ e, P' e || P e) o o2.
Proof.
  destruct o as [ch|]; cbn; [| by intros ->]. intros [-> | (-> & Hf & Hc & Hs)]; cbn.
  - rewrite without_without. intros [-> | (-> & ? & ? & ?)]; auto.
  - intros ->. right. split_and!; try done.
    destruct (somes (without (λ e, P' e || P e) (ch_qentry ch))) as [|e q] eqn:He; [done |]. exfalso.
    assert (e ∈ somes (without (λ e, P' e || P e) (ch_qentry ch))) as Hin by (rewrite He; set_solver).
    apply elem_somes, without_in in Hin as [Hin [_ Hp]%orb_false_iff].
    assert (e ∈ somes (without P (ch_qentry ch))) as Hin' by (apply elem_somes, without_in; done).
    rewrite Hs in Hin'. by apply list.elem_of_nil in Hin'.
Qed.

Lemma exists_somes {A} (q : list (option A)) : Exists is_Some q ↔ somes q ≠ [].
Proof.
  induction q as [|[x|] q IH]; cbn.
  - split; [by inversion 1 | done].
  - split; [done |]. intros _. apply Exists_cons_hd. eauto.
  - rewrite <- IH. split; [| by apply Exists_cons_tl]. intros [[? ?] |]%Exists_cons; [congruence | done].
Qed.

Lemma dequeue_ok w x e ch :
  w_chans w !! x = Some ch → NoDup (somes (ch_qentry ch)) →
  ∃ w', dequeue x e w = Ok w' ∧ w_mem w' = w_mem w ∧ w_threads w' = w_threads w ∧
    ∀ c, less (λ e', bool_decide (c = x ∧ e' = e)) (w_chans w !! c) (w_chans w' !! c).
Proof.
  intros Hx Hd. unfold dequeue, getchan. rewrite Hx. cbn [res_of_option mbind res_bind].
  assert (∀ c w', c ≠ x → w_chans w' !! c = w_chans w !! c →
    less (λ e', bool_decide (c = x ∧ e' = e)) (w_chans w !! c) (w_chans w' !! c)) as Hother.
  { intros c w' Hne ->. destruct (w_chans w !! c); [| done]. apply less_id. intros. by apply bool_decide_eq_false; intros []. }
  case_decide as Hin.
  - rewrite (delentry_without _ _ Hd).
    assert (∀ q, without (λ e', bool_decide (x = x ∧ e' = e)) q = without (λ e', bool_decide (e' = e)) q) as Hq.
    { intros q. apply without_ext. intros e'. apply bool_decide_ext. naive_solver. }
    set (ch' := ch <| ch_qentry := without (λ x, bool_decide (x = e)) (ch_qentry ch) |>).
    assert (∀ ch'', ch'' = ch' → less (λ e', bool_decide (x = x ∧ e' = e)) (Some ch) (Some ch'')) as Hstay.
    { intros ch'' ->. left. by rewrite Hq. }
    destruct (ch_freed _ && _) eqn:Hf; [unfold _chanfree, getchan; cbn; rewrite lookup_insert_eq; cbn;
      destruct (decide (ch_closed ch = 1 ∨ Exists is_Some (without (λ x, bool_decide (x = e)) (ch_qentry ch)))) as [Hinuse | Hinuse] |].
    + eexists. split; [reflexivity |]. split; [done |]. split; [done |]. intros c.
      destruct (decide (c = x)) as [-> | Hne]; [| apply Hother; [done |]; cbn; by rewrite !lookup_insert_ne by done].
      cbn. rewrite lookup_insert_eq, Hx. apply Hstay. apply andb_true_iff in Hf as [Hf _]. unfold ch'.
      destruct ch; cbn in *. by rewrite Hf.
    + eexists. split; [reflexivity |]. split; [done |]. split; [done |]. intros c.
      destruct (decide (c = x)) as [-> | Hne]; [| apply Hother; [done |]; cbn; by rewrite lookup_delete_ne, lookup_insert_ne by done].
      cbn. rewrite lookup_delete_eq, Hx. right. apply andb_true_iff in Hf as [Hf Hcl%bool_decide_eq_true]. cbn in *. rewrite Hq.
      split_and!; [done.. |]. destruct (somes (without (λ e', bool_decide (e' = e)) (ch_qentry ch))) eqn:He; [done |]. exfalso. apply Hinuse. right. apply exists_somes. by rewrite He.
    + eexists. split; [reflexivity |]. split; [done |]. split; [done |]. intros c.
      destruct (decide (c = x)) as [-> | Hne]; [| apply Hother; [done |]; cbn; by rewrite lookup_insert_ne by done].
      cbn. rewrite lookup_insert_eq, Hx. by apply Hstay.
  - exists w. split_and!; [done.. |]. intros c. destruct (decide (c = x)) as [-> | Hne]; [| by apply Hother].
    rewrite Hx. apply less_id. intros e' He'. apply bool_decide_eq_false. intros [_ ->]. done.
Qed.

(** The entries of an array [l], numbered from [i], that are enqueued on [c] by [t]. *)
Definition entry_on (l : list Alt) (k : nat) (c : chan) : Prop :=
  match l !! k with Some a => a_op a ≠ CHANNOP ∧ a_c a = Some c | None => False end.
#[export] Instance entry_on_dec l k c : Decision (entry_on l k c).
Proof. unfold entry_on. destruct (l !! k); apply _. Defined.

Definition isof (t : tid) (l : list Alt) (i : nat) (c : chan) (e : entry) : bool :=
  bool_decide (e.1 = t ∧ (i ≤ e.2)%nat ∧ entry_on l (e.2 - i) c).

Lemma isof_nil t i c e : isof t [] i c e = false.
Proof. apply bool_decide_eq_false. by intros (_ & _ & Ha). Qed.

Lemma isof_cons t xa l i c e :
  isof t (xa :: l) i c e = isof t l (S i) c e || bool_decide ((a_op xa ≠ CHANNOP ∧ a_c xa = Some c) ∧ e = (t, i)).
Proof.
  unfold isof. rewrite <- bool_decide_or. apply bool_decide_ext. destruct e as [u j]. cbn. unfold entry_on. split.
  - intros (-> & Hi & Ha). destruct (decide (i = j)) as [<- | Hne]; [rewrite Nat.sub_diag in Ha; auto |].
    left. split_and!; [done | lia |]. by replace (j - i)%nat with (S (j - S i)) in Ha by lia.
  - intros [(-> & Hi & Ha) | [Ho [= -> ->]]].
    + split_and!; [done | lia |]. by replace (j - i)%nat with (S (j - S i)) by lia.
    + split_and!; [done | lia |]. by rewrite Nat.sub_diag.
Qed.

(** Arrays that differ in err only. *)
Definition err_only (l l' : list Alt) : Prop := Forall2 (λ a a', a' = a <| a_err := a_err a' |>) l l'.

Lemma err_only_refl l : err_only l l.
Proof. apply list.Forall_Forall2_diag, list.Forall_forall. intros [] _. done. Qed.

(** What the loop needs to know of the entries to dequeue. *)
Definition dequeuable (t : tid) (l : list Alt) (i : nat) (w : world) : Prop :=
  ∀ k a, l !! k = Some a → a_op a ≠ CHANNOP →
    ∃ x ch, a_c a = Some x ∧ w_chans w !! x = Some ch ∧ NoDup (somes (ch_qentry ch)) ∧
            (ch_freed ch = true → Some (t, (i + k)%nat) ∈ ch_qentry ch).

Lemma dequeuable_less t xa l i w w' (P : chan → entry → bool) :
  dequeuable t (xa :: l) i w → (∀ c e, P c e = true → e = (t, i)) →
  (∀ c, less (P c) (w_chans w !! c) (w_chans w' !! c)) → dequeuable t l (S i) w'.
Proof.
  intros Hd HP Hl k a Hk Ho. destruct (Hd (S k) a Hk Ho) as (x & ch & Hx & Hch & Hnd & Hf). specialize (Hl x).
  assert ((S i + k)%nat = (i + S k)%nat) as -> by lia. rewrite Hch in Hl. exists x. destruct Hl as [-> | (_ & Hfr & _ & Hs)].
  - eexists. split; [done |]. split; [done |]. cbn. split; [rewrite without_somes; by apply list.NoDup_filter |].
    intros Hfr. apply without_in. split; [by apply Hf |].
    destruct (P x (t, (i + S k)%nat)) eqn:Hp; [| done]. apply HP in Hp. injection Hp. lia.
  - exfalso. specialize (Hf Hfr). cbn in Hs.
    assert ((t, (i + S k)%nat) ∈ somes (without (P x) (ch_qentry ch))) as Hin; [| rewrite Hs in Hin; by apply list.elem_of_nil in Hin].
    apply elem_somes, without_in. split; [done |]. destruct (P x (t, (i + S k)%nat)) eqn:Hp; [| done]. apply HP in Hp. injection Hp. lia.
Qed.

Lemma seterr_ok t i e w th :
  w_threads w !! t = Some th → (i < length (t_alts th))%nat →
  ∃ alts, seterr t i e w = Ok (setthread t (th <| t_alts := alts |>) w) ∧ err_only (t_alts th) alts ∧
    a_err <$> alts !! i = Some e.
Proof.
  intros Ht Hi. unfold seterr, getthread. rewrite Ht. cbn [res_of_option mbind res_bind].
  apply lookup_lt_is_Some in Hi as [a Ha]. rewrite Ha. eexists. split; [reflexivity |]. split.
  - apply Forall2_same_length_lookup. split; [by rewrite length_insert |]. intros j x y Hx Hy.
    destruct (decide (j = i)) as [-> | Hne].
    + rewrite list_lookup_insert_eq in Hy by (by apply lookup_lt_is_Some; eauto). injection Hy as <-.
      rewrite Ha in Hx. injection Hx as <-. done.
    + rewrite list_lookup_insert_ne in Hy by done. rewrite Hx in Hy. injection Hy as <-. by destruct x.
  - rewrite list_lookup_insert_eq by (by apply lookup_lt_is_Some; eauto). done.
Qed.

(** The last entry for the channel the tag [c] is set to. *)
Fixpoint last_for (l : list Alt) (i : nat) (c : cvar) (a : option nat) : option nat :=
  match l with
  | [] => a
  | xa :: l => last_for l (S i) c (if decide (a_op xa ≠ CHANNOP ∧ Cchan <$> a_c xa = Some c) then Some i else a)
  end.

Record dequeued (t : tid) (l : list Alt) (i : nat) (w w' : world) : Prop := {
  dq_mem : w_mem w' = w_mem w;
  dq_threads : ∃ th alts, w_threads w !! t = Some th ∧ w_threads w' = <[t := th <| t_alts := alts |>]> (w_threads w) ∧
    err_only (t_alts th) alts;
  dq_less : ∀ x, less (isof t l i x) (w_chans w !! x) (w_chans w' !! x)
}.

Lemma err_only_trans l l1 l2 : err_only l l1 → err_only l1 l2 → err_only l l2.
Proof.
  unfold err_only. intros H. revert l2. induction H as [|[] [] ? ? Ha _ IH]; intros l2 H2; inversion H2 as [|? [] ? ? Hb]; subst; [done |].
  constructor; [| by apply IH]. unfold update in *. cbn in *. congruence.
Qed.

Lemma dequeued_step t xa l i c w w1 w2 :
  w_mem w1 = w_mem w →
  (∃ th alts, w_threads w !! t = Some th ∧ w_threads w1 = <[t := th <| t_alts := alts |>]> (w_threads w) ∧ err_only (t_alts th) alts) →
  (∀ x, less (λ e, bool_decide ((a_op xa ≠ CHANNOP ∧ a_c xa = Some x) ∧ e = (t, i))) (w_chans w !! x) (w_chans w1 !! x)) →
  c = (t, i) → dequeued t l (S i) w1 w2 → dequeued t (xa :: l) i w w2.
Proof.
  intros Hm (th & alts & Hth & Ht & Ha) Hl -> [Hm' (th' & alts' & Hth' & Ht' & Ha') Hl']. constructor.
  - congruence.
  - exists th, alts'. split; [done |]. rewrite Ht in Hth', Ht'. rewrite lookup_insert_eq in Hth'. injection Hth' as <-.
    split; [by rewrite Ht', insert_insert_eq | by eapply err_only_trans].
  - intros x. eapply less_ext; [intros e; symmetry; apply isof_cons |]. by eapply less_trans.
Qed.

Lemma insert_same (t : tid) th (m : gmap tid Thread) : m !! t = Some th → m = <[t := th <| t_alts := t_alts th |>]> m.
Proof. intros H. symmetry. apply insert_id. by destruct th. Qed.

Lemma setthread_same w t th : w_threads w !! t = Some th → w = setthread t (th <| t_alts := t_alts th |>) w.
Proof. intros H. destruct w as [wc wm wt]. unfold setthread, update. cbn in *. f_equal. by apply insert_same. Qed.

Lemma dequeue_all_ok t l i c r a w th :
  w_threads w !! t = Some th → (i + length l ≤ length (t_alts th))%nat → dequeuable t l i w →
  ∃ w', dequeue_all t l i c r a w = Ok (last_for l i c a, w') ∧ dequeued t l i w w'.
Proof.
  revert i a w th. induction l as [|xa l IH]; intros i a w th Hth Hlen Hd; cbn [dequeue_all last_for].
  { exists w. split; [done |]. constructor; [done | |].
    - exists th, (t_alts th). split; [done |]. split; [by apply insert_same | apply err_only_refl].
    - intros x. destruct (w_chans w !! x); [| done]. apply less_id. intros. apply isof_nil. }
  cbn [length] in Hlen. destruct (decide (a_op xa = CHANNOP)) as [Hnop | Hnop].
  { rewrite (decide_False (P := a_op xa ≠ CHANNOP ∧ _)) by tauto.
    destruct (IH (S i) a w th Hth) as (w' & -> & Hq); [lia | |].
    { intros k a' Hk Ho. destruct (Hd (S k) a' Hk Ho) as (x & ch & ?). exists x, ch. by replace (S i + k)%nat with (i + S k)%nat by lia. }
    exists w'. split; [done |]. apply (dequeued_step t xa l i (t, i) w w w'); [done | | | done | done].
    - exists th, (t_alts th). split; [done |]. split; [by apply insert_same | apply err_only_refl].
    - intros x. destruct (w_chans w !! x); [| done]. apply less_id. intros. apply bool_decide_eq_false. tauto. }
  destruct (Hd 0%nat xa eq_refl Hnop) as (x & ch & Hx & Hch & Hnd & Hf). rewrite Hx. cbn [fmap option_fmap option_map].
  assert (∃ w1 alts1, (if decide (c = Cchan x) then w ← seterr t i (if decide (r = Closed) then Errcl else Enil) w; Ok (Some i, w)
            else Ok (a, w)) = Ok (if decide (a_op xa ≠ CHANNOP ∧ Some (Cchan x) = Some c) then Some i else a, w1) ∧
    w1 = setthread t (th <| t_alts := alts1 |>) w ∧ err_only (t_alts th) alts1) as (w1 & alts1 & -> & -> & Ha1).
  { destruct (decide (c = Cchan x)) as [-> | Hne].
    - destruct (seterr_ok t i (if decide (r = Closed) then Errcl else Enil) w th Hth ltac:(lia)) as (alts & -> & Ha & _).
      eexists _, alts. rewrite decide_True by done. done.
    - eexists _, (t_alts th). rewrite decide_False by naive_solver. split; [done |]. split; [| apply err_only_refl].
      by apply setthread_same. }
  cbn [mbind res_bind]. set (w1 := setthread t _ w).
  destruct (dequeue_ok w1 x (t, i) ch Hch Hnd) as (w2 & -> & Hm & Ht & Hl). cbn [mbind res_bind].
  assert (∀ y, less (λ e, bool_decide ((a_op xa ≠ CHANNOP ∧ a_c xa = Some y) ∧ e = (t, i))) (w_chans w !! y) (w_chans w2 !! y)) as Hl'.
  { intros y. eapply less_ext; [| apply Hl]. intros e. apply bool_decide_ext. rewrite Hx. naive_solver. }
  assert (w_threads w2 !! t = Some (th <| t_alts := alts1 |>)) as Hth2 by (rewrite Ht; apply lookup_insert_eq).
  edestruct (IH (S i)) as (w3 & -> & Hq); [exact Hth2 | | |].
  { cbn. rewrite <- (Forall2_length Ha1). lia. }
  { eapply (dequeuable_less t xa l i w w2 _ Hd); [| exact Hl']. intros y e He%bool_decide_eq_true. tauto. }
  exists w3. split; [done |]. apply (dequeued_step t xa l i (t, i) w w2 w3); [done | | exact Hl' | done | done].
  exists th, alts1. by rewrite Ht.
Qed.

(** ** The loop of chanclose *)

(** An entry that fails when its channel, with [n] elements left, is closed. *)
Definition failing (w : world) (n : Z) (e : entry) : Prop :=
  ∃ th a, w_threads w !! e.1 = Some th ∧ t_alts th !! e.2 = Some a ∧ t_c th = Cnil ∧
          (a_op a = CHANSND ∨ a_op a = CHANRCV ∧ n = 0).

Lemma closing_scan_ok w c n q i :
  readable w q →
  ∃ r, closing_scan w c n q i = Ok r ∧
    (r = None → ∀ e, Some e ∈ q → ¬ failing w n e) ∧
    (∀ u j, r = Some (u, j) → ∃ k m, j = (i + k)%nat ∧ q !! k = Some (Some (u, m)) ∧ failing w n (u, m) ∧
       ∀ k' e, (k' < k)%nat → q !! k' = Some (Some e) → ¬ failing w n e).
Proof.
  revert i. induction q as [|[e|] q IH]; intros i Hr; cbn [closing_scan].
  - exists None. split; [done |]. split; [set_solver | done].
  - assert (readable w q) as Hq by (intros ? ?; apply Hr; set_solver).
    destruct (Hr e) as (th & a & Ht & Ha); [set_solver |]. unfold getalt, getthread. rewrite Ht.
    cbn [res_of_option mbind res_bind]. rewrite Ha. cbn [res_of_option mbind res_bind].
    assert (failing w n e ↔ t_c th = Cnil ∧ (a_op a = CHANSND ∨ a_op a = CHANRCV ∧ n = 0)) as Hfail.
    { split; [intros (th' & a' & ? & ? & ? & ?); simplify_eq; auto | intros [? ?]; by exists th, a]. }
    case_decide as Hd.
    + exists (Some (e.1, i)). split; [done |]. split; [done |]. intros u j [= <- <-]. exists 0%nat, e.2.
      rewrite <- surjective_pairing. split_and!; [lia | done | by apply Hfail | lia].
    + destruct (IH (S i) Hq) as (r & -> & H1 & H2). exists r. split; [done |]. split.
      * intros Hn x [[= ->] | Hx]%list.elem_of_cons; [by rewrite Hfail | by apply H1].
      * intros u j Hj. destruct (H2 u j Hj) as (k & m & -> & Hk & Hf & Hb). exists (S k), m.
        split_and!; [lia | done | done |]. intros [|k'] x Hk' Hx; [cbn in Hx; injection Hx as <-; by rewrite Hfail |].
        apply (Hb k'); [lia | done].
  - assert (readable w q) as Hq by (intros ? ?; apply Hr; set_solver).
    destruct (IH (S i) Hq) as (r & -> & H1 & H2). exists r. split; [done |]. split.
    + intros Hn x Hx. apply H1; [done | set_solver].
    + intros u j Hj. destruct (H2 u j Hj) as (k & m & -> & Hk & Hf & Hb). exists (S k), m.
      split_and!; [lia | done | done |]. intros [|k'] x Hk' Hx; [done |]. apply (Hb k'); [lia | done].
Qed.
