(* ===== verification/ChanSys.v ===== *)
(** * ChanSys: threads and channels as one system

    The sections of channel.c under [chanlock], the rendezvous of threads and what a client
    may do as the steps of one system, and the invariant of its states: every waiting
    thread is enqueued on live channels, is chosen by at most one other thread, which will
    meet it, and no sender waits while a receiver does. *)

From S2P Require Import Prelude Chan ChanInv.

(** ** Steps *)

Definition idle (th : Thread) : Prop := ∃ r, t_pc th = Idle r.
Definition in_alt (th : Thread) : Prop := t_pc th = Waiting ∨ ∃ r, t_pc th = Woken r.
Definition unmet (th : Thread) : Prop := t_pc th = Waiting ∨ t_pc th = Woken Intred.

(** What alt asks of an entry: a channel not yet freed, and room for an element. *)
Definition alt_ok (w : world) (a : Alt) : Prop :=
  a_op a ≠ CHANNOP → ∀ c, a_c a = Some c →
    ∃ ch, w_chans w !! c = Some ch ∧ ch_freed ch = false ∧ ptr_ok (w_mem w) (a_v a) (ch_e ch).

Definition alts_ok (w : world) (alts : list Alt) : Prop :=
  ∃ l e, entries alts = Ok (l, e) ∧ Forall (alt_ok w) l.

(** A thread receives into memory that no other waiting thread uses. *)
Definition own_buffers (w : world) (t : tid) (alts : list Alt) : Prop :=
  ∀ i a u th j b, alts !! i = Some a → a_op a = CHANRCV → u ≠ t → w_threads w !! u = Some th → in_alt th →
    t_alts th !! j = Some b → a_v a = a_v b → a_v a = Pnil.

(** A channel may be freed while alts wait on it, but only if they are all enqueued: a
    waiting alt that found it closed still looks at it when it dequeues. *)
Definition free_ok (w : world) (c : chan) : Prop :=
  ∃ ch, w_chans w !! c = Some ch ∧ ch_freed ch = false ∧
    ∀ t th i a, w_threads w !! t = Some th → in_alt th → t_alts th !! i = Some a →
      a_op a ≠ CHANNOP → a_c a = Some c → Some (t, i) ∈ ch_qentry ch.

(** The elements that go into and come out of channels. *)
Inductive move : Type := Created (c : chan) | Sent (c : chan) (x : list Z) | Got (c : chan) (x : list Z).

Definition exec_moves (w : world) (c : chan) (ch : Channel) (a : Alt) (b : option entry) : list move :=
  match a_op a, b with
  | CHANSND, None => [Sent c (valof (w_mem w) (a_v a) (ch_e ch))]
  | CHANSND, Some _ => [Sent c (valof (w_mem w) (a_v a) (ch_e ch)); Got c (valof (w_mem w) (a_v a) (ch_e ch))]
  | _, None => [Got c (element ch 0)]
  | _, Some e =>
      let x := match getalt w e with Ok b => valof (w_mem w) (a_v b) (ch_e ch) | _ => [] end in
      [Sent c x; Got c (if decide (ch_n ch = 0) then x else element ch 0)]
  end.

(** The choice alt makes: the entry, its channel, and the waiting entry it meets. *)
Definition alt_moves (alts : list Alt) (nrand nrand' : nat → Z) (w : world) : list move :=
  match ('(l, _) ← entries alts;
         s ← scan w nrand l 0 0 None;
         match s with
         | Some (Some i) =>
             a ← res_of_option (l !! i); c ← res_of_option (a_c a); ch ← getchan w c;
             b ← pick w (otherop (a_op a)) nrand' (ch_qentry ch) 0 None; Ok (exec_moves w c ch a b)
         | _ => Ok []
         end) with
  | Ok m => m
  | _ => []
  end.

Inductive step (w : world) : list move → world → Prop :=
  | st_alt t th alts nrand nrand' w' :
      w_threads w !! t = Some th → idle th → alts_ok w alts → own_buffers w t alts → nrand_ok nrand → nrand_ok nrand' →
      alt t alts nrand nrand' w = Ok w' → step w (alt_moves alts nrand nrand' (setthread t (th <| t_alts := alts |>) w)) w'
  | st_rendezvous x y thx thy u w' :
      x ≠ y → w_threads w !! x = Some thx → w_threads w !! y = Some thy →
      rendtag x thx = Some u → rendtag y thy = Some u → rendezvous x y w = Ok w' → step w [] w'
  | st_interrupt x th w' :
      w_threads w !! x = Some th → is_Some (rendtag x th) → interrupt x w = Ok w' → step w [] w'
  | st_woken t th r w' :
      w_threads w !! t = Some th → t_pc th = Woken r → alt_woken t r w = Ok w' → step w [] w'
  | st_create elemsize elemcnt c c' w' :
      w_chans w !! c = None → elemcnt < 2 ^ 31 → chancreate elemsize elemcnt c w = (Some c', w') → step w [Created c] w'
  | st_close t th c w' :
      w_threads w !! t = Some th → idle th → (∃ ch, w_chans w !! c = Some ch ∧ ch_freed ch = false) →
      chanclose t c w = Ok w' → step w [] w'
  | st_closing t th c i w' :
      w_threads w !! t = Some th → t_pc th = Closing c i → close_loop t c i w = Ok w' → step w [] w'
  | st_free c w' : free_ok w c → chanfree c w = Ok w' → step w [] w'
  | st_write a l l' : w_mem w !! a = Some l → length l' = length l →
      step w [] (with_mem w (<[a := l']> (w_mem w))).

(** A program begins without channels and with all its threads out of the library. *)
Definition starting (w : world) : Prop :=
  w_chans w = ∅ ∧ ∀ t th, w_threads w !! t = Some th → idle th.

Inductive runs (w : world) : list move → world → Prop :=
  | runs_nil : runs w [] w
  | runs_step ms w1 ms' w2 : runs w ms w1 → step w1 ms' w2 → runs w (ms ++ ms') w2.

(** ** The invariant *)

Definition at_entry (th : Thread) (i : nat) (a : Alt) : Prop :=
  ∃ l e, entries (t_alts th) = Ok (l, e) ∧ l !! i = Some a.

(** [th] is in the loop of chanclose for [c], with [j] the next place. *)
Definition closing (th : Thread) (c : chan) (j : nat) : Prop :=
  t_pc th = Closing c j ∨ ∃ u v, t_pc th = Meeting u v (KClose c j).

Definition alts_inv (w : world) (t : tid) (th : Thread) : Prop :=
  ∃ l, entries (t_alts th) = Ok (l, CHANEND) ∧
    ∀ i a, l !! i = Some a → a_op a ≠ CHANNOP →
      ∃ c ch, a_c a = Some c ∧ w_chans w !! c = Some ch ∧ ptr_ok (w_mem w) (a_v a) (ch_e ch) ∧
              (ch_freed ch = true → Some (t, i) ∈ ch_qentry ch).

(** Chosen threads are still enqueued on the channel they were chosen for. *)
Definition tag_inv (w : world) (t : tid) (th : Thread) : Prop :=
  match t_c th with
  | Cint => False
  | Cnil => unmet th
  | Cchan c =>
      (∃ ch i, w_chans w !! c = Some ch ∧ Some (t, i) ∈ ch_qentry ch) ∧
      (unmet th → ∃ m thm v k, w_threads w !! m = Some thm ∧ t_pc thm = Meeting t v k)
  end.

Record inv (w : world) : Prop := {
  iv_buf : ∀ c ch, w_chans w !! c = Some ch → buf_ok ch ∧ NoDup (somes (ch_qentry ch)) ∧ 0 ≤ ch_closed ch ≤ 2;
  iv_alts : ∀ t th, w_threads w !! t = Some th → in_alt th → alts_inv w t th;
  iv_queue : ∀ c ch t i, w_chans w !! c = Some ch → Some (t, i) ∈ ch_qentry ch →
    ∃ th a, w_threads w !! t = Some th ∧ in_alt th ∧ at_entry th i a ∧ a_op a ≠ CHANNOP ∧ a_c a = Some c;
  iv_tag : ∀ t th, w_threads w !! t = Some th → in_alt th → tag_inv w t th;
  iv_meet : ∀ m thm u v k, w_threads w !! m = Some thm → t_pc thm = Meeting u v k →
    v ≠ Intred ∧ ∃ thu c, w_threads w !! u = Some thu ∧ unmet thu ∧ t_c thu = Cchan c;
  iv_meet1 : ∀ m thm m' thm' u v k v' k', w_threads w !! m = Some thm → t_pc thm = Meeting u v k →
    w_threads w !! m' = Some thm' → t_pc thm' = Meeting u v' k' → m = m';
  iv_close : ∀ m thm c j, w_threads w !! m = Some thm → closing thm c j →
    ∃ ch, w_chans w !! c = Some ch ∧ ch_closed ch = 1;
  iv_close1 : ∀ m thm m' thm' c j j', w_threads w !! m = Some thm → closing thm c j →
    w_threads w !! m' = Some thm' → closing thm' c j' → m = m';
  iv_wait : ∀ c ch k t i th a, w_chans w !! c = Some ch → ch_qentry ch !! k = Some (Some (t, i)) →
    w_threads w !! t = Some th → t_c th = Cnil → t_alts th !! i = Some a →
    (a_op a = CHANRCV → ch_n ch = 0) ∧ (a_op a = CHANSND → ch_n ch = ch_s ch) ∧
    (ch_closed ch ≠ 0 → ∃ m thm j, w_threads w !! m = Some thm ∧ closing thm c j ∧ (j ≤ k)%nat);
  iv_pair : ∀ c ch e e' th th' a a', w_chans w !! c = Some ch →
    waiter w ch e th a → waiter w ch e' th' a' → a_op a = CHANSND → a_op a' = CHANRCV → e.1 = e'.1
}.

Lemma inv_start w : starting w → inv w.
Proof.
  intros [Hc Ht]. assert (∀ t th, w_threads w !! t = Some th → ∃ r, t_pc th = Idle r) as Hi by exact Ht.
  constructor; rewrite ?Hc; try done.
  - intros t th Hth [? | [? ?]]; destruct (Hi _ _ Hth); congruence.
  - intros t th Hth [? | [? ?]]; destruct (Hi _ _ Hth); congruence.
  - intros m thm u v k Hth ?; destruct (Hi _ _ Hth); congruence.
  - intros m thm m' thm' u v k v' k' Hth ?; destruct (Hi _ _ Hth); congruence.
  - intros m thm c j Hth [? | (? & ? & ?)]; destruct (Hi _ _ Hth); congruence.
  - intros m thm m' thm' c j j' Hth [? | (? & ? & ?)]; destruct (Hi _ _ Hth); congruence.
Qed.

(** *** Consequences *)

Lemma at_entry_lookup th i a : at_entry th i a → t_alts th !! i = Some a ∧ a_op a ≠ CHANEND ∧ a_op a ≠ CHANNOBLK.
Proof. intros (l & e & He & Hl). by eapply entries_lookup. Qed.

Lemma inv_readable w c ch : inv w → w_chans w !! c = Some ch → readable w (ch_qentry ch).
Proof.
  intros Hi Hc [t i] He. destruct (iv_queue _ Hi c ch t i Hc He) as (th & a & Ht & _ & Ha & _).
  apply at_entry_lookup in Ha as [Ha _]. eauto.
Qed.

(** What the invariant says of an entry not chosen yet. *)
Lemma inv_waiter w c ch e th b :
  inv w → w_chans w !! c = Some ch → waiter w ch e th b →
  in_alt th ∧ ptr_ok (w_mem w) (a_v b) (ch_e ch) ∧ (a_op b = CHANSND ∨ a_op b = CHANRCV) ∧
  (a_op b = CHANRCV → ch_n ch = 0) ∧ (a_op b = CHANSND → ch_n ch = ch_s ch).
Proof.
  intros Hi Hc (Hq & Ht & Hb & Hn). destruct e as [t i]. cbn in *.
  destruct (iv_queue _ Hi c ch t i Hc Hq) as (th' & a & Ht' & Hin & Ha & Hop & Hac). simplify_eq.
  pose proof (at_entry_lookup _ _ _ Ha) as (Ha' & ? & ?). simplify_eq.
  destruct (iv_alts _ Hi t _ Ht Hin) as (l & Hl & Hal). destruct Ha as (l' & e' & Hl' & Hla). rewrite Hl in Hl'. simplify_eq.
  destruct (Hal i b Hla Hop) as (c' & ch' & ? & ? & Hp & _). simplify_eq.
  apply list_elem_of_lookup in Hq as [k Hk]. destruct (iv_wait _ Hi c _ k t i _ b Hc Hk Ht Hn Hb) as (? & ? & _).
  split_and!; try done. destruct (a_op b); naive_solver.
Qed.

Lemma inv_waiters w c ch : inv w → w_chans w !! c = Some ch → waiters_ok w ch.
Proof.
  intros Hi Hc. split; [by eapply inv_readable |]. intros e th b Hw.
  destruct (inv_waiter w c ch e th b Hi Hc Hw) as (_ & ? & _ & ? & _). done.
Qed.
