(* ===== verification/ChanKeep.v ===== *)
(** * ChanKeep: every section of channel.c keeps the invariant

    The changes the sections make, one lemma for each: a thread comes or goes, a buffer
    changes, a waiting thread is chosen, woken, enqueued or dequeued, a channel is closed
    or freed. *)

From S2P Require Import Prelude Chan ChanInv ChanSys.

(** Look up a thread or channel in a map just updated. *)
Ltac look H := apply lookup_insert_Some in H as [[<- <-] | [? H]].

Lemma idle_not th : idle th → ¬ in_alt th ∧ (∀ u v k, t_pc th ≠ Meeting u v k) ∧ (∀ c j, ¬ closing th c j).
Proof. intros [r Hr]. unfold in_alt, closing. rewrite Hr. naive_solver. Qed.

Lemma unmet_in_alt th : unmet th → in_alt th.
Proof. unfold unmet, in_alt. naive_solver. Qed.

Lemma closing_not th c j : closing th c j → ¬ in_alt th.
Proof. intros [H | (u & v & H)] [H' | [r H']]; congruence. Qed.

Lemma meeting_not th u v k : t_pc th = Meeting u v k → ¬ in_alt th.
Proof. intros H [H' | [r H']]; congruence. Qed.

(** The clauses of the invariant of the state at hand, under short names. *)
Ltac open_inv H :=
  pose proof (iv_buf _ H) as Ibuf; pose proof (iv_alts _ H) as Ialts; pose proof (iv_queue _ H) as Iqueue;
  pose proof (iv_tag _ H) as Itag; pose proof (iv_meet _ H) as Imeet; pose proof (iv_meet1 _ H) as Imeet1;
  pose proof (iv_close _ H) as Iclose; pose proof (iv_close1 _ H) as Iclose1; pose proof (iv_wait _ H) as Iwait;
  pose proof (iv_pair _ H) as Ipair.

Section Keep.
Variable w : world.
Hypothesis Hinv : inv w.

Local Abbreviation C := (w_chans w).
Local Abbreviation M := (w_mem w).
Local Abbreviation T := (w_threads w).

(** A change of the client's memory that keeps the sizes of its objects. *)
Lemma keep_mem m : (∀ p e, ptr_ok M p e → ptr_ok m p e) → inv (with_mem w m).
Proof.
  intros Hm. open_inv Hinv. constructor; try assumption. intros t th Ht Hin.
  destruct (Ialts t th Ht Hin) as (l & Hl & Ha). exists l. split; [done |]. intros i a Hi Ho.
  destruct (Ha i a Hi Ho) as (c & ch & ? & ? & ? & ?). exists c, ch. auto.
Qed.

(** A thread that nobody refers to is replaced by one that is out of the library. *)
Lemma keep_idle t th th' : T !! t = Some th → idle th → idle th' → inv (setthread t th' w).
Proof.
  intros Ht Hid Hid'. destruct (idle_not _ Hid) as (Hn1 & Hn2 & Hn3). destruct (idle_not _ Hid') as (Hn1' & Hn2' & Hn3').
  assert (∀ u thu, T !! u = Some thu → in_alt thu → u ≠ t) as Hu by (intros u thu Hu Hin ->; congruence).
  assert (∀ u thu c j, T !! u = Some thu → closing thu c j → u ≠ t) as Hc.
  { intros u thu c j Hu' Hin ->. simplify_eq. by apply Hn3 in Hin. }
  assert (∀ u thu x v k, T !! u = Some thu → t_pc thu = Meeting x v k → u ≠ t) as Hm.
  { intros u thu x v k Hu' Hin ->. simplify_eq. by apply Hn2 in Hin. }
  open_inv Hinv. constructor; cbn; try assumption.
  - intros u thu Hl Hin. look Hl; [done |]. destruct (Ialts _ _ Hl Hin) as (l & ?). by exists l.
  - intros c ch u i Hch Hq. destruct (Iqueue c ch u i Hch Hq) as (thu & a & Hl & Hin & ?). exists thu, a.
    rewrite lookup_insert_ne by (symmetry; by eapply Hu). done.
  - intros u thu Hl Hin. look Hl; [done |]. specialize (Itag _ _ Hl Hin). unfold tag_inv in *.
    destruct (t_c thu); [done | | done]. destruct Itag as [? Hmeet]. split; [done |].
    intros Hun. destruct (Hmeet Hun) as (m & thm & v & k & Hm' & ?). exists m, thm, v, k.
    cbn. rewrite lookup_insert_ne by (symmetry; by eapply Hm). done.
  - intros m thm u v k Hl Hpc. look Hl; [by apply Hn2' in Hpc |].
    destruct (Imeet _ _ _ _ _ Hl Hpc) as (? & thu & c & Hthu & Hun & ?). split; [done |]. exists thu, c.
    rewrite lookup_insert_ne by (symmetry; eapply Hu; [done | by apply unmet_in_alt]). done.
  - intros m thm m' thm' u v k v' k' Hl Hpc Hl' Hpc'. look Hl; [by apply Hn2' in Hpc |]. look Hl'; [by apply Hn2' in Hpc' |].
    by eapply Imeet1.
  - intros m thm c j Hl Hcl. look Hl; [by apply Hn3' in Hcl |]. by eapply Iclose.
  - intros m thm m' thm' c j j' Hl Hcl Hl' Hcl'. look Hl; [by apply Hn3' in Hcl |]. look Hl'; [by apply Hn3' in Hcl' |].
    by eapply Iclose1.
  - intros c ch k u i thu a Hch Hq Hl Hcn Ha.
    destruct (Iqueue c ch u i Hch) as (thu' & a' & Hl' & Hin & _); [by eapply list_elem_of_lookup_2 |].
    rewrite lookup_insert_ne in Hl by (symmetry; by eapply Hu). destruct (Iwait c ch k u i thu a) as (? & ? & Hcl); [done.. |].
    split_and!; try done. intros Hne. destruct (Hcl Hne) as (m & thm & j & Hm' & ? & ?). exists m, thm, j.
    rewrite lookup_insert_ne by (symmetry; by eapply Hc). done.
  - intros c ch e e' thu thu' a a' Hch (Hq & Hl & ? & ?) (Hq' & Hl' & ? & ?).
    destruct e as [u i], e' as [u' i']. cbn in *.
    destruct (Iqueue c ch u i Hch Hq) as (? & ? & ? & ? & _). destruct (Iqueue c ch u' i' Hch Hq') as (? & ? & ? & ? & _).
    rewrite lookup_insert_ne in Hl by (symmetry; by eapply Hu). rewrite lookup_insert_ne in Hl' by (symmetry; by eapply Hu).
    by apply (Ipair c ch (u, i) (u', i') thu thu' a a').
Qed.

(** The buffer of a channel changes, as its waiting threads expect. *)
Record same_frame (ch ch' : Channel) : Prop := {
  sf_s : ch_s ch' = ch_s ch; sf_e : ch_e ch' = ch_e ch; sf_freed : ch_freed ch' = ch_freed ch;
  sf_q : ch_qentry ch' = ch_qentry ch; sf_closed : ch_closed ch' = ch_closed ch
}.

Lemma keep_buffer c ch ch' :
  C !! c = Some ch → same_frame ch ch' → buf_ok ch' →
  (∀ e th a, waiter w ch e th a → (a_op a = CHANRCV → ch_n ch' = 0) ∧ (a_op a = CHANSND → ch_n ch' = ch_s ch')) →
  inv (setchan c ch' w).
Proof.
  intros Hc [Hs He Hf Hq Hcl] Hb Hw. open_inv Hinv.
  assert (∀ x chx, <[c := ch']> C !! x = Some chx → ∃ chx0, C !! x = Some chx0 ∧ same_frame chx0 chx) as Hold.
  { intros x chx Hl. look Hl; [exists ch; by repeat split | exists chx; by repeat split]. }
  assert (∀ x chx, C !! x = Some chx → ∃ chx', <[c := ch']> C !! x = Some chx' ∧ same_frame chx chx') as Hnew.
  { intros x chx Hl. destruct (decide (x = c)) as [-> |]; [rewrite lookup_insert_eq | rewrite lookup_insert_ne by done].
    - simplify_eq. exists ch'. by repeat split. - exists chx. by repeat split. }
  constructor; cbn; try assumption.
  - intros x chx Hl. look Hl; [| by eapply Ibuf]. destruct (Ibuf _ _ Hc) as (_ & ? & ?). by rewrite Hq, Hcl.
  - intros t th Ht Hin. destruct (Ialts _ _ Ht Hin) as (l & Hl & Ha). exists l. split; [done |]. intros i a Hi Ho.
    destruct (Ha i a Hi Ho) as (x & chx & ? & Hx & ? & ?). destruct (Hnew _ _ Hx) as (chx' & ? & []). exists x, chx'.
    rewrite sf_e0, sf_q0, sf_freed0. by split_and!.
  - intros x chx t i Hl Hin. destruct (Hold _ _ Hl) as (chx0 & Hx & []). rewrite sf_q0 in Hin. by eapply Iqueue.
  - intros t th Ht Hin. specialize (Itag _ _ Ht Hin). unfold tag_inv in *. destruct (t_c th) as [| x |]; [done | | done].
    destruct Itag as [(chx & i & Hx & ?) ?]. destruct (Hnew _ _ Hx) as (chx' & ? & []). split; [| done].
    exists chx', i. split; [done |]. congruence.
  - intros m thm x j Hm Hcj. destruct (Iclose _ _ _ _ Hm Hcj) as (chx & Hx & ?). destruct (Hnew _ _ Hx) as (chx' & ? & []).
    exists chx'. split; [done |]. congruence.
  - intros x chx k t i th a Hl Hk Ht Hn Ha. destruct (Hold _ _ Hl) as (chx0 & Hx & []). rewrite sf_q0 in Hk.
    destruct (Iwait _ _ _ _ _ _ _ Hx Hk Ht Hn Ha) as (? & ? & Hcl'). look Hl.
    + simplify_eq. destruct (Hw (t, i) th a) as [? ?]; [split_and!; [by eapply list_elem_of_lookup_2 | done..] |].
      split_and!; [done | done |]. rewrite Hcl. done.
    + simplify_eq. split_and!; done.
  - intros x chx e e' th th' a a' Hl (Hqe & ? & ? & ?) (Hqe' & ? & ? & ?). destruct (Hold _ _ Hl) as (chx0 & Hx & []).
    rewrite sf_q0 in *. by eapply (Ipair x chx0 e e' th th' a a').
Qed.

(** A thread stays where it is, or goes from [Waiting] to [Woken Intred] or back. *)
Record alike (th th' : Thread) : Prop := {
  al_alts : t_alts th' = t_alts th; al_c : t_c th' = t_c th;
  al_unmet : unmet th' ↔ unmet th; al_in : in_alt th' ↔ in_alt th;
  al_meet : ∀ u v k, t_pc th' = Meeting u v k ↔ t_pc th = Meeting u v k;
  al_closing : ∀ c j, closing th' c j ↔ closing th c j
}.

Lemma alike_refl th : alike th th.
Proof. by constructor. Qed.

Lemma alike_unmet th th' : unmet th → unmet th' → t_alts th' = t_alts th → t_c th' = t_c th → alike th th'.
Proof.
  intros Hu Hu' Ha Hc. constructor; try done.
  - split; intros _; by apply unmet_in_alt.
  - intros u v k. split; intros Hm; by apply meeting_not in Hm as []; apply unmet_in_alt.
  - intros c j. split; intros Hm; by apply closing_not in Hm as []; apply unmet_in_alt.
Qed.

Lemma keep_unmet t th th' :
  T !! t = Some th → unmet th → unmet th' → t_alts th' = t_alts th → t_c th' = t_c th → inv (setthread t th' w).
Proof.
  intros Ht Hu Hu' Ha Hc. open_inv Hinv. pose proof (alike_unmet _ _ Hu Hu' Ha Hc) as Hal.
  assert (∀ u thu, <[t := th']> T !! u = Some thu → ∃ thu0, T !! u = Some thu0 ∧ alike thu0 thu) as Hold.
  { intros u thu Hl. look Hl; [eauto |]. exists thu. split; [done | apply alike_refl]. }
  assert (∀ u thu0, T !! u = Some thu0 → ∃ thu, <[t := th']> T !! u = Some thu ∧ alike thu0 thu) as Hnew.
  { intros u thu Hl. destruct (decide (u = t)) as [-> |]; [rewrite lookup_insert_eq | rewrite lookup_insert_ne by done].
    - simplify_eq. eauto. - exists thu. split; [done | apply alike_refl]. }
  constructor; cbn; try assumption.
  - intros u thu Hl Hin. destruct (Hold _ _ Hl) as (thu0 & Hl0 & []). unfold alts_inv. rewrite al_alts0.
    apply Ialts; [done | by apply al_in0].
  - intros c ch u i Hch Hq. destruct (Iqueue c ch u i Hch Hq) as (thu & a & Hl & Hin & He & ?). destruct (Hnew _ _ Hl) as (thu' & ? & []).
    exists thu', a. unfold at_entry in *. rewrite al_alts0. split_and!; try done; by apply al_in0 || naive_solver.
  - intros u thu Hl Hin. destruct (Hold _ _ Hl) as (thu0 & Hl0 & []). unfold tag_inv. rewrite al_c0.
    pose proof (Itag u thu0 Hl0 ltac:(by apply al_in0)) as Hi. unfold tag_inv in Hi. destruct (t_c thu0); [by apply al_unmet0 | | done].
    destruct Hi as [? Hmeet]. split; [done |]. intros Hun. destruct Hmeet as (m & thm & v & k & Hm & ?); [by apply al_unmet0 |].
    destruct (Hnew _ _ Hm) as (thm' & ? & []). exists m, thm', v, k. split; [done |]. by apply al_meet1.
  - intros m thm u v k Hl Hpc. destruct (Hold _ _ Hl) as (thm0 & Hl0 & []).
    destruct (Imeet m thm0 u v k Hl0) as (? & thu & c & Hthu & ? & ?); [by apply al_meet0 |]. split; [done |].
    destruct (Hnew _ _ Hthu) as (thu' & ? & []). exists thu', c. split_and!; [done | by apply al_unmet1 | congruence].
  - intros m thm m' thm' u v k v' k' Hl Hpc Hl' Hpc'. destruct (Hold _ _ Hl) as (thm0 & Hl0 & Hm).
    destruct (Hold _ _ Hl') as (thm0' & Hl0' & Hm'). apply (al_meet _ _ Hm) in Hpc. apply (al_meet _ _ Hm') in Hpc'.
    by eapply (Imeet1 m thm0 m' thm0').
  - intros m thm c j Hl Hcl. destruct (Hold _ _ Hl) as (thm0 & Hl0 & Hm). apply (al_closing _ _ Hm) in Hcl. by eapply Iclose.
  - intros m thm m' thm' c j j' Hl Hcl Hl' Hcl'. destruct (Hold _ _ Hl) as (thm0 & Hl0 & Hm).
    destruct (Hold _ _ Hl') as (thm0' & Hl0' & Hm'). apply (al_closing _ _ Hm) in Hcl. apply (al_closing _ _ Hm') in Hcl'.
    by eapply (Iclose1 m thm0 m' thm0').
  - intros c ch k u i thu a Hch Hq Hl Hcn Hai. destruct (Hold _ _ Hl) as (thu0 & Hl0 & []). rewrite al_alts0, al_c0 in *.
    destruct (Iwait c ch k u i thu0 a) as (? & ? & Hcl); [done.. |]. split_and!; try done. intros Hne.
    destruct (Hcl Hne) as (m & thm & j & Hm & Hcj & ?). destruct (Hnew _ _ Hm) as (thm' & ? & Hal'). exists m, thm', j.
    split_and!; [done | by apply (al_closing _ _ Hal') | done].
  - intros c ch e e' thu thu' a a' Hch (Hq & Hl & Ha1 & Hc1) (Hq' & Hl' & Ha2 & Hc2).
    destruct (Hold _ _ Hl) as (thu0 & Hl0 & Hm). destruct (Hold _ _ Hl') as (thu0' & Hl0' & Hm').
    rewrite (al_alts _ _ Hm) in Ha1. rewrite (al_c _ _ Hm) in Hc1. rewrite (al_alts _ _ Hm') in Ha2. rewrite (al_c _ _ Hm') in Hc2.
    by apply (Ipair c ch e e' thu0 thu0' a a').
Qed.

(** A thread [t], from outside or from the loop of chanclose, chooses a waiting entry and
    goes to meet its thread. *)
Lemma keep_choose t th th' c ch u i thu b v k :
  T !! t = Some th → ¬ in_alt th → (∀ x v k, t_pc th ≠ Meeting x v k) → t_pc th' = Meeting u v k → v ≠ Intred →
  C !! c = Some ch → waiter w ch (u, i) thu b →
  (∀ x j', closing th' x j' → ∃ j, closing th x j) →
  (∀ x j, closing th x j → ∃ j', closing th' x j' ∧
     ∀ chx p y m thy a, C !! x = Some chx → ch_qentry chx !! p = Some (Some (y, m)) → T !! y = Some thy → y ≠ u →
       t_c thy = Cnil → t_alts thy !! m = Some a → (j ≤ p)%nat → (j' ≤ p)%nat) →
  inv (setthread t th' (choose (u, i) thu c w)).
Proof.
  intros Ht Hni Hnm Hpc Hv Hc (Hq & Hu & Hb & Hn) Hcl1 Hcl2. open_inv Hinv. cbn in Hu, Hb.
  destruct (Iqueue c ch u i Hc Hq) as (thu1 & _ & Hu1 & Hinu & _). rewrite Hu in Hu1. injection Hu1 as <-.
  assert (t ≠ u) as Htu by (intros ->; simplify_eq).
  assert (¬ in_alt th') as Hni' by (by eapply meeting_not).
  assert (unmet thu) as Hunmet by (specialize (Itag _ _ Hu Hinu); unfold tag_inv in Itag; by rewrite Hn in Itag).
  set (thu' := thu <| t_c := Cchan c |>). set (T' := <[t := th']> (<[u := thu']> T)).
  assert (∀ x y, T' !! x = Some y → x = t ∧ y = th' ∨ x = u ∧ y = thu' ∨ x ≠ t ∧ x ≠ u ∧ T !! x = Some y) as Hold.
  { intros x y Hl. unfold T' in Hl. apply lookup_insert_Some in Hl as [[<- <-] | [? Hl]]; [by left |].
    apply lookup_insert_Some in Hl as [[<- <-] | [? Hl]]; auto. }
  assert (T' !! t = Some th') as Hnt by apply lookup_insert_eq.
  assert (T' !! u = Some thu') as Hnu by (unfold T'; rewrite lookup_insert_ne by done; apply lookup_insert_eq).
  assert (∀ x y, x ≠ t → x ≠ u → T !! x = Some y → T' !! x = Some y) as Hnew by (intros; unfold T'; by rewrite !lookup_insert_ne by done).
  constructor; cbn; fold thu' T'; try assumption.
  - intros x y Hl Hin. destruct (Hold _ _ Hl) as [[-> ->] | [[-> ->] | (? & ? & ?)]]; [done | by apply (Ialts u thu) | by apply Ialts].
  - intros x chx y m Hl Hin. destruct (Iqueue x chx y m Hl Hin) as (thy & a & Hy & Hiny & He & ?).
    destruct (decide (y = u)) as [-> | Hne]; [simplify_eq; by exists thu', a |]. exists thy, a.
    rewrite (Hnew y thy); [done | | done | done]. intros ->. congruence.
  - intros x y Hl Hin. destruct (Hold _ _ Hl) as [[-> ->] | [[-> ->] | (? & ? & Hx)]]; [done | |].
    + split; [by exists ch, i |]. intros _. by exists t, th', v, k.
    + specialize (Itag _ _ Hx Hin). unfold tag_inv in *. destruct (t_c y); [done | | done]. destruct Itag as [? Hm]. split; [done |].
      intros Hun. destruct (Hm Hun) as (m & thm & v' & k' & Hm' & Hpm). exists m, thm, v', k'. split; [| done].
      apply Hnew; [congruence | | done]. intros ->. simplify_eq. by eapply meeting_not.
  - intros m thm x v' k' Hl Hm. destruct (Hold _ _ Hl) as [[-> ->] | [[-> ->] | (? & ? & Hx)]].
    + rewrite Hpc in Hm. injection Hm as <- <- <-. split; [done |]. by exists thu', c.
    + by apply (meeting_not thu) in Hm.
    + destruct (Imeet m thm x v' k' Hx Hm) as (? & thx & c' & Hthx & Hunx & Hcx). split; [done |]. exists thx, c'.
      split; [| done]. apply Hnew; [| congruence | done]. intros ->. simplify_eq. by apply unmet_in_alt in Hunx.
  - intros m thm m' thm' x v1 k1 v2 k2 Hl Hm Hl' Hm'.
    assert (∀ m thm v k, T !! m = Some thm → t_pc thm = Meeting u v k → False) as Hno.
    { intros m0 thm0 v0 k0 H0 H1. destruct (Imeet m0 thm0 u v0 k0 H0 H1) as (_ & ? & ? & ? & _ & ?). simplify_eq. congruence. }
    destruct (Hold _ _ Hl) as [[-> ->] | [[-> ->] | (? & ? & Hx)]]; [| by apply (meeting_not thu) in Hm |];
      (destruct (Hold _ _ Hl') as [[-> ->] | [[-> ->] | (? & ? & Hx')]]; [| by apply (meeting_not thu) in Hm' |]).
    + done.
    + rewrite Hpc in Hm. injection Hm as <- <- <-. by destruct (Hno _ _ _ _ Hx' Hm').
    + rewrite Hpc in Hm'. injection Hm' as <- <- <-. by destruct (Hno _ _ _ _ Hx Hm).
    + by eapply (Imeet1 m thm m' thm').
  - intros m thm x j Hl Hcl. destruct (Hold _ _ Hl) as [[-> ->] | [[-> ->] | (? & ? & Hx)]];
      [| by apply (closing_not thu) in Hcl | by eapply Iclose]. destruct (Hcl1 x j Hcl) as [j' ?]. by eapply (Iclose t th).
  - intros m thm m' thm' x j j' Hl Hcl Hl' Hcl'.
    assert (∃ thm0 j0, T !! m = Some thm0 ∧ closing thm0 x j0) as (thm0 & j0 & ? & ?).
    { destruct (Hold _ _ Hl) as [[-> ->] | [[-> ->] | (? & ? & Hx)]]; [| by apply (closing_not thu) in Hcl | by eauto].
      destruct (Hcl1 x j Hcl) as [j0 ?]. eauto. }
    assert (∃ thm0 j0, T !! m' = Some thm0 ∧ closing thm0 x j0) as (thm1 & j1 & ? & ?).
    { destruct (Hold _ _ Hl') as [[-> ->] | [[-> ->] | (? & ? & Hx)]]; [| by apply (closing_not thu) in Hcl' | by eauto].
      destruct (Hcl1 x j' Hcl') as [j1 ?]. eauto. }
    by eapply (Iclose1 m thm0 m' thm1).
  - intros x chx p y m thy a Hx Hp Hl Hnil Ha.
    destruct (Hold _ _ Hl) as [[-> ->] | [[-> ->] | (? & ? & Hy)]]; [| done |].
    + destruct (Iqueue x chx t m Hx) as (? & ? & ? & ? & _); [by eapply list_elem_of_lookup_2 | congruence].
    + destruct (Iwait x chx p y m thy a Hx Hp Hy Hnil Ha) as (? & ? & Hw). split_and!; [done | done |].
      intros Hne. destruct (Hw Hne) as (z & thz & j & Hz & Hcz & Hj). destruct (decide (z = t)) as [-> | Hzt].
      * simplify_eq. destruct (Hcl2 x j Hcz) as (j' & ? & Hj'). exists t, th', j'. split_and!; [done.. |]. by eapply Hj'.
      * exists z, thz, j. split_and!; [| done | done]. apply Hnew; [done | | done]. intros ->. simplify_eq. by eapply closing_not.
  - intros x chx [y m] [y' m'] thy thy' a a' Hx (Hqe & Hl & Ha & Hn1) (Hqe' & Hl' & Ha' & Hn1'). cbn in *.
    destruct (Hold _ _ Hl) as [[-> ->] | [[-> ->] | (? & ? & Hy)]]; [| done |].
    { destruct (Iqueue x chx t m Hx) as (? & ? & ? & ? & _); [done | congruence]. }
    destruct (Hold _ _ Hl') as [[-> ->] | [[-> ->] | (? & ? & Hy')]]; [| done |].
    { destruct (Iqueue x chx t m' Hx) as (? & ? & ? & ? & _); [done | congruence]. }
    by apply (Ipair x chx (y, m) (y', m') thy thy' a a').
Qed.

(** The thread [m] meets the thread [u] it chose: both go on. *)
Lemma keep_wake m u thm thu thm' thu' v k :
  T !! m = Some thm → t_pc thm = Meeting u v k → T !! u = Some thu →
  thm' = thm <| t_pc := match k with KAlt i => Idle i | KClose c i => Closing c i end |> →
  thu' = thu <| t_pc := Woken v |> → inv (setthread m thm' (setthread u thu' w)).
Proof.
  intros Hm Hpc Hu -> ->. open_inv Hinv. destruct (Imeet m thm u v k Hm Hpc) as (Hv & thu1 & c & Hu1 & Hun & Htc). rewrite Hu in Hu1. injection Hu1 as <-.
  assert (m ≠ u) as Hmu. { intros ->. simplify_eq. eapply meeting_not; [done | by apply unmet_in_alt]. }
  set (thm' := thm <| t_pc := _ |>). set (thu' := thu <| t_pc := Woken v |>). set (T' := <[m := thm']> (<[u := thu']> T)).
  assert (¬ in_alt thm') as Hni by (unfold thm', in_alt; destruct k; cbn; naive_solver).
  assert (∀ x v k, t_pc thm' ≠ Meeting x v k) as Hnm by (unfold thm'; destruct k; cbn; done).
  assert (∀ x j, closing thm' x j ↔ closing thm x j) as Hcl.
  { intros x j. unfold closing, thm'. rewrite Hpc. destruct k as [|y n]; cbn; [naive_solver |]. split.
    - intros [[= -> ->] | (? & ? & ?)]; [eauto | done].
    - intros [? | (? & ? & ?)]; [done |]. simplify_eq. by left. }
  assert (in_alt thu') as Hin' by (right; by exists v).
  assert (¬ unmet thu') as Hnu' by (unfold unmet, thu'; cbn; naive_solver).
  assert (∀ x y, T' !! x = Some y → x = m ∧ y = thm' ∨ x = u ∧ y = thu' ∨ x ≠ m ∧ x ≠ u ∧ T !! x = Some y) as Hold.
  { intros x y Hl. unfold T' in Hl. apply lookup_insert_Some in Hl as [[<- <-] | [? Hl]]; [by left |].
    apply lookup_insert_Some in Hl as [[<- <-] | [? Hl]]; auto. }
  assert (T' !! m = Some thm') as Hnm' by apply lookup_insert_eq.
  assert (T' !! u = Some thu') as Hnu by (unfold T'; rewrite lookup_insert_ne by done; apply lookup_insert_eq).
  assert (∀ x y, x ≠ m → x ≠ u → T !! x = Some y → T' !! x = Some y) as Hnew by (intros; unfold T'; by rewrite !lookup_insert_ne by done).
  pose proof (unmet_in_alt _ Hun) as Hinu.
  constructor; cbn; fold thm' thu' T'; try assumption.
  - intros x y Hl Hin. destruct (Hold _ _ Hl) as [[-> ->] | [[-> ->] | (? & ? & ?)]]; [done | by apply (Ialts u thu) | by apply Ialts].
  - intros x chx y i Hl Hin. destruct (Iqueue x chx y i Hl Hin) as (thy & a & Hy & Hiny & He & ?).
    destruct (decide (y = u)) as [-> | Hne]; [simplify_eq; by exists thu', a |]. exists thy, a.
    rewrite (Hnew y thy); [done | | done | done]. intros ->. simplify_eq. by eapply meeting_not.
  - intros x y Hl Hin. destruct (Hold _ _ Hl) as [[-> ->] | [[-> ->] | (? & ? & Hx)]]; [done | |].
    + specialize (Itag _ _ Hu Hinu). unfold tag_inv in *. cbn. rewrite Htc in *. by destruct Itag.
    + specialize (Itag _ _ Hx Hin). unfold tag_inv in *. destruct (t_c y); [done | | done]. destruct Itag as [? Hmeet]. split; [done |].
      intros Hunx. destruct (Hmeet Hunx) as (n & thn & v' & k' & Hn & Hpn). exists n, thn, v', k'. split; [| done].
      apply Hnew; [| | done].
      * intros ->. simplify_eq. congruence.
      * intros ->. simplify_eq. by eapply meeting_not.
  - intros n thn x v' k' Hl Hpn. destruct (Hold _ _ Hl) as [[-> ->] | [[-> ->] | (Hnm1 & ? & Hx)]].
    + by apply Hnm in Hpn.
    + by apply meeting_not in Hpn.
    + destruct (Imeet n thn x v' k' Hx Hpn) as (? & thx & c' & Hthx & Hunx & Hcx). split; [done |]. exists thx, c'.
      split; [| done]. apply Hnew; [| | done].
      * intros ->. rewrite Hm in Hthx. injection Hthx as <-. eapply meeting_not; [exact Hpc | by apply unmet_in_alt].
      * intros ->. apply Hnm1. by eapply (Imeet1 n thn m thm).
  - intros n thn n' thn' x v1 k1 v2 k2 Hl Hp Hl' Hp'.
    destruct (Hold _ _ Hl) as [[-> ->] | [[-> ->] | (? & ? & Hx)]]; [by apply Hnm in Hp | by apply meeting_not in Hp |].
    destruct (Hold _ _ Hl') as [[-> ->] | [[-> ->] | (? & ? & Hx')]]; [by apply Hnm in Hp' | by apply meeting_not in Hp' |].
    by eapply (Imeet1 n thn n' thn').
  - intros n thn x j Hl Hcj. destruct (Hold _ _ Hl) as [[-> ->] | [[-> ->] | (? & ? & Hx)]];
      [apply Hcl in Hcj; by eapply (Iclose m thm) | by apply closing_not in Hcj | by eapply Iclose].
  - intros n thn n' thn' x j j' Hl Hcj Hl' Hcj'.
    assert (∃ thn0, T !! n = Some thn0 ∧ closing thn0 x j) as (thn0 & ? & ?).
    { destruct (Hold _ _ Hl) as [[-> ->] | [[-> ->] | (? & ? & Hx)]]; [apply Hcl in Hcj; eauto | by apply closing_not in Hcj | eauto]. }
    assert (∃ thn0, T !! n' = Some thn0 ∧ closing thn0 x j') as (thn1 & ? & ?).
    { destruct (Hold _ _ Hl') as [[-> ->] | [[-> ->] | (? & ? & Hx)]]; [apply Hcl in Hcj'; eauto | by apply closing_not in Hcj' | eauto]. }
    by eapply (Iclose1 n thn0 n' thn1).
  - intros x chx p y i thy a Hx Hp Hl Hnil Ha.
    destruct (Hold _ _ Hl) as [[-> ->] | [[-> ->] | (? & ? & Hy)]].
    + destruct (Iqueue x chx m i Hx) as (? & ? & ? & Hinx & _); [by eapply list_elem_of_lookup_2 |]. simplify_eq. by eapply meeting_not in Hinx.
    + cbn in Hnil. congruence.
    + destruct (Iwait x chx p y i thy a Hx Hp Hy Hnil Ha) as (? & ? & Hw). split_and!; [done | done |].
      intros Hne. destruct (Hw Hne) as (z & thz & j & Hz & Hcz & Hj). destruct (decide (z = m)) as [-> | Hzt].
      * simplify_eq. exists m, thm', j. split_and!; [done | by apply Hcl | done].
      * exists z, thz, j. split_and!; [| done | done]. apply Hnew; [done | | done]. intros ->. simplify_eq. by eapply closing_not.
  - intros x chx [y i] [y' i'] thy thy' a a' Hx (Hqe & Hl & Ha & Hn1) (Hqe' & Hl' & Ha' & Hn1'). cbn in *.
    destruct (Hold _ _ Hl) as [[-> ->] | [[-> ->] | (? & ? & Hy)]].
    { destruct (Iqueue x chx m i Hx) as (? & ? & ? & Hinx & _); [done |]. simplify_eq. by eapply meeting_not in Hinx. }
    { cbn in Hn1. congruence. }
    destruct (Hold _ _ Hl') as [[-> ->] | [[-> ->] | (? & ? & Hy')]].
    { destruct (Iqueue x chx m i' Hx) as (? & ? & ? & Hinx & _); [done |]. simplify_eq. by eapply meeting_not in Hinx. }
    { cbn in Hn1'. congruence. }
    by apply (Ipair x chx (y, i) (y', i') thy thy' a a').
Qed.
(** A channel starts or ends being closed, as the thread [t] enters or leaves chanclose. *)
Lemma keep_flags t th th' c ch ch' :
  T !! t = Some th → ¬ in_alt th → ¬ in_alt th' →
  (∀ x v k, t_pc th ≠ Meeting x v k) → (∀ x v k, t_pc th' ≠ Meeting x v k) →
  C !! c = Some ch → ch' = ch <| ch_closed := ch_closed ch' |> → 0 ≤ ch_closed ch' ≤ 2 →
  (∀ x j, closing th x j → x = c) → (∀ x j, closing th' x j → x = c ∧ ch_closed ch' = 1) →
  (∀ m thm j, m ≠ t → T !! m = Some thm → ¬ closing thm c j) →
  (∀ p y i thy a, ch_qentry ch !! p = Some (Some (y, i)) → T !! y = Some thy → t_c thy = Cnil → t_alts thy !! i = Some a →
     ch_closed ch' ≠ 0 → ∃ j, closing th' c j ∧ (j ≤ p)%nat) →
  inv (setthread t th' (setchan c ch' w)).
Proof.
  intros Ht Hni Hni' Hnm Hnm' Hc Hch' Hc02 H3 H4 H5 H6. open_inv Hinv.
  assert (∀ u thu, T !! u = Some thu → in_alt thu → u ≠ t) as Hu by (intros u thu Hu Hin ->; congruence).
  assert (∀ u thu x v k, T !! u = Some thu → t_pc thu = Meeting x v k → u ≠ t) as Hm.
  { intros u thu x v k Hu' Hin ->. simplify_eq. by apply Hnm in Hin. }
  assert (∀ x chx, <[c := ch']> C !! x = Some chx → ∃ chx0, C !! x = Some chx0 ∧ chx = chx0 <| ch_closed := ch_closed chx |> ∧
    (x ≠ c → chx = chx0)) as Hold.
  { intros x chx Hl. look Hl; [exists ch; by split_and! | exists chx; split_and!; [done | by destruct chx | done]]. }
  assert (∀ x chx, C !! x = Some chx → ∃ chx', <[c := ch']> C !! x = Some chx' ∧ chx' = chx <| ch_closed := ch_closed chx' |> ∧
    (x ≠ c → chx' = chx)) as Hnew.
  { intros x chx Hl. destruct (decide (x = c)) as [-> |]; [rewrite lookup_insert_eq | rewrite lookup_insert_ne by done].
    - simplify_eq. exists ch'. by split_and!. - exists chx. split_and!; [done | by destruct chx | done]. }
  constructor; cbn; try assumption.
  - intros x chx Hl. look Hl; [| by eapply Ibuf]. destruct (Ibuf _ _ Hc) as ([] & ? & ?).
    split; [rewrite Hch'; by constructor | split; [by rewrite Hch' | done]].
  - intros u thu Hl Hin. look Hl; [done |]. destruct (Ialts _ _ Hl Hin) as (l & He & Ha). exists l. split; [done |]. intros i a Hi Ho.
    destruct (Ha i a Hi Ho) as (x & chx & ? & Hx & ? & ?). destruct (Hnew _ _ Hx) as (chx' & ? & Hq & _). exists x, chx'.
    split_and!; [done | done | by rewrite Hq | by rewrite Hq].
  - intros x chx u i Hl Hin. destruct (Hold _ _ Hl) as (chx0 & Hx & Hq & _). rewrite Hq in Hin.
    destruct (Iqueue x chx0 u i Hx Hin) as (thu & a & Hl' & Hinu & ?). exists thu, a.
    rewrite lookup_insert_ne by (symmetry; by eapply Hu). done.
  - intros u thu Hl Hin. look Hl; [done |]. specialize (Itag _ _ Hl Hin). unfold tag_inv in *. destruct (t_c thu) as [| x |]; [done | | done].
    destruct Itag as [(chx & i & Hx & ?) Hmeet]. split.
    + destruct (Hnew _ _ Hx) as (chx' & ? & Hq & _). exists chx', i. split; [done |]. by rewrite Hq.
    + intros Hun. destruct (Hmeet Hun) as (m & thm & v & k & Hm' & ?). exists m, thm, v, k. cbn.
      rewrite lookup_insert_ne by (symmetry; by eapply Hm). done.
  - intros m thm u v k Hl Hpc. look Hl; [by apply Hnm' in Hpc |].
    destruct (Imeet _ _ _ _ _ Hl Hpc) as (? & thu & x & Hthu & Hun & ?). split; [done |]. exists thu, x.
    rewrite lookup_insert_ne by (symmetry; eapply Hu; [done | by apply unmet_in_alt]). done.
  - intros m thm m' thm' u v k v' k' Hl Hpc Hl' Hpc'. look Hl; [by apply Hnm' in Hpc |]. look Hl'; [by apply Hnm' in Hpc' |].
    by eapply Imeet1.
  - intros m thm x j Hl Hcl. look Hl; [destruct (H4 x j Hcl) as [-> ?]; exists ch'; by rewrite lookup_insert_eq |].
    destruct (Iclose _ _ _ _ Hl Hcl) as (chx & Hx & ?). destruct (decide (x = c)) as [-> |]; [by apply (H5 m thm j) in Hcl |].
    exists chx. by rewrite lookup_insert_ne by done.
  - intros m thm m' thm' x j j' Hl Hcl Hl' Hcl'. look Hl.
    + look Hl'; [done |]. destruct (H4 x j Hcl) as [-> _]. by apply (H5 m' thm' j') in Hcl'.
    + look Hl'; [destruct (H4 x j' Hcl') as [-> _]; by apply (H5 m thm j) in Hcl |]. by eapply Iclose1.
  - intros x chx p u i thu a Hl Hq Htu Hn Ha. destruct (Hold _ _ Hl) as (chx0 & Hx & Hchx & Hne).
    assert (ch_qentry chx0 !! p = Some (Some (u, i))) as Hq0 by (by rewrite Hchx in Hq).
    destruct (Iqueue x chx0 u i Hx) as (thu' & a' & Hl' & Hin & _); [by eapply list_elem_of_lookup_2 |].
    rewrite lookup_insert_ne in Htu by (symmetry; by eapply Hu).
    destruct (Iwait x chx0 p u i thu a) as (? & ? & Hcl); [done.. |]. rewrite Hchx at 1 2 3. split_and!; [done | done |].
    intros Hcne. destruct (decide (x = c)) as [-> | Hxc].
    + rewrite lookup_insert_eq in Hl. simplify_eq. destruct (H6 p u i thu a) as (j & ? & ?); [done.. |]. exists t, th', j. by rewrite lookup_insert_eq.
    + rewrite (Hne Hxc) in Hcne. destruct (Hcl Hcne) as (m & thm & j & Hm' & Hcj & ?). exists m, thm, j.
      rewrite lookup_insert_ne; [done |]. intros <-. simplify_eq. by apply H3 in Hcj.
  - intros x chx e e' thu thu' a a' Hl (Hq & Htu & ? & ?) (Hq' & Htu' & ? & ?). destruct (Hold _ _ Hl) as (chx0 & Hx & Hchx & _).
    rewrite Hchx in Hq, Hq'. destruct e as [u i], e' as [u' i']. cbn in *.
    destruct (Iqueue x chx0 u i Hx Hq) as (? & ? & ? & ? & _). destruct (Iqueue x chx0 u' i' Hx Hq') as (? & ? & ? & ? & _).
    rewrite lookup_insert_ne in Htu by (symmetry; by eapply Hu). rewrite lookup_insert_ne in Htu' by (symmetry; by eapply Hu).
    by apply (Ipair x chx0 (u, i) (u', i') thu thu' a a').
Qed.
(** All entries for [c] of waiting alts are enqueued. *)
Definition all_queued (c : chan) (ch : Channel) : Prop :=
  ∀ t th i a, T !! t = Some th → in_alt th → at_entry th i a → a_op a ≠ CHANNOP → a_c a = Some c → Some (t, i) ∈ ch_qentry ch.

Lemma keep_freed c ch :
  C !! c = Some ch → all_queued c ch → inv (setchan c (ch <| ch_freed := true |>) w).
Proof.
  intros Hc Hall. open_inv Hinv. set (ch' := ch <| ch_freed := true |>).
  assert (∀ x chx, <[c := ch']> C !! x = Some chx → ∃ chx0, C !! x = Some chx0 ∧ chx = chx0 <| ch_freed := ch_freed chx |>) as Hold.
  { intros x chx Hl. look Hl; [by exists ch | exists chx; split; [done | by destruct chx]]. }
  assert (∀ x chx, C !! x = Some chx → ∃ chx', <[c := ch']> C !! x = Some chx' ∧ chx' = chx <| ch_freed := ch_freed chx' |> ∧ (x ≠ c → chx' = chx)) as Hnew.
  { intros x chx Hl. destruct (decide (x = c)) as [-> |]; [rewrite lookup_insert_eq | rewrite lookup_insert_ne by done].
    - simplify_eq. exists ch'. by split_and!. - exists chx. split_and!; [done | by destruct chx | done]. }
  constructor; cbn; fold ch'; try assumption.
  - intros x chx Hl. destruct (Hold _ _ Hl) as (chx0 & Hx & ->). destruct (Ibuf _ _ Hx) as ([] & ? & ?). split; [by constructor | done].
  - intros t th Ht Hin. destruct (Ialts _ _ Ht Hin) as (l & Hl & Ha). exists l. split; [done |]. intros i a Hi Ho.
    destruct (Ha i a Hi Ho) as (x & chx & ? & Hx & ? & ?). destruct (Hnew _ _ Hx) as (chx' & ? & Hq & Hne). exists x, chx'.
    split_and!; [done | done | by rewrite Hq |]. intros Hfr. rewrite Hq. change (Some (t, i) ∈ ch_qentry chx).
    destruct (decide (x = c)) as [-> | Hxc].
    + simplify_eq. apply (Hall t th i a); try done. by exists l, CHANEND.
    + apply H1. by rewrite <- (Hne Hxc).
  - intros x chx t i Hl Hin. destruct (Hold _ _ Hl) as (chx0 & Hx & Hq). rewrite Hq in Hin. by eapply Iqueue.
  - intros t th Ht Hin. specialize (Itag _ _ Ht Hin). unfold tag_inv in *. destruct (t_c th) as [| x |]; [done | | done].
    destruct Itag as [(chx & i & Hx & ?) ?]. destruct (Hnew _ _ Hx) as (chx' & ? & Hq & _). split; [| done].
    exists chx', i. split; [done |]. by rewrite Hq.
  - intros m thm x j Hm Hcj. destruct (Iclose _ _ _ _ Hm Hcj) as (chx & Hx & ?). destruct (Hnew _ _ Hx) as (chx' & ? & Hq & _).
    exists chx'. split; [done |]. by rewrite Hq.
  - intros x chx k t i th a Hl Hk Ht Hn Ha. destruct (Hold _ _ Hl) as (chx0 & Hx & Hq). rewrite Hq in *.
    by eapply (Iwait x chx0 k t i).
  - intros x chx e e' th th' a a' Hl (Hqe & Hw) (Hqe' & Hw'). destruct (Hold _ _ Hl) as (chx0 & Hx & Hq).
    rewrite Hq in *. by eapply (Ipair x chx0 e e' th th' a a').
Qed.

Lemma keep_gone c ch :
  C !! c = Some ch → all_queued c ch → somes (ch_qentry ch) = [] → ch_closed ch ≠ 1 →
  inv (mkWorld (delete c C) M T).
Proof.
  intros Hc Hall Hs Hcl. open_inv Hinv.
  assert (∀ e, Some e ∉ ch_qentry ch) as Hno by (intros e He; apply elem_somes in He; rewrite Hs in He; by apply list.elem_of_nil in He).
  assert (∀ x chx, delete c C !! x = Some chx → x ≠ c ∧ C !! x = Some chx) as Hold.
  { intros x chx Hl. apply lookup_delete_Some in Hl as [? ?]. auto. }
  assert (∀ x chx, x ≠ c → C !! x = Some chx → delete c C !! x = Some chx) as Hnew by (intros; by rewrite lookup_delete_ne).
  constructor; cbn; try assumption.
  - intros x chx Hl. destruct (Hold _ _ Hl). by eapply Ibuf.
  - intros t th Ht Hin. destruct (Ialts _ _ Ht Hin) as (l & Hl & Ha). exists l. split; [done |]. intros i a Hi Ho.
    destruct (Ha i a Hi Ho) as (x & chx & ? & Hx & ? & ?). exists x, chx. split_and!; [done | | done..]. apply Hnew; [| done].
    intros ->. apply (Hno (t, i)), (Hall t th i a); try done. by exists l, CHANEND.
  - intros x chx t i Hl Hin. destruct (Hold _ _ Hl). by eapply Iqueue.
  - intros t th Ht Hin. specialize (Itag _ _ Ht Hin). unfold tag_inv in *. destruct (t_c th) as [| x |]; [done | | done].
    destruct Itag as [(chx & i & Hx & Hi) ?]. split; [| done]. exists chx, i. split; [| done]. apply Hnew; [| done].
    intros ->. simplify_eq. by apply (Hno (t, i)).
  - intros m thm x j Hm Hcj. destruct (Iclose _ _ _ _ Hm Hcj) as (chx & Hx & ?). exists chx. split; [| done]. apply Hnew; [| done].
    intros ->. congruence.
  - intros x chx k t i th a Hl. destruct (Hold _ _ Hl). by eapply Iwait.
  - intros x chx e e' th th' a a' Hl. destruct (Hold _ _ Hl) as [_ Hx]. by apply (Ipair x chx e e' th th' a a').
Qed.

Lemma keep_create c elemsize elemcnt :
  C !! c = None → 0 ≤ elemcnt < 2 ^ 31 → 0 < elemsize → inv (setchan c (newchannel elemsize elemcnt) w).
Proof.
  intros Hc Hn He. open_inv Hinv. set (ch := newchannel elemsize elemcnt).
  assert (∀ x chx, C !! x = Some chx → <[c := ch]> C !! x = Some chx) as Hnew.
  { intros x chx Hl. rewrite lookup_insert_ne; [done |]. intros ->. congruence. }
  constructor; cbn; fold ch; try assumption.
  - intros x chx Hl. look Hl; [| by eapply Ibuf]. split; [| split; [constructor | cbn; lia]].
    constructor; cbn; [done | lia | ranges; lia | done | rewrite length_replicate; lia |].
    apply Forall_replicate. rewrite length_replicate. lia.
  - intros t th Ht Hin. destruct (Ialts _ _ Ht Hin) as (l & Hl & Ha). exists l. split; [done |]. intros i a Hi Ho.
    destruct (Ha i a Hi Ho) as (x & chx & ? & Hx & ? & ?). exists x, chx. auto.
  - intros x chx t i Hl Hin. look Hl; [by apply list.elem_of_nil in Hin |]. by eapply Iqueue.
  - intros t th Ht Hin. specialize (Itag _ _ Ht Hin). unfold tag_inv in *. destruct (t_c th) as [| x |]; [done | | done].
    destruct Itag as [(chx & i & Hx & Hi) ?]. split; [| done]. exists chx, i. auto.
  - intros m thm x j Hm Hcj. destruct (Iclose _ _ _ _ Hm Hcj) as (chx & Hx & ?). exists chx. auto.
  - intros x chx k t i th a Hl Hq. look Hl; [done |]. by eapply Iwait.
  - intros x chx e e' th th' a a' Hl Hq. look Hl; [destruct Hq as [Hq _]; by apply list.elem_of_nil in Hq |]. by apply (Ipair x chx e e' th th' a a').
Qed.
(** The idle thread [t] has enqueued the entries of its array [l] and waits: none of them
    could proceed. *)
Lemma wants_stuck c ch xa :
  C !! c = Some ch → a_op xa = CHANSND ∨ a_op xa = CHANRCV → ¬ can_proceed w xa → wants c ch xa →
  ch_closed ch = 0 ∧ (a_op xa = CHANRCV → ch_n ch = 0) ∧ (a_op xa = CHANSND → ch_n ch = ch_s ch) ∧
  ∀ e, Some e ∈ ch_qentry ch → ¬ isready w (otherop (a_op xa)) e.
Proof.
  intros Hc Hop Hno (Hnop & Hac & Hopen). destruct (iv_buf _ Hinv _ _ Hc) as ([_ Hn _ _ _ _] & _).
  assert (¬ proceeds w ch (a_op xa)) as Hnp by (intros Hp; apply Hno; split; [done |]; eauto 8).
  assert (room ch (a_op xa) = false) as Hroom by (destruct (room ch (a_op xa)) eqn:Hr; [destruct Hnp; by right | done]).
  unfold room in Hroom. apply orb_false_iff in Hroom as [Hr1 Hr2].
  assert (a_op xa = CHANRCV → ch_n ch = 0) as H1.
  { intros Ho. rewrite Ho in Hr2. cbn in Hr2. apply bool_decide_eq_false in Hr2. lia. }
  split_and!; [| exact H1 | |].
  - unfold isopenfor in Hopen. apply orb_true_iff in Hopen as [?%bool_decide_eq_true | Ho]; [done |].
    apply andb_true_iff in Ho as [Ho%bool_decide_eq_true Hp%bool_decide_eq_true]. specialize (H1 Ho). lia.
  - intros Ho. rewrite Ho in Hr1. cbn in Hr1. apply bool_decide_eq_false in Hr1. lia.
  - intros e He Hr. apply Hnp. left. eauto.
Qed.

Lemma not_queued t th : T !! t = Some th → ¬ in_alt th → ∀ c ch i, C !! c = Some ch → Some (t, i) ∉ ch_qentry ch.
Proof. intros Ht Hn c ch i Hc Hq. destruct (iv_queue _ Hinv c ch t i Hc Hq) as (th' & ? & ? & ? & _). congruence. Qed.

Lemma keep_wait t th th' l C' :
  T !! t = Some th → idle th → t_pc th' = Waiting → t_c th' = Cnil → entries (t_alts th') = Ok (l, CHANEND) →
  Forall (λ xa, a_op xa ≠ CHANNOP → is_Some (a_c xa) ∧ ¬ can_proceed w xa) l → Forall (alt_ok w) l →
  (∀ c, match C !! c, C' !! c with Some ch, Some ch' => more t l 0 c ch ch' | None, None => True | _, _ => False end) →
  inv (mkWorld C' M (<[t := th']> T)).
Proof.
  intros Ht Hid Hpc Htc He Hno Hok Hmore. destruct (idle_not _ Hid) as (Hn1 & Hn2 & Hn3). open_inv Hinv.
  pose proof (not_queued t th Ht Hn1) as Hnq.
  assert (∀ u thu, T !! u = Some thu → in_alt thu → u ≠ t) as Hu by (intros u thu Hu Hin ->; congruence).
  assert (∀ u thu c j, T !! u = Some thu → closing thu c j → u ≠ t) as Hcl by (intros u thu c j Hu' Hin ->; simplify_eq; by apply Hn3 in Hin).
  assert (∀ u thu x v k, T !! u = Some thu → t_pc thu = Meeting x v k → u ≠ t) as Hm by (intros u thu x v k Hu' Hin ->; simplify_eq; by apply Hn2 in Hin).
  assert (in_alt th') as Hin' by by left.
  assert (∀ u v k, t_pc th' ≠ Meeting u v k) as Hnm' by (rewrite Hpc; done).
  assert (∀ x j, ¬ closing th' x j) as Hncl by (intros x j H; by apply closing_not in H).
  assert (∀ x chx, C' !! x = Some chx → ∃ chx0, C !! x = Some chx0 ∧ more t l 0 x chx0 chx) as Hold.
  { intros x chx Hl. specialize (Hmore x). rewrite Hl in Hmore. destruct (C !! x); [eauto | done]. }
  assert (∀ x chx, C !! x = Some chx → ∃ chx', C' !! x = Some chx' ∧ more t l 0 x chx chx') as Hnew.
  { intros x chx Hl. specialize (Hmore x). rewrite Hl in Hmore. destruct (C' !! x); [eauto | done]. }
  assert (∀ i xa x chx, l !! i = Some xa → C !! x = Some chx → wants x chx xa →
    t_alts th' !! i = Some xa ∧ ch_closed chx = 0 ∧ (a_op xa = CHANRCV → ch_n chx = 0) ∧ (a_op xa = CHANSND → ch_n chx = ch_s chx) ∧
    ∀ e, Some e ∈ ch_qentry chx → ¬ isready w (otherop (a_op xa)) e) as Hstuck.
  { intros i xa x chx Hi Hx Hw. destruct (entries_lookup _ _ _ _ _ He Hi) as (? & ? & ?). split; [done |].
    apply (wants_stuck x); [done | destruct Hw; destruct (a_op xa); naive_solver | | done].
    destruct Hw as [Hw _]. by apply (Forall_lookup_1 _ _ _ _ Hno Hi). }
  constructor; cbn.
  - intros x chx Hl. destruct (Hold _ _ Hl) as (chx0 & Hx & [Hq _ Hnd _]). destruct (Ibuf _ _ Hx) as ([] & Hd & ?).
    rewrite Hq at 1. split; [by constructor |]. split; [| by rewrite Hq]. apply Hnd; [done |]. intros j Hj. by destruct (Hnq _ _ _ Hx Hj).
  - intros u thu Hl Hin. look Hl.
    + exists l. split; [done |]. intros i a Hi Ho. destruct (Forall_lookup_1 _ _ _ _ Hno Hi Ho) as [[x Hx] _].
      destruct (Forall_lookup_1 _ _ _ _ Hok Hi Ho x Hx) as (chx & Hcx & Hf & Hp). destruct (Hnew _ _ Hcx) as (chx' & ? & [Hq _ _ _]).
      exists x, chx'. split_and!; [done | done | by rewrite Hq | rewrite Hq; cbn; congruence].
    + destruct (Ialts _ _ Hl Hin) as (l' & He' & Ha). exists l'. split; [done |]. intros i a Hi Ho.
      destruct (Ha i a Hi Ho) as (x & chx & ? & Hx & ? & Hf). destruct (Hnew _ _ Hx) as (chx' & ? & [Hq Hqin _ _]).
      exists x, chx'. split_and!; [done | done | by rewrite Hq |]. intros Hfr. apply Hqin. left. apply Hf. by rewrite Hq in Hfr.
  - intros x chx u i Hl Hin. destruct (Hold _ _ Hl) as (chx0 & Hx & [_ Hqin _ _]).
    destruct (proj1 (Hqin _) Hin) as [Hin0 | (k & a & [= -> ->] & Hk & Hw)].
    + destruct (Iqueue x chx0 u i Hx Hin0) as (thu & a & Hl' & Hinu & ?). exists thu, a.
      rewrite lookup_insert_ne by (symmetry; by eapply Hu). done.
    + exists th', a. rewrite lookup_insert_eq. destruct Hw as (? & ? & _). split_and!; [done | done | by exists l, CHANEND | done | done].
  - intros u thu Hl Hin. look Hl; [unfold tag_inv; rewrite Htc; by left |]. specialize (Itag _ _ Hl Hin). unfold tag_inv in *.
    destruct (t_c thu) as [| x |]; [done | | done]. destruct Itag as [(chx & i & Hx & Hi) Hmeet]. split.
    + destruct (Hnew _ _ Hx) as (chx' & ? & [_ Hqin _ _]). exists chx', i. split; [done |]. apply Hqin. by left.
    + intros Hun. destruct (Hmeet Hun) as (m & thm & v & k & Hm' & ?). exists m, thm, v, k. cbn.
      rewrite lookup_insert_ne by (symmetry; by eapply Hm). done.
  - intros m thm u v k Hl Hpm. look Hl; [by apply Hnm' in Hpm |]. destruct (Imeet _ _ _ _ _ Hl Hpm) as (? & thu & x & Hthu & Hun & ?).
    split; [done |]. exists thu, x. rewrite lookup_insert_ne by (symmetry; eapply Hu; [done | by apply unmet_in_alt]). done.
  - intros m thm m' thm' u v k v' k' Hl Hpm Hl' Hpm'. look Hl; [by apply Hnm' in Hpm |]. look Hl'; [by apply Hnm' in Hpm' |]. by eapply Imeet1.
  - intros m thm x j Hl Hcj. look Hl; [by apply Hncl in Hcj |]. destruct (Iclose _ _ _ _ Hl Hcj) as (chx & Hx & ?).
    destruct (Hnew _ _ Hx) as (chx' & ? & [Hq _ _ _]). exists chx'. split; [done |]. by rewrite Hq.
  - intros m thm m' thm' x j j' Hl Hcj Hl' Hcj'. look Hl; [by apply Hncl in Hcj |]. look Hl'; [by apply Hncl in Hcj' |]. by eapply Iclose1.
  - intros x chx p u i thu a Hl Hp Htu Hnil Ha. destruct (Hold _ _ Hl) as (chx0 & Hx & [Hq Hqin _ Hnone]).
    assert (Some (u, i) ∈ ch_qentry chx) as Hin by by eapply list_elem_of_lookup_2. rewrite Hq at 1 2 3 4. cbn.
    destruct (proj1 (Hqin _) Hin) as [Hin0 | (k & xa & [= -> ->] & Hk & Hw)].
    + assert (u ≠ t) as Hut by (intros ->; by destruct (Hnq _ _ _ Hx Hin0)). rewrite lookup_insert_ne in Htu by done.
      apply list_elem_of_lookup in Hin0 as [p' Hp']. destruct (Iwait x chx0 p' u i thu a Hx Hp' Htu Hnil Ha) as (? & ? & _).
      split_and!; [done | done |]. intros Hcne. rewrite Hnone in Hp.
      * destruct (Iwait x chx0 p u i thu a Hx Hp Htu Hnil Ha) as (_ & _ & Hc). destruct (Hc Hcne) as (m & thm & j & Hm' & Hcj & ?).
        exists m, thm, j. rewrite lookup_insert_ne by (symmetry; by eapply Hcl). done.
      * intros xa Hxa Hw. apply list_elem_of_lookup in Hxa as [k Hk]. destruct (Hstuck k xa x chx0 Hk Hx Hw) as (_ & ? & _). done.
    + rewrite lookup_insert_eq in Htu. injection Htu as <-. destruct (Hstuck k xa x chx0 Hk Hx Hw) as (Hka & ? & ? & ? & _).
      cbn in Ha. rewrite Hka in Ha. injection Ha as <-. split_and!; [done | done |]. by intros.
  - intros x chx e e' thu thu' a a' Hl (Hqe & Htu & Ha & Hc) (Hqe' & Htu' & Ha' & Hc') Hs Hr.
    destruct (Hold _ _ Hl) as (chx0 & Hx & [_ Hqin _ _]).
    destruct (proj1 (Hqin _) Hqe) as [Hqe0 | (k & xa & -> & Hk & Hw)]; destruct (proj1 (Hqin _) Hqe') as [Hqe0' | (k' & xa' & -> & Hk' & Hw')]; cbn in *.
    + destruct e as [u i], e' as [u' i']. cbn in *.
      rewrite lookup_insert_ne in Htu by (intros ->; destruct (Hnq _ _ _ Hx Hqe0); done). rewrite lookup_insert_ne in Htu' by (intros ->; destruct (Hnq _ _ _ Hx Hqe0'); done).
      by apply (Ipair x chx0 (u, i) (u', i') thu thu' a a').
    + destruct (Hstuck k' xa' x chx0 Hk' Hx Hw') as (Hka & _ & _ & _ & Hnr). rewrite lookup_insert_eq in Htu'. injection Htu' as <-.
      rewrite Hka in Ha'. injection Ha' as <-. exfalso. apply (Hnr e Hqe0). rewrite Hr. exists thu, a.
      destruct e as [u i]. cbn in *. by rewrite lookup_insert_ne in Htu by (intros ->; destruct (Hnq _ _ _ Hx Hqe0); done).
    + destruct (Hstuck k xa x chx0 Hk Hx Hw) as (Hka & _ & _ & _ & Hnr). rewrite lookup_insert_eq in Htu. injection Htu as <-.
      rewrite Hka in Ha. injection Ha as <-. exfalso. apply (Hnr e' Hqe0'). rewrite Hs. exists thu', a'.
      destruct e' as [u i]. cbn in *. by rewrite lookup_insert_ne in Htu' by (intros ->; destruct (Hnq _ _ _ Hx Hqe0'); done).
    + done.
Qed.

(** The thread [t] has dequeued all its entries and left alt. *)
Lemma keep_leave t th th' l C' :
  T !! t = Some th → in_alt th → idle th' → entries (t_alts th) = Ok (l, CHANEND) →
  (∀ m thm v k, T !! m = Some thm → t_pc thm ≠ Meeting t v k) →
  (∀ c, less (isof t l 0 c) (C !! c) (C' !! c)) →
  inv (mkWorld C' M (<[t := th']> T)).
Proof.
  intros Ht Hin Hid He Hnomeet Hless. destruct (idle_not _ Hid) as (Hn1 & Hn2 & Hn3). open_inv Hinv.
  assert (∀ x chx i, C !! x = Some chx → Some (t, i) ∈ ch_qentry chx → isof t l 0 x (t, i) = true) as Hmine.
  { intros x chx i Hx Hi. destruct (Iqueue x chx t i Hx Hi) as (th0 & a & Ht0 & _ & (l' & e & He' & Hl) & Ho & Hac).
    rewrite Ht in Ht0. injection Ht0 as <-. rewrite He in He'. injection He' as <- <-.
    apply bool_decide_eq_true. cbn. split_and!; [done | lia |]. unfold entry_on. rewrite Nat.sub_0_r. by rewrite Hl. }
  assert (∀ x u i, u ≠ t → isof t l 0 x (u, i) = false) as Hother by (intros; apply bool_decide_eq_false; naive_solver).
  assert (∀ x chx, C' !! x = Some chx → ∃ chx0, C !! x = Some chx0 ∧ chx = chx0 <| ch_qentry := without (isof t l 0 x) (ch_qentry chx0) |>) as Hold.
  { intros x chx Hl. specialize (Hless x). rewrite Hl in Hless. destruct (C !! x) as [chx0|]; [| done].
    destruct Hless as [[= ->] | [? _]]; [eauto | done]. }
  assert (∀ x chx u i, C !! x = Some chx → Some (u, i) ∈ ch_qentry chx → u ≠ t →
    ∃ chx', C' !! x = Some chx' ∧ chx' = chx <| ch_qentry := without (isof t l 0 x) (ch_qentry chx) |> ∧ Some (u, i) ∈ ch_qentry chx') as Hstays.
  { intros x chx u i Hx Hi Hne. assert (Some (u, i) ∈ without (isof t l 0 x) (ch_qentry chx)) as Hi' by (apply without_in; auto).
    specialize (Hless x). rewrite Hx in Hless. destruct Hless as [-> | (_ & _ & _ & Hs)]; [eauto |].
    cbn in Hs. apply elem_somes in Hi'. rewrite Hs in Hi'. by apply list.elem_of_nil in Hi'. }
  assert (∀ u thu, T !! u = Some thu → (∀ v k, t_pc thu ≠ Meeting t v k)) as Hnot by eauto.
  assert (∀ u thu x v k, T !! u = Some thu → t_pc thu = Meeting x v k → u ≠ t) as Hm.
  { intros u thu x v k Hu' Hp ->. simplify_eq. by eapply meeting_not. }
  assert (∀ u thu c j, T !! u = Some thu → closing thu c j → u ≠ t) as Hcl.
  { intros u thu c j Hu' Hp ->. simplify_eq. by eapply closing_not. }
  constructor; cbn.
  - intros x chx Hl. destruct (Hold _ _ Hl) as (chx0 & Hx & ->). destruct (Ibuf _ _ Hx) as ([] & Hd & ?).
    split; [by constructor |]. split; [| done]. cbn. rewrite without_somes. by apply list.NoDup_filter.
  - intros u thu Hl Hinu. look Hl; [done |]. destruct (Ialts _ _ Hl Hinu) as (l' & He' & Ha). exists l'. split; [done |]. intros i a Hi Ho.
    destruct (Ha i a Hi Ho) as (x & chx & ? & Hx & ? & Hf). exists x. pose proof (Hless x) as Hx'. rewrite Hx in Hx'.
    destruct Hx' as [Hx' | (_ & Hfr & _)].
    + eexists. split; [done |]. split; [exact Hx' |]. split; [done |]. intros Hfr. apply without_in. split; [by apply Hf | by apply Hother].
    + destruct (Hstays x chx u i Hx (Hf Hfr)) as (chx' & ? & -> & ?); [done |]. eexists. split_and!; [done | done | done | done].
  - intros x chx u i Hl Hi. destruct (Hold _ _ Hl) as (chx0 & Hx & ->). cbn in Hi. apply without_in in Hi as [Hi Hof].
    destruct (Iqueue x chx0 u i Hx Hi) as (thu & a & Hl' & Hinu & ?). exists thu, a. rewrite lookup_insert_ne; [done |].
    intros <-. rewrite (Hmine x chx0 i) in Hof by done. done.
  - intros u thu Hl Hinu. look Hl; [done |]. specialize (Itag _ _ Hl Hinu). unfold tag_inv in *.
    destruct (t_c thu) as [| x |]; [done | | done]. destruct Itag as [(chx & i & Hx & Hi) Hmeet]. split.
    + destruct (Hstays x chx u i Hx Hi) as (chx' & ? & _ & ?); [done |]. eauto.
    + intros Hun. destruct (Hmeet Hun) as (m & thm & v & k & Hm' & ?). exists m, thm, v, k. cbn.
      rewrite lookup_insert_ne by (symmetry; by eapply Hm). done.
  - intros m thm u v k Hl Hpm. look Hl; [by apply Hn2 in Hpm |]. destruct (Imeet _ _ _ _ _ Hl Hpm) as (? & thu & x & Hthu & Hun & ?).
    split; [done |]. exists thu, x. rewrite lookup_insert_ne; [done |]. intros <-. by eapply (Hnot m thm Hl).
  - intros m thm m' thm' u v k v' k' Hl Hpm Hl' Hpm'. look Hl; [by apply Hn2 in Hpm |]. look Hl'; [by apply Hn2 in Hpm' |]. by eapply Imeet1.
  - intros m thm x j Hl Hcj. look Hl; [by apply Hn3 in Hcj |]. destruct (Iclose _ _ _ _ Hl Hcj) as (chx & Hx & Hc1).
    pose proof (Hless x) as Hx'. rewrite Hx in Hx'. destruct Hx' as [Hx' | (_ & _ & ? & _)]; [| done]. eexists. split; [exact Hx' | done].
  - intros m thm m' thm' x j j' Hl Hcj Hl' Hcj'. look Hl; [by apply Hn3 in Hcj |]. look Hl'; [by apply Hn3 in Hcj' |]. by eapply Iclose1.
  - intros x chx p u i thu a Hl Hp Htu Hnil Ha. destruct (Hold _ _ Hl) as (chx0 & Hx & ->). cbn in Hp.
    apply without_lookup in Hp as [Hp Hof]. assert (t ≠ u) as Hne.
    { intros <-. rewrite (Hmine x chx0 i) in Hof; [done | done | by eapply list_elem_of_lookup_2]. }
    rewrite lookup_insert_ne in Htu by done. destruct (Iwait x chx0 p u i thu a Hx Hp Htu Hnil Ha) as (? & ? & Hc).
    split_and!; [done | done |]. intros Hcne. destruct (Hc Hcne) as (m & thm & j & Hm' & Hcj & ?). exists m, thm, j.
    rewrite lookup_insert_ne by (symmetry; by eapply Hcl). done.
  - intros x chx [u i] [u' i'] thu thu' a a' Hl (Hqe & Htu & Ha & Hc) (Hqe' & Htu' & Ha' & Hc'). cbn in *.
    destruct (Hold _ _ Hl) as (chx0 & Hx & ->). cbn in *. apply without_in in Hqe as [Hqe Hof]. apply without_in in Hqe' as [Hqe' Hof'].
    rewrite lookup_insert_ne in Htu by (intros <-; by rewrite (Hmine x chx0 i) in Hof).
    rewrite lookup_insert_ne in Htu' by (intros <-; by rewrite (Hmine x chx0 i') in Hof').
    by apply (Ipair x chx0 (u, i) (u', i') thu thu' a a').
Qed.
End Keep.
