(* ===== verification/ChanProps.v ===== *)
(** * ChanProps: the sections of channel.c in any state that satisfies the invariant

    Each section is defined, keeps the invariant of {!ChanSys}, and sends and gets what its
    moves say; so the invariant and the order of the elements hold in every run. *)

From S2P Require Import Prelude Chan ChanInv ChanSys ChanKeep.

(** ** The sections one by one *)

Lemma setpc_ok t p w th : w_threads w !! t = Some th → setpc t p w = Ok (setthread t (th <| t_pc := p |>) w).
Proof. intros H. unfold setpc, getthread. by rewrite H. Qed.

Lemma setpc_same t p w th : w_threads w !! t = Some th → t_pc th = p → setthread t (th <| t_pc := p |>) w = w.
Proof.
  intros Ht <-. destruct w as [wc wm wt]. unfold setthread, update. cbn in *. f_equal. apply insert_id.
  rewrite Ht. by destruct th.
Qed.

Lemma setthread_setthread t x y w : setthread t x (setthread t y w) = setthread t x w.
Proof. unfold setthread. cbn. by rewrite insert_insert_eq. Qed.

Lemma buf_got ch : buf_ok ch → 0 < ch_n ch → buf_ok (got ch).
Proof.
  intros Hb Hn. pose proof (n_pred ch Hb Hn) as He. destruct Hb. constructor; cbn; try done; [rewrite He; lia | apply u32_range].
Qed.

Lemma buf_put ch x : buf_ok ch → ch_n ch < ch_s ch → len x = ch_e ch → buf_ok (put ch x).
Proof.
  intros Hb Hn Hx. pose proof (n_succ ch Hb Hn) as He. destruct Hb. constructor; cbn; try done; [rewrite He; lia | by rewrite length_insert |].
  by apply Forall_insert.
Qed.

Lemma buf_swapped ch x : buf_ok ch → len x = ch_e ch → buf_ok (swapped ch x).
Proof.
  intros [] Hx. constructor; cbn; try done; [apply u32_range | by rewrite length_insert | by apply Forall_insert].
Qed.

(** The last thing a section does is to let its thread go. *)
Ltac to_idle th :=
  match goal with
  | |- inv (setthread ?t ?th' ?w1) =>
      let H := fresh in cut (inv w1); [intros H; apply (keep_idle w1 H t th th') |]
  end.

(** What altexec leaves, with the thread gone on to return or to its rendezvous. *)
Definition went (t : tid) (th : Thread) (i : Z) (b : option entry) (w : world) : world :=
  setthread t (th <| t_pc := match b with None => Idle i | Some e => Meeting e.1 Zero (KAlt i) end |>) w.

Lemma executed_keep w t th c ch a b w' i :
  inv w → w_threads w !! t = Some th → idle th → w_chans w !! c = Some ch → ptr_ok (w_mem w) (a_v a) (ch_e ch) →
  executed w c ch a b w' → inv (went t th i b w') ∧ w_threads w' !! t = Some th.
Proof.
  intros Hi Ht Hid Hc Hp Hex. destruct (idle_not _ Hid) as (Hn1 & Hn2 & Hn3).
  destruct (iv_buf _ Hi _ _ Hc) as (Hb & _). pose proof (bf_e _ Hb) as He.
  assert (∀ e thb b', waiter w ch e thb b' → e.1 ≠ t) as Hne.
  { intros e thb b' Hw. destruct (inv_waiter w c ch e thb b' Hi Hc Hw) as (Hin & _). destruct Hw as (_ & Hl & _). intros Het. rewrite Het in Hl. congruence. }
  assert (∀ m e thb b', (∀ p x, ptr_ok (w_mem w) p x → ptr_ok m p x) → waiter w ch e thb b' → ∀ w1, inv w1 → w_threads w1 = w_threads w →
    w_mem w1 = w_mem w → (∃ ch', w_chans w1 !! c = Some ch' ∧ ch_qentry ch' = ch_qentry ch) →
    inv (setthread t (th <| t_pc := Meeting e.1 Zero (KAlt i) |>) (choose e thb c (with_mem w1 m)))) as Hchoose.
  { intros m e thb b' Hm Hw w1 Hi1 Ht1 Hm1 (ch' & Hc1 & Hq). pose proof (Hne e thb b' Hw) as Het. destruct e as [u j].
    apply (keep_choose (with_mem w1 m)) with (th := th) (ch := ch') (b := b') (v := Zero) (k := KAlt i); try done.
    - apply keep_mem; [done |]. by rewrite Hm1.
    - cbn. by rewrite Ht1.
    - destruct Hw as (? & ? & ? & ?). unfold waiter. cbn in *. by rewrite Hq, Ht1.
    - intros x j' [? | (? & ? & ?)]; done.
    - intros x j' Hx. by apply Hn3 in Hx. }
  destruct Hex as [Ho Hn Hno | Ho Hn Hno | e thb b Ho Hn Hw Hob | e thb b Ho Hn Hw Hob | e thb b m Ho Hn Hw Hob ->]; unfold went.
  - split; [| done]. to_idle th; [exact Ht | exact Hid | by eexists |].
    apply (keep_buffer w) with (ch := ch); [done | done | by repeat split | apply buf_put; [done.. |]; by apply valof_len; [lia |] |].
    intros e thb b Hw. destruct (inv_waiter w c ch e thb b Hi Hc Hw) as (_ & _ & _ & _ & Hs). split; intros Hob.
    + exfalso. destruct Hw as (Hq & ? & ? & ?). apply (Hno e Hq). by exists thb, b.
    + specialize (Hs Hob). lia.
  - split; [| done]. to_idle th; [exact Ht | exact Hid | by eexists |].
    assert (inv (setchan c (got ch) w)) as Hg.
    { apply (keep_buffer w) with (ch := ch); [done | done | by repeat split | by apply buf_got |].
      intros e thb b Hw. destruct (inv_waiter w c ch e thb b Hi Hc Hw) as (_ & _ & _ & Hr & _). split; intros Hob.
      + specialize (Hr Hob). lia.
      + exfalso. destruct Hw as (Hq & ? & ? & ?). apply (Hno e Hq). by exists thb, b. }
    apply (keep_mem _ Hg). intros p e Hpe. apply put_at_ptr_ok; [| done]. by rewrite element_len by (done || (pose proof (bf_n _ Hb); lia)).
  - split; [| cbn; rewrite lookup_insert_ne by (by eapply Hne); done]. eapply (Hchoose _ _ _ b); [| done | done | done | done | by exists ch].
    intros p x Hpx. apply put_at_ptr_ok; [| done]. rewrite valof_len by (done || lia).
    destruct (inv_waiter w c ch e thb b Hi Hc Hw) as (_ & Hpb & _). done.
  - split; [| cbn; rewrite lookup_insert_ne by (by eapply Hne); done]. eapply (Hchoose _ _ _ b); [| done | done | done | done | by exists ch].
    intros p x Hpx. apply put_at_ptr_ok; [| done]. destruct (inv_waiter w c ch e thb b Hi Hc Hw) as (_ & Hpb & _). by rewrite valof_len by (done || lia).
  - split; [| cbn; rewrite lookup_insert_ne by (by eapply Hne); done]. pose proof (bf_n _ Hb) as Hns.
    destruct (inv_waiter w c ch e thb b Hi Hc Hw) as (_ & Hpb & _ & _ & Hs).
    assert (∀ p x, ptr_ok (w_mem w) p x → ptr_ok (put_at (a_v a) (element ch 0) (w_mem w)) p x) as Hm.
    { intros p x Hpx. apply put_at_ptr_ok; [| done]. by rewrite element_len by (done || lia). }
    eapply (Hchoose _ _ _ b Hm Hw (setchan c _ w)); [| done | done |].
    + apply (keep_buffer w) with (ch := ch); [done | done | by repeat split | apply buf_swapped; [done |] |].
      * apply valof_len; [lia |]. by apply Hm.
      * intros e' thb' b' Hw'. destruct (inv_waiter w c ch e' thb' b' Hi Hc Hw') as (_ & _ & _ & ? & ?). done.
    + eexists. split; [apply lookup_insert_eq | done].
Qed.

(** The buffers are as they were; channels may have been freed. *)
Definition same_buffer (o o' : option Channel) : Prop :=
  match o, o' with
  | Some ch, Some ch' => ch_s ch' = ch_s ch ∧ ch_f ch' = ch_f ch ∧ ch_n ch' = ch_n ch ∧ ch_v ch' = ch_v ch ∧ ch_e ch' = ch_e ch
  | _, None => True
  | None, Some _ => False
  end.

Definition quiet (w w' : world) : Prop := w_mem w' = w_mem w ∧ ∀ c, same_buffer (w_chans w !! c) (w_chans w' !! c).

Lemma same_buffer_refl o : same_buffer o o.
Proof. by destruct o. Qed.

(** alt executes one of its operations, or moves nothing. *)
Definition alt_done (t : tid) (alts : list Alt) (nrand nrand' : nat → Z) (w0 w' : world) : Prop :=
  (∃ th i j a c ch b w1, w_threads w0 !! t = Some th ∧ idle th ∧ t_alts th = alts ∧ alts !! j = Some a ∧ a_c a = Some c ∧
     w_chans w0 !! c = Some ch ∧ ptr_ok (w_mem w0) (a_v a) (ch_e ch) ∧ executed w0 c ch a b w1 ∧ w' = went t th i b w1 ∧
     alt_moves alts nrand nrand' w0 = exec_moves w0 c ch a b) ∨
  (alt_moves alts nrand nrand' w0 = [] ∧ quiet w0 w').

Lemma seterr_setpc t i e p w th :
  w_threads w !! t = Some th → (i < length (t_alts th))%nat →
  ∃ th', (w ← seterr t i e w; setpc t p w) = Ok (setthread t (th' <| t_pc := p |>) w).
Proof.
  intros Ht Hi. destruct (seterr_ok t i e w th Ht Hi) as (alts & -> & _). cbn [mbind res_bind].
  rewrite (setpc_ok _ _ _ (th <| t_alts := alts |>)) by (cbn; apply lookup_insert_eq). rewrite setthread_setthread. eauto.
Qed.

Lemma alts_scannable w l : inv w → Forall (alt_ok w) l → Forall (scannable w) l.
Proof.
  intros Hi Hl. eapply Forall_impl; [| exact Hl]. cbv beta. intros a Ha c Hop Hac.
  destruct (Ha Hop c Hac) as (ch & Hc & _). exists ch. split; [done |]. by eapply inv_readable.
Qed.

Lemma alt_executes w t th alts l e nrand nrand' i a :
  inv w → w_threads w !! t = Some th → idle th → entries alts = Ok (l, e) → Forall (alt_ok w) l → nrand_ok nrand' →
  scan w nrand l 0 0 None = Ok (Some (Some i)) → l !! i = Some a → can_proceed w a →
  ∃ c ch b w1, a_c a = Some c ∧ w_chans w !! c = Some ch ∧ ptr_ok (w_mem w) (a_v a) (ch_e ch) ∧
    altexec a nrand' w = Ok (w1, fst <$> b) ∧ executed w c ch a b w1 ∧ alt_moves alts nrand nrand' w = exec_moves w c ch a b.
Proof.
  intros Hi Ht Hid He Hok Hn Hs Hl (Hop & c & ch & Hac & Hc & _ & Hp).
  destruct (entries_lookup _ _ _ _ _ He Hl) as (_ & Ho1 & Ho2).
  destruct (Forall_lookup_1 _ _ _ _ Hok Hl Hop c Hac) as (ch' & Hc' & _ & Hptr). rewrite Hc in Hc'. injection Hc' as <-.
  destruct (iv_buf _ Hi _ _ Hc) as (Hb & _). pose proof (inv_waiters w c ch Hi Hc) as Hw.
  assert (∃ b w1, pick w (otherop (a_op a)) nrand' (ch_qentry ch) 0 None = Ok b ∧
    altexec a nrand' w = Ok (w1, fst <$> b) ∧ executed w c ch a b w1) as (b & w1 & Hpick & Hex & Hx).
  { destruct (a_op a) eqn:Ho; try done; [rewrite <- Ho; apply altexec_send | rewrite <- Ho; apply altexec_receive]; by rewrite ?Ho. }
  exists c, ch, b, w1. split_and!; try done. unfold alt_moves. rewrite He. cbn [mbind res_bind]. rewrite Hs. cbn [mbind res_bind].
  rewrite Hl. cbn [res_of_option mbind res_bind]. rewrite Hac. cbn [res_of_option mbind res_bind]. unfold getchan. rewrite Hc.
  cbn [res_of_option mbind res_bind]. by rewrite Hpick.
Qed.

Lemma can_proceed_other w t th th' a :
  inv w → w_threads w !! t = Some th → ¬ in_alt th → can_proceed (setthread t th' w) a → can_proceed w a.
Proof.
  intros Hi Ht Hn (Hop & c & ch & Hac & Hc & Hopen & Hp). split; [done |]. exists c, ch. split_and!; try done.
  destruct Hp as [([u j] & Hq & thu & b & Hu & Hb) | Hroom]; [| by right]. left. exists (u, j). split; [done |]. exists thu, b.
  split; [| done]. cbn in *. rewrite lookup_insert_ne in Hu; [done |]. intros <-. by destruct (not_queued w Hi t th Ht Hn c ch j Hc).
Qed.

(** The part of alt that waits: nothing can proceed. *)
Lemma alt_waits w t th l :
  inv w → w_threads w !! t = Some th → idle th → entries (t_alts th) = Ok (l, CHANEND) → t_c th = Cnil →
  Forall (alt_ok w) l → Forall (λ xa, a_op xa ≠ CHANNOP → is_Some (a_c xa) ∧ ¬ can_proceed w xa) l →
  ∃ w', ('(waiting, ca, allreadycl, w) ← enqueue_all t l 0 (false, None, false) w;
         match waiting, ca, allreadycl with
         | false, Some i, _ => w ← seterr t i Errcl w; setpc t (Idle (Z.of_nat i)) w
         | false, None, true => setpc t (Idle (-1)) w
         | _, _, _ => setpc t Waiting w
         end) = Ok w' ∧ inv w' ∧ quiet w w'.
Proof.
  intros Hi Ht Hid He Htc Hok Hno.
  destruct (enqueue_all_ok t l 0 (false, None, false) w) as ([[waiting ca] allreadycl] & w2 & -> & Hq).
  { rewrite list.Forall_forall. intros a Ha Hop. rewrite list.Forall_forall in Hno, Hok. destruct (Hno a Ha Hop) as [[c Hc] _].
    destruct (Hok a Ha Hop c Hc) as (ch & ? & _). eauto. }
  destruct Hq as [Hm Hth Hmore Hnone Hca]. cbn [mbind res_bind fst snd] in *.
  assert (w_threads w2 !! t = Some th) as Ht2 by (by rewrite Hth).
  assert (quiet w w2) as Hquiet.
  { split; [done |]. intros c. specialize (Hmore c). destruct (w_chans w !! c), (w_chans w2 !! c); try done.
    destruct Hmore as [-> _ _ _]. done. }
  assert (inv (setthread t (th <| t_pc := Waiting |>) w2)) as Hwait.
  { pose proof (keep_wait w Hi t th (th <| t_pc := Waiting |>) l (w_chans w2) Ht Hid eq_refl Htc He Hno Hok Hmore) as Hk.
    by rewrite <- Hth, <- Hm in Hk. }
  assert (waiting = false → ∀ th', idle th' → inv (setthread t th' w2)) as Hback.
  { intros -> th' Hid'. destruct (Hnone eq_refl) as (_ & -> & _). by apply (keep_idle w Hi t th th'). }
  destruct waiting; [rewrite (setpc_ok _ _ _ th Ht2); eexists; by split_and! |].
  destruct ca as [i |].
  - destruct (Hca i eq_refl) as [? | (k & -> & Hk)]; [done |].
    destruct (seterr_setpc t (0 + k) Errcl (Idle (Z.of_nat (0 + k))) w2 th Ht2) as (th' & ->).
    + apply lookup_lt_is_Some_2 in Hk as [a Ha]. apply (entries_lookup _ _ _ _ _ He) in Ha as [Ha _]. by eapply lookup_lt_Some.
    + eexists. split; [done |]. split; [| done]. apply Hback; [done | by eexists].
  - destruct allreadycl; rewrite (setpc_ok _ _ _ th Ht2); eexists; (split; [done |]; split; [| done]); [| done].
    apply Hback; [done | by eexists].
Qed.

Lemma alt_section w t th alts nrand nrand' :
  inv w → w_threads w !! t = Some th → idle th → alts_ok w alts → nrand_ok nrand → nrand_ok nrand' →
  ∃ w', alt t alts nrand nrand' w = Ok w' ∧ inv w' ∧
    alt_done t alts nrand nrand' (setthread t (th <| t_alts := alts |>) w) w'.
Proof.
  intros Hi Ht Hid (l & e & He & Hok) Hn Hn'. unfold alt, getthread. rewrite Ht. cbn [res_of_option mbind res_bind].
  set (th0 := th <| t_alts := alts |>). set (w0 := setthread t th0 w).
  assert (idle th0) as Hid0 by (destruct Hid; by eexists).
  assert (inv w0) as Hi0 by (by apply (keep_idle w Hi t th th0)).
  assert (w_threads w0 !! t = Some th0) as Ht0 by apply lookup_insert_eq.
  rewrite He. cbn [mbind res_bind].
  destruct (scan_spec w0 nrand l 0 0 None Hn) as (s & Hs & Hnone & Hsome); [by apply (alts_scannable w0) | done |].
  rewrite Hs. cbn [mbind res_bind].
  assert ((∀ r, s ≠ Some (Some r)) → alt_moves alts nrand nrand' w0 = []) as Hquiet.
  { intros Hr. unfold alt_moves. rewrite He. cbn [mbind res_bind]. rewrite Hs. cbn [mbind res_bind].
    destruct s as [[i|]|]; [by destruct (Hr i) | done..]. }
  assert (∀ p, idle (th0 <| t_pc := p |>) → inv (setthread t (th0 <| t_pc := p |>) w0)) as Hret.
  { intros p Hp. by apply (keep_idle w0 Hi0 t th0). }
  destruct s as [[i|]|].
  - destruct (Hsome i eq_refl) as [|(k & a & -> & Hl & Hgo)]; [done |]. cbn in Hs. cbn [Nat.add]. rewrite Hl. cbn [res_of_option mbind res_bind].
    destruct (alt_executes w0 t th0 alts l e nrand nrand' k a) as (c & ch & b & w1 & Hac & Hc & Hp & -> & Hx & Hm); [done.. |].
    destruct (executed_keep w0 t th0 c ch a b w1 (Z.of_nat k) Hi0 Ht0 Hid0 Hc Hp Hx) as [Hi1 Ht1]. cbn [mbind res_bind].
    exists (went t th0 (Z.of_nat k) b w1). split; [by destruct b; cbn; apply setpc_ok |]. split; [done |]. left.
    exists th0, (Z.of_nat k), k, a, c, ch, b, w1. apply (entries_lookup _ _ _ _ _ He) in Hl as [Hl _]. by split_and!.
  - case_decide as Hnb.
    + rewrite (setpc_ok _ _ _ th0 Ht0). eexists. split; [done |]. split; [apply Hret; by eexists |]. right.
      split; [by apply Hquiet |]. split; [done |]. intros c. apply same_buffer_refl.
    + assert (e = CHANEND) as -> by (destruct (entries_end _ _ _ He); done). destruct (Hnone eq_refl) as [_ Hno].
      unfold settag, getthread. rewrite Ht0. cbn [res_of_option mbind res_bind].
      set (th1 := th0 <| t_c := Cnil |>). set (w1 := setthread t th1 w0).
      assert (idle th1) as Hid1 by (destruct Hid; by eexists).
      assert (inv w1) as Hi1 by (by apply (keep_idle w0 Hi0 t th0 th1)).
      destruct (alt_waits w1 t th1 l) as (w' & Hw & Hi' & Hq); [done | apply lookup_insert_eq | done | done | done | done | |].
      { eapply Forall_impl; [| exact Hno]. cbv beta. intros a Ha Hop. destruct (Ha Hop) as [? Hng]. split; [done |].
        intros Hgo. apply Hng. eapply (can_proceed_other w0 t th0); [done | done | by apply idle_not | exact Hgo]. }
      exists w'. split; [exact Hw |]. split; [done |]. right. split; [by apply Hquiet |]. exact Hq.
  - rewrite (setpc_ok _ _ _ th0 Ht0). eexists. split; [done |]. split; [apply Hret; by eexists |]. right.
    split; [by apply Hquiet |]. split; [done |]. intros c. apply same_buffer_refl.
Qed.

Lemma last_for_int l i a : last_for l i Cint a = a.
Proof.
  revert i a. induction l as [|xa l IH]; intros i a; [done |]. cbn [last_for].
  rewrite decide_False; [apply IH |]. intros [_ H]. destruct (a_c xa); cbn in H; congruence.
Qed.

Lemma last_for_some l i c a k xa :
  is_Some a ∨ l !! k = Some xa ∧ a_op xa ≠ CHANNOP ∧ a_c xa = Some c → is_Some (last_for l i (Cchan c) a).
Proof.
  revert i a k. induction l as [|x l IH]; intros i a k Hx; cbn [last_for]; [naive_solver |].
  apply (IH _ _ (pred k)). case_decide as Hd; [left; eauto |]. destruct Hx as [? | (Hk & Ho & Hc)]; [by left |].
  destruct k as [|k]; [| by right]. cbn in Hk. injection Hk as ->. destruct Hd. by rewrite Hc.
Qed.

(** What a thread come out of its rendezvous does: it goes back if it was interrupted
    although somebody has chosen it, and leaves alt otherwise. *)
Lemma woken_section w t th r :
  inv w → w_threads w !! t = Some th → t_pc th = Woken r →
  ∃ w', alt_woken t r w = Ok w' ∧ inv w' ∧ quiet w w'.
Proof.
  intros Hi Ht Hpc. assert (in_alt th) as Hin by (right; eauto). unfold alt_woken, getthread. rewrite Ht. cbn [res_of_option mbind res_bind].
  pose proof (iv_tag _ Hi t th Ht Hin) as Htag. unfold tag_inv in Htag.
  case_decide as Hagain.
  { rewrite (setpc_ok _ _ _ th Ht). eexists. split; [done |]. split.
    - apply (keep_unmet w Hi t th); [done | right; destruct Hagain; congruence | by left | done | done].
    - split; [done |]. intros c. apply same_buffer_refl. }
  set (c := if decide (r = Intred) then Cint else t_c th).
  unfold settag, getthread. rewrite Ht. cbn [res_of_option mbind res_bind].
  set (w1 := setthread t (th <| t_c := c |>) w).
  destruct (iv_alts _ Hi t th Ht Hin) as (l & He & Hal). rewrite He. cbn [mbind res_bind].
  assert (length l ≤ length (t_alts th))%nat as Hlen.
  { destruct (decide (length l ≤ length (t_alts th))%nat) as [|Hlt]; [done |]. exfalso.
    destruct (lookup_lt_is_Some_2 l (length (t_alts th)) ltac:(lia)) as [a Ha]. apply (entries_lookup _ _ _ _ _ He) in Ha as [Ha _].
    apply lookup_lt_Some in Ha. lia. }
  destruct (dequeue_all_ok t l 0 c r None w1 (th <| t_c := c |>)) as (w2 & -> & [Hm (th' & alts & Hth' & Hth & _) Hless]);
    [apply lookup_insert_eq | cbn; lia | |].
  { intros k a Hk Ho. destruct (Hal k a Hk Ho) as (x & ch & ? & Hx & _ & Hf). exists x, ch.
    destruct (iv_buf _ Hi _ _ Hx) as (_ & Hd & _). by split_and!. }
  cbn [mbind res_bind]. cbn [w_threads w1 setthread update] in Hth'. rewrite lookup_insert_eq in Hth'. injection Hth' as <-.
  assert (w_threads w2 !! t = Some (th <| t_c := c |> <| t_alts := alts |>)) as Ht2 by (rewrite Hth; apply lookup_insert_eq).
  assert (quiet w w2) as Hq.
  { split; [done |]. intros x. specialize (Hless x). cbn in Hless. destruct (w_chans w !! x) as [ch|]; cbn in Hless |- *.
    - destruct Hless as [-> | [-> _]]; done.
    - by rewrite Hless. }
  assert (∀ p, idle (th <| t_pc := p |>) → inv (setthread t (th <| t_c := c |> <| t_alts := alts |> <| t_pc := p |>) w2)) as Hleave.
  { intros p [r' Hp]. pose proof (keep_leave w Hi t th (th <| t_c := c |> <| t_alts := alts |> <| t_pc := p |>) l (w_chans w2)) as Hk.
    unfold setthread, update. cbn. rewrite Hth. cbn. rewrite !insert_insert_eq. rewrite Hm. apply Hk; [done | done | by exists r' | done | | exact Hless].
    intros m thm v k Hmt Hpm. destruct (iv_meet _ Hi m thm t v k Hmt Hpm) as (_ & tht & x & Htt & Hun & Hx). simplify_eq.
    destruct Hun as [? | Hun]; [congruence |]. apply Hagain. split; congruence. }
  destruct (last_for l 0 c None) as [i|] eqn:Hlast.
  - rewrite (setpc_ok _ _ _ _ Ht2). eexists. split; [done |]. split; [| done]. apply Hleave. by eexists.
  - assert (c = Cint) as ->.
    { unfold c in *. case_decide as Hr; [done |]. destruct (t_c th) as [|x|]; [destruct Htag; congruence | | done].
      destruct Htag as [(ch & i & Hx & Hi') _]. destruct (iv_queue _ Hi x ch t i Hx Hi') as (th'' & a & Ht'' & _ & (l' & e' & He' & Hl') & Ho & Hac).
      rewrite Ht in Ht''. injection Ht'' as <-. rewrite He in He'. injection He' as <- <-.
      destruct (last_for_some l 0 x None i a) as [? ?]; [by right | congruence]. }
    rewrite decide_True by done. rewrite (setpc_ok _ _ _ _ Ht2). eexists. split; [done |]. split; [| done]. apply Hleave. by eexists.
Qed.

Lemma freed_queued w c ch : inv w → w_chans w !! c = Some ch → ch_freed ch = true → all_queued w c ch.
Proof.
  intros Hi Hc Hf t th i a Ht Hin (l & e & He & Hl) Ho Hac. destruct (iv_alts _ Hi t th Ht Hin) as (l' & He' & Ha).
  rewrite He in He'. injection He' as <- ->. destruct (Ha i a Hl Ho) as (x & chx & Hx & Hcx & _ & Hq). simplify_eq. auto.
Qed.

(** _chanfree of a channel all of whose waiting entries are enqueued. *)
Lemma chanfree_section w c ch :
  inv w → w_chans w !! c = Some ch → all_queued w c ch →
  ∃ C', _chanfree c w = Ok (mkWorld C' (w_mem w) (w_threads w)) ∧ inv (mkWorld C' (w_mem w) (w_threads w)) ∧
    (C' = <[c := ch <| ch_freed := true |>]> (w_chans w) ∨ C' = delete c (w_chans w)).
Proof.
  intros Hi Hc Hall. unfold _chanfree, getchan. rewrite Hc. cbn [res_of_option mbind res_bind].
  destruct (decide (ch_closed ch = 1 ∨ Exists is_Some (ch_qentry ch))) as [Hu | Hu].
  - eexists. split; [done |]. split; [by apply (keep_freed w Hi c ch) | by left].
  - eexists. split; [done |]. split; [| by right]. apply (keep_gone w Hi c ch); [done | done | | tauto].
    destruct (somes (ch_qentry ch)) eqn:Hs; [done |]. exfalso. apply Hu. right. apply exists_somes. by rewrite Hs.
Qed.

Lemma same_buffer_free c ch C' (C : gmap chan Channel) x :
  C !! c = Some ch → C' = <[c := ch <| ch_freed := true |>]> C ∨ C' = delete c C → same_buffer (C !! x) (C' !! x).
Proof.
  intros Hc [-> | ->]; destruct (decide (x = c)) as [-> |].
  - rewrite Hc, lookup_insert_eq. by split_and!.
  - rewrite lookup_insert_ne by done. apply same_buffer_refl.
  - by rewrite lookup_delete_eq, Hc.
  - rewrite lookup_delete_ne by done. apply same_buffer_refl.
Qed.

Lemma same_buffer_closed c ch n (C : gmap chan Channel) x :
  C !! c = Some ch → same_buffer (C !! x) (<[c := ch <| ch_closed := n |>]> C !! x).
Proof.
  intros Hc. destruct (decide (x = c)) as [-> |]; [rewrite Hc, lookup_insert_eq; by split_and! |].
  rewrite lookup_insert_ne by done. apply same_buffer_refl.
Qed.

Lemma same_buffer_trans o o1 o2 : same_buffer o o1 → same_buffer o1 o2 → same_buffer o o2.
Proof. destruct o, o1, o2; cbn; try done. intros (? & ? & ? & ? & ?) (? & ? & ? & ? & ?). split_and!; congruence. Qed.

(** chanclose has woken everybody: the channel is closed. *)
Lemma close_ends w t th c i ch :
  w_threads w !! t = Some th → ¬ in_alt th → w_chans w !! c = Some ch → ch_closed ch = 1 →
  inv (setthread t (th <| t_pc := Closing c i |>) w) →
  (∀ p e thu a, (i ≤ p)%nat → ch_qentry ch !! p = Some (Some e) → w_threads w !! e.1 = Some thu → t_c thu = Cnil →
     t_alts thu !! e.2 = Some a → a_op a ≠ CHANSND ∧ ¬ (a_op a = CHANRCV ∧ ch_n ch = 0)) →
  ∃ w', (w ← (if ch_freed ch then _chanfree c (setchan c (ch <| ch_closed := 2 |>) w) else Ok (setchan c (ch <| ch_closed := 2 |>) w));
         setpc t (Idle 0) w) = Ok w' ∧ inv w' ∧ quiet w w'.
Proof.
  intros Ht Hni Hc Hcl Hi Hno. set (thv := th <| t_pc := Closing c i |>) in *. set (wv := setthread t thv w) in *.
  assert (w_threads wv !! t = Some thv) as Htv by apply lookup_insert_eq.
  assert (closing thv c i) as Hcv by by left.
  assert (∀ x j, closing thv x j → x = c ∧ j = i) as Hcv' by (intros x j [[= -> ->] | (? & ? & ?)]; done).
  assert (¬ in_alt thv) as Hnv by by eapply closing_not.
  set (ch' := ch <| ch_closed := 2 |>). set (w1 := setchan c ch' w).
  set (thi := th <| t_pc := Idle 0 |>).
  assert (inv (setthread t thi w1)) as Hi1.
  { assert (setthread t thi w1 = setthread t thi (setchan c ch' wv)) as ->.
    { unfold setthread, setchan, wv. cbn. by rewrite insert_insert_eq. }
    apply (keep_flags wv Hi t thv thi c ch ch'); try done.
    - by apply idle_not; eexists.
    - by intros x j Hx; apply Hcv' in Hx as [-> _].
    - intros x j [? | (? & ? & ?)]; done.
    - intros m thm j Hmt Hm Hcm. apply Hmt. by eapply (iv_close1 _ Hi m thm t thv c j i).
    - intros p y k thy a Hp Hy Hn Ha _. exfalso. assert (t ≠ y) as Hty.
      { intros <-. destruct (not_queued wv Hi t thv Htv Hnv c ch k Hc). by eapply list_elem_of_lookup_2. }
      destruct (iv_wait _ Hi c ch p y k thy a Hc Hp Hy Hn Ha) as (Hr & _ & Hcw). destruct Hcw as (m & thm & j & Hm & Hcm & Hj); [congruence |].
      assert (m = t) as -> by by eapply (iv_close1 _ Hi m thm t thv c j i). rewrite Htv in Hm. injection Hm as <-. apply Hcv' in Hcm as [_ ->].
      destruct (inv_waiter wv c ch (y, k) thy a Hi Hc) as (_ & _ & Hop & _); [split_and!; [by eapply list_elem_of_lookup_2 | done..] |].
      cbn in Hy. rewrite lookup_insert_ne in Hy by done. destruct (Hno p (y, k) thy a) as [H1 H2]; [done.. |]. destruct Hop; auto. }
  assert (w_threads w1 !! t = Some th) as Ht1 by done.
  assert (∀ x, same_buffer (w_chans w !! x) (w_chans w1 !! x)) as Hsb by (intros x; by apply same_buffer_closed).
  destruct (ch_freed ch) eqn:Hf.
  - destruct (chanfree_section (setthread t thi w1) c ch' Hi1) as (C' & Hfree & Hi2 & HC).
    { cbn. apply lookup_insert_eq. } { apply freed_queued; [done | cbn; apply lookup_insert_eq | done]. }
    assert (_chanfree c w1 = Ok (mkWorld C' (w_mem w) (w_threads w))) as ->.
    { unfold _chanfree, getchan in *. cbn in *. rewrite lookup_insert_eq in *. cbn in *.
      destruct (decide (2 = 1 ∨ Exists is_Some (ch_qentry ch))); injection Hfree as <-; done. }
    cbn [mbind res_bind]. rewrite (setpc_ok _ _ _ th) by done. eexists. split; [done |]. split; [exact Hi2 |].
    split; [done |]. intros x. eapply same_buffer_trans; [apply Hsb |]. apply (same_buffer_free c ch'); [apply lookup_insert_eq | exact HC].
  - cbn [mbind res_bind]. rewrite (setpc_ok _ _ _ th Ht1). eexists. split; [done |]. split; [exact Hi1 |]. split; [done |]. exact Hsb.
Qed.

(** One round of the loop of chanclose: it chooses the next thread that has to fail, or
    ends. *)
Lemma close_section w t th c i ch :
  w_threads w !! t = Some th → ¬ in_alt th → w_chans w !! c = Some ch → ch_closed ch = 1 →
  inv (setthread t (th <| t_pc := Closing c i |>) w) →
  ∃ w', close_loop t c i w = Ok w' ∧ inv w' ∧ quiet w w'.
Proof.
  intros Ht Hni Hc Hcl Hi. set (thv := th <| t_pc := Closing c i |>) in *. set (wv := setthread t thv w) in *.
  assert (w_threads wv !! t = Some thv) as Htv by apply lookup_insert_eq.
  assert (closing thv c i) as Hcv by by left.
  assert (∀ x j, closing thv x j → x = c ∧ j = i) as Hcv' by (intros x j [[= -> ->] | (? & ? & ?)]; done).
  assert (¬ in_alt thv) as Hnv by by eapply closing_not.
  assert (∀ u k, Some (u, k) ∈ ch_qentry ch → u ≠ t) as Hut by (intros u k Hq ->; by destruct (not_queued wv Hi t thv Htv Hnv c ch k Hc)).
  assert (∀ u thu, u ≠ t → w_threads w !! u = Some thu → w_threads wv !! u = Some thu) as Hwv by (intros; cbn; by rewrite lookup_insert_ne by done).
  assert (readable w (ch_qentry ch)) as Hr.
  { intros [u k] Hq. destruct (inv_readable wv c ch Hi Hc (u, k) Hq) as (thu & a & Hu & Ha). exists thu, a.
    cbn in Hu. rewrite lookup_insert_ne in Hu by (symmetry; by eapply Hut). done. }
  assert (∀ e, Some e ∈ drop i (ch_qentry ch) → Some e ∈ ch_qentry ch) as Hdrop by (intros e He; rewrite <- (take_drop i (ch_qentry ch)); set_solver).
  unfold close_loop, getchan. rewrite Hc. cbn [res_of_option mbind res_bind].
  destruct (closing_scan_ok w c (ch_n ch) (drop i (ch_qentry ch)) i) as (r & -> & Hnone & Hsome); [intros e He; by apply Hr, Hdrop |].
  cbn [mbind res_bind]. destruct r as [[u j]|].
  - destruct (Hsome u j eq_refl) as (k & m & -> & Hk & (thu & a & Hu & Ha & Hn & Hop) & Hbefore). cbn in Hu, Ha.
    rewrite lookup_drop in Hk. assert (Some (u, m) ∈ ch_qentry ch) as Hq by by eapply list_elem_of_lookup_2.
    pose proof (Hut _ _ Hq) as Hne. unfold settag, getthread. rewrite Hu. cbn [res_of_option mbind res_bind].
    rewrite (setpc_ok _ _ _ th) by (cbn; by rewrite lookup_insert_ne by done). eexists. split; [done |].
    split; [| split; [done |]; intros x; apply same_buffer_refl].
    set (th' := th <| t_pc := Meeting u Closed (KClose c (S (i + k))) |>).
    assert (setthread t th' (setthread u (thu <| t_c := Cchan c |>) w) = setthread t th' (choose (u, m) thu c wv)) as ->.
    { unfold choose, setthread, wv. cbn. by rewrite (insert_insert_ne _ u t) by done; rewrite insert_insert_eq. }
    apply (keep_choose wv Hi t thv th' c ch u m thu a Closed (KClose c (S (i + k)))); try done.
    + split_and!; [done | by apply Hwv | done | done].
    + intros x j' [? | (? & ? & [= <- <- <- <-])]; [done |]. eauto.
    + intros x j' Hx. apply Hcv' in Hx as [-> ->]. exists (S (i + k)). split; [right; by eexists _, _ |].
      intros chx p y q thy b Hcx Hp Hy Hyu Hnil Hb Hle. destruct (decide (S (i + k) ≤ p)%nat) as [|Hgt]; [done |]. exfalso.
      change (w_chans w !! c = Some chx) in Hcx. rewrite Hc in Hcx. injection Hcx as <-.
      assert (p ≠ i + k)%nat as Hpk by (intros ->; congruence).
      assert (Some (y, q) ∈ ch_qentry ch) as Hyq by by eapply list_elem_of_lookup_2. pose proof (Hut _ _ Hyq) as Hyt.
      destruct (inv_waiter wv c ch (y, q) thy b Hi Hc) as (_ & _ & Hopb & Hrb & _); [by split_and! |].
      apply (Hbefore (p - i)%nat (y, q)); [lia | rewrite lookup_drop; by replace (i + (p - i))%nat with p by lia |].
      exists thy, b. cbn in Hy |- *. rewrite lookup_insert_ne in Hy by done. split_and!; [done | done | done |]. destruct Hopb; auto.
  - apply (close_ends w t th c i ch); try done. intros p e thu a Hp Hq Hu Hn Ha.
    assert (¬ failing w (ch_n ch) e) as Hnf.
    { apply Hnone; [done |]. apply list_elem_of_lookup. exists (p - i)%nat. rewrite lookup_drop. by replace (i + (p - i))%nat with p by lia. }
    split; [intros Ho | intros Ho]; apply Hnf; exists thu, a; auto.
Qed.

Lemma chanclose_section w t th c :
  inv w → w_threads w !! t = Some th → idle th → is_Some (w_chans w !! c) →
  ∃ w', chanclose t c w = Ok w' ∧ inv w' ∧ quiet w w'.
Proof.
  intros Hi Ht Hid [ch Hc]. destruct (idle_not _ Hid) as (Hn1 & Hn2 & Hn3). unfold chanclose, getchan. rewrite Hc. cbn [res_of_option mbind res_bind].
  case_decide as Hcl.
  - rewrite (setpc_ok _ _ _ th Ht). eexists. split; [done |]. split; [apply (keep_idle w Hi t th); [done | done | by eexists] |].
    split; [done |]. intros x. apply same_buffer_refl.
  - set (ch1 := ch <| ch_closed := 1 |>). assert (ch_closed ch = 0) as Hcl0 by lia.
    destruct (close_section (setchan c ch1 w) t th c 0 ch1) as (w' & -> & Hi' & Hm & Hq);
      [done | done | apply lookup_insert_eq | done | |].
    + apply (keep_flags w Hi t th (th <| t_pc := Closing c 0 |>) c ch ch1); try done.
      * intros [? | [? ?]]; done.
      * intros x j Hx. by apply Hn3 in Hx.
      * intros x j [[= <- <-] | (? & ? & ?)]; done.
      * intros m thm j _ Hm Hcm. destruct (iv_close _ Hi m thm c j Hm Hcm) as (ch' & Hc' & ?). simplify_eq. congruence.
      * intros p y k thy a _ _ _ _ _. exists 0%nat. split; [by left | lia].
    + exists w'. split; [done |]. split; [done |]. split; [done |]. intros x. eapply same_buffer_trans; [| apply Hq].
      by apply same_buffer_closed.
Qed.

Lemma free_section w c :
  inv w → free_ok w c → ∃ w', chanfree c w = Ok w' ∧ inv w' ∧ quiet w w'.
Proof.
  intros Hi (ch & Hc & _ & Hall). destruct (chanfree_section w c ch Hi Hc) as (C' & He & Hi' & HC).
  - intros t th i a Ht Hin Ha. apply (Hall t th i a Ht Hin). by apply at_entry_lookup in Ha as [? _].
  - eexists. split; [exact He |]. split; [done |]. split; [done |]. intros x. by apply (same_buffer_free c ch).
Qed.

(** A rendezvous is between a waiting thread and the one that chose it. *)
Lemma rendezvous_section w x y thx thy u :
  inv w → x ≠ y → w_threads w !! x = Some thx → w_threads w !! y = Some thy →
  rendtag x thx = Some u → rendtag y thy = Some u →
  ∃ w', rendezvous x y w = Ok w' ∧ inv w' ∧ quiet w w'.
Proof.
  intros Hi Hxy Hx Hy Htx Hty.
  assert (∀ p q, ∃ w', (w ← setpc x p w; setpc y q w) = Ok w' ∧ w' = setthread y (thy <| t_pc := q |>) (setthread x (thx <| t_pc := p |>) w)) as Hset.
  { intros p q. rewrite (setpc_ok _ _ _ thx Hx). cbn [mbind res_bind].
    rewrite (setpc_ok _ _ _ thy) by (cbn; by rewrite lookup_insert_ne by done). eauto. }
  unfold rendezvous, getthread. rewrite Hx. cbn [res_of_option mbind res_bind]. rewrite Hy. cbn [res_of_option mbind res_bind].
  destruct (Hset (resume thx (rendval thy)) (resume thy (rendval thx))) as (w' & -> & ->).
  eexists. split; [done |]. split; [| split; [done |]; intros c; apply same_buffer_refl].
  unfold rendtag in *. destruct (t_pc thx) as [| | |u1 v1 k1|] eqn:Hpx, (t_pc thy) as [| | |u2 v2 k2|] eqn:Hpy; try done; simplify_eq.
  - destruct (iv_meet _ Hi y thy u v2 k2 Hy Hpy) as (Hv & _).
    apply (keep_wake w Hi y u thy thx _ _ v2 k2); [done | done | done | | by unfold resume, rendval; rewrite Hpx, Hpy].
    unfold resume, rendval. by rewrite Hpy, Hpx, decide_False by done.
  - destruct (iv_meet _ Hi x thx u v1 k1 Hx Hpx) as (Hv & _).
    unfold setthread. cbn. rewrite insert_insert_ne by done.
    apply (keep_wake w Hi x u thx thy _ _ v1 k1); [done | done | done | | by unfold resume, rendval; rewrite Hpx, Hpy].
    unfold resume, rendval. by rewrite Hpx, Hpy, decide_False by done.
  - exfalso. apply Hxy. by eapply (iv_meet1 _ Hi x thx y thy).
Qed.

Lemma interrupt_section w x th :
  inv w → w_threads w !! x = Some th → is_Some (rendtag x th) → ∃ w', interrupt x w = Ok w' ∧ inv w' ∧ quiet w w'.
Proof.
  intros Hi Hx [u Htag]. unfold interrupt, getthread. rewrite Hx. cbn [res_of_option mbind res_bind]. rewrite (setpc_ok _ _ _ th Hx).
  eexists. split; [done |]. split; [| split; [done |]; intros c; apply same_buffer_refl].
  unfold rendtag, resume in *. destruct (t_pc th) as [| | |u1 v1 k1|] eqn:Hp; try done.
  - apply (keep_unmet w Hi x th); [done | by left | by right | done | done].
  - rewrite decide_True by done. by rewrite setpc_same.
Qed.

Lemma create_section w elemsize elemcnt c c' w' :
  inv w → w_chans w !! c = None → elemcnt < 2 ^ 31 → chancreate elemsize elemcnt c w = (Some c', w') →
  inv w' ∧ c' = c ∧ w' = setchan c (newchannel elemsize elemcnt) w.
Proof.
  intros Hi Hc Hn. unfold chancreate. case_decide as Hd; [done |]. intros [= <- <-]. split; [| done].
  apply (keep_create w Hi); [done | lia | lia].
Qed.

(** ** The system *)

Lemma step_keeps w ms w' : inv w → step w ms w' → inv w'.
Proof.
  intros Hi [t th alts nrand nrand' w1 Ht Hid Ha _ Hn Hn' He | x y thx thy u w1 Hxy Hx Hy Htx Hty He | x th w1 Hx Htag He
    | t th r w1 Ht Hpc He | es ec c c' w1 Hc Hn He | t th c w1 Ht Hid (ch & Hc & _) He | t th c i w1 Ht Hpc He | c w1 Hf He | a l l' Ha Hl].
  - destruct (alt_section w t th alts nrand nrand' Hi Ht Hid Ha Hn Hn') as (w2 & He' & ? & _). congruence.
  - destruct (rendezvous_section w x y thx thy u Hi Hxy Hx Hy Htx Hty) as (w2 & He' & ? & _). congruence.
  - destruct (interrupt_section w x th Hi Hx Htag) as (w2 & He' & ? & _). congruence.
  - destruct (woken_section w t th r Hi Ht Hpc) as (w2 & He' & ? & _). congruence.
  - by destruct (create_section w es ec c c' w1 Hi Hc Hn He).
  - destruct (chanclose_section w t th c Hi Ht Hid) as (w2 & He' & ? & _); [eauto | congruence].
  - destruct (iv_close _ Hi t th c i Ht) as (ch & Hc & Hcl); [by left |].
    destruct (close_section w t th c i ch Ht) as (w2 & He' & ? & _); [by intros [? | [? ?]]; congruence | done | done | | congruence].
    by rewrite setpc_same.
  - destruct (free_section w c Hi Hf) as (w2 & He' & ? & _). congruence.
  - apply (keep_mem w Hi). intros p e [-> | (b & k & -> & Hb & Hk)]; [by left |]. right. exists b.
    destruct (decide (b = a)) as [-> | Hne]; [rewrite lookup_insert_eq | rewrite lookup_insert_ne by done; eauto].
    exists l'. split_and!; [done | done |]. rewrite Ha in Hb. injection Hb as <-. lia.
Qed.

Lemma runs_inv w0 ms w : starting w0 → runs w0 ms w → inv w.
Proof. intros H0. induction 1; [by apply inv_start | by eapply step_keeps]. Qed.

(** Everything a thread may do next is defined: no abort, no failed assertion, no access to
    a freed channel. *)
Record all_defined (w : world) : Prop := {
  df_alt : ∀ t th alts nrand nrand', w_threads w !! t = Some th → idle th → alts_ok w alts → nrand_ok nrand → nrand_ok nrand' →
    ∃ w', alt t alts nrand nrand' w = Ok w';
  df_rendezvous : ∀ x y thx thy u, x ≠ y → w_threads w !! x = Some thx → w_threads w !! y = Some thy →
    rendtag x thx = Some u → rendtag y thy = Some u → ∃ w', rendezvous x y w = Ok w';
  df_interrupt : ∀ x th, w_threads w !! x = Some th → is_Some (rendtag x th) → ∃ w', interrupt x w = Ok w';
  df_woken : ∀ t th r, w_threads w !! t = Some th → t_pc th = Woken r → ∃ w', alt_woken t r w = Ok w';
  df_close : ∀ t th c, w_threads w !! t = Some th → idle th → is_Some (w_chans w !! c) → ∃ w', chanclose t c w = Ok w';
  df_closing : ∀ t th c i, w_threads w !! t = Some th → t_pc th = Closing c i → ∃ w', close_loop t c i w = Ok w';
  df_free : ∀ c, free_ok w c → ∃ w', chanfree c w = Ok w'
}.

Lemma inv_defined w : inv w → all_defined w.
Proof.
  intros Hi. constructor.
  - intros t th alts nrand nrand' Ht Hid Ha Hn Hn'. destruct (alt_section w t th alts nrand nrand' Hi Ht Hid Ha Hn Hn') as (w2 & ? & _). eauto.
  - intros x y thx thy u Hxy Hx Hy Htx Hty. destruct (rendezvous_section w x y thx thy u Hi Hxy Hx Hy Htx Hty) as (w2 & ? & _). eauto.
  - intros x th Hx Htag. destruct (interrupt_section w x th Hi Hx Htag) as (w2 & ? & _). eauto.
  - intros t th r Ht Hpc. destruct (woken_section w t th r Hi Ht Hpc) as (w2 & ? & _). eauto.
  - intros t th c Ht Hid Hc. destruct (chanclose_section w t th c Hi Ht Hid Hc) as (w2 & ? & _). eauto.
  - intros t th c i Ht Hpc. destruct (iv_close _ Hi t th c i Ht) as (ch & Hc & Hcl); [by left |].
    destruct (close_section w t th c i ch Ht) as (w2 & ? & _); [by intros [? | [? ?]]; congruence | done | done | | eauto].
    by rewrite setpc_same.
  - intros c Hf. destruct (free_section w c Hi Hf) as (w2 & ? & _). eauto.
Qed.

(** ** Channels as queues *)

(** What was sent on a channel since it was created, and what was received. *)
Definition note (c : chan) (h : list (list Z) * list (list Z)) (m : move) : list (list Z) * list (list Z) :=
  match m with
  | Created x => if decide (x = c) then ([], []) else h
  | Sent x v => if decide (x = c) then (h.1 ++ [v], h.2) else h
  | Got x v => if decide (x = c) then (h.1, h.2 ++ [v]) else h
  end.

Definition history (c : chan) (ms : list move) : list (list Z) * list (list Z) := fold_left (note c) ms ([], []).
Definition sent (c : chan) (ms : list move) : list (list Z) := (history c ms).1.
Definition received (c : chan) (ms : list move) : list (list Z) := (history c ms).2.

(** A channel is a queue of what was sent and not yet received. *)
Definition is_queue (ms : list move) (c : chan) (ch : Channel) : Prop :=
  (∃ k, 0 ≤ k ≤ len (received c ms) ∧ ch_f ch = u32 k) ∧
  ((ch_s ch | 2 ^ 32) ∨ len (received c ms) + ch_s ch < 2 ^ 32 → received c ms ++ contents ch = sent c ms).

Lemma same_contents ch ch' :
  ch_s ch' = ch_s ch → ch_f ch' = ch_f ch → ch_n ch' = ch_n ch → ch_v ch' = ch_v ch → contents ch' = contents ch.
Proof.
  intros Hs Hf Hn Hv. unfold contents. rewrite Hn. apply map_seq_ext. intros k _. unfold element, slot. by rewrite Hs, Hf, Hv.
Qed.

Lemma is_queue_same ms ms' c ch ch' :
  history c ms' = history c ms → ch_s ch' = ch_s ch → ch_f ch' = ch_f ch → ch_n ch' = ch_n ch → ch_v ch' = ch_v ch →
  is_queue ms c ch → is_queue ms' c ch'.
Proof.
  unfold is_queue, received, sent. intros -> Hs Hf Hn Hv [H1 H2]. by rewrite Hf, Hs, (same_contents ch ch').
Qed.

Lemma is_queue_quiet ms c ch' w w' :
  quiet w w' → (∀ ch, w_chans w !! c = Some ch → is_queue ms c ch) → w_chans w' !! c = Some ch' → is_queue ms c ch'.
Proof.
  intros [_ Hq] Hall Hc'. specialize (Hq c). rewrite Hc' in Hq. destruct (w_chans w !! c) as [ch|] eqn:Hc; [| done].
  destruct Hq as (? & ? & ? & ? & _). by apply (is_queue_same ms ms c ch); [| | | | | apply Hall].
Qed.

Lemma history_app c ms ms' : history c (ms ++ ms') = fold_left (note c) ms' (history c ms).
Proof. apply fold_left_app. Qed.

Lemma exec_moves_other x w c ch a b h : x ≠ c → fold_left (note x) (exec_moves w c ch a b) h = h.
Proof.
  intros Hne. unfold exec_moves. destruct (a_op a), b; cbn; by rewrite ?decide_False by congruence.
Qed.

Lemma len_snoc {A} (l : list A) x : len (l ++ [x]) = len l + 1.
Proof. rewrite length_app. cbn. lia. Qed.

Lemma wrap_earlier s (n m : Z) ch : ch_s ch = s → ch_f ch = u32 n → 0 ≤ n ≤ m → 0 ≤ s → (s | 2 ^ 32) ∨ m + s < 2 ^ 32 → no_wrap ch.
Proof. intros <- Hf Hn Hs [Hd | Hm]; [by left |]. right. rewrite Hf, u32_small by (ranges; lia). lia. Qed.

(** One operation of alt on its channel. *)
Lemma executed_queue w t th c ch a b w' ms j alts :
  inv w → w_threads w !! t = Some th → idle th → w_chans w !! c = Some ch → own_buffers w t alts → alts !! j = Some a →
  executed w c ch a b w' → is_queue ms c ch →
  ∀ ch', w_chans w' !! c = Some ch' → is_queue (ms ++ exec_moves w c ch a b) c ch'.
Proof.
  intros Hi Ht Hid Hc Hown Hj Hex [(k & Hk & Hf) Hq] ch'. destruct (iv_buf _ Hi _ _ Hc) as (Hb & _).
  pose proof (bf_n _ Hb) as Hn. pose proof (bf_s _ Hb) as Hs.
  unfold is_queue, received, sent in *. rewrite history_app. destruct (history c ms) as [sn rc] eqn:Hh. cbn [fst snd] in *.
  pose proof (λ m, wrap_earlier (ch_s ch) k m ch eq_refl Hf) as Hwrap.
  assert (∀ e thb b', waiter w ch e thb b' → getalt w e = Ok b' ∧ e.1 ≠ t ∧ in_alt thb) as Hget.
  { intros e thb b' Hw. destruct (inv_waiter w c ch e thb b' Hi Hc Hw) as (Hin & _). destruct Hw as (_ & Hl & Ha & _).
    split; [unfold getalt, getthread; rewrite Hl; cbn; by rewrite Ha |]. split; [| done]. intros He. rewrite He in Hl.
    rewrite Ht in Hl. injection Hl as <-. by apply idle_not in Hid as []. }
  assert (ch_n ch = 0 → contents ch = []) as Hnil by (intros Hz; unfold contents; by rewrite Hz).
  destruct Hex as [Ho Hlt _ | Ho Hlt _ | e thb b Ho Hz Hw Hob | e thb b Ho Hz Hw Hob | e thb b m Ho Hlt Hw Hob ->];
    unfold exec_moves; rewrite Ho; cbn [fold_left note fst snd]; rewrite ?(decide_True (P := c = c)) by done; cbn [fst snd];
    try (destruct (Hget _ _ _ Hw) as (Hg & Hne & Hin); rewrite Hg; cbn [fst snd]).
  - cbn. rewrite lookup_insert_eq. intros [= <-]. split; [by exists k |]. intros Hnw. cbn in Hnw.
    rewrite contents_put by (done || (eapply Hwrap; [| | exact Hnw]; lia)). by rewrite app_assoc, Hq.
  - cbn. rewrite lookup_insert_eq. intros [= <-]. cbn. rewrite len_snoc.
    split; [exists (k + 1); split; [lia |]; by rewrite Hf, u32_mod_add |].
    intros Hnw. rewrite <- app_assoc. cbn. rewrite <- contents_got by done. apply Hq. destruct Hnw; [by left | right; lia].
  - cbn. rewrite Hc. intros [= <-]. rewrite len_snoc. split; [exists k; split; [lia | done] |].
    intros Hnw. rewrite Hnil, app_nil_r in * by done. f_equal. apply Hq. destruct Hnw; [by left | right; lia].
  - cbn. rewrite Hc. intros [= <-]. rewrite len_snoc. split; [exists k; split; [lia | done] |].
    intros Hnw. rewrite decide_True by done. rewrite Hnil, app_nil_r in * by done. f_equal. apply Hq. destruct Hnw; [by left | right; lia].
  - cbn. rewrite lookup_insert_eq. intros [= <-]. rewrite (decide_False (P := ch_n ch = 0)) by lia. rewrite len_snoc. cbn.
    split; [exists (k + 1); split; [lia |]; by rewrite Hf, u32_mod_add |].
    intros Hnw. destruct (inv_waiter w c ch e thb b Hi Hc Hw) as (_ & _ & _ & _ & Hfull).
    assert (a_v a ≠ a_v b ∨ a_v a = Pnil) as Hown'.
    { destruct (decide (a_v a = a_v b)) as [He|]; [right | by left]. destruct Hw as (_ & Hl & Ha & _). by eapply (Hown j a e.1 thb e.2 b). }
    rewrite valof_put_other by done. rewrite <- app_assoc. cbn.
    rewrite contents_swapped by (auto || (eapply Hwrap; [| | exact Hnw]; lia)). rewrite app_assoc. f_equal.
    apply Hq. destruct Hnw; [by left | right; lia].
Qed.

Lemma step_queue w ms ms' w' :
  inv w → step w ms' w' → (∀ c ch, w_chans w !! c = Some ch → is_queue ms c ch) →
  ∀ c ch, w_chans w' !! c = Some ch → is_queue (ms ++ ms') c ch.
Proof.
  intros Hi Hstep Hall c ch' Hc'.
  assert (∀ w1, w_chans w1 = w_chans w → quiet w1 w' → ms' = [] → is_queue (ms ++ ms') c ch') as Hquiet.
  { intros w1 Hc1 Hq ->. rewrite app_nil_r. apply (is_queue_quiet ms c ch' w1 w' Hq); [| done]. rewrite Hc1. auto. }
  destruct Hstep as [t th alts nrand nrand' w1 Ht Hid Ha Hown Hn Hn' He | x y thx thy u w1 Hxy Hx Hy Htx Hty He | x th w1 Hx Htag He
    | t th r w1 Ht Hpc He | es ec x c' w1 Hc Hn He | t th x w1 Ht Hid (ch & Hc & _) He | t th x i w1 Ht Hpc He | x w1 Hf He | a l l' Ha Hl].
  - destruct (alt_section w t th alts nrand nrand' Hi Ht Hid Ha Hn Hn') as (w2 & He' & _ & Hdone).
    rewrite He in He'. injection He' as <-. set (th0 := th <| t_alts := alts |>) in *. set (w0 := setthread t th0 w) in *.
    destruct Hdone as [(th1 & i & j & a & x & ch & b & w2 & Ht1 & Hid1 & Hal & Hj & Hac & Hx & Hp & Hex & -> & ->) | [Hm Hq]]; [| by apply (Hquiet w0)].
    assert (inv w0) as Hi0 by (apply (keep_idle w Hi t th th0 Ht Hid); destruct Hid; by eexists).
    assert (own_buffers w0 t alts) as Hown0.
    { intros i' a' u thu j' b' H1 H2 Hu Hl. cbn in Hl. rewrite lookup_insert_ne in Hl by done. by eapply Hown. }
    change (w_chans w2 !! c = Some ch') in Hc'. destruct (decide (c = x)) as [-> | Hne].
    + by apply (executed_queue w0 t th1 x ch a b w2 ms j alts Hi0 Ht1 Hid1 Hx Hown0 Hj Hex); [apply Hall |].
    + assert (w_chans w2 !! c = w_chans w !! c) as Heq by (destruct Hex; cbn; by rewrite ?lookup_insert_ne by done).
      rewrite Heq in Hc'. apply (is_queue_same ms _ c ch'); try done; [| by apply Hall]. rewrite history_app. by apply exec_moves_other.
  - destruct (rendezvous_section w x y thx thy u Hi Hxy Hx Hy Htx Hty) as (w2 & He' & _ & ?). apply (Hquiet w); congruence.
  - destruct (interrupt_section w x th Hi Hx Htag) as (w2 & He' & _ & ?). apply (Hquiet w); congruence.
  - destruct (woken_section w t th r Hi Ht Hpc) as (w2 & He' & _ & ?). apply (Hquiet w); congruence.
  - destruct (create_section w es ec x c' w1 Hi Hc Hn He) as (_ & -> & ->). cbn in Hc'. destruct (decide (x = c)) as [-> | Hne].
    + rewrite lookup_insert_eq in Hc'. injection Hc' as <-. unfold is_queue, received, sent. rewrite history_app. cbn. rewrite decide_True by done.
      cbn. split; [exists 0; split; [lia | done] | done].
    + rewrite lookup_insert_ne in Hc' by done. apply (is_queue_same ms _ c ch'); try done; [| by apply Hall].
      rewrite history_app. cbn. by rewrite decide_False by done.
  - destruct (chanclose_section w t th x Hi Ht Hid) as (w2 & He' & _ & ?); [eauto |]. apply (Hquiet w); congruence.
  - destruct (iv_close _ Hi t th x i Ht) as (ch & Hc & Hcl); [by left |].
    destruct (close_section w t th x i ch Ht) as (w2 & He' & _ & ?); [by intros [? | [? ?]]; congruence | done | done | by rewrite setpc_same |].
    apply (Hquiet w); congruence.
  - destruct (free_section w x Hi Hf) as (w2 & He' & _ & ?). apply (Hquiet w); congruence.
  - rewrite app_nil_r. by apply Hall.
Qed.

Lemma runs_queue w0 ms w : starting w0 → runs w0 ms w → ∀ c ch, w_chans w !! c = Some ch → is_queue ms c ch.
Proof.
  intros H0 Hr. pose proof (λ ms w, runs_inv w0 ms w H0) as Hi. induction Hr as [|ms w1 ms' w2 Hr IH Hs].
  - destruct H0 as [Hc _]. rewrite Hc. done.
  - intros c ch. apply (step_queue w1 ms ms' w2); [by eapply Hi | done | done].
Qed.
