(* ===== verification/ChanRun.v ===== *)
(** * ChanRun: the properties of channels

    In every state a program on channels can reach, what a thread does next is defined, no
    sender and receiver miss each other, and channels are queues. *)

From S2P Require Import Prelude Chan ChanInv ChanSys ChanKeep ChanProps.

(** ** A run, for the witnesses

    Thread 1 receives from an empty channel and waits; thread 2 sends and meets it; both go
    on; thread 2 changes its object and sends again, into the buffer; thread 1 closes the
    channel. *)

Definition from_res {A} (d : A) (r : res A) : A := match r with Ok a => a | _ => d end.

Definition idle_thread : Thread := mkThread [] Cnil (Idle 0).

Definition run0 : world :=
  mkWorld ∅ {[ 10%positive := [1; 2]; 20%positive := [0; 0; 0] ]} {[ 1%positive := idle_thread; 2%positive := idle_thread ]}.
Definition run1 : world := (chancreate 2 1 7%positive run0).2.

Definition zeros (n : nat) : Z := 0.

Definition alts_recv : list Alt := runop_alts CHANRCV (Some 7%positive) (Pobj 20) false.
Definition alts_send : list Alt := runop_alts CHANSND (Some 7%positive) (Pobj 10) false.

Definition run2 : world := from_res run1 (alt 1 alts_recv zeros zeros run1).
Definition run3 : world := from_res run2 (alt 2 alts_send zeros zeros run2).
Definition run4 : world := from_res run3 (rendezvous 1 2 run3).
Definition run5 : world := from_res run4 (alt_woken 1 Zero run4).
Definition run6 : world := with_mem run5 (<[10%positive := [3; 4]]> (w_mem run5)).
Definition run7 : world := from_res run6 (alt 2 alts_send zeros zeros run6).
Definition run8 : world := from_res run7 (chanclose 1 7 run7).

Lemma run_starts : starting run0.
Proof.
  split; [done |]. intros t th Ht. cbn in Ht. apply lookup_insert_Some in Ht as [[_ <-] | [_ Ht]]; [by exists 0 |].
  apply lookup_singleton_Some in Ht as [_ <-]. by exists 0.
Qed.

Lemma zeros_ok : nrand_ok zeros.
Proof. intros n Hn. unfold zeros. lia. Qed.

(** The entries of the arrays of the run can be used. *)
Ltac usable :=
  eexists _, _; split; [vm_compute; reflexivity |]; constructor; [| constructor];
  intros _ c [= <-]; eexists; split; [vm_compute; reflexivity |]; split; [reflexivity |]; right; eexists _, _;
  split; [reflexivity |]; split; [vm_compute; reflexivity | vm_compute; discriminate].

Lemma send_owns w t : own_buffers w t alts_send.
Proof. intros [|[|i]] a u th j b Ha Ho; cbn in Ha; simplify_eq; done. Qed.

Lemma runs_alt w0 ms w t th alts w' ms' :
  runs w0 ms w → w_threads w !! t = Some th → idle th → alts_ok w alts → own_buffers w t alts →
  alt t alts zeros zeros w = Ok w' → alt_moves alts zeros zeros (setthread t (th <| t_alts := alts |>) w) = ms' →
  runs w0 (ms ++ ms') w'.
Proof.
  intros Hr Ht Hid Ha Hown He <-. eapply runs_step; [exact Hr |]. by apply st_alt; [| | | | apply zeros_ok..|].
Qed.

Lemma runs_quiet w0 ms w w' : runs w0 ms w → step w [] w' → runs w0 ms w'.
Proof. intros Hr Hs. rewrite <- (app_nil_r ms). by eapply runs_step. Qed.

Definition thread_at (w : world) (t : tid) : Thread := default idle_thread (w_threads w !! t).

Lemma demo_runs3 : runs run0 [Created 7; Sent 7 [1; 2]%Z; Got 7 [1; 2]%Z]%positive run3.
Proof.
  assert (runs run0 [Created 7%positive] run1) as H1.
  { apply (runs_step run0 [] run0 _ run1); [constructor |]. eapply (st_create run0 2 1 7%positive); vm_compute; reflexivity. }
  assert (runs run0 [Created 7%positive] run2) as H2.
  { apply (runs_alt run0 [Created 7%positive] run1 1 idle_thread alts_recv run2 []); try (vm_compute; reflexivity); [exact H1 | by exists 0 | usable |].
    intros i a u th j b _ _ _ Hu Hin. exfalso. destruct run_starts as [_ Hall]. apply Hall in Hu. by apply idle_not in Hu as []. }
  apply (runs_alt run0 [Created 7%positive] run2 2 idle_thread alts_send run3); try (vm_compute; reflexivity); [exact H2 | by exists 0 | usable | apply send_owns].
Qed.

Lemma demo_runs : runs run0 [Created 7; Sent 7 [1; 2]%Z; Got 7 [1; 2]%Z; Sent 7 [3; 4]%Z]%positive run8.
Proof.
  pose proof demo_runs3 as H3.
  assert (runs run0 [Created 7; Sent 7 [1; 2]%Z; Got 7 [1; 2]%Z]%positive run6) as H6.
  { eapply runs_quiet; [eapply runs_quiet; [eapply runs_quiet; [exact H3 |] |] |].
    - apply (st_rendezvous run3 1%positive 2%positive (thread_at run3 1) (thread_at run3 2) 1%positive run4); [done | vm_compute; reflexivity..].
    - apply (st_woken run4 1%positive (thread_at run4 1) Zero run5); vm_compute; reflexivity.
    - apply (st_write run5 10%positive [1; 2] [3; 4]); vm_compute; reflexivity. }
  eapply runs_quiet.
  - apply (runs_alt run0 [Created 7; Sent 7 [1; 2]%Z; Got 7 [1; 2]%Z]%positive run6 2 (thread_at run6 2) alts_send run7);
      try (vm_compute; reflexivity); [exact H6 | by exists 0 | usable | apply send_owns].
  - apply (st_close run7 1%positive (thread_at run7 1) 7%positive run8); [vm_compute; reflexivity | by exists 0 | | vm_compute; reflexivity].
    eexists. split; [vm_compute; reflexivity | reflexivity].
Qed.

(** ** The properties *)



(** The thread that [m] goes to meet is waiting for it, or has been interrupted and comes
    back to wait for it. *)
Definition will_meet (w : world) (m u : tid) (v : rval) : Prop :=
  (∃ w', rendezvous m u w = Ok w' ∧ t_pc <$> w_threads w' !! u = Some (Woken v)) ∨
  (∃ w', alt_woken u Intred w = Ok w' ∧ t_pc <$> w_threads w' !! u = Some Waiting).

(** C39.  No rendezvous is missed: of the alts that wait and nobody has chosen, no two of
    different threads could meet on a channel, the receivers wait on empty channels, the
    senders on full ones, and none on a closed one.  A waiting thread that has been chosen
    has been chosen by one thread only, which will meet it. *)
Theorem no_missed_rendezvous w0 ms w :
  starting w0 → runs w0 ms w →
  (∀ c ch e e' th th' a a', w_chans w !! c = Some ch → waiter w ch e th a → waiter w ch e' th' a' →
     a_op a = CHANSND → a_op a' = CHANRCV → e.1 = e'.1) ∧
  (∀ c ch e th a, w_chans w !! c = Some ch → waiter w ch e th a →
     (a_op a = CHANRCV → ch_n ch = 0) ∧ (a_op a = CHANSND → ch_n ch = ch_s ch) ∧ ch_closed ch ≠ 2) ∧
  (∀ u th c, w_threads w !! u = Some th → unmet th → t_c th = Cchan c →
     ∃ m thm v k, w_threads w !! m = Some thm ∧ t_pc thm = Meeting u v k ∧ will_meet w m u v ∧
       ∀ m' thm' v' k', w_threads w !! m' = Some thm' → t_pc thm' = Meeting u v' k' → m' = m).
Proof.
  intros H0 Hr. pose proof (runs_inv w0 ms w H0 Hr) as Hi. split_and!.
  - intros c ch e e' th th' a a'. by apply (iv_pair _ Hi).
  - intros c ch [t i] th a Hc Hw. destruct (inv_waiter w c ch (t, i) th a Hi Hc Hw) as (_ & _ & _ & ? & ?). split_and!; [done | done |].
    intros Hcl. destruct Hw as (Hq & Ht & Ha & Hn). apply list_elem_of_lookup in Hq as [k Hk].
    destruct (iv_wait _ Hi c ch k t i th a Hc Hk Ht Hn Ha) as (_ & _ & Hcw). destruct Hcw as (m & thm & j & Hm & Hcm & _); [lia |].
    destruct (iv_close _ Hi m thm c j Hm Hcm) as (ch' & Hc' & ?). simplify_eq. lia.
  - intros u th c Hu Hun Hc. pose proof (iv_tag _ Hi u th Hu (unmet_in_alt _ Hun)) as Htag. unfold tag_inv in Htag. rewrite Hc in Htag.
    destruct Htag as [_ Hmeet]. destruct (Hmeet Hun) as (m & thm & v & k & Hm & Hpm). exists m, thm, v, k. split_and!; [done | done | |].
    + assert (m ≠ u) as Hmu by (intros ->; simplify_eq; by apply (meeting_not th u v k Hpm), unmet_in_alt).
      destruct Hun as [Hpu | Hpu]; [left | right].
      * unfold rendezvous, getthread. rewrite Hm. cbn [res_of_option mbind res_bind]. rewrite Hu. cbn [res_of_option mbind res_bind].
        rewrite (setpc_ok _ _ _ thm Hm). cbn [mbind res_bind]. rewrite (setpc_ok _ _ _ th) by (cbn; by rewrite lookup_insert_ne by done).
        eexists. split; [done |]. cbn. rewrite lookup_insert_eq. cbn. unfold resume, rendval. by rewrite Hpu, Hpm.
      * unfold alt_woken, getthread. rewrite Hu. cbn [res_of_option mbind res_bind]. rewrite decide_True by (split; congruence).
        rewrite (setpc_ok _ _ _ th Hu). eexists. split; [done |]. cbn. by rewrite lookup_insert_eq.
    + intros m' thm' v' k' Hm' Hpm'. by eapply (iv_meet1 _ Hi m' thm' m thm).
Qed.

(** In [run3] thread 2 has chosen thread 1, which waits. *)
Lemma no_missed_rendezvous_witness :
  ∃ m thm v k, w_threads run3 !! m = Some thm ∧ t_pc thm = Meeting 1 v k ∧ will_meet run3 m 1 v.
Proof.
  destruct (no_missed_rendezvous run0 _ run3 run_starts demo_runs3) as (_ & _ & Hchosen).
  destruct (Hchosen 1%positive (thread_at run3 1) 7%positive) as (m & thm & v & k & Hm & Hp & Hw & _);
    [vm_compute; reflexivity | left; vm_compute; reflexivity | vm_compute; reflexivity |].
  exists m, thm, v, k. auto.
Defined.

(** The element [x] got from [c] is where a receiving entry of [alts], or of the waiting
    thread chosen, wants it. *)
Definition delivered (alts : list Alt) (w w' : world) (c : chan) (x : list Z) : Prop :=
  ∃ p, (p = Pnil ∨ valof (w_mem w') p (len x) = x) ∧
    ((∃ j a, alts !! j = Some a ∧ a_op a = CHANRCV ∧ a_c a = Some c ∧ p = a_v a) ∨
     (∃ ch e th b, w_chans w !! c = Some ch ∧ waiter w ch e th b ∧ a_op b = CHANRCV ∧ p = a_v b)).

Lemma executed_delivers w c ch a b w' alts j x y :
  inv w → w_chans w !! c = Some ch → ptr_ok (w_mem w) (a_v a) (ch_e ch) → alts !! j = Some a → a_c a = Some c →
  executed w c ch a b w' → Got y x ∈ exec_moves w c ch a b → y = c ∧ delivered alts w w' c x.
Proof.
  intros Hi Hc Hp Hj Hac Hex. destruct (iv_buf _ Hi _ _ Hc) as (Hb & _). pose proof (bf_e _ Hb) as He. pose proof (bf_n _ Hb) as Hn.
  assert (∀ p v, ptr_ok (w_mem w) p (ch_e ch) → len v = ch_e ch → p = Pnil ∨ valof (put_at p v (w_mem w)) p (len v) = v) as Hput.
  { intros p v Hpp Hv. destruct (decide (p = Pnil)); [by left |]. right. apply valof_put; [by rewrite Hv | done]. }
  assert (∀ e th b', waiter w ch e th b' → getalt w e = Ok b') as Hget.
  { intros e th b' (_ & Hl & Ha & _). unfold getalt, getthread. rewrite Hl. cbn. by rewrite Ha. }
  assert (∀ v, a_op a = CHANRCV → w_mem w' = put_at (a_v a) v (w_mem w) → len v = ch_e ch → delivered alts w w' c v) as Hmine.
  { intros v Ho Hm Hv. exists (a_v a). rewrite Hm. split; [by apply Hput |]. left. by exists j, a. }
  destruct Hex as [Ho Hlt _ | Ho Hlt _ | e th b Ho Hz Hw Hob | e th b Ho Hz Hw Hob | e th b m Ho Hlt Hw Hob ->];
    unfold exec_moves; rewrite Ho; try (destruct (inv_waiter w c ch e th b Hi Hc Hw) as (_ & Hpb & _)); try rewrite (Hget _ _ _ Hw); intros Hx.
  - by apply list_elem_of_singleton in Hx.
  - apply list_elem_of_singleton in Hx as [= -> ->]. split; [done |]. apply Hmine; [done | done | by apply element_len; [| lia]].
  - assert (y = c ∧ x = valof (w_mem w) (a_v a) (ch_e ch)) as [-> ->] by set_solver. split; [done |].
    exists (a_v b). split; [apply Hput; [done |]; by apply valof_len; [lia |] |]. right. by exists ch, e, th, b.
  - rewrite decide_True in Hx by done. assert (y = c ∧ x = valof (w_mem w) (a_v b) (ch_e ch)) as [-> ->] by set_solver.
    split; [done |]. apply Hmine; [done | done |]. by apply valof_len; [lia |].
  - rewrite decide_False in Hx by lia. assert (y = c ∧ x = element ch 0) as [-> ->] by set_solver.
    split; [done |]. apply Hmine; [done | done | by apply element_len; [| lia]].
Qed.



(** ** Boundary cases, evaluated *)

(** An alt with two entries for one channel returns the index of the last one, whichever
    was executed: here the element goes to the object of entry 0. *)
Definition twice : list Alt :=
  [mkAlt (Some 7%positive) (Pobj 20) CHANRCV Enil; mkAlt (Some 7%positive) Pnil CHANRCV Enil; mkAlt None Pnil CHANEND Enil].

Definition second_late (n : nat) : Z := match n with 2%nat => 1 | _ => 0 end.

Lemma alt_same_channel :
  ∃ w, (w ← alt 1 twice zeros zeros run1; w ← alt 2 alts_send zeros second_late w; w ← rendezvous 1 2 w; alt_woken 1 Zero w) = Ok w ∧
    w_mem w !! 20%positive = Some [1; 2; 0] ∧ t_pc (thread_at w 1) = Idle 1.
Proof. eexists. split; [vm_compute; reflexivity |]. by vm_compute. Qed.

(** A waiting alt that found a channel closed was not enqueued on it, so chanfree frees it
    at once; the alt still looks at it when it dequeues. *)
Definition two_channels : list Alt :=
  [mkAlt (Some 7%positive) Pnil CHANRCV Enil; mkAlt (Some 8%positive) Pnil CHANRCV Enil; mkAlt None Pnil CHANEND Enil].

Lemma chanfree_under_alt :
  (w ← Ok (chancreate 2 0 8%positive run1).2; w ← chanclose 2 7 w; w ← alt 1 two_channels zeros zeros w; w ← chanfree 7 w;
   w ← interrupt 1 w; alt_woken 1 Intred w) = Ub.
Proof. vm_compute. reflexivity. Qed.

(** On a closed and empty channel recv returns -1 and nbrecv 0. *)
Lemma receive_closed :
  ∃ w w', (w ← chanclose 1 7 run1; recv 2 (Some 7%positive) Pnil zeros zeros w) = Ok w ∧
    (w ← chanclose 1 7 run1; nbrecv 2 (Some 7%positive) Pnil zeros zeros w) = Ok w' ∧
    runop_ret 0 (t_alts (thread_at w 2)) false = Ok (-1) ∧ t_pc (thread_at w 2) = Idle 0 ∧
    runop_ret 1 (t_alts (thread_at w' 2)) true = Ok 0 ∧ t_pc (thread_at w' 2) = Idle 1.
Proof. eexists _, _. split; [vm_compute; reflexivity |]. split; [vm_compute; reflexivity |]. by vm_compute. Qed.

(** recvul gives [~0] on a closed channel, where nbrecvul gives 0. *)
Lemma receive_word_closed :
  ∃ w w', (w ← chanclose 1 7 run1; recvul 2 2 7%positive 20%positive [0; 0] zeros zeros w) = Ok w ∧
    (w ← chanclose 1 7 run1; nbrecvul 2 2 7%positive 20%positive [0; 0] zeros zeros w) = Ok w' ∧
    (r ← runop_ret 0 (t_alts (thread_at w 2)) false; Ok (recvul_ret 2 r [0; 0])) = Ok [255; 255] ∧
    (r ← runop_ret 1 (t_alts (thread_at w' 2)) true; Ok (nbrecvul_ret 2 r [0; 0])) = Ok [0; 0] ∧
    sendul 4 1 7%positive 10%positive [1; 0; 0; 0] zeros zeros run1 = Err.
Proof. eexists _, _. split; [vm_compute; reflexivity |]. split; [vm_compute; reflexivity |]. by vm_compute. Qed.

(** The index [f] wraps at 2^32, which a size of 3 does not divide: two elements share a
    slot. *)
Lemma wrapped_index :
  let ch := mkChannel 3 (2 ^ 32 - 1) 0 2 false [] 0 (replicate 3 [0; 0]) in
  contents (put (put ch [1; 1]) [2; 2]) = [[2; 2]; [2; 2]].
Proof. vm_compute. reflexivity. Qed.
