(* ===== verification/Filetree.v ===== *)
(** * Filetree: the file trees of lib9p

    sys/src/lib9p/file.c, and hasperm of uid.c.

    Files live in a heap indexed by address; a freed File goes to the free list and using it
    is [Ub], as is following a nil pointer.  A failed assertion is [Err].  The list of a
    directory, linked through Filelist cells, is the list of its cells: the address of each
    and the file it holds, nil once that has been removed.  A Readdir points to the cell it
    will read next, so its [fl] is the address of a cell, and reading through a cell that
    has been freed is [Ub].  Addresses of cells, Readdirs and Trees come from [w_next] and
    are not used again; those of Files come from the free list.

    The locks of files are not represented: what runs under one lock is one definition, and
    taking the lock of a file that has been freed is [Ub].  removefile, walkfile1 and
    closedirfile do some of their work outside their lock, so each of them is composed of
    a definition for what they do under it and others.  readdirfile takes no lock, and is one
    definition all the same.  [destroy],
    which the program supplies, is recorded in [w_gone]; it does not touch the tree.  The
    member aux, which file.c only stores, and allocd, which it never reads, are left out. *)

From stdpp Require Import strings.
From S2P Require Import Prelude Bytes Fcall Stat Rune Srv.

(** ** Data *)

Definition QTAPPEND : Z := 0x40.
Definition QTEXCL : Z := 0x20.
Definition DMAPPEND : Z := 0x40000000.
Definition DMEXCL : Z := 0x20000000.

(** A cell: its address, and [f]. *)
Abbreviation cell := (addr * option addr)%type.

Record File : Type := mkFile {
  fl_ref : Z;
  fl_dir : Dir;
  fl_parent : option addr;
  fl_filelist : list cell;
  fl_tree : addr;
  fl_nchild : Z;
  fl_nxchild : Z;
  fl_readers : Z
}.

#[export] Instance File_rebuild : Rebuild File := λ f,
  mkFile (fl_ref f) (fl_dir f) (fl_parent f) (fl_filelist f) (fl_tree f) (fl_nchild f) (fl_nxchild f) (fl_readers f).

Record Tree : Type := mkTree { t_root : addr; t_qidgen : Z; t_dirqidgen : Z }.

#[export] Instance Tree_rebuild : Rebuild Tree := λ t, mkTree (t_root t) (t_qidgen t) (t_dirqidgen t).

Record Readdir : Type := mkReaddir { rd_dir : addr; rd_fl : option addr }.

#[export] Instance Readdir_rebuild : Rebuild Readdir := λ r, mkReaddir (rd_dir r) (rd_fl r).

Record world : Type := mkWorld {
  w_files : gmap addr File;
  w_trees : gmap addr Tree;
  w_rdirs : gmap addr Readdir;
  w_free : list addr;
  w_next : addr;
  w_gone : list addr
}.

#[export] Instance world_rebuild : Rebuild world := λ w,
  mkWorld (w_files w) (w_trees w) (w_rdirs w) (w_free w) (w_next w) (w_gone w).

Definition world0 : world := mkWorld ∅ ∅ ∅ [] 1%positive [].

Definition getfile (w : world) (f : addr) : res File := res_of_option (w_files w !! f).
Definition setfile (f : addr) (x : File) (w : world) : world := w <| w_files := <[f := x]> (w_files w) |>.
Definition modfile (f : addr) (g : File → File) (w : world) : res world :=
  x ← getfile w f; Ok (setfile f (g x) w).

Definition malloc (w : world) : addr * world := (w_next w, w <| w_next := Pos.succ (w_next w) |>).

(** [strdup], which does not check for nil. *)
Definition estrdup9p (s : cptr) : res cptr := match s with Some _ => Ok s | None => Ub end.

(** ** Allocation *)

Definition file0 : File := mkFile 0 dir0 None [] 1%positive 0 0 0.

(** The addresses [a+1, ..., a+n]. *)
Fixpoint after (n : nat) (a : addr) : list addr :=
  match n with O => [] | S n => Pos.succ a :: after n (Pos.succ a) end.

Definition NFILE : nat := 16.

(** A File from the free list, or the first of a block of 16 new ones, cleared. *)
Definition allocfile (w : world) : addr * world :=
  let '(f, w) :=
    match w_free w with
    | f :: free => (f, w <| w_free := free |>)
    | [] => let f := w_next w in
            (f, w <| w_free := after (NFILE - 1) f |> <| w_next := (f + Pos.of_nat NFILE)%positive |>)
    end in
  (f, setfile f file0 w).

Definition freefile (f : addr) (w : world) : res world :=
  x ← getfile w f;
  if decide (Exists (λ c : cell, is_Some c.2) (fl_filelist x)) then Err else
  if decide (fl_ref x ≠ 0) then Err else
  Ok (w <| w_files := delete f (w_files w) |> <| w_free := f :: w_free w |>).

Definition cleanfilelist (f : addr) (w : world) : res world :=
  x ← getfile w f;
  if decide (fl_readers x ≠ 0) then Ok w else
  if decide (fl_nxchild x = 0) then Ok w else
  Ok (setfile f (x <| fl_filelist := filter (λ c : cell, is_Some c.2) (fl_filelist x) |> <| fl_nxchild := 0 |>) w).

(** ** References *)

Definition incref (f : addr) (w : world) : res world := modfile f (λ x, x <| fl_ref := fl_ref x + 1 |>) w.

Definition closefile (f : addr) (w : world) : res world :=
  x ← getfile w f;
  let w := setfile f (x <| fl_ref := fl_ref x - 1 |>) w in
  if decide (fl_ref x - 1 = 0) then freefile f (w <| w_gone := w_gone w ++ [f] |>) else Ok w.

(** ** removefile *)

(** Up to the locks: an error string, or the parent it has seen. *)
Definition removefile_begin (f : addr) (w : world) : res (list Z + addr) :=
  x ← getfile w f;
  match fl_parent x with
  | None => Ok (inl (str "no parent"))
  | Some fp => if decide (fp = f) then Ok (inl (str "cannot remove root")) else Ok (inr fp)
  end.

(** [fl->f = nil] in the first cell that holds [f]; none would fail the assertion. *)
Fixpoint clearcell (f : addr) (l : list cell) : option (list cell) :=
  match l with
  | [] => None
  | c :: l => if decide (c.2 = Some f) then Some ((c.1, None) :: l) else l ← clearcell f l; Some (c :: l)
  end.

(** With the locks of [f] and of [fp], the parent seen before, which must still be there
    to be locked: an error string, or nil. *)
Definition removefile_locked (f fp : addr) (w : world) : res (cptr * world) :=
  x ← getfile w f;
  p ← getfile w fp;
  if decide (fl_nchild x ≠ 0) then Ok (Some (str "has children"), w) else
  if decide (fl_parent x ≠ Some fp) then Ok (Some (str "parent changed underfoot"), w) else
  match clearcell f (fl_filelist p) with
  | None => Err
  | Some l =>
      let w := setfile fp (p <| fl_filelist := l |> <| fl_nchild := fl_nchild p - 1 |> <| fl_nxchild := fl_nxchild p + 1 |>) w in
      w ← modfile f (λ x, x <| fl_parent := None |>) w;
      w ← cleanfilelist fp w;
      Ok (None, w)
  end.

Definition removefile (f : addr) (w : world) : res (cptr * world) :=
  r ← removefile_begin f w;
  match r with
  | inl e => w ← closefile f w; Ok (Some e, w)
  | inr fp =>
      '(e, w) ← removefile_locked f fp w;
      match e with
      | Some e => w ← closefile f w; Ok (Some e, w)
      | None => w ← closefile fp w; w ← closefile f w; w ← closefile f w; Ok (None, w)
      end
  end.

(** ** createfile *)

(** [fl->f && strcmp(fl->f->name, name) == 0], for the first cell. *)
Fixpoint findname (w : world) (l : list cell) (name : list Z) : res (option addr) :=
  match l with
  | [] => Ok None
  | (_, None) :: l => findname w l name
  | (_, Some g) :: l =>
      x ← getfile w g;
      n ← res_of_option (d_name (fl_dir x));
      if decide (n = name) then Ok (Some g) else findname w l name
  end.

Definition qidtype (perm : Z) : Z :=
  let t := if decide (Z.land perm DMDIR ≠ 0) then QTDIR else 0 in
  let t := if decide (Z.land perm DMAPPEND ≠ 0) then Z.lor t QTAPPEND else t in
  if decide (Z.land perm DMEXCL ≠ 0) then Z.lor t QTEXCL else t.

(** [now] is time(0). *)
Definition createfile (fp : addr) (name : list Z) (uid : cptr) (perm now : Z) (w : world) : res ((list Z + addr) * world) :=
  p ← getfile w fp;
  if decide (Z.land (q_type (d_qid (fl_dir p))) QTDIR = 0) then Ok (inl (str "create in non-directory"), w) else
  g ← findname w (fl_filelist p) name;
  if g is Some _ then Ok (inl (str "file already exists"), w) else
  let '(fl, w) := malloc w in
  let '(f, w) := allocfile w in
  uid' ← estrdup9p (if uid is Some _ then uid else d_uid (fl_dir p));
  gid' ← estrdup9p (d_gid (fl_dir p));
  muid' ← estrdup9p (if uid is Some _ then uid else Some (str "unknown"));
  t ← res_of_option (w_trees w !! fl_tree p);
  let w := w <| w_trees := <[fl_tree p := t <| t_qidgen := u32 (t_qidgen t + 1) |>]> (w_trees w) |> in
  let dir := dir0 <| d_name := Some name |> <| d_uid := uid' |> <| d_gid := gid' |> <| d_muid := muid' |>
                  <| d_qid := mkQid (t_qidgen t) 0 (qidtype perm) |> <| d_mode := perm |>
                  <| d_atime := now |> <| d_mtime := now |> <| d_length := 0 |> in
  let w := setfile f (file0 <| fl_dir := dir |> <| fl_parent := Some fp |> <| fl_tree := fl_tree p |> <| fl_ref := 2 |>) w in
  let w := setfile fp (p <| fl_ref := fl_ref p + 1 |> <| fl_filelist := fl_filelist p ++ [(fl, Some f)] |>
                         <| fl_nchild := fl_nchild p + 1 |>) w in
  Ok (inr f, w).

(** ** Walking *)

(** With the lock of [dir]. *)
Definition walkfile1_locked (dir : addr) (elem : list Z) (w : world) : res (option addr * world) :=
  x ← getfile w dir;
  if decide (elem = str "..") then
    fp ← res_of_option (fl_parent x);
    w ← incref fp w;
    Ok (Some fp, w)
  else
    g ← findname w (fl_filelist x) elem;
    w ← (if g is Some fp then incref fp w else Ok w);
    Ok (g, w).

Definition walkfile1 (dir : addr) (elem : list Z) (w : world) : res (option addr * world) :=
  '(g, w) ← walkfile1_locked dir elem w;
  w ← closefile dir w;
  Ok (g, w).

Definition slash : Z := 47.

(** [s] up to its first slash, and what follows that. *)
Definition nextelem (s : list Z) : res (list Z * list Z) :=
  o ← strchr (s ++ [0]) slash;
  match o with Some o => Ok (takeZ o s, dropZ (o + 1) s) | None => Ok (s, []) end.

Fixpoint walk_elems (fuel : nat) (f : addr) (s : list Z) (w : world) : res (option addr * world) :=
  match fuel with
  | O => Ub
  | S fuel =>
      if decide (s = []) then Ok (Some f, w) else
      '(elem, nexts) ← nextelem s;
      '(g, w) ← walkfile1 f elem w;
      match g with Some g => walk_elems fuel g nexts w | None => Ok (None, w) end
  end.

Definition walkfile (f : addr) (path : cptr) (w : world) : res (option addr * world) :=
  path ← res_of_option path;
  o ← strchr (path ++ [0]) slash;
  if o is None then walkfile1 f path w else walk_elems (S (length path)) f path w.

(** ** Trees *)

(** [user] is what getuser returns; the tree and its root. *)
Definition alloctree (uid gid : cptr) (mode : Z) (user : cptr) (now : Z) (w : world) : res (addr * world) :=
  let '(t, w) := malloc w in
  let '(f, w) := allocfile w in
  let uid := if uid is Some _ then uid else if user is Some _ then user else Some (str "none") in
  uid ← estrdup9p uid;
  gid ← estrdup9p (if gid is Some _ then gid else uid);
  muid ← estrdup9p uid;
  let dir := dir0 <| d_name := Some (str "/") |> <| d_qid := mkQid 0 0 QTDIR |> <| d_length := 0 |>
                  <| d_atime := now |> <| d_mtime := now |> <| d_mode := Z.lor DMDIR mode |>
                  <| d_uid := uid |> <| d_gid := gid |> <| d_muid := muid |> in
  let w := setfile f (file0 <| fl_dir := dir |> <| fl_tree := t |> <| fl_parent := Some f |> <| fl_ref := 1 |>) w in
  Ok (t, w <| w_trees := <[t := mkTree f 0 1]> (w_trees w) |>).

(** The cells are freed one by one but stay linked from the File, and freefile follows
    them. *)
Fixpoint _freefiles (fuel : nat) (f : addr) (w : world) : res world :=
  match fuel with
  | O => Ub
  | S fuel =>
      x ← getfile w f;
      let fix go (l : list cell) (w : world) : res world :=
        match l with
        | [] => Ok w
        | c :: l => g ← res_of_option c.2; w ← _freefiles fuel g w; go l w
        end in
      w ← go (fl_filelist x) w;
      if decide (fl_filelist x ≠ []) then Ub else freefile f (w <| w_gone := w_gone w ++ [f] |>)
  end.

Definition freetree (t : addr) (w : world) : res world :=
  t' ← res_of_option (w_trees w !! t);
  w ← _freefiles (S (size (w_files w))) (t_root t') w;
  Ok (w <| w_trees := delete t (w_trees w) |>).

(** ** Reading directories *)

Definition opendirfile (dir : addr) (w : world) : res (option addr * world) :=
  x ← getfile w dir;
  if decide (Z.land (d_mode (fl_dir x)) DMDIR = 0) then Ok (None, w) else
  let '(r, w) := malloc w in
  let w := w <| w_rdirs := <[r := mkReaddir dir (fst <$> head (fl_filelist x))]> (w_rdirs w) |> in
  Ok (Some r, setfile dir (x <| fl_readers := fl_readers x + 1 |>) w).

(** The cells from the one at [c] on. *)
Fixpoint cells_from (c : addr) (l : list cell) : res (list cell) :=
  match l with
  | [] => Ub
  | d :: l' => if decide (d.1 = c) then Ok l else cells_from c l'
  end.

(** The loop, with [n] bytes left: the bytes stored, and the cells not read. *)
Fixpoint readdir_loop (w : world) (l : list cell) (n : Z) : res (list Z * list cell) :=
  match l with
  | [] => Ok ([], [])
  | c :: l' =>
      if decide (¬ 2 ≤ n) then Ok ([], l) else
      match c.2 with
      | None => readdir_loop w l' n
      | Some g =>
          x ← getfile w g;
          match convD2M (fl_dir x) n with
          | Ub => Ub
          | Err => Ok ([], l)
          | Ok (k, b) =>
              if decide (k ≤ BIT16SZ) then Ok ([], l) else
              '(bs, l) ← readdir_loop w l' (n - k); Ok (b ++ bs, l)
          end
      end
  end.

Definition readdirfile (r : addr) (n : Z) (w : world) : res (list Z * world) :=
  rd ← res_of_option (w_rdirs w !! r);
  match rd_fl rd with
  | None => Ok ([], w)
  | Some c =>
      x ← getfile w (rd_dir rd);
      l ← cells_from c (fl_filelist x);
      '(b, l) ← readdir_loop w l n;
      Ok (b, w <| w_rdirs := <[r := rd <| rd_fl := fst <$> head l |>]> (w_rdirs w) |>)
  end.

(** Whether the directory has to be cleaned: this was its last reader. *)
Definition closedirfile_begin (r : addr) (w : world) : res (bool * world) :=
  rd ← res_of_option (w_rdirs w !! r);
  x ← getfile w (rd_dir rd);
  Ok (bool_decide (fl_readers x - 1 = 0), setfile (rd_dir rd) (x <| fl_readers := fl_readers x - 1 |>) w).

Definition closedirfile_end (r : addr) (clean : bool) (w : world) : res world :=
  rd ← res_of_option (w_rdirs w !! r);
  w ← (if clean then cleanfilelist (rd_dir rd) w else Ok w);
  Ok (w <| w_rdirs := delete r (w_rdirs w) |>).

Definition closedirfile (r : addr) (w : world) : res world :=
  '(clean, w) ← closedirfile_begin r w; closedirfile_end r clean w.

(** ** Permissions *)

(** strcmp with a nil [uid] or [gid] faults. *)
Definition hasperm (x : File) (uid : list Z) (p : Z) : res bool :=
  let m := Z.land (d_mode (fl_dir x)) 7 in
  if decide (Z.land p m = p) then Ok true else
  u ← res_of_option (d_uid (fl_dir x));
  let m := if decide (u = uid) then Z.lor m (Z.land (d_mode (fl_dir x) ≫ 6) 7) else m in
  if decide (u = uid ∧ Z.land p m = p) then Ok true else
  g ← res_of_option (d_gid (fl_dir x));
  let m := if decide (g = uid) then Z.lor m (Z.land (d_mode (fl_dir x) ≫ 3) 7) else m in
  Ok (bool_decide (g = uid ∧ Z.land p m = p)).
