(* ===== verification/FiletreeInv.v ===== *)
(** * FiletreeInv: the invariant of a file tree

    Who refers to a File: its parent, as a child; its children; and the program, through
    the files, Readdirs and calls of removefile in its hands.  The reference counts are the
    numbers of these, parents and children agree, and the counters of children, of empty
    cells and of readers are right. *)

From stdpp Require Import strings.
From S2P Require Import Prelude Bytes Fcall Stat Rune RuneProps Srv Filetree.

(** ** What the program holds *)

(** A reference to a file; a Readdir with the reference to its directory under which it
    was opened; the same, between the two halves of closedirfile; a file being removed,
    with the parent that was seen. *)
Inductive hold : Type :=
  | Hfile (f : addr)
  | Hdir (r f : addr)
  | Hclosing (r f : addr) (clean : bool)
  | Hremove (f fp : addr).

Definition hold_file (h : hold) : addr :=
  match h with Hfile f | Hdir _ f | Hclosing _ f _ | Hremove f _ => f end.

Definition hold_rdir (h : hold) : option addr :=
  match h with Hdir r _ | Hclosing r _ _ => Some r | _ => None end.

Definition reads (f : addr) (h : hold) : bool :=
  match h with Hdir _ g => bool_decide (g = f) | _ => false end.

Definition count (P : hold → bool) (hs : list hold) : Z := Z.of_nat (length (filter P hs)).

Definition refs (f : addr) : list hold → Z := count (λ h, bool_decide (hold_file h = f)).
Definition readers (f : addr) : list hold → Z := count (reads f).

Lemma count_cons (P : hold → bool) h hs : count P (h :: hs) = (if P h then 1 else 0) + count P hs.
Proof. unfold count. rewrite filter_cons. destruct (P h); case_decide as Hd; cbn in Hd |- *; try done; lia. Qed.

Lemma count_nonneg (P : hold → bool) hs : 0 ≤ count P hs.
Proof. unfold count. lia. Qed.

Lemma count_perm (P : hold → bool) hs hs' : hs ≡ₚ hs' → count P hs = count P hs'.
Proof. intros Hp. unfold count. by rewrite Hp. Qed.

Lemma count_in (P : hold → bool) h hs : h ∈ hs → P h → 0 < count P hs.
Proof.
  intros Hin HP. apply list_elem_of_split in Hin as (l1 & l2 & ->).
  rewrite (count_perm _ _ (h :: l1 ++ l2)) by solve_Permutation. rewrite count_cons.
  pose proof (count_nonneg P (l1 ++ l2)). destruct (P h); [lia | done].
Qed.

Lemma count_zero (P : hold → bool) hs : count P hs = 0 → ∀ h, h ∈ hs → P h = false.
Proof. intros H0 h Hh. destruct (P h) eqn:HP; [| done]. assert (0 < count P hs) by (eapply count_in; [done | by rewrite HP]). lia. Qed.

Lemma refs_cons f h hs : refs f (h :: hs) = (if decide (hold_file h = f) then 1 else 0) + refs f hs.
Proof. unfold refs. rewrite count_cons. by case_bool_decide; case_decide. Qed.

Lemma readers_cons f h hs : readers f (h :: hs) = (if reads f h then 1 else 0) + readers f hs.
Proof. apply count_cons. Qed.

Lemma refs_pos f h hs : h ∈ hs → hold_file h = f → 0 < refs f hs.
Proof. intros Hh <-. eapply count_in; [done |]. by apply bool_decide_spec. Qed.

Lemma refs_none f hs : (∀ h, h ∈ hs → hold_file h ≠ f) → refs f hs = 0.
Proof.
  induction hs as [|h hs IH]; [done |]. intros Hno. rewrite refs_cons, decide_False by (apply Hno; left).
  rewrite IH; [done |]. intros k Hk. apply Hno. by right.
Qed.

Lemma refs_readers f hs : refs f hs = 0 → readers f hs = 0.
Proof.
  intros H0. induction hs as [|h hs IH]; [done |]. rewrite refs_cons in H0. rewrite readers_cons.
  pose proof (count_nonneg (λ h, bool_decide (hold_file h = f)) hs) as Hn. change (0 ≤ refs f hs) in Hn.
  case_decide as Hh; [lia |]. assert (reads f h = false) as ->; [| rewrite IH; lia].
  destruct h; cbn in *; try done. by apply bool_decide_eq_false_2.
Qed.

Lemma filter_whole {A} (P : A → Prop) `{∀ x, Decision (P x)} (l : list A) : (∀ x, x ∈ l → P x) → filter P l = l.
Proof.
  induction l as [|x l IH]; [done |]. intros Hl. rewrite filter_cons, decide_True by (apply Hl; left).
  f_equal. apply IH. intros y Hy. apply Hl. by right.
Qed.

(** ** The shape of the tree *)

Definition children (x : File) : list addr := omap snd (fl_filelist x).
Definition blanks (l : list cell) : Z := len (filter (λ c : cell, c.2 = None) l).
Definition name_of (w : world) (g : addr) : cptr := y ← w_files w !! g; d_name (fl_dir y).

(** The strings of an entry: none but muid is nil, and convD2M can measure them. *)
Definition short (s : cptr) : Prop := strlen0 s < 2 ^ 28.
Definition meta_ok (d : Dir) : Prop :=
  d_name d ≠ None ∧ d_uid d ≠ None ∧ d_gid d ≠ None ∧ Forall short (sv_of d).

(** Parents and children point to each other, and siblings have different names. *)
Record linked (w : world) (f : addr) (x : File) : Prop := {
  lk_child : ∀ g, g ∈ children x → g ≠ f ∧ ∃ y, w_files w !! g = Some y ∧ fl_parent y = Some f;
  lk_parent : ∀ p, fl_parent x = Some p →
    if decide (p = f) then ∃ t, w_trees w !! fl_tree x = Some t ∧ t_root t = f
    else ∃ y, w_files w !! p = Some y ∧ f ∈ children y;
  lk_nodup : NoDup (children x);
  lk_names : ∀ g g', g ∈ children x → g' ∈ children x → name_of w g = name_of w g' → g = g';
  lk_meta : meta_ok (fl_dir x);
  lk_tree : is_Some (w_trees w !! fl_tree x)
}.

(** The cells of a directory, and its counters of them. *)
Record listed (w : world) (x : File) : Prop := {
  ls_cells : NoDup (fst <$> fl_filelist x);
  ls_nchild : fl_nchild x = len (children x);
  ls_nxchild : fl_nxchild x = blanks (fl_filelist x);
  ls_old : ∀ c, c ∈ fl_filelist x → (c.1 < w_next w)%positive
}.

Record tree_ok (w : world) : Prop := {
  tr_file : ∀ f x, w_files w !! f = Some x → linked w f x ∧ listed w x ∧ (f < w_next w)%positive;
  tr_root : ∀ t T, w_trees w !! t = Some T →
    (t < w_next w)%positive ∧ ∃ y, w_files w !! t_root T = Some y ∧ fl_parent y = Some (t_root T) ∧ fl_tree y = t;
  tr_free : NoDup (w_free w) ∧ ∀ f, f ∈ w_free w → w_files w !! f = None ∧ (f < w_next w)%positive;
  tr_rdirs : ∀ r rd, w_rdirs w !! r = Some rd → (r < w_next w)%positive
}.

(** ** The counts *)

Definition parented (x : File) : Z := if fl_parent x is Some _ then 1 else 0.

Record inv (w : world) (hs : list hold) : Prop := {
  iv_tree : tree_ok w;
  iv_ref : ∀ f x, w_files w !! f = Some x → fl_ref x = parented x + len (children x) + refs f hs ∧ 0 < fl_ref x;
  iv_readers : ∀ f x, w_files w !! f = Some x → fl_readers x = readers f hs;
  iv_hold : ∀ h, h ∈ hs → is_Some (w_files w !! hold_file h);
  iv_rdir : ∀ h r, h ∈ hs → hold_rdir h = Some r → ∃ rd, w_rdirs w !! r = Some rd ∧ rd_dir rd = hold_file h;
  iv_fl : ∀ r f rd c x, Hdir r f ∈ hs → w_rdirs w !! r = Some rd → rd_fl rd = Some c → w_files w !! f = Some x →
    c ∈ fst <$> fl_filelist x;
  iv_rdirs : NoDup (omap hold_rdir hs);
  iv_rm : ∀ f fp, Hremove f fp ∈ hs → f ≠ fp
}.

Lemma inv_perm w hs hs' : hs ≡ₚ hs' → inv w hs → inv w hs'.
Proof.
  intros Hp [Ht Href Hread Hhold Hrdir Hfl Hnd Hrm]. constructor; try done.
  - intros f x Hf. unfold refs. rewrite <- (count_perm _ _ _ Hp). by apply Href.
  - intros f x Hf. unfold readers. rewrite <- (count_perm _ _ _ Hp). by apply Hread.
  - intros h Hh. apply Hhold. by rewrite Hp.
  - intros h r Hh. apply Hrdir. by rewrite Hp.
  - intros r f rd c x Hh. apply (Hfl r). by rewrite Hp.
  - by rewrite <- Hp.
  - intros f fp Hh. apply Hrm. by rewrite Hp.
Qed.

(** ** Changes that keep parents and children *)

Definition links (x : File) : Dir * option addr * list addr * addr := (fl_dir x, fl_parent x, children x, fl_tree x).

Record same_links (w w' : world) : Prop := {
  sl_files : links <$> w_files w' = links <$> w_files w;
  sl_trees : w_trees w' = w_trees w;
  sl_free : w_free w' = w_free w;
  sl_next : (w_next w ≤ w_next w')%positive
}.

Lemma links_eq x x' :
  links x' = links x → fl_dir x' = fl_dir x ∧ fl_parent x' = fl_parent x ∧ children x' = children x ∧ fl_tree x' = fl_tree x.
Proof. unfold links. by intros [= -> -> -> ->]. Qed.

Lemma links_new w w' f x' :
  same_links w w' → w_files w' !! f = Some x' → ∃ x, w_files w !! f = Some x ∧ links x' = links x.
Proof.
  intros [Hf _ _ _] Hx. apply (f_equal (lookup f)) in Hf. rewrite !lookup_fmap, Hx in Hf. cbn in Hf.
  symmetry in Hf. apply fmap_Some in Hf as (x & ? & ?). eauto.
Qed.

Lemma links_old w w' f x :
  same_links w w' → w_files w !! f = Some x → ∃ x', w_files w' !! f = Some x' ∧ links x' = links x.
Proof.
  intros [Hf _ _ _] Hx. apply (f_equal (lookup f)) in Hf. rewrite !lookup_fmap, Hx in Hf. cbn in Hf.
  apply fmap_Some in Hf as (x' & ? & ?). eauto.
Qed.

Lemma same_links_set w f x x' : w_files w !! f = Some x → links x' = links x → same_links w (setfile f x' w).
Proof.
  intros Hf Hs. constructor; [| done..]. cbn. rewrite fmap_insert, Hs. apply insert_id. by rewrite lookup_fmap, Hf.
Qed.

Lemma same_links_refl w : same_links w w.
Proof. by constructor. Qed.

Lemma same_links_trans w1 w2 w3 : same_links w1 w2 → same_links w2 w3 → same_links w1 w3.
Proof. intros [] []. constructor; [congruence.. | lia]. Qed.

Lemma name_of_links w w' g : same_links w w' → name_of w' g = name_of w g.
Proof.
  intros Hs. unfold name_of. destruct (w_files w' !! g) as [y'|] eqn:Hg; cbn.
  - destruct (links_new _ _ _ _ Hs Hg) as (y & -> & Hy). cbn. by destruct (links_eq _ _ Hy) as (-> & _).
  - destruct (w_files w !! g) as [y|] eqn:Hg'; [| done].
    destruct (links_old _ _ _ _ Hs Hg') as (y' & ? & _). congruence.
Qed.

Lemma linked_links w w' f x x' : same_links w w' → links x' = links x → linked w f x → linked w' f x'.
Proof.
  intros Hs Hl [Hgc Hgp Hgn Hgm Hgd Hgt]. destruct (links_eq _ _ Hl) as (Hd & Hp & Hch & Htr).
  constructor; rewrite ?Hd, ?Hp, ?Hch, ?Htr, ?(sl_trees _ _ Hs); try done.
  - intros g Hg. destruct (Hgc g Hg) as (? & y & Hy & Hyp). split; [done |].
    destruct (links_old _ _ _ _ Hs Hy) as (y' & ? & Hsy). destruct (links_eq _ _ Hsy) as (_ & ? & _). exists y'. split; congruence.
  - intros p Hpp. specialize (Hgp p Hpp). case_decide; [done |]. destruct Hgp as (y & Hy & Hin).
    destruct (links_old _ _ _ _ Hs Hy) as (y' & ? & Hsy). destruct (links_eq _ _ Hsy) as (_ & _ & Hc & _). exists y'. by rewrite Hc.
  - intros g g' Hg Hg'. rewrite !(name_of_links _ _ _ Hs). by apply Hgm.
Qed.

Lemma tree_ok_links w w' :
  same_links w w' → (∀ f x', w_files w' !! f = Some x' → listed w' x') →
  (∀ r rd, w_rdirs w' !! r = Some rd → (r < w_next w')%positive) → tree_ok w → tree_ok w'.
Proof.
  intros Hs Hlist Hrd [Hfile Hroot Hfree Hrdirs]. pose proof Hs as [_ Ht Hfr Hn]. constructor.
  - intros f x' Hx'. destruct (links_new _ _ _ _ Hs Hx') as (x & Hx & Hl). destruct (Hfile f x Hx) as (? & _ & ?).
    split_and!; [by eapply linked_links | by eapply Hlist | lia].
  - intros t T. rewrite Ht. intros HT. destruct (Hroot t T HT) as (? & y & Hy & Hyp & Hyt). split; [lia |].
    destruct (links_old _ _ _ _ Hs Hy) as (y' & ? & Hsy). destruct (links_eq _ _ Hsy) as (_ & ? & _ & ?).
    exists y'. split_and!; congruence.
  - rewrite Hfr. split; [apply Hfree |]. intros f Hf. destruct (proj2 Hfree f Hf) as [Hnone ?]. split; [| lia].
    destruct (w_files w' !! f) eqn:Hf'; [| done]. destruct (links_new _ _ _ _ Hs Hf') as (? & ? & _). congruence.
  - done.
Qed.

Lemma listed_same w w' x x' :
  fl_filelist x' = fl_filelist x → fl_nchild x' = fl_nchild x → fl_nxchild x' = fl_nxchild x →
  (w_next w ≤ w_next w')%positive → listed w x → listed w' x'.
Proof.
  intros Hl Hn Hx Hle []. unfold children in *. constructor; unfold children; rewrite ?Hl, ?Hn, ?Hx; try done.
  intros c Hc. specialize (ls_old0 c Hc). lia.
Qed.

(** The references may change with it, and what the program holds; the readers stay. *)
Lemma inv_links w w' hs hs' :
  inv w hs → same_links w w' → w_rdirs w' = w_rdirs w → (∀ f x', w_files w' !! f = Some x' → listed w' x') →
  (∀ f x', w_files w' !! f = Some x' → fl_ref x' = parented x' + len (children x') + refs f hs' ∧ 0 < fl_ref x') →
  (∀ f x', w_files w' !! f = Some x' → fl_readers x' = readers f hs') →
  (∀ r f rd c x', Hdir r f ∈ hs' → w_rdirs w !! r = Some rd → rd_fl rd = Some c → w_files w' !! f = Some x' →
     c ∈ fst <$> fl_filelist x') →
  (∀ h, h ∈ hs' → h ∈ hs ∨ ∃ f, h = Hfile f ∧ is_Some (w_files w !! f)) → NoDup (omap hold_rdir hs') → inv w' hs'.
Proof.
  intros [Ht _ _ Hhold Hrdir Hfl _ Hrm] Hs Hrd Hlist Href Hread Hfl' Hin Hnd.
  constructor; try done.
  - eapply tree_ok_links; [exact Hs | exact Hlist | | exact Ht]. intros r rd. rewrite Hrd. intros Hr.
    pose proof (tr_rdirs _ Ht _ _ Hr). pose proof (sl_next _ _ Hs). lia.
  - intros h Hh. assert (is_Some (w_files w !! hold_file h)) as [x Hx]
      by (destruct (Hin h Hh) as [? | (f & -> & ?)]; [by apply Hhold | done]).
    destruct (links_old _ _ _ _ Hs Hx) as (x' & ? & _). by exists x'.
  - intros h r Hh Hr. rewrite Hrd. destruct (Hin h Hh) as [? | (f & -> & ?)]; [by apply Hrdir | done].
  - intros r f rd c x' Hh. rewrite Hrd. by apply Hfl'.
  - intros f fp Hh. destruct (Hin _ Hh) as [? | (? & [=] & _)]. by apply Hrm.
Qed.

Lemma setfile_case w f x' g y :
  w_files (setfile f x' w) !! g = Some y → g = f ∧ y = x' ∨ g ≠ f ∧ w_files w !! g = Some y.
Proof.
  cbn. destruct (decide (f = g)) as [<- | Hne].
  - rewrite lookup_insert_eq. intros [= ->]. auto.
  - rewrite lookup_insert_ne by done. auto.
Qed.

(** An assignment to one file, that leaves its list and its links alone. *)
Lemma inv_set w hs hs' f x x' :
  inv w hs → w_files w !! f = Some x → links x' = links x →
  fl_filelist x' = fl_filelist x → fl_nchild x' = fl_nchild x → fl_nxchild x' = fl_nxchild x →
  fl_ref x' = parented x' + len (children x') + refs f hs' → 0 < fl_ref x' → fl_readers x' = readers f hs' →
  (∀ g, g ≠ f → refs g hs' = refs g hs ∧ readers g hs' = readers g hs) →
  (∀ h, h ∈ hs' → h ∈ hs ∨ ∃ f, h = Hfile f ∧ is_Some (w_files w !! f)) → NoDup (omap hold_rdir hs') →
  inv (setfile f x' w) hs'.
Proof.
  intros Hi Hf Hl Hfl Hn Hx Href Hpos Hread Hother Hin Hnd.
  pose proof (setfile_case w f x') as Hcase.
  apply (inv_links w _ hs); try done.
  - by eapply same_links_set.
  - intros g y Hg. destruct (Hcase g y Hg) as [[-> ->] | [_ Hy]].
    + destruct (tr_file _ (iv_tree _ _ Hi) f x Hf) as (_ & ? & _). by apply (listed_same w _ x).
    + by destruct (tr_file _ (iv_tree _ _ Hi) g y Hy) as (_ & [] & _).
  - intros g y Hg. destruct (Hcase g y Hg) as [[-> ->] | [Hne Hy]]; [done |].
    destruct (Hother g Hne) as [-> _]. by apply (iv_ref _ _ Hi).
  - intros g y Hg. destruct (Hcase g y Hg) as [[-> ->] | [Hne Hy]]; [done |].
    destruct (Hother g Hne) as [_ ->]. by apply (iv_readers _ _ Hi).
  - intros r g rd c y Hh Hr Hc Hg. destruct (Hin _ Hh) as [Hh' | (? & [=] & _)].
    destruct (Hcase g y Hg) as [[-> ->] | [Hne Hy]]; [rewrite Hfl |]; by eapply (iv_fl _ _ Hi).
Qed.
