(* ===== verification/FiletreeProps.v ===== *)
(** * FiletreeProps: the operations of a file tree keep its invariant

    Each section of file.c, from a state in which the invariant of {!FiletreeInv} holds, is
    defined, and leaves one in which it holds with what the program then has in its hands. *)

From stdpp Require Import strings.
From S2P Require Import Prelude Bytes Fcall FcallProps Stat StatProps Rune RuneProps Srv Filetree FiletreeInv.

(** ** The hierarchy

    The files that are in the tree: each with its directory entry, its parent, its children
    in the order of their creation, and its Tree. *)

Abbreviation node := (Dir * option addr * list addr * addr)%type.

Definition hier (w : world) : gmap addr node := filter (λ fn, fn.2.1.1.2 ≠ None) (links <$> w_files w).

Lemma hier_lookup w f :
  hier w !! f = (x ← w_files w !! f; if fl_parent x is Some _ then Some (links x) else None).
Proof.
  unfold hier. apply option_eq. intros n. rewrite map_lookup_filter_Some, lookup_fmap.
  destruct (w_files w !! f) as [x|]; cbn; [| naive_solver]. unfold links. destruct (fl_parent x) eqn:Hp; split.
  - by intros [? _].
  - by intros [= <-].
  - by intros [[= <-] ?].
  - done.
Qed.

Lemma hier_links w w' :
  (∀ f, (x ← w_files w' !! f; if fl_parent x is Some _ then Some (links x) else None) =
        (x ← w_files w !! f; if fl_parent x is Some _ then Some (links x) else None)) → hier w' = hier w.
Proof. intros Hf. apply map_eq. intros f. by rewrite !hier_lookup. Qed.

(** Nothing has happened to the hierarchy, nor to the lists of directories being read. *)
Record calm (hs : list hold) (w w' : world) : Prop := {
  cm_hier : hier w' = hier w;
  cm_rdirs : w_rdirs w' = w_rdirs w;
  cm_trees : w_trees w' = w_trees w;
  cm_next : (w_next w ≤ w_next w')%positive;
  cm_lists : ∀ d x, w_files w !! d = Some x → 0 < readers d hs →
    ∃ x', w_files w' !! d = Some x' ∧ fl_filelist x' = fl_filelist x;
  cm_links : ∀ d x', w_files w' !! d = Some x' → ∃ x, w_files w !! d = Some x ∧ links x' = links x
}.

Lemma calm_refl hs w : calm hs w w.
Proof. constructor; eauto. done. Qed.

Lemma calm_trans hs w1 w2 w3 : calm hs w1 w2 → calm hs w2 w3 → calm hs w1 w3.
Proof.
  intros [] []. constructor; try congruence; [lia | |].
  - intros d x Hx Hr. destruct (cm_lists0 d x Hx Hr) as (x' & Hx' & <-). by apply cm_lists1.
  - intros d x Hx. destruct (cm_links1 d x Hx) as (x' & Hx' & ->). by apply cm_links0.
Qed.

Lemma hier_same_links w w' : same_links w w' → hier w' = hier w.
Proof. intros Hs. unfold hier. by rewrite (sl_files _ _ Hs). Qed.

Lemma calm_set hs w f x x' :
  w_files w !! f = Some x → links x' = links x → fl_filelist x' = fl_filelist x ∨ readers f hs = 0 → calm hs w (setfile f x' w).
Proof.
  intros Hf Hl Hfl. pose proof (same_links_set w f x x' Hf Hl) as Hs. constructor; try done.
  - by apply hier_same_links.
  - intros d y Hd Hr. cbn. destruct (decide (f = d)) as [<- | Hne]; [| rewrite lookup_insert_ne by done; eauto].
    rewrite lookup_insert_eq. exists x'. simplify_eq. destruct Hfl; [done | lia].
  - intros d y Hd. by eapply links_new.
Qed.

(** ** References *)

Lemma incref_ok w hs f :
  inv w hs → is_Some (w_files w !! f) →
  ∃ w', incref f w = Ok w' ∧ inv w' (Hfile f :: hs) ∧ same_links w w' ∧ calm hs w w'.
Proof.
  intros Hi [x Hf]. unfold incref, modfile, getfile. rewrite Hf. cbn [res_of_option mbind res_bind].
  destruct (iv_ref _ _ Hi f x Hf) as [Href Hpos].
  eexists. split; [done |]. split; [| split; [by apply (same_links_set _ _ x) | by apply (calm_set _ _ _ x); auto]].
  apply (inv_set w hs _ f x); try done; cbn.
  - rewrite refs_cons. cbn. rewrite decide_True by done. unfold parented, children in *. cbn. lia.
  - lia.
  - rewrite readers_cons. by apply (iv_readers _ _ Hi).
  - intros g Hne. rewrite refs_cons, readers_cons. cbn. by rewrite decide_False.
  - intros h [-> | Hh]%list.elem_of_cons; [right | by left]. exists f. split; [done | by eexists].
  - by apply (iv_rdirs _ _ Hi).
Qed.

(** *** Giving a reference back *)

Lemma no_children l : omap snd l = ([] : list addr) → ¬ Exists (λ c : cell, is_Some c.2) l.
Proof.
  intros Hc He. apply list.Exists_exists in He as (c & Hin & g & Hg).
  assert (g ∈ (omap snd l : list addr)) as H by (apply list_elem_of_omap; eauto). rewrite Hc in H. by apply list.elem_of_nil in H.
Qed.

(** A file without parent and children that nobody else holds goes away. *)
Lemma inv_delete w hs f x n :
  inv w (Hfile f :: hs) → w_files w !! f = Some x → fl_parent x = None → children x = [] → (∀ h, h ∈ hs → hold_file h ≠ f) →
  inv (w <| w_gone := n |> <| w_files := delete f (w_files w) |> <| w_free := f :: w_free w |>) hs.
Proof.
  intros [[Hfile Hroot [Hfnd Hfree] Hrdirs] Href Hread Hhold Hrdir Hfl Hrd Hrm] Hf Hp Hc Hno.
  assert (∀ g y, w_files w !! g = Some y → g ≠ f → f ∉ children y) as Hnochild.
  { intros g y Hg Hne Hin. destruct (Hfile g y Hg) as [[Hch _] _]. destruct (Hch f Hin) as (_ & z & Hz & ?). simplify_eq. }
  constructor; cbn.
  - constructor; cbn; try done.
    + intros g y Hg. apply lookup_delete_Some in Hg as [Hne Hg]. destruct (Hfile g y Hg) as ([Hgc Hgp ? Hgn ??] & [] & ?).
      split; [| by split]. constructor; try done; cbn.
      * intros c Hin. destruct (Hgc c Hin) as (? & z & Hz & ?). split; [done |]. exists z. split; [| done].
        rewrite lookup_delete_ne; [done |]. intros <-. by apply (Hnochild g y).
      * intros p Hpp. specialize (Hgp p Hpp). case_decide; [done |]. destruct Hgp as (z & Hz & Hin).
        exists z. split; [| done]. rewrite lookup_delete_ne; [done |]. intros <-. simplify_eq. rewrite Hc in Hin. by apply list.elem_of_nil in Hin.
      * intros c c' Hin Hin'. specialize (Hgn c c' Hin Hin'). unfold name_of in *. cbn.
        rewrite !lookup_delete_ne; [done | |]; intros <-; by apply (Hnochild g y).
    + intros t T HT. destruct (Hroot t T HT) as (? & z & Hz & Hpz & ?). split; [done |]. exists z. split; [| done].
      rewrite lookup_delete_ne; [done |]. intros ->. congruence.
    + split.
      * constructor; [| done]. intros Hin. destruct (Hfree f Hin). congruence.
      * intros g [-> | Hg]%list.elem_of_cons; [| destruct (Hfree g Hg)]; (split; [apply lookup_delete_None; auto |]); [| done].
        by destruct (Hfile f x Hf) as (_ & _ & ?).
  - intros g y Hg. apply lookup_delete_Some in Hg as [Hne Hg]. destruct (Href g y Hg) as [Hr ?].
    rewrite refs_cons in Hr. cbn in Hr. rewrite decide_False in Hr by done. auto.
  - intros g y Hg. apply lookup_delete_Some in Hg as [_ Hg]. by rewrite (Hread g y Hg), readers_cons.
  - intros h Hh. rewrite lookup_delete_ne; [apply Hhold; by right |]. intros Heq. by apply (Hno h).
  - intros h r Hh. apply Hrdir. by right.
  - intros r g rd c y Hh Hr Hcc Hg. apply lookup_delete_Some in Hg as [_ Hg]. eapply Hfl; [by right | done..].
  - done.
  - intros g fp Hh. apply Hrm. by right.
Qed.

Lemma calm_delete hs w f x n free :
  w_files w !! f = Some x → fl_parent x = None → readers f hs = 0 →
  calm hs w (w <| w_gone := n |> <| w_files := delete f (w_files w) |> <| w_free := free |>).
Proof.
  intros Hf Hp Hr. constructor; try done.
  - apply hier_links. intros g. cbn. destruct (decide (f = g)) as [<- | Hne].
    + rewrite lookup_delete_eq, Hf. cbn. by rewrite Hp.
    + by rewrite lookup_delete_ne.
  - intros d y Hd Hrd. cbn. assert (f ≠ d) by (intros <-; lia). rewrite lookup_delete_ne by done. eauto.
  - intros d y Hd. cbn in Hd. apply lookup_delete_Some in Hd as [_ Hd]. eauto.
Qed.

(** The last reference takes the file with it, after a call of [destroy]. *)
Lemma closefile_ok w hs f :
  inv w (Hfile f :: hs) →
  ∃ w' x, closefile f w = Ok w' ∧ inv w' hs ∧ calm hs w w' ∧ w_files w !! f = Some x ∧
    if decide (fl_ref x = 1) then w_files w' = delete f (w_files w) ∧ w_gone w' = w_gone w ++ [f] ∧ refs f hs = 0
    else w_files w' = <[f := x <| fl_ref := fl_ref x - 1 |>]> (w_files w) ∧ w_gone w' = w_gone w.
Proof.
  intros Hi. destruct (iv_hold _ _ Hi (Hfile f)) as [x Hf]; [by left |]. cbn in Hf.
  destruct (iv_ref _ _ Hi f x Hf) as [Href Hpos]. rewrite refs_cons in Href. cbn in Href. rewrite decide_True in Href by done.
  unfold closefile, getfile. rewrite Hf. cbn [res_of_option mbind res_bind].
  set (x' := x <| fl_ref := fl_ref x - 1 |>).
  pose proof (count_nonneg (λ h, bool_decide (hold_file h = f)) hs) as Hnn. change (0 ≤ refs f hs) in Hnn.
  assert (0 ≤ parented x) as Hpn by (unfold parented; destruct (fl_parent x); lia).
  assert (∀ g y, w_files w !! g = Some y → g ≠ f → fl_ref y = parented y + len (children y) + refs g hs ∧ 0 < fl_ref y) as Hother.
  { intros g y Hg Hne. destruct (iv_ref _ _ Hi g y Hg) as [Hr ?]. rewrite refs_cons in Hr. cbn in Hr. rewrite decide_False in Hr by done. auto. }
  case_decide as Hz.
  - assert (parented x = 0 ∧ len (children x) = 0 ∧ refs f hs = 0) as (Hp0 & Hc0 & Hr0) by lia.
    assert (children x = []) as Hc by (apply length_zero_iff_nil; lia).
    assert (fl_parent x = None) as Hp by (unfold parented in Hp0; by destruct (fl_parent x)).
    assert (∀ h, h ∈ hs → hold_file h ≠ f) as Hno by (intros h Hh He; pose proof (refs_pos f h hs Hh He); lia).
    unfold freefile, getfile. cbn [w_files update setfile]. rewrite lookup_insert_eq. cbn [res_of_option mbind res_bind].
    rewrite decide_False by (by apply no_children). rewrite decide_False by (cbn; lia).
    eexists _, x. split; [done |]. cbn. rewrite delete_insert_eq. split_and!; [| | done |].
    + pose proof (inv_delete w hs f x (w_gone w ++ [f]) Hi Hf Hp Hc Hno) as Hd. by destruct w.
    + assert (readers f hs = 0) as Hr by (apply refs_readers; lia).
      pose proof (calm_delete hs w f x (w_gone w ++ [f]) (f :: w_free w) Hf Hp Hr) as Hd. by destruct w.
    + by rewrite decide_True by lia.
  - exists (setfile f x' w), x. split; [done |]. split_and!; [| by apply (calm_set _ _ _ x); auto | done | by rewrite decide_False by lia].
    apply (inv_set w (Hfile f :: hs) _ f x); try done; cbn.
    + unfold parented, children in *. cbn. lia.
    + lia.
    + rewrite (iv_readers _ _ Hi f x Hf). apply readers_cons.
    + intros g Hne. rewrite refs_cons, readers_cons. cbn. by rewrite decide_False.
    + intros h Hh. left. by right.
    + by apply (iv_rdirs _ _ Hi).
Qed.

(** *** Cells *)

Lemma children_clean (l : list cell) : omap snd (filter (λ c : cell, is_Some c.2) l) = omap snd l.
Proof.
  induction l as [|[c [g|]] l IH]; [done | |]; rewrite filter_cons; cbn.
  - rewrite decide_True by by eexists. cbn. congruence.
  - rewrite decide_False by by intros []. done.
Qed.

Lemma blanks_clean (l : list cell) : blanks (filter (λ c : cell, is_Some c.2) l) = 0.
Proof.
  induction l as [|[c [g|]] l IH]; [done | |]; rewrite filter_cons; cbn.
  - rewrite decide_True by by eexists. unfold blanks in *. rewrite filter_cons, decide_False by done. done.
  - by rewrite decide_False by by intros [].
Qed.

(** The empty cells of [f] are removed from its list, or left there. *)
Lemma cleanfilelist_ok w hs f x :
  inv w hs → w_files w !! f = Some x →
  ∃ w', cleanfilelist f w = Ok w' ∧ inv w' hs ∧ same_links w w' ∧ calm hs w w'.
Proof.
  intros Hi Hf. unfold cleanfilelist, getfile. rewrite Hf. cbn [res_of_option mbind res_bind].
  pose proof (iv_readers _ _ Hi f x Hf) as Hrd.
  case_decide as Hr; [by exists w; split_and!; auto using same_links_refl, calm_refl |].
  case_decide as Hx; [by exists w; split_and!; auto using same_links_refl, calm_refl |].
  destruct (decide (fl_readers x = 0)) as [Hr0 |]; [| done].
  set (x' := x <| fl_filelist := _ |> <| fl_nxchild := 0 |>).
  assert (children x' = children x) as Hch by apply children_clean.
  assert (links x' = links x) as Hl by (unfold links; by rewrite Hch).
  assert (same_links w (setfile f x' w)) as Hs by (by eapply same_links_set).
  exists (setfile f x' w). split_and!; [done | | done | apply (calm_set _ _ _ x); auto; right; lia].
  pose proof (setfile_case w f x') as Hcase.
  apply (inv_links w _ hs); try done.
  - intros g y Hg. destruct (Hcase g y Hg) as [[-> ->] | [_ Hy]].
    + destruct (tr_file _ (iv_tree _ _ Hi) f x Hf) as (_ & [Hc Hn Hnx Ho] & _). constructor.
      * eapply sublist_NoDup; [exact Hc |]. apply fmap_sublist, sublist_filter.
      * by rewrite Hch.
      * symmetry. apply blanks_clean.
      * intros c [_ Hin]%list_elem_of_filter. by apply Ho.
    + by destruct (tr_file _ (iv_tree _ _ Hi) g y Hy) as (_ & [] & _).
  - intros g y Hg. destruct (Hcase g y Hg) as [[-> ->] | [Hne Hy]]; [| by apply (iv_ref _ _ Hi)].
    rewrite Hch. by apply (iv_ref _ _ Hi f x).
  - intros g y Hg. destruct (Hcase g y Hg) as [[-> ->] | [Hne Hy]]; [done | by apply (iv_readers _ _ Hi)].
  - intros r g rd c y Hh Hrr Hc Hg. destruct (Hcase g y Hg) as [[-> ->] | [Hne Hy]]; [| by eapply (iv_fl _ _ Hi)].
    assert (0 < readers f hs); [| lia]. eapply count_in; [exact Hh |]. by apply bool_decide_spec.
  - auto.
  - apply (iv_rdirs _ _ Hi).
Qed.

(** ** removefile *)

Lemma clearcell_spec f (l : list cell) :
  f ∈ (omap snd l : list addr) →
  ∃ l' l1 l2, clearcell f l = Some l' ∧ l'.*1 = l.*1 ∧ blanks l' = blanks l + 1 ∧
    omap snd l = l1 ++ f :: l2 ∧ omap snd l' = l1 ++ l2.
Proof.
  induction l as [|[c g] l IH]; cbn; [by intros ?%list.elem_of_nil |]. intros Hin.
  destruct (decide (g = Some f)) as [-> | Hne].
  - exists ((c, None) :: l), [], (omap snd l). split_and!; try done.
    unfold blanks. rewrite !filter_cons. cbn. rewrite decide_True, decide_False by done. cbn. lia.
  - assert (f ∈ (omap snd l : list addr)) as Hin'.
    { destruct g as [g|]; [| done]. apply list.elem_of_cons in Hin as [-> | ?]; done. }
    destruct (IH Hin') as (l' & l1 & l2 & -> & Hc & Hb & Hl & Hl'). cbn.
    exists ((c, g) :: l'), (match g with Some g => g :: l1 | None => l1 end), l2. cbn. split_and!; [done | by rewrite Hc | | |].
    + unfold blanks in *. rewrite !filter_cons. cbn. case_decide; cbn; lia.
    + destruct g; cbn; by rewrite Hl.
    + destruct g; cbn; by rewrite Hl'.
Qed.

(** [f] has left the list of its parent [fp]. *)
Record unlinked (w w' : world) (f fp : addr) (x p x' p' : File) : Prop := {
  un_f : w_files w' !! f = Some x';
  un_fp : w_files w' !! fp = Some p';
  un_same : ∀ g, g ≠ f → g ≠ fp → w_files w' !! g = w_files w !! g;
  un_member : ∀ g, g ∈ children p' ↔ g ∈ children p ∧ g ≠ f;
  un_keep : ∀ g z, w_files w !! g = Some z → g ≠ f → ∃ z', w_files w' !! g = Some z' ∧ fl_parent z' = fl_parent z ∧
    (∀ c, c ∈ children z' ↔ c ∈ children z ∧ c ≠ f) ∧ fl_tree z' = fl_tree z
}.

Section Unlink.
Context (w : world) (hs : list hold) (f fp : addr) (x p : File) (l : list cell).
Hypothesis Hi : inv w hs.
Hypothesis Hf : w_files w !! f = Some x.
Hypothesis Hfp : w_files w !! fp = Some p.
Hypothesis Hne : fp ≠ f.
Hypothesis Hpar : fl_parent x = Some fp.
Hypothesis Hl : clearcell f (fl_filelist p) = Some l.

Let p' := p <| fl_filelist := l |> <| fl_nchild := fl_nchild p - 1 |> <| fl_nxchild := fl_nxchild p + 1 |>.
Let x' := x <| fl_parent := None |>.
Let w' := setfile f x' (setfile fp p' w).

Lemma unlink_child : f ∈ children p.
Proof.
  destruct (tr_file _ (iv_tree _ _ Hi) f x Hf) as ([_ Hp _ _ _ _] & _). specialize (Hp fp Hpar).
  rewrite decide_False in Hp by done. destruct Hp as (y & Hy & ?). by simplify_eq.
Qed.

Lemma unlink_lists :
  ∃ l1 l2, l.*1 = (fl_filelist p).*1 ∧ blanks l = blanks (fl_filelist p) + 1 ∧ children p = l1 ++ f :: l2 ∧ children p' = l1 ++ l2.
Proof.
  destruct (clearcell_spec f _ unlink_child) as (l' & l1 & l2 & Hl' & ?). rewrite Hl in Hl'. injection Hl' as <-. by exists l1, l2.
Qed.

Lemma unlink_unlinked : unlinked w w' f fp x p x' p'.
Proof.
  destruct unlink_lists as (l1 & l2 & _ & _ & Hcp & Hcp').
  destruct (tr_file _ (iv_tree _ _ Hi) fp p Hfp) as ([Hpc _ Hpn _ _ _] & _). rewrite Hcp in Hpn.
  assert (f ∉ l1 ++ l2) as Hgone.
  { apply list.NoDup_app in Hpn as (? & Hd & Hn). apply list.NoDup_cons in Hn as [? ?].
    intros [? | ?]%elem_of_app; [by apply (Hd f); [| left] | done]. }
  assert (∀ g, g ∈ children p' ↔ g ∈ children p ∧ g ≠ f) as Hmem.
  { intros g. rewrite Hcp', Hcp, !elem_of_app, list.elem_of_cons. rewrite elem_of_app in Hgone. naive_solver. }
  assert (w_files w' !! fp = Some p') as Hfp' by (cbn; rewrite lookup_insert_ne by done; apply lookup_insert_eq).
  assert (∀ g, g ≠ f → g ≠ fp → w_files w' !! g = w_files w !! g) as Hsame by (intros g ??; cbn; by rewrite !lookup_insert_ne by done).
  constructor; [apply lookup_insert_eq | done..|]. intros g z Hg Hgf. destruct (decide (g = fp)) as [-> | Hgp].
  - simplify_eq. by exists p'.
  - exists z. rewrite Hsame by done. split_and!; try done. intros c. split; [| by intros []]. intros Hc. split; [done |]. intros ->.
    destruct (tr_file _ (iv_tree _ _ Hi) g z Hg) as ([Hgc _ _ _ _ _] & _). destruct (Hgc f Hc) as (_ & y & Hy & ?). simplify_eq.
Qed.

Lemma unlink_linked g y : w_files w' !! g = Some y → linked w' g y.
Proof.
  pose proof unlink_unlinked as [Hf' Hfp' Hsame Hmem Hkeep]. pose proof (tr_file _ (iv_tree _ _ Hi)) as Hfile.
  assert (∀ c, c ∈ children x' → c ∈ children x) as Hcx by done.
  assert (∀ g, name_of w' g = name_of w g) as Hname.
  { intros c. unfold name_of. destruct (decide (c = f)) as [-> |]; [by rewrite Hf', Hf |].
    destruct (decide (c = fp)) as [-> |]; [by rewrite Hfp', Hfp | by rewrite Hsame]. }
  assert (∀ g z, w_files w !! g = Some z → ∀ c, c ∈ children z → c ≠ f → ∃ y, w_files w' !! c = Some y ∧ fl_parent y = Some g) as Hch.
  { intros c z Hc d Hd Hdf. destruct (Hfile c z Hc) as ([Hgc _ _ _ _ _] & _). destruct (Hgc d Hd) as (_ & v & Hv & ?).
    destruct (Hkeep d v Hv Hdf) as (v' & ? & ? & _). exists v'. split; congruence. }
  intros Hg. destruct (decide (g = f)) as [-> | Hgf].
  - rewrite Hf' in Hg. injection Hg as <-. destruct (Hfile f x Hf) as ([Hgc Hgp Hgn Hgm Hgd Hgt] & _).
    constructor; try done.
    + intros c Hc. destruct (Hgc c Hc) as [Hcf _]. split; [done |]. by apply (Hch f x).
    + intros c c' Hc Hc'. rewrite !Hname. by apply Hgm.
  - destruct (w_files w !! g) as [z|] eqn:Hz.
    + destruct (Hkeep g z Hz Hgf) as (z' & Hz' & Hp & Hc & Ht). rewrite Hg in Hz'. injection Hz' as <-.
      destruct (Hfile g z Hz) as ([Hgc Hgp Hgn Hgm Hgd Hgt] & _). constructor; rewrite ?Hp, ?Ht; try done.
      * intros c [Hcz Hcf]%Hc. split; [by destruct (Hgc c Hcz) |]. by apply (Hch g z).
      * intros q Hq. specialize (Hgp q Hq). case_decide; [done |]. destruct Hgp as (v & Hv & Hin).
        assert (q = f ∨ q ≠ f) as [-> | Hqf] by (destruct (decide (q = f)); auto).
        -- simplify_eq. by exists x'.
        -- destruct (Hkeep q v Hv Hqf) as (v' & ? & _ & Hcv & _). exists v'. split; [done |]. by apply Hcv.
      * destruct (decide (g = fp)) as [-> |]; [| by rewrite Hsame in Hg by done; simplify_eq].
        simplify_eq. destruct unlink_lists as (l1 & l2 & _ & _ & Hcp & ->). rewrite Hcp in Hgn.
        eapply sublist_NoDup; [exact Hgn |]. apply sublist_app; [done | by constructor].
      * intros c c' [Hc1 _]%Hc [Hc2 _]%Hc. rewrite !Hname. by apply Hgm.
      * destruct (decide (g = fp)) as [-> |]; [by simplify_eq | by rewrite Hsame in Hg by done; simplify_eq].
    + exfalso. destruct (decide (g = fp)) as [-> |]; [congruence |]. rewrite Hsame in Hg by done. congruence.
Qed.

Lemma unlink_tree_ok : tree_ok w'.
Proof.
  pose proof unlink_unlinked as [Hf' Hfp' Hsame Hmem Hkeep]. pose proof (iv_tree _ _ Hi) as [Hfile Hroot Hfree Hrdirs].
  assert (∀ g y, w_files w' !! g = Some y → is_Some (w_files w !! g)) as Hold.
  { intros g y Hg. destruct (decide (g = f)) as [-> |]; [by eexists |]. destruct (decide (g = fp)) as [-> |]; [by eexists |].
    rewrite Hsame in Hg by done. by eexists. }
  constructor; try done.
  - intros g y Hg. split; [by apply unlink_linked |]. destruct (Hold g y Hg) as [z Hz]. destruct (Hfile g z Hz) as (_ & Hls & ?).
    split; [| done]. destruct (decide (g = f)) as [-> |]; [simplify_eq; by apply (listed_same w _ x) |].
    destruct (decide (g = fp)) as [-> |]; [| rewrite Hsame in Hg by done; simplify_eq; by destruct Hls].
    simplify_eq. destruct Hls as [Hc Hn Hnx Ho]. destruct unlink_lists as (l1 & l2 & Hcells & Hbl & Hcp & Hcp'). constructor.
    + cbn. by rewrite Hcells.
    + rewrite Hcp'. rewrite Hcp in Hn. cbn. rewrite length_app in *. cbn in Hn. lia.
    + cbn. lia.
    + cbn. intros c Hin. assert (c.1 ∈ (fl_filelist p).*1) as Hc1 by (rewrite <- Hcells; by apply list_elem_of_fmap_2).
      apply list_elem_of_fmap in Hc1 as (c' & -> & Hc'). by apply Ho.
  - intros t T HT. destruct (Hroot t T HT) as (? & v & Hv & Hvp & ?). split; [done |].
    assert (t_root T ≠ f) as Hrf by (intros Heq; rewrite Heq in *; simplify_eq; congruence).
    destruct (Hkeep _ v Hv Hrf) as (v' & ? & ? & _ & ?). exists v'. split_and!; congruence.
  - split; [apply Hfree |]. intros g Hg. destruct (proj2 Hfree g Hg) as [Hnone ?]. split; [| done].
    destruct (w_files w' !! g) as [y|] eqn:Hy; [| done]. destruct (Hold g y Hy). congruence.
Qed.

(** What held [f] and its parent to each other is now in the hands of the program. *)
Lemma unlink_inv : inv w' (Hfile f :: Hfile fp :: hs).
Proof.
  pose proof unlink_unlinked as [Hf' Hfp' Hsame Hmem Hkeep]. pose proof Hi as [Ht Href Hread Hhold Hrdir Hfl Hrnd Hrm].
  destruct unlink_lists as (l1 & l2 & Hcells & _ & Hcp & Hcp').
  assert (∀ g y, w_files w' !! g = Some y → ∃ z, w_files w !! g = Some z ∧ fl_readers y = fl_readers z ∧ fl_ref y = fl_ref z ∧
    (fl_filelist y).*1 = (fl_filelist z).*1) as Hold.
  { intros g y Hg. destruct (decide (g = f)) as [-> |]; [exists x; by simplify_eq |].
    destruct (decide (g = fp)) as [-> |]; [exists p; by simplify_eq | rewrite Hsame in Hg by done; by exists y]. }
  constructor; try done; [apply unlink_tree_ok | | | | | |].
  - intros g y Hg. destruct (Hold g y Hg) as (z & Hz & _ & -> & _). destruct (Href g z Hz) as [Hr ?]. split; [| done].
    rewrite Hr, !refs_cons. cbn. destruct (decide (g = f)) as [-> |].
    + simplify_eq. unfold parented in *. rewrite Hpar. cbn. unfold children. cbn. rewrite decide_True, decide_False by done. lia.
    + rewrite (decide_False (P := f = g)) by done. destruct (decide (g = fp)) as [-> |].
      * simplify_eq. rewrite decide_True by done. rewrite Hcp, Hcp', !length_app. unfold parented. cbn. lia.
      * rewrite Hsame in Hg by done. simplify_eq. rewrite decide_False by done. lia.
  - intros g y Hg. destruct (Hold g y Hg) as (z & Hz & -> & _). rewrite !readers_cons. cbn. by apply Hread.
  - intros h [-> | [-> | Hh]%list.elem_of_cons]%list.elem_of_cons; [by eexists.. |].
    destruct (Hhold h Hh) as [z Hz]. destruct (decide (hold_file h = f)) as [-> |]; [by eexists |].
    destruct (Hkeep _ z Hz) as (z' & ? & _); [done |]. by exists z'.
  - intros h r [-> | [-> | Hh]%list.elem_of_cons]%list.elem_of_cons; [done.. |]. by apply Hrdir.
  - intros r g rd c y [[=] | [[=] | Hh]%list.elem_of_cons]%list.elem_of_cons Hr Hc Hg.
    destruct (Hold g y Hg) as (z & Hz & _ & _ & ->). by eapply Hfl.
  - intros g q [[=] | [[=] | Hh]%list.elem_of_cons]%list.elem_of_cons. by apply Hrm.
Qed.
End Unlink.

(** What the program holds may be called something else. *)
Lemma inv_swap w h h' hs :
  hold_file h' = hold_file h → hold_rdir h' = hold_rdir h → (∀ f, reads f h' = reads f h) →
  (∀ f fp, h' = Hremove f fp → f ≠ fp) → (∀ r f, h' = Hdir r f → h = h') → inv w (h :: hs) → inv w (h' :: hs).
Proof.
  intros Hf Hr Hrd Hrm Hd [Ht Href Hread Hhold Hrdir Hfl Hnd Hrm'].
  assert (∀ k, k ∈ h' :: hs → ∃ k', k' ∈ h :: hs ∧ hold_file k = hold_file k' ∧ hold_rdir k = hold_rdir k') as Hin.
  { intros k [-> | Hk]%list.elem_of_cons; [exists h; by split; [left |] | exists k; by split; [right |]]. }
  constructor; try done.
  - intros f x Hx. rewrite refs_cons, Hf. destruct (Href f x Hx) as [Hr' ?]. by rewrite refs_cons in Hr'.
  - intros f x Hx. rewrite readers_cons, Hrd. specialize (Hread f x Hx). by rewrite readers_cons in Hread.
  - intros k Hk. destruct (Hin k Hk) as (k' & Hk' & -> & _). by apply Hhold.
  - intros k r Hk Hkr. destruct (Hin k Hk) as (k' & Hk' & -> & Heq). apply (Hrdir k'); congruence.
  - intros r f rd c x Hk. apply (Hfl r). apply list.elem_of_cons in Hk as [Hk | Hk]; [| by right].
    rewrite (Hd r f); [| done]. rewrite Hk. left.
  - cbn in *. by rewrite Hr.
  - intros f fp [Hk | Hk]%list.elem_of_cons; [by apply Hrm | apply Hrm'; by right].
Qed.

Lemma removefile_begin_ok w hs f :
  inv w (Hfile f :: hs) →
  ∃ r x, removefile_begin f w = Ok r ∧ w_files w !! f = Some x ∧
    match r with
    | inl _ => fl_parent x = None ∨ fl_parent x = Some f
    | inr fp => inv w (Hremove f fp :: hs) ∧ fl_parent x = Some fp ∧ fp ≠ f ∧ is_Some (w_files w !! fp)
    end.
Proof.
  intros Hi. destruct (iv_hold _ _ Hi (Hfile f)) as [x Hf]; [by left |]. cbn in Hf.
  unfold removefile_begin, getfile. rewrite Hf. cbn [res_of_option mbind res_bind].
  destruct (tr_file _ (iv_tree _ _ Hi) f x Hf) as ([_ Hpar _ _ _ _] & _).
  destruct (fl_parent x) as [fp|] eqn:Hp; [| by eexists _, x; rewrite Hp; auto].
  case_decide as He; [by eexists _, x; subst; auto |].
  eexists _, x. split_and!; try done. cbn. split_and!; try done.
  - apply (inv_swap w (Hfile f)); try done. by intros ? ? [= <- <-].
  - specialize (Hpar fp eq_refl). rewrite decide_False in Hpar by done. destruct Hpar as (y & ? & _). by exists y.
Qed.

Definition drop_child (f : addr) (n : node) : node := (n.1.1.1, n.1.1.2, filter (λ g, g ≠ f) n.1.2, n.2).

Lemma hier_unlink w hs f fp x p l :
  inv w hs → w_files w !! f = Some x → w_files w !! fp = Some p → fp ≠ f → fl_parent x = Some fp →
  clearcell f (fl_filelist p) = Some l →
  hier (setfile f (x <| fl_parent := None |>)
    (setfile fp (p <| fl_filelist := l |> <| fl_nchild := fl_nchild p - 1 |> <| fl_nxchild := fl_nxchild p + 1 |>) w)) =
  delete f (alter (drop_child f) fp (hier w)).
Proof.
  intros Hi Hf Hfp Hne Hpar Hl.
  destruct (unlink_lists w hs f fp x p l Hi Hf Hfp Hne Hpar Hl) as (l1 & l2 & _ & _ & Hcp & Hcp').
  destruct (tr_file _ (iv_tree _ _ Hi) fp p Hfp) as ([_ _ Hnd _ _ _] & _). rewrite Hcp in Hnd.
  apply map_eq. intros g. rewrite hier_lookup. cbn. destruct (decide (f = g)) as [<- | Hgf].
  { by rewrite lookup_insert_eq, lookup_delete_eq. }
  rewrite lookup_insert_ne, lookup_delete_ne by done. destruct (decide (fp = g)) as [<- | Hgp].
  - rewrite lookup_insert_eq, lookup_alter_eq, hier_lookup, Hfp. cbn. destruct (fl_parent p) as [q|] eqn:Hq; [| done]. cbn.
    change (omap snd l = l1 ++ l2) in Hcp'. change (omap snd (fl_filelist p) = l1 ++ f :: l2) in Hcp.
    unfold links, drop_child, children. cbn. rewrite Hcp', Hcp, Hq. do 3 f_equal.
    apply list.NoDup_app in Hnd as (_ & Hd & [Hn _]%list.NoDup_cons).
    rewrite list.filter_app, filter_cons, decide_False by auto.
    rewrite !filter_whole; [done | |]; intros c Hc ->; [done |]. by apply (Hd f); [| left].
  - by rewrite lookup_insert_ne, lookup_alter_ne, hier_lookup by done.
Qed.

(** The second half: the file is out of its parent's list, or nothing has happened. *)
Lemma removefile_locked_ok w hs f fp :
  inv w (Hremove f fp :: hs) → is_Some (w_files w !! fp) →
  ∃ e w' x, removefile_locked f fp w = Ok (e, w') ∧ w_files w !! f = Some x ∧
    match e with
    | Some _ => w' = w ∧ (children x ≠ [] ∨ fl_parent x ≠ Some fp)
    | None => inv w' (Hfile fp :: Hfile f :: Hfile f :: hs) ∧ children x = [] ∧ fl_parent x = Some fp ∧ fp ≠ f ∧
        w_rdirs w' = w_rdirs w ∧ w_gone w' = w_gone w ∧ hier w' = delete f (alter (drop_child f) fp (hier w)) ∧
        (∀ d y, w_files w !! d = Some y → 0 < readers d hs →
           ∃ y', w_files w' !! d = Some y' ∧ (if decide (d = fp) then clearcell f (fl_filelist y) else Some (fl_filelist y)) = Some (fl_filelist y'))
    end.
Proof.
  intros Hi [p Hfp]. destruct (iv_hold _ _ Hi (Hremove f fp)) as [x Hf]; [by left |]. cbn in Hf.
  assert (fp ≠ f) as Hne by (intros <-; by apply (iv_rm _ _ Hi fp fp); [left |]).
  assert (inv w (Hfile f :: hs)) as Hif by (by apply (inv_swap w (Hremove f fp))).
  unfold removefile_locked, getfile. rewrite Hf, Hfp. cbn [res_of_option mbind res_bind].
  destruct (tr_file _ (iv_tree _ _ Hi) f x Hf) as ([_ Hpar _ _ _ _] & [_ Hnc _ _] & _).
  case_decide as Hch.
  { eexists (Some _), w, x. split_and!; try done. left. intros Hc. rewrite Hc in Hnc. done. }
  case_decide as Hp; [eexists (Some _), w, x; by auto 6 |].
  specialize (Hpar fp). destruct (decide (fl_parent x = Some fp)) as [Hpx |]; [| done]. specialize (Hpar Hpx).
  rewrite decide_False in Hpar by done. destruct Hpar as (p' & Hp' & Hin). assert (p' = p) as -> by congruence.
  destruct (clearcell_spec f _ Hin) as (l & _ & _ & Hl & _). rewrite Hl.
  pose proof (unlink_inv w _ f fp x p l Hif Hf Hfp Hne Hpx Hl) as Hi1.
  pose proof (hier_unlink w _ f fp x p l Hif Hf Hfp Hne Hpx Hl) as Hh1.
  unfold modfile, getfile. cbn [w_files update setfile]. rewrite lookup_insert_ne, Hf by done. cbn [res_of_option mbind res_bind].
  set (w1 := setfile f _ _) in *.
  assert (∃ p1, w_files w1 !! fp = Some p1 ∧ fl_filelist p1 = l) as (p1 & Hp1 & Hl1).
  { eexists. cbn. rewrite lookup_insert_ne by done. by rewrite lookup_insert_eq. }
  destruct (cleanfilelist_ok w1 _ fp p1 Hi1 Hp1) as (w2 & Hcl & Hi2 & _ & Hc2). rewrite Hcl. cbn [mbind res_bind].
  exists None, w2, x. split_and!; try done.
  - by apply (inv_perm _ (Hfile f :: Hfile fp :: Hfile f :: hs)); [solve_Permutation |].
  - apply length_zero_iff_nil. destruct (decide (fl_nchild x = 0)); [lia | done].
  - apply Hc2.
  - revert Hcl. unfold cleanfilelist, getfile. rewrite Hp1. cbn. do 2 (case_decide; [by intros [= <-] |]). by intros [= <-].
  - by rewrite (cm_hier _ _ _ Hc2).
  - intros d y Hd Hrd. assert (∃ y1, w_files w1 !! d = Some y1 ∧
      (if decide (d = fp) then clearcell f (fl_filelist y) else Some (fl_filelist y)) = Some (fl_filelist y1)) as (y1 & Hy1 & ->).
    { case_decide as Hdp; [exists p1; subst; by simplify_eq |]. destruct (decide (d = f)) as [-> | Hdf].
      - simplify_eq. eexists. cbn. by rewrite lookup_insert_eq.
      - exists y. cbn. by rewrite !lookup_insert_ne. }
    destruct (cm_lists _ _ _ Hc2 d y1 Hy1) as (y' & ? & <-); [by rewrite !readers_cons; cbn; lia |]. by exists y'.
Qed.

(** ** Allocation *)

Lemma elem_of_after n a g : g ∈ after n a → (a < g < a + Pos.of_succ_nat n)%positive.
Proof.
  revert a. induction n as [|n IH]; intros a; cbn [after]; [by intros ?%list.elem_of_nil |].
  intros [-> | Hg]%list.elem_of_cons; [lia |]. apply IH in Hg. lia.
Qed.

Lemma NoDup_after n a : NoDup (after n a).
Proof. revert a. induction n as [|n IH]; intros a; constructor; [| done]. intros Hin%elem_of_after. lia. Qed.

(** What is left when [f] has been taken: it is no file, and not free. *)
Record taken (w w' : world) (f : addr) : Prop := {
  tk_files : w_files w' = w_files w;
  tk_trees : w_trees w' = w_trees w;
  tk_rdirs : w_rdirs w' = w_rdirs w;
  tk_gone : w_gone w' = w_gone w;
  tk_new : w_files w !! f = None;
  tk_free : NoDup (w_free w') ∧ ∀ g, g ∈ w_free w' → w_files w !! g = None ∧ g ≠ f ∧ (g < w_next w')%positive;
  tk_next : (w_next w ≤ w_next w')%positive ∧ (f < w_next w')%positive
}.

Lemma allocfile_ok w : tree_ok w → ∃ f w', allocfile w = (f, setfile f file0 w') ∧ taken w w' f.
Proof.
  intros [Hfile _ [Hnd Hfree] _]. unfold allocfile.
  destruct (w_free w) as [|f free] eqn:Hfr; eexists _, _; (split; [reflexivity |]).
  - assert (∀ g, (w_next w ≤ g)%positive → w_files w !! g = None) as Hnew.
    { intros g Hg. destruct (w_files w !! g) as [x|] eqn:Hx; [| done]. destruct (Hfile g x Hx) as (_ & _ & ?). lia. }
    constructor; cbn -[after Pos.of_nat]; try done.
    + by apply Hnew.
    + split; [apply NoDup_after |]. intros g Hg%elem_of_after. change (Pos.of_succ_nat (NFILE - 1)) with 16%positive in Hg.
      change (Pos.of_nat NFILE) with 16%positive. split_and!; [apply Hnew; lia | lia..].
    + change (Pos.of_nat NFILE) with 16%positive. lia.
  - apply list.NoDup_cons in Hnd as [Hf Hnd]. constructor; cbn; try done.
    + apply Hfree. left.
    + split; [done |]. intros g Hg. destruct (Hfree g) as [? ?]; [by right |]. split_and!; [done | by intros -> | done].
    + split; [lia |]. apply Hfree. left.
Qed.

(** ** createfile *)

(** A new file [f], made in [fp] with the cell at [c]. *)
Section Link.
Context (w : world) (hs : list hold) (fp f c : addr) (p y : File) (w' : world).
Hypothesis Hi : inv w hs.
Hypothesis Hfp : w_files w !! fp = Some p.
Hypothesis Hnew : w_files w !! f = None.
Hypothesis Hy : fl_ref y = 2 ∧ fl_parent y = Some fp ∧ fl_filelist y = [] ∧ fl_tree y = fl_tree p ∧
  fl_nchild y = 0 ∧ fl_nxchild y = 0 ∧ fl_readers y = 0.
Hypothesis Hmeta : meta_ok (fl_dir y).
Hypothesis Hname : ∀ g, g ∈ children p → name_of w g ≠ d_name (fl_dir y).
Let p' := p <| fl_ref := fl_ref p + 1 |> <| fl_filelist := fl_filelist p ++ [(c, Some f)] |> <| fl_nchild := fl_nchild p + 1 |>.
Hypothesis Hfiles : w_files w' = <[fp := p']> (<[f := y]> (w_files w)).
Hypothesis Hrd : w_rdirs w' = w_rdirs w.
Hypothesis Htrees : ∀ t, t_root <$> w_trees w' !! t = t_root <$> w_trees w !! t.
Hypothesis Hcell : (w_next w ≤ c < w_next w')%positive.
Hypothesis Hnext : (f < w_next w')%positive.
Hypothesis Hfree : NoDup (w_free w') ∧ ∀ g, g ∈ w_free w' → w_files w !! g = None ∧ g ≠ f ∧ (g < w_next w')%positive.

Lemma link_ne : fp ≠ f.
Proof. congruence. Qed.

Lemma link_f : w_files w' !! f = Some y.
Proof. rewrite Hfiles, lookup_insert_ne by apply link_ne. apply lookup_insert_eq. Qed.

Lemma link_fp : w_files w' !! fp = Some p'.
Proof. rewrite Hfiles. apply lookup_insert_eq. Qed.

Lemma link_same g : g ≠ fp → g ≠ f → w_files w' !! g = w_files w !! g.
Proof. intros. by rewrite Hfiles, !lookup_insert_ne. Qed.

Lemma link_children : children p' = children p ++ [f].
Proof. unfold children, p'. cbn. rewrite list.omap_app. done. Qed.

Lemma link_y : children y = [].
Proof. unfold children. destruct Hy as (_ & _ & -> & _). done. Qed.

Lemma link_not_child g x : w_files w !! g = Some x → f ∉ children x.
Proof.
  intros Hx Hin. destruct (tr_file _ (iv_tree _ _ Hi) g x Hx) as ([Hc _ _ _ _ _] & _).
  destruct (Hc f Hin) as (_ & z & ? & _). congruence.
Qed.

(** An old file is there, with the children it had and perhaps one more. *)
Lemma link_old g x : w_files w !! g = Some x →
  ∃ x', w_files w' !! g = Some x' ∧ fl_dir x' = fl_dir x ∧ fl_parent x' = fl_parent x ∧ fl_tree x' = fl_tree x ∧
    children x' = children x ++ (if decide (g = fp) then [f] else []) ∧ fl_readers x' = fl_readers x ∧
    fl_ref x' = fl_ref x + (if decide (g = fp) then 1 else 0) ∧
    fl_filelist x' = fl_filelist x ++ (if decide (g = fp) then [(c, Some f)] else []).
Proof.
  intros Hx. destruct (decide (g = fp)) as [-> | Hne].
  - simplify_eq. exists p'. rewrite link_fp, link_children. by split_and!.
  - assert (g ≠ f) by congruence. exists x. rewrite link_same by done. rewrite !app_nil_r. split_and!; try done. lia.
Qed.

Lemma link_case g x' : w_files w' !! g = Some x' → g = f ∧ x' = y ∨ is_Some (w_files w !! g).
Proof.
  intros Hx. destruct (decide (g = f)) as [-> |]; [left; rewrite link_f in Hx; by simplify_eq | right].
  destruct (decide (g = fp)) as [-> |]; [by eexists |]. rewrite link_same in Hx by done. by eexists.
Qed.

Lemma link_name g : is_Some (w_files w !! g) → name_of w' g = name_of w g.
Proof. intros [x Hx]. unfold name_of. destruct (link_old g x Hx) as (x' & -> & Hd & _). rewrite Hx. cbn. by rewrite Hd. Qed.

Lemma link_linked g x' : w_files w' !! g = Some x' → linked w' g x'.
Proof.
  intros Hx'. destruct (link_case g x' Hx') as [[-> ->] | [x Hx]].
  - destruct Hy as (_ & Hyp & _ & Hyt & _). constructor; rewrite ?link_y; try done.
    + by intros g ?%list.elem_of_nil.
    + intros q. rewrite Hyp. intros [= <-]. rewrite decide_False by apply link_ne. exists p'. split; [apply link_fp |].
      rewrite link_children. apply elem_of_app. right. left.
    + constructor.
    + by intros g g' ?%list.elem_of_nil.
    + rewrite Hyt. destruct (tr_file _ (iv_tree _ _ Hi) fp p Hfp) as ([_ _ _ _ _ [t Ht]] & _).
      specialize (Htrees (fl_tree p)). rewrite Ht in Htrees. cbn in Htrees. by apply fmap_Some in Htrees as (t' & -> & _).
  - destruct (link_old g x Hx) as (x1 & Hx1 & Hd & Hp & Ht & Hc & _). rewrite Hx' in Hx1. injection Hx1 as <-.
    destruct (tr_file _ (iv_tree _ _ Hi) g x Hx) as ([Hgc Hgp Hgn Hgm Hgd Hgt] & _).
    constructor; rewrite ?Hc, ?Hp, ?Hd, ?Ht; try done.
    + intros d [Hd' | Hd']%elem_of_app.
      * destruct (Hgc d Hd') as (? & z & Hz & ?). split; [done |]. destruct (link_old d z Hz) as (z' & ? & _ & ? & _). exists z'. split; congruence.
      * case_decide; [| by apply list.elem_of_nil in Hd']. apply list_elem_of_singleton in Hd' as ->. subst g.
        split; [by intros Heq; destruct link_ne |]. exists y. split; [apply link_f | apply Hy].
    + intros q Hq. specialize (Hgp q Hq). case_decide.
      * destruct Hgp as (t & Hgt' & <-). specialize (Htrees (fl_tree x)). rewrite Hgt' in Htrees. cbn in Htrees.
        apply fmap_Some in Htrees as (t' & ? & ?). by exists t'.
      * destruct Hgp as (z & Hz & ?). destruct (link_old q z Hz) as (z' & ? & _ & _ & _ & Hcz & _). exists z'. split; [done |].
        rewrite Hcz. apply elem_of_app. by left.
    + case_decide; [| by rewrite app_nil_r]. apply list.NoDup_app. split_and!; [done | | apply NoDup_singleton].
      intros d Hd' ->%list_elem_of_singleton. by eapply link_not_child.
    + assert (∀ d, d ∈ children x → is_Some (w_files w !! d)) as Hlive by (intros d Hd'; destruct (Hgc d Hd') as (_ & z & Hz & _); by eexists).
      assert (∀ d d', d ∈ children x → d' ∈ (if decide (g = fp) then [f] else []) → name_of w' d ≠ name_of w' d') as Hdiff.
      { intros d d' Hd' Hd''. case_decide; [| by apply list.elem_of_nil in Hd'']. apply list_elem_of_singleton in Hd'' as ->.
        rewrite link_name by auto. unfold name_of at 2. rewrite link_f. cbn. subst g. simplify_eq. by apply Hname. }
      intros d d' [H1 | H1]%elem_of_app [H2 | H2]%elem_of_app Heq.
      * apply Hgm; [done.. |]. by rewrite !link_name in Heq by auto.
      * by destruct (Hdiff d d').
      * by destruct (Hdiff d' d).
      * case_decide; [| by apply list.elem_of_nil in H1]. set_solver.
    + destruct Hgt as [t Hgt']. specialize (Htrees (fl_tree x)). rewrite Hgt' in Htrees. cbn in Htrees.
      by apply fmap_Some in Htrees as (t' & -> & _).
Qed.

Lemma link_tree_ok : tree_ok w'.
Proof.
  pose proof (iv_tree _ _ Hi) as [Hfile Hroot Hfr Hrdirs]. assert (w_next w ≤ w_next w')%positive as Hle by lia.
  constructor.
  - intros g x' Hx'. split; [by apply link_linked |]. destruct (link_case g x' Hx') as [[-> ->] | [x Hx]].
    + split; [| done]. destruct Hy as (_ & _ & Hl & _ & Hn & Hnx & _). constructor; unfold children; rewrite ?Hl, ?Hn, ?Hnx; try done.
      * constructor.
      * by intros d ?%list.elem_of_nil.
    + destruct (Hfile g x Hx) as (_ & Hls & ?). split; [| lia]. destruct (decide (g = fp)) as [-> |].
      * assert (x = p) as -> by congruence. rewrite link_fp in Hx'. injection Hx' as <-. destruct Hls as [Hc Hn Hnx Ho]. constructor.
        -- cbn. rewrite fmap_app. apply list.NoDup_app. split_and!; [done | | apply NoDup_singleton].
           intros d Hd ->%list_elem_of_singleton. apply list_elem_of_fmap in Hd as (d & Hd & Hin). specialize (Ho d Hin). cbn in Hd. lia.
        -- rewrite link_children, length_app. cbn. lia.
        -- cbn. unfold blanks in *. rewrite list.filter_app, filter_cons, decide_False by done. cbn. by rewrite app_nil_r.
        -- cbn. intros d [Hd | ->%list_elem_of_singleton]%elem_of_app; [specialize (Ho d Hd) |]; cbn; lia.
      * rewrite link_same in Hx' by congruence. simplify_eq. by apply (listed_same w _ x').
  - intros t T HT. specialize (Htrees t). rewrite HT in Htrees. cbn in Htrees. symmetry in Htrees. apply fmap_Some in Htrees as (T0 & HT0 & ->).
    destruct (Hroot t T0 HT0) as (? & z & Hz & ? & ?). split; [lia |]. destruct (link_old _ z Hz) as (z' & ? & _ & ? & ? & _).
    exists z'. split_and!; congruence.
  - split; [apply Hfree |]. intros g Hg. destruct (proj2 Hfree g Hg) as (Hnone & Hgf & ?). split; [| done].
    destruct (w_files w' !! g) as [x'|] eqn:Hx'; [| done]. destruct (link_case g x' Hx') as [[-> _] | [? ?]]; [done | congruence].
  - intros r rd. rewrite Hrd. intros Hr. specialize (Hrdirs r rd Hr). lia.
Qed.

Lemma link_unheld h : h ∈ hs → hold_file h ≠ f.
Proof. intros Hh Heq. destruct (iv_hold _ _ Hi h Hh) as [x Hx]. congruence. Qed.

Lemma link_inv : inv w' (Hfile f :: hs).
Proof.
  pose proof Hi as [Ht Href Hread Hhold Hrdir Hfl Hnd Hrm]. assert (refs f hs = 0) as Hf0 by apply refs_none, link_unheld.
  constructor; try done; [apply link_tree_ok | | | | | |].
  - intros g x' Hx'. rewrite refs_cons. cbn. destruct (link_case g x' Hx') as [[-> ->] | [x Hx]].
    + rewrite decide_True, link_y, Hf0 by done. destruct Hy as (-> & Hp & _). unfold parented. rewrite Hp. cbn. lia.
    + destruct (link_old g x Hx) as (x1 & Hx1 & _ & Hp & _ & Hc & _ & Hr & _). rewrite Hx' in Hx1. injection Hx1 as <-.
      rewrite decide_False by (intros ->; congruence). destruct (Href g x Hx) as [Hrx ?]. unfold parented in *.
      rewrite Hr, Hp, Hc, length_app, Hrx. case_decide; cbn; lia.
  - intros g x' Hx'. rewrite readers_cons. cbn. destruct (link_case g x' Hx') as [[-> ->] | [x Hx]].
    + rewrite refs_readers by done. by destruct Hy as (_ & _ & _ & _ & _ & _ & ->).
    + destruct (link_old g x Hx) as (x1 & Hx1 & _ & _ & _ & _ & Hr & _). rewrite Hx' in Hx1. injection Hx1 as <-.
      rewrite Hr. by apply Hread.
  - intros h [-> | Hh]%list.elem_of_cons; [eexists; apply link_f |]. destruct (Hhold h Hh) as [x Hx].
    destruct (link_old _ x Hx) as (x' & ? & _). by exists x'.
  - intros h r [-> | Hh]%list.elem_of_cons; [done |]. rewrite Hrd. by apply Hrdir.
  - intros r g rd d x' [[=] | Hh]%list.elem_of_cons Hr Hd Hx'. rewrite Hrd in Hr.
    destruct (link_case g x' Hx') as [[-> ->] | [x Hx]]; [by destruct (link_unheld _ Hh) |].
    destruct (link_old g x Hx) as (x1 & Hx1 & _ & _ & _ & _ & _ & _ & Hl). rewrite Hx' in Hx1. injection Hx1 as <-.
    rewrite Hl, fmap_app. apply elem_of_app. left. by eapply Hfl.
  - intros g q [[=] | Hh]%list.elem_of_cons. by apply Hrm.
Qed.

Definition add_child (g : addr) (n : node) : node := (n.1.1.1, n.1.1.2, n.1.2 ++ [g], n.2).

Lemma link_hier : hier w' = <[f := (fl_dir y, Some fp, [], fl_tree p)]> (alter (add_child f) fp (hier w)).
Proof.
  destruct Hy as (_ & Hyp & _ & Hyt & _).
  apply map_eq. intros g. rewrite hier_lookup. destruct (decide (f = g)) as [<- | Hgf].
  - rewrite link_f, lookup_insert_eq. cbn. unfold links. by rewrite Hyp, link_y, Hyt.
  - rewrite lookup_insert_ne by done. destruct (decide (fp = g)) as [<- | Hgp].
    + rewrite link_fp, lookup_alter_eq, hier_lookup, Hfp. cbn -[links add_child]. change (fl_parent p') with (fl_parent p).
      destruct (fl_parent p) as [q|] eqn:Hq; [| done]. unfold links, add_child. rewrite link_children. cbn. by rewrite Hq.
    + by rewrite link_same, lookup_alter_ne, hier_lookup by congruence.
Qed.
End Link.
