(* ===== verification/FiletreeOps.v ===== *)
(** * FiletreeOps: creating, walking and reading directories

    The operations of file.c built on those of {!FiletreeProps}, against the hierarchy: a
    child is found by its name, a path is resolved element by element, and a Readdir has a
    part of its directory ahead. *)

From stdpp Require Import strings.
From S2P Require Import Prelude Bytes Fcall FcallProps Stat StatProps Rune RuneProps Srv Filetree FiletreeInv FiletreeProps.

(** ** Names *)

(** The child of [d] called [name]. *)
Definition child (w : world) (d : addr) (name : list Z) : option addr :=
  x ← w_files w !! d; head (filter (λ g, name_of w g = Some name) (children x)).

Lemma findname_spec w name (l : list cell) :
  (∀ g, g ∈ (omap snd l : list addr) → name_of w g ≠ None) →
  findname w l name = Ok (head (filter (λ g, name_of w g = Some name) (omap snd l : list addr))).
Proof.
  induction l as [|[c [g|]] l IH]; intros Hn; cbn [findname]; [done | | by apply IH].
  assert (name_of w g ≠ None) as Hg by (apply Hn; left). unfold getfile, name_of in Hg.
  destruct (w_files w !! g) as [x|] eqn:Hx; [| done]. cbn in Hg. unfold getfile. rewrite Hx. cbn [res_of_option mbind res_bind].
  destruct (d_name (fl_dir x)) as [n|] eqn:Hd; [| done]. cbn [res_of_option mbind res_bind].
  change (omap snd ((c, Some g) :: l)) with (g :: omap snd l : list addr). rewrite filter_cons.
  assert (name_of w g = Some n) as Hng by (unfold name_of; rewrite Hx; done). rewrite Hng.
  destruct (decide (n = name)) as [-> | Hne].
  - by rewrite decide_True.
  - rewrite decide_False by congruence. apply IH. intros d Hd'. apply Hn. by right.
Qed.

Lemma named w hs d x g : inv w hs → w_files w !! d = Some x → g ∈ children x → name_of w g ≠ None.
Proof.
  intros Hi Hd Hg. destruct (tr_file _ (iv_tree _ _ Hi) d x Hd) as ([Hc _ _ _ _ _] & _). destruct (Hc g Hg) as (_ & y & Hy & _).
  destruct (tr_file _ (iv_tree _ _ Hi) g y Hy) as ([_ _ _ _ [Hn _] _] & _). unfold name_of. by rewrite Hy.
Qed.

Lemma findname_ok w hs d x name :
  inv w hs → w_files w !! d = Some x → findname w (fl_filelist x) name = Ok (child w d name).
Proof.
  intros Hi Hd. unfold child. rewrite Hd. apply findname_spec. intros g Hg. by eapply named.
Qed.

Lemma child_Some w d name g :
  child w d name = Some g → ∃ x, w_files w !! d = Some x ∧ g ∈ children x ∧ name_of w g = Some name.
Proof.
  unfold child. destruct (w_files w !! d) as [x|]; [| done]. cbn. intros Hh.
  assert (g ∈ filter (λ g, name_of w g = Some name) (children x)) as [? ?]%list_elem_of_filter.
  { destruct (filter _ _); [done |]. injection Hh as ->. left. }
  eauto.
Qed.

Lemma child_None w d x name g : child w d name = None → w_files w !! d = Some x → g ∈ children x → name_of w g ≠ Some name.
Proof.
  unfold child. intros Hc Hx Hg Hn. rewrite Hx in Hc. cbn in Hc.
  assert (g ∈ filter (λ g, name_of w g = Some name) (children x)) as Hin by (by apply list_elem_of_filter).
  destruct (filter _ _); [by apply list.elem_of_nil in Hin | done].
Qed.

(** Names are unique, so that being a child of that name is enough. *)
Lemma child_unique w hs d x name g :
  inv w hs → w_files w !! d = Some x → g ∈ children x → name_of w g = Some name → child w d name = Some g.
Proof.
  intros Hi Hd Hg Hn. destruct (child w d name) as [g'|] eqn:Hc; [| by destruct (child_None w d x name g)].
  destruct (child_Some _ _ _ _ Hc) as (x' & Hx' & Hg' & Hn'). assert (x' = x) as -> by congruence. f_equal.
  destruct (tr_file _ (iv_tree _ _ Hi) d x Hd) as ([_ _ _ Hu _ _] & _). apply Hu; congruence.
Qed.

Lemma tree_ok_malloc w : tree_ok w → tree_ok (w <| w_next := Pos.succ (w_next w) |>).
Proof.
  intros Ht. apply (tree_ok_links w); [constructor; try done; cbn; lia | | | exact Ht].
  - intros d x Hd. destruct (tr_file _ Ht d x Hd) as (_ & Hls & _). apply (listed_same w _ x); try done. cbn. lia.
  - intros r rd Hr. pose proof (tr_rdirs _ Ht r rd Hr). cbn. lia.
Qed.

(** ** createfile *)

Lemma estrdup9p_ok s : s ≠ None → estrdup9p s = Ok s.
Proof. by destruct s. Qed.

(** The entry of a new file. *)
Definition new_dir (p : File) (name : list Z) (uid : cptr) (path perm now : Z) : Dir :=
  dir0 <| d_name := Some name |> <| d_uid := if uid is Some _ then uid else d_uid (fl_dir p) |> <| d_gid := d_gid (fl_dir p) |>
       <| d_muid := if uid is Some _ then uid else Some (str "unknown") |>
       <| d_qid := mkQid path 0 (qidtype perm) |> <| d_mode := perm |> <| d_atime := now |> <| d_mtime := now |> <| d_length := 0 |>.

Lemma new_dir_ok p name uid path perm now :
  meta_ok (fl_dir p) → short (Some name) → short uid → meta_ok (new_dir p name uid path perm now).
Proof.
  intros (_ & Hu & Hg & Hs) Hn Huid. unfold sv_of in Hs. rewrite !list.Forall_cons in Hs. destruct Hs as (_ & ? & ? & _).
  unfold meta_ok. cbn. split_and!; [done | by destruct uid | done |]. by destruct uid; repeat constructor.
Qed.

Lemma createfile_ok w hs fp name uid perm now p :
  inv w hs → w_files w !! fp = Some p → short (Some name) → short uid →
  ∃ r w', createfile fp name uid perm now w = Ok (r, w') ∧
    match r with
    | inl _ => w' = w ∧ (Z.land (q_type (d_qid (fl_dir p))) QTDIR = 0 ∨ child w fp name ≠ None)
    | inr f => child w fp name = None ∧ w_files w !! f = None ∧ inv w' (Hfile f :: hs) ∧ w_rdirs w' = w_rdirs w ∧
        (∃ t, w_trees w !! fl_tree p = Some t ∧
           hier w' = <[f := (new_dir p name uid (t_qidgen t) perm now, Some fp, [], fl_tree p)]> (alter (add_child f) fp (hier w))) ∧
        ∃ c, ∀ d x, w_files w !! d = Some x → ∃ x', w_files w' !! d = Some x' ∧
          fl_filelist x' = fl_filelist x ++ (if decide (d = fp) then [(c, Some f)] else [])
    end.
Proof.
  intros Hi Hfp Hsname Hsuid. unfold createfile, getfile. rewrite Hfp. cbn [res_of_option mbind res_bind].
  case_decide as Hdir; [eexists (inl _), w; by auto |].
  rewrite (findname_ok w hs fp p name Hi Hfp). cbn [mbind res_bind].
  destruct (child w fp name) as [g|] eqn:Hch; [eexists (inl _), w; by auto |].
  unfold malloc. pose proof (iv_tree _ _ Hi) as Ht.
  set (w1 := w <| w_next := Pos.succ (w_next w) |>).
  assert (tree_ok w1) as Ht1 by by apply tree_ok_malloc.
  destruct (allocfile_ok w1 Ht1) as (f & w2 & -> & [Hfs Htr Hrd Hgone Hnew Hfree [Hn1 Hn2]]).
  destruct (tr_file _ Ht fp p Hfp) as ([_ _ _ _ (Hname & Huid & Hgid & Hshort) [t Htree]] & _ & _).
  rewrite (estrdup9p_ok (if uid is Some _ then uid else d_uid (fl_dir p))) by (by destruct uid). cbn [mbind res_bind].
  rewrite (estrdup9p_ok (d_gid (fl_dir p))) by done. cbn [mbind res_bind].
  rewrite (estrdup9p_ok (if uid is Some _ then uid else Some (str "unknown"))) by (by destruct uid). cbn [mbind res_bind]. cbn [w_trees update setfile]. rewrite Htr. change (w_trees w1) with (w_trees w). rewrite Htree.
  cbn [res_of_option mbind res_bind]. fold (new_dir p name uid (t_qidgen t) perm now).
  set (y := file0 <| fl_dir := _ |> <| fl_parent := Some fp |> <| fl_tree := fl_tree p |> <| fl_ref := 2 |>).
  eexists (inr f), _. split; [reflexivity |]. change (w_files w1) with (w_files w) in *.
  lazymatch goal with |- _ ∧ _ ∧ inv ?st _ ∧ _ => set (w' := st) end.
  assert (w_files w' = <[fp := p <| fl_ref := fl_ref p + 1 |> <| fl_filelist := fl_filelist p ++ [(w_next w, Some f)] |>
    <| fl_nchild := fl_nchild p + 1 |>]> (<[f := y]> (w_files w))) as Hfiles.
  { subst w'. cbn. by rewrite Hfs, insert_insert_eq. }
  assert (∀ t', t_root <$> w_trees w' !! t' = t_root <$> w_trees w !! t') as Htrees.
  { intros t'. subst w'. cbn. rewrite ?Htr. change (w_trees w1) with (w_trees w). destruct (decide (fl_tree p = t')) as [<- |].
    - by rewrite lookup_insert_eq, Htree.
    - by rewrite lookup_insert_ne. }
  assert (∀ g, g ∈ children p → name_of w g ≠ d_name (fl_dir y)) as Hnames by (intros g Hg; by eapply child_None).
  assert (fl_ref y = 2 ∧ fl_parent y = Some fp ∧ fl_filelist y = [] ∧ fl_tree y = fl_tree p ∧
    fl_nchild y = 0 ∧ fl_nxchild y = 0 ∧ fl_readers y = 0) as Hy by done.
  assert (w_rdirs w' = w_rdirs w) as Hrd' by exact Hrd.
  assert (w_next w ≤ w_next w < w_next w')%positive as Hcell by (change (w_next w') with (w_next w2); cbn in Hn1; lia).
  split_and!; [done | exact Hnew | | done | |].
  - eapply link_inv; try done. subst y. cbn. by apply new_dir_ok.
  - exists t. split; [done |]. exact (link_hier w fp f (w_next w) p y w' Hfp Hnew Hy Hfiles).
  - exists (w_next w). intros d x Hd. destruct (link_old w fp f (w_next w) p y w' Hfp Hnew Hy Hfiles d x Hd) as (x' & ? & _ & _ & _ & _ & _ & _ & ?). by exists x'.
Qed.

(** ** alloctree *)

(** A root takes nothing from the files that are there. *)
Section Root.
Context (w : world) (hs : list hold) (f t : addr) (y : File) (T : Tree) (w' : world).
Hypothesis Hi : inv w hs.
Hypothesis Hf : w_files w !! f = None.
Hypothesis Ht : w_trees w !! t = None.
Hypothesis HT : t_root T = f.
Hypothesis Hy : fl_ref y = 1 ∧ fl_parent y = Some f ∧ fl_filelist y = [] ∧ fl_tree y = t ∧
  fl_nchild y = 0 ∧ fl_nxchild y = 0 ∧ fl_readers y = 0.
Hypothesis Hmeta : meta_ok (fl_dir y).
Hypothesis Hfiles : w_files w' = <[f := y]> (w_files w).
Hypothesis Htrees : w_trees w' = <[t := T]> (w_trees w).
Hypothesis Hrd : w_rdirs w' = w_rdirs w.
Hypothesis Hle : (w_next w ≤ w_next w')%positive.
Hypothesis Hnext : (f < w_next w')%positive ∧ (t < w_next w')%positive.
Hypothesis Hfree : NoDup (w_free w') ∧ ∀ g, g ∈ w_free w' → w_files w !! g = None ∧ g ≠ f ∧ (g < w_next w')%positive.

Lemma root_old g x : w_files w !! g = Some x → w_files w' !! g = Some x.
Proof. intros Hg. by rewrite Hfiles, lookup_insert_ne by congruence. Qed.

Lemma root_case g x : w_files w' !! g = Some x → g = f ∧ x = y ∨ w_files w !! g = Some x.
Proof. rewrite Hfiles. intros [[<- <-] | [_ ?]]%lookup_insert_Some; auto. Qed.

Lemma root_tree s S : w_trees w !! s = Some S → w_trees w' !! s = Some S.
Proof. intros Hs. by rewrite Htrees, lookup_insert_ne by congruence. Qed.

Lemma root_linked g x : w_files w' !! g = Some x → linked w' g x.
Proof.
  intros [[-> ->] | Hg]%root_case.
  - destruct Hy as (_ & Hp & Hl & Htr & _). assert (children y = []) as Hch by (unfold children; by rewrite Hl).
    constructor; rewrite ?Hch; try done.
    + by intros d ?%list.elem_of_nil.
    + intros q. rewrite Hp. intros [= <-]. rewrite decide_True, Htrees, Htr, lookup_insert_eq by done. by exists T.
    + constructor.
    + by intros d d' ?%list.elem_of_nil.
    + rewrite Htrees, Htr, lookup_insert_eq. by eexists.
  - destruct (tr_file _ (iv_tree _ _ Hi) g x Hg) as ([Hgc Hgp Hgn Hgm Hgd [s Hgt]] & _).
    assert (∀ d, d ∈ children x → name_of w' d = name_of w d) as Hnm.
    { intros d Hd. destruct (Hgc d Hd) as (_ & z & Hz & _). unfold name_of. by rewrite (root_old d z Hz), Hz. }
    constructor; try done.
    + intros d Hd. destruct (Hgc d Hd) as (? & z & Hz & ?). split; [done |]. exists z. by split; [apply root_old |].
    + intros q Hq. specialize (Hgp q Hq). case_decide.
      * destruct Hgp as (t' & Ht' & ?). exists t'. by split; [apply root_tree |].
      * destruct Hgp as (z & Hz & ?). exists z. by split; [apply root_old |].
    + intros d d' Hd Hd'. rewrite !Hnm by done. by apply Hgm.
    + exists s. by apply root_tree.
Qed.

Lemma root_tree_ok : tree_ok w'.
Proof.
  pose proof (iv_tree _ _ Hi) as [Hfile Hroot Hfr Hrdn]. constructor.
  - intros g x Hx. split; [by apply root_linked |]. apply root_case in Hx as [[-> ->] | Hg].
    + split; [| apply Hnext]. destruct Hy as (_ & _ & Hl & _ & Hn & Hnx & _).
      constructor; unfold children; rewrite ?Hl, ?Hn, ?Hnx; try done; [constructor | by intros c ?%list.elem_of_nil].
    + destruct (Hfile g x Hg) as (_ & Hls & ?). split; [by apply (listed_same w _ x) | lia].
  - intros s S. rewrite Htrees. intros [[<- <-] | [_ HS]]%lookup_insert_Some.
    + split; [apply Hnext |]. exists y. rewrite HT, Hfiles, lookup_insert_eq. destruct Hy as (_ & -> & _ & -> & _). done.
    + destruct (Hroot s S HS) as (? & z & Hz & ?). split; [lia |]. exists z. by split; [apply root_old |].
  - split; [apply Hfree |]. intros g Hg. destruct (proj2 Hfree g Hg) as (Hnone & ? & ?). split; [| done].
    by rewrite Hfiles, lookup_insert_ne by done.
  - intros r rd. rewrite Hrd. intros Hrr. specialize (Hrdn r rd Hrr). lia.
Qed.

Lemma root_inv : inv w' hs.
Proof.
  pose proof Hi as [_ Href Hread Hhold Hrdir Hfl Hnd Hrm].
  assert (∀ h, h ∈ hs → hold_file h ≠ f) as Huh by (intros h Hh Heq; destruct (Hhold h Hh); congruence).
  constructor; try done; [apply root_tree_ok | | | | |].
  - intros g x [[-> ->] | Hg]%root_case; [| by apply Href]. rewrite refs_none by done.
    destruct Hy as (Hr & Hp & Hl & _). unfold parented, children. by rewrite Hp, Hr, Hl.
  - intros g x [[-> ->] | Hg]%root_case; [| by apply Hread]. rewrite refs_readers by (by apply refs_none). apply Hy.
  - intros h Hh. destruct (Hhold h Hh) as [x Hx]. exists x. by apply root_old.
  - intros h r Hh. rewrite Hrd. by apply Hrdir.
  - intros r g rd c x Hh. rewrite Hrd. intros Hrr Hc [[-> ->] | Hg]%root_case; [by destruct (Huh _ Hh) | by eapply Hfl].
Qed.
End Root.

Lemma alloctree_ok w hs uid gid mode user now :
  inv w hs → short uid → short gid → short user →
  ∃ t w' f T y, alloctree uid gid mode user now w = Ok (t, w') ∧ inv w' hs ∧ w_trees w' !! t = Some T ∧ t_root T = f ∧
    w_files w !! f = None ∧ w_files w' = <[f := y]> (w_files w) ∧ fl_parent y = Some f ∧ children y = [] ∧ fl_tree y = t ∧
    Z.land (q_type (d_qid (fl_dir y))) QTDIR ≠ 0 ∧ w_rdirs w' = w_rdirs w.
Proof.
  intros Hi Hsu Hsg Hsw. unfold alloctree, malloc. pose proof (iv_tree _ _ Hi) as Ht.
  set (w1 := w <| w_next := Pos.succ (w_next w) |>).
  assert (tree_ok w1) as Ht1 by by apply tree_ok_malloc.
  destruct (allocfile_ok w1 Ht1) as (f & w2 & -> & [Hfs Htr Hrd Hgone Hnew Hfree [Hn1 Hn2]]).
  set (u := if uid is Some _ then uid else if user is Some _ then user else Some (str "none")).
  assert (u ≠ None) as Hu by (subst u; by destruct uid, user).
  rewrite (estrdup9p_ok u) by done. cbn [mbind res_bind].
  rewrite (estrdup9p_ok (if gid is Some _ then gid else u)) by (by destruct gid). cbn [mbind res_bind].
  rewrite (estrdup9p_ok u) by done. cbn [mbind res_bind].
  eexists _, _, f, (mkTree f 0 1), _. split; [reflexivity |]. change (w_files w1) with (w_files w) in *.
  lazymatch goal with |- inv ?st _ ∧ _ => set (w' := st) end.
  assert (w_trees w !! w_next w = None) as Hnt.
  { destruct (w_trees w !! w_next w) as [T|] eqn:HT; [| done]. destruct (tr_root _ Ht _ T HT) as [? _]. lia. }
  assert (w_files w' = <[f := _]> (w_files w)) as Hfiles by (subst w'; cbn; by rewrite Hfs, insert_insert_eq).
  split_and!; try done; [| by cbn; rewrite lookup_insert_eq].
  eapply (root_inv w hs f (w_next w) _ (mkTree f 0 1) w'); try done.
  - by split_and!.
  - cbn. split_and!; [done.. | by destruct gid |].
    assert (short u) by (subst u; by destruct uid, user). repeat constructor; cbn; try done. by destruct gid.
  - subst w'. cbn. by rewrite Htr.
  - subst w'. cbn in Hn1 |- *. lia.
  - subst w'. cbn in Hn1, Hn2 |- *. lia.
Qed.

(** ** Assignments to the entry of a file *)

Section Setdir.
Context (w : world) (hs : list hold) (f : addr) (x : File) (d : Dir).
Hypothesis Hi : inv w hs.
Hypothesis Hf : w_files w !! f = Some x.
Hypothesis Hname : d_name d = d_name (fl_dir x).
Hypothesis Hmeta : meta_ok d.
Let w' := setfile f (x <| fl_dir := d |>) w.

Lemma setdir_new g y' :
  w_files w' !! g = Some y' →
  ∃ e, w_files w !! g = Some (y' <| fl_dir := e |>) ∧ d_name (fl_dir y') = d_name e ∧ (meta_ok e → meta_ok (fl_dir y')).
Proof.
  intros [[-> ->] | [_ Hg]]%setfile_case.
  - exists (fl_dir x). cbn. destruct x. by split_and!.
  - exists (fl_dir y'). by destruct y'.
Qed.

Lemma setdir_old g y : w_files w !! g = Some y → ∃ e, w_files w' !! g = Some (y <| fl_dir := e |>) ∧ d_name e = d_name (fl_dir y).
Proof.
  intros Hg. cbn. destruct (decide (f = g)) as [<- |].
  - rewrite lookup_insert_eq. exists d. by simplify_eq.
  - rewrite lookup_insert_ne by done. exists (fl_dir y). by destruct y.
Qed.

Lemma setdir_name g : name_of w' g = name_of w g.
Proof.
  unfold name_of. destruct (w_files w !! g) as [y|] eqn:Hg.
  - by destruct (setdir_old g y Hg) as (e & -> & ?).
  - destruct (w_files w' !! g) as [y'|] eqn:Hg'; [| done]. destruct (setdir_new g y' Hg') as (e & ? & _). congruence.
Qed.

Lemma setdir_tree_ok : tree_ok w'.
Proof.
  pose proof (iv_tree _ _ Hi) as [Hfile Hroot [Hfnd Hfree] Hrdirs]. constructor; [| | split; [done |] | done].
  - intros g y' Hg'. destruct (setdir_new g y' Hg') as (e & Hg & Hn & Hm).
    destruct (Hfile g _ Hg) as ([Hgc Hgp Hgn Hgm Hgd Hgt] & [] & ?). split; [| by split]. constructor; try done.
    + intros c Hc. destruct (Hgc c Hc) as (? & z & Hz & ?). split; [done |]. destruct (setdir_old c z Hz) as (e' & ? & _). eauto.
    + intros p Hp. specialize (Hgp p Hp). case_decide; [done |]. destruct Hgp as (z & Hz & ?).
      destruct (setdir_old p z Hz) as (e' & ? & _). eauto.
    + intros c c'. rewrite !setdir_name. apply Hgm.
    + by apply Hm.
  - intros t T HT. destruct (Hroot t T HT) as (? & z & Hz & ? & ?). split; [done |].
    destruct (setdir_old _ z Hz) as (e' & ? & _). eauto.
  - intros g Hg. destruct (Hfree g Hg) as [Hnone ?]. split; [| done]. destruct (w_files w' !! g) as [y'|] eqn:Hg'; [| done].
    destruct (setdir_new g y' Hg') as (e & ? & _). congruence.
Qed.

Lemma setdir_inv : inv w' hs.
Proof.
  pose proof Hi as [_ Href Hread Hhold Hrdir Hfl Hnd Hrm]. constructor; try done; [apply setdir_tree_ok | | | |].
  - intros g y' (e & Hg & _)%setdir_new. by apply (Href g _ Hg).
  - intros g y' (e & Hg & _)%setdir_new. by apply (Hread g _ Hg).
  - intros h [y Hy]%Hhold. destruct (setdir_old _ y Hy) as (e & ? & _). eauto.
  - intros r g rd c y' Hh Hr Hc (e & Hg & _)%setdir_new. by apply (Hfl r g rd c _ Hh Hr Hc Hg).
Qed.

Lemma setdir_hier : hier w' = alter (λ n : node, (d, n.1.1.2, n.1.2, n.2)) f (hier w).
Proof.
  apply map_eq. intros g. rewrite hier_lookup. cbn. destruct (decide (f = g)) as [<- |].
  - rewrite lookup_insert_eq, lookup_alter_eq, hier_lookup, Hf. unfold links. cbn. by destruct (fl_parent x).
  - by rewrite lookup_insert_ne, lookup_alter_ne, hier_lookup.
Qed.
End Setdir.
