(* ===== verification/FiletreeWalk.v ===== *)
(** * FiletreeWalk: walking a file tree and reading its directories

    walkfile against the resolution of a path, element by element, and the Readdirs of
    file.c, each of which has a part of the list of its directory ahead. *)

From stdpp Require Import strings.
From S2P Require Import Prelude Bytes Fcall FcallProps Stat StatProps Rune RuneProps Srv Filetree FiletreeInv FiletreeProps FiletreeOps.

(** ** One element *)

Definition toward (w : world) (d : addr) (elem : list Z) : option addr :=
  x ← w_files w !! d; if decide (elem = str "..") then fl_parent x else child w d elem.

Definition hand (g : option addr) (hs : list hold) : list hold :=
  match g with Some g => Hfile g :: hs | None => hs end.

Lemma parent_alive w hs d x p : inv w hs → w_files w !! d = Some x → fl_parent x = Some p → is_Some (w_files w !! p).
Proof.
  intros Hi Hd Hp. destruct (tr_file _ (iv_tree _ _ Hi) d x Hd) as ([_ Hpar _ _ _ _] & _). specialize (Hpar p Hp).
  case_decide as He; [subst; by exists x |]. destruct Hpar as (y & ? & _). by exists y.
Qed.

Lemma child_alive w hs d name g : inv w hs → child w d name = Some g → is_Some (w_files w !! g).
Proof.
  intros Hi (x & Hd & Hg & _)%child_Some. destruct (tr_file _ (iv_tree _ _ Hi) d x Hd) as ([Hc _ _ _ _ _] & _).
  destruct (Hc g Hg) as (_ & y & ? & _). by exists y.
Qed.

Lemma toward_alive w hs d elem g : inv w hs → toward w d elem = Some g → is_Some (w_files w !! g).
Proof.
  intros Hi. unfold toward. destruct (w_files w !! d) as [x|] eqn:Hd; [| done]. cbn. case_decide; intros Hg.
  - by eapply parent_alive.
  - by eapply child_alive.
Qed.

Lemma walkfile1_locked_ok w hs d elem :
  inv w hs → is_Some (w_files w !! d) →
  if decide (elem = str ".." ∧ toward w d elem = None) then walkfile1_locked d elem w = Ub
  else ∃ w', walkfile1_locked d elem w = Ok (toward w d elem, w') ∧ inv w' (hand (toward w d elem) hs) ∧ calm hs w w' ∧ same_links w w'.
Proof.
  intros Hi [x Hd]. assert (toward w d elem = if decide (elem = str "..") then fl_parent x else child w d elem) as Htw
    by (unfold toward; by rewrite Hd). unfold walkfile1_locked, getfile. rewrite Hd. cbn [res_of_option mbind res_bind].
  destruct (decide (elem = str ".." ∧ toward w d elem = None)) as [[-> Hn] | Hc].
  - rewrite decide_True in Htw by done. rewrite decide_True by done. by rewrite <- Htw, Hn.
  - destruct (decide (elem = str "..")) as [-> |].
    + destruct (toward w d (str "..")) as [p|] eqn:Hp; [| by destruct Hc]. rewrite <- Htw. cbn [res_of_option mbind res_bind].
      destruct (incref_ok w hs p Hi) as (w' & -> & ? & ? & ?); [by eapply toward_alive |]. by exists w'.
    + rewrite (findname_ok w hs d x elem Hi Hd). cbn [mbind res_bind]. rewrite Htw. destruct (child w d elem) as [g|] eqn:Hg.
      * destruct (incref_ok w hs g Hi) as (w' & -> & ? & ? & ?); [by eapply child_alive |]. by exists w'.
      * exists w. split_and!; auto using calm_refl, same_links_refl.
Qed.

(** What is calm leaves every element of a path where it was. *)
Lemma filter_agree {A} (P Q : A → Prop) `{∀ x, Decision (P x), ∀ x, Decision (Q x)} (l : list A) :
  (∀ x, x ∈ l → P x ↔ Q x) → filter P l = filter Q l.
Proof.
  induction l as [|x l IH]; [done |]. intros Hl. rewrite !filter_cons. rewrite IH by (intros y Hy; apply Hl; by right).
  by rewrite (decide_ext (P x) (Q x)) by (apply Hl; left).
Qed.

Lemma toward_calm w w' hs hs' d elem :
  calm hs w w' → inv w' hs' → is_Some (w_files w' !! d) → toward w' d elem = toward w d elem.
Proof.
  intros Hc Hi [x' Hd']. destruct (cm_links _ _ _ Hc d x' Hd') as (x & Hd & Hl).
  destruct (links_eq _ _ Hl) as (_ & Hp & Hch & _). unfold toward, child. rewrite Hd, Hd'. cbn. rewrite Hp, Hch.
  case_decide; [done |]. f_equal. apply filter_agree. intros g Hg.
  destruct (tr_file _ (iv_tree _ _ Hi) d x' Hd') as ([Hgc _ _ _ _ _] & _). rewrite <- Hch in Hg.
  destruct (Hgc g Hg) as (_ & y' & Hy' & _). destruct (cm_links _ _ _ Hc g y' Hy') as (y & Hy & Hly).
  destruct (links_eq _ _ Hly) as (Hdir & _). unfold name_of. rewrite Hy, Hy'. cbn. by rewrite Hdir.
Qed.

(** ** A path *)

(** The elements walkfile goes through. *)
Fixpoint split_slash (cur s : list Z) : list (list Z) :=
  match s with
  | [] => if decide (cur = []) then [] else [cur]
  | b :: s => if decide (b = slash) then cur :: split_slash [] s else split_slash (cur ++ [b]) s
  end.

Definition elems (path : list Z) : list (list Z) :=
  if decide (slash ∈ path) then split_slash [] path else [path].

Fixpoint resolve (w : world) (f : addr) (es : list (list Z)) : res (option addr) :=
  match es with
  | [] => Ok (Some f)
  | e :: es =>
      if decide (e = str ".." ∧ toward w f e = None) then Ub else
      match toward w f e with Some g => resolve w g es | None => Ok None end
  end.

Lemma strchr_slash t s : str_ok t → slash ∉ t → strchr (t ++ slash :: s) slash = Ok (Some (len t)).
Proof.
  intros Ht Hn. unfold strchr. change (u8 slash) with slash. rewrite !decide_False by done.
  rewrite strchr_at_skip; [| done |]; [by cbn |].
  rewrite Forall_forall. intros b Hb ->. by apply Hn, list_elem_of_In.
Qed.

Lemma strchr_noslash t : str_ok t → slash ∉ t → strchr (t ++ [0]) slash = Ok None.
Proof.
  intros Ht Hn. unfold strchr. change (u8 slash) with slash. rewrite !decide_False by done.
  rewrite strchr_at_skip; [| done |]; [by cbn |].
  rewrite Forall_forall. intros b Hb ->. by apply Hn, list_elem_of_In.
Qed.

(** [cur] up to the first slash. *)
Lemma slash_split (s : list Z) : slash ∉ s ∨ ∃ t u, s = t ++ slash :: u ∧ slash ∉ t.
Proof.
  destruct (decide (slash ∈ s)) as [Hin |]; [right | by left].
  induction s as [|b s IH]; [by apply list.elem_of_nil in Hin |].
  destruct (decide (b = slash)) as [-> | Hb]; [exists [], s; split; [done |]; by intros ?%list.elem_of_nil |].
  apply list.elem_of_cons in Hin as [? | Hin]; [by subst |]. destruct (IH Hin) as (t & u & -> & Ht).
  exists (b :: t), u. split; [done |]. by intros [? | ?]%list.elem_of_cons.
Qed.

Lemma split_slash_end cur s : slash ∉ s → split_slash cur s = if decide (cur ++ s = []) then [] else [cur ++ s].
Proof.
  revert cur. induction s as [|b s IH]; intros cur Hs; cbn; [by rewrite app_nil_r |].
  rewrite list.not_elem_of_cons in Hs. rewrite decide_False by naive_solver. rewrite IH by tauto. by rewrite <- app_assoc.
Qed.

Lemma split_slash_cut cur t u : slash ∉ t → split_slash cur (t ++ slash :: u) = (cur ++ t) :: split_slash [] u.
Proof.
  revert cur. induction t as [|b t IH]; intros cur Ht; cbn; [by rewrite app_nil_r |].
  rewrite list.not_elem_of_cons in Ht. rewrite decide_False by naive_solver. rewrite IH by tauto. by rewrite <- app_assoc.
Qed.

Lemma nextelem_ok s :
  str_ok s → s ≠ [] → ∃ e u, nextelem s = Ok (e, u) ∧ split_slash [] s = e :: split_slash [] u ∧ str_ok u ∧ (length u < length s)%nat.
Proof.
  intros Hs Hne. unfold nextelem. destruct (slash_split s) as [Hn | (t & u & -> & Hn)].
  - rewrite strchr_noslash by done. cbn [mbind res_bind]. exists s, []. split_and!; [done | | constructor |].
    + rewrite split_slash_end, app_nil_l, decide_False by done. done.
    + destruct s; [done | cbn; lia].
  - apply Forall_app in Hs as [Ht Hu]. apply Forall_cons_iff in Hu as [_ Hu].
    rewrite <- app_assoc. cbn [app]. rewrite strchr_slash by done. cbn [mbind res_bind].
    exists t, u. split_and!; [| by rewrite split_slash_cut | done | rewrite length_app; cbn; lia].
    f_equal. f_equal.
    + unfold takeZ. by rewrite Nat2Z.id, take_app_length.
    + unfold dropZ. rewrite Z2Nat.inj_add, Nat2Z.id by lia. change (Z.to_nat 1) with 1%nat.
      rewrite (cons_middle slash t u), app_assoc. rewrite drop_app_length'; [done |]. rewrite length_app. cbn. lia.
Qed.

Lemma calm_weaken hs hs' w w' : (∀ d, readers d hs' = readers d hs) → calm hs w w' → calm hs' w w'.
Proof. intros Hr []. constructor; try done. intros d x Hd. rewrite Hr. by apply cm_lists. Qed.

Lemma walkfile1_ok w hs d elem :
  inv w (Hfile d :: hs) →
  if decide (elem = str ".." ∧ toward w d elem = None) then walkfile1 d elem w = Ub
  else ∃ w', walkfile1 d elem w = Ok (toward w d elem, w') ∧ inv w' (hand (toward w d elem) hs) ∧ calm hs w w'.
Proof.
  intros Hi. pose proof (walkfile1_locked_ok w _ d elem Hi (iv_hold _ _ Hi (Hfile d) (list_elem_of_here _ _))) as Hl.
  unfold walkfile1. case_decide as Hc; [by rewrite Hl |]. destruct Hl as (w1 & -> & Hi1 & Hc1 & _). cbn [mbind res_bind].
  assert (inv w1 (Hfile d :: hand (toward w d elem) hs)) as Hi1'.
  { destruct (toward w d elem) as [g|]; [| done]. by apply (inv_perm _ (Hfile g :: Hfile d :: hs)); [constructor |]. }
  destruct (closefile_ok w1 _ d Hi1') as (w2 & _ & -> & Hi2 & Hc2 & _). cbn [mbind res_bind].
  exists w2. split_and!; [done.. |]. eapply calm_trans.
  - by apply (calm_weaken (Hfile d :: hs)).
  - apply (calm_weaken _ hs) in Hc2; [done |]. intros e. by destruct (toward w d elem).
Qed.

Lemma resolve_calm w w' hs hs' f es :
  calm hs w w' → inv w' hs' → is_Some (w_files w' !! f) → resolve w' f es = resolve w f es.
Proof.
  intros Hc Hi. revert f. induction es as [|e es IH]; intros f Hf; [done |]. cbn [resolve].
  rewrite (toward_calm w w' hs hs' f e) by done. case_decide; [done |].
  destruct (toward w f e) as [g|] eqn:Hg; [| done]. apply IH.
  apply (toward_alive w' hs' f e); [done |]. by rewrite (toward_calm w w' hs hs').
Qed.

(** The elements of a path, each a walk of its own, from a file the program holds. *)
Definition walks (r : res (option addr)) (hs : list hold) (w : world) (out : res (option addr * world)) : Prop :=
  match r with
  | Ok g => ∃ w', out = Ok (g, w') ∧ inv w' (hand g hs) ∧ calm hs w w'
  | Err => False
  | Ub => out = Ub
  end.

Lemma walks_one w hs f e : inv w (Hfile f :: hs) → walks (resolve w f [e]) hs w (walkfile1 f e w).
Proof.
  intros Hi. pose proof (walkfile1_ok w hs f e Hi) as Hw. cbn [resolve]. case_decide; [done |].
  by destruct (toward w f e).
Qed.

Lemma walk_elems_ok hs fuel s w f :
  inv w (Hfile f :: hs) → str_ok s → (length s < fuel)%nat → walks (resolve w f (split_slash [] s)) hs w (walk_elems fuel f s w).
Proof.
  revert s w f. induction fuel as [|fuel IH]; intros s w f Hi Hs Hf; [lia |]. cbn [walk_elems].
  case_decide as Hn; [subst; exists w; by split_and!; auto using calm_refl |].
  destruct (nextelem_ok s Hs Hn) as (e & u & -> & -> & Hu & Hlt). cbn [mbind res_bind resolve].
  pose proof (walkfile1_ok w hs f e Hi) as Hw. case_decide; [by rewrite Hw |].
  destruct Hw as (w1 & -> & Hi1 & Hc1). cbn [mbind res_bind].
  destruct (toward w f e) as [g|]; [| by exists w1]. specialize (IH u w1 g Hi1 Hu ltac:(lia)).
  rewrite (resolve_calm w w1 hs (Hfile g :: hs)) in IH; [| done.. | by apply (iv_hold _ _ Hi1 (Hfile g)); left].
  unfold walks in *. destruct (resolve w g _) as [r| |]; [| done..]. destruct IH as (w2 & -> & ? & ?).
  exists w2. split_and!; try done. by eapply calm_trans.
Qed.

Lemma walkfile_ok w hs f path :
  inv w (Hfile f :: hs) → str_ok path → walks (resolve w f (elems path)) hs w (walkfile f (Some path) w).
Proof.
  intros Hi Hp. unfold walkfile, elems. cbn [res_of_option mbind res_bind].
  destruct (decide (slash ∈ path)) as [Hin | Hn].
  - destruct (slash_split path) as [? | (t & u & -> & Ht)]; [done |]. pose proof Hp as Hp'. apply Forall_app in Hp' as [? _].
    rewrite <- app_assoc. cbn [app]. rewrite strchr_slash by done. cbn [mbind res_bind].
    apply walk_elems_ok; [done.. | lia].
  - rewrite strchr_noslash by done. cbn [mbind res_bind]. by apply walks_one.
Qed.
