(* ===== verification/FiletreeRead.v ===== *)
(** * FiletreeRead: the Readdirs of a file tree

    opendirfile, readdirfile and closedirfile, in terms of the files that a Readdir has
    ahead of it. *)

From stdpp Require Import strings.
From S2P Require Import Prelude Bytes Fcall FcallProps Stat StatProps Rune RuneProps Srv Filetree FiletreeInv FiletreeProps FiletreeOps.

(** ** What is ahead *)

Definition cells_ahead (w : world) (r : addr) : list cell :=
  match w_rdirs w !! r with
  | Some (mkReaddir d (Some c)) =>
      match w_files w !! d with
      | Some x => if cells_from c (fl_filelist x) is Ok l then l else []
      | None => []
      end
  | _ => []
  end.

Definition ahead (w : world) (r : addr) : list addr := omap snd (cells_ahead w r).

Lemma cells_from_split c l :
  c ∈ l.*1 → ∃ l1 d l2, l = l1 ++ d :: l2 ∧ d.1 = c ∧ cells_from c l = Ok (d :: l2).
Proof.
  induction l as [|d l IH]; cbn [fmap list_fmap cells_from]; [by intros ?%list.elem_of_nil |].
  destruct (decide (d.1 = c)) as [Hd | Hne]; [intros _; by exists [], d, l |].
  intros [? | Hc]%list.elem_of_cons; [congruence |]. destruct (IH Hc) as (l1 & e & l2 & -> & ? & ?). by exists (d :: l1), e, l2.
Qed.

Lemma cells_from_app c l k m : cells_from c l = Ok m → cells_from c (l ++ k) = Ok (m ++ k).
Proof.
  induction l as [|d l IH]; cbn [cells_from app]; [done |]. case_decide; [by intros [= <-] | apply IH].
Qed.

Definition files_of (l : list cell) : list addr := omap snd l.

Lemma files_some c g l : files_of ((c, Some g) :: l) = g :: files_of l.
Proof. done. Qed.

Lemma files_none c l : files_of ((c, None) :: l) = files_of l.
Proof. done. Qed.

Lemma drop_absent (f : addr) (l : list addr) : f ∉ l → filter (λ g, g ≠ f) l = l.
Proof. intros Hf. apply filter_whole. by intros g Hg ->. Qed.

Lemma clear_files f l l' :
  clearcell f l = Some l' → NoDup (files_of l) → files_of l' = filter (λ g, g ≠ f) (files_of l).
Proof.
  revert l'. induction l as [|[c o] l IH]; intros l'; [done |]. cbn [clearcell snd fst]. case_decide as Hd.
  - subst o. intros [= <-]. rewrite files_some, files_none. intros [Hf _]%list.NoDup_cons.
    rewrite filter_cons, decide_False by auto. by rewrite drop_absent.
  - destruct (clearcell f l) as [l2|]; [| done]. cbn [mbind option_bind]. intros [= <-]. destruct o as [g|].
    + rewrite !files_some. intros [_ Hnd]%list.NoDup_cons. rewrite filter_cons, decide_True by congruence. f_equal. by apply IH.
    + rewrite !files_none. by apply IH.
Qed.

Lemma cells_from_sub c l m : cells_from c l = Ok m → files_of m ⊆ files_of l.
Proof.
  induction l as [|[c' o] l IH]; cbn [cells_from fst]; [done |]. case_decide; [by intros [= <-] |].
  intros Hm%IH. destruct o; [rewrite files_some; by intros g Hg; right; apply Hm | done].
Qed.

Lemma cells_from_clear c f l l' m :
  cells_from c l = Ok m → clearcell f l = Some l' → NoDup (files_of l) →
  ∃ m', cells_from c l' = Ok m' ∧ files_of m' = filter (λ g, g ≠ f) (files_of m).
Proof.
  revert l'. induction l as [|[c' o] l IH]; intros l'; [done |]. cbn [cells_from clearcell snd fst].
  destruct (decide (o = Some f)) as [-> | Hdf]; intros Hc.
  - intros [= <-] Hnd. cbn [cells_from fst]. case_decide.
    + injection Hc as <-. eexists. split; [done |]. apply (clear_files f _ _); [| done]. cbn. by rewrite decide_True.
    + rewrite files_some in Hnd. apply list.NoDup_cons in Hnd as [Hf _]. exists m. split; [done |].
      rewrite drop_absent; [done |]. intros Hg. apply Hf. by eapply cells_from_sub.
  - destruct (clearcell f l) as [l1|] eqn:Hl; [| done]. cbn [mbind option_bind]. intros [= <-] Hnd. cbn [cells_from fst].
    case_decide.
    + injection Hc as <-. eexists. split; [done |]. apply (clear_files f _ _); [| done]. cbn. by rewrite decide_False, Hl by done.
    + apply IH; [done.. |]. destruct o; [by rewrite files_some in Hnd; apply list.NoDup_cons in Hnd as [_ ?] | done].
Qed.

(** ** readdirfile *)

Definition entry (w : world) (g : addr) : list Z := if w_files w !! g is Some x then dir_bytes (fl_dir x) else [].

Lemma entries_some w c g l : mjoin (entry w <$> files_of ((c, Some g) :: l)) = entry w g ++ mjoin (entry w <$> files_of l).
Proof. done. Qed.

Lemma short_size d : Forall short (sv_of d) → stat_size d < 2 ^ 31.
Proof.
  unfold sv_of, short. rewrite !list.Forall_cons. intros (? & ? & ? & ? & _).
  unfold stat_size, strs_len, STATFIXLEN, QIDSZ, BIT8SZ, BIT16SZ, BIT32SZ, BIT64SZ. ranges. lia.
Qed.

Lemma stat_size_min d : STATFIXLEN ≤ stat_size d.
Proof. unfold stat_size, strs_len. pose proof (strs_len_bounds d). lia. Qed.

(** The entries of as many files as fit, and the cells from the first that does not. *)
Lemma readdir_loop_ok w l n :
  (∀ g, g ∈ files_of l → ∃ x, w_files w !! g = Some x ∧ Forall short (sv_of (fl_dir x))) →
  ∃ pre l', readdir_loop w l n = Ok (mjoin (entry w <$> files_of pre), l') ∧ l = pre ++ l' ∧
    len (mjoin (entry w <$> files_of pre)) ≤ Z.max 0 n ∧
    ∀ g, head (files_of l') = Some g → n < len (mjoin (entry w <$> files_of pre)) + len (entry w g).
Proof.
  revert n. induction l as [|[c o] l IH]; intros n Hl; cbn [readdir_loop]; [exists [], []; by split_and!; [| | cbn; lia |] |].
  assert (∀ g, g ∈ files_of l → ∃ x, w_files w !! g = Some x ∧ Forall short (sv_of (fl_dir x))) as Hl'
    by (intros g Hg; apply Hl; destruct o; [rewrite files_some; by right | done]).
  case_decide as Hn.
  - exists [], ((c, o) :: l). split_and!; [done.. | cbn; lia |]. change (mjoin (entry w <$> files_of [])) with ([] : list Z).
    intros g Hg. destruct (Hl g) as (x & Hx & _); [destruct (files_of ((c, o) :: l)); [done |]; injection Hg as ->; left |].
    unfold entry. rewrite Hx, len_dir_bytes. pose proof (stat_size_min (fl_dir x)).
    unfold STATFIXLEN, QIDSZ, BIT8SZ, BIT16SZ, BIT32SZ, BIT64SZ in *. cbn [length]. lia.
  - cbn [snd]. destruct o as [g|].
    2: { destruct (IH n Hl') as (pre & l' & -> & -> & ? & ?). exists ((c, None) :: pre), l'. rewrite files_none. by split_and!. }
    destruct (Hl g) as (x & Hx & Hs%short_size); [left |]. unfold getfile. rewrite Hx. cbn [res_of_option mbind res_bind].
    destruct (convD2M_cases (fl_dir x) n Hs) as [_ ->]. rewrite decide_False by (unfold BIT16SZ; lia).
    assert (entry w g = dir_bytes (fl_dir x)) as He by (unfold entry; by rewrite Hx).
    pose proof (len_dir_bytes (fl_dir x)) as Hlen. pose proof (stat_size_min (fl_dir x)).
    unfold STATFIXLEN, QIDSZ, BIT8SZ, BIT16SZ, BIT32SZ, BIT64SZ in *.
    destruct (decide (n < stat_size (fl_dir x))) as [Hsmall | Hbig].
    + rewrite decide_True by lia. exists [], ((c, Some g) :: l). split_and!; [done.. | cbn; lia |]. rewrite files_some. intros ? [= <-].
      rewrite He. change (mjoin (entry w <$> files_of [])) with ([] : list Z). cbn [length]. lia.
    + rewrite decide_False by lia. destruct (IH (n - stat_size (fl_dir x)) Hl') as (pre & l' & -> & -> & ? & Hh). cbn [mbind res_bind].
      exists ((c, Some g) :: pre), l'. rewrite entries_some, He, length_app.
      split_and!; [done.. | lia |]. intros h Hg. specialize (Hh h Hg). lia.
Qed.

(** ** The Readdirs of the program *)

(** What is ahead of every Readdir is what it was. *)
Definition keeps (hs : list hold) (w w' : world) : Prop :=
  ∀ r d, Hdir r d ∈ hs → w_rdirs w' !! r = w_rdirs w !! r ∧
    fl_filelist <$> w_files w' !! d = fl_filelist <$> w_files w !! d.

Lemma keeps_ahead w w' hs0 hs r d :
  inv w hs0 → Hdir r d ∈ hs0 → keeps hs w w' → Hdir r d ∈ hs → ahead w' r = ahead w r.
Proof.
  intros Hi Hr0 Hk Hr. destruct (Hk r d Hr) as [Hrd Hfl]. unfold ahead, cells_ahead. rewrite Hrd.
  destruct (iv_rdir _ _ Hi (Hdir r d) r Hr0 eq_refl) as (rd & -> & Heq). destruct rd as [d' [c|]]; [| done]. cbn in Heq. subst d'.
  by destruct (w_files w' !! d), (w_files w !! d); try done; injection Hfl as ->.
Qed.

Lemma reader_in hs r d : Hdir r d ∈ hs → 0 < readers d hs.
Proof. intros Hin. eapply count_in; [done |]. cbn. by rewrite bool_decide_true. Qed.

Lemma calm_keeps w w' hs0 hs : inv w hs0 → (∀ h, h ∈ hs → h ∈ hs0) → calm hs w w' → keeps hs w w'.
Proof.
  intros Hi Hin [_ Hrd _ _ Hls _] r d Hr. rewrite Hrd. split; [done |].
  destruct (iv_hold _ _ Hi (Hdir r d) (Hin _ Hr)) as [x Hx]. cbn in Hx.
  destruct (Hls d x Hx (reader_in _ _ _ Hr)) as (x' & Hx' & Heq). rewrite Hx, Hx'. cbn. by rewrite Heq.
Qed.

Lemma cells_ahead_ok w hs r d :
  inv w hs → Hdir r d ∈ hs → ∃ x rd, w_files w !! d = Some x ∧ w_rdirs w !! r = Some rd ∧ rd_dir rd = d ∧
    match rd_fl rd with
    | None => cells_ahead w r = []
    | Some c => cells_from c (fl_filelist x) = Ok (cells_ahead w r) ∧ ∃ pre, fl_filelist x = pre ++ cells_ahead w r
    end.
Proof.
  intros Hi Hr. destruct (iv_rdir _ _ Hi (Hdir r d) r Hr eq_refl) as (rd & Hrd & Hd).
  destruct (iv_hold _ _ Hi (Hdir r d) Hr) as [x Hx]. cbn in Hd, Hx. exists x, rd. split_and!; try done.
  destruct (rd_fl rd) as [c|] eqn:Hc; unfold cells_ahead; rewrite Hrd; destruct rd as [d' o]; cbn in Hd, Hc; subst; [| done].
  destruct (cells_from_split c (fl_filelist x)) as (l1 & e & l2 & Hsp & _ & Hcf); [by eapply (iv_fl _ _ Hi) |].
  rewrite Hx, Hcf. split; [done |]. by exists l1.
Qed.

Lemma cells_from_suffix l1 d l2 : NoDup (l1 ++ d :: l2).*1 → cells_from d.1 (l1 ++ d :: l2) = Ok (d :: l2).
Proof.
  induction l1 as [|e l1 IH]; cbn [app cells_from fmap list_fmap]; [by rewrite decide_True |].
  intros [He Hnd]%list.NoDup_cons. rewrite decide_False; [by apply IH |]. intros Heq. apply He.
  rewrite Heq, fmap_app. apply list.elem_of_app. right. left.
Qed.

Lemma readdirfile_ok w hs r d n :
  inv w hs → Hdir r d ∈ hs →
  ∃ got b w', readdirfile r n w = Ok (b, w') ∧ ahead w r = got ++ ahead w' r ∧ b = mjoin (entry w <$> got) ∧
    len b ≤ Z.max 0 n ∧ (∀ g, head (ahead w' r) = Some g → n < len b + len (entry w g)) ∧
    inv w' hs ∧ w_files w' = w_files w ∧ w_trees w' = w_trees w ∧ w_gone w' = w_gone w ∧
    (∀ s, s ≠ r → w_rdirs w' !! s = w_rdirs w !! s).
Proof.
  intros Hi Hr. destruct (cells_ahead_ok w hs r d Hi Hr) as (x & rd & Hx & Hrd & Hd & Hc).
  unfold readdirfile. rewrite Hrd. cbn [res_of_option mbind res_bind]. destruct (rd_fl rd) as [c|] eqn:Hfl.
  2: { exists [], [], w. assert (ahead w r = []) as -> by (unfold ahead; by rewrite Hc). by split_and!; [.. | cbn; lia | | | | | |]. }
  destruct Hc as (Hcf & pre & Hpre). unfold getfile. rewrite Hd, Hx. cbn [res_of_option mbind res_bind].
  rewrite Hcf. cbn [mbind res_bind].
  destruct (tr_file _ (iv_tree _ _ Hi) d x Hx) as ([Hgc _ _ _ _ _] & [Hnd _ _ _] & _).
  destruct (readdir_loop_ok w (cells_ahead w r) n) as (got & l' & -> & Hl & Hlen & Hhd).
  { intros g Hg. destruct (Hgc g) as (_ & y & Hy & _).
    { unfold children. rewrite Hpre, list.omap_app. apply list.elem_of_app. by right. }
    exists y. split; [done |]. by destruct (tr_file _ (iv_tree _ _ Hi) g y Hy) as ([_ _ _ _ (_ & _ & _ & ?) _] & _). }
  cbn [mbind res_bind]. set (w' := w <| w_rdirs := _ |>).
  assert (cells_ahead w' r = l') as Hca.
  { unfold cells_ahead. cbn. rewrite lookup_insert_eq. destruct rd as [d' o]. cbn in Hd, Hfl |- *. subst.
    destruct l' as [|e l']; [done |]. cbn. rewrite Hx, Hpre, Hl, app_assoc, cells_from_suffix; [done |].
    by rewrite <- app_assoc, <- Hl, <- Hpre. }
  exists (files_of got), (mjoin (entry w <$> files_of got)), w'. split_and!; try done.
  - unfold ahead. rewrite Hca, Hl. apply list.omap_app.
  - unfold ahead. by rewrite Hca.
  - pose proof Hi as [Ht Href Hread Hhold Hrdir Hfls Hndh Hrm]. constructor; try done.
    + apply (tree_ok_links w); [done | | | exact Ht]; cbn.
      * intros f y Hf. by destruct (tr_file _ Ht f y Hf) as (_ & [] & _).
      * intros s rd' [[<- <-] | [_ Hs]]%lookup_insert_Some; [by eapply (tr_rdirs _ Ht) | by eapply (tr_rdirs _ Ht)].
    + intros h s Hh Hs. cbn. destruct (Hrdir h s Hh Hs) as (rd' & Hrd' & Heq). destruct (decide (r = s)) as [<- | Hne].
      * rewrite lookup_insert_eq. eexists. split; [done |]. cbn. by simplify_eq.
      * rewrite lookup_insert_ne by done. by exists rd'.
    + intros s f rd' c' y Hs. cbn. intros [[<- <-] | [_ Hs']]%lookup_insert_Some Hc' Hy; [| by eapply Hfls].
      cbn in Hc'. destruct l' as [|e l']; [done |]. cbn in Hc'. injection Hc' as <-.
      destruct (Hrdir _ _ Hs eq_refl) as (rd' & Hrd' & Heq). cbn in Heq. simplify_eq.
      rewrite Hpre, Hl, !fmap_app. apply list.elem_of_app. right. apply list.elem_of_app. right. left.
  - intros s Hs. cbn. by rewrite lookup_insert_ne.
Qed.

Lemma inv_rdir_del w hs r : inv w hs → r ∉ omap hold_rdir hs → inv (w <| w_rdirs := delete r (w_rdirs w) |>) hs.
Proof.
  intros [Ht Href Hread Hhold Hrdir Hfl Hnd Hrm] Hr.
  assert (∀ h s, h ∈ hs → hold_rdir h = Some s → s ≠ r) as Hne.
  { intros h s Hh Hs ->. apply Hr. apply list_elem_of_omap. by exists h. }
  constructor; try done.
  - apply (tree_ok_links w); [done | | | exact Ht]; cbn.
    + intros f y Hf. by destruct (tr_file _ Ht f y Hf) as (_ & [] & _).
    + intros s rd [_ Hs]%lookup_delete_Some. by eapply (tr_rdirs _ Ht).
  - intros h s Hh Hs. cbn. rewrite lookup_delete_ne by (intros <-; by eapply Hne). by apply Hrdir.
  - intros s f rd c x Hh. cbn. intros [_ Hs]%lookup_delete_Some. by eapply Hfl.
Qed.

(** A Readdir [r] that was not there, at the start of the list of [d]. *)
Section Open.
Context (w : world) (hs : list hold) (d : addr) (x : File).
Hypothesis Hi : inv w (Hfile d :: hs).
Hypothesis Hd : w_files w !! d = Some x.
Let r := w_next w.
Let rd := mkReaddir d (fst <$> head (fl_filelist x)).
Let w1 := w <| w_next := Pos.succ r |> <| w_rdirs := <[r := rd]> (w_rdirs w) |>.
Let w' := setfile d (x <| fl_readers := fl_readers x + 1 |>) w1.

Lemma open_new : w_rdirs w !! r = None.
Proof.
  destruct (w_rdirs w !! r) as [rd'|] eqn:Hrd; [| done]. pose proof (tr_rdirs _ (iv_tree _ _ Hi) r rd' Hrd). subst r. lia.
Qed.

Lemma open_unheld : r ∉ omap hold_rdir hs.
Proof.
  intros (h & Hh & Hhr)%list_elem_of_omap. destruct (iv_rdir _ _ Hi h r) as (? & ? & _); [by right | done |].
  pose proof open_new. congruence.
Qed.

Lemma open_tree_ok : tree_ok w'.
Proof.
  pose proof (iv_tree _ _ Hi) as Ht. apply (tree_ok_links w); [| | | exact Ht].
  - apply (same_links_trans _ w1); [constructor; try done; cbn; subst r; lia | by apply (same_links_set _ _ x)].
  - intros f y [[-> ->] | [_ Hf]]%setfile_case.
    + destruct (tr_file _ Ht d x Hd) as (_ & Hls & _). apply (listed_same w _ x); try done. cbn. subst r. lia.
    + destruct (tr_file _ Ht f y Hf) as (_ & Hls & _). apply (listed_same w _ y); try done. cbn. subst r. lia.
  - intros s rd'. cbn. intros [[<- _] | [_ Hs]]%lookup_insert_Some; [subst r; lia |].
    pose proof (tr_rdirs _ Ht s rd' Hs). subst r. lia.
Qed.

Lemma open_inv : inv w' (Hdir r d :: hs).
Proof.
  pose proof Hi as [Ht Href Hread Hhold Hrdir Hfl Hnd Hrm]. pose proof open_unheld as Hrn. pose proof open_new as Hr.
  constructor; [apply open_tree_ok | | | | | | |].
  - intros f y. rewrite refs_cons. cbn [hold_file]. intros [[-> ->] | [_ Hf]]%setfile_case.
    + destruct (Href d x Hd) as [Hrf ?]. by rewrite refs_cons in Hrf.
    + destruct (Href f y Hf) as [Hrf ?]. by rewrite refs_cons in Hrf.
  - intros f y. rewrite readers_cons. cbn [reads]. intros [[-> ->] | [Hne Hf]]%setfile_case.
    + rewrite bool_decide_true by done. cbn. rewrite (Hread d x Hd), readers_cons. cbn. lia.
    + rewrite bool_decide_false by done. by rewrite (Hread f y Hf), readers_cons.
  - intros h Hh. assert (is_Some (w_files w !! hold_file h)) as [y Hy]
      by (apply list.elem_of_cons in Hh as [-> | Hh]; [by exists x | apply Hhold; by right]).
    cbn. destruct (decide (d = hold_file h)) as [<- |]; [rewrite lookup_insert_eq | rewrite lookup_insert_ne by done]; by eexists.
  - intros h s [-> | Hh]%list.elem_of_cons Hs; cbn.
    + injection Hs as <-. exists rd. by rewrite lookup_insert_eq.
    + destruct (Hrdir h s) as (rd' & ? & ?); [by right | done |]. rewrite lookup_insert_ne by congruence. by exists rd'.
  - intros s f rd' c y Hh Hs Hc Hy.
    assert (∃ y0, w_files w !! f = Some y0 ∧ fl_filelist y = fl_filelist y0) as (y0 & Hy0 & ->).
    { apply setfile_case in Hy as [[-> ->] | [_ Hf]]; [by exists x | by exists y]. }
    cbn in Hs. apply list.elem_of_cons in Hh as [[= -> ->] | Hh].
    + rewrite lookup_insert_eq in Hs. injection Hs as <-. simplify_eq. cbn in Hc.
      destruct (fl_filelist x) as [|e l]; [done |]. cbn in Hc. injection Hc as <-. left.
    + rewrite lookup_insert_ne in Hs; [by eapply (Hfl s); [right | ..] |].
      intros ->. apply Hrn, list_elem_of_omap. by exists (Hdir s f).
  - change (NoDup (r :: omap hold_rdir hs)). constructor; [done | apply Hnd].
  - intros f fp [[=] | Hh]%list.elem_of_cons. apply Hrm. by right.
Qed.

Lemma open_ahead : ahead w' r = children x.
Proof.
  change (children x) with (files_of (fl_filelist x)). unfold ahead, cells_ahead. cbn. rewrite !lookup_insert_eq. subst rd. cbn.
  destruct (fl_filelist x) as [|e l] eqn:Hfl; [done |]. cbn. rewrite lookup_insert_eq. cbn. rewrite Hfl. cbn. by rewrite decide_True.
Qed.

Lemma open_keeps : keeps hs w w'.
Proof.
  intros s f Hs. cbn. split.
  - rewrite lookup_insert_ne; [done |]. intros <-. apply open_unheld, list_elem_of_omap. by exists (Hdir r f).
  - destruct (decide (d = f)) as [<- |]; [by rewrite lookup_insert_eq, Hd | by rewrite lookup_insert_ne].
Qed.
End Open.

Lemma opendirfile_ok w hs d :
  inv w (Hfile d :: hs) →
  ∃ x, w_files w !! d = Some x ∧
    if decide (Z.land (d_mode (fl_dir x)) DMDIR = 0) then opendirfile d w = Ok (None, w)
    else ∃ r w', opendirfile d w = Ok (Some r, w') ∧ w_rdirs w !! r = None ∧ inv w' (Hdir r d :: hs) ∧
      ahead w' r = children x ∧ keeps hs w w' ∧ hier w' = hier w ∧ w_gone w' = w_gone w.
Proof.
  intros Hi. destruct (iv_hold _ _ Hi (Hfile d)) as [x Hd]; [by left |]. cbn in Hd. exists x. split; [done |].
  unfold opendirfile, getfile. rewrite Hd. cbn [res_of_option mbind res_bind]. case_decide; [done |].
  eexists (w_next w), _. split; [done |]. split_and!; [| | | | | done].
  - by eapply open_new.
  - by apply (open_inv w hs d x).
  - by apply (open_ahead w d x).
  - by apply (open_keeps w hs d x).
  - apply map_eq. intros f. rewrite !hier_lookup. cbn. destruct (decide (d = f)) as [<- |].
    + by rewrite lookup_insert_eq, Hd.
    + by rewrite lookup_insert_ne.
Qed.

(** *** closedirfile *)

Lemma closedirfile_begin_ok w hs r d :
  inv w (Hdir r d :: hs) →
  ∃ clean w', closedirfile_begin r w = Ok (clean, w') ∧ inv w' (Hclosing r d clean :: hs) ∧ calm hs w w' ∧ w_gone w' = w_gone w.
Proof.
  intros Hi. destruct (iv_hold _ _ Hi (Hdir r d)) as [x Hd]; [by left |].
  destruct (iv_rdir _ _ Hi (Hdir r d) r) as (rd & Hrd & Hrdd); [by left | done |]. cbn in Hd, Hrdd.
  unfold closedirfile_begin, getfile. rewrite Hrd. cbn [res_of_option mbind res_bind]. rewrite Hrdd, Hd. cbn [res_of_option mbind res_bind].
  eexists _, _. split; [done |]. split_and!; [| by apply (calm_set _ _ _ x); auto | done].
  set (clean := bool_decide _). set (x' := x <| fl_readers := _ |>).
  pose proof Hi as [Ht Href Hread Hhold Hrdir Hfl Hnd Hrm].
  pose proof (same_links_set w d x x' Hd eq_refl) as Hs.
  assert (∀ h, h ∈ Hclosing r d clean :: hs → ∃ h', h' ∈ Hdir r d :: hs ∧ hold_file h = hold_file h' ∧ hold_rdir h = hold_rdir h') as Hin.
  { intros h [-> | Hh]%list.elem_of_cons; [exists (Hdir r d); by split; [left |] | exists h; by split; [right |]]. }
  constructor; [| | | | | | done |].
  - eapply tree_ok_links; [exact Hs | | | exact Ht]; [| by apply (tr_rdirs _ Ht)].
    intros f y [[-> ->] | [_ Hf]]%setfile_case.
    + destruct (tr_file _ Ht d x Hd) as (_ & Hls & _). by apply (listed_same w _ x).
    + by destruct (tr_file _ Ht f y Hf) as (_ & [] & _).
  - intros f y. rewrite refs_cons. cbn [hold_file]. intros [[-> ->] | [_ Hf]]%setfile_case.
    + destruct (Href d x Hd) as [Hrf ?]. by rewrite refs_cons in Hrf.
    + destruct (Href f y Hf) as [Hrf ?]. by rewrite refs_cons in Hrf.
  - intros f y. rewrite readers_cons. cbn [reads]. intros [[-> ->] | [Hne Hf]]%setfile_case.
    + cbn. rewrite (Hread d x Hd), readers_cons. cbn. rewrite bool_decide_true by done. lia.
    + rewrite (Hread f y Hf), readers_cons. cbn. by rewrite bool_decide_false.
  - intros h Hh. destruct (Hin h Hh) as (h' & Hh' & -> & _). destruct (Hhold h' Hh') as [y Hy].
    destruct (links_old _ _ _ _ Hs Hy) as (y' & ? & _). by exists y'.
  - intros h s Hh Hhs. destruct (Hin h Hh) as (h' & Hh' & -> & Heq). apply Hrdir; congruence.
  - intros s f rd' c y Hh Hs' Hc Hy. apply list.elem_of_cons in Hh as [[=] | Hh].
    assert (Hdir s f ∈ Hdir r d :: hs) as Hh' by by right.
    apply setfile_case in Hy as [[-> ->] | [_ Hf]]; [exact (Hfl s d rd' c x Hh' Hs' Hc Hd) | exact (Hfl s f rd' c y Hh' Hs' Hc Hf)].
  - intros f fp [[=] | Hh]%list.elem_of_cons. apply Hrm. by right.
Qed.

Lemma closedirfile_end_ok w hs r d clean :
  inv w (Hclosing r d clean :: hs) →
  ∃ w', closedirfile_end r clean w = Ok w' ∧ inv w' (Hfile d :: hs) ∧ keeps hs w w' ∧ hier w' = hier w.
Proof.
  intros Hi. destruct (iv_hold _ _ Hi (Hclosing r d clean)) as [x Hd]; [by left |].
  destruct (iv_rdir _ _ Hi (Hclosing r d clean) r) as (rd & Hrd & Hrdd); [by left | done |]. cbn in Hd, Hrdd.
  unfold closedirfile_end. rewrite Hrd. cbn [res_of_option mbind res_bind]. rewrite Hrdd.
  pose proof (iv_rdirs _ _ Hi) as Hnd. change (NoDup (r :: omap hold_rdir hs)) in Hnd. apply list.NoDup_cons in Hnd as [Hrn Hnd].
  assert (∃ w1, (if clean then cleanfilelist d w else Ok w) = Ok w1 ∧ inv w1 (Hclosing r d clean :: hs) ∧
    calm (Hclosing r d clean :: hs) w w1) as (w1 & -> & Hi1 & Hc1).
  { destruct clean; [| exists w; by auto using calm_refl].
    destruct (cleanfilelist_ok w _ d x Hi Hd) as (w1 & -> & ? & _ & ?). by exists w1. }
  cbn [mbind res_bind]. eexists. split; [done |]. split_and!.
  - apply inv_rdir_del; [| done]. destruct Hi1 as [Ht Href Hread Hhold Hrdir Hfl Hnd1 Hrm].
    constructor; [done | | | | | | done |].
    + intros f y Hf. destruct (Href f y Hf) as [Hr ?]. rewrite refs_cons in Hr |- *. by cbn in Hr |- *.
    + intros f y Hf. rewrite (Hread f y Hf), !readers_cons. done.
    + intros h [-> | Hh]%list.elem_of_cons; [apply (Hhold (Hclosing r d clean)); left | apply Hhold; by right].
    + intros h s [-> | Hh]%list.elem_of_cons; [done | apply Hrdir; by right].
    + intros s f rd' c y [[=] | Hh]%list.elem_of_cons. apply (Hfl s). by right.
    + intros f fp [[=] | Hh]%list.elem_of_cons. apply Hrm. by right.
  - pose proof (calm_keeps _ _ _ _ Hi (λ h Hh, Hh) Hc1) as Hk. intros s f Hs. destruct (Hk s f) as [Hk1 Hk2]; [by right |]. cbn. split; [| done].
    rewrite lookup_delete_ne; [done |]. intros <-. apply Hrn, list_elem_of_omap. by exists (Hdir r f).
  - by rewrite <- (cm_hier _ _ _ Hc1).
Qed.
