(* ===== verification/FiletreeRun.v ===== *)
(** * FiletreeRun: programs that use file trees

    A program holds files, Readdirs and removals under way, and calls file.c with them in
    any order; calls of several threads are interleaved where file.c gives up its locks.
    Each step of such a program keeps the invariant of {!FiletreeInv}, changes the hierarchy
    as its specification says, and moves every Readdir as it should. *)

From stdpp Require Import strings.
From S2P Require Import Prelude Bytes Fcall FcallProps Stat StatProps Rune RuneProps Srv Filetree FiletreeInv FiletreeProps FiletreeOps FiletreeWalk FiletreeRead.

(** ** Steps *)

Inductive op : Type :=
  | Oalloctree (uid gid : cptr) (mode : Z) (user : cptr) (now : Z)
  | Oroot (t : addr)
  | Oincref (f : addr)
  | Oclosefile (f : addr)
  | Owalk (d : addr) (elem : list Z)
  | Ocreate (d : addr) (name : list Z) (uid : cptr) (perm now : Z)
  | Oremove (f : addr)
  | Olocked (f fp : addr)
  | Oopendir (d : addr)
  | Oreaddir (r d : addr) (n : Z)
  | Oclosedir (r d : addr)
  | Oclosed (r d : addr) (clean : bool)
  | Oset (f : addr) (dir : Dir).

Inductive out : Type :=
  | Rnone
  | Raddr (a : option addr)
  | Rnew (r : list Z + addr)
  | Rerr (e : cptr)
  | Rbytes (b : list Z).

#[export] Instance hold_eq_dec : EqDecision hold.
Proof. solve_decision. Defined.
#[export] Instance short_dec s : Decision (short s) := Z_lt_dec _ _.
#[export] Instance cptr_none_dec (s : cptr) : Decision (s = None) := _.
#[export] Instance meta_ok_dec d : Decision (meta_ok d).
Proof. unfold meta_ok. apply _. Defined.

Abbreviation state := (world * list hold)%type.

Fixpoint remove_one (h : hold) (hs : list hold) : option (list hold) :=
  match hs with
  | [] => None
  | k :: hs => if decide (k = h) then Some hs else hs ← remove_one h hs; Some (k :: hs)
  end.

(** What the program gives up for a call, which it must have. *)
Definition having {A} (h : hold) (hs : list hold) (k : list hold → option A) : option A :=
  hs' ← remove_one h hs; k hs'.

Definition provided {A} (P : Prop) `{Decision P} (k : option A) : option A := if decide P then k else None.

(** A step of the program: [None] where it does not have what it takes. *)
Definition perform (o : op) (s : state) : option (res (out * state)) :=
  let '(w, hs) := s in
  match o with
  | Oalloctree uid gid mode user now =>
      provided (short uid ∧ short gid ∧ short user) (Some (
        '(t, w) ← alloctree uid gid mode user now w; Ok (Raddr (Some t), (w, hs))))
  | Oroot t =>
      T ← w_trees w !! t;
      Some (w ← incref (t_root T) w; Ok (Raddr (Some (t_root T)), (w, Hfile (t_root T) :: hs)))
  | Oincref f => having (Hfile f) hs (λ _, Some (w ← incref f w; Ok (Rnone, (w, Hfile f :: hs))))
  | Oclosefile f => having (Hfile f) hs (λ hs, Some (w ← closefile f w; Ok (Rnone, (w, hs))))
  | Owalk d elem =>
      having (Hfile d) hs (λ _, Some ('(g, w) ← walkfile1_locked d elem w; Ok (Raddr g, (w, hand g hs))))
  | Ocreate d name uid perm now =>
      having (Hfile d) hs (λ _, provided (short (Some name) ∧ short uid) (Some (
        '(r, w) ← createfile d name uid perm now w; Ok (Rnew r, (w, hand (if r is inr f then Some f else None) hs)))))
  | Oremove f =>
      having (Hfile f) hs (λ hs', Some (
        r ← removefile_begin f w; Ok (Rnew r, (w, if r is inr fp then Hremove f fp :: hs' else hs))))
  | Olocked f fp =>
      having (Hremove f fp) hs (λ hs, Some (
        '(e, w) ← removefile_locked f fp w;
        Ok (Rerr e, (w, if e is Some _ then Hfile f :: hs else Hfile fp :: Hfile f :: Hfile f :: hs))))
  | Oopendir d =>
      having (Hfile d) hs (λ hs', Some (
        '(r, w) ← opendirfile d w; Ok (Raddr r, (w, if r is Some r then Hdir r d :: hs' else hs))))
  | Oreaddir r d n => having (Hdir r d) hs (λ _, Some ('(b, w) ← readdirfile r n w; Ok (Rbytes b, (w, hs))))
  | Oclosedir r d =>
      having (Hdir r d) hs (λ hs, Some ('(clean, w) ← closedirfile_begin r w; Ok (Rnone, (w, Hclosing r d clean :: hs))))
  | Oclosed r d clean =>
      having (Hclosing r d clean) hs (λ hs, Some (w ← closedirfile_end r clean w; Ok (Rnone, (w, Hfile d :: hs))))
  | Oset f dir =>
      having (Hfile f) hs (λ _, x ← w_files w !! f; provided (d_name dir = d_name (fl_dir x) ∧ meta_ok dir) (Some (
        Ok (Rnone, (setfile f (x <| fl_dir := dir |>) w, hs)))))
  end.

(** The two steps that go wrong: walking to the parent of a file that has been removed, and
    locking a parent that has gone since it was seen. *)
Definition lost (o : op) (w : world) : Prop :=
  match o with
  | Owalk d elem => elem = str ".." ∧ (x ← w_files w !! d; fl_parent x) = None
  | Olocked f fp => w_files w !! fp = None
  | _ => False
  end.

#[export] Instance lost_dec o w : Decision (lost o w).
Proof. destruct o; cbn; apply _. Defined.

(** ** What a step does to the hierarchy *)

(** [g] is the child of [d] with a name. *)
Definition hchild (h : gmap addr node) (d : addr) (name : list Z) (g : addr) : Prop :=
  ∃ n, h !! g = Some n ∧ n.1.1.2 = Some d ∧ g ≠ d ∧ d_name n.1.1.1 = Some name.

Definition means (o : op) (r : out) (h h' : gmap addr node) : Prop :=
  match o, r with
  | Oalloctree uid gid mode user now, Raddr (Some t) =>
      ∃ f d, h !! f = None ∧ h' = <[f := (d, Some f, [], t)]> h ∧ Z.land (q_type (d_qid d)) QTDIR ≠ 0
  | Owalk d elem, Raddr g =>
      h' = h ∧ if decide (elem = str "..") then ∃ n, h !! d = Some n ∧ n.1.1.2 = g
               else match g with Some g => hchild h d elem g | None => ∀ g, ¬ hchild h d elem g end
  | Ocreate d name uid perm now, Rnew (inl e) => h' = h
  | Ocreate d name uid perm now, Rnew (inr f) =>
      h !! f = None ∧ (∀ g, ¬ hchild h d name g) ∧
      ∃ x path t, h' = <[f := (new_dir x name uid path perm now, Some d, [], t)]> (alter (add_child f) d h)
  | Oremove f, Rnew (inl e) => h' = h ∧ (h !! f = None ∨ ∃ n, h !! f = Some n ∧ n.1.1.2 = Some f)
  | Oremove f, Rnew (inr fp) => h' = h ∧ fp ≠ f ∧ ∃ n, h !! f = Some n ∧ n.1.1.2 = Some fp
  | Olocked f fp, Rerr (Some e) => h' = h ∧ ((∃ n, h !! f = Some n ∧ n.1.1.2 = Some fp) → ∃ g name, hchild h f name g)
  | Olocked f fp, Rerr None =>
      (∃ n, h !! f = Some n ∧ n.1.1.2 = Some fp) ∧ (∀ g name, ¬ hchild h f name g) ∧
      h' = delete f (alter (drop_child f) fp h)
  | Oset f dir, Rnone => h' = alter (λ n, (dir, n.1.1.2, n.1.2, n.2)) f h
  | _, _ => h' = h
  end.

(** ** What a step does to a Readdir *)

(** Whether a Readdir has come to the end of the list. *)
Definition ended (w : world) (r : addr) : bool := if w_rdirs w !! r is Some (mkReaddir _ (Some _)) then false else true.

Definition moves (o : op) (res : out) (w w' : world) (r d : addr) : Prop :=
  match o, res with
  | Oreaddir s _ n, Rbytes b =>
      if decide (s = r) then
        ∃ got, ahead w r = got ++ ahead w' r ∧ b = mjoin (entry w <$> got) ∧ len b ≤ Z.max 0 n ∧
          ∀ g, head (ahead w' r) = Some g → n < len b + len (entry w g)
      else ahead w' r = ahead w r
  | Ocreate e _ _ _ _, Rnew (inr f) =>
      ahead w' r = ahead w r ++ (if decide (e = d ∧ ended w r = false) then [f] else [])
  | Olocked f _, Rerr None => ahead w' r = filter (λ g, g ≠ f) (ahead w r)
  | _, _ => ahead w' r = ahead w r
  end.

(** ** Steps are as they should be *)

Lemma remove_one_perm h hs hs' : remove_one h hs = Some hs' → hs ≡ₚ h :: hs'.
Proof.
  revert hs'. induction hs as [|k hs IH]; intros hs'; cbn [remove_one]; [done |].
  case_decide as Hk; [by intros [= <-]; subst |].
  destruct (remove_one h hs) as [hs1|]; [| done]. cbn. intros [= <-]. rewrite (IH hs1) by done. constructor.
Qed.

Lemma having_Some {A} h hs (k : list hold → option A) r :
  having h hs k = Some r → ∃ hs', hs ≡ₚ h :: hs' ∧ k hs' = Some r.
Proof.
  unfold having. destruct (remove_one h hs) as [hs'|] eqn:Hr; [| done]. intros Hk. exists hs'. split; [| done].
  by apply remove_one_perm.
Qed.

Lemma provided_Some {A} (P : Prop) `{Decision P} (k : option A) r : provided P k = Some r → P ∧ k = Some r.
Proof. unfold provided. by case_decide. Qed.

Lemma hchild_ok w hs d x name g : inv w hs → w_files w !! d = Some x → hchild (hier w) d name g ↔ child w d name = Some g.
Proof.
  intros Hi Hd. split.
  - intros (n & Hn & Hp & Hne & Hnm). rewrite hier_lookup in Hn. destruct (w_files w !! g) as [y|] eqn:Hg; [| done]. cbn in Hn.
    destruct (fl_parent y) as [p|] eqn:Hyp; [| done]. injection Hn as <-. cbn in Hp, Hnm. rewrite Hyp in Hp. injection Hp as ->.
    destruct (tr_file _ (iv_tree _ _ Hi) g y Hg) as ([_ Hpar _ _ _ _] & _). specialize (Hpar d Hyp).
    rewrite decide_False in Hpar by done. destruct Hpar as (x' & Hx' & Hin). assert (x' = x) as -> by congruence.
    eapply child_unique; [done.. |]. unfold name_of. by rewrite Hg.
  - intros (x' & Hx' & Hin & Hnm)%child_Some. assert (x' = x) as -> by congruence.
    destruct (tr_file _ (iv_tree _ _ Hi) d x Hd) as ([Hc _ _ _ _ _] & _). destruct (Hc g Hin) as (Hne & y & Hy & Hp).
    unfold name_of in Hnm. rewrite Hy in Hnm. cbn in Hnm. exists (links y). rewrite hier_lookup, Hy. cbn. rewrite Hp. by split_and!.
Qed.

(** A child of some name is a child. *)
Lemma no_hchild w hs d x : inv w hs → w_files w !! d = Some x → (children x = [] ↔ ∀ g name, ¬ hchild (hier w) d name g).
Proof.
  intros Hi Hd. split.
  - intros Hc g name (x' & Hx' & Hin & _)%(hchild_ok w hs d x name g Hi Hd)%child_Some. assert (x' = x) as -> by congruence.
    rewrite Hc in Hin. by apply list.elem_of_nil in Hin.
  - intros Hno. destruct (children x) as [|g l] eqn:Hc; [done |]. exfalso.
    assert (g ∈ children x) as Hg by (rewrite Hc; left). destruct (name_of w g) as [name|] eqn:Hn.
    + eapply (Hno g name), (hchild_ok w hs d x name g Hi Hd). by eapply child_unique.
    + by eapply (named w hs d x g).
Qed.

Lemma hier_parent w f x p : w_files w !! f = Some x → (∃ n, hier w !! f = Some n ∧ n.1.1.2 = Some p) ↔ fl_parent x = Some p.
Proof.
  intros Hf. rewrite hier_lookup, Hf. cbn. destruct (fl_parent x) as [q|] eqn:Hq; split.
  - intros (n & [= <-] & Hp). cbn in Hp. congruence.
  - intros [= ->]. exists (links x). by split.
  - by intros (n & [=] & _).
  - done.
Qed.

(** What a step should have done. *)
Record stepped (o : op) (w : world) (hs : list hold) (res : out) (w' : world) (hs' : list hold) : Prop := {
  st_inv : inv w' hs';
  st_means : means o res (hier w) (hier w');
  st_moves : ∀ r d, Hdir r d ∈ hs → Hdir r d ∈ hs' → moves o res w w' r d;
  st_opens : ∀ d r, o = Oopendir d → res = Raddr (Some r) →
    ∃ x, w_files w !! d = Some x ∧ ahead w' r = children x ∧ w_rdirs w !! r = None ∧ Hdir r d ∈ hs'
}.

Definition fine (o : op) (w : world) (hs : list hold) (r : res (out * state)) : Prop :=
  if decide (lost o w) then r = Ub
  else ∃ res w' hs', r = Ok (res, (w', hs')) ∧ stepped o w hs res w' hs'.

(** A step that leaves the Readdirs alone. *)
Lemma stepped_quiet o w hs hs0 res w' hs' :
  inv w hs → inv w' hs' → means o res (hier w) (hier w') → keeps hs0 w w' →
  (∀ r d, Hdir r d ∈ hs → Hdir r d ∈ hs' → Hdir r d ∈ hs0) → (∀ r d, ahead w' r = ahead w r → moves o res w w' r d) →
  (∀ d, o ≠ Oopendir d) → stepped o w hs res w' hs'.
Proof.
  intros Hi Hi' Hm Hk Hin Hmv Ho. constructor; [done.. | |].
  - intros r d Hr Hr'. apply Hmv. eapply (keeps_ahead _ _ hs hs0); [done.. |]. by apply Hin.
  - intros d r ->. by destruct (Ho d).
Qed.

(** What is held apart from one thing is held. *)
Lemma inv_alive w hs h hs' : inv w hs → hs ≡ₚ h :: hs' → is_Some (w_files w !! hold_file h).
Proof. intros Hi Hp. apply (iv_hold _ _ Hi). rewrite Hp. left. Qed.

Lemma fine_incref o w hs f (res : out) :
  inv w hs → is_Some (w_files w !! f) → ¬ lost o w → means o res (hier w) (hier w) →
  (∀ w' r d, ahead w' r = ahead w r → moves o res w w' r d) → (∀ d, o ≠ Oopendir d) →
  fine o w hs (w' ← incref f w; Ok (res, (w', Hfile f :: hs))).
Proof.
  intros Hi Hf Hl Hm Hmv Ho. unfold fine. rewrite decide_False by done.
  destruct (incref_ok w hs f Hi Hf) as (w' & -> & Hi' & Hs & Hc). eexists res, w', _. split; [done |].
  apply (stepped_quiet o w hs hs); try done; [| by eapply calm_keeps | by apply Hmv].
  by rewrite (hier_same_links _ _ Hs).
Qed.

Lemma fine_closefile w hs hs' f :
  inv w hs → hs ≡ₚ Hfile f :: hs' → fine (Oclosefile f) w hs (w' ← closefile f w; Ok (Rnone, (w', hs'))).
Proof.
  intros Hi Hp. unfold fine. rewrite decide_False by by intros [].
  apply (inv_perm _ _ _ Hp) in Hi as Hi1. destruct (closefile_ok w hs' f Hi1) as (w' & x & -> & Hi' & Hc & _).
  eexists _, w', _. split; [done |]. apply (stepped_quiet _ w hs hs); try done; [apply (cm_hier _ _ _ Hc) |].
  apply (calm_keeps _ _ hs); [done.. |]. apply (calm_weaken hs'); [| done]. intros d.
  unfold readers at 1. rewrite (count_perm _ _ _ Hp), count_cons. done.
Qed.

Lemma fine_walk w hs hs' d elem :
  inv w hs → hs ≡ₚ Hfile d :: hs' →
  fine (Owalk d elem) w hs ('(g, w') ← walkfile1_locked d elem w; Ok (Raddr g, (w', hand g hs))).
Proof.
  intros Hi Hp. destruct (inv_alive _ _ _ _ Hi Hp) as [x Hd]. cbn in Hd.
  pose proof (walkfile1_locked_ok w hs d elem Hi) as Hw. specialize (Hw ltac:(by eexists)). unfold fine.
  assert (lost (Owalk d elem) w ↔ elem = str ".." ∧ toward w d elem = None) as Hlost.
  { cbn. unfold toward. rewrite Hd. cbn. split; intros [-> Hx]; [by rewrite decide_True by done |].
    by rewrite decide_True in Hx. }
  destruct (decide (lost (Owalk d elem) w)) as [Hl%Hlost | Hl]; [by rewrite decide_True, Hw in * |].
  rewrite Hlost in Hl. rewrite decide_False in Hw by done.
  destruct Hw as (w' & -> & Hi' & Hc & _). eexists _, w', _. split; [done |].
  apply (stepped_quiet _ w hs hs); try done; [| by eapply calm_keeps]. rewrite (cm_hier _ _ _ Hc). cbn [means]. split; [done |].
  assert (toward w d elem = if decide (elem = str "..") then fl_parent x else child w d elem) as Ht by (unfold toward; by rewrite Hd).
  destruct (decide (elem = str "..")) as [He | He]; rewrite Ht.
  - destruct (fl_parent x) as [p|] eqn:Hpx; [by apply (hier_parent w d x p) |]. destruct Hl. by rewrite Ht.
  - destruct (child w d elem) as [g|] eqn:Hg; [by apply (hchild_ok w hs d x) |].
    intros g Hg'%(hchild_ok w hs d x); [congruence | done..].
Qed.

Lemma fine_remove w hs hs' f :
  inv w hs → hs ≡ₚ Hfile f :: hs' →
  fine (Oremove f) w hs (r ← removefile_begin f w; Ok (Rnew r, (w, if r is inr fp then Hremove f fp :: hs' else hs))).
Proof.
  intros Hi Hp. unfold fine. rewrite decide_False by by intros [].
  apply (inv_perm _ _ _ Hp) in Hi as Hi1. destruct (removefile_begin_ok w hs' f Hi1) as (r & x & -> & Hf & Hr).
  cbn [mbind res_bind]. eexists _, w, _. split; [done |]. apply (stepped_quiet _ w hs hs); try done.
  - by destruct r as [|fp]; [| destruct Hr].
  - destruct r as [e|fp]; cbn; split; try done.
    + destruct Hr as [Hr | Hr]; [left; rewrite hier_lookup, Hf; cbn; by rewrite Hr | right; by apply (hier_parent w f x f)].
    + destruct Hr as (_ & Hpx & Hne & _). split; [done |]. by apply (hier_parent w f x fp).
Qed.

(** A Readdir that has not come to its end, before and after a change of the list. *)
Lemma ahead_change w w' hs r d x' (k : list addr → list addr) :
  inv w hs → Hdir r d ∈ hs → w_rdirs w' = w_rdirs w → w_files w' !! d = Some x' →
  (∀ x c l, w_files w !! d = Some x → cells_from c (fl_filelist x) = Ok l →
    ∃ l', cells_from c (fl_filelist x') = Ok l' ∧ files_of l' = k (files_of l)) →
  ahead w' r = if ended w r then ahead w r else k (ahead w r).
Proof.
  intros Hi Hr Hrds Hx' Hk. destruct (cells_ahead_ok w hs r d Hi Hr) as (x & rd & Hx & Hrd & Hd & Hc).
  unfold ahead, ended. rewrite Hrd. destruct rd as [d' o]. cbn in Hd, Hc. subst d'. destruct o as [c|].
  - destruct Hc as [Hc _]. destruct (Hk x c _ Hx Hc) as (l' & Hl' & Heq). change (files_of (cells_ahead w' r) = k (files_of (cells_ahead w r))).
    rewrite <- Heq. unfold cells_ahead. by rewrite Hrds, Hrd, Hx', Hl'.
  - rewrite Hc. unfold cells_ahead. by rewrite Hrds, Hrd.
Qed.

Lemma ended_nil w hs r d : inv w hs → Hdir r d ∈ hs → ended w r = true → ahead w r = [].
Proof. intros Hi Hr. unfold ended, ahead, cells_ahead. destruct (w_rdirs w !! r) as [[d' [c|]]|]; done. Qed.

Lemma perm_in (h k : hold) hs hs' : hs ≡ₚ h :: hs' → k ∈ hs → k ≠ h → k ∈ hs'.
Proof. intros Hp Hk Hne. rewrite Hp in Hk. by apply list.elem_of_cons in Hk as [? | ?]. Qed.

Lemma fine_locked w hs hs' f fp :
  inv w hs → hs ≡ₚ Hremove f fp :: hs' →
  fine (Olocked f fp) w hs ('(e, w') ← removefile_locked f fp w;
    Ok (Rerr e, (w', if e is Some _ then Hfile f :: hs' else Hfile fp :: Hfile f :: Hfile f :: hs'))).
Proof.
  intros Hi Hp. apply (inv_perm _ _ _ Hp) in Hi as Hi1. destruct (inv_alive _ _ _ _ Hi Hp) as [x0 Hf]. cbn in Hf.
  unfold fine. case_decide as Hl; cbn in Hl.
  { unfold removefile_locked, getfile. by rewrite Hf, Hl. }
  assert (is_Some (w_files w !! fp)) as Hfp by (destruct (w_files w !! fp); [by eexists | done]).
  destruct (removefile_locked_ok w hs' f fp Hi1 Hfp) as (e & w' & x & -> & Hx & He). cbn [mbind res_bind].
  assert (x0 = x) as -> by congruence. eexists _, w', _. split; [done |]. destruct e as [e|].
  - destruct He as [-> He]. assert (inv w (Hfile f :: hs')) as Hi' by by apply (inv_swap w (Hremove f fp)).
    apply (stepped_quiet _ w hs hs); try done; cbn. split; [done |].
    intros Hpar%(hier_parent w f x fp Hf). destruct He as [Hc | Hc]; [| done]. destruct (children x) as [|g l] eqn:Hch; [done |].
    assert (g ∈ children x) as Hg by (rewrite Hch; left). destruct (name_of w g) as [name|] eqn:Hn.
    + exists g, name. apply (hchild_ok w hs f x); [done.. |]. by eapply child_unique.
    + by destruct (named w hs f x g).
  - destruct He as (Hi' & Hch & Hpx & Hne & Hrd & _ & Hh & Hls). constructor; [done | | | by intros].
    + cbn. split_and!; [by apply (hier_parent w f x fp) | by apply (no_hchild w hs f x) | done].
    + intros r d Hr _. cbn [moves]. destruct (iv_hold _ _ Hi _ Hr) as [y Hy]. cbn in Hy.
      destruct (Hls d y Hy) as (y' & Hy' & Hfl); [by eapply reader_in, perm_in |].
      rewrite (ahead_change w w' hs r d y' (filter (λ g, g ≠ f)) Hi Hr Hrd Hy').
      * destruct (ended w r) eqn:He; [by rewrite (ended_nil w hs r d) | done].
      * intros y0 c l Hy0 Hc. assert (y0 = y) as -> by congruence.
        destruct (tr_file _ (iv_tree _ _ Hi) d y Hy) as ([Hgc _ Hnd _ _ _] & _). case_decide as Hdf.
        -- by eapply cells_from_clear.
        -- injection Hfl as <-. exists l. split; [done |]. rewrite drop_absent; [done |].
           intros Hfl%(cells_from_sub c _ _ Hc). destruct (Hgc f Hfl) as (_ & z & Hz & ?). congruence.
Qed.

Lemma fine_create w hs hs' d name uid perm now :
  inv w hs → hs ≡ₚ Hfile d :: hs' → short (Some name) → short uid →
  fine (Ocreate d name uid perm now) w hs ('(r, w') ← createfile d name uid perm now w;
    Ok (Rnew r, (w', hand (if r is inr f then Some f else None) hs))).
Proof.
  intros Hi Hp Hsn Hsu. unfold fine. rewrite decide_False by by intros []. destruct (inv_alive _ _ _ _ Hi Hp) as [p Hd]. cbn in Hd.
  destruct (createfile_ok w hs d name uid perm now p Hi Hd Hsn Hsu) as (r & w' & -> & Hr). cbn [mbind res_bind].
  eexists _, w', _. split; [done |]. destruct r as [e|f].
  - destruct Hr as [-> _]. by apply (stepped_quiet _ w hs hs).
  - destruct Hr as (Hch & Hnew & Hi' & Hrd & (t & _ & Hh) & c & Hls). constructor; [done | | | by intros].
    + cbn. split_and!; [by rewrite hier_lookup, Hnew | | by eexists _, _, _].
      intros g Hg%(hchild_ok w hs d p); [congruence | done..].
    + intros r e Hr _. cbn [moves]. destruct (iv_hold _ _ Hi _ Hr) as [y Hy]. cbn in Hy. destruct (Hls e y Hy) as (y' & Hy' & Hfl).
      rewrite (ahead_change w w' hs r e y' (λ l, l ++ if decide (d = e) then [f] else []) Hi Hr Hrd Hy').
      * destruct (ended w r) eqn:He.
        -- rewrite (ended_nil w hs r e), decide_False by naive_solver. done.
        -- f_equal. by repeat case_decide; naive_solver.
      * intros y0 c0 l Hy0 Hc. assert (y0 = y) as -> by congruence. rewrite Hfl.
        eexists. split; [by apply cells_from_app |]. unfold files_of. rewrite list.omap_app. by repeat case_decide.
Qed.

Lemma fine_alloctree w hs uid gid mode user now :
  inv w hs → short uid → short gid → short user →
  fine (Oalloctree uid gid mode user now) w hs ('(t, w') ← alloctree uid gid mode user now w; Ok (Raddr (Some t), (w', hs))).
Proof.
  intros Hi Hu Hg Hw. unfold fine. rewrite decide_False by by intros [].
  destruct (alloctree_ok w hs uid gid mode user now Hi Hu Hg Hw) as (t & w' & f & T & y & -> & Hi' & _ & _ & Hf & Hfs & Hp & Hch & Ht & Hq & Hrd).
  cbn [mbind res_bind]. eexists _, w', _. split; [done |]. apply (stepped_quiet _ w hs hs); try done.
  - cbn. exists f, (fl_dir y). split_and!; [by rewrite hier_lookup, Hf | | done].
    apply map_eq. intros g. rewrite hier_lookup, Hfs. destruct (decide (f = g)) as [<- |].
    + rewrite !lookup_insert_eq. cbn. rewrite Hp. unfold links. by rewrite Hp, Hch, Ht.
    + by rewrite !lookup_insert_ne, hier_lookup.
  - intros r d Hr. rewrite Hrd, Hfs. split; [done |]. rewrite lookup_insert_ne; [done |]. intros <-.
    destruct (iv_hold _ _ Hi _ Hr) as [z Hz]. cbn in Hz. congruence.
Qed.

Lemma fine_opendir w hs hs' d :
  inv w hs → hs ≡ₚ Hfile d :: hs' →
  fine (Oopendir d) w hs ('(r, w') ← opendirfile d w; Ok (Raddr r, (w', if r is Some r then Hdir r d :: hs' else hs))).
Proof.
  intros Hi Hp. unfold fine. rewrite decide_False by by intros [].
  apply (inv_perm _ _ _ Hp) in Hi as Hi1. destruct (opendirfile_ok w hs' d Hi1) as (x & Hd & Hr). case_decide.
  - rewrite Hr. cbn [mbind res_bind]. eexists _, w, _. split; [done |]. constructor; [done | done | done | by intros].
  - destruct Hr as (r & w' & -> & Hnew & Hi' & Ha & Hk & Hh & _). cbn [mbind res_bind].
    eexists _, w', _. split; [done |]. constructor; [done | done | |].
    + intros s e Hs Hs'. apply (keeps_ahead w w' hs hs' s e); [done.. |]. by eapply perm_in.
    + intros e s [= <-] [= <-]. exists x. split_and!; try done. left.
Qed.

Lemma fine_readdir w hs hs' r d n :
  inv w hs → hs ≡ₚ Hdir r d :: hs' →
  fine (Oreaddir r d n) w hs ('(b, w') ← readdirfile r n w; Ok (Rbytes b, (w', hs))).
Proof.
  intros Hi Hp. unfold fine. rewrite decide_False by by intros []. assert (Hdir r d ∈ hs) as Hr by (rewrite Hp; left).
  destruct (readdirfile_ok w hs r d n Hi Hr) as (got & b & w' & -> & Hgot & Hb & Hlen & Hhd & Hi' & Hfs & Ht & _ & Hrd).
  cbn [mbind res_bind]. eexists _, w', _. split; [done |]. constructor; [done | | | by intros].
  - cbn. unfold hier. by rewrite Hfs.
  - intros s e Hs _. cbn [moves]. destruct (decide (r = s)) as [<- | Hne]; [by exists got |].
    unfold ahead, cells_ahead. rewrite Hfs, Hrd by done. done.
Qed.

Lemma fine_closedir w hs hs' r d :
  inv w hs → hs ≡ₚ Hdir r d :: hs' →
  fine (Oclosedir r d) w hs ('(clean, w') ← closedirfile_begin r w; Ok (Rnone, (w', Hclosing r d clean :: hs'))).
Proof.
  intros Hi Hp. unfold fine. rewrite decide_False by by intros [].
  apply (inv_perm _ _ _ Hp) in Hi as Hi1. destruct (closedirfile_begin_ok w hs' r d Hi1) as (clean & w' & -> & Hi' & Hc & _).
  cbn [mbind res_bind]. eexists _, w', _. split; [done |].
  apply (stepped_quiet _ w hs hs'); try done; [apply (cm_hier _ _ _ Hc) | |].
  - apply (calm_keeps _ _ hs); [done | | done]. intros h Hh. rewrite Hp. by right.
  - by intros s e _ [[=] | ?]%list.elem_of_cons.
Qed.

Lemma fine_closed w hs hs' r d clean :
  inv w hs → hs ≡ₚ Hclosing r d clean :: hs' →
  fine (Oclosed r d clean) w hs (w' ← closedirfile_end r clean w; Ok (Rnone, (w', Hfile d :: hs'))).
Proof.
  intros Hi Hp. unfold fine. rewrite decide_False by by intros [].
  apply (inv_perm _ _ _ Hp) in Hi as Hi1. destruct (closedirfile_end_ok w hs' r d clean Hi1) as (w' & -> & Hi' & Hk & Hh).
  cbn [mbind res_bind]. eexists _, w', _. split; [done |].
  apply (stepped_quiet _ w hs hs'); try done. by intros s e _ [[=] | ?]%list.elem_of_cons.
Qed.

Lemma fine_set w hs f x dir :
  inv w hs → w_files w !! f = Some x → d_name dir = d_name (fl_dir x) → meta_ok dir →
  fine (Oset f dir) w hs (Ok (Rnone, (setfile f (x <| fl_dir := dir |>) w, hs))).
Proof.
  intros Hi Hf Hn Hm. unfold fine. rewrite decide_False by by intros []. eexists _, _, _. split; [done |].
  apply (stepped_quiet _ w hs hs); try done; [by apply setdir_inv | by apply setdir_hier |].
  intros r d _. cbn. split; [done |]. destruct (decide (f = d)) as [<- |]; [by rewrite lookup_insert_eq, Hf | by rewrite lookup_insert_ne].
Qed.

(** Every step is as it should be. *)
Lemma perform_fine o w hs r : inv w hs → perform o (w, hs) = Some r → fine o w hs r.
Proof.
  intros Hi. destruct o; cbn [perform]; intros Ho;
    repeat (first [apply having_Some in Ho as (hs' & Hp & Ho) | apply provided_Some in Ho as [Hc Ho]]);
    try (injection Ho as <-).
  - destruct Hc as (? & ? & ?). by apply fine_alloctree.
  - destruct (w_trees w !! t) as [T|] eqn:HT; [| done]. injection Ho as <-.
    destruct (tr_root _ (iv_tree _ _ Hi) t T HT) as (_ & y & Hy & _). apply fine_incref; try done. by intros [].
  - apply fine_incref; try done; [| by intros []]. apply (inv_alive _ _ _ _ Hi Hp).
  - by apply fine_closefile.
  - by eapply fine_walk.
  - destruct Hc. by eapply fine_create.
  - by apply fine_remove.
  - by apply fine_locked.
  - by apply fine_opendir.
  - by eapply fine_readdir.
  - by apply fine_closedir.
  - by apply fine_closed.
  - destruct (w_files w !! f) as [x|] eqn:Hf; [| done]. apply provided_Some in Ho as [[? ?] Ho]. injection Ho as <-.
    by apply fine_set.
Qed.

(** ** Runs *)

Fixpoint run (os : list op) (s : state) : option (res (list out * state)) :=
  match os with
  | [] => Some (Ok ([], s))
  | o :: os =>
      match perform o s with
      | Some (Ok (r, s)) => x ← run os s; Some ('(rs, s) ← x; Ok (r :: rs, s))
      | Some Err => Some Err
      | Some Ub => Some Ub
      | None => None
      end
  end.

(** The specification of the steps, one after the other. *)
Fixpoint meant (os : list op) (rs : list out) (h h' : gmap addr node) : Prop :=
  match os, rs with
  | [], [] => h' = h
  | o :: os, r :: rs => ∃ h1, means o r h h1 ∧ meant os rs h1 h'
  | _, _ => False
  end.

Lemma run_cons o os s rs s' :
  run (o :: os) s = Some (Ok (rs, s')) →
  ∃ r rs' s1, rs = r :: rs' ∧ perform o s = Some (Ok (r, s1)) ∧ run os s1 = Some (Ok (rs', s')).
Proof.
  cbn [run]. destruct (perform o s) as [[[r s1]| |]|]; try done. destruct (run os s1) as [[[rs' s2]| |]|] eqn:Hr; try done.
  cbn. intros [= <- <-]. by exists r, rs', s1.
Qed.

Lemma step_ok o w hs r w' hs' :
  inv w hs → perform o (w, hs) = Some (Ok (r, (w', hs'))) → stepped o w hs r w' hs' ∧ ¬ lost o w.
Proof.
  intros Hi Ho%perform_fine; [| done]. unfold fine in Ho. case_decide; [done |]. destruct Ho as (r1 & w1 & hs1 & [= <- <- <-] & ?). done.
Qed.

Lemma run_inv os w hs rs w' hs' : inv w hs → run os (w, hs) = Some (Ok (rs, (w', hs'))) → inv w' hs'.
Proof.
  revert w hs rs. induction os as [|o os IH]; intros w hs rs Hi; [by intros [= <- <- <-] |].
  intros (r & rs' & [w1 hs1] & -> & Ho & Hr)%run_cons. destruct (step_ok o w hs r w1 hs1 Hi Ho) as [[] _]. by eapply IH.
Qed.

Lemma run_means os w hs rs w' hs' :
  inv w hs → run os (w, hs) = Some (Ok (rs, (w', hs'))) → meant os rs (hier w) (hier w').
Proof.
  revert w hs rs. induction os as [|o os IH]; intros w hs rs Hi; [by intros [= <- <- <-] |].
  intros (r & rs' & [w1 hs1] & -> & Ho & Hr)%run_cons. destruct (step_ok o w hs r w1 hs1 Hi Ho) as [[] _].
  exists (hier w1). split; [done |]. by eapply IH.
Qed.

(** A run goes wrong just when it comes to a step that is lost. *)
Lemma run_lost os w hs r :
  inv w hs → run os (w, hs) = Some r →
  r ≠ Err ∧ (r = Ub ↔ ∃ os1 o os2 rs w1 hs1, os = os1 ++ o :: os2 ∧ run os1 (w, hs) = Some (Ok (rs, (w1, hs1))) ∧
    is_Some (perform o (w1, hs1)) ∧ lost o w1).
Proof.
  revert w hs r. induction os as [|o os IH]; intros w hs r Hi.
  { intros [= <-]. split; [done |]. split; [done |]. by intros ([|? ?] & ? & ? & ? & ? & ? & ? & _). }
  cbn [run]. destruct (perform o (w, hs)) as [q|] eqn:Ho; [| done].
  pose proof (perform_fine o w hs q Hi Ho) as Hf. unfold fine in Hf. case_decide as Hl.
  { subst q. intros [= <-]. split; [done |]. split; [| done]. intros _. exists [], o, os, [], w, hs.
    by split_and!. }
  destruct Hf as (res & w1 & hs1 & -> & [Hi1 _ _ _]). destruct (run os (w1, hs1)) as [q|] eqn:Hr; [| done].
  destruct (IH w1 hs1 q Hi1 Hr) as [Hne Hiff]. intros [= <-]. split; [by destruct q as [[]| |] |].
  split.
  - intros Hu. assert (q = Ub) as (os1 & o' & os2 & rs & w2 & hs2 & -> & Hrun & Hen & Hl')%Hiff by by destruct q as [[]| |].
    exists (o :: os1), o', os2, (res :: rs), w2, hs2. split_and!; [done | | done | done]. cbn [run]. by rewrite Ho, Hrun.
  - intros ([|o1 os1] & o' & os2 & rs & w2 & hs2 & Heq & Hrun & Hen & Hl').
    + cbn in Heq, Hrun. injection Heq as -> ->. injection Hrun as <- <- <-. done.
    + cbn in Heq. injection Heq as <- ->. apply run_cons in Hrun as (r' & rs' & [w3 hs3] & -> & Ho' & Hrun).
      assert (q = Ub) as ->; [| done]. apply Hiff. rewrite Ho in Ho'. injection Ho' as <- <- <-.
      by exists os1, o', os2, rs', w2, hs2.
Qed.

(** ** A Readdir in a run *)

Lemma hdir_kept o w hs r w' hs' s d :
  perform o (w, hs) = Some (Ok (r, (w', hs'))) → Hdir s d ∈ hs → o ≠ Oclosedir s d → Hdir s d ∈ hs'.
Proof.
  intros Ho Hin Hne. destruct o; cbn [perform] in Ho;
    repeat (first [apply having_Some in Ho as (hs1 & Hp & Ho) | apply provided_Some in Ho as [_ Ho]]).
  - destruct (alloctree _ _ _ _ _ _) as [[]| |]; [| done..]. by injection Ho as <- <- <-.
  - destruct (w_trees w !! t) as [T|]; [| done]. injection Ho as Ho. destruct (incref _ _); [| done..]. injection Ho as <- <- <-. by right.
  - injection Ho as Ho. destruct (incref _ _); [| done..]. injection Ho as <- <- <-. by right.
  - injection Ho as Ho. destruct (closefile _ _); [| done..]. injection Ho as <- <- <-. by eapply perm_in.
  - injection Ho as Ho. destruct (walkfile1_locked _ _ _) as [[[g|] ?]| |]; [..| done | done]; injection Ho as <- <- <-; [by right | done].
  - injection Ho as Ho. destruct (createfile _ _ _ _ _ _) as [[[e|g] ?]| |]; [..| done | done]; injection Ho as <- <- <-; [done | by right].
  - injection Ho as Ho. destruct (removefile_begin _ _) as [[e|g]| |]; [..| done | done]; injection Ho as <- <- <-; [done |].
    right. by eapply perm_in.
  - injection Ho as Ho. destruct (removefile_locked _ _ _) as [[[e|] ?]| |]; [..| done | done]; injection Ho as <- <- <-;
      repeat right; by eapply perm_in.
  - injection Ho as Ho. destruct (opendirfile _ _) as [[[e|] ?]| |]; [..| done | done]; injection Ho as <- <- <-; [right; by eapply perm_in | done].
  - injection Ho as Ho. destruct (readdirfile _ _ _) as [[]| |]; [| done..]. by injection Ho as <- <- <-.
  - injection Ho as Ho. destruct (closedirfile_begin _ _) as [[]| |]; [| done..]. injection Ho as <- <- <-. right. eapply perm_in; [done.. |]. congruence.
  - injection Ho as Ho. destruct (closedirfile_end _ _ _); [| done..]. injection Ho as <- <- <-. right. by eapply perm_in.
  - destruct (w_files w !! f); [| done]. apply provided_Some in Ho as [_ Ho]. by injection Ho as <- <- <-.
Qed.

(** What a run made in [d], what it removed, and what it read through [r]. *)
Definition made1 (d : addr) (o : op) (res : out) : list addr :=
  match o, res with Ocreate e _ _ _ _, Rnew (inr f) => if decide (e = d) then [f] else [] | _, _ => [] end.
Definition unmade1 (o : op) (res : out) : list addr :=
  match o, res with Olocked f _, Rerr None => [f] | _, _ => [] end.
Definition buffer1 (r : addr) (o : op) (res : out) : list Z :=
  match o, res with Oreaddir s _ _, Rbytes b => if decide (s = r) then b else [] | _, _ => [] end.

Definition collect {A} (k : op → out → list A) (os : list op) (rs : list out) : list A := mjoin (zip_with k os rs).

Lemma collect_cons {A} (k : op → out → list A) o os r rs : collect k (o :: os) (r :: rs) = k o r ++ collect k os rs.
Proof. done. Qed.

(** One entry read: the file, and its entry at some point of the run. *)
Definition seen (os : list op) (s : state) (d : addr) (gb : addr * list Z) : Prop :=
  ∃ os1 os2 rs1 w1 hs1 x, os = os1 ++ os2 ∧ run os1 s = Some (Ok (rs1, (w1, hs1))) ∧
    w_files w1 !! gb.1 = Some x ∧ fl_parent x = Some d ∧ gb.2 = dir_bytes (fl_dir x).

Lemma ahead_file w hs r d g :
  inv w hs → Hdir r d ∈ hs → g ∈ ahead w r → ∃ x, w_files w !! g = Some x ∧ fl_parent x = Some d ∧ entry w g = dir_bytes (fl_dir x).
Proof.
  intros Hi Hr Hg. destruct (cells_ahead_ok w hs r d Hi Hr) as (x & rd & Hx & Hrd & Hd & Hc).
  destruct (tr_file _ (iv_tree _ _ Hi) d x Hx) as ([Hgc _ _ _ _ _] & _).
  destruct (rd_fl rd) as [c|]; [| unfold ahead in Hg; rewrite Hc in Hg; by apply list.elem_of_nil in Hg].
  destruct Hc as [Hc _]. destruct (Hgc g) as (_ & y & Hy & Hp); [by apply (cells_from_sub c _ _ Hc) |].
  exists y. split_and!; [done.. |]. unfold entry. by rewrite Hy.
Qed.

Lemma moves_ok o res w w' hs hs' r d :
  inv w hs → Hdir r d ∈ hs → stepped o w hs res w' hs' → Hdir r d ∈ hs' →
  ∃ got, buffer1 r o res = mjoin (entry w <$> got) ∧ got ++ ahead w' r `sublist_of` ahead w r ++ made1 d o res ∧
    (∀ g, g ∈ ahead w r → g ∈ got ++ ahead w' r ∨ g ∈ unmade1 o res) ∧ (∀ g, g ∈ got → g ∈ ahead w r).
Proof.
  intros Hi Hr [_ _ Hmv _] Hr'. specialize (Hmv r d Hr Hr').
  assert (buffer1 r o res = [] → made1 d o res = [] → ahead w' r = ahead w r →
    ∃ got, buffer1 r o res = mjoin (entry w <$> got) ∧ got ++ ahead w' r `sublist_of` ahead w r ++ made1 d o res ∧
    (∀ g, g ∈ ahead w r → g ∈ got ++ ahead w' r ∨ g ∈ unmade1 o res) ∧ (∀ g, g ∈ got → g ∈ ahead w r)) as Hquiet.
  { intros -> -> Ha. exists []. rewrite Ha, app_nil_r. split_and!; [done.. | by left | by intros g ?%list.elem_of_nil]. }
  destruct o; try (by apply Hquiet); destruct res as [| |[e|f']|[e|]|b]; try (by apply Hquiet); cbn [moves made1 unmade1 buffer1] in *.
  - exists []. rewrite Hmv. split_and!; [done | | intros g Hg; left; cbn; apply list.elem_of_app; by left | by intros g ?%list.elem_of_nil].
    cbn. repeat case_decide; naive_solver (auto using sublist_app, sublist_inserts_r, sublist_nil_l).
  - exists []. rewrite Hmv, app_nil_r. split_and!; [done | apply sublist_filter | | by intros g ?%list.elem_of_nil].
    intros g Hg. destruct (decide (g = f)) as [-> | Hne]; [right; left | left]. cbn. by apply list_elem_of_filter.
  - case_decide; [| by apply Hquiet]. destruct Hmv as (got & Ha & -> & _). exists got. rewrite <- Ha, app_nil_r.
    split_and!; [done.. | by left |]. intros g Hg. rewrite Ha. apply list.elem_of_app. by left.
Qed.

Lemma reading_ok os w hs rs w' hs' r d :
  inv w hs → Hdir r d ∈ hs → Oclosedir r d ∉ os → run os (w, hs) = Some (Ok (rs, (w', hs'))) →
  ∃ gots : list (addr * list Z), collect (buffer1 r) os rs = mjoin gots.*2 ∧
    gots.*1 ++ ahead w' r `sublist_of` ahead w r ++ collect (made1 d) os rs ∧
    (∀ g, g ∈ ahead w r → g ∈ gots.*1 ++ ahead w' r ∨ g ∈ collect unmade1 os rs) ∧
    Forall (seen os (w, hs) d) gots ∧ Hdir r d ∈ hs'.
Proof.
  revert w hs rs. induction os as [|o os IH]; intros w hs rs Hi Hr Hno.
  { intros [= <- <- <-]. exists []. cbn. rewrite app_nil_r. split_and!; try done. by left. }
  intros (res & rs' & [w1 hs1] & -> & Ho & Hrun)%run_cons. rewrite list.not_elem_of_cons in Hno. destruct Hno as [Hno Hnos].
  destruct (step_ok o w hs res w1 hs1 Hi Ho) as [Hst _]. assert (Hdir r d ∈ hs1) as Hr1 by (by apply (hdir_kept o w hs res w1 hs1); [| | congruence]).
  destruct (moves_ok o res w w1 hs hs1 r d Hi Hr Hst Hr1) as (got & Hb & Hsub & Hall & Hgot).
  destruct (IH w1 hs1 rs' (st_inv _ _ _ _ _ _ Hst) Hr1 Hnos Hrun) as (gots & Hb' & Hsub' & Hall' & Hseen & Hr').
  exists (((λ g, (g, entry w g)) <$> got) ++ gots). rewrite !collect_cons, !fmap_app, <- !list_fmap_compose.
  assert ((fst ∘ (λ g, (g, entry w g))) <$> got = got) as -> by apply list_fmap_id.
  change ((snd ∘ (λ g, (g, entry w g))) <$> got) with (entry w <$> got). split_and!; [| | | |done].
  - by rewrite Hb, Hb', join_app.
  - rewrite <- app_assoc. etrans; [apply sublist_app; [reflexivity | exact Hsub'] |].
    rewrite !app_assoc. by apply sublist_app.
  - intros g Hg. rewrite !list.elem_of_app. destruct (Hall g Hg) as [[Hg1 | Hg1]%list.elem_of_app | Hg1]; [by left; left; left | | by right; left].
    destruct (Hall' g Hg1) as [[? | ?]%list.elem_of_app | ?]; tauto.
  - apply Forall_app. split.
    + apply Forall_forall. intros [g b] (g' & [= -> ->] & Hg)%list_elem_of_In%list_elem_of_fmap.
      destruct (ahead_file w hs r d g' Hi Hr (Hgot g' Hg)) as (x & ? & ? & ?). by exists [], (o :: os), [], w, hs, x.
    + revert Hseen. apply Forall_impl. intros [g b] (os1 & os2 & rs1 & w2 & hs2 & x & -> & Hrun1 & ?).
      exists (o :: os1), os2, (res :: rs1), w2, hs2, x. split; [done |]. cbn [run]. by rewrite Ho, Hrun1.
Qed.
