(* ===== verification/FiletreeProg.v ===== *)
(** * FiletreeProg: what file trees promise to the programs that use them

    The theorems about file.c, for every run that starts without files, and what it does
    not promise: evaluated runs of it on its own and under the server of {!Srv}. *)

From stdpp Require Import strings.
From S2P Require Import Prelude Bytes Fcall FcallProps Stat StatProps Rune RuneProps Srv Filetree FiletreeInv FiletreeProps FiletreeOps FiletreeWalk FiletreeRead FiletreeRun.

Lemma inv0 : inv world0 [].
Proof.
  constructor.
  - constructor; try done. split; [constructor |]. by intros f ?%list.elem_of_nil.
  - done.
  - done.
  - by intros h ?%list.elem_of_nil.
  - by intros h r ?%list.elem_of_nil.
  - by intros r f rd c x ?%list.elem_of_nil.
  - constructor.
  - by intros f fp ?%list.elem_of_nil.
Qed.

Definition start : state := (world0, []).

(** *** Runs to look at *)

(** A tree with the files a and b and, in a, c, which its program holds twice. *)
Definition setting : list op :=
  [Oalloctree (Some (str "glenda")) None 0x1ED None 100; Oroot 1; Ocreate 2 (str "a") None (DMDIR + 0x1ED) 101;
   Ocreate 2 (str "b") None 0x1A4 102; Ocreate 3 (str "c") (Some (str "ken")) 0x1A4 103; Oincref 5].

(** The root is read, one entry at first, while b is removed and d created: at the address
    that b had. *)
Definition reading : list op :=
  [Oreaddir 21 2 100; Oremove 4; Olocked 4 2; Oclosefile 4; Oclosefile 4; Ocreate 2 (str "d") None 0x1A4 104;
   Oclosefile 2; Oreaddir 21 2 8192].

(** Two removals of c begin, one of them ends, and then a is removed. *)
Definition removing : list op :=
  [Oremove 5; Oremove 5; Olocked 5 3; Oclosefile 3; Oclosefile 5; Oclosefile 5; Oincref 3; Oremove 3; Olocked 3 2;
   Oclosefile 2; Oclosefile 3; Oclosefile 3; Oclosefile 3].

Definition outcome (os : list op) : list out * state := if run os start is Some (Ok x) then x else ([], start).





(** walkfile with any path, from any file that is held, comes to the file that the
    elements of the path lead to, one by one, with a reference to that in exchange for the
    one given up, and changes nothing else. *)
Theorem walkfile_resolves os rs w hs hs' f path :
  run os start = Some (Ok (rs, (w, hs))) → hs ≡ₚ Hfile f :: hs' → str_ok path →
  match resolve w f (elems path) with
  | Ok g => ∃ w', walkfile f (Some path) w = Ok (g, w') ∧ inv w' (hand g hs') ∧ hier w' = hier w
  | Err => False
  | Ub => walkfile f (Some path) w = Ub
  end.
Proof.
  intros Hr Hp Hpath. assert (inv w (Hfile f :: hs')) as Hi.
  { eapply inv_perm; [exact Hp |]. by eapply run_inv; [apply inv0 |]. }
  pose proof (walkfile_ok w hs' f path Hi Hpath) as Hw. unfold walks in Hw. destruct (resolve w f (elems path)); [| done..].
  destruct Hw as (w' & ? & ? & Hc). exists w'. split_and!; try done. apply (cm_hier _ _ _ Hc).
Qed.

Lemma walkfile_resolves_witness :
  let x := outcome setting in let w := x.2.1 in
  elems (str "a/c/../../b/") = [str "a"; str "c"; str ".."; str ".."; str "b"] ∧
  resolve w 2 (elems (str "a/c/../../b/")) = Ok (Some 4%positive) ∧
  ∃ w', walkfile 5 (Some (str "../c")) w = Ok (Some 5%positive, w') ∧
    inv w' (hand (Some 5%positive) [Hfile 5; Hfile 4; Hfile 3; Hfile 2]) ∧ hier w' = hier w.
Proof.
  set (x := outcome setting). split_and!; [by vm_compute.. |].
  pose proof (walkfile_resolves setting x.1 x.2.1 x.2.2 [Hfile 5; Hfile 4; Hfile 3; Hfile 2] 5 (str "../c")) as Hw.
  assert (resolve x.2.1 5 (elems (str "../c")) = Ok (Some 5%positive)) as Hr by by vm_compute.
  rewrite Hr in Hw. apply Hw; [by vm_compute | | apply (bool_decide_unpack _); by vm_compute].
  replace x.2.2 with [Hfile 5; Hfile 5; Hfile 4; Hfile 3; Hfile 2] by by vm_compute. done.
Defined.

(** C27: A directory is read once: from the moment it is opened, whatever is created and
    removed meanwhile, the buffers hold the entries of its children in the order in which
    they were made, none twice; a child that has neither been read nor removed is still
    ahead; and when nothing more is read, nothing is ahead or it does not fit. *)
Theorem directory_is_read os1 rs1 w1 hs1 d r w2 hs2 os rs w hs :
  run os1 start = Some (Ok (rs1, (w1, hs1))) →
  perform (Oopendir d) (w1, hs1) = Some (Ok (Raddr (Some r), (w2, hs2))) →
  Oclosedir r d ∉ os → run os (w2, hs2) = Some (Ok (rs, (w, hs))) →
  ∃ x (gots : list (addr * list Z)), w_files w1 !! d = Some x ∧
    collect (buffer1 r) os rs = mjoin gots.*2 ∧
    gots.*1 ++ ahead w r `sublist_of` children x ++ collect (made1 d) os rs ∧
    (∀ g, g ∈ children x → g ∈ gots.*1 ++ ahead w r ∨ g ∈ collect unmade1 os rs) ∧
    Forall (seen os (w2, hs2) d) gots ∧
    ∀ n w' hs', perform (Oreaddir r d n) (w, hs) = Some (Ok (Rbytes [], (w', hs'))) →
      ahead w r = [] ∨ ∃ g, head (ahead w r) = Some g ∧ n < len (entry w g).
Proof.
  intros Hr1 Ho Hno Hr. pose proof (run_inv _ _ _ _ _ _ inv0 Hr1) as Hi1.
  destruct (step_ok _ _ _ _ _ _ Hi1 Ho) as [[Hi2 _ _ Hop] _].
  destruct (Hop d r eq_refl eq_refl) as (x & Hx & Ha & _ & Hd).
  destruct (reading_ok os w2 hs2 rs w hs r d Hi2 Hd Hno Hr) as (gots & ? & Hsub & Hall & ? & Hd').
  pose proof (run_inv _ _ _ _ _ _ Hi2 Hr) as Hi. rewrite Ha in *. exists x, gots. split_and!; try done.
  intros n w' hs' Hrd. destruct (step_ok _ _ _ _ _ _ Hi Hrd) as [[_ _ Hmv _] _].
  assert (Hdir r d ∈ hs') as Hd'' by (by apply (hdir_kept _ _ _ _ _ _ _ _ Hrd)). specialize (Hmv r d Hd' Hd'').
  cbn [moves] in Hmv. rewrite decide_True in Hmv by done. destruct Hmv as ([|g got] & Hah & Hb & _ & Hroom).
  - rewrite Hah. cbn. destruct (ahead w' r) as [|g l]; [by left | right]. exists g. split; [done |]. by apply Hroom.
  - exfalso. destruct (ahead_file w hs r d g Hi Hd') as (y & _ & _ & He); [rewrite Hah; left |].
    apply (f_equal length) in Hb. cbn in Hb. rewrite length_app, He in Hb. pose proof (len_dir_bytes (fl_dir y)) as Hlen.
    pose proof (stat_size_min (fl_dir y)). unfold STATFIXLEN, QIDSZ, BIT8SZ, BIT16SZ, BIT32SZ, BIT64SZ in *. lia.
Qed.

Lemma directory_is_read_witness :
  let y := outcome (setting ++ [Oopendir 2] ++ reading) in
  ∃ gots : list (addr * list Z), gots.*1 `sublist_of` [3; 4; 4]%positive ∧
    mjoin gots.*2 = entry y.2.1 3 ++ entry y.2.1 4 ∧ ahead y.2.1 21 = [].
Proof.
  set (s0 := outcome setting). set (s1 := outcome (setting ++ [Oopendir 2])). set (s2 := outcome (setting ++ [Oopendir 2] ++ reading)).
  set (rs := drop 7 s2.1).
  destruct (directory_is_read setting s0.1 s0.2.1 s0.2.2 2 21 s1.2.1 s1.2.2 reading rs s2.2.1 s2.2.2) as (x & gots & Hx & Hb & Hs & _).
  - by vm_compute.
  - by vm_compute.
  - by repeat (apply list.not_elem_of_cons; split; [discriminate |]); intros ?%list.elem_of_nil.
  - by vm_compute.
  - exists gots. split; [| split; [etrans; [symmetry; exact Hb |]; by vm_compute | by vm_compute]].
    assert (children <$> w_files s0.2.1 !! 2%positive = Some [3; 4]%positive) as Hc by by vm_compute.
    rewrite Hx in Hc. injection Hc as Hc. rewrite Hc in Hs. etrans; [apply sublist_inserts_r, reflexivity | exact Hs].
Defined.

(** A file is destroyed with the reference that is the last: closefile calls destroy
    for it, once, and frees it, when it has no parent, no children, and nothing else in the
    program refers to it, and otherwise leaves it there. *)
Theorem destroyed_last os rs w hs hs' f :
  run os start = Some (Ok (rs, (w, hs))) → hs ≡ₚ Hfile f :: hs' →
  ∃ x w', w_files w !! f = Some x ∧ closefile f w = Ok w' ∧
    if decide (fl_parent x = None ∧ children x = [] ∧ Forall (λ h, hold_file h ≠ f) hs')
    then w_gone w' = w_gone w ++ [f] ∧ w_files w' = delete f (w_files w)
    else w_gone w' = w_gone w ∧ is_Some (w_files w' !! f).
Proof.
  intros Hr Hp. assert (inv w (Hfile f :: hs')) as Hi.
  { eapply inv_perm; [exact Hp |]. by eapply run_inv; [apply inv0 |]. }
  destruct (closefile_ok w hs' f Hi) as (w' & x & Hcl & _ & _ & Hf & Hd). exists x, w'. split_and!; [done.. |].
  destruct (iv_ref _ _ Hi f x Hf) as [Hrf _]. rewrite refs_cons in Hrf. cbn in Hrf. rewrite decide_True in Hrf by done.
  pose proof (count_nonneg (λ h, bool_decide (hold_file h = f)) hs') as Hnn. change (0 ≤ refs f hs') in Hnn.
  assert (fl_ref x = 1 ↔ fl_parent x = None ∧ children x = [] ∧ Forall (λ h, hold_file h ≠ f) hs') as Hiff.
  { rewrite Hrf. unfold parented. split.
    - intros H1. assert (len (children x) = 0 ∧ refs f hs' = 0) as [Hc H0] by (destruct (fl_parent x); lia). split_and!.
      + destruct (fl_parent x); [lia | done].
      + apply length_zero_iff_nil. lia.
      + apply Forall_forall. intros h Hh%list_elem_of_In Heq. pose proof (refs_pos f h hs' Hh Heq). lia.
    - intros (-> & -> & Hno). rewrite refs_none; [done |]. intros h Hh. by apply (proj1 (Forall_forall _ _) Hno), list_elem_of_In. }
  destruct (decide (fl_ref x = 1)) as [H1 | H1].
  - rewrite decide_True by tauto. by destruct Hd as (? & ? & _).
  - rewrite decide_False by tauto. destruct Hd as [-> ->]. split; [done |]. rewrite lookup_insert_eq. by eexists.
Qed.

Lemma destroyed_last_witness :
  let x := outcome (setting ++ [Oremove 4; Olocked 4 2; Oclosefile 2; Oclosefile 4]) in
  ∃ w', closefile 4 x.2.1 = Ok w' ∧ w_gone x.2.1 = [] ∧ w_gone w' = [4%positive].
Proof.
  set (x := outcome _). destruct (destroyed_last (setting ++ [Oremove 4; Olocked 4 2; Oclosefile 2; Oclosefile 4]) x.1 x.2.1 x.2.2
    [Hfile 5; Hfile 5; Hfile 3; Hfile 2] 4) as (y & w' & Hy & Hc & Hd).
  - by vm_compute.
  - apply (bool_decide_unpack _). by vm_compute.
  - exists w'. assert (w_gone x.2.1 = []) as Hg by by vm_compute. split; [done |]. split; [done |].
    assert ((λ y, (fl_parent y, children y)) <$> w_files x.2.1 !! 4%positive = Some (None, [])) as Hl by by vm_compute.
    rewrite Hy in Hl. injection Hl as Hp Hch.
    rewrite decide_True, Hg in Hd; [by apply Hd |]. split_and!; [done.. |]. by apply (bool_decide_unpack _).
Defined.

(** ** What goes wrong *)

(** freetree never succeeds: the files have references still, which freefile asserts they
    have not, and a cell that is empty is followed to a nil file. *)
Lemma _freefiles_fails fuel f w hs w' : inv w hs → _freefiles fuel f w ≠ Ok w'.
Proof.
  intros Hi. revert f w'. induction fuel as [|fuel IH]; intros f w'; cbn [_freefiles]; [done |].
  unfold getfile. destruct (w_files w !! f) as [x|] eqn:Hf; [| done]. cbn [res_of_option mbind res_bind].
  destruct (fl_filelist x) as [|[c [g|]] l] eqn:Hl; cbn [res_of_option mbind res_bind snd]; [| | done].
  - rewrite decide_False by auto. unfold freefile, getfile. cbn [w_files update]. rewrite Hf. cbn [res_of_option mbind res_bind].
    case_decide; [done |]. destruct (iv_ref _ _ Hi f x Hf) as [_ Hpos]. by rewrite decide_True by lia.
  - destruct (_freefiles fuel g w) as [w1| |] eqn:Hg; [by destruct (IH g w1) | done..].
Qed.

Lemma freetree_fails t w hs w' : inv w hs → freetree t w ≠ Ok w'.
Proof.
  intros Hi. unfold freetree. destruct (w_trees w !! t) as [T|]; [| done]. cbn [res_of_option mbind res_bind].
  destruct (_freefiles _ _ w) as [w1| |] eqn:Hf; [by destruct (_freefiles_fails _ _ _ _ _ Hi Hf) | done..].
Qed.

(** The root of a tree and the first file made in it have the same qid, when that is a
    directory too. *)
Lemma root_qid_again :
  let w := (outcome setting).2.1 in
  (λ x, d_qid (fl_dir x)) <$> w_files w !! 2%positive = (λ x, d_qid (fl_dir x)) <$> w_files w !! 3%positive.
Proof. by vm_compute. Qed.

(** A file can be created in a directory that has been removed, where no path leads. *)
Lemma created_nowhere :
  let os := [Oalloctree None None 0x1ED None 100; Oroot 1; Ocreate 2 (str "a") None (DMDIR + 0x1ED) 101; Oincref 3;
    Oremove 3; Olocked 3 2; Ocreate 3 (str "b") None 0x1A4 102] in
  ∃ f, (outcome os).1 !! 6%nat = Some (Rnew (inr f)) ∧ hier (outcome os).2.1 !! 3%positive = None.
Proof. exists 4%positive. by vm_compute. Qed.
