(* ===== verification/SrvTree.v ===== *)
(** * SrvTree: a server of {!Srv} with a file tree of {!Filetree}

    The interface that srv.c uses, implemented by file.c, and a session that shows what
    happens to a client that removes a file twice, through two fids.  Where file.c is not
    defined the state stays as it is. *)

From stdpp Require Import strings.
From S2P Require Import Prelude Bytes Fcall FcallProps Stat StatProps Rune Intmap RuneProps Filetree FiletreeRun FiletreeProg.
From S2P Require Import Srv SrvInv SrvProps SrvSteps SrvNil SrvRun.

(** ** The interface *)

Definition orelse {A} (r : res A) (a : A) : A := if r is Ok b then b else a.

Definition incvers (d : Dir) : Dir := d <| d_qid := mkQid (q_path (d_qid d)) (u32 (q_vers (d_qid d) + 1)) (q_type (d_qid d)) |>.

(** The tree at [t]. *)
Definition filetree (t : addr) : FileTree Filetree.world addr addr := {|
  tree_root := λ w, default t (Filetree.t_root <$> Filetree.w_trees w !! t);
  file_dir := λ w f, default dir0 (Filetree.fl_dir <$> Filetree.w_files w !! f);
  file_parent := λ w f, x ← Filetree.w_files w !! f; Filetree.fl_parent x;
  file_incref := λ f w, orelse (Filetree.incref f w) w;
  closefile := λ f w, orelse (Filetree.closefile f w) w;
  walkfile := Filetree.walkfile;
  hasperm := λ w f u p, orelse (x ← Filetree.getfile w f; Filetree.hasperm x (default [] u) p) false;
  opendirfile := λ f w, orelse (Filetree.opendirfile f w) (None, w);
  readdirfile := λ r n w, orelse (Filetree.readdirfile r n w) ([], w);
  closedirfile := λ r w, orelse (Filetree.closedirfile r w) w;
  removefile := λ f w, orelse (Filetree.removefile f w) (None, w);
  file_incvers := λ f w, orelse (Filetree.modfile f (λ x, x <| Filetree.fl_dir := incvers (Filetree.fl_dir x) |>) w) w
|}.

#[local] Instance the_tree : FileTree Filetree.world addr addr := filetree 1.

(** ** A session *)

(** The tree of {!FiletreeProg}, in the hands of the server alone. *)
Definition tree0 : Filetree.world :=
  (FiletreeProg.outcome (FiletreeProg.setting ++ (FiletreeRun.Oclosefile <$> [2; 3; 4; 5; 5]%positive))).2.1.

Definition tree_srv : SrvOps addr addr :=
  mkSrvOps _ _ (λ u, false) true None None (str "no authentication") (λ _, str "bad write").

Definition a_walk t fid newfid names := message (fcall0 <| f_type := 110 |> <| f_tag := t |> <| f_fid := fid |>
  <| f_newfid := newfid |> <| f_nwname := len names |> <| f_wname := Some <$> names |>).
Definition a_remove t fid := message (fcall0 <| f_type := 122 |> <| f_tag := t |> <| f_fid := fid |>).

(** Two fids for c, each of which removes it. *)
Definition removals : list (list Z) :=
  [a_version "9P2000"; an_attach 1 0; a_walk 2 0 1 [str "a"; str "c"]; a_walk 3 0 2 [str "a"; str "c"]; a_remove 4 1; a_remove 5 2].

(** The second removal takes hasperm to the parent of a file that has none any more. *)
Lemma removed_twice :
  match srv_start removals tree0 with
  | Ok s0 =>
      match turns tree_srv chunk_read 5 [] s0 with
      | Some (_, s) =>
          match getreq chunk_read s with
          | Ok (Some a, s1) => dispatch tree_srv a s1 = Ub
          | _ => False
          end
      | None => False
      end
  | _ => False
  end.
Proof. by vm_compute. Qed.
