(* ===== verification/Mnt.v ===== *)
(** * Mnt: the mount driver's remote procedure calls

    sys/src/9/port/devmnt.c: mountrpc and what it calls.  Many processes share a connection
    to a 9P server: each puts its request on a queue under a tag of its own and sends it;
    one of them at a time reads the connection and gives the replies to their owners.  A
    process that is interrupted sends a flush and waits for the answer to that.

    Each section under a lock is one step of the process that runs it, as is each test that
    is made without one; between them other processes may run.  A request is an Mntrpc at an
    address; those freed to the allocator are gone, and using one is [Ub].  The list
    [m->queue], linked by [list], is the list of its addresses, and so is [rpcfree].  A
    panic is [Err].  What bread and write do is up to the environment: it is an argument of
    the step.  Left out: the statistics, allocations that fail, and the Chan of a request. *)

From stdpp Require Import strings.
From S2P Require Import Prelude Bytes Fcall Qio Srv.

Definition Eintr : list Z := str "interrupted".
Definition Emountrpc : list Z := str "mount rpc error".

(** One more than any message type. *)
Definition Tmax : Z := 128.

(** ** Tags *)

Definition TAGSHIFT : Z := 5.
Definition TAGMASK : Z := 31.
Definition NMASK : Z := (64 * 1024) ≫ TAGSHIFT.

(** mntreset: neither 0 nor NOTAG is a tag. *)
Definition tagmask0 : list Z := 1 :: replicate (Z.to_nat (NMASK - 2)) 0 ++ [0x80000000].

(** The first bit from [j] on that is clear. *)
Fixpoint clear_bit (n : nat) (v j : Z) : option Z :=
  match n with
  | O => None
  | S n => if Z.testbit v j then clear_bit n v (j + 1) else Some j
  end.

(** The loops of alloctag from word [i] on; none free makes it panic. *)
Fixpoint alloctag_loop (i : Z) (mask : list Z) : res (Z * list Z) :=
  match mask with
  | [] => Err
  | v :: mask =>
      match clear_bit 32 v 0 with
      | Some j => Ok (i ≪ TAGSHIFT + j, Z.lor v (1 ≪ j) :: mask)
      | None => '(t, mask) ← alloctag_loop (i + 1) mask; Ok (t, v :: mask)
      end
  end.

Definition alloctag (mask : list Z) : res (Z * list Z) := alloctag_loop 0 mask.

Definition freetag (t : Z) (mask : list Z) : list Z :=
  alter (λ v, Z.ldiff v (1 ≪ Z.land t TAGMASK)) (Z.to_nat (t ≫ TAGSHIFT)) mask.

(** ** Reading a message *)

(** What bread gives, when it returns: a chain of blocks, nil, or an error raised. *)
Inductive bread : Type := Bblocks (bs : list Block) | Bnil | Braise (e : list Z).

(** A routine that reads has returned, has returned -1, has raised an error, or sleeps. *)
Inductive reading : Type := Rdone | Rfail | Rraise (e : list Z) | Rsleep.

Section Read.
Variables (headroom : Z → Z) (blockalign : Z).

Fixpoint doread (ins : list bread) (q : Queue) (len : Z) : reading * Queue * list bread :=
  if decide (len ≤ qlen q) then (Rdone, q, ins) else
  match ins with
  | [] => (Rsleep, q, [])
  | Bblocks bs :: ins => if decide (blocklen bs = 0) then (Rfail, q, ins) else doread ins (qaddlist q bs) len
  | Bnil :: ins => (Rfail, q, ins)
  | Braise e :: ins => (Rraise e, q, ins)
  end.

(** The bytes of the first block of a queue. *)
Definition firstblock (q : Queue) : res (list Z) :=
  match q_blocks q with b :: _ => bget b (BLEN b) | [] => Ub end.

(** [if(hlen > 0) ...] *)
Definition skipheader (b : Block) (hlen len : Z) : Block * Z :=
  if decide (hlen > 0) then (b <| b_rp := b_rp b + hlen |>, len - hlen) else (b, len).

(** The do loop: the blocks of the data, and the queue without them. *)
Fixpoint take_blocks (fuel : nat) (q : Queue) (hlen len : Z) : res (list Block * Queue) :=
  match fuel with
  | O => Ub
  | S fuel =>
      match qremove q with
      | (None, _) => Ub
      | (Some b, q) =>
          let '(b, len) := skipheader b hlen len in
          let i := BLEN b in
          if decide (i ≤ len) then
            if decide (len - i > 0) then '(bs, q) ← take_blocks fuel q 0 (len - i); Ok (b :: bs, q) else Ok ([b], q)
          else
            nb ← allocb headroom blockalign (i - len);
            d ← bget (b <| b_rp := b_rp b + len |>) (i - len);
            nb ← bput nb d;
            Ok ([b <| b_wp := b_rp b + len |>], qputback q nb)
      end
  end.

(** mntrpcread: [reply] and [b] are members of the request.  Of an Rread only the header is
    in the first block, where convM2S looks; the zeros stand for what is not.  What a
    failed convM2S leaves in the reply is not looked at. *)
Definition mntrpcread (msize : Z) (ins : list bread) (reply : Fcall) (rb : list Block) (q : Queue) :
    res (reading * Fcall * list Block * Queue * list bread) :=
  let reply := reply <| f_type := 0 |> <| f_tag := 0 |> in
  let least := BIT32SZ + BIT8SZ + BIT16SZ in
  match doread ins q least with
  | (Rdone, q, ins) =>
      q ← pullupqueue headroom blockalign q least;
      d ← firstblock q;
      len ← GBIT32 d;
      let len := s32 len in
      if decide (len < least ∨ len > msize) then
        let '(_, q, _) := qdiscard q (qlen q) in Ok (Rfail, reply, rb, q, ins)
      else
      match doread ins q len with
      | (Rdone, q, ins) =>
          d ← firstblock q;
          t ← GBIT8 (dropZ BIT32SZ d);
          let hlen := if decide (t = mtype_code Rread) then BIT32SZ + BIT8SZ + BIT16SZ + BIT32SZ else len in
          if decide (len < hlen) then
            let '(_, q, _) := qdiscard q (qlen q) in Ok (Rfail, reply, rb, q, ins)
          else
          q ← pullupqueue headroom blockalign q hlen;
          d ← firstblock q;
          match convM2S (takeZ hlen d ++ replicate (Z.to_nat (len - hlen)) 0) reply with
          | Ok (_, reply) =>
              '(bs, q) ← take_blocks (S (length (q_blocks q))) q hlen len;
              Ok (Rdone, reply, bs, q, ins)
          | Err => let '(_, q, _) := qdiscard q len in Ok (Rfail, reply, rb, q, ins)
          | Ub => Ub
          end
      | (r, q, ins) => Ok (r, reply, rb, q, ins)
      end
  | (r, q, ins) => Ok (r, reply, rb, q, ins)
  end.
End Read.

(** ** Requests *)

Record Mntrpc : Type := mkMntrpc {
  mr_request : Fcall;
  mr_reply : Fcall;
  mr_r : option addr;       (* the process asleep on the Rendez *)
  mr_rpclen : Z;
  mr_b : list Block;
  mr_done : bool;
  mr_flushed : option addr
}.

#[export] Instance Mntrpc_rebuild : Rebuild Mntrpc := λ r,
  mkMntrpc (mr_request r) (mr_reply r) (mr_r r) (mr_rpclen r) (mr_b r) (mr_done r) (mr_flushed r).

Record Mnt : Type := mkMnt { m_queue : list addr; m_rip : option addr; m_q : Queue; m_msize : Z }.

#[export] Instance Mnt_rebuild : Rebuild Mnt := λ m, mkMnt (m_queue m) (m_rip m) (m_q m) (m_msize m).

Record Mntalloc : Type := mkMntalloc { ma_rpcfree : list addr; ma_nrpcfree : Z; ma_nrpcused : Z; ma_tagmask : list Z }.

#[export] Instance Mntalloc_rebuild : Rebuild Mntalloc := λ a,
  mkMntalloc (ma_rpcfree a) (ma_nrpcfree a) (ma_nrpcused a) (ma_tagmask a).

(** Where a process is: in a call of mountrpc for [r0], with the request [r] in mountio,
    which is [r0] or the last of the flushes that follow it. *)
Inductive pc : Type :=
  | Pelse (r : addr)                             (* with a request for another mount *)
  | Penq (r0 r : addr)                           (* before lock(m) *)
  | Pwrite (r0 r : addr)                         (* in write *)
  | Pgate (r0 r : addr)                          (* at the top of for(;;) *)
  | Pdoze (r0 r : addr)                          (* in sleep, before its test *)
  | Pasleep (r0 r : addr)
  | Pwoken (r0 r : addr)                         (* woken, still in sleep *)
  | Pafter (r0 r : addr)                         (* at if(r->done) *)
  | Preading (r0 r : addr)                       (* at while(r->done == 0) *)
  | Pmux (r0 r : addr)                           (* in mountmux *)
  | Pwaking (r0 r q : addr)                      (* in mountmux, at its wakeup *)
  | Prelease (r0 r : addr)                       (* after the loop *)
  | Pfault (r0 r : addr) (e : list Z)            (* in waserror *)
  | Pflush (r0 r : addr)                         (* at mntflushalloc *)
  | Pfreeing (r0 r : addr) (e : option (list Z)) (* in mntflushfree, to return or raise *)
  | Pqrm (r0 r : addr) (e : option (list Z))     (* at its mntqrm *)
  | Pfreed (r0 r : addr) (e : option (list Z))   (* at its if(fr) *)
  | Pdone (r0 : addr) (e : option (list Z)).     (* mountio has ended *)

Record sys : Type := mkSys {
  y_rpcs : gmap addr Mntrpc;
  y_mnt : Mnt;
  y_alloc : Mntalloc;
  y_next : addr;
  y_procs : gmap addr pc
}.

#[export] Instance sys_rebuild : Rebuild sys := λ y, mkSys (y_rpcs y) (y_mnt y) (y_alloc y) (y_next y) (y_procs y).

Definition getrpc (y : sys) (r : addr) : res Mntrpc := res_of_option (y_rpcs y !! r).
Definition setrpc (r : addr) (x : Mntrpc) (y : sys) : sys := y <| y_rpcs := <[r := x]> (y_rpcs y) |>.
Definition setpc (p : addr) (c : pc) (y : sys) : sys := y <| y_procs := <[p := c]> (y_procs y) |>.
Definition setmnt (m : Mnt) (y : sys) : sys := y <| y_mnt := m |>.
Definition setalloc (a : Mntalloc) (y : sys) : sys := y <| y_alloc := a |>.

Definition mntrpc0 (tag rpclen : Z) : Mntrpc := mkMntrpc (fcall0 <| f_tag := tag |>) fcall0 None rpclen [] false None.

Definition mntralloc (msize : Z) (y : sys) : res (addr * sys) :=
  let a := y_alloc y in
  '(r, x, y) ← match ma_rpcfree a with
               | [] =>
                   '(tag, mask) ← alloctag (ma_tagmask a);
                   Ok (y_next y, mntrpc0 tag msize,
                       setalloc (a <| ma_tagmask := mask |>) y <| y_next := Pos.succ (y_next y) |>)
               | r :: free =>
                   x ← getrpc y r;
                   Ok (r, if decide (mr_rpclen x < msize) then x <| mr_rpclen := msize |> else x,
                       setalloc (a <| ma_rpcfree := free |> <| ma_nrpcfree := ma_nrpcfree a - 1 |>) y)
               end;
  let a := y_alloc y in
  Ok (r, setrpc r (x <| mr_done := false |> <| mr_flushed := None |> <| mr_b := [] |>)
           (setalloc (a <| ma_nrpcused := ma_nrpcused a + 1 |>) y)).

Definition mntfree (r : addr) (y : sys) : res sys :=
  x ← getrpc y r;
  let a := y_alloc y in
  let a' := if decide (10 ≤ ma_nrpcfree a) then a <| ma_tagmask := freetag (f_tag (mr_request x)) (ma_tagmask a) |>
            else a <| ma_rpcfree := r :: ma_rpcfree a |> <| ma_nrpcfree := ma_nrpcfree a + 1 |> in
  let y := setalloc (a' <| ma_nrpcused := ma_nrpcused a' - 1 |>) y in
  Ok (if decide (10 ≤ ma_nrpcfree a) then y <| y_rpcs := delete r (y_rpcs y) |> else y).

(** The request for a flush of [r]. *)
Definition mntflushalloc (r : addr) (msize : Z) (y : sys) : res (addr * sys) :=
  '(fr, y) ← mntralloc msize y;
  x ← getrpc y r;
  f ← getrpc y fr;
  let old := if decide (f_type (mr_request x) = mtype_code Tflush) then f_oldtag (mr_request x) else f_tag (mr_request x) in
  Ok (fr, setrpc fr (f <| mr_request := (mr_request f) <| f_type := mtype_code Tflush |> <| f_oldtag := old |> |>
                       <| mr_flushed := Some r |>) y).

(** ** Sleep and wakeup *)

(** wakeup panics when the process is not asleep. *)
Definition wakeup (q : addr) (y : sys) : res (bool * sys) :=
  x ← getrpc y q;
  match mr_r x with
  | None => Ok (false, y)
  | Some p =>
      match y_procs y !! p with
      | Some (Pasleep r0 r) => Ok (true, setpc p (Pwoken r0 r) (setrpc q (x <| mr_r := None |>) y))
      | _ => Err
      end
  end.

Definition rpcattn (y : sys) (x : Mntrpc) : bool := mr_done x || bool_decide (m_rip (y_mnt y) = None).

Fixpoint gate_loop (l : list addr) (y : sys) : res sys :=
  match l with
  | [] => Ok y
  | q :: l =>
      x ← getrpc y q;
      if mr_done x then gate_loop l y else
      '(woken, y) ← wakeup q y;
      if woken : bool then Ok y else gate_loop l y
  end.

Definition mntgate (y : sys) : res sys :=
  gate_loop (m_queue (y_mnt y)) (setmnt ((y_mnt y) <| m_rip := None |>) y).

(** The request in a queue that has a tag. *)
Fixpoint findtag (y : sys) (l : list addr) (tag : Z) : res (option addr) :=
  match l with
  | [] => Ok None
  | q :: l => x ← getrpc y q; if decide (f_tag (mr_request x) = tag) then Ok (Some q) else findtag y l tag
  end.

(** [*l = r->list] where [r] is. *)
Fixpoint unlink (r : addr) (l : list addr) : list addr :=
  match l with [] => [] | q :: l => if decide (q = r) then l else q :: unlink r l end.

Definition unqueue (r : addr) (y : sys) : sys := setmnt ((y_mnt y) <| m_queue := unlink r (m_queue (y_mnt y)) |>) y.

(** mountmux up to its unlock: the request that the reply in [r] is for. *)
Definition mountmux (r : addr) (y : sys) : res (option addr * sys) :=
  x ← getrpc y r;
  q ← findtag y (m_queue (y_mnt y)) (f_tag (mr_reply x));
  match q with
  | None => Ok (None, y)
  | Some q =>
      let y := unqueue q y in
      if decide (q = r) then Ok (Some q, setrpc q (x <| mr_done := true |>) y) else
      z ← getrpc y q;
      Ok (Some q, setrpc q (z <| mr_reply := mr_reply x |> <| mr_b := mr_b x |> <| mr_done := true |>)
                    (setrpc r (x <| mr_b := [] |>) y))
  end.

(** ** The steps of a process *)

Inductive step : Type :=
  | Scall (p : addr) (req : Fcall)               (* mntralloc, and mountrpc with a request *)
  | Sother (p : addr) (msize : Z)                (* mntralloc for another mount *)
  | Swrite (p : addr) (r : list Z + Z)           (* write raises an error, or returns a count *)
  | Ssleep (p : addr) (intr : bool)              (* from Pdoze or Pwoken; a note is pending *)
  | Sintr (p : addr)                             (* a note for a process asleep *)
  | Sread (p : addr) (ins : list bread)
  | Sgo (p : addr).

(** What mountrpc gives its caller. *)
Inductive result : Type := Rreply (f : Fcall) (b : list Block) | Rerr (e : cptr).

(** What happens in a step: nothing of note, a request is made, mountmux gives a reply to
    one or to none, a call ends. *)
Inductive out : Type :=
  | Onone
  | Onew (r : addr)
  | Odeliver (q : option addr) (f : Fcall) (b : list Block)
  | Oreturn (r0 : addr) (r : result).

Definition mountrpc_result (x : Mntrpc) (e : option (list Z)) : result :=
  let t := f_type (mr_reply x) in
  match e with
  | Some e => Rerr (Some e)
  | None =>
      if decide (t = mtype_code Rerror) then Rerr (f_ename (mr_reply x))
      else if decide (t = mtype_code Rflush) then Rerr (Some Eintr)
      else if decide (t = f_type (mr_request x) + 1) then Rreply (mr_reply x) (mr_b x)
      else Rerr (Some Emountrpc)
  end.

Section Steps.
Variables (headroom : Z → Z) (blockalign : Z).

Definition quiet (y : res sys) : option (res (out * sys)) := Some (y ← y; Ok (Onone, y)).

Definition mntqrm (r : addr) (y : sys) : res sys :=
  x ← getrpc y r;
  Ok (unqueue r (setrpc r (x <| mr_done := true |>) y)).

(** mntflushfree: [if(!r->done) ...], up to its call of mntqrm. *)
Definition flushfree_test (p r0 r : addr) (e : option (list Z)) (y : sys) : res sys :=
  x ← getrpc y r;
  Ok (if mr_done x then setpc p (Pfreed r0 r e) y
      else setpc p (Pqrm r0 r e) (setrpc r (x <| mr_reply := (mr_reply x) <| f_type := mtype_code Rflush |> |>) y)).

(** The rest of a turn of its loop; [fr] is [r->flushed]. *)
Definition flushfree_next (p r0 r : addr) (e : option (list Z)) (y : sys) : res sys :=
  x ← getrpc y r;
  match mr_flushed x with
  | Some fr => y ← mntfree r y; Ok (setpc p (Pfreeing r0 fr e) y)
  | None => Ok (setpc p (Pdone r0 e) y)
  end.

(** The steps that take nothing from outside. *)
Definition go (p : addr) (c : pc) (y : sys) : option (res (out * sys)) :=
  let m := y_mnt y in
  match c with
  | Pelse r => quiet (y ← mntfree r y; Ok (y <| y_procs := delete p (y_procs y) |>))
  | Penq r0 r => quiet (Ok (setpc p (Pwrite r0 r) (setmnt (m <| m_queue := r :: m_queue m |>) y)))
  | Pgate r0 r =>
      quiet (Ok (if decide (m_rip m = None) then setpc p (Preading r0 r) (setmnt (m <| m_rip := Some p |>) y)
                 else setpc p (Pdoze r0 r) y))
  | Pafter r0 r => quiet (x ← getrpc y r; Ok (setpc p (if mr_done x then Pfreeing r0 r None else Pgate r0 r) y))
  | Preading r0 r =>
      match y_rpcs y !! r with
      | Some x => if mr_done x then quiet (Ok (setpc p (Prelease r0 r) y)) else None
      | None => Some Ub
      end
  | Pmux r0 r =>
      Some (x ← getrpc y r;
            '(q, y) ← mountmux r y;
            Ok (Odeliver q (mr_reply x) (mr_b x), setpc p (match q with
                                     | Some q => if decide (q = r) then Preading r0 r else Pwaking r0 r q
                                     | None => Preading r0 r
                                     end) y))
  | Pwaking r0 r q => quiet ('(_, y) ← wakeup q y; Ok (setpc p (Preading r0 r) y))
  | Prelease r0 r => quiet (y ← mntgate y; Ok (setpc p (Pfreeing r0 r None) y))
  | Pfault r0 r e =>
      quiet (y ← (if decide (m_rip m = Some p) then mntgate y else Ok y);
             Ok (setpc p (if decide (e = Eintr) then Pflush r0 r else Pfreeing r0 r (Some e)) y))
  | Pflush r0 r => Some ('(fr, y) ← mntflushalloc r (m_msize m) y; Ok (Onew fr, setpc p (Penq r0 fr) y))
  | Pfreeing r0 r e => quiet (flushfree_test p r0 r e y)
  | Pqrm r0 r e => quiet (y ← mntqrm r y; Ok (setpc p (Pfreed r0 r e) y))
  | Pfreed r0 r e => quiet (flushfree_next p r0 r e y)
  | Pdone r0 e =>
      Some (x ← getrpc y r0; y ← mntfree r0 y;
            Ok (Oreturn r0 (mountrpc_result x e), y <| y_procs := delete p (y_procs y) |>))
  | _ => None
  end.

(** The count that write should return; convS2M, which fills the buffer of the request,
    gives 0 for one that it cannot encode. *)
Definition request_size (y : sys) (r : addr) : res Z :=
  x ← getrpc y r;
  let msize := m_msize (y_mnt y) in
  if decide (msize = 0) then Err else
  match convS2M (mr_request x) msize with
  | Ok b => if decide (mr_rpclen x < len b) then Ub else Ok (len b)
  | Err => Ok 0
  | Ub => Ub
  end.

(** A step of the system; [None] when the process is not where it says. *)
Definition perform (s : step) (y : sys) : option (res (out * sys)) :=
  let m := y_mnt y in
  match s with
  | Scall p req =>
      if y_procs y !! p is Some _ then None else
      Some ('(r, y) ← mntralloc (m_msize m) y;
            x ← getrpc y r;
            Ok (Onew r, setpc p (Penq r r) (setrpc r (x <| mr_request := req <| f_tag := f_tag (mr_request x) |> |>
              <| mr_reply := (mr_reply x) <| f_tag := 0 |> <| f_type := Tmax |> |>) y)))
  | Sother p msize =>
      if y_procs y !! p is Some _ then None else
      Some ('(r, y) ← mntralloc msize y; Ok (Onew r, setpc p (Pelse r) y))
  | Swrite p w =>
      match y_procs y !! p with
      | Some (Pwrite r0 r) =>
          quiet (n ← request_size y r;
                 Ok (setpc p (match w with
                              | inl e => Pfault r0 r e
                              | inr k => if decide (k = n) then Pgate r0 r else Pfault r0 r Emountrpc
                              end) y))
      | _ => None
      end
  | Ssleep p intr =>
      match y_procs y !! p with
      | Some (Pdoze r0 r) =>
          quiet (x ← getrpc y r;
                 if intr : bool then Ok (setpc p (Pfault r0 r Eintr) y)
                 else if rpcattn y x then Ok (setpc p (Pafter r0 r) y)
                 else Ok (setpc p (Pasleep r0 r) (setrpc r (x <| mr_r := Some p |>) y)))
      | Some (Pwoken r0 r) => quiet (Ok (setpc p (if intr : bool then Pfault r0 r Eintr else Pafter r0 r) y))
      | _ => None
      end
  | Sintr p =>
      match y_procs y !! p with
      | Some (Pasleep r0 r) =>
          quiet (x ← getrpc y r; Ok (setpc p (Pfault r0 r Eintr) (setrpc r (x <| mr_r := None |>) y)))
      | _ => None
      end
  | Sread p ins =>
      match y_procs y !! p with
      | Some (Preading r0 r) =>
          match y_rpcs y !! r with
          | None => Some Ub
          | Some x =>
              if mr_done x then None else
              match mntrpcread headroom blockalign (m_msize m) ins (mr_reply x) (mr_b x) (m_q m) with
              | Ok (Rsleep, _, _, _, _) | Ok (_, _, _, _, _ :: _) => None
              | Ok (o, reply, b, q, []) =>
                  quiet (Ok (setpc p (match o with
                                      | Rdone => Pmux r0 r
                                      | Rraise e => Pfault r0 r e
                                      | _ => Pfault r0 r Emountrpc
                                      end)
                               (setrpc r (x <| mr_reply := reply |> <| mr_b := b |>) (setmnt (m <| m_q := q |>) y))))
              | Err => Some Err
              | Ub => Some Ub
              end
          end
      | _ => None
      end
  | Sgo p => match y_procs y !! p with Some c => go p c y | None => None end
  end.
End Steps.

(** A connection that is set up, and that nobody uses. *)
Definition sys0 (msize : Z) : sys :=
  mkSys ∅ (mkMnt [] None (mkQueue [] 0 0 0 0 0 false false 0 []) msize) (mkMntalloc [] 0 0 tagmask0) 1%positive ∅.
