(* ===== verification/MntRead.v ===== *)
(** * MntRead: the mount driver cuts a stream into messages

    doread and mntrpcread of {!Mnt}, in terms of the bytes of the queue: a message is taken
    from the front of them, however they came. *)

From S2P Require Import Prelude Bytes Fcall FcallProps Qio QioProps Mnt.

Abbreviation bytes q := (contents (q_blocks q)).

(** What of a queue's invariant mntrpcread keeps: pullupqueue does not count the space of
    the block it makes in [len]. *)
Record mq_ok (q : Queue) : Prop := { mq_chain : chain_ok (q_blocks q); mq_dlen : q_dlen q = blocklen (q_blocks q) }.

Lemma mq_len q : mq_ok q → len (bytes q) = qlen q.
Proof. intros [Hc Hd]. unfold qlen. by rewrite Hd, len_contents. Qed.

(** *** Blocks *)

Lemma mq_add q bs : mq_ok q → chain_ok bs → mq_ok (qaddlist q bs) ∧ bytes (qaddlist q bs) = bytes q ++ contents bs.
Proof.
  intros [Hc Hd] Hb. split; [split |]; cbn; [by_chain | | by rewrite contents_app]. rewrite blocklen_app. lia.
Qed.

Lemma mq_putback q b : mq_ok q → block_ok b → mq_ok (qputback q b) ∧ bytes (qputback q b) = data b ++ bytes q.
Proof. intros [Hc Hd] Hb. split; [split |]; cbn; [by_chain | lia | done]. Qed.

Lemma mq_remove q b bs :
  mq_ok q → q_blocks q = b :: bs → ∃ q', qremove q = (Some b, q') ∧ block_ok b ∧ mq_ok q' ∧ q_blocks q' = bs ∧ bytes q = data b ++ bytes q'.
Proof.
  intros [Hc Hd] Hb. unfold qremove. rewrite Hb in *. apply Forall_cons_iff in Hc as [Hbk Hc]. cbn [blocklen] in Hd.
  eexists. split_and!; [done | done | split; cbn; [done | lia] | done | done].
Qed.

Lemma mq_discard bs q n sofar : mq_ok q → q_blocks q = bs → mq_ok (qdiscard_loop bs q n sofar).1.
Proof.
  revert q sofar. induction bs as [|b bs IH]; intros q sofar [Hc Hd] Hb; cbn [qdiscard_loop]; [by case_decide |].
  case_decide as Hlt; [| by cbn]. rewrite Hb in Hc, Hd. apply Forall_cons_iff in Hc as [Hbk Hc]. cbn [blocklen] in Hd.
  case_decide as Hle; [apply IH; [split; cbn; [done | lia] | done] |].
  destruct (skip_ok b (n - sofar) Hbk) as (Hok' & _ & Hl' & _); [lia |].
  split; cbn [q_blocks q_dlen update fst]; [by_chain |]. cbn [blocklen]. rewrite Hl'. cbn. lia.
Qed.

Lemma mq_qdiscard q n : mq_ok q → mq_ok (qdiscard q n).1.2.
Proof.
  intros Hq. pose proof (mq_discard (q_blocks q) q n 0 Hq eq_refl) as H. unfold qdiscard.
  destruct (qdiscard_loop (q_blocks q) q n 0) as [q1 s]. cbn in H. pose proof (wakes_unflow q1 (q_limit q1)) as [Hb _ Hd _ _ _ _].
  destruct (unflow q1 (q_limit q1)) as [q2 w]. cbn in *. destruct H as [H1 H2]. split; congruence.
Qed.

(** *** doread *)

Definition bread_ok (i : bread) : Prop := if i is Bblocks bs then chain_ok bs else True.
Definition bread_bytes (i : bread) : list Z := if i is Bblocks bs then contents bs else [].

(** What makes doread give up. *)
Definition disturbing (i : bread) : Prop := if i is Bblocks bs then blocklen bs = 0 else True.

(** The bytes that came are added to the queue; it returns when there are enough. *)
Lemma doread_ok ins q n :
  mq_ok q → Forall bread_ok ins →
  let '(r, q', rest) := doread ins q n in
  ∃ used, ins = used ++ rest ∧ mq_ok q' ∧ bytes q' = bytes q ++ mjoin (bread_bytes <$> used) ∧ q_blocks q `prefix_of` q_blocks q' ∧
    match r with
    | Rdone => n ≤ len (bytes q')
    | Rsleep => len (bytes q') < n ∧ rest = []
    | _ => len (bytes q') < n ∧ Exists disturbing used
    end.
Proof.
  intros Hq Hins. revert q Hq. induction Hins as [|i ins Hi Hins IH]; intros q Hq; cbn [doread].
  - case_decide as Hn; exists []; rewrite ?app_nil_r, mq_len by done; repeat (split; try done). lia.
  - case_decide as Hn; [exists []; rewrite app_nil_r, mq_len by done; by split_and! |]. rewrite <- mq_len in Hn by done.
    destruct i as [bs | | e].
    + case_decide as Hz.
      * exists [Bblocks bs]. assert (contents bs = []) as Hc.
        { apply length_zero_iff_nil. pose proof (len_contents bs Hi). lia. }
        cbn. rewrite Hc, !app_nil_r. split_and!; [done.. | lia | by left].
      * destruct (mq_add q bs Hq Hi) as [Hq' Hb']. specialize (IH _ Hq'). destruct (doread ins (qaddlist q bs) n) as [[r q'] rest].
        destruct IH as (used & -> & Hok & Hbytes & Hpre & Hr). exists (Bblocks bs :: used). split_and!; try done.
        -- by rewrite Hbytes, Hb', fmap_cons, <- app_assoc.
        -- etrans; [| exact Hpre]. cbn. by eexists.
        -- destruct r; [done | | | done]; (destruct Hr; split; [done | by right]).
    + exists [Bnil]. cbn. rewrite app_nil_r. split_and!; [done.. | lia | by left].
    + exists [Braise e]. cbn. rewrite app_nil_r. split_and!; [done.. | lia | by left].
Qed.

(** *** Headers *)

(** The size of a message is the number it begins with. *)
Lemma convM2S_size ap g n f :
  convM2S ap g = Ok (n, f) →
  GBIT32 ap = Ok n ∧ GBIT8 (dropZ BIT32SZ ap) = Ok (f_type f) ∧ 7 ≤ n ≤ len ap.
Proof.
  unfold convM2S. intros H. apply bind_Ok in H as (u & Hneed & H). apply need_inv in Hneed.
  apply bind_Ok in H as (size & Hs & H). case_decide; [done |]. apply bind_Ok in H as (type & Hty & H).
  apply bind_Ok in H as (tag & _ & H). apply bind_Ok in H as ([f' r] & Hd & H). case_decide as Hsz; [| done].
  injection H as <- <-. destruct (mtype_of type) as [t|] eqn:Ht; [| done].
  apply (dec_keeps t) in Hd as ([Hk _] & _). cbn in Hk. rewrite Hk. unfold BIT32SZ, BIT8SZ, BIT16SZ in *.
  split_and!; try done; lia.
Qed.

(** Of an Rread convM2S does not look at the data. *)
Lemma rread_data h d d' g n f :
  len h = BIT32SZ + BIT8SZ + BIT16SZ + BIT32SZ → GBIT8 (dropZ BIT32SZ h) = Ok (mtype_code Rread) → length d = length d' →
  convM2S (h ++ d) g = Ok (n, f) → f_data f = d ∧ convM2S (h ++ d') g = Ok (n, f <| f_data := d' |>).
Proof.
  intros Hh Hty Hd. unfold BIT32SZ, BIT8SZ, BIT16SZ in Hh.
  destruct h as [|x1 [|x2 [|x3 [|x4 [|x5 [|x6 [|x7 [|x8 [|x9 [|x10 [|x11 [|]]]]]]]]]]]]; try (cbn [length] in Hh; lia).
  change (Ok x5 = Ok 117) in Hty. injection Hty as ->.
  set (h := [x1; x2; x3; x4; 117; x6; x7; x8; x9; x10; x11]).
  assert (∃ size tag count, ∀ d, convM2S (h ++ d) g =
    if decide (size < BIT32SZ + BIT8SZ + BIT16SZ) then Err else
    _ ← need count d;
    if decide (size = 11 + len d - len (dropZ count d)) then
      Ok (size, g <| f_type := 117 |> <| f_tag := tag |> <| f_count := count |> <| f_data := d |>)
    else Err) as (size & tag & count & Hdec).
  { exists (Z.lor (Z.lor (Z.lor x1 (x2 ≪ 8)) (x3 ≪ 16)) (x4 ≪ 24)), (Z.lor x6 (x7 ≪ 8)),
      (Z.lor (Z.lor (Z.lor x8 (x9 ≪ 8)) (x10 ≪ 16)) (x11 ≪ 24)). intros k. unfold convM2S.
    rewrite need_ok by (unfold h, BIT32SZ, BIT8SZ, BIT16SZ; cbn [length app]; lia).
    change (GBIT32 (h ++ k)) with (GBIT32 h). cbn [h mbind res_bind GBIT32 peek lookup list_lookup res_of_option].
    case_decide; [done |]. change (GBIT8 (dropZ BIT32SZ (h ++ k))) with (Ok 117).
    change (GBIT16 (dropZ BIT8SZ (dropZ BIT32SZ (h ++ k)))) with (Ok (Z.lor x6 (x7 ≪ 8))).
    change (dropZ BIT16SZ (dropZ BIT8SZ (dropZ BIT32SZ (h ++ k)))) with ([x8; x9; x10; x11] ++ k).
    cbn [mbind res_bind]. change (mtype_of 117) with (Some Rread). change (is_T Rread) with false. cbn [convM2S_R].
    rewrite (need_ok BIT32SZ) by (unfold BIT32SZ; cbn [length app]; lia).
    change (GBIT32 ([x8; x9; x10; x11] ++ k)) with (GBIT32 [x8; x9; x10; x11]).
    change (dropZ BIT32SZ ([x8; x9; x10; x11] ++ k)) with k. cbn [mbind res_bind GBIT32 peek lookup list_lookup res_of_option].
    destruct (need _ k); cbn [mbind res_bind]; [| done..].
    by replace (len (h ++ k)) with (11 + len k) by (cbn [length app h]; lia). }
  rewrite !Hdec. unfold need, dropZ. rewrite !length_drop, <- Hd. repeat case_decide; cbn [mbind res_bind]; try done. by intros [= <- <-].
Qed.

Lemma rread_short ap g n f : convM2S ap g = Ok (n, f) → f_type f = mtype_code Rread → 11 ≤ len ap.
Proof.
  unfold convM2S. intros H Hf. apply bind_Ok in H as (u & Hneed & H). apply need_inv in Hneed.
  apply bind_Ok in H as (size & _ & H). case_decide; [done |]. apply bind_Ok in H as (type & _ & H).
  apply bind_Ok in H as (tag & _ & H). apply bind_Ok in H as ([f' r] & Hd & H). case_decide; [| done].
  injection H as _ <-. destruct (mtype_of type) as [t|] eqn:Ht; [| done].
  pose proof (dec_keeps t _ _ _ _ Hd) as ([Hk _] & _). rewrite Hk in Hf. cbn in Hf. subst type.
  change (Some Rread = Some t) in Ht. injection Ht as <-. cbn [is_T mtype_code Z.even convM2S_R] in Hd.
  apply bind_Ok in Hd as (? & Hn & _). apply need_inv in Hn. unfold BIT32SZ, BIT8SZ, BIT16SZ in *.
  rewrite !len_dropZ in Hn by lia. lia.
Qed.

Lemma peek_ok p i : (i < length p)%nat → ∃ v, peek p i = Ok v.
Proof. intros Hi. unfold peek. apply lookup_lt_is_Some in Hi as [v ->]. by exists v. Qed.

(** The header is in the first seven bytes. *)
Lemma header_ok p : 7 ≤ len p → ∃ v t, GBIT32 p = Ok v ∧ GBIT8 (dropZ BIT32SZ p) = Ok t.
Proof.
  intros Hp. unfold GBIT32, GBIT8.
  destruct (peek_ok p 0) as [v0 ->]; [lia |]. destruct (peek_ok p 1) as [v1 ->]; [lia |].
  destruct (peek_ok p 2) as [v2 ->]; [lia |]. destruct (peek_ok p 3) as [v3 ->]; [lia |].
  destruct (peek_ok (dropZ BIT32SZ p) 0) as [t ->]; [| by eexists _, _].
  pose proof (len_dropZ BIT32SZ p). unfold BIT32SZ in *. lia.
Qed.

Lemma header_take n p :
  7 ≤ n → GBIT32 (takeZ n p) = GBIT32 p ∧ GBIT8 (dropZ BIT32SZ (takeZ n p)) = GBIT8 (dropZ BIT32SZ p).
Proof.
  intros Hn. unfold GBIT32, GBIT8, peek, takeZ, dropZ. rewrite !lookup_drop, !lookup_take_lt by (unfold BIT32SZ; lia). done.
Qed.

Lemma header_eq n p p' : 7 ≤ n → takeZ n p = takeZ n p' → GBIT32 p = GBIT32 p' ∧ GBIT8 (dropZ BIT32SZ p) = GBIT8 (dropZ BIT32SZ p').
Proof. intros Hn He. destruct (header_take n p Hn) as [<- <-], (header_take n p' Hn) as [<- <-]. by rewrite He. Qed.

Lemma takeZ_prefix n (l k : list Z) : n ≤ len l → takeZ n (l ++ k) = takeZ n l.
Proof. intros. unfold takeZ. apply take_app_le. lia. Qed.

Lemma dropZ_prefix n (l k : list Z) : 0 ≤ n ≤ len l → dropZ n (l ++ k) = dropZ n l ++ k.
Proof. intros. unfold dropZ. apply drop_app_le. lia. Qed.

Section Read.
Variables (headroom : Z → Z) (blockalign : Z).
Hypothesis Hhead : ∀ n, 0 ≤ headroom n.
Hypothesis Halign : 0 < blockalign.

Lemma pullup_ok q n :
  mq_ok q → 0 < n ≤ len (bytes q) →
  ∃ q' b bs, pullupqueue headroom blockalign q n = Ok q' ∧ mq_ok q' ∧ bytes q' = bytes q ∧
    q_blocks q' = b :: bs ∧ n ≤ BLEN b ∧ firstblock q' = Ok (data b) ∧ takeZ n (data b) = takeZ n (bytes q).
Proof.
  intros [Hc Hd] Hn. unfold pullupqueue. destruct (q_blocks q) as [|b bs] eqn:Hq; [cbn in Hn; lia |].
  pose proof Hc as [Hb _]%Forall_cons_iff.
  assert (∀ q' b bs, block_ok b → q_blocks q' = b :: bs → n ≤ BLEN b → bytes q' = contents (b :: bs) →
    firstblock q' = Ok (data b) ∧ takeZ n (data b) = takeZ n (bytes q')) as Hfirst.
  { intros q' b' bs' Hb' Hq' Hn' ->. unfold firstblock. rewrite Hq'. split; [by apply bget_all |].
    rewrite contents_cons, takeZ_prefix; [done | by rewrite len_data]. }
  case_decide as Hle.
  - exists q, b, bs. destruct (Hfirst q b bs Hb Hq Hle) as [? ?]; [by rewrite Hq |].
    rewrite Hq in *. split_and!; try done. split; by rewrite Hq.
  - pose proof (pullupblock_ok headroom blockalign Hhead Halign (b :: bs) n Hc) as Hp.
    rewrite decide_False in Hp by (rewrite <- len_contents by done; lia).
    destruct Hp as (b' & bs' & -> & Hc' & Hcont & Hn'); [done |]. cbn [mbind res_bind].
    set (q' := q <| q_blocks := b' :: bs' |>). pose proof Hc' as [Hb' _]%Forall_cons_iff.
    destruct (Hfirst q' b' bs' Hb' eq_refl Hn' eq_refl) as [? Ht].
    exists q', b', bs'. split_and!; try done; [split; [done |] | by rewrite Ht; cbn -[contents]; rewrite Hcont].
    change (q_dlen q = blocklen (b' :: bs')). by rewrite Hd, <- !len_contents, Hcont by done.
Qed.

(** The data after the header, in the blocks of the reply. *)
Lemma take_blocks_ok fuel q hlen n :
  mq_ok q → 0 ≤ hlen → q_blocks q ≠ [] → (∀ b bs, q_blocks q = b :: bs → hlen ≤ BLEN b) → hlen ≤ n ≤ len (bytes q) →
  (length (q_blocks q) < fuel)%nat →
  ∃ bs q', take_blocks headroom blockalign fuel q hlen n = Ok (bs, q') ∧ chain_ok bs ∧ mq_ok q' ∧
    contents bs = takeZ (n - hlen) (dropZ hlen (bytes q)) ∧ bytes q' = dropZ n (bytes q).
Proof.
  revert q hlen n. induction fuel as [|fuel IH]; intros q hlen n Hq Hh Hne Hfirst Hn Hf; [lia |]. cbn [take_blocks].
  destruct (q_blocks q) as [|b bs] eqn:Hbs; [done |]. specialize (Hfirst b bs eq_refl).
  destruct (mq_remove q b bs Hq Hbs) as (q1 & -> & Hb & Hq1 & Hb1 & Hcont).
  assert (∃ b1, skipheader b hlen n = (b1, n - hlen) ∧ block_ok b1 ∧ data b1 = dropZ hlen (data b) ∧ BLEN b1 = BLEN b - hlen)
    as (b1 & -> & Hok1 & Hd1 & Hl1).
  { unfold skipheader. case_decide as Hz.
    - destruct (skip_ok b hlen Hb) as (? & ? & ? & _); [lia |]. by eexists.
    - assert (hlen = 0) as -> by lia. exists b. by rewrite !Z.sub_0_r. }
  pose proof (len_data b Hb) as Hld. pose proof (len_data b1 Hok1) as Hld1. rewrite Hbs in Hcont.
  assert (len (contents (b :: bs)) = BLEN b + len (bytes q1)) as Hlen by (rewrite Hcont, length_app, Nat2Z.inj_add, Hld; lia).
  assert (dropZ hlen (contents (b :: bs)) = data b1 ++ bytes q1) as Hdrop by (rewrite Hcont, dropZ_prefix by lia; by rewrite Hd1).
  assert (dropZ n (contents (b :: bs)) = dropZ (n - hlen) (data b1 ++ bytes q1)) as Hdn
    by (rewrite <- Hdrop, dropZ_dropZ by lia; f_equal; lia).
  rewrite Hdrop, Hdn. case_decide as Hi.
  - rewrite takeZ_app_cons by lia. unfold dropZ at 1. rewrite drop_app_ge by lia.
    change (drop _ (bytes q1)) with (drop (Z.to_nat (n - hlen) - length (data b1)) (bytes q1)).
    replace (Z.to_nat (n - hlen) - length (data b1))%nat with (Z.to_nat (n - hlen - BLEN b1)) by lia.
    change (drop (Z.to_nat (n - hlen - BLEN b1)) (bytes q1)) with (dropZ (n - hlen - BLEN b1) (bytes q1)). rewrite Hld1.
    case_decide as Hmore.
    + destruct (IH q1 0 (n - hlen - BLEN b1)) as (bs' & q' & -> & Hc' & Hq' & Hcs & Hbq); try done.
      * rewrite Hb1. destruct bs; [|done]. rewrite Hb1 in Hlen. change (len (contents [])) with 0 in Hlen. lia.
      * intros b' bs' Heq. rewrite Heq in Hb1. subst bs. destruct Hq1 as [Hcc _]. rewrite Heq in Hcc.
        apply Forall_cons_iff in Hcc as [Hb' _]. by apply blen_nonneg.
      * lia.
      * rewrite Hb1. cbn in Hf. lia.
      * cbn [mbind res_bind]. exists (b1 :: bs'), q'. split_and!; try done; [by_chain |].
        rewrite contents_cons, Hcs, Z.sub_0_r. done.
    + assert (n - hlen - BLEN b1 = 0) as -> by lia. exists [b1], q1. split_and!; try done. by_chain.
  - destruct (allocb_ok headroom blockalign Hhead Halign (BLEN b1 - (n - hlen))) as (nb & -> & Hnb & Hdnb & _ & Hroom); [lia |].
    cbn [mbind res_bind]. destruct (skip_ok b1 (n - hlen) Hok1) as (Hsk & Hskd & Hskl & _); [lia |].
    rewrite bget_ok by (done || lia). cbn [mbind res_bind]. rewrite takeZ_all by (rewrite len_data by done; lia).
    destruct (bput_ok nb (data (b1 <| b_rp := b_rp b1 + (n - hlen) |>))) as (nb' & -> & [Hput Hputd _ _ _]);
      [done | rewrite len_data by done; lia |]. cbn [mbind res_bind].
    destruct (cut_ok b1 (n - hlen) Hok1) as (Hcut & Hcutd & _ & _); [lia |].
    destruct (mq_putback q1 nb' Hq1 Hput) as [Hqp Hqb].
    eexists _, _. split_and!; [done | by_chain | done | |].
    + cbn. rewrite Hcutd, takeZ_prefix by lia. by rewrite app_nil_r.
    + rewrite Hqb, Hputd, Hdnb, Hskd, dropZ_prefix by lia. done.
Qed.

(** *** mntrpcread *)

(** How the fields [reply] and [b] of a request hold a message that was read. *)
Definition hung (f reply : Fcall) (rb : list Block) : Prop :=
  chain_ok rb ∧ if decide (f_type f = mtype_code Rread) then
                  reply = f <| f_data := replicate (length (f_data f)) 0 |> ∧ contents rb = f_data f
                else reply = f ∧ contents rb = [].

Definition cleared (reply : Fcall) : Fcall := reply <| f_type := 0 |> <| f_tag := 0 |>.

(** The bytes begin with a whole message that the connection may carry. *)
Definition begins (msize : Z) (reply : Fcall) (all : list Z) (n : Z) (f : Fcall) : Prop :=
  n ≤ Z.min msize (len all) ∧ convM2S (takeZ n all) (cleared reply) = Ok (n, f).

(** A message is read when one is there; otherwise the bytes are kept, unless no bytes that
    may follow can make a message of them. *)
Definition read_spec (msize : Z) (reply : Fcall) (o : reading) (all : list Z) (reply' : Fcall) (rb' : list Block) (q' : Queue)
    (used rest : list bread) : Prop :=
  let waits := bytes q' = all ∧ ∀ n f, ¬ begins msize reply all n f in
  match o with
  | Rdone => ∃ n f, begins msize reply all n f ∧ bytes q' = dropZ n all ∧ hung f reply' rb'
  | Rfail => waits ∧ Exists disturbing used ∨ ∀ more n f, ¬ begins msize reply (all ++ more) n f
  | Rraise _ => waits ∧ Exists disturbing used
  | Rsleep => waits ∧ rest = []
  end.

Lemma begins_size msize reply all n f v :
  begins msize reply all n f → msize < 2 ^ 31 → GBIT32 all = Ok v → 7 ≤ n ∧ s32 v = n ∧ GBIT8 (dropZ BIT32SZ all) = Ok (f_type f).
Proof.
  intros [Hn Hc] Hms Hv. destruct (convM2S_size _ _ _ _ Hc) as (Hs & Ht & Hr).
  destruct (header_take n all) as [He8 He32]; [lia |]. rewrite He8, Hv in Hs. injection Hs as ->. rewrite He32 in Ht.
  split_and!; [lia | | done]. unfold s32, signed. ranges. rewrite Z.mod_small by lia. by rewrite decide_True by lia.
Qed.

Lemma split_at m n (l : list Z) : 0 ≤ m ≤ n → takeZ n l = takeZ m l ++ takeZ (n - m) (dropZ m l).
Proof. intros H. rewrite <- (takeZ_dropZ m (takeZ n l)) at 1. by rewrite takeZ_takeZ, Z.min_l, dropZ_takeZ by lia. Qed.

(** convM2S on the header does what it does on the message. *)
Lemma hang n all v t reply :
  7 ≤ n ≤ len all → n < 2 ^ 31 → GBIT32 all = Ok v → s32 v = n → GBIT8 (dropZ BIT32SZ all) = Ok t →
  let hlen := if decide (t = mtype_code Rread) then BIT32SZ + BIT8SZ + BIT16SZ + BIT32SZ else n in
  hlen ≤ n →
  match convM2S (takeZ hlen all ++ replicate (Z.to_nat (n - hlen)) 0) (cleared reply) with
  | Ok (_, r) =>
      ∃ f, convM2S (takeZ n all) (cleared reply) = Ok (n, f) ∧
        if decide (f_type f = mtype_code Rread) then
          r = f <| f_data := replicate (length (f_data f)) 0 |> ∧ takeZ (n - hlen) (dropZ hlen all) = f_data f
        else r = f ∧ takeZ (n - hlen) (dropZ hlen all) = []
  | Err => ∀ k f, convM2S (takeZ n all) (cleared reply) ≠ Ok (k, f)
  | Ub => False
  end.
Proof.
  intros Hn Hmax Hv Hs Ht hlen Hh. pose proof (decode_safe (takeZ hlen all ++ replicate (Z.to_nat (n - hlen)) 0) (cleared reply)) as Hsafe.
  assert (∀ k f, convM2S (takeZ n all) (cleared reply) = Ok (k, f) → k = n ∧ f_type f = t) as Hkey.
  { intros k f Hc. pose proof (convM2S_size _ _ _ _ Hc) as (Hk & Hty & _).
    destruct (header_take n all) as [H8 H32]; [lia |]. rewrite H8, Hv in Hk. rewrite H32, Ht in Hty. injection Hk as <-. injection Hty as <-.
    split; [| done]. destruct (convM2S_size _ _ _ _ Hc) as (_ & _ & Hr). rewrite len_takeZ in Hr by lia.
    rewrite <- Hs. unfold s32, signed. ranges. rewrite Z.mod_small by lia. by rewrite decide_True by lia. }
  unfold hlen in *. clear hlen. case_decide as Hty.
  - change (BIT32SZ + BIT8SZ + BIT16SZ + BIT32SZ) with 11 in *.
    rewrite (split_at 11 n all) in * by lia. set (h := takeZ 11 all) in *. set (d := takeZ (n - 11) (dropZ 11 all)) in *.
    set (z := replicate _ _) in *.
    assert (length z = length d) as Hzd.
    { unfold z, d, takeZ. rewrite length_replicate, length_take. pose proof (len_dropZ 11 all). lia. }
    assert (GBIT8 (dropZ BIT32SZ h) = Ok (mtype_code Rread)) as Hh8 by (unfold h; destruct (header_take 11 all) as [_ ->]; [lia | by rewrite Ht, Hty]).
    assert (len h = BIT32SZ + BIT8SZ + BIT16SZ + BIT32SZ) as Hlh by (unfold h; rewrite len_takeZ by lia; done).
    destruct (convM2S (h ++ z) (cleared reply)) as [[k r] | |] eqn:Hc; [| | done].
    + destruct (rread_data h z d _ k r Hlh Hh8 Hzd Hc) as [Hz Hf]. destruct (Hkey _ _ Hf) as [-> Hrt].
      eexists; split; [exact Hf |]. rewrite Hrt, decide_True by done. split; [| done].
      cbn [f_data update]. unfold z in Hz. rewrite <- Hzd. unfold z. rewrite length_replicate. destruct r. cbn in Hz. by rewrite Hz.
    + intros k f Hf. destruct (rread_data h d z _ k f Hlh Hh8 (eq_sym Hzd) Hf) as [_ Hf']. congruence.
  - rewrite Z.sub_diag in *. rewrite app_nil_r in *.
    destruct (convM2S (takeZ n all) (cleared reply)) as [[k r] | |] eqn:Hc; [| done | done].
    destruct (Hkey _ _ eq_refl) as [-> Hrt]. exists r. split; [done |]. by rewrite Hrt, decide_False by done.
Qed.

Lemma begins_app msize reply all more n f : begins msize reply (all ++ more) n f → n ≤ len all → begins msize reply all n f.
Proof. intros [Hn Hc] Hle. rewrite takeZ_prefix in Hc by done. split; [lia | done]. Qed.

Lemma GBIT32_app l k v : GBIT32 l = Ok v → GBIT32 (l ++ k) = Ok v.
Proof.
  assert (∀ i v, peek l i = Ok v → peek (l ++ k) i = Ok v) as Hp.
  { intros i x. unfold peek. intros H. destruct (l !! i) as [y|] eqn:Hi; [| done]. by rewrite (lookup_app_l_Some _ _ _ _ Hi). }
  unfold GBIT32. intros H. do 4 (let Hx := fresh in apply bind_Ok in H as (? & Hx & H); rewrite (Hp _ _ Hx); cbn [mbind res_bind]).
  done.
Qed.

Lemma dropped msize reply q all rb n used rest :
  mq_ok q → chain_ok rb → (∀ more k f, ¬ begins msize reply (all ++ more) k f) →
  let q' := (qdiscard q n).1.2 in mq_ok q' ∧ chain_ok rb ∧ read_spec msize reply Rfail all (cleared reply) rb q' used rest.
Proof. intros Hq Hrb Hno. split_and!; [by apply mq_qdiscard | done | by right]. Qed.

Lemma too_few msize reply all n v k f :
  msize < 2 ^ 31 → GBIT32 all = Ok v → s32 v = n → len all < n → ¬ begins msize reply all k f.
Proof. intros Hms Hv Hs Hn Hb. destruct (begins_size _ _ _ _ _ _ Hb Hms Hv) as (_ & Hk & _). destruct Hb as [Hb _]. lia. Qed.

(** The second half, when the whole message is in the queue. *)
Lemma message_ok msize reply rb q n v t used ins :
  mq_ok q → chain_ok rb → msize < 2 ^ 31 → 7 ≤ n ≤ msize → n ≤ len (bytes q) →
  GBIT32 (bytes q) = Ok v → s32 v = n → GBIT8 (dropZ BIT32SZ (bytes q)) = Ok t →
  let hlen := if decide (t = mtype_code Rread) then BIT32SZ + BIT8SZ + BIT16SZ + BIT32SZ else n in
  ∃ o reply' rb' q',
    (if decide (n < hlen) then
       let '(_, q, _) := qdiscard q (qlen q) in Ok (Rfail, cleared reply, rb, q, ins)
     else
       q ← pullupqueue headroom blockalign q hlen;
       d ← firstblock q;
       match convM2S (takeZ hlen d ++ replicate (Z.to_nat (n - hlen)) 0) (cleared reply) with
       | Ok (_, reply) =>
           '(bs, q) ← take_blocks headroom blockalign (S (length (q_blocks q))) q hlen n;
           Ok (Rdone, reply, bs, q, ins)
       | Err => let '(_, q, _) := qdiscard q n in Ok (Rfail, cleared reply, rb, q, ins)
       | Ub => Ub
       end) = Ok (o, reply', rb', q', ins) ∧ mq_ok q' ∧ chain_ok rb' ∧ read_spec msize reply o (bytes q) reply' rb' q' used ins.
Proof.
  intros Hq Hrb Hms Hn Hlen Hv Hs Ht hlen.
  assert (∀ more k f, begins msize reply (bytes q ++ more) k f → k = n ∧ convM2S (takeZ n (bytes q)) (cleared reply) = Ok (n, f) ∧ f_type f = t) as Huniq.
  { intros more k f Hb. destruct (begins_size _ _ _ _ _ _ Hb Hms (GBIT32_app _ _ _ Hv)) as (_ & Hk & _). rewrite Hs in Hk. subst k.
    apply begins_app in Hb; [| done]. destruct (begins_size _ _ _ _ _ _ Hb Hms Hv) as (_ & _ & Hty). destruct Hb. split_and!; congruence. }
  destruct (decide (n < hlen)) as [Hlt | Hge].
  - pose proof (dropped msize reply q (bytes q) rb (qlen q) used ins Hq Hrb) as Hdrop.
    destruct (qdiscard q (qlen q)) as [[? q'] ?]. eexists _, _, _, _. split; [done |]. apply Hdrop.
    intros more k f Hb. destruct (Huniq _ _ _ Hb) as (-> & Hc & Hft).
    unfold hlen in Hlt. case_decide; [| lia]. pose proof (rread_short _ _ _ _ Hc) as Hshort. rewrite len_takeZ in Hshort by lia.
    unfold BIT32SZ, BIT8SZ, BIT16SZ in Hlt. lia || (rewrite Hft in Hshort; specialize (Hshort ltac:(done)); lia).
  - assert (0 < hlen) as Hpos by (unfold hlen; case_decide; [done | lia]).
    destruct (pullup_ok q hlen Hq) as (q4 & b & bs & -> & Hq4 & Hb4 & Hbk4 & Hl4 & Hf4 & Ht4); [lia |].
    cbn [mbind res_bind]. rewrite Hf4. cbn [mbind res_bind]. rewrite Ht4.
    pose proof (hang n (bytes q) v t reply ltac:(lia) ltac:(lia) Hv Hs Ht ltac:(unfold hlen in Hge; lia)) as Hhang. fold hlen in Hhang.
    destruct (convM2S (takeZ hlen (bytes q) ++ _) (cleared reply)) as [[k r] | |]; [| | done].
    + destruct Hhang as (f & Hf & Hr).
      destruct (take_blocks_ok (S (length (q_blocks q4))) q4 hlen n Hq4) as (bs' & q' & -> & Hc' & Hq' & Hcs & Hbq);
        [lia | by rewrite Hbk4 | by intros ??; rewrite Hbk4; intros [= <- <-] | rewrite Hb4; lia | lia |].
      cbn [mbind res_bind]. eexists _, _, _, _. split; [done |]. split_and!; [done | done |].
      exists n, f. split; [split; [lia | done] |]. rewrite Hbq, Hb4. split; [done |]. split; [done |].
      rewrite Hcs, Hb4. case_decide; naive_solver.
    + pose proof (dropped msize reply q4 (bytes q) rb n used ins Hq4 Hrb) as Hdrop.
      destruct (qdiscard q4 n) as [[? q'] ?]. eexists _, _, _, _. split; [done |]. apply Hdrop.
      intros more k f Hb. destruct (Huniq _ _ _ Hb) as (_ & Hc & _). by apply Hhang in Hc.
Qed.

Lemma mntrpcread_ok msize ins reply rb q :
  mq_ok q → chain_ok rb → Forall bread_ok ins → msize < 2 ^ 31 →
  ∃ o reply' rb' q' used rest,
    mntrpcread headroom blockalign msize ins reply rb q = Ok (o, reply', rb', q', rest) ∧ ins = used ++ rest ∧
    mq_ok q' ∧ chain_ok rb' ∧ read_spec msize reply o (bytes q ++ mjoin (bread_bytes <$> used)) reply' rb' q' used rest.
Proof.
  intros Hq Hrb Hins Hms. unfold mntrpcread. fold (cleared reply).
  pose proof (doread_ok ins q (BIT32SZ + BIT8SZ + BIT16SZ) Hq Hins) as H1.
  destruct (doread ins q (BIT32SZ + BIT8SZ + BIT16SZ)) as [[o1 q1] ins1].
  destruct H1 as (used1 & -> & Hq1 & Hb1 & _ & Hr1). apply Forall_app in Hins as [_ Hins1].
  change (BIT32SZ + BIT8SZ + BIT16SZ) with 7 in *.
  assert (len (bytes q1) < 7 → ∀ n f, ¬ begins msize reply (bytes q1) n f) as Hshort.
  { intros Hl n f [Hn Hc]. destruct (convM2S_size _ _ _ _ Hc) as (_ & _ & ?). lia. }
  destruct o1.
  2-4: destruct Hr1; eexists _, _, _, _, used1, _; rewrite <- Hb1; split_and!; [done | done | done | done | cbn; eauto 10].
  destruct (pullup_ok q1 7) as (q2 & b & bs & -> & Hq2 & Hb2 & Hbk2 & Hl2 & Hf2 & Ht2); [done | lia |].
  cbn [mbind res_bind]. rewrite Hf2. cbn [mbind res_bind].
  destruct (header_ok (bytes q1) Hr1) as (v & t & Hv & Ht).
  destruct (header_eq 7 (data b) (bytes q1) ltac:(done) Ht2) as [Hh32 Hh8]. rewrite Hh32, Hv. cbn [mbind res_bind].
  destruct (decide (s32 v < 7 ∨ s32 v > msize)) as [Hbad | Hgood].
  { pose proof (dropped msize reply q2 (bytes q1) rb (qlen q2) used1 ins1 Hq2 Hrb) as Hdrop.
    destruct (qdiscard q2 (qlen q2)) as [[? q'] ?]. eexists _, _, _, _, used1, _. split; [done |]. rewrite <- Hb1. split; [done |].
    apply Hdrop. intros more n f Hb. destruct (begins_size _ _ _ _ _ _ Hb Hms (GBIT32_app _ _ _ Hv)) as (Hn & Hs & _).
    destruct Hb as [Hb _]. lia. }
  pose proof (doread_ok ins1 q2 (s32 v) Hq2 Hins1) as H2.
  destruct (doread ins1 q2 (s32 v)) as [[o2 q3] ins2].
  destruct H2 as (used2 & -> & Hq3 & Hb3 & Hpre & Hr3).
  assert (bytes q ++ mjoin (bread_bytes <$> used1 ++ used2) = bytes q3) as Hall
    by (rewrite fmap_app, join_app, app_assoc, <- Hb1, <- Hb2; done).
  assert (GBIT32 (bytes q3) = Ok v) as Hv3 by (rewrite Hb3, Hb2; by apply GBIT32_app).
  destruct o2.
  2-4: destruct Hr3 as [Hfew Hr3]; pose proof (λ k f, too_few msize reply _ _ _ k f Hms Hv3 eq_refl Hfew) as Hno;
       eexists _, _, _, _, (used1 ++ used2), _; rewrite Hall, <- app_assoc; split_and!; [done | done | done | done |];
       cbn; rewrite ?Exists_app; eauto 10.
  destruct Hpre as [bs3 Hbk3]. rewrite Hbk2 in Hbk3.
  assert (block_ok b) as Hblk.
  { destruct Hq2 as [Hc _]. rewrite Hbk2 in Hc. by apply Forall_cons_iff in Hc as [? _]. }
  assert (firstblock q3 = Ok (data b)) as -> by (unfold firstblock; rewrite Hbk3; by apply bget_all).
  cbn [mbind res_bind]. rewrite Hh8, Ht. cbn [mbind res_bind].
  assert (takeZ 7 (bytes q3) = takeZ 7 (bytes q1)) as Ht3 by (rewrite Hb3, Hb2, takeZ_prefix; [done | lia]).
  destruct (header_eq 7 (bytes q3) (bytes q1) ltac:(done) Ht3) as [_ Ht3'].
  destruct (message_ok msize reply rb q3 (s32 v) v t (used1 ++ used2) ins2) as (o & reply' & rb' & q' & Heq & Hq' & Hrb' & Hspec);
    [done | done | done | lia | lia | congruence | done | congruence |].
  exists o, reply', rb', q', (used1 ++ used2), ins2. rewrite Hall, <- app_assoc. split; [exact Heq | by split_and!].
Qed.

Lemma begins_self msize reply m more f :
  convM2S m (cleared reply) = Ok (len m, f) → len m ≤ msize → begins msize reply (m ++ more) (len m) f.
Proof. intros Hc Hm. split; [rewrite length_app; lia |]. by rewrite takeZ_app. Qed.

(** mntrpcread takes the next message off a stream, whatever blocks its bytes come in.  When the
    connection gives out in the middle, or the process is interrupted, what has come of
    the message is left in the queue for the next reader. *)
Theorem mntrpcread_next msize ins reply rb q m more f :
  mq_ok q → chain_ok rb → Forall bread_ok ins → msize < 2 ^ 31 →
  convM2S m (cleared reply) = Ok (len m, f) → len m ≤ msize → bytes q ++ mjoin (bread_bytes <$> ins) = m ++ more →
  ∃ o reply' rb' q' used rest,
    mntrpcread headroom blockalign msize ins reply rb q = Ok (o, reply', rb', q', rest) ∧ ins = used ++ rest ∧ mq_ok q' ∧ chain_ok rb' ∧
    match o with
    | Rdone => bytes q' ++ mjoin (bread_bytes <$> rest) = more ∧ hung f reply' rb'
    | Rsleep => False
    | _ => bytes q' ++ mjoin (bread_bytes <$> rest) = m ++ more ∧ Exists disturbing used
    end.
Proof.
  intros Hq Hrb Hins Hms Hm Hlm Hall.
  destruct (mntrpcread_ok msize ins reply rb q Hq Hrb Hins Hms) as (o & reply' & rb' & q' & used & rest & Heq & -> & Hq' & Hrb' & Hspec).
  exists o, reply', rb', q', used, rest. split_and!; try done. rewrite fmap_app, join_app, app_assoc in Hall.
  set (all := bytes q ++ mjoin (bread_bytes <$> used)) in *. pose proof (begins_self msize reply m more f Hm Hlm) as Hb.
  rewrite <- Hall in Hb.
  destruct o; cbn in Hspec.
  - destruct Hspec as (n & g & Hg & Hbq & Hh). assert (begins msize reply (all ++ mjoin (bread_bytes <$> rest)) n g) as Hg'.
    { destruct Hg as [Hn Hc]. split; [rewrite length_app; lia | by rewrite takeZ_prefix by lia]. }
    destruct Hb as [Hn1 Hc1], Hg' as [Hn2 Hc2]. destruct (convM2S_size _ _ _ _ Hc1) as (Hs1 & _ & H1), (convM2S_size _ _ _ _ Hc2) as (Hs2 & _ & H2).
    destruct (header_take (len m) (all ++ mjoin (bread_bytes <$> rest))) as [Hh1 _]; [lia |].
    destruct (header_take n (all ++ mjoin (bread_bytes <$> rest))) as [Hh2 _]; [lia |].
    assert (n = len m) as -> by congruence. assert (g = f) as -> by congruence. split; [| done].
    destruct Hg as [Hn _]. assert (dropZ (len m) (m ++ more) = more) as <- by by apply dropZ_app.
    rewrite Hbq, <- Hall, dropZ_prefix; [done | lia].
  - destruct Hspec as [[[-> _] Hd] | Hno]; [by split | by destruct (Hno _ _ _ Hb)].
  - destruct Hspec as [[-> _] Hd]. by split.
  - destruct Hspec as [[_ Hno] ->]. cbn in Hb. rewrite app_nil_r in Hb. by destruct (Hno _ _ Hb).
Qed.
End Read.
