(* ===== verification/MntInv.v ===== *)
(** * MntInv: what holds of the mount driver in every state

    Tags, the owners of the requests, the queue of those that are not answered, and the
    processes asleep; and how the routines of {!Mnt} under a lock keep it. *)

From S2P Require Import Prelude Bytes Fcall FcallProps Qio QioProps Srv Mnt MntRead.

(** ** Tags *)

Definition tagbit (mask : list Z) (t : Z) : bool := Z.testbit (mask !!! Z.to_nat (t ≫ TAGSHIFT)) (Z.land t TAGMASK).

Lemma tag_parts t : 0 ≤ t → t ≫ TAGSHIFT = t `div` 32 ∧ Z.land t TAGMASK = t `mod` 32.
Proof. intros Ht. split; [by apply Z.shiftr_div_pow2 | by apply (Z.land_ones t 5)]. Qed.

Lemma clear_bit_ok n v j :
  match clear_bit n v j with
  | Some k => j ≤ k < j + Z.of_nat n ∧ Z.testbit v k = false ∧ ∀ i, j ≤ i < k → Z.testbit v i = true
  | None => ∀ i, j ≤ i < j + Z.of_nat n → Z.testbit v i = true
  end.
Proof.
  revert j. induction n as [|n IH]; intros j; cbn [clear_bit]; [lia |]. destruct (Z.testbit v j) eqn:Hv; [| split_and!; [lia | lia | done | lia]].
  specialize (IH (j + 1)). destruct (clear_bit n v (j + 1)) as [k|].
  - destruct IH as (? & ? & Hi). split_and!; [lia | lia | done |]. intros i ?. destruct (decide (i = j)) as [-> |]; [done | apply Hi; lia].
  - intros i ?. destruct (decide (i = j)) as [-> |]; [done | apply IH; lia].
Qed.

(** alloctag takes the least tag that is free. *)
Lemma alloctag_loop_ok i mask :
  0 ≤ i →
  match alloctag_loop i mask with
  | Ok (t, mask') =>
      ∃ k v j, mask !! k = Some v ∧ 0 ≤ j < 32 ∧ t = 32 * (i + Z.of_nat k) + j ∧ Z.testbit v j = false ∧
        mask' = <[k := Z.setbit v j]> mask ∧ (∀ j', 0 ≤ j' < j → Z.testbit v j' = true) ∧
        ∀ k' v' j', (k' < k)%nat → mask !! k' = Some v' → 0 ≤ j' < 32 → Z.testbit v' j' = true
  | Err => ∀ k v j, mask !! k = Some v → 0 ≤ j < 32 → Z.testbit v j = true
  | Ub => False
  end.
Proof.
  revert i. induction mask as [|v mask IH]; intros i Hi; cbn [alloctag_loop]; [done |].
  pose proof (clear_bit_ok 32 v 0) as Hc. destruct (clear_bit 32 v 0) as [j|].
  - destruct Hc as (Hj & Hv & Hl). exists 0%nat, v, j. split_and!; try lia; try done.
    rewrite Z.shiftl_mul_pow2 by done. change (2 ^ TAGSHIFT) with 32. lia.
  - specialize (IH (i + 1) ltac:(lia)). destruct (alloctag_loop (i + 1) mask) as [[t mask'] | |]; cbn [mbind res_bind]; [| | done].
    + destruct IH as (k & v' & j & Hk & Hj & -> & Hv' & -> & Hless & Hprev). exists (S k), v', j.
      split_and!; try done; try lia. intros [|k'] v'' j' Hlt; cbn; [intros [= <-] ?; apply Hc; lia | apply Hprev; lia].
    + intros [|k] v' j; cbn; [intros [= <-] ?; apply Hc; lia | apply IH].
Qed.

Record tagmask_ok (mask : list Z) : Prop := { tm_len : len mask = NMASK; tm_words : Forall (Z.le 0) mask }.

Lemma mask_word mask k v : tagmask_ok mask → mask !! k = Some v → ∀ j, 0 ≤ j < 32 → tagbit mask (32 * Z.of_nat k + j) = Z.testbit v j.
Proof.
  intros [Hl _] Hk j Hj. unfold tagbit. destruct (tag_parts (32 * Z.of_nat k + j)) as [-> ->]; [lia |].
  replace ((32 * Z.of_nat k + j) `div` 32) with (Z.of_nat k) by divlia. replace ((32 * Z.of_nat k + j) `mod` 32) with j by divlia.
  rewrite Nat2Z.id. by rewrite (list_lookup_total_correct _ _ _ Hk).
Qed.

Lemma tag_split t : 0 ≤ t < 65536 → ∃ k j, t = 32 * Z.of_nat k + j ∧ 0 ≤ j < 32 ∧ (Z.of_nat k < NMASK).
Proof. intros Ht. exists (Z.to_nat (t `div` 32)), (t `mod` 32). change NMASK with 2048. split_and!; divlia. Qed.

Lemma mask_at mask t : tagmask_ok mask → 0 ≤ t < 65536 → ∃ k v j, mask !! k = Some v ∧ 0 ≤ j < 32 ∧ t = 32 * Z.of_nat k + j.
Proof.
  intros [Hl _] Ht. destruct (tag_split t Ht) as (k & j & -> & Hj & Hk). destruct (lookup_lt_is_Some_2 mask k) as [v Hv]; [lia |]. eauto 10.
Qed.

Lemma alloctag_ok mask :
  tagmask_ok mask →
  match alloctag mask with
  | Ok (t, mask') =>
      0 ≤ t < 65536 ∧ tagbit mask t = false ∧ (∀ u, 0 ≤ u < t → tagbit mask u = true) ∧ tagmask_ok mask' ∧
      ∀ u, 0 ≤ u < 65536 → tagbit mask' u = bool_decide (u = t) || tagbit mask u
  | Err => ∀ u, 0 ≤ u < 65536 → tagbit mask u = true
  | Ub => False
  end.
Proof.
  intros Hm. unfold alloctag. pose proof (alloctag_loop_ok 0 mask ltac:(done)) as H.
  destruct (alloctag_loop 0 mask) as [[t mask'] | |]; [| | done].
  - destruct H as (k & v & j & Hk & Hj & -> & Hv & -> & Hless & Hprev). rewrite Z.add_0_l in *.
    pose proof (lookup_lt_Some _ _ _ Hk) as Hlt. destruct Hm as [Hl Hw] eqn:Hme. change NMASK with 2048 in Hl.
    assert (tagmask_ok (<[k:=Z.setbit v j]> mask)) as Hm'.
    { split; [by rewrite length_insert |]. apply Forall_insert; [done |]. unfold Z.setbit. apply Z.lor_nonneg.
      split; [by eapply (Forall_lookup_1 _ _ _ _ Hw) | apply Z.shiftl_nonneg; lia]. }
    split_and!; [lia | lia | by rewrite (mask_word _ _ _ Hm Hk) | | done |].
    + intros u Hu. destruct (mask_at mask u Hm) as (k' & v' & j' & Hk' & Hj' & ->); [lia |]. rewrite (mask_word _ _ _ Hm Hk') by done.
      destruct (decide (k' = k)) as [-> |]; [| apply (Hprev k'); [lia | done | done]]. assert (v' = v) as -> by congruence. apply Hless. lia.
    + intros u Hu. destruct (mask_at mask u Hm) as (k' & v' & j' & Hk' & Hj' & ->); [lia |]. rewrite (mask_word _ _ _ Hm Hk') by done.
      destruct (decide (k' = k)) as [-> | Hne].
      * rewrite (mask_word _ k (Z.setbit v j) Hm') by (rewrite ?list_lookup_insert_eq; done).
        assert (v' = v) as -> by congruence. destruct (decide (j' = j)) as [-> |].
        -- rewrite Z.setbit_eq by lia. by rewrite bool_decide_true by lia.
        -- rewrite Z.setbit_neq by lia. by rewrite bool_decide_false by lia.
      * rewrite (mask_word _ k' v' Hm') by (rewrite ?list_lookup_insert_ne; done). by rewrite bool_decide_false by lia.
  - intros u Hu. destruct (mask_at mask u Hm Hu) as (k & v & j & Hk & Hj & ->). rewrite (mask_word _ _ _ Hm Hk) by done. by apply (H k).
Qed.

Lemma freetag_ok mask t :
  tagmask_ok mask → 0 ≤ t < 65536 →
  tagmask_ok (freetag t mask) ∧ ∀ u, 0 ≤ u < 65536 → tagbit (freetag t mask) u = negb (bool_decide (u = t)) && tagbit mask u.
Proof.
  intros Hm Ht. destruct (mask_at mask t Hm Ht) as (k & v & j & Hk & Hj & ->). unfold freetag.
  destruct (tag_parts (32 * Z.of_nat k + j)) as [-> ->]; [lia |].
  replace ((32 * Z.of_nat k + j) `div` 32) with (Z.of_nat k) by divlia. replace ((32 * Z.of_nat k + j) `mod` 32) with j by divlia.
  rewrite Nat2Z.id. set (mask' := alter _ k mask).
  assert (0 ≤ v) as Hv by (destruct Hm as [_ Hw]; by eapply (Forall_lookup_1 _ _ _ _ Hw)).
  assert (mask' !! k = Some (Z.clearbit v j)) as Hk' by (unfold mask'; by rewrite list_lookup_alter_eq, Hk).
  assert (tagmask_ok mask') as Hm'.
  { destruct Hm as [Hl Hw]. split; [unfold mask'; by rewrite length_alter |]. unfold mask'. apply Forall_alter; [done |].
    intros x Hx _. replace x with v by congruence. apply Z.ldiff_nonneg. left. lia. }
  split; [done |]. intros u Hu. destruct (mask_at mask u Hm Hu) as (k' & v' & j' & Hk2 & Hj' & ->). rewrite (mask_word _ _ _ Hm Hk2) by done.
  destruct (decide (k' = k)) as [-> | Hne].
  - rewrite (mask_word _ _ _ Hm' Hk') by done. assert (v' = v) as -> by congruence. destruct (decide (j' = j)) as [-> |].
    + rewrite Z.clearbit_eq. by rewrite bool_decide_true by lia.
    + rewrite Z.clearbit_neq by lia. by rewrite bool_decide_false by lia.
  - rewrite (mask_word mask' k' v' Hm') by (unfold mask'; rewrite ?list_lookup_alter_ne; done). by rewrite bool_decide_false by lia.
Qed.

(** ** The requests of a process *)

(** The request a process is at, and the one its call is for. *)
Definition top (c : pc) : addr :=
  match c with
  | Pelse r | Penq _ r | Pwrite _ r | Pgate _ r | Pdoze _ r | Pasleep _ r | Pwoken _ r | Pafter _ r | Preading _ r | Pmux _ r
  | Pwaking _ r _ | Prelease _ r | Pfault _ r _ | Pflush _ r | Pfreeing _ r _ | Pqrm _ r _ | Pfreed _ r _ | Pdone r _ => r
  end.

Definition base (c : pc) : addr :=
  match c with
  | Pelse r | Pdone r _ => r
  | Penq r0 _ | Pwrite r0 _ | Pgate r0 _ | Pdoze r0 _ | Pasleep r0 _ | Pwoken r0 _ | Pafter r0 _ | Preading r0 _ | Pmux r0 _
  | Pwaking r0 _ _ | Prelease r0 _ | Pfault r0 _ _ | Pflush r0 _ | Pfreeing r0 _ _ | Pqrm r0 _ _ | Pfreed r0 _ _ => r0
  end.

(** Has the process put its request [r] on the queue? *)
Definition enqueued (c : pc) (r : addr) : Prop :=
  match c with Pelse _ => False | Penq _ r' => r ≠ r' | _ => True end.

Fixpoint linked (rpcs : gmap addr Mntrpc) (l : list addr) : Prop :=
  match l with
  | [] => True
  | r :: l => (∃ x, rpcs !! r = Some x ∧ mr_flushed x = head l) ∧ linked rpcs l
  end.

(** The requests of a process at [c] are [l], the last flush first. *)
Record holds (rpcs : gmap addr Mntrpc) (c : pc) (l : list addr) : Prop := {
  h_top : head l = Some (top c); h_base : list.last l = Some (base c); h_nodup : NoDup l; h_linked : linked rpcs l
}.

(** What is known of the request that the process [p] is at. *)
Definition pc_ok (p : addr) (c : pc) (x : Mntrpc) : Prop :=
  match c with
  | Penq _ _ | Pmux _ _ => mr_done x = false
  | Pasleep _ _ => mr_r x = Some p
  | Pqrm _ _ _ => mr_done x = true ∨ f_type (mr_reply x) = mtype_code Rflush
  | Pfreed _ _ _ | Pdone _ _ => mr_done x = true
  | _ => True
  end.

(** [D] has the reply that each request was given since it was made. *)
Definition answer (D : gmap addr (Fcall * list Block)) (r : addr) (x : Mntrpc) : Prop :=
  if mr_done x then
    D !! r = Some (mr_reply x, mr_b x) ∧ f_tag (mr_reply x) = f_tag (mr_request x) ∨ f_type (mr_reply x) = mtype_code Rflush
  else D !! r = None.

(** A request of a call whose own request has the tag [t]. *)
Record mine (D : gmap addr (Fcall * list Block)) (msize t : Z) (r : addr) (x : Mntrpc) : Prop := {
  mi_enc : encodable (mr_request x);
  mi_room : msize ≤ mr_rpclen x;
  mi_answer : answer D r x;
  mi_flush : match mr_flushed x with
             | Some _ => f_type (mr_request x) = mtype_code Tflush ∧ f_oldtag (mr_request x) = t
             | None => f_type (mr_request x) ≠ mtype_code Tflush ∧ f_tag (mr_request x) = t
             end
}.

(** The reader of the connection. *)
Definition reads (c : pc) : Prop :=
  match c with Preading _ _ | Pmux _ _ | Pwaking _ _ _ | Prelease _ _ => True | _ => False end.

Definition sleeps (c : pc) : Prop := match c with Pasleep _ _ => True | _ => False end.

Definition calls (c : pc) : Prop := match c with Pelse _ => False | _ => True end.

(** [O] has the owner of each request, or that it is free. *)
Record proc_ok (O : gmap addr (option addr)) (D : gmap addr (Fcall * list Block)) (rpcs : gmap addr Mntrpc) (msize : Z)
    (p : addr) (c : pc) (l : list addr) : Prop := {
  p_holds : holds rpcs c l;
  p_owns : ∀ r, r ∈ l ↔ O !! r = Some (Some p);
  p_pc : ∀ x, rpcs !! top c = Some x → pc_ok p c x;
  p_mine : calls c → ∃ t, ∀ r x, r ∈ l → rpcs !! r = Some x → mine D msize t r x
}.

(** ** The invariant *)

Record rpc_ok (x : Mntrpc) : Prop := { ro_wt : fcall_wt (mr_request x); ro_b : chain_ok (mr_b x) }.

Record heap_ok (O : gmap addr (option addr)) (rpcs : gmap addr Mntrpc) (a : Mntalloc) (next : addr) : Prop := {
  hp_dom : ∀ r, is_Some (O !! r) ↔ is_Some (rpcs !! r);
  hp_next : ∀ r, is_Some (rpcs !! r) → (r < next)%positive;
  hp_nodup : NoDup (ma_rpcfree a);
  hp_free : ∀ r, r ∈ ma_rpcfree a ↔ O !! r = Some None;
  hp_nfree : ma_nrpcfree a = Z.of_nat (length (ma_rpcfree a));
  hp_few : ma_nrpcfree a ≤ 10;
  hp_used : ma_nrpcused a = Z.of_nat (size rpcs) - ma_nrpcfree a;
  hp_mask : tagmask_ok (ma_tagmask a);
  hp_tags : ∀ t, 0 ≤ t < 65536 →
    tagbit (ma_tagmask a) t = true ↔ t = 0 ∨ t = NOTAG ∨ ∃ r x, rpcs !! r = Some x ∧ f_tag (mr_request x) = t;
  hp_range : ∀ r x, rpcs !! r = Some x → 0 < f_tag (mr_request x) < NOTAG;
  hp_unique : ∀ r r' x x', rpcs !! r = Some x → rpcs !! r' = Some x' → f_tag (mr_request x) = f_tag (mr_request x') → r = r';
  hp_rpcs : ∀ r x, rpcs !! r = Some x → rpc_ok x
}.

(** A request whose process has put it on the queue. *)
Definition waiting (O : gmap addr (option addr)) (rpcs : gmap addr Mntrpc) (procs : gmap addr pc) (r : addr) : Prop :=
  ∃ p c x, O !! r = Some (Some p) ∧ procs !! p = Some c ∧ enqueued c r ∧ rpcs !! r = Some x ∧ mr_done x = false.

Record inv (O : gmap addr (option addr)) (D : gmap addr (Fcall * list Block)) (y : sys) : Prop := {
  i_heap : heap_ok O (y_rpcs y) (y_alloc y) (y_next y);
  i_procs : ∀ p c, y_procs y !! p = Some c → ∃ l, proc_ok O D (y_rpcs y) (m_msize (y_mnt y)) p c l;
  i_live : ∀ r p, O !! r = Some (Some p) → is_Some (y_procs y !! p);
  i_nodup : NoDup (m_queue (y_mnt y));
  i_queue : ∀ r, r ∈ m_queue (y_mnt y) ↔ waiting O (y_rpcs y) (y_procs y) r;
  i_rip : ∀ p c, y_procs y !! p = Some c → reads c → m_rip (y_mnt y) = Some p;
  i_sleep : ∀ r p x, y_rpcs y !! r = Some x → mr_r x = Some p → ∃ r0, y_procs y !! p = Some (Pasleep r0 r);
  i_stream : mq_ok (m_q (y_mnt y))
}.

(** ** The heap *)

Lemma linked_same rpcs rpcs' l :
  (∀ r x, r ∈ l → rpcs !! r = Some x → ∃ x', rpcs' !! r = Some x' ∧ mr_flushed x' = mr_flushed x) → linked rpcs l → linked rpcs' l.
Proof.
  induction l as [|r l IH]; [done |]. cbn. intros Hs [(x & Hx & Hf) Hl]. split.
  - destruct (Hs r x) as (x' & Hx' & Hf'); [by left | done |]. exists x'. split; congruence.
  - apply IH; [| done]. intros r' x' Hr. apply Hs. by right.
Qed.

Lemma linked_lookup rpcs l r : linked rpcs l → r ∈ l → is_Some (rpcs !! r).
Proof.
  induction l as [|r' l IH]; cbn; [by intros _ ?%list.elem_of_nil |]. intros [(x & Hx & _) Hl] [-> | Hr]%list.elem_of_cons; [by exists x | by apply IH].
Qed.

(** One request changes, but not its tag. *)
Lemma heap_set O rpcs a next r x x' :
  heap_ok O rpcs a next → rpcs !! r = Some x → f_tag (mr_request x') = f_tag (mr_request x) → rpc_ok x' → heap_ok O (<[r:=x']> rpcs) a next.
Proof.
  intros H Hx Ht Hok. destruct H.
  assert (∀ r' z, <[r:=x']> rpcs !! r' = Some z → ∃ z', rpcs !! r' = Some z' ∧ f_tag (mr_request z) = f_tag (mr_request z')) as Hback.
  { intros r' z Hz. destruct (decide (r' = r)) as [-> |].
    - rewrite lookup_insert_eq in Hz. exists x. split; congruence.
    - rewrite lookup_insert_ne in Hz by done. by exists z. }
  assert (∀ r', is_Some (<[r:=x']> rpcs !! r') ↔ is_Some (rpcs !! r')) as Hdom.
  { intros r'. rewrite lookup_insert_is_Some. split; [intros [<- | [_ ?]]; [by exists x | done] |]. intros. destruct (decide (r = r')); tauto. }
  split; try done.
  - intros r'. rewrite Hdom. auto.
  - intros r'. rewrite Hdom. auto.
  - rewrite map_size_insert_Some by by exists x. done.
  - intros t Hr. rewrite hp_tags0 by done. split.
    + intros [? | [? | (r' & z & Hz & Htz)]]; [tauto.. |]. right. right. exists r'. destruct (decide (r' = r)) as [-> |].
      * exists x'. rewrite lookup_insert_eq. split; congruence.
      * exists z. by rewrite lookup_insert_ne.
    + intros [? | [? | (r' & z & Hz & Htz)]]; [tauto.. |]. right. right. apply Hback in Hz as (z' & Hz' & He). exists r', z'. split; congruence.
  - intros r' z Hz. apply Hback in Hz as (z' & Hz' & ->). eauto.
  - intros r1 r2 z1 z2 H1 H2 He. apply Hback in H1 as (z1' & H1 & E1). apply Hback in H2 as (z2' & H2 & E2). eapply hp_unique0; [done.. | congruence].
  - intros r' z Hz. destruct (decide (r' = r)) as [-> |]; [rewrite lookup_insert_eq in Hz; congruence |].
    rewrite lookup_insert_ne in Hz by done. eauto.
Qed.

(** A request as mntralloc gives it. *)
Record fresh (msize : Z) (x : Mntrpc) : Prop := {
  fr_done : mr_done x = false; fr_flushed : mr_flushed x = None; fr_b : mr_b x = []; fr_room : msize ≤ mr_rpclen x; fr_wt : fcall_wt (mr_request x)
}.

Lemma fcall_wt_tag f t : fcall_wt f → is_u16 t → fcall_wt (f <| f_tag := t |>).
Proof. intros [] Ht. by constructor. Qed.

(** A new request has a tag of its own. *)
Lemma heap_new O rpcs a next t mask x o :
  heap_ok O rpcs a next → alloctag (ma_tagmask a) = Ok (t, mask) → rpc_ok x → f_tag (mr_request x) = t →
  heap_ok (<[next := Some o]> O) (<[next := x]> rpcs) (a <| ma_tagmask := mask |> <| ma_nrpcused := ma_nrpcused a + 1 |>) (Pos.succ next).
Proof.
  intros H Hal Hok Ht. destruct H. pose proof (alloctag_ok _ hp_mask0) as Hspec. rewrite Hal in Hspec.
  destruct Hspec as (Hr & Hfree & _ & Hmask' & Hbits).
  assert (rpcs !! next = None) as Hnew.
  { apply eq_None_not_Some. intros Hs. apply hp_next0 in Hs. lia. }
  assert (O !! next = None) as HnewO.
  { apply eq_None_not_Some. rewrite hp_dom0, Hnew. by intros [? ?]. }
  assert (¬ (t = 0 ∨ t = NOTAG ∨ ∃ r x, rpcs !! r = Some x ∧ f_tag (mr_request x) = t)) as Hunused by (rewrite <- hp_tags0 by done; congruence).
  split; cbn [ma_rpcfree ma_nrpcfree ma_nrpcused ma_tagmask update]; try done.
  - intros r. rewrite !lookup_insert_is_Some, hp_dom0. done.
  - intros r. rewrite lookup_insert_is_Some. intros [<- | [_ Hs%hp_next0]]; lia.
  - intros r. rewrite hp_free0. destruct (decide (r = next)) as [-> |]; [rewrite lookup_insert_eq; split; congruence | by rewrite lookup_insert_ne].
  - rewrite map_size_insert_None by done. lia.
  - intros u Hu. rewrite Hbits, orb_true_iff, bool_decide_eq_true, hp_tags0 by done. split.
    + intros [-> | [? | [? | (r & z & Hz & Hzt)]]]; [| tauto.. |]; right; right; [exists next, x; by rewrite lookup_insert_eq |].
      exists r, z. rewrite lookup_insert_ne; [done | congruence].
    + intros [? | [? | (r & z & Hz & Hzt)]]; [tauto.. |]. destruct (decide (r = next)) as [-> |].
      * rewrite lookup_insert_eq in Hz. left. congruence.
      * rewrite lookup_insert_ne in Hz by done. right. right. right. by exists r, z.
  - intros r z Hz. destruct (decide (r = next)) as [-> |].
    + rewrite lookup_insert_eq in Hz. injection Hz as <-. rewrite Ht. change NOTAG with 65535 in *.
      assert (t ≠ 0) by tauto. assert (t ≠ 65535) by tauto. clear - Hr H H0. lia.
    + rewrite lookup_insert_ne in Hz by done. eauto.
  - assert (∀ r z, r ≠ next → <[next:=x]> rpcs !! r = Some z → f_tag (mr_request z) ≠ t) as Hother.
    { intros r z Hr' Hz Hzt. rewrite lookup_insert_ne in Hz by done. apply Hunused. right. right. by exists r, z. }
    intros r r' z z' Hz Hz' He. destruct (decide (r = next)) as [-> | Hn], (decide (r' = next)) as [-> | Hn']; [done | | |].
    + destruct (Hother r' z' Hn' Hz'). rewrite lookup_insert_eq in Hz. congruence.
    + destruct (Hother r z Hn Hz). rewrite lookup_insert_eq in Hz'. congruence.
    + rewrite lookup_insert_ne in Hz, Hz' by done. by apply (hp_unique0 r r' z z').
  - intros r z Hz. destruct (decide (r = next)) as [-> |]; [rewrite lookup_insert_eq in Hz; congruence |].
    rewrite lookup_insert_ne in Hz by done. eauto.
Qed.

Lemma heap_reuse O rpcs a next r free x x' o :
  heap_ok O rpcs a next → ma_rpcfree a = r :: free → rpcs !! r = Some x → f_tag (mr_request x') = f_tag (mr_request x) → rpc_ok x' →
  heap_ok (<[r := Some o]> O) (<[r := x']> rpcs)
    (a <| ma_rpcfree := free |> <| ma_nrpcfree := ma_nrpcfree a - 1 |> <| ma_nrpcused := ma_nrpcused a + 1 |>) next.
Proof.
  intros H Hfree Hx Ht Hok. pose proof (heap_set O rpcs a next r x x' H Hx Ht Hok) as H'. clear H Hx Ht Hok. destruct H'.
  rewrite Hfree in *. apply list.NoDup_cons in hp_nodup0 as [Hnin Hnd]. cbn [length] in *.
  assert (O !! r = Some None) as Hr by (apply hp_free0; by left).
  split; cbn [ma_rpcfree ma_nrpcfree ma_nrpcused ma_tagmask update]; try done; [| | lia | lia | lia].
  - intros r'. rewrite lookup_insert_is_Some, <- hp_dom0. split; [intros [<- | [_ ?]]; [by eexists | done] |].
    intros. destruct (decide (r = r')); tauto.
  - intros r'. destruct (decide (r' = r)) as [-> |]; [rewrite lookup_insert_eq; split; [done | congruence] |].
    rewrite lookup_insert_ne by done. rewrite <- hp_free0, list.elem_of_cons. tauto.
Qed.

Lemma mntralloc_ok O msize y :
  heap_ok O (y_rpcs y) (y_alloc y) (y_next y) →
  match mntralloc msize y with
  | Ok (r, y') =>
      ∃ x a next, y' = mkSys (<[r:=x]> (y_rpcs y)) (y_mnt y) a next (y_procs y) ∧ fresh msize x ∧ (∀ p, O !! r ≠ Some (Some p)) ∧
        (∀ p, mr_r x = Some p → ∃ z, y_rpcs y !! r = Some z ∧ mr_r z = Some p) ∧
        ∀ o, heap_ok (<[r := Some o]> O) (<[r := x]> (y_rpcs y)) a next
  | Err => ∀ t, 0 < t < NOTAG → ∃ r x, y_rpcs y !! r = Some x ∧ f_tag (mr_request x) = t
  | Ub => False
  end.
Proof.
  intros H. pose proof H as H0. destruct H0. unfold mntralloc.
  destruct (ma_rpcfree (y_alloc y)) as [|r free] eqn:Hfree.
  - pose proof (alloctag_ok _ hp_mask0) as Hal. destruct (alloctag (ma_tagmask (y_alloc y))) as [[t mask] | |] eqn:Heq; cbn [mbind res_bind]; [| | done].
    + destruct Hal as (Ht & _).
      eexists _, _, _. split; [reflexivity |]. cbn [mntrpc0 mr_done mr_flushed mr_b mr_rpclen mr_request mr_r update]. split_and!.
      * split; cbn; try done. apply fcall_wt_tag; [apply fcall0_wt | unfold is_u16; lia].
      * intros p Hp. assert (is_Some (O !! y_next y)) as Hs by by eexists. apply hp_dom0, hp_next0 in Hs. lia.
      * done.
      * intros o. refine (heap_new O _ (y_alloc y) _ t mask _ _ H Heq _ _); [| reflexivity]. split; [| constructor].
        apply fcall_wt_tag; [apply fcall0_wt | unfold is_u16; lia].
    + intros t Ht. change NOTAG with 65535 in *. destruct (hp_tags0 t) as [Hb _]; [lia |]. destruct Hb as [? | [? | ?]]; [apply Hal; lia | lia.. | done].
  - assert (O !! r = Some None) as Hr by (apply hp_free0; by left).
    assert (is_Some (y_rpcs y !! r)) as [x Hx] by (rewrite <- hp_dom0, Hr; by eexists).
    unfold getrpc. rewrite Hx. cbn [res_of_option mbind res_bind].
    set (x1 := if decide _ then _ else x). assert (mr_request x1 = mr_request x ∧ mr_r x1 = mr_r x ∧ msize ≤ mr_rpclen x1) as (Hq1 & Hr1 & Hl1).
    { unfold x1. case_decide; cbn; split_and!; try done; lia. }
    destruct (hp_rpcs0 r x Hx) as [Hwt _].
    eexists _, _, _. split; [reflexivity |]. cbn [mr_done mr_flushed mr_b mr_rpclen mr_request mr_r update]. split_and!.
    + split; cbn; try done. by rewrite Hq1.
    + intros p. congruence.
    + intros p Hp. exists x. split; [done | congruence].
    + intros o. refine (heap_reuse O _ (y_alloc y) _ r free x _ _ H Hfree Hx _ _); [by cbn; rewrite Hq1 |]. split; cbn; [by rewrite Hq1 | constructor].
Qed.

Lemma mntfree_ok O r p y :
  heap_ok O (y_rpcs y) (y_alloc y) (y_next y) → O !! r = Some (Some p) →
  ∃ O' rpcs' a', mntfree r y = Ok (mkSys rpcs' (y_mnt y) a' (y_next y) (y_procs y)) ∧ heap_ok O' rpcs' a' (y_next y) ∧
    (∀ r', r' ≠ r → O' !! r' = O !! r' ∧ rpcs' !! r' = y_rpcs y !! r') ∧ (∀ p, O' !! r ≠ Some (Some p)) ∧
    (∀ x, rpcs' !! r = Some x → y_rpcs y !! r = Some x).
Proof.
  intros H HO. pose proof H as H0. destruct H0. assert (is_Some (y_rpcs y !! r)) as [x Hx] by (rewrite <- hp_dom0, HO; by eexists).
  assert (r ∉ ma_rpcfree (y_alloc y)) as Hnin by (rewrite hp_free0; congruence).
  pose proof (hp_range0 r x Hx) as Hrange. change NOTAG with 65535 in Hrange.
  unfold mntfree, getrpc. rewrite Hx. cbn [res_of_option mbind res_bind]. destruct (decide (10 ≤ ma_nrpcfree (y_alloc y))) as [Hten | Hten].
  - destruct (freetag_ok (ma_tagmask (y_alloc y)) (f_tag (mr_request x)) hp_mask0) as [Hm Hbits]; [lia |].
    exists (delete r O), (delete r (y_rpcs y)). eexists. split; [reflexivity |]. cbn [y_rpcs y_alloc y_next setalloc update]. split_and!.
    + split; cbn [ma_rpcfree ma_nrpcfree ma_nrpcused ma_tagmask update]; try done.
      * intros r'. by rewrite !lookup_delete_is_Some, hp_dom0.
      * intros r' [_ ?]%lookup_delete_is_Some. auto.
      * intros r'. rewrite hp_free0, lookup_delete_Some. split; [| tauto]. intros Hr'. split; congruence.
      * pose proof (map_size_delete_Some r (y_rpcs y) (ex_intro _ x Hx)) as Hsz.
        assert (size (y_rpcs y) ≠ 0%nat) by (intros Hz%map_size_empty_iff; by rewrite Hz in Hx). lia.
      * intros t Ht. rewrite Hbits, andb_true_iff, negb_true_iff, bool_decide_eq_false, hp_tags0 by done. split.
        -- intros (Hne & [? | [? | (r' & z & Hz & Hzt)]]); [tauto.. |]. right. right. exists r', z. split; [| done].
           apply lookup_delete_Some. split; [congruence | done].
        -- intros [-> | [-> | (r' & z & [Hne Hz]%lookup_delete_Some & Hzt)]]; [split; [lia | tauto] | split; [change NOTAG with 65535; lia | tauto] |].
           split; [| right; right; by exists r', z]. intros Heq. apply Hne. apply (hp_unique0 r r' x z Hx Hz). congruence.
      * intros r' z [_ Hz]%lookup_delete_Some. eauto.
      * intros r1 r2 z1 z2 [_ H1]%lookup_delete_Some [_ H2]%lookup_delete_Some. by apply hp_unique0.
      * intros r' z [_ Hz]%lookup_delete_Some. eauto.
    + intros r' Hne. by rewrite !lookup_delete_ne.
    + intros p'. by rewrite lookup_delete_eq.
    + intros z. by rewrite lookup_delete_eq.
  - exists (<[r:=None]> O), (y_rpcs y). eexists. split; [reflexivity |]. cbn [y_rpcs y_alloc y_next setalloc update]. split_and!.
    + split; cbn [ma_rpcfree ma_nrpcfree ma_nrpcused ma_tagmask update length]; try done; [| | | lia..].
      * intros r'. rewrite lookup_insert_is_Some, <- hp_dom0. split; [intros [<- | [_ ?]]; [by eexists | done] |].
        intros. destruct (decide (r = r')); tauto.
      * by apply list.NoDup_cons.
      * intros r'. rewrite list.elem_of_cons. destruct (decide (r' = r)) as [-> |]; [rewrite lookup_insert_eq; tauto |].
        rewrite lookup_insert_ne, hp_free0 by done. tauto.
    + intros r' Hne. by rewrite !lookup_insert_ne.
    + intros p'. rewrite lookup_insert_eq. congruence.
    + intros z Hz. congruence.
Qed.
