(* ===== verification/MntSys.v ===== *)
(** * MntSys: the steps of the mount driver keep its invariant

    One lemma for each kind of change: a process moves on, a request is put on the queue,
    made, answered or freed, a process falls asleep or is woken. *)

From S2P Require Import Prelude Bytes Fcall FcallProps Qio QioProps Srv Mnt MntRead MntInv.

(** What is plain of two places where a process may be. *)
Ltac plain := try done; try (by intros []); try (by intros ? []).

(** ** Processes *)

Lemma holds_top rpcs c l : holds rpcs c l → top c ∈ l ∧ is_Some (rpcs !! top c).
Proof.
  intros [Ht _ _ Hl]. assert (top c ∈ l) as Hin by (destruct l; [done | injection Ht as <-; by left]).
  split; [done | by apply (linked_lookup _ l)].
Qed.

(** A process does not see what others do with their requests. *)
Lemma proc_frame O O' D D' rpcs rpcs' ms p c l :
  proc_ok O D rpcs ms p c l → (∀ r, O' !! r = Some (Some p) ↔ O !! r = Some (Some p)) →
  (∀ r, r ∈ l → rpcs' !! r = rpcs !! r ∧ D' !! r = D !! r) → proc_ok O' D' rpcs' ms p c l.
Proof.
  intros [[Ht Hb Hn Hl] Hown Hpc Hm] HO Hsame.
  destruct (holds_top rpcs c l) as [Hin _]; [done |]. split.
  - split; try done. eapply linked_same; [| exact Hl]. intros r x Hr Hx. exists x. by destruct (Hsame r Hr) as [-> _].
  - intros r. by rewrite HO.
  - intros x. destruct (Hsame _ Hin) as [-> _]. apply Hpc.
  - intros Hc. destruct (Hm Hc) as [t Ht']. exists t. intros r x Hr. destruct (Hsame r Hr) as [-> HD]. intros Hx.
    destruct (Ht' r x Hr Hx). split; try done. unfold answer in *. by rewrite HD.
Qed.

(** One request changes. *)
Lemma proc_change O D D' rpcs ms r x x' p c l :
  proc_ok O D rpcs ms p c l → rpcs !! r = Some x →
  mr_request x' = mr_request x → mr_flushed x' = mr_flushed x → mr_rpclen x' = mr_rpclen x →
  (r ∈ l → calls c → answer D r x → answer D' r x') → (∀ r', r' ≠ r → D' !! r' = D !! r') → (top c = r → pc_ok p c x → pc_ok p c x') →
  proc_ok O D' (<[r:=x']> rpcs) ms p c l.
Proof.
  intros [[Ht Hb Hn Hl] Hown Hpc Hm] Hx Hq Hf Hlen Ha HD Hpc'. split.
  - split; try done. eapply linked_same; [| exact Hl]. intros r' z Hr' Hz. destruct (decide (r' = r)) as [-> |].
    + exists x'. rewrite lookup_insert_eq. split; congruence.
    + exists z. by rewrite lookup_insert_ne.
  - done.
  - intros z. destruct (decide (top c = r)) as [Hr |].
    + rewrite Hr, lookup_insert_eq. intros [= <-]. apply Hpc'; [done |]. apply Hpc. by rewrite Hr.
    + rewrite lookup_insert_ne by done. apply Hpc.
  - intros Hc. destruct (Hm Hc) as [t Ht']. exists t. intros r' z Hr' Hz. destruct (decide (r' = r)) as [-> |].
    + rewrite lookup_insert_eq in Hz. injection Hz as <-. destruct (Ht' r x Hr' Hx). split; rewrite ?Hq, ?Hlen, ?Hf; auto.
    + rewrite lookup_insert_ne in Hz by done. destruct (Ht' r' z Hr' Hz). split; try done. unfold answer in *. by rewrite HD.
Qed.

(** The process moves on. *)
Lemma proc_move O D rpcs ms p c c' l :
  proc_ok O D rpcs ms p c l → top c' = top c → base c' = base c → (calls c' → calls c) → (∀ x, rpcs !! top c = Some x → pc_ok p c' x) →
  proc_ok O D rpcs ms p c' l.
Proof. intros [[Ht Hb Hn Hl] Hown Hpc Hm] Et Eb Hc Hpc'. split; [split; by rewrite ?Et, ?Eb | done | by rewrite Et | tauto]. Qed.

Lemma owner O D y r p : inv O D y → O !! r = Some (Some p) → ∃ c l, y_procs y !! p = Some c ∧ proc_ok O D (y_rpcs y) (m_msize (y_mnt y)) p c l ∧ r ∈ l.
Proof.
  intros H HO. destruct (i_live _ _ _ H r p HO) as [c Hc]. destruct (i_procs _ _ _ H p c Hc) as [l Hl]. exists c, l. split_and!; [done | done |].
  by apply (p_owns _ _ _ _ _ _ _ Hl).
Qed.

Lemma at_top O D y p c : inv O D y → y_procs y !! p = Some c → O !! top c = Some (Some p) ∧ is_Some (y_rpcs y !! top c).
Proof.
  intros H Hc. destruct (i_procs _ _ _ H p c Hc) as [l Hl]. destruct (holds_top _ _ _ (p_holds _ _ _ _ _ _ _ Hl)) as [Hin Hs].
  split; [by apply (p_owns _ _ _ _ _ _ _ Hl) | done].
Qed.

(** The request of a process asleep is the one that knows of it. *)
Lemma sleeper O D y r p x :
  inv O D y → y_rpcs y !! r = Some x → mr_r x = Some p → O !! r = Some (Some p) ∧ ∃ r0, y_procs y !! p = Some (Pasleep r0 r).
Proof.
  intros H Hx Hr. destruct (i_sleep _ _ _ H r p x Hx Hr) as [r0 Hp]. split; [| by exists r0]. by destruct (at_top _ _ _ _ _ H Hp).
Qed.

(** A process that has not put its request on the queue is not waiting for it. *)
Lemma waiting_move O rpcs procs p c c' r :
  procs !! p = Some c → (enqueued c r ↔ enqueued c' r) → waiting O rpcs procs r ↔ waiting O rpcs (<[p:=c']> procs) r.
Proof.
  intros Hp He. unfold waiting. split; intros (p' & c1 & x & HO & Hc & Hen & Hx & Hd).
  - destruct (decide (p' = p)) as [-> |].
    + exists p, c', x. rewrite lookup_insert_eq. replace c1 with c in * by congruence. tauto.
    + exists p', c1, x. by rewrite lookup_insert_ne.
  - destruct (decide (p' = p)) as [-> |].
    + rewrite lookup_insert_eq in Hc. injection Hc as <-. exists p, c, x. tauto.
    + rewrite lookup_insert_ne in Hc by done. by exists p', c1, x.
Qed.

Lemma inv_move O D y p c c' :
  inv O D y → y_procs y !! p = Some c → top c' = top c → base c' = base c → (calls c' → calls c) → ¬ sleeps c → ¬ sleeps c' →
  (∀ r, enqueued c r ↔ enqueued c' r) → (∀ x, y_rpcs y !! top c = Some x → pc_ok p c' x) → (reads c' → m_rip (y_mnt y) = Some p) →
  inv O D (setpc p c' y).
Proof.
  intros H Hc Et Eb Hcalls Hs Hs' He Hpc Hrd. destruct H. split; cbn [y_rpcs y_mnt y_alloc y_next y_procs setpc update]; try done.
  - intros p' c1. destruct (decide (p' = p)) as [-> |].
    + rewrite lookup_insert_eq. intros [= <-]. destruct (i_procs p c Hc) as [l Hl]. exists l. by eapply proc_move.
    + rewrite lookup_insert_ne by done. apply i_procs.
  - intros r p' HO. rewrite lookup_insert_is_Some. destruct (decide (p = p')); [by left | right; eauto].
  - intros r. rewrite i_queue. by apply (waiting_move _ _ _ p c c').
  - intros p' c1. destruct (decide (p' = p)) as [-> |]; [rewrite lookup_insert_eq; intros [= <-]; done |].
    rewrite lookup_insert_ne by done. apply i_rip.
  - intros r p' x Hx Hr. destruct (i_sleep r p' x Hx Hr) as [r0 Hp']. exists r0. rewrite lookup_insert_ne; [done |].
    intros ->. rewrite Hc in Hp'. injection Hp' as ->. done.
Qed.

(** ** A request changes *)

Lemma inv_change O D D' y r x x' m' :
  inv O D y → y_rpcs y !! r = Some x →
  mr_request x' = mr_request x → mr_flushed x' = mr_flushed x → mr_rpclen x' = mr_rpclen x → mr_r x' = mr_r x → chain_ok (mr_b x') →
  (mr_done x = true → mr_done x' = true) → (answer D r x → answer D' r x') → (∀ r', r' ≠ r → D' !! r' = D !! r') →
  (∀ p c, y_procs y !! p = Some c → top c = r → pc_ok p c x → pc_ok p c x') →
  m_msize m' = m_msize (y_mnt y) → m_rip m' = m_rip (y_mnt y) → mq_ok (m_q m') → NoDup (m_queue m') →
  (∀ r', r' ∈ m_queue m' ↔ r' ∈ m_queue (y_mnt y) ∧ (r' = r → mr_done x' = false)) →
  inv O D' (setrpc r x' (setmnt m' y)).
Proof.
  intros H Hx Eq Ef El Er Hb Hdone Ha HD Hpc Em Erip Hmq Hnd Hqueue. pose proof H as H0. destruct H0.
  split; cbn [y_rpcs y_mnt y_alloc y_next y_procs setrpc setmnt update]; try done.
  - eapply heap_set; [done | done | by rewrite Eq |]. destruct i_heap. destruct (hp_rpcs r x Hx). split; [by rewrite Eq | done].
  - intros p c Hc. destruct (i_procs p c Hc) as [l Hl]. exists l. rewrite Em. eapply proc_change; eauto.
  - intros r'. rewrite Hqueue, i_queue. unfold waiting. split.
    + intros [(p & c & z & HO & Hc & He & Hz & Hd) Hr]. exists p, c. destruct (decide (r' = r)) as [-> |].
      * exists x'. rewrite lookup_insert_eq. auto 10.
      * exists z. by rewrite lookup_insert_ne.
    + intros (p & c & z & HO & Hc & He & Hz & Hd). destruct (decide (r' = r)) as [-> |].
      * rewrite lookup_insert_eq in Hz. injection Hz as <-. split; [| done]. exists p, c, x. split_and!; try done.
        destruct (mr_done x); [by rewrite Hdone in Hd | done].
      * rewrite lookup_insert_ne in Hz by done. split; [by exists p, c, z | done].
  - by rewrite Erip.
  - intros r' p z Hz Hr. destruct (decide (r' = r)) as [-> |].
    + rewrite lookup_insert_eq in Hz. injection Hz as <-. rewrite Er in Hr. eauto.
    + rewrite lookup_insert_ne in Hz by done. eauto.
Qed.

Lemma unlink_spec r l : NoDup l → NoDup (unlink r l) ∧ ∀ r', r' ∈ unlink r l ↔ r' ∈ l ∧ r' ≠ r.
Proof.
  induction l as [|q l IH]; cbn; [intros _; split; [constructor |]; intros r'; rewrite !list.elem_of_nil; tauto |].
  intros [Hnin Hnd]%list.NoDup_cons. destruct (IH Hnd) as [Hu Hin]. case_decide as Hq.
  - subst q. split; [done |]. intros r'. rewrite list.elem_of_cons. split; [intros Hr'; split; [by right | by intros ->] | intros [[? | ?] ?]; done].
  - split; [apply list.NoDup_cons; rewrite Hin; tauto |]. intros r'. rewrite !list.elem_of_cons, Hin. split; [| tauto].
    intros [-> | ?]; [by split; [left |] | tauto].
Qed.

Lemma inv_request O D D' y r x x' :
  inv O D y → y_rpcs y !! r = Some x →
  mr_request x' = mr_request x → mr_flushed x' = mr_flushed x → mr_rpclen x' = mr_rpclen x → mr_r x' = mr_r x → chain_ok (mr_b x') →
  mr_done x' = mr_done x → (answer D r x → answer D' r x') → (∀ r', r' ≠ r → D' !! r' = D !! r') →
  (∀ p c, y_procs y !! p = Some c → top c = r → pc_ok p c x → pc_ok p c x') → inv O D' (setrpc r x' y).
Proof.
  intros H Hx Eq Ef El Er Hb Hd Ha HD Hpc. replace y with (setmnt (y_mnt y) y) by by destruct y.
  eapply inv_change; try done; destruct H; try done; [congruence |]. intros r'. split; [| tauto]. intros Hin. split; [done |]. intros ->.
  apply i_queue in Hin as (p' & c' & z & _ & _ & _ & Hz & Hzd). congruence.
Qed.

(** A reply is given to the request that waits for it. *)
Lemma inv_deliver O D y q x f b :
  inv O D y → (∀ p c, y_procs y !! p = Some c → top c = q → if c is Pmux _ _ then False else True) →
  q ∈ m_queue (y_mnt y) → y_rpcs y !! q = Some x →
  f_tag f = f_tag (mr_request x) → chain_ok b →
  inv O (<[q := (f, b)]> D) (setrpc q (x <| mr_reply := f |> <| mr_b := b |> <| mr_done := true |>) (unqueue q y)).
Proof.
  intros H Hmux Hq Hx Hf Hb. pose proof H as H0. destruct H0. destruct (unlink_spec q _ i_nodup) as [Hnd Hin].
  apply (inv_change O D _ y q x _ ((y_mnt y) <| m_queue := unlink q (m_queue (y_mnt y)) |>)); try done.
  - intros _. unfold answer. cbn [mr_done mr_reply mr_b mr_request update]. left. by rewrite lookup_insert_eq.
  - intros r' Hne. by rewrite lookup_insert_ne.
  - intros p c Hc Htop Hpc. specialize (Hmux p c Hc Htop). apply i_queue in Hq as (p' & c' & z & HO & Hc' & He & Hz & Hd).
    destruct (at_top _ _ _ _ _ H Hc) as [HO' _]. rewrite Htop in HO'. assert (p' = p) as -> by congruence. assert (c' = c) as -> by congruence.
    destruct c; cbn in *; try done; first [by left | congruence].
  - intros r'. cbn [m_queue update mr_done]. rewrite Hin. naive_solver.
Qed.

(** ** The queue, sleep and wakeup *)

Lemma inv_enqueue O D y p r0 r :
  inv O D y → y_procs y !! p = Some (Penq r0 r) →
  inv O D (setpc p (Pwrite r0 r) (setmnt ((y_mnt y) <| m_queue := r :: m_queue (y_mnt y) |>) y)).
Proof.
  intros H Hc. pose proof H as H0. destruct H0. destruct (at_top _ _ _ _ _ H Hc) as [HO [x Hx]]. cbn [top] in *.
  assert (¬ waiting O (y_rpcs y) (y_procs y) r) as Hnot.
  { intros (p' & c & z & HO' & Hc' & He & _). assert (p' = p) as -> by congruence. rewrite Hc in Hc'. injection Hc' as <-. by cbn in He. }
  destruct (i_procs p _ Hc) as [l Hl]. pose proof (p_pc _ _ _ _ _ _ _ Hl x Hx) as Hdone. cbn in Hdone.
  split; cbn [y_rpcs y_mnt y_alloc y_next y_procs setpc setmnt m_queue m_msize m_rip m_q update]; try done.
  - intros p' c1. destruct (decide (p' = p)) as [-> |]; [| rewrite lookup_insert_ne by done; apply i_procs].
    rewrite lookup_insert_eq. intros [= <-]. exists l. by eapply proc_move.
  - intros r' p' HO'. rewrite lookup_insert_is_Some. destruct (decide (p = p')); [by left | right; eauto].
  - apply list.NoDup_cons. by rewrite i_queue.
  - intros r'. rewrite list.elem_of_cons, i_queue. destruct (decide (r' = r)) as [-> | Hne].
    + split; [intros _ | by left]. exists p, (Pwrite r0 r), x. by rewrite lookup_insert_eq.
    + rewrite <- (waiting_move O (y_rpcs y) (y_procs y) p (Penq r0 r) (Pwrite r0 r) r' Hc) by done. tauto.
  - intros p' c1. destruct (decide (p' = p)) as [-> |]; [rewrite lookup_insert_eq; intros [= <-]; done |].
    rewrite lookup_insert_ne by done. apply i_rip.
  - intros r' p' z Hz Hr. destruct (i_sleep r' p' z Hz Hr) as [r1 Hp']. exists r1. rewrite lookup_insert_ne; congruence.
Qed.

Lemma waiting_set O rpcs procs r x x' r' :
  rpcs !! r = Some x → mr_done x' = mr_done x → waiting O (<[r:=x']> rpcs) procs r' ↔ waiting O rpcs procs r'.
Proof.
  intros Hx Hd. unfold waiting. split; intros (p & c & z & HO & Hc & He & Hz & Hzd); exists p, c;
    (destruct (decide (r' = r)) as [-> |]; [| rewrite ?lookup_insert_ne in * by done; by exists z]).
  - rewrite lookup_insert_eq in Hz. injection Hz as <-. exists x. split_and!; congruence.
  - exists x'. rewrite lookup_insert_eq. split_and!; congruence.
Qed.

(** A process falls asleep or ceases to sleep. *)
Lemma inv_nap O D y p c c' x s :
  inv O D y → y_procs y !! p = Some c → y_rpcs y !! top c = Some x → top c' = top c → base c' = base c →
  (∀ r, enqueued c' r ↔ enqueued c r) → calls c → ¬ reads c' →
  match s with Some p' => p' = p ∧ ∃ r0, c' = Pasleep r0 (top c) | None => pc_ok p c' (x <| mr_r := None |>) end →
  inv O D (setpc p c' (setrpc (top c) (x <| mr_r := s |>) y)).
Proof.
  intros H Hc Hx Et Eb He Hcalls Hrd Hs. pose proof H as H0. destruct H0. destruct (at_top _ _ _ _ _ H Hc) as [HO _].
  split; cbn [y_rpcs y_mnt y_alloc y_next y_procs setpc setrpc update]; try done.
  - eapply heap_set; [done | done | done |]. destruct i_heap. by destruct (hp_rpcs (top c) x Hx).
  - intros p' c1. destruct (decide (p' = p)) as [-> |].
    + rewrite lookup_insert_eq. intros [= <-]. destruct (i_procs p _ Hc) as [l [[? ? ? ?] Hown Hpc Hm]]. exists l.
      split; [split; rewrite ?Et, ?Eb; try done | done | |].
      * eapply linked_same; [| done]. intros r' z Hr' Hz. destruct (decide (r' = top c)) as [-> |].
        -- eexists. rewrite lookup_insert_eq. split; [done | cbn; congruence].
        -- exists z. by rewrite lookup_insert_ne.
      * intros z. rewrite Et, lookup_insert_eq. intros [= <-]. destruct s as [p'|]; [| done]. by destruct Hs as (-> & r0 & ->).
      * intros _. destruct (Hm Hcalls) as [t Ht]. exists t. intros r' z Hr' Hz. destruct (decide (r' = top c)) as [-> |].
        -- rewrite lookup_insert_eq in Hz. injection Hz as <-. by destruct (Ht _ x Hr' Hx).
        -- rewrite lookup_insert_ne in Hz by done. auto.
    + rewrite lookup_insert_ne by done. intros Hc1. destruct (i_procs p' c1 Hc1) as [l Hl]. exists l.
      eapply proc_change; try done. intros Htop. destruct (at_top _ _ _ _ _ H Hc1) as [HO' _]. congruence.
  - intros r' p' HO'. rewrite lookup_insert_is_Some. destruct (decide (p = p')); [by left | right; eauto].
  - intros r'. rewrite (waiting_set _ _ _ _ x) by done. rewrite i_queue. by apply (waiting_move _ _ _ p c c').
  - intros p' c1. destruct (decide (p' = p)) as [-> |]; [rewrite lookup_insert_eq; intros [= <-]; done |].
    rewrite lookup_insert_ne by done. apply i_rip.
  - intros r' p' z Hz Hr. destruct (decide (r' = top c)) as [-> |].
    + rewrite lookup_insert_eq in Hz. injection Hz as <-. cbn in Hr. subst s. destruct Hs as (-> & r0 & ->). exists r0. by rewrite lookup_insert_eq.
    + rewrite lookup_insert_ne in Hz by done. destruct (i_sleep r' p' z Hz Hr) as [r1 Hp']. exists r1. rewrite lookup_insert_ne; [done |].
      intros ->. rewrite Hc in Hp'. by injection Hp' as ->.
Qed.

(** What wakeup does when there is a process asleep. *)
Definition woken (q : addr) (y y' : sys) : Prop :=
  ∃ p r0 x, y_rpcs y !! q = Some x ∧ mr_r x = Some p ∧ y_procs y !! p = Some (Pasleep r0 q) ∧
    y' = setpc p (Pwoken r0 q) (setrpc q (x <| mr_r := None |>) y).

(** A request knows of a process only while it sleeps. *)
Definition napping (y : sys) : Prop :=
  ∀ r p x, y_rpcs y !! r = Some x → mr_r x = Some p → ∃ r0, y_procs y !! p = Some (Pasleep r0 r).

Lemma wakeup_ok y q :
  napping y →
  match wakeup q y with
  | Ok (b, y') => if b : bool then woken q y y' else y' = y
  | Err => False
  | Ub => y_rpcs y !! q = None
  end.
Proof.
  intros H. unfold wakeup, getrpc. destruct (y_rpcs y !! q) as [x|] eqn:Hx; [| done]. cbn [res_of_option mbind res_bind].
  destruct (mr_r x) as [p|] eqn:Hr; [| done]. destruct (H q p x Hx Hr) as [r0 Hp]. rewrite Hp. by exists p, r0, x.
Qed.

Lemma inv_woken O D q y y' : inv O D y → woken q y y' → inv O D y'.
Proof. intros H (p & r0 & x & Hx & Hr & Hp & ->). apply (inv_nap O D y p (Pasleep r0 q) (Pwoken r0 q) x None); plain. Qed.

Lemma woken_setpc q y y' p c c' : woken q y y' → y_procs y !! p = Some c → ¬ sleeps c → woken q (setpc p c' y) (setpc p c' y').
Proof.
  intros (p' & r0 & x & Hx & Hr & Hp & ->) Hc Hs. assert (p' ≠ p) as Hne by (intros ->; rewrite Hc in Hp; by injection Hp as ->).
  exists p', r0, x. cbn [y_rpcs y_procs setpc update]. rewrite lookup_insert_ne by done. split_and!; try done.
  apply (f_equal (λ m, mkSys _ _ _ _ m)). cbn [y_procs setpc setrpc update]. by apply insert_insert_ne.
Qed.

Lemma gate_loop_ok l y :
  napping y → (∀ q, q ∈ l → is_Some (y_rpcs y !! q)) →
  ∃ y', gate_loop l y = Ok y' ∧
    (y' = y ∧ (∀ q x, q ∈ l → y_rpcs y !! q = Some x → mr_done x = false → mr_r x = None) ∨
     ∃ q x, y_rpcs y !! q = Some x ∧ mr_done x = false ∧ woken q y y').
Proof.
  intros H. induction l as [|q l IH]; intros Hl; cbn [gate_loop]; [exists y; split; [done |]; left; split; [done |]; intros ?? Hin; by apply list.elem_of_nil in Hin |].
  destruct (Hl q) as [x Hx]; [by left |]. destruct IH as (y1 & Hy1 & Hy1'); [intros; apply Hl; by right |].
  unfold getrpc. rewrite Hx. cbn [res_of_option mbind res_bind].
  assert ((mr_done x = true ∨ mr_r x = None) → ∃ y', gate_loop l y = Ok y' ∧
    (y' = y ∧ (∀ q' z, q' ∈ q :: l → y_rpcs y !! q' = Some z → mr_done z = false → mr_r z = None) ∨
     ∃ q' z, y_rpcs y !! q' = Some z ∧ mr_done z = false ∧ woken q' y y')) as Hcons.
  { intros Hq. exists y1. split; [done |]. destruct Hy1' as [[-> Hall] | Hw]; [left | by right]. split; [done |].
    intros q' z [-> | Hin]%list.elem_of_cons Hz Hd; [| by eapply Hall]. rewrite Hx in Hz. injection Hz as <-. destruct Hq; congruence. }
  destruct (mr_done x) eqn:Hd; [apply Hcons; by left |].
  pose proof (wakeup_ok y q H) as Hw. unfold wakeup, getrpc in Hw |- *. rewrite Hx in Hw |- *. cbn [res_of_option mbind res_bind] in Hw |- *.
  destruct (mr_r x) as [p|] eqn:Hr; [| apply Hcons; by right].
  destruct (y_procs y !! p) as [[] |]; try done. cbn [mbind res_bind]. eexists. split; [done |]. right. by exists q, x.
Qed.

Lemma inv_setrip O D y v :
  inv O D y → (∀ p c, y_procs y !! p = Some c → reads c → v = Some p) → inv O D (setmnt ((y_mnt y) <| m_rip := v |>) y).
Proof. intros [] Hv. by split. Qed.

(** ** Requests made and freed *)

Lemma linked_insert rpcs r x l : r ∉ l → linked rpcs l → linked (<[r:=x]> rpcs) l.
Proof. intros Hr. apply linked_same. intros r' z Hin Hz. exists z. rewrite lookup_insert_ne; [done |]. by intros ->. Qed.

Section Grow.
Variables (O : gmap addr (option addr)) (D : gmap addr (Fcall * list Block)) (y : sys).
Variables (p r : addr) (x x' : Mntrpc) (a : Mntalloc) (next : addr) (c' : pc) (l : list addr).
Hypothesis (H : inv O D y).
Hypothesis (Hnew : ∀ p, O !! r ≠ Some (Some p)) (Hmr : ∀ p, mr_r x = Some p → ∃ z, y_rpcs y !! r = Some z ∧ mr_r z = Some p).
Hypothesis (Hheap : heap_ok (<[r := Some p]> O) (<[r := x]> (y_rpcs y)) a next).
Hypothesis (Er : mr_r x' = mr_r x) (Ed : mr_done x' = false) (Ef : mr_flushed x' = head l).
Hypothesis (Et : f_tag (mr_request x') = f_tag (mr_request x)) (Hok : rpc_ok x').
Hypothesis (Hown : ∀ r', r' ∈ l ↔ O !! r' = Some (Some p)) (Hnd : NoDup l) (Hlinked : linked (y_rpcs y) l).
Hypothesis (Hlast : list.last (r :: l) = Some (base c')).
Hypothesis (Hc : ∀ c, y_procs y !! p = Some c → ¬ sleeps c ∧ ∀ r', enqueued c r').
Hypothesis (Hc' : c' = Penq (base c') r ∨ c' = Pelse r ∧ l = []).
Hypothesis (Hmine : calls c' → ∃ t, (∀ r z, r ∈ l → y_rpcs y !! r = Some z → mine D (m_msize (y_mnt y)) t r z) ∧
  mine (delete r D) (m_msize (y_mnt y)) t r x').

Lemma grow_place : top c' = r ∧ ¬ sleeps c' ∧ ¬ reads c' ∧ ¬ enqueued c' r ∧ pc_ok p c' x' ∧ (∀ r', r' ∈ l → r' ≠ r → enqueued c' r').
Proof using Ed Hc'.
  destruct Hc' as [E | [E El]]; rewrite E, ?El; cbn; split_and!; try done; try tauto. by intros r' ?%list.elem_of_nil.
Qed.

Lemma grow_awake : mr_r x' = None.
Proof using H Hnew Hmr Er.
  destruct (mr_r x) as [p'|] eqn:Hr; [| congruence]. destruct (Hmr p' eq_refl) as (z & Hz & Hzr).
  destruct (sleeper _ _ _ _ _ _ H Hz Hzr) as [HO _]. by destruct (Hnew p').
Qed.

Lemma grow_out p' c l' : proc_ok O D (y_rpcs y) (m_msize (y_mnt y)) p' c l' → r ∉ l'.
Proof using Hnew. intros Hl' Hin%(p_owns _ _ _ _ _ _ _ Hl'). by destruct (Hnew p'). Qed.

Lemma grow_l : r ∉ l.
Proof using Hnew Hown. intros Hin%Hown. by destruct (Hnew p). Qed.

Lemma grow_self : proc_ok (<[r := Some p]> O) (delete r D) (<[r:=x']> (y_rpcs y)) (m_msize (y_mnt y)) p c' (r :: l).
Proof using Hlinked Hnd Hown Hnew Hc' Ed Ef Hlast Hmine.
  destruct grow_place as (Htop & _ & _ & _ & Hpc & _). pose proof grow_l as Hrl. split; [split | | |].
  - by rewrite Htop.
  - done.
  - by apply list.NoDup_cons.
  - split; [exists x'; by rewrite lookup_insert_eq |]. by apply linked_insert.
  - intros r'. rewrite list.elem_of_cons. destruct (decide (r' = r)) as [-> |]; [rewrite lookup_insert_eq; tauto |].
    rewrite lookup_insert_ne, <- Hown by done. tauto.
  - intros z. rewrite Htop, lookup_insert_eq. by intros [= <-].
  - intros Hcalls. destruct (Hmine Hcalls) as (t & Hold & Hx'). exists t. intros r' z Hin Hz. destruct (decide (r' = r)) as [-> |].
    + rewrite lookup_insert_eq in Hz. by injection Hz as <-.
    + rewrite lookup_insert_ne in Hz by done. apply list.elem_of_cons in Hin as [? | Hin]; [done |].
      destruct (Hold r' z Hin Hz). split; try done. unfold answer in *. by rewrite lookup_delete_ne.
Qed.

Lemma grow_other p' c : p' ≠ p → y_procs y !! p' = Some c →
  ∃ l', proc_ok (<[r := Some p]> O) (delete r D) (<[r:=x']> (y_rpcs y)) (m_msize (y_mnt y)) p' c l'.
Proof using H Hnew.
  intros Hne Hp'. destruct (i_procs _ _ _ H p' c Hp') as [l' Hl']. exists l'. pose proof (grow_out _ _ _ Hl') as Hrl'.
  eapply proc_frame; [done | |].
  - intros r'. destruct (decide (r' = r)) as [-> |]; [| by rewrite lookup_insert_ne].
    rewrite lookup_insert_eq. split; [congruence |]. intros HOr. by destruct (Hnew p').
  - intros r' Hin. assert (r ≠ r') by (intros E; by rewrite E in Hrl'). by rewrite lookup_insert_ne, lookup_delete_ne.
Qed.

Lemma grow_waiting r' : waiting O (y_rpcs y) (y_procs y) r' ↔ waiting (<[r := Some p]> O) (<[r:=x']> (y_rpcs y)) (<[p:=c']> (y_procs y)) r'.
Proof using H Hnew Hown Hc Hc' Ed.
  destruct grow_place as (_ & _ & _ & Henq & _ & Henq'). unfold waiting. destruct (decide (r' = r)) as [-> | Hne].
  - split; intros (p' & c1 & z & HOr & Hc1 & He & Hz & Hd); [by destruct (Hnew p') |].
    rewrite lookup_insert_eq in HOr. injection HOr as <-. rewrite lookup_insert_eq in Hc1. injection Hc1 as Hc1. rewrite <- Hc1 in He. by destruct Henq.
  - rewrite lookup_insert_ne by done. split; intros (p' & c1 & z & HOr & Hc1 & He & Hz & Hd).
    + assert (<[r:=x']> (y_rpcs y) !! r' = Some z) as Hz' by by rewrite lookup_insert_ne. destruct (decide (p' = p)) as [-> |].
      * exists p, c', z. rewrite lookup_insert_eq. split_and!; try done. apply Henq'; [by apply Hown | done].
      * exists p', c1, z. by rewrite lookup_insert_ne.
    + rewrite lookup_insert_ne in Hz by done. destruct (decide (p' = p)) as [-> |].
      * destruct (i_live _ _ _ H r' p HOr) as [c Hp]. destruct (Hc c Hp) as [_ Hall]. by exists p, c, z.
      * rewrite lookup_insert_ne in Hc1 by done. by exists p', c1, z.
Qed.

(** The process [p] has got the request [r], in front of those it had. *)
Lemma inv_grow : inv (<[r := Some p]> O) (delete r D) (mkSys (<[r:=x']> (y_rpcs y)) (y_mnt y) a next (<[p:=c']> (y_procs y))).
Proof using All.
  destruct grow_place as (_ & Hsl & Hrd & _). pose proof grow_awake as Hnone. pose proof H as H0. destruct H0.
  split; cbn [y_rpcs y_mnt y_alloc y_next y_procs]; try done.
  - rewrite <- (insert_insert_eq (y_rpcs y) r x' x). eapply heap_set; [done | by rewrite lookup_insert_eq | done | done].
  - intros p' c1. destruct (decide (p' = p)) as [-> | Hne].
    + rewrite lookup_insert_eq. intros [= <-]. exists (r :: l). apply grow_self.
    + rewrite lookup_insert_ne by done. by apply grow_other.
  - intros r' p'. destruct (decide (r' = r)) as [-> |].
    + rewrite lookup_insert_eq. intros [= <-]. by rewrite lookup_insert_eq.
    + rewrite lookup_insert_ne, lookup_insert_is_Some by done. intros ?. destruct (decide (p = p')); [by left | right; eauto].
  - intros r'. rewrite i_queue. apply grow_waiting.
  - intros p' c1. destruct (decide (p' = p)) as [-> |]; [rewrite lookup_insert_eq; by intros [= <-] |]. rewrite lookup_insert_ne by done. apply i_rip.
  - intros r' p' z Hz Hr. destruct (decide (r' = r)) as [-> |]; [rewrite lookup_insert_eq in Hz; congruence |].
    rewrite lookup_insert_ne in Hz by done. destruct (i_sleep r' p' z Hz Hr) as [r1 Hp']. exists r1. rewrite lookup_insert_ne; [done |].
    intros ->. destruct (Hc _ Hp') as [Hn _]. by apply Hn.
Qed.
End Grow.

Section Shrink.
Variables (O O' : gmap addr (option addr)) (D : gmap addr (Fcall * list Block)) (y : sys) (rpcs' : gmap addr Mntrpc) (a' : Mntalloc).
Variables (p r : addr) (c : pc) (l : list addr) (oc : option pc).
Hypothesis (H : inv O D y) (Hp : y_procs y !! p = Some c).
Hypothesis (Hl : proc_ok O D (y_rpcs y) (m_msize (y_mnt y)) p c (r :: l)) (Hs : ¬ sleeps c) (Hnot : ¬ waiting O (y_rpcs y) (y_procs y) r).
Hypothesis (Hheap : heap_ok O' rpcs' a' (y_next y)).
Hypothesis (Hsame : ∀ r', r' ≠ r → O' !! r' = O !! r' ∧ rpcs' !! r' = y_rpcs y !! r') (Hgone : ∀ p, O' !! r ≠ Some (Some p)).
Hypothesis (Hrest : ∀ x, rpcs' !! r = Some x → y_rpcs y !! r = Some x).
Hypothesis (Hoc : match oc with
                  | Some c' => head l = Some (top c') ∧ base c' = base c ∧ calls c ∧ ¬ sleeps c' ∧ ¬ reads c' ∧
                      (∀ r', enqueued c' r') ∧ (∀ r', enqueued c r') ∧ ∀ x, pc_ok p c' x
                  | None => l = []
                  end).

Lemma shrink_l : (r ∉ l) ∧ ∀ r', r' ∈ l ↔ O' !! r' = Some (Some p).
Proof using Hl Hsame Hgone.
  destruct Hl as [[_ _ Hnd _] Hown _ _]. apply list.NoDup_cons in Hnd as [Hnin _]. split; [done |]. intros r'.
  destruct (decide (r' = r)) as [-> | Hne].
  - split; [done |]. intros HO. by destruct (Hgone p).
  - destruct (Hsame r' Hne) as [-> _]. rewrite <- Hown, list.elem_of_cons. tauto.
Qed.

Lemma shrink_self c' : oc = Some c' → proc_ok O' D rpcs' (m_msize (y_mnt y)) p c' l.
Proof using Hl Hsame Hgone Hoc.
  intros E. rewrite E in Hoc. destruct Hoc as (Ht & Hb & Hcalls & _ & _ & _ & _ & Hpc), shrink_l as [Hnin Hown'].
  destruct Hl as [[_ Hlast Hnd Hlinked] Hown _ Hm]. apply list.NoDup_cons in Hnd as [_ Hnd].
  assert (∀ r', r' ∈ l → rpcs' !! r' = y_rpcs y !! r') as Hr'.
  { intros r' Hin. apply Hsame. intros E'. by rewrite E' in Hin. }
  split; [split; try done | done | done |].
  - rewrite Hb. by destruct l.
  - destruct Hlinked as [_ Hlinked]. eapply linked_same; [| exact Hlinked]. intros r' z Hin Hz. exists z. by rewrite Hr'.
  - intros _. destruct (Hm Hcalls) as [t Ht']. exists t. intros r' z Hin Hz. rewrite Hr' in Hz by done. apply Ht'; [by right | done].
Qed.

Lemma shrink_other p' c1 : p' ≠ p → y_procs y !! p' = Some c1 → ∃ l', proc_ok O' D rpcs' (m_msize (y_mnt y)) p' c1 l'.
Proof using H Hp Hl Hsame Hgone.
  intros Hne Hp'. destruct (i_procs _ _ _ H p' c1 Hp') as [l' Hl']. exists l'.
  assert (O !! r = Some (Some p)) as HOr by (apply (p_owns _ _ _ _ _ _ _ Hl); by left).
  eapply proc_frame; [done | |].
  - intros r'. destruct (decide (r' = r)) as [-> | Hr']; [| by destruct (Hsame r' Hr') as [-> _]]. rewrite HOr. split; [| congruence]. intros HO. by destruct (Hgone p').
  - intros r' Hin%(p_owns _ _ _ _ _ _ _ Hl'). split; [| done]. apply Hsame. intros E. rewrite E in Hin. congruence.
Qed.

Lemma shrink_waiting r' : waiting O (y_rpcs y) (y_procs y) r' ↔ waiting O' rpcs' (partial_alter (λ _, oc) p (y_procs y)) r'.
Proof using H Hp Hl Hnot Hsame Hgone Hoc.
  destruct (decide (r' = r)) as [-> | Hne]; [split; [done | intros (p' & ? & ? & HO & _); by destruct (Hgone p')] |].
  unfold waiting. destruct (Hsame r' Hne) as [-> ->]. split; intros (p' & c1 & z & HOr & Hc1 & He & Hz & Hd); (destruct (decide (p' = p)) as [E |]; [rewrite E in *; clear p' E |]).
  - assert (r' ∈ l) as Hin. { apply (p_owns _ _ _ _ _ _ _ Hl), list.elem_of_cons in HOr as [? | ?]; done. }
    destruct oc as [c'|] eqn:E; [| rewrite Hoc in Hin; by apply list.elem_of_nil in Hin].
    exists p, c', z. rewrite lookup_partial_alter_eq. by destruct Hoc as (_ & _ & _ & _ & _ & Hall & _).
  - exists p', c1, z. by rewrite lookup_partial_alter_ne.
  - rewrite lookup_partial_alter_eq in Hc1. rewrite Hc1 in Hoc. exists p, c, z. by destruct Hoc as (_ & _ & _ & _ & _ & _ & Hall & _).
  - rewrite lookup_partial_alter_ne in Hc1 by done. by exists p', c1, z.
Qed.

(** The process [p] has freed the first of its requests, and maybe has left. *)
Lemma inv_shrink : inv O' D (mkSys rpcs' (y_mnt y) a' (y_next y) (partial_alter (λ _, oc) p (y_procs y))).
Proof using All.
  pose proof H as H0. destruct H0. assert (O !! r = Some (Some p)) as HOr by (apply (p_owns _ _ _ _ _ _ _ Hl); by left).
  split; cbn [y_rpcs y_mnt y_alloc y_next y_procs]; try done.
  - intros p' c1. destruct (decide (p' = p)) as [-> | Hne].
    + rewrite lookup_partial_alter_eq. intros E. exists l. by apply shrink_self.
    + rewrite lookup_partial_alter_ne by done. by apply shrink_other.
  - intros r' p' HO. destruct (decide (p' = p)) as [-> | Hne].
    + apply shrink_l in HO. rewrite lookup_partial_alter_eq. destruct oc; [by eexists | rewrite Hoc in HO; by apply list.elem_of_nil in HO].
    + rewrite lookup_partial_alter_ne by done. apply (i_live r'). destruct (decide (r' = r)) as [-> | Hr']; [by destruct (Hgone p') |].
      by destruct (Hsame r' Hr') as [<- _].
  - intros r'. rewrite i_queue. apply shrink_waiting.
  - intros p' c1. destruct (decide (p' = p)) as [-> | Hne]; [| rewrite lookup_partial_alter_ne by done; apply i_rip].
    rewrite lookup_partial_alter_eq. intros E Hrd. rewrite E in Hoc. by destruct Hoc as (_ & _ & _ & _ & Hn & _).
  - intros r' p' z Hz Hr. assert (y_rpcs y !! r' = Some z) as Hz'.
    { destruct (decide (r' = r)) as [-> | Hr']; [auto | by destruct (Hsame r' Hr') as [_ <-]]. }
    destruct (i_sleep r' p' z Hz' Hr) as [r0 Hp']. exists r0. rewrite lookup_partial_alter_ne; [done |]. intros E. rewrite <- E, Hp in Hp'.
    injection Hp' as E'. apply Hs. by rewrite E'.
Qed.
End Shrink.
