(* ===== verification/MntStep.v ===== *)
(** * MntStep: every step of the mount driver keeps its invariant *)

From S2P Require Import Prelude Bytes Fcall FcallProps Qio QioProps Srv Mnt MntRead MntInv MntSys.

(** What callers of mountrpc and the environment do. *)
Definition step_ok (s : step) : Prop :=
  match s with
  | Scall _ req => fcall_wt req ∧ encodable req ∧ f_type req ≠ mtype_code Tflush
  | Sread _ ins => Forall bread_ok ins
  | _ => True
  end.

(** The replies given since each request was made. *)
Definition noted (o : out) (D : gmap addr (Fcall * list Block)) : gmap addr (Fcall * list Block) :=
  match o with
  | Onew r => delete r D
  | Odeliver (Some q) f b => <[q := (f, b)]> D
  | _ => D
  end.

Definition exhausted (y : sys) : Prop := ∀ t, 0 < t < NOTAG → ∃ r x, y_rpcs y !! r = Some x ∧ f_tag (mr_request x) = t.

Section Steps.
Variables (headroom : Z → Z) (blockalign : Z).
Hypothesis Hhead : ∀ n, 0 ≤ headroom n.
Hypothesis Halign : 0 < blockalign.

(** What is shown of a step from [y] that gives [o]. *)
Definition kept (D : gmap addr (Fcall * list Block)) (y : sys) (gone : Prop) (o : res (out * sys)) : Prop :=
  match o with
  | Ok (e, y') => (∃ O, inv O (noted e D) y') ∧ m_msize (y_mnt y') = m_msize (y_mnt y)
  | Err => exhausted y
  | Ub => gone
  end.

Lemma kept_quiet D y gone O y' : inv O D y' → m_msize (y_mnt y') = m_msize (y_mnt y) → kept D y gone (y ← Ok y'; Ok (Onone, y)).
Proof. intros H Hm. split; [by exists O | done]. Qed.

Lemma getrpc_top O D y p c : inv O D y → y_procs y !! p = Some c → ∃ x, y_rpcs y !! top c = Some x ∧ getrpc y (top c) = Ok x.
Proof. intros H Hc. destruct (at_top _ _ _ _ _ H Hc) as [_ [x Hx]]. exists x. split; [done |]. unfold getrpc. by rewrite Hx. Qed.

Lemma holds_one rpcs c l : holds rpcs c l → top c = base c → l = [top c].
Proof.
  intros [Ht Hb Hn Hl] E. destruct l as [|r l]; [done |]. injection Ht as ->. destruct l as [|r' l]; [done |]. exfalso.
  apply list.NoDup_cons in Hn as [Hn _]. apply Hn. apply last_Some in Hb as [l' Hl']. destruct l' as [|a l']; [done |]. injection Hl' as _ Hl'.
  rewrite Hl', E. apply list.elem_of_app. right. by left.
Qed.

Ltac mv H p c' := eapply (inv_move _ _ _ p _ c' H); [eassumption | done | done | done | by intros [] | by intros [] | done | | ].

(** *** Steps that change the place of the process only, or its own request *)

Lemma step_gate O D y p r0 r gone :
  inv O D y → y_procs y !! p = Some (Pgate r0 r) →
  kept D y gone (y ← Ok (if decide (m_rip (y_mnt y) = None) then setpc p (Preading r0 r) (setmnt ((y_mnt y) <| m_rip := Some p |>) y)
                        else setpc p (Pdoze r0 r) y); Ok (Onone, y)).
Proof.
  intros H Hc. case_decide as Hrip; apply (kept_quiet _ _ _ O); try done.
  - assert (inv O D (setmnt ((y_mnt y) <| m_rip := Some p |>) y)) as H1.
    { apply inv_setrip; [done |]. intros p' c' Hc' Hrd. rewrite (i_rip _ _ _ H p' c' Hc' Hrd) in Hrip. done. }
    mv H1 p (Preading r0 r); done.
  - mv H p (Pdoze r0 r); done.
Qed.

Lemma step_freeing O D y p r0 r e gone :
  inv O D y → y_procs y !! p = Some (Pfreeing r0 r e) →
  kept D y gone (y ← flushfree_test p r0 r e y; Ok (Onone, y)).
Proof.
  intros H Hc. unfold flushfree_test. destruct (getrpc_top _ _ _ _ _ H Hc) as (x & Hx & Hg). cbn [top] in *. rewrite Hg. cbn [mbind res_bind].
  destruct (mr_done x) eqn:Hd; apply (kept_quiet _ _ _ O); try done.
  - mv H p (Pfreed r0 r e); [| done]. intros z Hz. cbn in *. congruence.
  - set (x' := x <| mr_reply := _ |>).
    assert (inv O D (setrpc r x' y)) as H1.
    { eapply inv_request; try done.
      - destruct (i_heap _ _ _ H). by destruct (hp_rpcs r x Hx).
      - unfold answer. cbn [x' mr_done update]. by rewrite Hd.
      - intros p' c' Hc' Htop. destruct c'; cbn; rewrite ?Hd; tauto. }
    mv H1 p (Pqrm r0 r e); [| done]. intros z. cbn [setrpc y_rpcs update top]. rewrite lookup_insert_eq. intros [= <-]. by right.
Qed.

Lemma step_qrm O D y p r0 r e gone :
  inv O D y → y_procs y !! p = Some (Pqrm r0 r e) →
  kept D y gone (y ← (y ← mntqrm r y; Ok (setpc p (Pfreed r0 r e) y)); Ok (Onone, y)).
Proof.
  intros H Hc. unfold mntqrm. destruct (getrpc_top _ _ _ _ _ H Hc) as (x & Hx & Hg). cbn [top] in *. rewrite Hg. cbn [mbind res_bind].
  apply (kept_quiet _ _ _ O); [| done]. set (x' := x <| mr_done := true |>).
  destruct (i_procs _ _ _ H p _ Hc) as [l Hl]. pose proof (p_pc _ _ _ _ _ _ _ Hl x Hx) as Hpc. cbn in Hpc.
  destruct (at_top _ _ _ _ _ H Hc) as [HO _]. cbn [top] in HO.
  destruct (unlink_spec r (m_queue (y_mnt y)) (i_nodup _ _ _ H)) as [Hnd Hin].
  assert (inv O D (setrpc r x' (setmnt ((y_mnt y) <| m_queue := unlink r (m_queue (y_mnt y)) |>) y))) as H1.
  { eapply inv_change; try done.
    - destruct (i_heap _ _ _ H). by destruct (hp_rpcs r x Hx).
    - unfold answer. cbn [x' mr_done mr_reply mr_b mr_request update]. destruct (mr_done x); [done |]. intros _. right. by destruct Hpc.
    - intros p' c' Hc' Htop. destruct (at_top _ _ _ _ _ H Hc') as [HO' _]. rewrite Htop in HO'. assert (p' = p) as -> by congruence.
      rewrite Hc in Hc'. injection Hc' as <-. by left.
    - apply (i_stream _ _ _ H).
    - intros r'. cbn [m_queue update x' mr_done]. rewrite Hin. naive_solver. }
  mv H1 p (Pfreed r0 r e); [| done]. intros z. cbn [setrpc y_rpcs update top]. rewrite lookup_insert_eq. by intros [= <-].
Qed.

(** *** Wakeups *)

Lemma inv_napping O D y : inv O D y → napping y.
Proof. intros H r p x. apply (i_sleep _ _ _ H). Qed.

(** mntgate, in a process that then goes on to [c']. *)
Lemma gate_ok O D y p c c' :
  inv O D y → y_procs y !! p = Some c → m_rip (y_mnt y) = Some p → ¬ sleeps c → inv O D (setpc p c' y) → ¬ reads c' →
  ∃ y', mntgate y = Ok y' ∧ inv O D (setpc p c' y') ∧ m_msize (y_mnt y') = m_msize (y_mnt y).
Proof.
  intros H Hc Hrip Hs H1 Hrd. unfold mntgate. set (y0 := setmnt ((y_mnt y) <| m_rip := None |>) y).
  assert (inv O D (setpc p c' y0)) as H0.
  { apply (inv_setrip O D (setpc p c' y) None H1). intros p' c1 Hc1 Hrd1. cbn [setpc y_procs update] in Hc1.
    destruct (decide (p' = p)) as [-> |]; [rewrite lookup_insert_eq in Hc1; injection Hc1 as <-; done |].
    rewrite lookup_insert_ne in Hc1 by done. rewrite (i_rip _ _ _ H p' c1 Hc1 Hrd1) in Hrip. congruence. }
  destruct (gate_loop_ok (m_queue (y_mnt y)) y0) as (y' & Hy' & Hcase); [apply (inv_napping _ _ _ H) | |].
  { intros q Hq. apply (i_queue _ _ _ H) in Hq as (? & ? & z & _ & _ & _ & Hz & _). by exists z. }
  exists y'. rewrite Hy'. split; [done |]. destruct Hcase as [[-> _] | (q & _ & _ & _ & Hw)]; [done |]. split.
  - eapply inv_woken; [exact H0 |]. by apply (woken_setpc q y0 y' p c c').
  - by destruct Hw as (? & ? & ? & _ & _ & _ & ->).
Qed.

Lemma step_release O D y p r0 r gone :
  inv O D y → y_procs y !! p = Some (Prelease r0 r) → kept D y gone (y ← (y ← mntgate y; Ok (setpc p (Pfreeing r0 r None) y)); Ok (Onone, y)).
Proof.
  intros H Hc. destruct (gate_ok O D y p (Prelease r0 r) (Pfreeing r0 r None) H Hc) as (y' & -> & H' & Hm); [| by intros [] | | by intros [] |].
  - by apply (i_rip _ _ _ H p _ Hc).
  - mv H p (Pfreeing r0 r None); done.
  - by apply (kept_quiet _ _ _ O).
Qed.

Lemma step_fault O D y p r0 r e gone :
  inv O D y → y_procs y !! p = Some (Pfault r0 r e) →
  kept D y gone (y ← (y ← (if decide (m_rip (y_mnt y) = Some p) then mntgate y else Ok y);
             Ok (setpc p (if decide (e = Eintr) then Pflush r0 r else Pfreeing r0 r (Some e)) y)); Ok (Onone, y)).
Proof.
  intros H Hc. set (c' := if decide (e = Eintr) then _ else _).
  assert (inv O D (setpc p c' y)) as H1 by (unfold c'; case_decide; [mv H p (Pflush r0 r) | mv H p (Pfreeing r0 r (Some e))]; done).
  case_decide as Hrip; [| by apply (kept_quiet _ _ _ O)].
  destruct (gate_ok O D y p (Pfault r0 r e) c' H Hc Hrip) as (y' & -> & H' & Hm); [by intros [] | done | unfold c'; case_decide; by intros [] |].
  by apply (kept_quiet _ _ _ O).
Qed.

Lemma step_waking O D y p r0 r q :
  inv O D y → y_procs y !! p = Some (Pwaking r0 r q) →
  kept D y (y_rpcs y !! q = None) (y ← ('(_, y) ← wakeup q y; Ok (setpc p (Preading r0 r) y)); Ok (Onone, y)).
Proof.
  intros H Hc. pose proof (wakeup_ok y q (inv_napping _ _ _ H)) as Hw.
  assert (inv O D (setpc p (Preading r0 r) y)) as H1.
  { mv H p (Preading r0 r); [done |]. intros _. by apply (i_rip _ _ _ H p _ Hc). }
  destruct (wakeup q y) as [[b y'] | |]; [| done | done]. destruct b; [| subst y'; by apply (kept_quiet _ _ _ O)].
  apply (kept_quiet _ _ _ O); [| by destruct Hw as (? & ? & ? & _ & _ & _ & ->)].
  eapply inv_woken; [exact H1 |]. eapply woken_setpc; [done | done | by intros []].
Qed.

(** *** mountmux *)

Lemma findtag_ok y l tag :
  (∀ q, q ∈ l → is_Some (y_rpcs y !! q)) →
  match findtag y l tag with
  | Ok (Some q) => q ∈ l ∧ ∃ x, y_rpcs y !! q = Some x ∧ f_tag (mr_request x) = tag
  | Ok None => ∀ q x, q ∈ l → y_rpcs y !! q = Some x → f_tag (mr_request x) ≠ tag
  | _ => False
  end.
Proof.
  induction l as [|q l IH]; intros Hl; cbn [findtag]; [intros ?? Hin; by apply list.elem_of_nil in Hin |].
  destruct (Hl q) as [x Hx]; [by left |]. unfold getrpc. rewrite Hx. cbn [res_of_option mbind res_bind].
  case_decide as Ht; [split; [by left | by exists x] |]. specialize (IH (λ q' Hq', Hl q' (base.list_elem_of_further _ _ _ Hq'))).
  destruct (findtag y l tag) as [[q'|] | |]; try done.
  - destruct IH as [? ?]. split; [by right | done].
  - intros q' z [-> | Hin]%list.elem_of_cons Hz; [congruence | by eapply IH].
Qed.

Lemma queue_live O D y q : inv O D y → q ∈ m_queue (y_mnt y) → is_Some (y_rpcs y !! q).
Proof. intros H (? & ? & z & _ & _ & _ & Hz & _)%(i_queue _ _ _ H). by exists z. Qed.

Lemma step_mux O D y p r0 r gone :
  inv O D y → y_procs y !! p = Some (Pmux r0 r) →
  kept D y gone (x ← getrpc y r;
    '(q, y) ← mountmux r y;
    Ok (Odeliver q (mr_reply x) (mr_b x), setpc p (match q with
                                                   | Some q => if decide (q = r) then Preading r0 r else Pwaking r0 r q
                                                   | None => Preading r0 r
                                                   end) y)).
Proof.
  intros H Hc. destruct (getrpc_top _ _ _ _ _ H Hc) as (x & Hx & Hg). cbn [top] in *. unfold mountmux. rewrite !Hg. cbn [mbind res_bind].
  pose proof (findtag_ok y (m_queue (y_mnt y)) (f_tag (mr_reply x)) (λ q, queue_live _ _ _ q H)) as Hf.
  destruct (findtag y _ _) as [[q|] | |]; try done; cbn [mbind res_bind].
  2: { split; [exists O | done]. mv H p (Preading r0 r); [done |]. intros _. by apply (i_rip _ _ _ H p _ Hc). }
  destruct Hf as (Hq & z & Hz & Htag). pose (c' := if decide (q = r) then Preading r0 r else Pwaking r0 r q).
  destruct (i_procs _ _ _ H p _ Hc) as [l Hl]. pose proof (p_pc _ _ _ _ _ _ _ Hl x Hx) as Hdone. cbn in Hdone.
  pose proof (i_rip _ _ _ H p _ Hc I) as Hrip.
  assert (inv O D (setpc p c' y)) as H1 by (unfold c'; case_decide; [mv H p (Preading r0 r) | mv H p (Pwaking r0 r q)]; done).
  assert (∀ p' c1, y_procs (setpc p c' y) !! p' = Some c1 → match c1 with Pmux _ _ => False | _ => True end) as Hnomux.
  { intros p' c1 Hc1. cbn [setpc y_procs update] in Hc1. destruct (decide (p' = p)) as [-> |].
    - rewrite lookup_insert_eq in Hc1. injection Hc1 as <-. unfold c'. by case_decide.
    - rewrite lookup_insert_ne in Hc1 by done. destruct c1; try done. pose proof (i_rip _ _ _ H p' _ Hc1 I). congruence. }
  assert (chain_ok (mr_b x)) as Hb by (destruct (i_heap _ _ _ H); by destruct (hp_rpcs r x Hx)).
  destruct (decide (q = r)) as [Hqr | Hqr] eqn:Hdec.
  - assert (c' = Preading r0 r) as Ec by done. rewrite Ec in H1, Hnomux. clear c' Ec Hdec. subst q.
    cbn [mbind res_bind]. rewrite decide_True by done. split; [exists O | done].
    pose proof (inv_deliver O D _ r x (mr_reply x) (mr_b x) H1 (λ p' c1 Hc1 _, Hnomux p' c1 Hc1) Hq Hx) as Hd.
    replace (x <| mr_done := true |>) with (x <| mr_reply := mr_reply x |> <| mr_b := mr_b x |> <| mr_done := true |>) by by destruct x.
    apply Hd; [congruence | done].
  - unfold getrpc. cbn [unqueue setmnt y_rpcs update]. rewrite Hz. cbn [res_of_option mbind res_bind]. rewrite Hdec. split; [exists O | done].
    assert (c' = Pwaking r0 r q) as Ec by done. rewrite Ec in H1, Hnomux. clear Hdec.
    assert (inv O D (setrpc r (x <| mr_b := [] |>) (setpc p (Pwaking r0 r q) y))) as H2.
    { eapply inv_request; try done; [constructor |].
      unfold answer. cbn [mr_done update]. by rewrite Hdone. }
    eapply (inv_deliver O D _ q z (mr_reply x) (mr_b x) H2 (λ p' c1 Hc1 _, Hnomux p' c1 Hc1) Hq); [| congruence | done].
    cbn [setrpc setpc y_rpcs update]. by rewrite lookup_insert_ne.
Qed.

(** *** Requests made and freed *)

Lemma done_not_waiting O D y p c x :
  inv O D y → y_procs y !! p = Some c → y_rpcs y !! top c = Some x → mr_done x = true ∨ ¬ enqueued c (top c) →
  ¬ waiting O (y_rpcs y) (y_procs y) (top c).
Proof.
  intros H Hc Hx Hor (p' & c' & z & HO & Hc' & He & Hz & Hd). destruct (at_top _ _ _ _ _ H Hc) as [HO' _].
  assert (p' = p) as -> by congruence. assert (c' = c) as -> by congruence. destruct Hor; [congruence | done].
Qed.

(** A process frees its last request and leaves. *)
Lemma leave_ok O D y p c x :
  inv O D y → y_procs y !! p = Some c → y_rpcs y !! top c = Some x → mr_done x = true ∨ ¬ enqueued c (top c) → top c = base c → ¬ sleeps c →
  ∃ O' y', mntfree (top c) y = Ok y' ∧ inv O' D (y' <| y_procs := delete p (y_procs y') |>) ∧ y_mnt y' = y_mnt y.
Proof.
  intros H Hc Hx Hor Hbase Hs. destruct (i_procs _ _ _ H p c Hc) as [l Hl].
  pose proof (holds_one _ _ _ (p_holds _ _ _ _ _ _ _ Hl) Hbase) as ->.
  destruct (mntfree_ok O (top c) p y (i_heap _ _ _ H)) as (O' & rpcs' & a' & Hfree & Hheap & Hsame & Hgone & Hrest); [by destruct (at_top _ _ _ _ _ H Hc) |].
  eexists O', _. split; [exact Hfree |]. split; [| done].
  apply (inv_shrink O O' D y rpcs' a' p (top c) c [] None); try done. by eapply done_not_waiting.
Qed.

Lemma step_else O D y p r gone :
  inv O D y → y_procs y !! p = Some (Pelse r) → kept D y gone (y ← (y ← mntfree r y; Ok (y <| y_procs := delete p (y_procs y) |>)); Ok (Onone, y)).
Proof.
  intros H Hc. destruct (getrpc_top _ _ _ _ _ H Hc) as (x & Hx & _).
  destruct (leave_ok O D y p _ x H Hc Hx) as (O' & y' & Hf & H' & Hm); [by right; intros [] | done | by intros [] |]. cbn [top] in Hf. rewrite Hf.
  apply (kept_quiet _ _ _ O'); [done |]. cbn [mbind res_bind]. cbn [y_mnt update]. by rewrite Hm.
Qed.

Lemma step_done O D y p r0 e gone :
  inv O D y → y_procs y !! p = Some (Pdone r0 e) →
  kept D y gone (x ← getrpc y r0; y ← mntfree r0 y; Ok (Oreturn r0 (mountrpc_result x e), y <| y_procs := delete p (y_procs y) |>)).
Proof.
  intros H Hc. destruct (getrpc_top _ _ _ _ _ H Hc) as (x & Hx & Hg). destruct (i_procs _ _ _ H p _ Hc) as [l Hl].
  destruct (leave_ok O D y p _ x H Hc Hx) as (O' & y' & Hf & H' & Hm); [left; by apply (p_pc _ _ _ _ _ _ _ Hl) | done | by intros [] |].
  cbn [top] in Hf, Hg. rewrite Hg. cbn [mbind res_bind]. rewrite Hf. split; [by exists O' | cbn [y_mnt update]; by rewrite Hm].
Qed.

Lemma step_freed O D y p r0 r e gone :
  inv O D y → y_procs y !! p = Some (Pfreed r0 r e) →
  kept D y gone (y ← flushfree_next p r0 r e y; Ok (Onone, y)).
Proof.
  intros H Hc. unfold flushfree_next. destruct (getrpc_top _ _ _ _ _ H Hc) as (x & Hx & Hg). cbn [top] in *. rewrite Hg. cbn [mbind res_bind].
  destruct (i_procs _ _ _ H p _ Hc) as [l Hl]. pose proof (p_pc _ _ _ _ _ _ _ Hl x Hx) as Hdone. cbn in Hdone.
  destruct (p_holds _ _ _ _ _ _ _ Hl) as [Ht Hb _ Hlk]. destruct l as [|r' l]; [done |]. injection Ht as ->. cbn [top] in *.
  destruct Hlk as [(x' & Hx' & Hfl) _]. rewrite Hx in Hx'. injection Hx' as <-. rewrite Hfl. destruct l as [|fr l]; cbn [head].
  - injection Hb as ->. apply (kept_quiet _ _ _ O); [| done]. mv H p (Pdone r0 e); [| done]. intros z Hz. cbn in *. congruence.
  - destruct (mntfree_ok O r p y (i_heap _ _ _ H)) as (O' & rpcs' & a' & -> & Hheap & Hsame & Hgone & Hrest); [by destruct (at_top _ _ _ _ _ H Hc) |].
    apply (kept_quiet _ _ _ O'); [| done].
    apply (inv_shrink O O' D y rpcs' a' p r (Pfreed r0 r e) (fr :: l) (Some (Pfreeing r0 fr e))); try done; [by intros [] | | by split_and!; plain].
    eapply (done_not_waiting O D y p (Pfreed r0 r e)); [done.. | by left].
Qed.

Lemma none_owned O D y p : inv O D y → y_procs y !! p = None → ∀ r, r ∈ @nil addr ↔ O !! r = Some (Some p).
Proof.
  intros H Hp r. rewrite list.elem_of_nil. split; [done |]. intros HO. destruct (i_live _ _ _ H r p HO) as [c Hc]. congruence.
Qed.

Lemma encodable_tag f t : encodable f → encodable (f <| f_tag := t |>).
Proof. done. Qed.

Lemma step_call O D y p req gone :
  inv O D y → y_procs y !! p = None → fcall_wt req → encodable req → f_type req ≠ mtype_code Tflush →
  kept D y gone ('(r, y) ← mntralloc (m_msize (y_mnt y)) y;
            x ← getrpc y r;
            Ok (Onew r, setpc p (Penq r r) (setrpc r (x <| mr_request := req <| f_tag := f_tag (mr_request x) |> |>
              <| mr_reply := (mr_reply x) <| f_tag := 0 |> <| f_type := Tmax |> |>) y))).
Proof.
  intros H Hp Hwt Henc Hty. pose proof (mntralloc_ok O (m_msize (y_mnt y)) y (i_heap _ _ _ H)) as Hal.
  destruct (mntralloc _ y) as [[r y'] | |]; [| done | done]. destruct Hal as (x & a & next & -> & [Hd Hf Hb Hr _] & Hnew & Hmr & Hheap).
  unfold getrpc. cbn [mbind res_bind y_rpcs]. rewrite lookup_insert_eq. cbn [res_of_option mbind res_bind]. split; [| done].
  pose proof (Hheap p) as Hh. exists (<[r := Some p]> O). set (x' := (x <| mr_request := _ |>) <| mr_reply := _ |>).
  unfold setpc, setrpc. cbn [y_rpcs y_mnt y_alloc y_next y_procs update]. rewrite insert_insert_eq.
  assert (is_u16 (f_tag (mr_request x))) as Htag.
  { destruct Hh. pose proof (hp_range r x (lookup_insert_eq _ _ _)) as Hx. change NOTAG with 65535 in Hx. ranges. lia. }
  eapply (inv_grow O D y p r x x' a next (Penq r r) []); try done.
  - split; [by apply fcall_wt_tag | cbn; rewrite Hb; constructor].
  - by eapply none_owned.
  - constructor.
  - congruence.
  - by left.
  - intros _. exists (f_tag (mr_request x)). split; [intros ?? Hin; by apply list.elem_of_nil in Hin |]. split; cbn; try done.
    + unfold answer. cbn. by rewrite Hd, lookup_delete_eq.
    + by rewrite Hf.
Qed.

Lemma step_other O D y p msize gone :
  inv O D y → y_procs y !! p = None → kept D y gone ('(r, y) ← mntralloc msize y; Ok (Onew r, setpc p (Pelse r) y)).
Proof.
  intros H Hp. pose proof (mntralloc_ok O msize y (i_heap _ _ _ H)) as Hal.
  destruct (mntralloc _ y) as [[r y'] | |]; [| done | done]. destruct Hal as (x & a & next & -> & [Hd Hf Hb Hr Hwt] & Hnew & Hmr & Hheap).
  cbn [mbind res_bind]. split; [| done]. exists (<[r := Some p]> O).
  eapply (inv_grow O D y p r x x a next (Pelse r) []); try done.
  - split; [done | rewrite Hb; constructor].
  - by eapply none_owned.
  - constructor.
  - congruence.
  - by right.
Qed.

Lemma flush_request f old : fcall_wt f → is_u16 old →
  fcall_wt (f <| f_type := mtype_code Tflush |> <| f_oldtag := old |>) ∧ encodable (f <| f_type := mtype_code Tflush |> <| f_oldtag := old |>).
Proof. intros [] Ho. split; [by constructor | done]. Qed.

Lemma step_flush O D y p r0 r gone :
  inv O D y → y_procs y !! p = Some (Pflush r0 r) →
  kept D y gone ('(fr, y) ← mntflushalloc r (m_msize (y_mnt y)) y; Ok (Onew fr, setpc p (Penq r0 fr) y)).
Proof.
  intros H Hc. destruct (getrpc_top _ _ _ _ _ H Hc) as (z & Hz & _). destruct (at_top _ _ _ _ _ H Hc) as [HO _]. cbn [top] in *.
  destruct (i_procs _ _ _ H p _ Hc) as [l [[Ht Hlast Hnd Hlk] Hown _ Hm]]. cbn [top base] in *. destruct (Hm I) as [t Hmine].
  pose proof (mntralloc_ok O (m_msize (y_mnt y)) y (i_heap _ _ _ H)) as Hal. unfold mntflushalloc.
  destruct (mntralloc _ y) as [[fr y'] | |]; [| done | done]. destruct Hal as (x & a & next & -> & [Hd Hf Hb Hr Hwt] & Hnew & Hmr & Hheap).
  assert (fr ≠ r) as Hne by (intros ->; by destruct (Hnew p)).
  unfold getrpc. cbn [mbind res_bind y_rpcs]. rewrite (lookup_insert_ne _ fr r) by done. rewrite Hz. cbn [res_of_option mbind res_bind].
  rewrite lookup_insert_eq. cbn [res_of_option mbind res_bind]. split; [| done].
  set (old := if decide _ then _ else _). set (x' := (x <| mr_request := _ |>) <| mr_flushed := _ |>).
  pose proof (Hheap p) as Hh. exists (<[fr := Some p]> O). unfold setpc, setrpc. cbn [y_rpcs y_mnt y_alloc y_next y_procs update]. rewrite insert_insert_eq.
  assert (r ∈ l) as Hin by (by apply Hown). destruct (Hmine r z Hin Hz) as [_ _ _ Hfl].
  assert (old = t) as Hold.
  { unfold old. destruct (mr_flushed z); destruct Hfl as [Hty ?]; [by rewrite decide_True | by rewrite decide_False]. }
  assert (is_u16 old) as Hu.
  { destruct (i_heap _ _ _ H). destruct (hp_rpcs r z Hz) as [[] _]. unfold old. by case_decide. }
  eapply (inv_grow O D y p fr x x' a next (Penq r0 fr) l); try done.
  - split; [by apply flush_request | cbn; rewrite Hb; constructor].
  - cbn. by destruct l.
  - intros c Hc1. rewrite Hc in Hc1. injection Hc1 as <-. split; [by intros [] | done].
  - by left.
  - intros _. exists t. split; [done |]. split; cbn.
    + by apply flush_request.
    + done.
    + unfold answer. cbn. by rewrite Hd, lookup_delete_eq.
    + done.
Qed.

(** *** Every step *)

(** The one way in which a step can use a request that has been freed. *)
Definition stale (s : step) (y : sys) : Prop := ∃ p r0 r q, s = Sgo p ∧ y_procs y !! p = Some (Pwaking r0 r q) ∧ y_rpcs y !! q = None.

Lemma kept_gone D y (gone gone' : Prop) o : (gone → gone') → kept D y gone o → kept D y gone' o.
Proof. by destruct o. Qed.

Lemma go_kept O D y p c o :
  inv O D y → y_procs y !! p = Some c → go p c y = Some o → kept D y (stale (Sgo p) y) o.
Proof.
  intros H Hc. destruct c; cbn [go]; unfold quiet; intros [= <-] || (destruct (getrpc_top _ _ _ _ _ H Hc) as (x & Hx & Hg); cbn [top] in * ).
  - by eapply step_else.
  - split; [exists O; by apply inv_enqueue | done].
  - by eapply step_gate.
  - destruct (getrpc_top _ _ _ _ _ H Hc) as (x & Hx & Hg); cbn [top] in *. rewrite Hg. apply (kept_quiet _ _ _ O); [| done].
    destruct (mr_done x); [mv H p (Pfreeing r0 r None) | mv H p (Pgate r0 r)]; done.
  - rewrite Hx. destruct (mr_done x) eqn:Hd; [| done]. intros [= <-]. apply (kept_quiet _ _ _ O); [| done].
    mv H p (Prelease r0 r); [done |]. intros _. by apply (i_rip _ _ _ H p _ Hc).
  - by eapply step_mux.
  - eapply kept_gone; [| by eapply step_waking]. intros Hq. by exists p, r0, r, q.
  - by eapply step_release.
  - by eapply step_fault.
  - by eapply step_flush.
  - by eapply step_freeing.
  - by eapply step_qrm.
  - by eapply step_freed.
  - by eapply step_done.
Qed.

Lemma request_size_ok O D y p r0 r :
  inv O D y → y_procs y !! p = Some (Pwrite r0 r) → 0 < m_msize (y_mnt y) → ∃ n, request_size y r = Ok n.
Proof.
  intros H Hc Hms. destruct (getrpc_top _ _ _ _ _ H Hc) as (x & Hx & Hg). cbn [top] in *. unfold request_size. rewrite Hg. cbn [mbind res_bind].
  rewrite decide_False by lia. destruct (i_procs _ _ _ H p _ Hc) as [l [Hh _ _ Hm]]. destruct (holds_top _ _ _ Hh) as [Hin _]. destruct (Hm I) as [t Hmine].
  destruct (Hmine r x Hin Hx) as [Henc Hroom _ _]. destruct (i_heap _ _ _ H). destruct (hp_rpcs r x Hx) as [Hwt _].
  destruct (encode_message (mr_request x) (m_msize (y_mnt y)) Hwt Henc) as (n & _ & _ & _ & Hsmall & Hbig).
  destruct (decide (m_msize (y_mnt y) < n)) as [Hlt | Hge]; [rewrite Hsmall by done; by eexists |].
  destruct Hbig as (out & -> & Hlen & _); [lia |]. rewrite decide_False by lia. by eexists.
Qed.

Lemma step_sleep O D y p r0 r intr gone :
  inv O D y → y_procs y !! p = Some (Pdoze r0 r) →
  kept D y gone (y ← (x ← getrpc y r;
                 if intr : bool then Ok (setpc p (Pfault r0 r Eintr) y)
                 else if rpcattn y x then Ok (setpc p (Pafter r0 r) y)
                 else Ok (setpc p (Pasleep r0 r) (setrpc r (x <| mr_r := Some p |>) y))); Ok (Onone, y)).
Proof.
  intros H Hc. destruct (getrpc_top _ _ _ _ _ H Hc) as (x & Hx & Hg). cbn [top] in *. rewrite Hg. cbn [mbind res_bind].
  destruct intr; [apply (kept_quiet _ _ _ O); [mv H p (Pfault r0 r Eintr) |]; done |].
  destruct (rpcattn y x); (apply (kept_quiet _ _ _ O); [| done]); [mv H p (Pafter r0 r); done |].
  apply (inv_nap O D y p (Pdoze r0 r) (Pasleep r0 r) x (Some p)); plain. split; [done | by exists r0].
Qed.

Lemma step_intr O D y p r0 r gone :
  inv O D y → y_procs y !! p = Some (Pasleep r0 r) →
  kept D y gone (y ← (x ← getrpc y r; Ok (setpc p (Pfault r0 r Eintr) (setrpc r (x <| mr_r := None |>) y))); Ok (Onone, y)).
Proof.
  intros H Hc. destruct (getrpc_top _ _ _ _ _ H Hc) as (x & Hx & Hg). cbn [top] in *. rewrite Hg. cbn [mbind res_bind].
  apply (kept_quiet _ _ _ O); [| done]. apply (inv_nap O D y p (Pasleep r0 r) (Pfault r0 r Eintr) x None); plain.
Qed.

(** A process that is reading has got something, or has failed. *)
Lemma read_kept O D y p r0 r x reply rb q c' :
  inv O D y → y_procs y !! p = Some (Preading r0 r) → y_rpcs y !! r = Some x → mr_done x = false → mq_ok q → chain_ok rb →
  c' = Pmux r0 r ∨ (∃ e, c' = Pfault r0 r e) →
  inv O D (setpc p c' (setrpc r (x <| mr_reply := reply |> <| mr_b := rb |>) (setmnt ((y_mnt y) <| m_q := q |>) y))).
Proof.
  intros H Hc Hx Hd Hq Hrb Hc'. set (x' := (x <| mr_reply := reply |>) <| mr_b := rb |>).
  assert (inv O D (setrpc r x' (setmnt ((y_mnt y) <| m_q := q |>) y))) as H1.
  { eapply inv_change; try done.
    - unfold answer. cbn. by rewrite Hd.
    - intros p' c1 Hc1 Htop. destruct (at_top _ _ _ _ _ H Hc1) as [HO _], (at_top _ _ _ _ _ H Hc) as [HO' _].
      rewrite Htop in HO. cbn [top] in HO'. assert (p' = p) as -> by congruence. rewrite Hc in Hc1. by injection Hc1 as <-.
    - apply (i_nodup _ _ _ H).
    - intros r'. cbn [m_queue update]. split; [| tauto]. intros Hin. split; [done |]. intros ->. done. }
  destruct Hc' as [-> | [e ->]].
  - mv H1 p (Pmux r0 r); [| intros _; apply (i_rip _ _ _ H1 p _ Hc I)].
    intros z. cbn [setrpc y_rpcs update top]. rewrite lookup_insert_eq. by intros [= <-].
  - mv H1 p (Pfault r0 r e); done.
Qed.

Lemma step_read O D y p r0 r x ins gone o :
  inv O D y → y_procs y !! p = Some (Preading r0 r) → y_rpcs y !! r = Some x → mr_done x = false →
  m_msize (y_mnt y) < 2 ^ 31 → Forall bread_ok ins →
  match mntrpcread headroom blockalign (m_msize (y_mnt y)) ins (mr_reply x) (mr_b x) (m_q (y_mnt y)) with
  | Ok (Rsleep, _, _, _, _) | Ok (_, _, _, _, _ :: _) => None
  | Ok (o, reply, b, q, []) =>
      quiet (Ok (setpc p (match o with
                          | Rdone => Pmux r0 r
                          | Rraise e => Pfault r0 r e
                          | _ => Pfault r0 r Emountrpc
                          end)
                   (setrpc r (x <| mr_reply := reply |> <| mr_b := b |>) (setmnt ((y_mnt y) <| m_q := q |>) y))))
  | Err => Some Err
  | Ub => Some Ub
  end = Some o → kept D y gone o.
Proof.
  intros H Hc Hx Hd Hms Hins.
  assert (chain_ok (mr_b x)) as Hb by (destruct (i_heap _ _ _ H); by destruct (hp_rpcs r x Hx)).
  destruct (mntrpcread_ok headroom blockalign Hhead Halign (m_msize (y_mnt y)) ins (mr_reply x) (mr_b x) (m_q (y_mnt y)))
    as (o1 & reply & rb & q & used & rest & -> & _ & Hq & Hrb & _); [apply (i_stream _ _ _ H) | done.. |].
  destruct o1, rest; try done; intros [= <-]; (apply (kept_quiet _ _ _ O); [| done]); eapply read_kept; eauto.
Qed.

Lemma perform_kept O D y s o :
  inv O D y → 0 < m_msize (y_mnt y) < 2 ^ 31 → step_ok s → perform headroom blockalign s y = Some o → kept D y (stale s y) o.
Proof.
  intros H Hms Hok. destruct s as [p req | p msize | p w | p intr | p | p ins | p]; cbn [perform step_ok] in *;
    destruct (y_procs y !! p) as [c|] eqn:Hc; try done.
  - intros [= <-]. destruct Hok as (? & ? & ?). by eapply step_call.
  - intros [= <-]. by eapply step_other.
  - destruct c; try done. intros [= <-]. destruct (request_size_ok _ _ _ _ _ _ H Hc) as [n ->]; [lia |]. apply (kept_quiet _ _ _ O); [| done].
    destruct w as [e | k]; [mv H p (Pfault r0 r e); done |]. case_decide; [mv H p (Pgate r0 r) | mv H p (Pfault r0 r Emountrpc)]; done.
  - destruct c; try done; intros [= <-]; [by eapply step_sleep |]. apply (kept_quiet _ _ _ O); [| done].
    destruct intr; [mv H p (Pfault r0 r Eintr) | mv H p (Pafter r0 r)]; done.
  - destruct c; try done. intros [= <-]. by eapply step_intr.
  - destruct c; try done. destruct (getrpc_top _ _ _ _ _ H Hc) as (x & Hx & _). cbn [top] in Hx. rewrite Hx.
    destruct (mr_done x) eqn:Hd; [done |]. apply (step_read O D y p r0 r x ins _ o H Hc Hx Hd); [lia | done].
  - by eapply go_kept.
Qed.
End Steps.
