(* ===== verification/MntRun.v ===== *)
(** * MntRun: what the mount driver guarantees

    The theorems on the states that processes can reach from a connection that nobody uses,
    and runs of particular interest. *)

From S2P Require Import Prelude Bytes Fcall FcallProps Qio QioProps Srv Mnt MntRead MntInv MntSys MntStep.

(** ** The beginning *)

Lemma tagmask0_ok : tagmask_ok tagmask0.
Proof.
  unfold tagmask0. split; [cbn [length]; rewrite length_app, length_replicate; done |].
  apply Forall_cons_iff. split; [done |]. apply Forall_app. split; [by apply Forall_replicate | by apply Forall_cons_iff].
Qed.

Lemma tagmask0_bits t : 0 ≤ t < 65536 → tagbit tagmask0 t = true ↔ t = 0 ∨ t = NOTAG.
Proof.
  intros Ht. destruct (mask_at _ t tagmask0_ok Ht) as (k & v & j & Hk & Hj & ->). rewrite (mask_word _ _ _ tagmask0_ok Hk) by done.
  change NOTAG with 65535. unfold tagmask0 in Hk. destruct k as [|k].
  - injection Hk as <-. change 1 with (2 ^ 0). rewrite Z.pow2_bits_eqb, Z.eqb_eq by lia. lia.
  - cbn [lookup list_lookup] in Hk. apply lookup_app_Some in Hk as [[Hv Hk]%lookup_replicate | [Hge Hk]].
    + subst v. rewrite Z.bits_0. change NMASK with 2048 in Hk. split; [done | lia].
    + rewrite length_replicate in *. change (Z.to_nat (NMASK - 2)) with 2046%nat in *.
      destruct (k - 2046)%nat eqn:E; [| done]. injection Hk as <-. change 2147483648 with (2 ^ 31). rewrite Z.pow2_bits_eqb, Z.eqb_eq by lia. lia.
Qed.

Lemma inv_sys0 msize : inv ∅ ∅ (sys0 msize).
Proof.
  split; cbn [y_rpcs y_mnt y_alloc y_next y_procs sys0 m_queue m_rip m_q].
  - split; cbn [ma_rpcfree ma_nrpcfree ma_nrpcused ma_tagmask]; try done; try (by intros ?? []).
    + intros r. by rewrite !lookup_empty.
    + intros r. rewrite lookup_empty. by intros [? ?].
    + constructor.
    + intros r. by rewrite lookup_empty, list.elem_of_nil.
    + apply tagmask0_ok.
    + intros t Ht. rewrite tagmask0_bits by done. split; [tauto |]. intros [? | [? | (r & x & Hx & _)]]; [tauto.. |]. by rewrite lookup_empty in Hx.
  - intros p c. by rewrite lookup_empty.
  - intros r p. by rewrite lookup_empty.
  - constructor.
  - intros r. rewrite list.elem_of_nil. split; [done |]. intros (p & c & x & HO & _). by rewrite lookup_empty in HO.
  - intros p c. by rewrite lookup_empty.
  - intros r p x. by rewrite lookup_empty.
  - split; [constructor | done].
Qed.

(** ** Runs *)

Section Runs.
Variables (headroom : Z → Z) (blockalign msize : Z).

(** The states that can be reached, with what has happened, the last event first. *)
Inductive reach : list out → sys → Prop :=
  | reach_start : reach [] (sys0 msize)
  | reach_step es y s e y' : reach es y → step_ok s → perform headroom blockalign s y = Some (Ok (e, y')) → reach (e :: es) y'.

(** The reply that mountmux has given to each request since it was made. *)
Definition notes (es : list out) : gmap addr (Fcall * list Block) := foldr noted ∅ es.

Hypothesis Hhead : ∀ n, 0 ≤ headroom n.
Hypothesis Halign : 0 < blockalign.
Hypothesis Hmsize : 0 < msize < 2 ^ 31.

Lemma mount_inv es y : reach es y → (∃ O, inv O (notes es) y) ∧ m_msize (y_mnt y) = msize.
Proof.
  induction 1 as [| es y s e y' Hr [[O IH] Hm] Hs Hp]; [split; [exists ∅; apply inv_sys0 | done] |].
  pose proof (perform_kept headroom blockalign Hhead Halign O _ y s _ IH ltac:(by rewrite Hm) Hs Hp) as [HO Hm']. split; [done | congruence].
Qed.

(** C29: Whatever processes call, however their reads and writes fail or are interrupted and
    whatever the server sends, no step of a call uses a request that has been freed, or
    panics for want of a process to wake, but that: alloctag panics when every tag is in use;
    and mountmux's wakeup, which comes after its unlock, may find that the request it has
    answered is gone. *)
Theorem mount_safe es y s o :
  reach es y → step_ok s → perform headroom blockalign s y = Some o →
  match o with
  | Ok _ => True
  | Err => ∀ t, 0 < t < NOTAG → ∃ r x, y_rpcs y !! r = Some x ∧ f_tag (mr_request x) = t
  | Ub => ∃ p r0 r q, s = Sgo p ∧ y_procs y !! p = Some (Pwaking r0 r q) ∧ y_rpcs y !! q = None
  end.
Proof.
  intros Hr Hs Hp. destruct (mount_inv es y Hr) as [[O H] Hm].
  pose proof (perform_kept headroom blockalign Hhead Halign O _ y s _ H ltac:(by rewrite Hm) Hs Hp) as Hk. by destruct o.
Qed.

Lemma quiet_out y' e y1 : quiet y' = Some (Ok (e, y1)) → e = Onone.
Proof. unfold quiet. destruct y'; cbn; [by intros [= <- <-] | done..]. Qed.

(** Only mountmux delivers, and only a call that ends returns. *)
Lemma go_out p c y e y' :
  go p c y = Some (Ok (e, y')) →
  match e with Odeliver _ _ _ => ∃ r0 r, c = Pmux r0 r | Oreturn _ _ => ∃ r0 err, c = Pdone r0 err | _ => True end.
Proof.
  intros H. destruct c; cbn [go] in H; try (by apply quiet_out in H as ->); try done.
  - destruct (y_rpcs y !! r) as [z|]; [destruct (mr_done z); [by apply quiet_out in H as -> | done] | done].
  - destruct e; try done; [by eexists _, _ |]. injection H as H. apply bind_Ok in H as (? & _ & H). by apply bind_Ok in H as ([] & _ & H).
  - injection H as H. by apply bind_Ok in H as ([] & _ & [= <- <-]).
  - destruct e; try done; [| by eexists _, _]. injection H as H. apply bind_Ok in H as (? & _ & H). by apply bind_Ok in H as (? & _ & H).
Qed.

Lemma deliver_at y p y' q f b :
  perform headroom blockalign (Sgo p) y = Some (Ok (Odeliver q f b, y')) →
  ∃ r0 r, y_procs y !! p = Some (Pmux r0 r) ∧
    (x ← getrpc y r;
     '(q, y) ← mountmux r y;
     Ok (Odeliver q (mr_reply x) (mr_b x), setpc p (match q with
                                                    | Some q => if decide (q = r) then Preading r0 r else Pwaking r0 r q
                                                    | None => Preading r0 r
                                                    end) y)) = Ok (Odeliver q f b, y').
Proof.
  cbn [perform]. destruct (y_procs y !! p) as [c|]; [| done]. intros Hgo. destruct (go_out _ _ _ _ _ Hgo) as (r0 & r & ->).
  exists r0, r. split; [done |]. by injection Hgo.
Qed.

(** Mountmux gives a reply to the request on the queue that has its tag; there is only one,
    and no other request changes.  When there is none the reply is dropped. *)
Theorem reply_routed es y p y' q f b :
  reach es y → perform headroom blockalign (Sgo p) y = Some (Ok (Odeliver q f b, y')) →
  ∃ r0 r x, y_procs y !! p = Some (Pmux r0 r) ∧ y_rpcs y !! r = Some x ∧ f = mr_reply x ∧ b = mr_b x ∧
    match q with
    | Some q =>
        (∀ q', q' ∈ m_queue (y_mnt y) ∧ (∃ z, y_rpcs y !! q' = Some z ∧ f_tag (mr_request z) = f_tag f) ↔ q' = q) ∧
        (∀ q', q' ∈ m_queue (y_mnt y') ↔ q' ∈ m_queue (y_mnt y) ∧ q' ≠ q) ∧
        (∃ z, y_rpcs y' !! q = Some z ∧ mr_done z = true ∧ mr_reply z = f ∧ mr_b z = b) ∧
        ∀ q', q' ≠ q → q' ≠ r → y_rpcs y' !! q' = y_rpcs y !! q'
    | None =>
        (∀ q z, q ∈ m_queue (y_mnt y) → y_rpcs y !! q = Some z → f_tag (mr_request z) ≠ f_tag f) ∧ y_mnt y' = y_mnt y ∧ y_rpcs y' = y_rpcs y
    end.
Proof.
  intros Hr Hp. destruct (mount_inv es y Hr) as [[O H] _]. destruct (deliver_at _ _ _ _ _ _ Hp) as (r0 & r & Hc & Hgo).
  destruct (getrpc_top _ _ _ _ _ H Hc) as (x & Hx & Hg). cbn [top] in Hx, Hg. exists r0, r, x. rewrite Hg in Hgo. cbn [mbind res_bind] in Hgo.
  pose proof (i_rip _ _ _ H p _ Hc I) as Hrip. unfold mountmux in Hgo. rewrite Hg in Hgo. cbn [mbind res_bind] in Hgo.
  pose proof (findtag_ok y (m_queue (y_mnt y)) (f_tag (mr_reply x)) (λ q, queue_live _ _ _ q H)) as Hf.
  destruct (findtag y _ _) as [[q1|] | |]; try done; cbn [mbind res_bind] in Hgo; [| by injection Hgo as <- <- <- <-].
  destruct Hf as (Hq & z & Hz & Htag). destruct (unlink_spec q1 _ (i_nodup _ _ _ H)) as [_ Hunlink].
  assert (∀ q', q' ∈ m_queue (y_mnt y) ∧ (∃ w, y_rpcs y !! q' = Some w ∧ f_tag (mr_request w) = f_tag (mr_reply x)) ↔ q' = q1) as Huniq.
  { intros q'. split; [| intros ->; split; [done | by exists z]]. intros (_ & w & Hw & Hwt). destruct (i_heap _ _ _ H).
    apply (hp_unique q' q1 w z Hw Hz). congruence. }
  destruct (decide (q1 = r)) as [-> | Hne].
  - cbn [mbind res_bind] in Hgo. rewrite decide_True in Hgo by done. injection Hgo as <- <- <- <-. do 4 (split; [done |]). split; [exact Huniq |].
    cbn [y_mnt y_rpcs setpc setrpc unqueue setmnt m_queue update]. split; [exact Hunlink |]. split.
    + eexists. rewrite lookup_insert_eq. split; [done |]. by replace z with x in * by congruence.
    + intros q' Hq' _. by rewrite lookup_insert_ne.
  - unfold getrpc in Hgo. cbn [unqueue setmnt y_rpcs update] in Hgo. rewrite Hz in Hgo. cbn [res_of_option mbind res_bind] in Hgo.
    injection Hgo as <- <- <- <-. do 4 (split; [done |]). split; [exact Huniq |].
    cbn [y_mnt y_rpcs setpc setrpc unqueue setmnt m_queue update]. split; [exact Hunlink |]. split.
    + eexists. by rewrite lookup_insert_eq.
    + intros q' Hq' Hr'. by rewrite !lookup_insert_ne.
Qed.

Lemma return_at y p y' r0 res :
  perform headroom blockalign (Sgo p) y = Some (Ok (Oreturn r0 res, y')) →
  ∃ e x, y_procs y !! p = Some (Pdone r0 e) ∧ y_rpcs y !! r0 = Some x ∧ res = mountrpc_result x e.
Proof.
  cbn [perform]. destruct (y_procs y !! p) as [c|]; [| done]. intros Hgo. destruct (go_out _ _ _ _ _ Hgo) as (r1 & err & ->).
  cbn [go] in Hgo. injection Hgo as Hgo. apply bind_Ok in Hgo as (x & Hx & Hgo). apply bind_Ok in Hgo as (y1 & _ & Hgo). injection Hgo as <- <- _.
  unfold getrpc in Hx. destruct (y_rpcs y !! r1) as [z|] eqn:Hz; [| done]. injection Hx as <-. by exists err, z.
Qed.


(** The last of a chain of requests flushes nothing, the others do. *)
Lemma linked_flushed rpcs l b r x :
  linked rpcs l → list.last l = Some b → NoDup l → r ∈ l → rpcs !! r = Some x → (mr_flushed x = None ↔ r = b).
Proof.
  induction l as [|r' l IH]; cbn [linked]; [done |]. intros [(x' & Hx' & Hf) Hlk] Hb [Hnin Hnd]%list.NoDup_cons Hin Hx. destruct l as [|r2 l].
  - injection Hb as <-. apply list.elem_of_cons in Hin as [-> | Hin]; [| by apply list.elem_of_nil in Hin].
    rewrite Hx in Hx'. injection Hx' as <-. by rewrite Hf.
  - assert (b ∈ r2 :: l) as Hbin. { apply last_Some in Hb as [l' Hl']. destruct l' as [|? l']; [done |]. injection Hl' as _ ->. apply list.elem_of_app. right. by left. }
    apply list.elem_of_cons in Hin as [-> | Hin]; [| by apply IH].
    rewrite Hx in Hx'. injection Hx' as <-. rewrite Hf. split; [done |]. intros ->. done.
Qed.

Lemma linked_det rpcs l l' : head l = head l' → linked rpcs l → linked rpcs l' → l = l'.
Proof.
  revert l'. induction l as [|r l IH]; intros [|r' l']; cbn; try done. intros [= <-] [(x & Hx & Hf) Hl] [(x' & Hx' & Hf') Hl']. f_equal.
  apply IH; [congruence | done | done].
Qed.

(** The request [r] belongs to the process [p]. *)
Definition held (y : sys) (p r : addr) : Prop := ∃ c l, y_procs y !! p = Some c ∧ holds (y_rpcs y) c l ∧ r ∈ l.

Lemma held_owned O D y p r : inv O D y → held y p r ↔ O !! r = Some (Some p).
Proof.
  intros H. split.
  - intros (c & l & Hc & Hh & Hin). destruct (i_procs _ _ _ H p c Hc) as [l' Hl']. apply (p_owns _ _ _ _ _ _ _ Hl').
    replace l' with l; [done |]. destruct Hh as [Ht _ _ Hl], (p_holds _ _ _ _ _ _ _ Hl') as [Ht' _ _ Hl'']. apply (linked_det (y_rpcs y)); congruence.
  - intros HO. destruct (owner _ _ _ _ _ H HO) as (c & l & Hc & Hl & Hin). exists c, l. split_and!; [done | apply Hl | done].
Qed.

(** C28: Requests are neither lost nor shared: each that exists is in the free list or belongs to
    one call; the counters are right; their tags differ and are the ones marked as used;
    the queue has those that were sent and have no reply; every flush names the request of
    the call that it belongs to. *)
Theorem requests_kept es y :
  reach es y →
  let used t := ∃ r x, y_rpcs y !! r = Some x ∧ f_tag (mr_request x) = t in
  (∀ r, is_Some (y_rpcs y !! r) ↔ r ∈ ma_rpcfree (y_alloc y) ∨ ∃ p, held y p r) ∧
  (∀ r p p', held y p r → (r ∉ ma_rpcfree (y_alloc y)) ∧ (held y p' r → p' = p)) ∧
  ma_nrpcfree (y_alloc y) = Z.of_nat (length (ma_rpcfree (y_alloc y))) ∧
  ma_nrpcused (y_alloc y) + ma_nrpcfree (y_alloc y) = Z.of_nat (size (y_rpcs y)) ∧
  (∀ r r' x x', y_rpcs y !! r = Some x → y_rpcs y !! r' = Some x' → f_tag (mr_request x) = f_tag (mr_request x') → r = r') ∧
  (∀ t, 0 ≤ t < 2 ^ 16 → tagbit (ma_tagmask (y_alloc y)) t = true ↔ t = 0 ∨ t = NOTAG ∨ used t) ∧
  NoDup (m_queue (y_mnt y)) ∧
  (∀ r, r ∈ m_queue (y_mnt y) ↔ ∃ p c x, held y p r ∧ y_procs y !! p = Some c ∧ enqueued c r ∧ y_rpcs y !! r = Some x ∧ mr_done x = false) ∧
  (∀ p c r x, y_procs y !! p = Some c → calls c → held y p r → y_rpcs y !! r = Some x →
    if decide (r = base c) then f_type (mr_request x) ≠ mtype_code Tflush
    else f_type (mr_request x) = mtype_code Tflush ∧ ∃ z, y_rpcs y !! base c = Some z ∧ f_oldtag (mr_request x) = f_tag (mr_request z)).
Proof.
  intros Hr used. destruct (mount_inv es y Hr) as [[O H] _]. pose proof H as H0. destruct H0. destruct i_heap. split_and!; try done.
  - intros r. rewrite <- hp_dom, hp_free. split.
    + intros [[p|] HO]; [right; exists p; by eapply held_owned | by left].
    + intros [-> | [p Hp]]; [by eexists |]. eapply held_owned in Hp as ->; [by eexists | done].
  - intros r p p' Hp. rewrite hp_free. eapply held_owned in Hp; [| done]. split; [congruence |]. intros Hp'. eapply held_owned in Hp'; [| done]. congruence.
  - lia.
  - intros r. rewrite i_queue. unfold waiting. split; intros (p & c & x & Hp & ?); exists p, c, x; (split; [by eapply held_owned |]; done).
  - intros p c r x Hc Hcalls Hheld Hx. eapply held_owned in Hheld; [| done]. destruct (i_procs p c Hc) as [l [[Ht Hb Hnd Hlk] Hown _ Hm]].
    destruct (Hm Hcalls) as [t Hmine]. assert (base c ∈ l) as Hbase.
    { apply last_Some in Hb as [l' ->]. apply list.elem_of_app. right. by left. }
    apply Hown in Hheld as Hin. destruct (linked_lookup _ _ _ Hlk Hbase) as [z Hz].
    pose proof (mi_flush _ _ _ _ _ (Hmine _ _ Hin Hx)) as Hfx. pose proof (mi_flush _ _ _ _ _ (Hmine _ _ Hbase Hz)) as Hfz.
    rewrite (proj2 (linked_flushed _ _ _ _ _ Hlk Hb Hnd Hbase Hz) eq_refl) in Hfz. case_decide as E.
    + subst r. replace x with z by congruence. tauto.
    + destruct (mr_flushed x) eqn:Hfl; [| by apply (linked_flushed _ _ _ _ _ Hlk Hb Hnd Hin Hx) in Hfl]. split; [tauto |]. exists z. split; [done |]. destruct Hfx, Hfz. congruence.
Qed.
End Runs.
