(* ===== verification/MntGate.v ===== *)
(** * MntGate: a process that waits for a reply does not wait in vain

    The gate of mountio: one process at a time reads the connection, and when it leaves it
    wakes another.  While no write fails, other than by an interrupt, there is always
    somebody who reads, or is on the way to. *)

From S2P Require Import Prelude Bytes Fcall FcallProps Qio QioProps Srv Mnt MntRead MntInv MntSys MntStep MntRun.

(** ** The invariant of the gate *)

Definition faults (c : pc) : Prop := match c with Pfault _ _ _ => True | _ => False end.

(** A process on the way to the gate. *)
Definition goes (c : pc) : Prop :=
  match c with
  | Penq _ _ | Pwrite _ _ | Pgate _ _ | Pdoze _ _ | Pwoken _ _ | Pafter _ _ | Pfault _ _ _ | Pflush _ _ => True
  | _ => False
  end.

Definition undone (y : sys) (r : addr) : Prop := ∃ x, y_rpcs y !! r = Some x ∧ mr_done x = false.

Definition heir (y : sys) (p : addr) : Prop := ∃ c, y_procs y !! p = Some c ∧ goes c ∧ undone y (top c).

Record gate (y : sys) : Prop := {
  g_rip : ∀ p, m_rip (y_mnt y) = Some p → ∃ c, y_procs y !! p = Some c ∧ (reads c ∨ faults c);
  g_fault : ∀ p r0 r e, y_procs y !! p = Some (Pfault r0 r e) → e = Eintr ∨ m_rip (y_mnt y) = Some p;
  g_done : ∀ p r0 r, y_procs y !! p = Some (Pasleep r0 r) → undone y r ∨ ∃ p' r0' r', y_procs y !! p' = Some (Pwaking r0' r' r);
  g_heir : ∀ p r0 r, y_procs y !! p = Some (Pasleep r0 r) → undone y r → m_rip (y_mnt y) = None → ∃ p', heir y p'
}.

(** What others see of a step of [p]. *)
Definition apart (p : addr) (y y' : sys) : Prop :=
  ∀ p1 c1, p1 ≠ p → y_procs y !! p1 = Some c1 → undone y' (top c1) ↔ undone y (top c1).

Lemma apart_at O D y y' p r :
  inv O D y → (∀ r', r' ≠ r → y_rpcs y' !! r' = y_rpcs y !! r') → (∀ p1, O !! r = Some (Some p1) → p1 = p) → apart p y y'.
Proof.
  intros H Hsame Hown p1 c1 Hne Hc1. destruct (at_top _ _ _ _ _ H Hc1) as [HO _]. unfold undone. rewrite Hsame; [done |].
  intros E. rewrite E in HO. by apply Hne, Hown.
Qed.

(** A process moves on, or leaves, and the reader stays. *)
Lemma gate_self y y' p oc oc' :
  gate y → y_procs y !! p = oc → y_procs y' = partial_alter (λ _, oc') p (y_procs y) → m_rip (y_mnt y') = m_rip (y_mnt y) → apart p y y' →
  (∀ r0 r q, oc ≠ Some (Pwaking r0 r q)) →
  (∀ r0 r, oc' = Some (Pasleep r0 r) → undone y' r ∧ m_rip (y_mnt y) ≠ None) →
  (∀ r0 r e, oc' = Some (Pfault r0 r e) → e = Eintr ∨ m_rip (y_mnt y) = Some p) →
  (m_rip (y_mnt y) = Some p → ∃ c', oc' = Some c' ∧ (reads c' ∨ faults c')) →
  (∀ c, m_rip (y_mnt y) = None → oc = Some c → goes c → undone y (top c) → ∃ c', oc' = Some c' ∧ goes c' ∧ undone y' (top c')) →
  gate y'.
Proof.
  intros [Grip Gfault Gdone Gheir] Hoc Hprocs Hrip Hap Hnw Has Hft Hrd Hgo.
  assert (y_procs y' !! p = oc') as Hp by (by rewrite Hprocs, lookup_partial_alter_eq).
  assert (∀ p1, p1 ≠ p → y_procs y' !! p1 = y_procs y !! p1) as Hother by (intros; by rewrite Hprocs, lookup_partial_alter_ne).
  split.
  - intros p1. rewrite Hrip. intros H1. destruct (decide (p1 = p)) as [-> |]; [rewrite Hp; auto |]. rewrite Hother by done. auto.
  - intros p1 r0 r e. rewrite Hrip. destruct (decide (p1 = p)) as [-> |]; [rewrite Hp; apply Hft |]. rewrite Hother by done. apply Gfault.
  - intros p1 r0 r Hp1. destruct (decide (p1 = p)) as [-> |]; [rewrite Hp in Hp1; left; by destruct (Has _ _ Hp1) |].
    rewrite Hother in Hp1 by done. destruct (Gdone _ _ _ Hp1) as [Hu | (p' & r0' & r' & Hp')]; [left; by apply (Hap p1 (Pasleep r0 r)) |].
    right. exists p', r0', r'. rewrite Hother; [done |]. intros ->. rewrite Hp' in Hoc. by apply (Hnw r0' r' r).
  - intros p1 r0 r Hp1 Hu. rewrite Hrip. intros Hnone.
    destruct (decide (p1 = p)) as [-> | Hne]; [rewrite Hp in Hp1; by destruct (Has _ _ Hp1) |]. rewrite Hother in Hp1 by done.
    apply (Hap p1 (Pasleep r0 r)) in Hu; [| done | done]. destruct (Gheir _ _ _ Hp1 Hu Hnone) as (p' & c & Hc & Hg & Hcu).
    destruct (decide (p' = p)) as [-> | Hne'].
    + destruct (Hgo c Hnone) as (c' & Hc' & ? & ?); [congruence | done.. |]. exists p, c'. split_and!; [congruence | done | done].
    + exists p', c. rewrite Hother by done. split_and!; try done. by apply (Hap p' c).
Qed.

Lemma gate_move y p c c' :
  gate y → y_procs y !! p = Some c → (∀ r0 r q, c ≠ Pwaking r0 r q) → ¬ sleeps c' →
  (∀ r0 r e, c' = Pfault r0 r e → e = Eintr ∨ m_rip (y_mnt y) = Some p) → (m_rip (y_mnt y) = Some p → reads c' ∨ faults c') →
  (m_rip (y_mnt y) = None → goes c → undone y (top c) → goes c' ∧ undone y (top c')) → gate (setpc p c' y).
Proof.
  intros H Hc Hnw Hs Hft Hrd Hgo. apply (gate_self y _ p (Some c) (Some c') H Hc); try done.
  - intros r0 r q [= E]. by apply (Hnw r0 r q).
  - intros r0 r [= ->]. by destruct Hs.
  - intros r0 r e [= E]. by apply (Hft r0 r e).
  - intros Hrip. exists c'. auto.
  - intros c1 Hnone [= <-] Hg Hu. exists c'. destruct (Hgo Hnone Hg Hu). auto.
Qed.

(** The same, with a change of the process's own request. *)
Lemma gate_own O D y p c c' x' m' :
  inv O D y → gate y → y_procs y !! p = Some c → m_rip m' = m_rip (y_mnt y) → (∀ r0 r q, c ≠ Pwaking r0 r q) →
  (∀ r0 r, c' = Pasleep r0 r → top c = r ∧ mr_done x' = false ∧ m_rip (y_mnt y) ≠ None) →
  (∀ r0 r e, c' = Pfault r0 r e → e = Eintr ∨ m_rip (y_mnt y) = Some p) → (m_rip (y_mnt y) = Some p → reads c' ∨ faults c') →
  (m_rip (y_mnt y) = None → goes c → undone y (top c) → goes c' ∧ mr_done x' = false ∧ top c' = top c) →
  gate (setpc p c' (setrpc (top c) x' (setmnt m' y))).
Proof.
  intros Hi H Hc Hm Hnw Has Hft Hrd Hgo. apply (gate_self y _ p (Some c) (Some c') H Hc); try done.
  - eapply (apart_at O D y _ p (top c) Hi).
    + intros r' Hne. cbn [setpc setrpc setmnt y_rpcs update]. by rewrite lookup_insert_ne.
    + intros p1. destruct (at_top _ _ _ _ _ Hi Hc) as [HO _]. congruence.
  - intros r0 r q [= E]. by apply (Hnw r0 r q).
  - intros r0 r [= E]. destruct (Has r0 r E) as (<- & Hd & Hr). split; [| done]. exists x'. cbn [setpc setrpc setmnt y_rpcs update]. by rewrite lookup_insert_eq.
  - intros r0 r e [= E]. by apply (Hft r0 r e).
  - intros Hrip. exists c'. auto.
  - intros c1 Hnone [= <-] Hg Hu. exists c'. destruct (Hgo Hnone Hg Hu) as (? & ? & ->). split_and!; try done. exists x'.
    cbn [setpc setrpc setmnt y_rpcs update]. by rewrite lookup_insert_eq.
Qed.

Lemma not_reader y p c : gate y → y_procs y !! p = Some c → ¬ reads c → ¬ faults c → m_rip (y_mnt y) ≠ Some p.
Proof. intros H Hc Hr Hf Hrip. destruct (g_rip _ H p Hrip) as (c' & Hc' & Hor). assert (c' = c) as -> by congruence. tauto. Qed.

(** A process becomes the reader. *)
Lemma gate_enter y p r0 r :
  gate y → y_procs y !! p = Some (Pgate r0 r) → m_rip (y_mnt y) = None →
  gate (setpc p (Preading r0 r) (setmnt ((y_mnt y) <| m_rip := Some p |>) y)).
Proof.
  intros [Grip Gfault Gdone Gheir] Hc Hnone. split; cbn [setpc setmnt y_rpcs y_mnt y_procs m_rip update]; try done.
  - intros p1 [= <-]. exists (Preading r0 r). rewrite lookup_insert_eq. split; [done | by left].
  - intros p1 r1 r' e. destruct (decide (p1 = p)) as [-> |]; [by right |]. rewrite lookup_insert_ne by done. intros Hp1.
    destruct (Gfault _ _ _ _ Hp1); [by left | congruence].
  - intros p1 r1 r'. destruct (decide (p1 = p)) as [-> |]; [by rewrite lookup_insert_eq |]. rewrite lookup_insert_ne by done. intros Hp1.
    destruct (Gdone _ _ _ Hp1) as [? | (p' & r0' & r2 & Hp')]; [by left | right]. exists p', r0', r2. rewrite lookup_insert_ne; [done | congruence].
Qed.

(** The reader leaves and wakes one that waits. *)
Lemma gate_leave O D y y' p c c' :
  inv O D y → gate y → y_procs y !! p = Some c → m_rip (y_mnt y) = Some p → (∀ r0 r q, c ≠ Pwaking r0 r q) → ¬ sleeps c → ¬ sleeps c' →
  (∀ r0 r e, c' = Pfault r0 r e → e = Eintr) → mntgate y = Ok y' → gate (setpc p c' y').
Proof.
  intros Hi [Grip Gfault Gdone Gheir] Hc Hrip Hnw Hs Hs' Hft Hgate. unfold mntgate in Hgate. set (y0 := setmnt ((y_mnt y) <| m_rip := None |>) y) in *.
  destruct (gate_loop_ok (m_queue (y_mnt y)) y0) as (y1 & Hy1 & Hcase); [apply (inv_napping _ _ _ Hi) | intros q Hq; apply (queue_live _ _ _ _ Hi Hq) |].
  rewrite Hgate in Hy1. injection Hy1 as <-.
  assert (∀ p1 r1 r e, p1 ≠ p → y_procs y !! p1 = Some (Pfault r1 r e) → e = Eintr) as Hft'.
  { intros p1 r1 r e Hne Hp1. destruct (Gfault _ _ _ _ Hp1); [done | congruence]. }
  destruct Hcase as [[-> Hnobody] | (q & x & Hx & Hd & Hw)].
  - split; cbn [y0 setpc setmnt y_rpcs y_mnt y_procs m_rip update]; [done | | |].
    + intros p1 r1 r e. destruct (decide (p1 = p)) as [-> |]; [rewrite lookup_insert_eq; intros [= E]; left; by eapply Hft |].
      rewrite lookup_insert_ne by done. intros Hp1. left. by eapply Hft'.
    + intros p1 r1 r. destruct (decide (p1 = p)) as [-> |]; [rewrite lookup_insert_eq; intros [= ->]; by destruct Hs' |].
      rewrite lookup_insert_ne by done. intros Hp1. destruct (Gdone _ _ _ Hp1) as [? | (p' & r0' & r' & Hp')]; [by left | right].
      exists p', r0', r'. rewrite lookup_insert_ne; [done |]. intros ->. rewrite Hc in Hp'. injection Hp' as ->. by destruct (Hnw r0' r' r).
    + intros p1 r1 r Hp1 (x & Hx & Hd) _. exfalso. destruct (decide (p1 = p)) as [-> |]; [rewrite lookup_insert_eq in Hp1; injection Hp1 as ->; by destruct Hs' |].
      rewrite lookup_insert_ne in Hp1 by done. destruct (at_top _ _ _ _ _ Hi Hp1) as [HO _]. destruct (i_procs _ _ _ Hi p1 _ Hp1) as [l Hl].
      pose proof (p_pc _ _ _ _ _ _ _ Hl x Hx) as Hpc. cbn in Hpc.
      enough (mr_r x = None) by congruence. apply (Hnobody r x); [| done | done]. apply (i_queue _ _ _ Hi). by exists p1, (Pasleep r1 r), x.
  - destruct Hw as (p2 & r2 & x' & Hx' & Hr & Hp2 & ->). rewrite Hx in Hx'. injection Hx' as <-. set (z := x <| mr_r := None |>).
    cbn [y0 setmnt y_rpcs y_procs update] in Hx, Hp2.
    assert (∀ r, undone y r → undone (setpc p c' (setpc p2 (Pwoken r2 q) (setrpc q z y0))) r) as Hundone.
    { intros r (w & Hw & Hwd). unfold undone. cbn [y0 setpc setrpc setmnt y_rpcs update]. destruct (decide (r = q)) as [-> |].
      - exists z. by rewrite lookup_insert_eq.
      - exists w. by rewrite lookup_insert_ne. }
    assert (p2 ≠ p) as Hne2 by (intros E; rewrite E, Hc in Hp2; injection Hp2 as E'; apply Hs; by rewrite E').
    split; [done | | |].
    + intros p1 r1 r e. cbn [y0 setpc setrpc setmnt y_procs update]. destruct (decide (p1 = p)) as [-> |]; [rewrite lookup_insert_eq; intros [= E]; left; by eapply Hft |].
      rewrite lookup_insert_ne by done. destruct (decide (p1 = p2)) as [-> |]; [by rewrite lookup_insert_eq |]. rewrite lookup_insert_ne by done.
      intros Hp1. left. by eapply Hft'.
    + intros p1 r1 r. cbn [y0 setpc setrpc setmnt y_procs update]. destruct (decide (p1 = p)) as [-> |]; [rewrite lookup_insert_eq; intros [= ->]; by destruct Hs' |].
      rewrite lookup_insert_ne by done. destruct (decide (p1 = p2)) as [-> |]; [by rewrite lookup_insert_eq |]. rewrite lookup_insert_ne by done.
      intros Hp1. destruct (Gdone _ _ _ Hp1) as [? | (p' & r0' & r' & Hp')]; [left; by apply Hundone | right]. exists p', r0', r'.
      rewrite !lookup_insert_ne; [done | congruence |]. intros E. rewrite <- E, Hc in Hp'. injection Hp' as E'. by apply (Hnw r0' r' r).
    + intros _ _ _ _ _ _. exists p2, (Pwoken r2 q). cbn [y0 setpc setrpc setmnt y_procs update]. rewrite lookup_insert_ne, lookup_insert_eq by done.
      split_and!; [done | done |]. apply Hundone. by exists x.
Qed.

(** While [p] reads, it is enough to look after those that have a reply. *)
Lemma gate_reading O D y y' p c :
  inv O D y → gate y → y_procs y !! p = Some c → reads c → m_rip (y_mnt y') = m_rip (y_mnt y) →
  (∃ c', y_procs y' !! p = Some c' ∧ reads c') →
  (∀ p1, p1 ≠ p → y_procs y' !! p1 = y_procs y !! p1 ∨ ∃ r0 r, y_procs y' !! p1 = Some (Pwoken r0 r)) →
  (∀ p1 r0 r, p1 ≠ p → y_procs y' !! p1 = Some (Pasleep r0 r) → y_procs y !! p1 = Some (Pasleep r0 r) →
    undone y r ∨ (∃ r0' r', c = Pwaking r0' r' r) → undone y' r ∨ ∃ r0' r', y_procs y' !! p = Some (Pwaking r0' r' r)) →
  gate y'.
Proof.
  intros Hi [Grip Gfault Gdone Gheir] Hc Hrd Hrip (c' & Hc' & Hrd') Hother Hmain. pose proof (i_rip _ _ _ Hi p c Hc Hrd) as Hp. rewrite Hp in *.
  split.
  - intros p1. rewrite Hrip. intros [= <-]. exists c'. auto.
  - intros p1 r0 r e Hp1. rewrite Hrip. destruct (decide (p1 = p)) as [-> | Hne]; [by right |].
    destruct (Hother p1 Hne) as [E | (? & ? & E)]; [| congruence]. rewrite E in Hp1. destruct (Gfault _ _ _ _ Hp1); [by left | congruence].
  - intros p1 r0 r Hp1. destruct (decide (p1 = p)) as [-> | Hne]; [rewrite Hp1 in Hc'; injection Hc' as <-; done |].
    destruct (Hother p1 Hne) as [E | (? & ? & E)]; [| congruence]. pose proof Hp1 as Hp1'. rewrite E in Hp1'.
    assert (undone y r ∨ ∃ r0' r', c = Pwaking r0' r' r) as Hor.
    { destruct (Gdone _ _ _ Hp1') as [? | (p' & r0' & r' & Hp')]; [by left | right]. pose proof (i_rip _ _ _ Hi p' _ Hp' I) as Hp2.
      assert (p' = p) as -> by congruence. rewrite Hc in Hp'. injection Hp' as ->. by eexists _, _. }
    destruct (Hmain p1 r0 r Hne Hp1 Hp1' Hor) as [? | (r0' & r' & ?)]; [by left | right; by exists p, r0', r'].
  - intros p1 r0 r _ _. congruence.
Qed.

Lemma gate_waking O D y y1 p r0 r q b :
  inv O D y → gate y → y_procs y !! p = Some (Pwaking r0 r q) → wakeup q y = Ok (b, y1) → gate (setpc p (Preading r0 r) y1).
Proof.
  intros Hi H Hc Hw. pose proof (wakeup_ok y q (inv_napping _ _ _ Hi)) as Hspec.
  assert (∀ p1 r1, y_procs y !! p1 = Some (Pasleep r1 q) → ∃ x, y_rpcs y !! q = Some x ∧ mr_r x = Some p1) as Hq.
  { intros p1 r1 Hp1. destruct (at_top _ _ _ _ _ Hi Hp1) as [_ [x Hx]]. destruct (i_procs _ _ _ Hi p1 _ Hp1) as [l Hl].
    exists x. split; [done | apply (p_pc _ _ _ _ _ _ _ Hl x Hx)]. }
  rewrite Hw in Hspec. destruct b.
  - destruct Hspec as (p2 & r2 & x & Hx & Hr & Hp2 & ->). assert (p2 ≠ p) as Hne2 by congruence.
    eapply (gate_reading O D y _ p _ Hi H Hc I); [done | exists (Preading r0 r); split; [apply lookup_insert_eq | done] | |].
    + intros p1 Hne. cbn [setpc setrpc y_procs update]. rewrite lookup_insert_ne by done. destruct (decide (p1 = p2)) as [-> |].
      * right. exists r2, q. by rewrite lookup_insert_eq.
      * left. by rewrite lookup_insert_ne.
    + intros p1 r1 r' Hne. cbn [setpc setrpc y_procs update]. rewrite lookup_insert_ne by done. destruct (decide (p1 = p2)) as [-> |]; [by rewrite lookup_insert_eq |].
      intros _ Hp1 Hor. left. assert (r' ≠ q) as Hr' by (intros ->; destruct (Hq p1 r1 Hp1) as (z & Hz & Hzr); congruence).
      destruct Hor as [(w & Hwx & Hd) | (? & ? & [= _ _ E])]; [| by destruct Hr']. exists w. cbn [setpc setrpc y_rpcs update]. by rewrite lookup_insert_ne.
  - subst y1. eapply (gate_reading O D y _ p _ Hi H Hc I); [done | exists (Preading r0 r); split; [apply lookup_insert_eq | done] | |].
    + intros p1 Hne. left. cbn [setpc y_procs update]. by rewrite lookup_insert_ne.
    + intros p1 r1 r' Hne _ Hp1 [Hu | (? & ? & [= _ _ E])]; left; [done |]. subst r'. destruct (Hq p1 r1 Hp1) as (z & Hz & Hr).
      unfold wakeup, getrpc in Hw. rewrite Hz in Hw. cbn [res_of_option mbind res_bind] in Hw. rewrite Hr in Hw.
      destruct (y_procs y !! p1) as [[] |]; try done.
Qed.

Lemma gate_mux O D y p r0 r q f b y' :
  inv O D y → gate y → y_procs y !! p = Some (Pmux r0 r) →
  (x ← getrpc y r;
   '(q, y) ← mountmux r y;
   Ok (Odeliver q (mr_reply x) (mr_b x), setpc p (match q with
                                                  | Some q => if decide (q = r) then Preading r0 r else Pwaking r0 r q
                                                  | None => Preading r0 r
                                                  end) y)) = Ok (Odeliver q f b, y') → gate y'.
Proof.
  intros Hi H Hc Hgo. destruct (getrpc_top _ _ _ _ _ Hi Hc) as (x & Hx & Hg). cbn [top] in Hx, Hg. rewrite Hg in Hgo. cbn [mbind res_bind] in Hgo.
  unfold mountmux in Hgo. rewrite Hg in Hgo. cbn [mbind res_bind] in Hgo.
  assert (∀ p1 r1 r', p1 ≠ p → y_procs y !! p1 = Some (Pasleep r1 r') → r' ≠ r) as Hnr.
  { intros p1 r1 r' Hne Hp1 ->. destruct (at_top _ _ _ _ _ Hi Hp1) as [HO _], (at_top _ _ _ _ _ Hi Hc) as [HO' _]. cbn [top] in *. congruence. }
  destruct (findtag y _ _) as [[q1|] | |]; try done; cbn [mbind res_bind] in Hgo.
  - destruct (decide (q1 = r)) as [-> | Hne1].
    + cbn [mbind res_bind] in Hgo. rewrite decide_True in Hgo by done. injection Hgo as _ _ _ <-.
      eapply (gate_reading O D y _ p _ Hi H Hc I); [done | exists (Preading r0 r); split; [apply lookup_insert_eq | done] | |].
      * intros p1 Hne. left. cbn [setpc setrpc unqueue setmnt y_procs update]. by rewrite lookup_insert_ne.
      * intros p1 r1 r' Hne _ Hp1 [(z & Hz & Hd) | (? & ? & ?)]; [left | done]. exists z. cbn [setpc setrpc unqueue setmnt y_rpcs update].
        rewrite lookup_insert_ne; [done | by apply not_eq_sym, (Hnr p1 r1)].
    + unfold getrpc in Hgo. cbn [unqueue setmnt y_rpcs update] in Hgo. destruct (y_rpcs y !! q1) as [w|]; [| done].
      cbn [res_of_option mbind res_bind] in Hgo. injection Hgo as _ _ _ <-.
      eapply (gate_reading O D y _ p _ Hi H Hc I); [done | | |].
      * eexists. split; [apply lookup_insert_eq | by rewrite decide_False].
      * intros p1 Hne. left. cbn [setpc setrpc unqueue setmnt y_procs update]. by rewrite lookup_insert_ne.
      * intros p1 r1 r' Hne _ Hp1 [(z & Hz & Hd) | (? & ? & ?)]; [| done]. destruct (decide (r' = q1)) as [-> |].
        -- right. exists r0, r. cbn [setpc setrpc unqueue setmnt y_procs update]. rewrite lookup_insert_eq. by rewrite decide_False.
        -- left. exists z. cbn [setpc setrpc unqueue setmnt y_rpcs update]. rewrite !lookup_insert_ne; [done | by apply not_eq_sym, (Hnr p1 r1) | done].
  - injection Hgo as _ _ _ <-. apply (gate_move y p _ (Preading r0 r) H Hc); try done; [by intros [] | by left].
Qed.

(** *** Requests made and freed *)

Lemma gate_new O D y y' p r x' oc c' :
  inv O D y → gate y → y_procs y !! p = oc → y_procs y' = <[p:=c']> (y_procs y) → y_mnt y' = y_mnt y → y_rpcs y' = <[r:=x']> (y_rpcs y) →
  (∀ p, O !! r ≠ Some (Some p)) → mr_done x' = false →
  oc = None ∧ ¬ faults c' ∧ ¬ sleeps c' ∨ (∃ r0 r1, oc = Some (Pflush r0 r1) ∧ c' = Penq r0 r) → gate y'.
Proof.
  intros Hi H Hoc Hprocs Hm Hrpcs Hnew Hd Hor.
  assert (m_rip (y_mnt y) ≠ Some p) as Hnr.
  { destruct Hor as [[-> _] | (r0 & r1 & -> & _)]; [| by eapply not_reader; [done | done | intros [] | intros []]].
    intros Hrip. destruct (g_rip _ H p Hrip) as (c & Hc & _). congruence. }
  assert (¬ faults c' ∧ ¬ sleeps c') as [Hnf Hns] by (destruct Hor as [? | (? & ? & _ & ->)]; [tauto | split; by intros []]).
  apply (gate_self y y' p oc (Some c') H Hoc Hprocs); try done.
  - by rewrite Hm.
  - eapply (apart_at O D y _ p r Hi); [intros r' Hne; by rewrite Hrpcs, lookup_insert_ne | intros p1 HO; by destruct (Hnew p1)].
  - intros r0 r1 q E. destruct Hor as [[-> _] | (? & ? & -> & _)]; done.
  - intros r0 r1 [= ->]. by destruct Hns.
  - intros r0 r1 e [= ->]. by destruct Hnf.
  - intros c _ E Hg _. destruct Hor as [[-> _] | (r0 & r1 & _ & ->)]; [done |]. exists (Penq r0 r). split_and!; try done.
    exists x'. by rewrite Hrpcs, lookup_insert_eq.
Qed.

(** A process frees its request; it does not read, nor is it on the way to. *)
Lemma gate_free O D y y' p c oc' :
  inv O D y → gate y → y_procs y !! p = Some c → ¬ reads c → ¬ faults c → ¬ goes c → y_mnt y' = y_mnt y →
  y_procs y' = partial_alter (λ _, oc') p (y_procs y) → (∀ r', r' ≠ top c → y_rpcs y' !! r' = y_rpcs y !! r') →
  match oc' with Some c' => ¬ faults c' ∧ ¬ sleeps c' | None => True end → gate y'.
Proof.
  intros Hi H Hc Hr Hf Hg Hm Hprocs Hsame Hoc'. pose proof (not_reader _ _ _ H Hc Hr Hf) as Hnr.
  apply (gate_self y y' p (Some c) oc' H Hc Hprocs); try done.
  - by rewrite Hm.
  - eapply (apart_at O D y _ p (top c) Hi); [done |]. intros p1. destruct (at_top _ _ _ _ _ Hi Hc) as [HO _]. congruence.
  - intros r0 r q [= ->]. by destruct Hr.
  - intros r0 r ->. by destruct Hoc' as [_ []].
  - intros r0 r e ->. by destruct Hoc' as [[] _].
  - intros c1 _ [= <-]. done.
Qed.

(** ** Steady runs *)

(** Writes take the whole message, or are interrupted. *)
Definition steady (s : step) (y : sys) : Prop :=
  match s with
  | Swrite p w => ∀ r0 r, y_procs y !! p = Some (Pwrite r0 r) → w = inl Eintr ∨ ∃ n, w = inr n ∧ request_size y r = Ok n
  | _ => True
  end.

Section Steady.
Variables (headroom : Z → Z) (blockalign msize : Z).
Hypothesis Hhead : ∀ n, 0 ≤ headroom n.
Hypothesis Halign : 0 < blockalign.
Hypothesis Hmsize : 0 < msize < 2 ^ 31.

Ltac gm H Hc c' := apply (gate_move _ _ _ c' H Hc); try done; try (by intros []); try (by left); try (by right).

(** The process is not the reader. *)
Ltac nr H Hc := let Hr := fresh in intros Hr; exfalso; revert Hr; apply (not_reader _ _ _ H Hc); by intros [].

Lemma quiet_inv (y' : res sys) e y1 : quiet y' = Some (Ok (e, y1)) → y' = Ok y1.
Proof. unfold quiet. destruct y'; cbn; [by intros [= _ <-] | done..]. Qed.

Lemma go_gate O D y p c e y' : inv O D y → gate y → y_procs y !! p = Some c → go p c y = Some (Ok (e, y')) → gate y'.
Proof.
  intros Hi H Hc Hgo. pose proof (i_heap _ _ _ Hi) as Hheap. destruct (at_top _ _ _ _ _ Hi Hc) as [HO _].
  destruct (getrpc_top _ _ _ _ _ Hi Hc) as (x & Hx & Hg).
  destruct c; cbn [go top] in *; unfold flushfree_test, flushfree_next, mntqrm in Hgo; try done; try (apply quiet_inv in Hgo); try (rewrite Hg in Hgo; cbn [mbind res_bind] in Hgo).
  - destruct (mntfree_ok O r p y Hheap HO) as (O' & rpcs' & a' & Hf & _ & Hsame & _). rewrite Hf in Hgo. injection Hgo as <-.
    apply (gate_free O D y _ p (Pelse r) None Hi H Hc); plain. intros r' Hne. by destruct (Hsame r' Hne).
  - injection Hgo as <-. apply (gate_self y _ p (Some (Penq r0 r)) (Some (Pwrite r0 r)) H Hc); try done.
    + nr H Hc.
    + intros c1 _ [= <-] _ Hu. by exists (Pwrite r0 r).
  - injection Hgo as <-. case_decide as Hrip; [by apply gate_enter |]. gm H Hc (Pdoze r0 r). nr H Hc.
  - injection Hgo as <-. destruct (mr_done x) eqn:Hd; [gm H Hc (Pfreeing r0 r None) | gm H Hc (Pgate r0 r)];
      try (nr H Hc). intros _ _ (z & Hz & Hzd). cbn in Hz. congruence.
  - rewrite Hx in Hgo. destruct (mr_done x); [| done]. apply quiet_inv in Hgo. injection Hgo as <-. gm H Hc (Prelease r0 r).
  - destruct e as [| | q f b |]; try (injection Hgo as Hgo; by apply bind_Ok in Hgo as ([] & _ & ?)). injection Hgo as Hgo.
    eapply (gate_mux O D y p r0 r q f b); try done. by rewrite Hg.
  - destruct (wakeup q y) as [[b y1] | |] eqn:Hw; try done. injection Hgo as <-. by eapply gate_waking.
  - destruct (mntgate y) as [y1 | |] eqn:Hgate; try done. injection Hgo as <-.
    apply (gate_leave O D y y1 p _ _ Hi H Hc); plain. by apply (i_rip _ _ _ Hi p _ Hc).
  - destruct (g_fault _ H _ _ _ _ Hc) as [-> | Hrip].
    + rewrite (decide_True (P := Eintr = Eintr)) in Hgo by done. case_decide as Hrip.
      * destruct (mntgate y) as [y1 | |] eqn:Hgate; try done. injection Hgo as <-. apply (gate_leave O D y y1 p _ _ Hi H Hc); plain.
      * injection Hgo as <-. gm H Hc (Pflush r0 r).
    + rewrite (decide_True (P := m_rip (y_mnt y) = Some p)) in Hgo by done. destruct (mntgate y) as [y1 | |] eqn:Hgate; try done. injection Hgo as <-.
      apply (gate_leave O D y y1 p _ _ Hi H Hc); plain; case_decide; plain.
  - injection Hgo as Hgo. pose proof (mntralloc_ok O (m_msize (y_mnt y)) y Hheap) as Hal. unfold mntflushalloc in Hgo.
    destruct (mntralloc _ y) as [[fr y1] | |]; [| done..]. destruct Hal as (z & a & next & -> & [Hd _ _ _ _] & Hnew & _).
    apply bind_Ok in Hgo as ([r1 y2] & Hgo & [= _ <-]). cbn [mbind res_bind] in Hgo. apply bind_Ok in Hgo as (w & _ & Hgo).
    unfold getrpc in Hgo. cbn [y_rpcs] in Hgo. rewrite lookup_insert_eq in Hgo. cbn [res_of_option mbind res_bind] in Hgo. injection Hgo as <- <-.
    eapply (gate_new O D y _ p fr _ (Some (Pflush r0 r)) (Penq r0 fr) Hi H Hc); [done | done | apply insert_insert_eq | done | done |]. right. by eexists _, _.
  - injection Hgo as <-. destruct (mr_done x); [gm H Hc (Pfreed r0 r e0); nr H Hc |].
    replace y with (setmnt (y_mnt y) y) by by destruct y.
    apply (gate_own O D y p _ (Pqrm r0 r e0) _ (y_mnt y) Hi H Hc); try done. nr H Hc.
  - injection Hgo as <-. apply (gate_own O D y p _ (Pfreed r0 r e0) _ ((y_mnt y) <| m_queue := unlink r (m_queue (y_mnt y)) |>) Hi H Hc); try done.
    nr H Hc.
  - destruct (mr_flushed x) as [fr|].
    + destruct (mntfree_ok O r p y Hheap HO) as (O' & rpcs' & a' & Hf & _ & Hsame & _). rewrite Hf in Hgo. injection Hgo as <-.
      apply (gate_free O D y _ p (Pfreed r0 r e0) (Some (Pfreeing r0 fr e0)) Hi H Hc); plain; [| by split; intros []]. intros r' Hne. by destruct (Hsame r' Hne).
    + injection Hgo as <-. gm H Hc (Pdone r0 e0). nr H Hc.
  - injection Hgo as Hgo. destruct (mntfree_ok O r0 p y Hheap HO) as (O' & rpcs' & a' & Hf & _ & Hsame & _). rewrite Hf in Hgo. injection Hgo as _ <-.
    apply (gate_free O D y _ p (Pdone r0 e0) None Hi H Hc); plain. intros r' Hne. by destruct (Hsame r' Hne).
Qed.

Lemma perform_gate O D y s e y' :
  inv O D y → gate y → m_msize (y_mnt y) < 2 ^ 31 → step_ok s → steady s y → perform headroom blockalign s y = Some (Ok (e, y')) → gate y'.
Proof.
  intros Hi H Hms Hok Hst Hp. pose proof (i_heap _ _ _ Hi) as Hheap.
  destruct s as [p req | p ms | p w | p intr | p | p ins | p]; cbn [perform step_ok steady] in *; destruct (y_procs y !! p) as [c|] eqn:Hc; try done.
  - injection Hp as Hp. pose proof (mntralloc_ok O (m_msize (y_mnt y)) y Hheap) as Hal.
    destruct (mntralloc _ y) as [[r y1] | |]; [| done..]. destruct Hal as (z & a & next & -> & [Hd _ _ _ _] & Hnew & _).
    unfold getrpc in Hp. cbn [mbind res_bind y_rpcs] in Hp. rewrite lookup_insert_eq in Hp. cbn [res_of_option mbind res_bind] in Hp. injection Hp as _ <-.
    eapply (gate_new O D y _ p r _ None (Penq r r) Hi H Hc); [done | done | apply insert_insert_eq | done | done |]. left. by split_and!; plain.
  - injection Hp as Hp. pose proof (mntralloc_ok O ms y Hheap) as Hal.
    destruct (mntralloc _ y) as [[r y1] | |]; [| done..]. destruct Hal as (z & a & next & -> & [Hd _ _ _ _] & Hnew & _). injection Hp as _ <-.
    eapply (gate_new O D y _ p r _ None (Pelse r) Hi H Hc); [done | done | done | done | done |]. left. by split_and!; plain.
  - destruct c; try done. apply quiet_inv in Hp. destruct (Hst r0 r eq_refl) as [-> | (n & -> & Hn)].
    + apply bind_Ok in Hp as (? & _ & [= <-]). gm H Hc (Pfault r0 r Eintr); intros r1 r2 e1 [= _ _ <-]; by left.
    + rewrite Hn in Hp. cbn [mbind res_bind] in Hp. rewrite decide_True in Hp by done. injection Hp as <-. gm H Hc (Pgate r0 r). nr H Hc.
  - destruct c; try done; apply quiet_inv in Hp.
    + destruct (getrpc_top _ _ _ _ _ Hi Hc) as (x & Hx & Hg). cbn [top] in *. rewrite Hg in Hp. cbn [mbind res_bind] in Hp. destruct intr.
      * injection Hp as <-. gm H Hc (Pfault r0 r Eintr); intros r1 r2 e1 [= _ _ <-]; by left.
      * unfold rpcattn in Hp. destruct (mr_done x) eqn:Hd; cbn [orb] in Hp; [injection Hp as <-; gm H Hc (Pafter r0 r); nr H Hc |].
        case_bool_decide as Hrip; injection Hp as <-; [gm H Hc (Pafter r0 r); nr H Hc |].
        replace y with (setmnt (y_mnt y) y) by by destruct y. apply (gate_own O D y p (Pdoze r0 r) (Pasleep r0 r) _ (y_mnt y) Hi H Hc); try done; [| nr H Hc].
        intros r1 r2 [= _ <-]. done.
    + injection Hp as <-. destruct intr; [gm H Hc (Pfault r0 r Eintr); intros r1 r2 e1 [= _ _ <-]; by left | gm H Hc (Pafter r0 r); nr H Hc].
  - destruct c; try done. apply quiet_inv in Hp. apply bind_Ok in Hp as (x & _ & [= <-]).
    replace y with (setmnt (y_mnt y) y) by by destruct y.
    apply (gate_own O D y p (Pasleep r0 r) (Pfault r0 r Eintr) _ (y_mnt y) Hi H Hc); try done; [| by right]. intros r1 r2 e1 [= _ _ <-]. by left.
  - destruct c; try done. destruct (getrpc_top _ _ _ _ _ Hi Hc) as (x & Hx & Hg). cbn [top] in *. rewrite Hx in Hp. destruct (mr_done x); [done |].
    destruct (mntrpcread _ _ _ _ _ _ _) as [[[[[o1 reply] rb] q] rest] | |]; try done. pose proof (i_rip _ _ _ Hi p _ Hc I) as Hrip.
    destruct o1, rest; try done; apply quiet_inv in Hp; injection Hp as <-;
      (apply (gate_own O D y p (Preading r0 r) _ _ ((y_mnt y) <| m_q := q |>) Hi H Hc); try done; intros; first [by left | by right]).
  - by eapply go_gate.
Qed.

(** The states that can be reached while writes are steady. *)
Inductive sreach : list out → sys → Prop :=
  | sreach_start : sreach [] (sys0 msize)
  | sreach_step es y s e y' :
      sreach es y → step_ok s → steady s y → perform headroom blockalign s y = Some (Ok (e, y')) → sreach (e :: es) y'.

Lemma gate_sys0 : gate (sys0 msize).
Proof. split; cbn [sys0 y_mnt y_procs m_rip]; [done | intros ???? | intros ??? | intros ???]; by rewrite lookup_empty. Qed.

Lemma sreach_reach es y : sreach es y → reach headroom blockalign msize es y ∧ gate y.
Proof.
  induction 1 as [| es y s e y' _ [Hr Hg] Hok Hst Hp]; [split; [constructor | apply gate_sys0] |]. split; [by econstructor |].
  destruct (mount_inv headroom blockalign msize Hhead Halign Hmsize es y Hr) as [[O Hi] Hm].
  eapply perform_gate; [done | done | rewrite Hm; lia | done..].
Qed.

(** C31: A process that waits asleep for a reply is looked after: when the reply has come another
    process is about to wake it; otherwise somebody reads the connection, or holds the gate,
    or, when nobody does, somebody who also waits for a reply is awake and on the way to the
    gate. *)
Theorem waits_not_in_vain es y p r0 r :
  sreach es y → y_procs y !! p = Some (Pasleep r0 r) →
  ∃ x, y_rpcs y !! r = Some x ∧ mr_r x = Some p ∧
    if mr_done x then ∃ p' r0' r', y_procs y !! p' = Some (Pwaking r0' r' r)
    else ∃ p' c', y_procs y !! p' = Some c' ∧
      (m_rip (y_mnt y) = Some p' ∧ (reads c' ∨ faults c') ∨ m_rip (y_mnt y) = None ∧ goes c' ∧ undone y (top c')).
Proof.
  intros Hs Hp. destruct (sreach_reach es y Hs) as [Hr Hg].
  destruct (mount_inv headroom blockalign msize Hhead Halign Hmsize es y Hr) as [[O Hi] _].
  destruct (getrpc_top _ _ _ _ _ Hi Hp) as (x & Hx & _). cbn [top] in Hx. exists x. split; [done |].
  destruct (i_procs _ _ _ Hi p _ Hp) as [l Hl]. split; [apply (p_pc _ _ _ _ _ _ _ Hl x Hx) |]. destruct (mr_done x) eqn:Hd.
  - destruct (g_done _ Hg p r0 r Hp) as [(z & Hz & Hzd) | ?]; [congruence | done].
  - destruct (m_rip (y_mnt y)) as [p'|] eqn:Hrip.
    + destruct (g_rip _ Hg p' Hrip) as (c' & Hc' & Hor). exists p', c'. auto.
    + destruct (g_heir _ Hg p r0 r Hp) as (p' & c' & Hc' & Hgo & Hu); [by exists x | done |]. exists p', c'. auto.
Qed.
End Steady.
