(* ===== verification/MntCase.v ===== *)
(** * MntCase: runs of the mount driver

    Concrete runs: the theorems of {!MntRead}, {!MntRun} and {!MntGate} at states that are
    reached, and runs that end as the code does not mean to. *)

From stdpp Require Import strings.
From S2P Require Import Prelude Bytes Fcall FcallProps Qio QioProps Srv Mnt MntRead MntInv MntSys MntStep MntRun MntGate.

(** ** Playing a run *)

Section Play.
Variables (headroom : Z → Z) (blockalign msize : Z).

Definition event (s : step) (y : sys) : option out :=
  match perform headroom blockalign s y with Some (Ok (e, _)) => Some e | _ => None end.

Fixpoint play (ss : list step) (es : list out) (y : sys) : option (list out * sys) :=
  match ss with
  | [] => Some (es, y)
  | s :: ss => match perform headroom blockalign s y with Some (Ok (e, y)) => play ss (e :: es) y | _ => None end
  end.

(** Where a run from the start ends. *)
Definition after (ss : list step) : list out * sys := default ([], sys0 msize) (play ss [] (sys0 msize)).

Lemma play_reach ss es y : Forall step_ok ss → reach headroom blockalign msize es y →
  match play ss es y with Some (es', y') => reach headroom blockalign msize es' y' | None => True end.
Proof.
  intros Hok. revert es y. induction Hok as [|s ss Hs _ IH]; intros es y Hr; cbn [play]; [done |].
  destruct (perform headroom blockalign s y) as [[[e y'] | |]|] eqn:Hp; try done. apply IH. by econstructor.
Qed.

Lemma after_reached ss : Forall step_ok ss → reach headroom blockalign msize (after ss).1 (after ss).2.
Proof.
  intros Hok. pose proof (play_reach ss [] (sys0 msize) Hok (reach_start _ _ _)) as H. unfold after.
  destruct (play ss [] (sys0 msize)) as [[es y]|]; [done | constructor].
Qed.

Lemma event_step s y e : event s y = Some e → ∃ y', perform headroom blockalign s y = Some (Ok (e, y')).
Proof. unfold event. destruct (perform headroom blockalign s y) as [[[e' y'] | |]|]; try done. intros [= <-]. by exists y'. Qed.

(** A write of the whole request, or one that is interrupted. *)
Definition steadyb (s : step) (y : sys) : bool :=
  match s with
  | Swrite p w =>
      match y_procs y !! p with
      | Some (Pwrite _ r) =>
          match w with inl e => bool_decide (e = Eintr) | inr n => bool_decide (request_size y r = Ok n) end
      | _ => true
      end
  | _ => true
  end.

Lemma steadyb_ok s y : steadyb s y = true → steady s y.
Proof.
  destruct s; cbn; try done. intros H r0 r' Hp. rewrite Hp in H. destruct r as [e | n]; apply bool_decide_eq_true in H; [left; by subst | right; by exists n].
Qed.

Fixpoint splay (ss : list step) (es : list out) (y : sys) : option (list out * sys) :=
  match ss with
  | [] => Some (es, y)
  | s :: ss =>
      if steadyb s y then match perform headroom blockalign s y with Some (Ok (e, y)) => splay ss (e :: es) y | _ => None end else None
  end.

Definition safter (ss : list step) : list out * sys := default ([], sys0 msize) (splay ss [] (sys0 msize)).

Lemma splay_reach ss es y : Forall step_ok ss → sreach headroom blockalign msize es y →
  match splay ss es y with Some (es', y') => sreach headroom blockalign msize es' y' | None => True end.
Proof.
  intros Hok. revert es y. induction Hok as [|s ss Hs _ IH]; intros es y Hr; cbn [splay]; [done |].
  destruct (steadyb s y) eqn:Hst; [| done]. destruct (perform headroom blockalign s y) as [[[e y'] | |]|] eqn:Hp; try done.
  apply IH. econstructor; try done. by apply steadyb_ok.
Qed.

Lemma safter_reached ss : Forall step_ok ss → sreach headroom blockalign msize (safter ss).1 (safter ss).2.
Proof.
  intros Hok. pose proof (splay_reach ss [] (sys0 msize) Hok (sreach_start _ _ _)) as H. unfold safter.
  destruct (splay ss [] (sys0 msize)) as [[es y]|]; [done | constructor].
Qed.
End Play.

(** ** Messages *)

Definition tclunk : Fcall := fcall0 <| f_type := mtype_code Tclunk |> <| f_fid := 5 |>.
Definition tread : Fcall := fcall0 <| f_type := mtype_code Tread |> <| f_fid := 5 |> <| f_count := 100 |>.
Definition rclunk (t : Z) : Fcall := fcall0 <| f_type := mtype_code Rclunk |> <| f_tag := t |>.
Definition rread (t : Z) (d : list Z) : Fcall :=
  fcall0 <| f_type := mtype_code Rread |> <| f_tag := t |> <| f_count := len d |> <| f_data := d |>.
Definition message (f : Fcall) : list Z := match convS2M f 8192 with Ok m => m | _ => [] end.

Lemma call_ok p (f : Fcall) : f = tclunk ∨ f = tread → step_ok (Scall p f).
Proof. intros [-> | ->]; (split; [solve_wt | split; [done | done]]). Qed.

Lemma blk_ok d : block_ok (blk d).
Proof. unfold block_ok, BALLOC, blk. cbn [b_rp b_wp b_buf]. rewrite !length_app. cbn [length]. rewrite length_replicate. lia. Qed.

Lemma read_ok p ds : step_ok (Sread p [Bblocks (blk <$> ds)]).
Proof. repeat constructor. cbn. induction ds as [|d ds IH]; cbn; constructor; [apply blk_ok | exact IH]. Qed.

Ltac steps_ok := repeat (apply Forall_cons_iff; split; [first [exact I | apply call_ok; tauto | apply (read_ok _ [_]) | repeat constructor; apply blk_ok] |]); constructor.

(** ** Two processes

    The first reads; the reply it gets is the second's, and comes in two parts, between
    which the connection gives out the first bytes of its own. *)

Definition two : list step :=
  [Scall 1 tread; Sgo 1; Swrite 1 (inr 23); Sgo 1; Scall 2 tclunk; Sgo 2; Swrite 2 (inr 11); Sgo 2; Ssleep 2 false;
   Sread 1 [Bblocks (blk <$> [take 3 (message (rclunk 2))]); Bblocks (blk <$> [drop 3 (message (rclunk 2)) ++ take 13 (message (rread 1 [7; 8; 9]))])]].

Definition two_done : list step := two ++ [Sgo 1; Sgo 1; Ssleep 2 false; Sgo 2; Sgo 2; Sgo 2].

Abbreviation hr := (λ _ : Z, 64).

(** ** A request is gone when its process is to be woken

    The second process has not yet gone to sleep when the first gives it its reply, and
    returns before the first calls wakeup.  Ten other requests have filled the free list. *)

Definition others : list step := (λ p, Sother p 8192) <$> [11; 12; 13; 14; 15; 16; 17; 18; 19; 20]%positive.

Definition gone : list step :=
  [Scall 1 tread; Sgo 1; Swrite 1 (inr 23); Sgo 1; Scall 2 tclunk; Sgo 2; Swrite 2 (inr 11); Sgo 2] ++ others ++
  (Sgo <$> [11; 12; 13; 14; 15; 16; 17; 18; 19; 20]%positive) ++
  [Sread 1 [Bblocks (blk <$> [message (rclunk 2)])]; Sgo 1; Ssleep 2 false; Sgo 2; Sgo 2; Sgo 2; Sgo 2].

(** ** Nobody reads

    Two processes sleep; the reader leaves and wakes one of them, which is interrupted then
    and cannot send its flush. *)

Definition stranding : list step :=
  [Scall 1 tread; Sgo 1; Swrite 1 (inr 23); Sgo 1; Scall 2 tclunk; Sgo 2; Swrite 2 (inr 11); Sgo 2; Ssleep 2 false;
   Scall 3 tclunk; Sgo 3; Swrite 3 (inr 11); Sgo 3; Ssleep 3 false; Sread 1 [Bblocks (blk <$> [message (rread 1 [7])])]; Sgo 1; Sgo 1; Sgo 1].

Definition stranded : list step :=
  stranding ++ [Sgo 1; Sgo 1; Sgo 1; Ssleep 3 true; Sgo 3; Sgo 3; Sgo 3; Swrite 3 (inl (str "i/o error")); Sgo 3;
                Sgo 3; Sgo 3; Sgo 3; Sgo 3; Sgo 3; Sgo 3; Sgo 3].

Lemma conn_msize : 0 < 8192 < 2 ^ 31.
Proof. done. Defined.

Lemma hr_ok : ∀ n : Z, 0 ≤ hr n.
Proof. done. Defined.

Lemma two_ok : Forall step_ok two.
Proof. unfold two. steps_ok. Qed.

Lemma two_done_ok : Forall step_ok two_done.
Proof. apply Forall_app. split; [apply two_ok | steps_ok]. Qed.

Lemma gone_ok : Forall step_ok gone.
Proof. unfold gone, others. repeat (apply Forall_app; split); cbn [fmap list_fmap]; steps_ok. Qed.

Lemma stranded_ok : Forall step_ok stranded.
Proof. unfold stranded, stranding. apply Forall_app. split; steps_ok. Qed.

(** mountmux calls wakeup after its unlock: the request may have been freed by then. *)
Lemma wakeup_after_free : ∃ es y, reach hr 8 8192 es y ∧ perform hr 8 (Sgo 1) y = Some Ub.
Proof. eexists _, _. split; [apply (after_reached hr 8 8192 gone gone_ok) | vm_compute; reflexivity]. Qed.

(** When the process that was woken cannot send its flush, no other is woken in its place. *)
Lemma reader_lost : ∃ es y, reach hr 8 8192 es y ∧ map_to_list (y_procs y) = [(2%positive, Pasleep 2 2)] ∧ m_rip (y_mnt y) = None.
Proof. eexists _, _. split; [apply (after_reached hr 8 8192 stranded stranded_ok) | split; vm_compute; reflexivity]. Qed.

(** A request that does not fit is not sent, and the process waits for a reply to it: convS2M
    returns 0, which mountio, looking for a negative count, takes for the size to write. *)
Lemma request_not_sent :
  let y := (after hr 8 16 [Scall 1 tread; Sgo 1]).2 in
  request_size y 1 = Ok 0 ∧ y_procs (after hr 8 16 [Scall 1 tread; Sgo 1; Swrite 1 (inr 0); Sgo 1]).2 !! 1%positive = Some (Preading 1 1).
Proof. split; vm_compute; reflexivity. Qed.

(** ** The theorems at states of these runs *)

Definition empty_queue : Queue := m_q (y_mnt (sys0 8192)).

Lemma mntrpcread_next_witness :
  let m := message (rread 1 [7; 8; 9]) in
  let ins := [Bblocks [blk (take 3 m)]; Bblocks [blk (drop 3 m ++ [1; 2])]] in
  ∃ o reply' rb' q' used rest,
    mntrpcread hr 8 8192 ins fcall0 [] empty_queue = Ok (o, reply', rb', q', rest) ∧ ins = used ++ rest ∧ mq_ok q' ∧ chain_ok rb' ∧
    match o with
    | Rdone => contents (q_blocks q') ++ mjoin (bread_bytes <$> rest) = [1; 2] ∧ hung (rread 1 [7; 8; 9]) reply' rb'
    | Rsleep => False
    | _ => contents (q_blocks q') ++ mjoin (bread_bytes <$> rest) = m ++ [1; 2] ∧ Exists disturbing used
    end.
Proof.
  intros m ins. apply (mntrpcread_next hr 8 hr_ok ltac:(done) 8192 ins fcall0 [] empty_queue m [1; 2] (rread 1 [7; 8; 9])).
  - split; [constructor | done].
  - constructor.
  - repeat constructor; apply blk_ok.
  - done.
  - vm_compute. reflexivity.
  - done.
  - vm_compute. reflexivity.
Defined.

Lemma mount_safe_witness :
  perform hr 8 (Sgo 1) (after hr 8 8192 gone).2 = Some Ub ∧
  ∃ p r0 r q, Sgo 1 = Sgo p ∧ y_procs (after hr 8 8192 gone).2 !! p = Some (Pwaking r0 r q) ∧ y_rpcs (after hr 8 8192 gone).2 !! q = None.
Proof.
  assert (perform hr 8 (Sgo 1) (after hr 8 8192 gone).2 = Some Ub) as H by (vm_compute; reflexivity). split; [exact H |].
  exact (mount_safe hr 8 8192 hr_ok ltac:(done) conn_msize _ _ (Sgo 1) Ub (after_reached hr 8 8192 gone gone_ok) I H).
Defined.

(** The block of the second reply, without its header. *)
Definition rclunk_block : Block := mkBlock (replicate 64 0 ++ message (rclunk 2) ++ [0]) 71 71.

Lemma reply_routed_witness :
  let y := (after hr 8 8192 two).2 in
  ∃ y', perform hr 8 (Sgo 1) y = Some (Ok (Odeliver (Some 2%positive) (rclunk 2) [rclunk_block], y')) ∧
    ∀ q', q' ∈ m_queue (y_mnt y') ↔ q' ∈ m_queue (y_mnt y) ∧ q' ≠ 2%positive.
Proof.
  intros y. destruct (event_step hr 8 (Sgo 1) y (Odeliver (Some 2%positive) (rclunk 2) [rclunk_block])) as [y' Hy']; [vm_compute; reflexivity |].
  exists y'. split; [exact Hy' |].
  destruct (reply_routed hr 8 8192 hr_ok ltac:(done) conn_msize _ _ _ _ _ _ _ (after_reached hr 8 8192 two two_ok) Hy')
    as (? & ? & ? & _ & _ & _ & _ & _ & Hq & _). exact Hq.
Defined.


Lemma requests_kept_witness :
  let y := (after hr 8 8192 two).2 in m_queue (y_mnt y) = [2; 1]%positive ∧ NoDup (m_queue (y_mnt y)).
Proof.
  intros y. split; [vm_compute; reflexivity |].
  destruct (requests_kept hr 8 8192 hr_ok ltac:(done) conn_msize _ _ (after_reached hr 8 8192 two two_ok)) as (_ & _ & _ & _ & _ & _ & H & _). exact H.
Defined.

Lemma waits_not_in_vain_witness :
  let y := (safter hr 8 8192 two).2 in
  y_procs y !! 2%positive = Some (Pasleep 2 2) ∧ ∃ x, y_rpcs y !! 2%positive = Some x ∧ mr_r x = Some 2%positive.
Proof.
  intros y. assert (y_procs y !! 2%positive = Some (Pasleep 2 2)) as Hp by (vm_compute; reflexivity). split; [exact Hp |].
  destruct (waits_not_in_vain hr 8 8192 hr_ok ltac:(done) conn_msize _ _ _ _ _ (safter_reached hr 8 8192 two two_ok) Hp) as (x & Hx & Hr & _).
  exists x. split; [exact Hx | exact Hr].
Defined.
