(* ===== verification/Sema.v ===== *)
(** * Sema: the semaphores of the kernel

    sys/src/9/port/sysproc.c: semacquire, tsemacquire and semrelease, with sleep, tsleep,
    twakeup and wakeup of proc.c that they use.  The value of a semaphore is a long in user
    memory; who waits for one is on a list of its segment, threaded through [next] and
    [prev] of a Sema on the kernel stack of each waiting process.

    The list is used under the spin lock of [s->sema], the values and the flags [waiting]
    are not.  A step is one access to a value or a flag, or a section under the list's lock
    up to the next such access.  sleep and wakeup hold the lock of the Rendez throughout and
    are one step each, up to the call of the scheduler.  A Sema is gone when its semacquire
    has returned: using it is [Ub].  A panic is [Err]. *)

From S2P Require Import Prelude.

(** How to wait: for ever, not at all, or for [ms] milliseconds. *)
Inductive how : Type := Block | Noblock | Timed (ms : Z).

(** How the loop of semacquire was left. *)
Inductive outcome : Type := Acquired | Timedout | Raised.

Inductive error : Type := Ebadarg | Eintr.

Inductive retval : Type := Rval (v : Z) | Rerr (e : error).

(** The two calls of canacquire. *)
Inductive attempt : Type := Fast | Hard.

(** What is left to do after semwakeup: end semacquire, or return from semrelease. *)
Inductive after : Type := Kacq (o : outcome) | Kval (v : Z).

(** [s->sema], or the [phore] of a process. *)
Inductive node : Type := Nhead | Nproc (i : nat).

#[export] Instance how_eq_dec : EqDecision how.
Proof. solve_decision. Defined.
#[export] Instance outcome_eq_dec : EqDecision outcome.
Proof. solve_decision. Defined.
#[export] Instance retval_eq_dec : EqDecision retval.
Proof. intros x y. unfold Decision. repeat decide equality. Defined.
#[export] Instance node_eq_dec : EqDecision node.
Proof. solve_decision. Defined.

Record Sema : Type := mkSema {
  s_p : option nat;         (* the process asleep on the Rendez *)
  s_addr : Z;
  s_waiting : bool;
  s_next : node;
  s_prev : node
}.

#[export] Instance Sema_rebuild : Rebuild Sema := λ s,
  mkSema (s_p s) (s_addr s) (s_waiting s) (s_next s) (s_prev s).

Inductive pc : Type :=
  | Puser (r : option retval)                   (* in user mode; what the last call gave *)
  | Ptry (t : attempt) (a : Z) (h : how)        (* in canacquire, at its test *)
  | Pswap (t : attempt) (a : Z) (h : how) (v : Z) (* at its cmpswap *)
  | Pqueue (a : Z) (h : how)                    (* in semqueue, at memset *)
  | Plink (a : Z) (h : how)                     (* at its lock *)
  | Pset (a : Z) (h : how)                      (* at phore.waiting = 1 *)
  | Parm (a : Z) (h : how)                      (* at the top of tsleep *)
  | Psleep (a : Z) (h : how)                    (* at sleep *)
  | Pasleep (a : Z) (h : how)                   (* in state Wakeme *)
  | Pwoken (a : Z) (h : how)                    (* at the last test of sleep *)
  | Punlink (a : Z) (o : outcome)               (* at semdequeue *)
  | Pcheck (a : Z) (o : outcome)                (* at if(!phore.waiting) *)
  | Plock (a n : Z) (k : after)                 (* in semwakeup, at its lock *)
  | Pwalk (a n : Z) (q : node) (k : after)      (* at the test of its loop *)
  | Pwake (a n : Z) (i : nat) (k : after)       (* at its wakeup *)
  | Prel (a d : Z)                              (* in semrelease, at value = *addr *)
  | Prelswap (a d v : Z).                       (* at its cmpswap *)

Record Proc : Type := mkProc {
  p_pc : pc;
  p_phore : option Sema;
  p_note : bool;            (* notepending *)
  p_armed : bool;           (* the Timer is on a list: tt is not nil *)
  p_trend : bool;           (* trend is not nil *)
  p_fired : nat;            (* calls of twakeup under way *)
  p_late : nat              (* those that are about to wakeup(trend) *)
}.

#[export] Instance Proc_rebuild : Rebuild Proc := λ p,
  mkProc (p_pc p) (p_phore p) (p_note p) (p_armed p) (p_trend p) (p_fired p) (p_late p).

(** The values are those of the segment; who calls with another address gets an error. *)
Record sys : Type := mkSys {
  y_mem : gmap Z Z;
  y_next : node;            (* s->sema.next *)
  y_prev : node;            (* s->sema.prev *)
  y_lock : option nat;      (* who holds the lock of s->sema *)
  y_procs : list Proc
}.

#[export] Instance sys_rebuild : Rebuild sys := λ y,
  mkSys (y_mem y) (y_next y) (y_prev y) (y_lock y) (y_procs y).

(** ** Access to the state *)

Definition setproc (i : nat) (p : Proc) (y : sys) : sys := y <| y_procs := <[i := p]> (y_procs y) |>.

Definition getproc (y : sys) (i : nat) : res Proc := res_of_option (y_procs y !! i).

Definition phore (y : sys) (i : nat) : option Sema := y_procs y !! i ≫= p_phore.

Definition getsema (y : sys) (i : nat) : res Sema := res_of_option (phore y i).

Definition setsema (i : nat) (s : Sema) (y : sys) : sys :=
  y <| y_procs := alter (λ p, p <| p_phore := Some s |>) i (y_procs y) |>.

Definition next_of (y : sys) (q : node) : res node :=
  match q with Nhead => Ok (y_next y) | Nproc i => s ← getsema y i; Ok (s_next s) end.

Definition prev_of (y : sys) (q : node) : res node :=
  match q with Nhead => Ok (y_prev y) | Nproc i => s ← getsema y i; Ok (s_prev s) end.

Definition setnext (q n : node) (y : sys) : res sys :=
  match q with
  | Nhead => Ok (y <| y_next := n |>)
  | Nproc i => s ← getsema y i; Ok (setsema i (s <| s_next := n |>) y)
  end.

Definition setprev (q n : node) (y : sys) : res sys :=
  match q with
  | Nhead => Ok (y <| y_prev := n |>)
  | Nproc i => s ← getsema y i; Ok (setsema i (s <| s_prev := n |>) y)
  end.

Definition goto (i : nat) (c : pc) (y : sys) : sys :=
  y <| y_procs := alter (λ p, p <| p_pc := c |>) i (y_procs y) |>.

(** ** The list *)

(** The memset of semqueue. *)
Definition semqueue_clear (a : Z) : Sema := mkSema None a false Nhead Nhead.

(** The rest of semqueue, for the phore of process [i]. *)
Definition semqueue (i : nat) (y : sys) : res sys :=
  let p := Nproc i in
  y ← setnext p Nhead y;
  t ← prev_of y Nhead;
  y ← setprev p t y;
  n ← next_of y p;
  y ← setprev n p y;
  t ← prev_of y p;
  setnext t p y.

Definition semdequeue (i : nat) (y : sys) : res sys :=
  let p := Nproc i in
  n ← next_of y p;
  t ← prev_of y p;
  y ← setprev n t y;
  t ← prev_of y p;
  n ← next_of y p;
  setnext t n y.

(** ** sleep and wakeup *)

(** semawoke *)
Definition semawoke (s : Sema) : bool := negb (s_waiting s).

(** The condition that sleep tests: semawoke, in tsleep through tfn. *)
Definition slept_enough (p : Proc) (s : Sema) (h : how) : bool :=
  match h with Timed _ => negb (p_trend p) || semawoke s | _ => semawoke s end.

(** wakeup of the Rendez in the phore of process [i]; who was asleep goes on in sleep. *)
Definition wakeup (i : nat) (y : sys) : res sys :=
  s ← getsema y i;
  match s_p s with
  | None => Ok y
  | Some j =>
      p ← getproc y j;
      match p_pc p with
      | Pasleep a h => Ok (goto j (Pwoken a h) (setsema i (s <| s_p := None |>) y))
      | _ => Err
      end
  end.

(** ** Steps *)

Inductive call : Type := Csemacquire (a : Z) (h : how) | Csemrelease (a d : Z).

(** What happens in a step. *)
Inductive event : Type :=
  | Etake (i : nat) (a : Z)                     (* a successful cmpswap of canacquire *)
  | Eadd (i : nat) (a d : Z)                    (* one of semrelease *)
  | Eret (i : nat) (r : retval).                (* return to user mode *)

Inductive label : Type :=
  | Lcall (c : call)        (* a system call begins *)
  | Lrun (ms : Z)           (* the process runs; [ms] is the time it slept, if it did *)
  | Lnote                   (* postnote *)
  | Lnotify                 (* the process, in user mode, is given its notes *)
  | Ltimer                  (* timerintr takes the Timer off its list and calls twakeup *)
  | Ltwakeup                (* twakeup reads trend and clears it *)
  | Llate.                  (* wakeup(trend) in twakeup *)

Definition value (y : sys) (a : Z) : res Z := res_of_option (y_mem y !! a).

Definition setvalue (a v : Z) (y : sys) : sys := y <| y_mem := <[a := v]> (y_mem y) |>.

(** Return to user mode. *)
Definition leave (i : nat) (r : retval) (y : sys) : sys * list event :=
  (goto i (Puser (Some r)) y, [Eret i r]).

(** The arguments are checked; an address outside the segment has no value. *)
Definition syscall (i : nat) (c : call) (y : sys) : sys * list event :=
  match c with
  | Csemacquire a h =>
      match y_mem y !! a with
      | None => leave i (Rerr Ebadarg) y
      | Some v => if decide (v < 0) then leave i (Rerr Ebadarg) y else (goto i (Ptry Fast a h) y, [])
      end
  | Csemrelease a d =>
      let d := s32 d in
      match y_mem y !! a with
      | None => leave i (Rerr Ebadarg) y
      | Some v => if decide (d < 0 ∨ v < 0) then leave i (Rerr Ebadarg) y else (goto i (Prel a d) y, [])
      end
  end.

(** The end of semacquire and tsemacquire; the phore goes out of scope. *)
Definition finish (i : nat) (o : outcome) (y : sys) : sys * list event :=
  leave i (match o with Acquired => Rval 1 | Timedout => Rval 0 | Raised => Rerr Eintr end)
    (y <| y_procs := alter (λ p, p <| p_phore := None |>) i (y_procs y) |>).

(** canacquire has failed. *)
Definition not_acquired (i : nat) (t : attempt) (a : Z) (h : how) (y : sys) : sys * list event :=
  match t, h with
  | Fast, Noblock => leave i (Rval 0) y
  | Fast, Timed ms => if decide (ms = 0) then leave i (Rval 0) y else (goto i (Pqueue a h) y, [])
  | Fast, Block => (goto i (Pqueue a h) y, [])
  | Hard, Timed _ => (goto i (Parm a h) y, [])
  | Hard, _ => (goto i (Psleep a h) y, [])
  end.

Definition acquired (i : nat) (t : attempt) (a : Z) (y : sys) : sys * list event :=
  match t with Fast => leave i (Rval 1) y | Hard => (goto i (Punlink a Acquired) y, []) end.

(** sleep, up to the scheduler; without going to sleep if there is no need. *)
Definition do_sleep (i : nat) (p : Proc) (s : Sema) (a : Z) (h : how) (y : sys) : sys :=
  if slept_enough p s h || p_note p then goto i (Pwoken a h) y
  else goto i (Pasleep a h) (setsema i (s <| s_p := Some i |>) y).

(** The end of sleep, raising Eintr if there is a note, and of tsleep and the loop. *)
Definition woken (i : nat) (p : Proc) (a : Z) (h : how) (ms : Z) (y : sys) : sys :=
  let p := match h with Timed _ => p <| p_armed := false |> | _ => p end in
  if p_note p then setproc i (p <| p_note := false |> <| p_pc := Punlink a Raised |>) y else
  match h with
  | Timed ms0 =>
      if decide (ms0 ≤ ms) then setproc i (p <| p_pc := Punlink a Timedout |>) y
      else setproc i (p <| p_pc := Pset a (Timed (ms0 - ms)) |>) y
  | _ => setproc i (p <| p_pc := Pset a h |>) y
  end.

(** Whether somebody holds the lock of [s->sema]. *)
Definition locked (y : sys) : bool := bool_decide (is_Some (y_lock y)).

(** After semwakeup. *)
Definition resume (i : nat) (k : after) (y : sys) : sys * list event :=
  match k with Kacq o => finish i o y | Kval v => leave i (Rval v) y end.

(** Process [i] runs; [None] while it cannot. *)
Definition run_proc (i : nat) (ms : Z) (y : sys) (p : Proc) : option (res (sys * list event)) :=
  match p_pc p with
  | Puser _ | Pasleep _ _ => None
  | Ptry t a h => Some (
      v ← value y a;
      if decide (v > 0) then Ok (goto i (Pswap t a h v) y, []) else Ok (not_acquired i t a h y))
  | Pswap t a h v => Some (
      v' ← value y a;
      if decide (v' = v) then
        let '(y, es) := acquired i t a (setvalue a (s32 (v - 1)) y) in Ok (y, Etake i a :: es)
      else Ok (goto i (Ptry t a h) y, []))
  | Pqueue a h => Some (Ok (setproc i (p <| p_phore := Some (semqueue_clear a) |> <| p_pc := Plink a h |>) y, []))
  | Plink a h =>
      if locked y then None else Some (y ← semqueue i y; Ok (goto i (Pset a h) y, []))
  | Pset a h => Some (
      s ← getsema y i;
      Ok (goto i (Ptry Hard a h) (setsema i (s <| s_waiting := true |>) y), []))
  | Parm a h => Some (Ok (setproc i (p <| p_trend := true |> <| p_armed := true |> <| p_pc := Psleep a h |>) y, []))
  | Psleep a h => Some (s ← getsema y i; Ok (do_sleep i p s a h y, []))
  | Pwoken a h => Some (Ok (woken i p a h ms y, []))
  | Punlink a o =>
      if locked y then None else Some (y ← semdequeue i y; Ok (goto i (Pcheck a o) y, []))
  | Pcheck a o => Some (
      s ← getsema y i;
      if s_waiting s then Ok (finish i o y) else Ok (goto i (Plock a 1 (Kacq o)) y, []))
  | Plock a n k =>
      if locked y then None else Some (Ok (goto i (Pwalk a n (y_next y) k) (y <| y_lock := Some i |>), []))
  | Pwalk a n q k => Some (
      match q with
      | Nproc j =>
          if decide (n > 0) then
            s ← getsema y j;
            if bool_decide (s_addr s = a) && s_waiting s then
              Ok (goto i (Pwake a n j k) (setsema j (s <| s_waiting := false |>) y), [])
            else Ok (goto i (Pwalk a n (s_next s) k) y, [])
          else Ok (resume i k (y <| y_lock := None |>))
      | Nhead => Ok (resume i k (y <| y_lock := None |>))
      end)
  | Pwake a n j k => Some (
      y ← wakeup j y;
      q ← next_of y (Nproc j);
      Ok (goto i (Pwalk a (n - 1) q k) y, []))
  | Prel a d => Some (v ← value y a; Ok (goto i (Prelswap a d v) y, []))
  | Prelswap a d v => Some (
      v' ← value y a;
      if decide (v' = v) then
        Ok (goto i (Plock a d (Kval (s32 (v + d)))) (setvalue a (s32 (v + d)) y), [Eadd i a d])
      else Ok (goto i (Prel a d) y, []))
  end.

(** postnote: a process that sleeps is made to go on. *)
Definition postnote (i : nat) (y : sys) (p : Proc) : res sys :=
  let y := setproc i (p <| p_note := true |>) y in
  match p_pc p with Pasleep _ _ => wakeup i y | _ => Ok y end.

(** [None]: no such step. *)
Definition step (y : sys) (i : nat) (l : label) : option (res (sys * list event)) :=
  p ← y_procs y !! i;
  match l with
  | Lcall c => match p_pc p with Puser _ => Some (Ok (syscall i c y)) | _ => None end
  | Lrun ms => run_proc i ms y p
  | Lnote => Some (y ← postnote i y p; Ok (y, []))
  | Lnotify =>
      match p_pc p with Puser _ => Some (Ok (setproc i (p <| p_note := false |>) y, [])) | _ => None end
  | Ltimer =>
      if p_armed p then Some (Ok (setproc i (p <| p_armed := false |> <| p_fired := S (p_fired p) |>) y, []))
      else None
  | Ltwakeup =>
      match p_fired p with
      | O => None
      | S n =>
          let p := p <| p_fired := n |> in
          Some (Ok (setproc i (if p_trend p then p <| p_trend := false |> <| p_late := S (p_late p) |> else p) y, []))
      end
  | Llate =>
      match p_late p with
      | O => None
      | S n => Some (y ← wakeup i (setproc i (p <| p_late := n |>) y); Ok (y, []))
      end
  end.

Definition user : Proc := mkProc (Puser None) None false false false 0 0.

(** [n] processes in user mode, sharing a segment with these values. *)
Definition init (mem : gmap Z Z) (n : nat) : sys := mkSys mem Nhead Nhead None (replicate n user).

Inductive run : sys → list event → sys → Prop :=
  | run_nil y : run y [] y
  | run_snoc y es y1 i l es1 y2 :
      run y es y1 → step y1 i l = Some (Ok (y2, es1)) → run y (es ++ es1) y2.

(** Run a list of steps. *)
Fixpoint exec (y : sys) (ls : list (nat * label)) : option (res (sys * list event)) :=
  match ls with
  | [] => Some (Ok (y, []))
  | (i, l) :: ls =>
      match step y i l with
      | Some (Ok (y, es)) =>
          r ← exec y ls; Some ('(y, es') ← r; Ok (y, es ++ es'))
      | r => r
      end
  end.
