(* ===== verification/SemaInv.v ===== *)
(** * SemaInv: what holds of the semaphores whoever runs

    The invariant of Sema's steps, for the list [L] of the processes that wait.  The value
    of a semaphore that somebody sleeps for without having been told to go on is at most the
    number of tries and wakeups under way for it: the [total] of the [credit]s. *)

From S2P Require Import Prelude Sema.

(** ** What the place of a process says *)

(** The address of the semaphore whose phore the process has. *)
Definition pc_phore (c : pc) : option Z :=
  match c with
  | Ptry Hard a _ | Pswap Hard a _ _ | Plink a _ | Pset a _ | Parm a _ | Psleep a _ | Pasleep a _
  | Pwoken a _ | Punlink a _ | Pcheck a _ | Plock a _ (Kacq _) | Pwalk a _ _ (Kacq _)
  | Pwake a _ _ (Kacq _) => Some a
  | _ => None
  end.

Definition pc_addr (c : pc) : option Z :=
  match c with
  | Puser _ => None
  | Ptry _ a _ | Pswap _ a _ _ | Pqueue a _ | Plink a _ | Pset a _ | Parm a _ | Psleep a _
  | Pasleep a _ | Pwoken a _ | Punlink a _ | Pcheck a _ | Plock a _ _ | Pwalk a _ _ _
  | Pwake a _ _ _ | Prel a _ | Prelswap a _ _ => Some a
  end.

(** Its phore is on the list. *)
Definition listed (c : pc) : bool :=
  match c with
  | Ptry Hard _ _ | Pswap Hard _ _ _ | Pset _ _ | Parm _ _ | Psleep _ _ | Pasleep _ _ | Pwoken _ _
  | Punlink _ _ => true
  | _ => false
  end.

Definition asleep (c : pc) : bool := match c with Pasleep _ _ => true | _ => false end.

Definition holds (c : pc) : bool :=
  match c with Pwalk _ _ _ _ | Pwake _ _ _ _ => true | _ => false end.

(** Where it is in the list. *)
Definition at_node (c : pc) : option node :=
  match c with Pwalk _ _ q _ => Some q | Pwake _ _ j _ => Some (Nproc j) | _ => None end.

Definition numbers_ok (c : pc) : Prop :=
  match c with
  | Pswap _ _ _ v => 0 < v
  | Plock _ n _ | Pwalk _ n _ _ => 0 ≤ n
  | Pwake _ n _ _ => 0 < n
  | Prel _ d | Prelswap _ d _ => 0 ≤ d
  | _ => True
  end.

(** The tries and wakeups that the place stands for. *)
Definition own (a : Z) (c : pc) : Z :=
  match c with
  | Ptry Hard a' _ | Pswap Hard a' _ _ => if decide (a' = a) then 1 else 0
  | Plock a' n _ | Pwalk a' n _ _ => if decide (a' = a) then Z.max 0 n else 0
  | Pwake a' n _ _ => if decide (a' = a) then Z.max 0 (n - 1) else 0
  | _ => 0
  end.

(** Its phore has been told to go on, and it will try again or pass that on. *)
Definition told (a : Z) (p : Proc) : Z :=
  match p_pc p with
  | Plock _ _ _ | Pwalk _ _ _ _ | Pwake _ _ _ _ => 0
  | _ =>
      match p_phore p with
      | Some s => if decide (s_addr s = a ∧ s_waiting s = false) then 1 else 0
      | None => 0
      end
  end.

Definition credit (a : Z) (p : Proc) : Z := own a (p_pc p) + told a p.

(** About to sleep or asleep, not told to go on. *)
Definition stuck (a : Z) (p : Proc) : Prop :=
  match p_pc p with
  | Parm a' _ | Psleep a' _ | Pasleep a' _ => a' = a ∧ ∃ s, p_phore p = Some s ∧ s_waiting s = true
  | _ => False
  end.

(** Asleep, told to go on: somebody is about to call wakeup. *)
Definition unwoken (p : Proc) : Prop :=
  asleep (p_pc p) = true ∧ ∃ s, p_phore p = Some s ∧ s_waiting s = false.

Definition wakes (j : nat) (c : pc) : Prop := match c with Pwake _ _ i _ => i = j | _ => False end.

Fixpoint total (a : Z) (ps : list Proc) : Z :=
  match ps with [] => 0 | p :: ps => credit a p + total a ps end.

Lemma credit_nonneg a p : 0 ≤ credit a p.
Proof.
  unfold credit, own, told. destruct (p_pc p) as [|[]|[]| | | | | | | | | | | | | |]; destruct (p_phore p);
    repeat case_decide; lia.
Qed.

Lemma total_insert a ps i p p' :
  ps !! i = Some p → total a (<[i := p']> ps) = total a ps - credit a p + credit a p'.
Proof.
  revert i; induction ps as [|q ps IH]; intros [|i] H; try done; csimpl in *.
  - simplify_eq. lia.
  - rewrite (IH _ H). lia.
Qed.

Lemma total_credit_nonneg a ps : 0 ≤ total a ps.
Proof. induction ps as [|p ps IH]; cbn; [lia |]. pose proof (credit_nonneg a p). lia. Qed.

Lemma credit_total a ps i p : ps !! i = Some p → credit a p ≤ total a ps.
Proof.
  revert i; induction ps as [|q ps IH]; intros [|i] H; try done; cbn in *.
  - simplify_eq. pose proof (total_credit_nonneg a ps). lia.
  - specialize (IH _ H). pose proof (credit_nonneg a q). lia.
Qed.

(** ** The invariant *)

Record local (mem : gmap Z Z) (lock : option nat) (L : list nat) (i : nat) (p : Proc) : Prop := {
  l_phore :
    match p_phore p with
    | None => pc_phore (p_pc p) = None
    | Some s => pc_phore (p_pc p) = Some (s_addr s) ∧ s_p s = (if asleep (p_pc p) then Some i else None)
    end;
  l_listed : listed (p_pc p) = true ↔ i ∈ L;
  l_lock : holds (p_pc p) = true ↔ lock = Some i;
  l_addr : ∀ a, pc_addr (p_pc p) = Some a → is_Some (mem !! a);
  l_num : numbers_ok (p_pc p);
  l_pos : ∀ j, at_node (p_pc p) = Some (Nproc j) → j ∈ L
}.

Definition mem_ok (mem : gmap Z Z) : Prop := map_Forall (λ _, is_s32) mem.

(** From [a] through [l] to [b]. *)
Fixpoint chain (y : sys) (a : node) (l : list nat) (b : node) : Prop :=
  match l with
  | [] => next_of y a = Ok b ∧ prev_of y b = Ok a
  | x :: l => next_of y a = Ok (Nproc x) ∧ prev_of y (Nproc x) = Ok a ∧ chain y (Nproc x) l b
  end.

(** Those on the list before [q], and those a walk has gone past. *)
Fixpoint before (q : node) (L : list nat) : list nat :=
  match L with
  | [] => []
  | x :: L => if decide (Nproc x = q) then [] else x :: before q L
  end.

Definition behind (L : list nat) (c : pc) : list nat :=
  match c with
  | Pwalk _ _ q _ => before q L
  | Pwake _ _ j _ => before (Nproc j) L ++ [j]
  | _ => []
  end.

Record core (L : list nat) (y : sys) : Prop := {
  i_nodup : NoDup L;
  i_mem : mem_ok (y_mem y);
  i_lock : ∀ h, y_lock y = Some h → is_Some (y_procs y !! h);
  i_local : ∀ i p, y_procs y !! i = Some p → local (y_mem y) (y_lock y) L i p;
  i_unwoken : ∀ i p, y_procs y !! i = Some p → unwoken p →
    ∃ w pw, y_procs y !! w = Some pw ∧ wakes i (p_pc pw);
  i_stuck : ∀ a v i p, y_mem y !! a = Some v → y_procs y !! i = Some p → stuck a p →
    v ≤ total a (y_procs y);
  i_passed : ∀ a v i p w pw, y_mem y !! a = Some v → y_procs y !! i = Some p → stuck a p →
    y_procs y !! w = Some pw → i ∈ behind L (p_pc pw) → v ≤ total a (y_procs y) - credit a pw
}.

Record inv (L : list nat) (y : sys) : Prop := { i_ring : chain y Nhead L Nhead; i_core :> core L y }.

(** Whoever is on the list or at a node of it has a phore. *)
Lemma chain_phore y a l b x : chain y a l b → x ∈ l → is_Some (phore y x).
Proof.
  revert a; induction l as [|z l IH]; intros a H Hx; cbn in *; [set_solver |].
  destruct H as (Hn & Hp & Hc). apply elem_of_cons in Hx as [->|Hx]; [| by eapply IH].
  unfold prev_of, getsema in Hp. destruct (phore y z); [by eexists | done].
Qed.

(** ** Steps of one process

    A step that changes process [i], which does not hold the lock, and the values, keeps
    the invariant if each semaphore with the process accounts for what it did before. *)
Lemma chain_ext y y' a l b :
  (∀ q, q = a ∨ q ∈ Nproc <$> l → next_of y' q = next_of y q) →
  (∀ q, q = b ∨ q ∈ Nproc <$> l → prev_of y' q = prev_of y q) → chain y a l b → chain y' a l b.
Proof.
  revert a; induction l as [|x l IH]; intros a Hn Hp H; cbn [chain] in *.
  - destruct H. split; [rewrite Hn by auto | rewrite Hp by auto]; done.
  - destruct H as (H1 & H2 & H3). split; [by rewrite Hn by auto |]. split; [by rewrite Hp by set_solver |].
    apply IH; [intros q Hq; apply Hn; set_solver | intros q Hq; apply Hp; set_solver | done].
Qed.

Definition links (p : Proc) : option (node * node) := (λ s, (s_next s, s_prev s)) <$> p_phore p.

Lemma next_links y y' q :
  y_next y' = y_next y → (∀ i, q = Nproc i → (y_procs y' !! i ≫= links) = (y_procs y !! i ≫= links)) →
  next_of y' q = next_of y q.
Proof.
  intros H1 H2. destruct q as [|i]; cbn; [by rewrite H1 |]. specialize (H2 i eq_refl).
  unfold getsema, phore. unfold links in H2.
  destruct (y_procs y' !! i) as [[? [[]|] ? ? ? ? ?]|], (y_procs y !! i) as [[? [[]|] ? ? ? ? ?]|]; cbn in *; simplify_eq; done.
Qed.

Lemma prev_links y y' q :
  y_prev y' = y_prev y → (∀ i, q = Nproc i → (y_procs y' !! i ≫= links) = (y_procs y !! i ≫= links)) →
  prev_of y' q = prev_of y q.
Proof.
  intros H1 H2. destruct q as [|i]; cbn; [by rewrite H1 |]. specialize (H2 i eq_refl).
  unfold getsema, phore. unfold links in H2.
  destruct (y_procs y' !! i) as [[? [[]|] ? ? ? ? ?]|], (y_procs y !! i) as [[? [[]|] ? ? ? ? ?]|]; cbn in *; simplify_eq; done.
Qed.

(** What the change of one process to [p'] with values [mem'] must satisfy. *)
Record change (mem mem' : gmap Z Z) (p p' : Proc) : Prop := {
  c_mem : mem_ok mem';
  c_dom : ∀ a, is_Some (mem !! a) → is_Some (mem' !! a);
  c_unwoken : unwoken p' → unwoken p;
  c_credit : ∀ a v', mem' !! a = Some v' → v' ≤ 0 ∨
    ∃ v, mem !! a = Some v ∧ v' - credit a p' ≤ v - credit a p ∧ (stuck a p' → stuck a p)
}.

(** [L'] is the list after the step: [L], or one that differs in [i] if nobody walks. *)
Lemma core_change L L' y i p p' mem' :
  core L y → y_procs y !! i = Some p → y_lock y ≠ Some i →
  change (y_mem y) mem' p p' → local mem' (y_lock y) L' i p' →
  NoDup L' → (∀ j, j ≠ i → j ∈ L' ↔ j ∈ L) → L' = L ∨ y_lock y = None →
  core L' (setproc i p' (y <| y_mem := mem' |>)).
Proof.
  intros I Hp Hl C Hloc Hnd HL HLl.
  assert (Hh' : holds (p_pc p') = false).
  { destruct (holds (p_pc p')) eqn:E; [| done]. by apply (l_lock _ _ _ _ _ Hloc) in E. }
  assert (Hb : ∀ L j c, holds c = false → j ∉ behind L c) by (intros ? j []; cbn; set_solver).
  assert (Hlt : (i < length (y_procs y))%nat) by (by eapply lookup_lt_Some).
  assert (Hlook : ∀ j q, (<[i := p']> (y_procs y)) !! j = Some q → j = i ∧ q = p' ∨ j ≠ i ∧ y_procs y !! j = Some q).
  { intros j q. destruct (decide (j = i)) as [->|Hn].
    - rewrite list_lookup_insert_eq by done. intros [= <-]. by left.
    - rewrite list_lookup_insert_ne by done. by right. }
  assert (Hstuck : ∀ a j q, (<[i := p']> (y_procs y)) !! j = Some q → stuck a q →
    (stuck a p' → stuck a p) → ∃ q, y_procs y !! j = Some q ∧ stuck a q).
  { intros a j q [[-> ->]|[Hn Hj]]%Hlook Hs Hs'; eauto. }
  split; cbn.
  - done.
  - by apply (c_mem _ _ _ _ C).
  - intros h Hh. rewrite list_lookup_insert_ne by congruence. by apply (i_lock _ _ I).
  - intros j q [[-> ->]|[Hn Hj]]%Hlook; [done |]. destruct (i_local _ _ I _ _ Hj). split; auto.
    + by rewrite HL.
    + intros a Ha. apply (c_dom _ _ _ _ C); auto.
    + intros k Hk. specialize (l_pos0 _ Hk). destruct HLl as [->|HLl]; [done |].
      rewrite HLl in l_lock0. destruct (p_pc q); try done; naive_solver.
  - intros j q [[-> ->]|[Hn Hj]]%Hlook Hu.
    + destruct (i_unwoken _ _ I _ _ Hp) as (w & pw & Hw & Hk); [by apply (c_unwoken _ _ _ _ C) |].
      exists w, pw. split; [| done]. rewrite list_lookup_insert_ne; [done |].
      intros ->. assert (pw = p) as -> by congruence. pose proof (l_lock _ _ _ _ _ (i_local _ _ I _ _ Hw)).
      destruct (p_pc p); cbn in *; try done; naive_solver.
    + destruct (i_unwoken _ _ I _ _ Hj Hu) as (w & pw & Hw & Hk).
      exists w, pw. split; [| done]. rewrite list_lookup_insert_ne; [done |].
      intros ->. assert (pw = p) as -> by congruence. pose proof (l_lock _ _ _ _ _ (i_local _ _ I _ _ Hw)).
      destruct (p_pc p); cbn in *; try done; naive_solver.
  - intros a v j q Hv Hj Hs. rewrite (total_insert _ _ _ _ _ Hp).
    destruct (c_credit _ _ _ _ C _ _ Hv) as [?|(v0 & Hv0 & Hc & Hs0)].
    + pose proof (credit_total a _ _ _ Hp). pose proof (credit_nonneg a p'). lia.
    + destruct (Hstuck _ _ _ Hj Hs Hs0) as (q0 & Hj0 & Hq0). pose proof (i_stuck _ _ I _ _ _ _ Hv0 Hj0 Hq0). lia.
  - intros a v j q w pw Hv Hj Hs [[-> ->]|[Hwi Hw]]%Hlook Hin; [by apply Hb in Hin |].
    assert (j ∈ behind L (p_pc pw)) as HinL.
    { destruct HLl as [->|HLl]; [done |]. apply Hb in Hin; [done |].
      pose proof (l_lock _ _ _ _ _ (i_local _ _ I _ _ Hw)) as Hk. rewrite HLl in Hk.
      destruct (holds (p_pc pw)); [naive_solver | done]. }
    rewrite (total_insert _ _ _ _ _ Hp). destruct (c_credit _ _ _ _ C _ _ Hv) as [?|(v0 & Hv0 & Hc & Hs0)].
    + pose proof (credit_total a (<[i:=p']> (y_procs y)) w pw) as Ht.
      rewrite list_lookup_insert_ne, (total_insert _ _ _ _ _ Hp) in Ht by done. specialize (Ht Hw). lia.
    + destruct (Hstuck _ _ _ Hj Hs Hs0) as (q0 & Hj0 & Hq0).
      pose proof (i_passed _ _ I _ _ _ _ _ _ Hv0 Hj0 Hq0 Hw HinL). lia.
Qed.

Lemma sema_inv_change L y i p p' mem' :
  inv L y → y_procs y !! i = Some p → y_lock y ≠ Some i → links p' = links p ∨ listed (p_pc p') = false →
  change (y_mem y) mem' p p' → local mem' (y_lock y) L i p' →
  inv L (setproc i p' (y <| y_mem := mem' |>)).
Proof.
  intros I Hp Hl Hlk C Hloc. assert (Hlt : (i < length (y_procs y))%nat) by (by eapply lookup_lt_Some).
  assert (Hl' : ∀ k, k ∈ L → (<[i := p']> (y_procs y)) !! k ≫= links = y_procs y !! k ≫= links).
  { intros k Hk. destruct (decide (k = i)) as [->|]; [| by rewrite list_lookup_insert_ne].
    rewrite list_lookup_insert_eq, Hp by done. cbn. destruct Hlk as [|Hn]; [done |].
    apply (l_listed _ _ _ _ _ Hloc) in Hk. congruence. }
  split; [| by eapply core_change; eauto using i_core, i_nodup].
  eapply chain_ext; [| | by apply (i_ring _ _ I)].
  - intros q Hq. apply next_links; [done |]. intros k ->. apply Hl'. set_solver.
  - intros q Hq. apply prev_links; [done |]. intros k ->. apply Hl'. set_solver.
Qed.

(** ** Steps of the process that holds the lock, or takes it *)

Lemma inv_holder L y i p p' lock' :
  inv L y → y_procs y !! i = Some p →
  (∀ j, j ≠ i → y_lock y ≠ Some j ∧ lock' ≠ Some j) →
  local (y_mem y) lock' L i p' → listed (p_pc p') = false →
  (∀ j q, y_procs y !! j = Some q → unwoken q → wakes j (p_pc p) → wakes j (p_pc p')) →
  (∀ a v j q, y_mem y !! a = Some v → y_procs y !! j = Some q → stuck a q →
    v ≤ total a (y_procs y) - credit a p + credit a p' ∧
    (j ∈ behind L (p_pc p') → v ≤ total a (y_procs y) - credit a p)) →
  inv L (setproc i p' (y <| y_lock := lock' |>)).
Proof.
  intros I Hp Hlk Hloc Hls Hw Hst.
  assert (Hlt : (i < length (y_procs y))%nat) by (by eapply lookup_lt_Some).
  assert (HiL : i ∉ L) by (intros HL; apply (l_listed _ _ _ _ _ Hloc) in HL; congruence).
  assert (Hns : ∀ a, ¬ stuck a p').
  { intros a. unfold stuck. revert Hls. by destruct (p_pc p') as [|[]|[]| | | | | | | | | | | | | |]; auto. }
  assert (Hnu : ¬ unwoken p') by (intros [Hu _]; revert Hls Hu; by destruct (p_pc p')).
  assert (Hlook : ∀ j q, (<[i := p']> (y_procs y)) !! j = Some q → j = i ∧ q = p' ∨ j ≠ i ∧ y_procs y !! j = Some q).
  { intros j q. destruct (decide (j = i)) as [->|Hn].
    - rewrite list_lookup_insert_eq by done. intros [= <-]. by left.
    - rewrite list_lookup_insert_ne by done. by right. }
  split; [| split]; cbn.
  - eapply chain_ext; [| | by apply (i_ring _ _ I)].
    + intros q Hq. apply next_links; [done |]. intros k ->. cbn. rewrite list_lookup_insert_ne; [done | set_solver].
    + intros q Hq. apply prev_links; [done |]. intros k ->. cbn. rewrite list_lookup_insert_ne; [done | set_solver].
  - by apply (i_nodup _ _ I).
  - by apply (i_mem _ _ I).
  - intros h Hh. destruct (decide (h = i)) as [->|Hn]; [rewrite list_lookup_insert_eq by done; by eexists |].
    by destruct (Hlk h Hn).
  - intros j q [[-> ->]|[Hn Hj]]%Hlook; [done |]. destruct (i_local _ _ I _ _ Hj). destruct (Hlk j Hn).
    split; try done. tauto.
  - intros j q [[-> ->]|[Hn Hj]]%Hlook Hu; [done |].
    destruct (i_unwoken _ _ I _ _ Hj Hu) as (w & pw & Hpw & Hk). destruct (decide (w = i)) as [->|].
    + exists i, p'. rewrite list_lookup_insert_eq by done. split; [done |]. assert (pw = p) as -> by congruence. eauto.
    + exists w, pw. by rewrite list_lookup_insert_ne.
  - intros a v j q Hv [[-> ->]|[Hn Hj]]%Hlook Hs; [by apply Hns in Hs |].
    rewrite (total_insert _ _ _ _ _ Hp). by apply (Hst _ _ _ _ Hv Hj Hs).
  - intros a v j q w pw Hv [[-> ->]|[Hn Hj]]%Hlook Hs Hpw Hin; [by apply Hns in Hs |].
    rewrite (total_insert _ _ _ _ _ Hp). apply Hlook in Hpw as [[-> ->]|[Hwn Hpw]].
    + apply (Hst _ _ _ _ Hv Hj Hs) in Hin. lia.
    + exfalso. destruct (i_local _ _ I _ _ Hpw). destruct (Hlk w Hwn).
      destruct (p_pc pw); cbn in *; try set_solver; naive_solver.
Qed.

(** ** Where a walk is *)

Lemma before_nodup_app L1 x L2 : (x ∉ L1) → before (Nproc x) (L1 ++ x :: L2) = L1.
Proof.
  induction L1 as [|z L1 IH]; intros H; cbn; [by rewrite decide_True |].
  rewrite decide_False by set_solver. by rewrite IH by set_solver.
Qed.

Lemma before_head L : before Nhead L = L.
Proof. induction L as [|z L IH]; cbn; [done |]. by rewrite IH. Qed.

Lemma chain_first y a l b : chain y a l b → next_of y a = Ok (match l with [] => b | x :: _ => Nproc x end).
Proof. destruct l; cbn; tauto. Qed.

Lemma chain_app y a l x l' b : chain y a (l ++ x :: l') b ↔ chain y a l (Nproc x) ∧ chain y (Nproc x) l' b.
Proof. revert a; induction l as [|z l IH]; intros a; cbn [app chain]; [tauto |]. rewrite IH. tauto. Qed.

(** The head of the list is where a walk begins. *)
Lemma before_first L y : chain y Nhead L Nhead → before (y_next y) L = [].
Proof. intros H%chain_first. cbn in H. simplify_eq. destruct L; cbn in *; [done |]. simplify_eq H. intros ->. by rewrite decide_True. Qed.

Lemma first_in L y j : chain y Nhead L Nhead → y_next y = Nproc j → j ∈ L.
Proof. intros H%chain_first Hj. cbn in H. simplify_eq H; intros H'. rewrite Hj in H'. destruct L; [done |]. simplify_eq. left. Qed.

(** One node on. *)
Lemma before_next L y j q :
  chain y Nhead L Nhead → NoDup L → j ∈ L → next_of y (Nproc j) = Ok q →
  before q L = before (Nproc j) L ++ [j] ∧ (∀ i, q = Nproc i → i ∈ L).
Proof.
  intros H Hnd Hj Hq. apply list_elem_of_split in Hj as (L1 & L2 & ->).
  apply list.NoDup_app in Hnd as (Hnd1 & Hd & Hnd2). apply list.NoDup_cons in Hnd2 as [Hj2 Hnd2].
  assert (j ∉ L1) by (intros ?; eapply Hd; [done | left]).
  apply chain_app in H as [_ H%chain_first]. rewrite Hq in H. simplify_eq. rewrite before_nodup_app by done.
  destruct L2 as [|z L2].
  - rewrite before_head. split; [done | by intros]. 
  - split; [| intros i [= ->]; set_solver].
    change (j :: z :: L2) with ([j] ++ z :: L2). rewrite app_assoc. apply before_nodup_app.
    intros Hz. apply list.elem_of_app in Hz as [Hz|Hz]; [| set_solver]. eapply Hd; [done |]. set_solver.
Qed.
