(* ===== verification/SemaList.v ===== *)
(** * SemaList: the list of those who wait

    semqueue and semdequeue on the ring of Semas: what they do to the links, and that they
    change nothing else. *)

From S2P Require Import Prelude Sema SemaInv.

(** What there is of a process but the links of its phore. *)
Definition view (p : Proc) : pc * option (option nat * Z * bool) :=
  (p_pc p, (λ s, (s_p s, s_addr s, s_waiting s)) <$> p_phore p).

Definition relinked (y y' : sys) : Prop :=
  y_mem y' = y_mem y ∧ y_lock y' = y_lock y ∧ view <$> y_procs y' = view <$> y_procs y.

Lemma relinked_refl y : relinked y y.
Proof. done. Qed.

Lemma relinked_trans y1 y2 y3 : relinked y1 y2 → relinked y2 y3 → relinked y1 y3.
Proof. unfold relinked. intros (? & ? & ?) (? & ? & ?). split_and!; congruence. Qed.

Lemma relinked_goto y y' i c : relinked y y' → relinked (goto i c y) (goto i c y').
Proof.
  intros (H1 & H2 & H3). unfold relinked, goto. cbn. split_and!; try done. apply list_eq. intros j.
  assert ((view <$> y_procs y') !! j = (view <$> y_procs y) !! j) as E by (by rewrite H3).
  rewrite !list_lookup_fmap in *. destruct (decide (j = i)) as [->|Hn]; [| by rewrite !list_lookup_alter_ne].
  rewrite !list_lookup_alter_eq. destruct (y_procs y' !! i), (y_procs y !! i); try done. cbn in *. unfold view in *. cbn. congruence.
Qed.

Lemma goto_links y i c k : (y_procs (goto i c y) !! k ≫= links) = (y_procs y !! k ≫= links).
Proof.
  unfold goto. cbn. destruct (decide (k = i)) as [->|]; [| by rewrite list_lookup_alter_ne].
  rewrite list_lookup_alter_eq. by destruct (y_procs y !! i).
Qed.

Lemma chain_goto y i c a l b : chain y a l b → chain (goto i c y) a l b.
Proof.
  apply chain_ext; intros q _; [apply next_links | apply prev_links]; try done; intros; apply goto_links.
Qed.

(** ** What does not depend on links *)

Lemma view_credit a p p' : view p' = view p → credit a p' = credit a p.
Proof.
  unfold view. intros [= H1 H2]. unfold credit, told. rewrite H1.
  destruct (p_phore p) as [[]|], (p_phore p') as [[]|]; cbn in *; simplify_eq; done.
Qed.

Lemma view_stuck a p p' : view p' = view p → stuck a p' → stuck a p.
Proof.
  unfold view. intros [= H1 H2]. unfold stuck. rewrite H1.
  destruct (p_pc p); try done; intros [? (s & Hs & ?)]; (split; [done |]); rewrite Hs in H2;
    destruct (p_phore p) as [s'|]; cbn in *; simplify_eq; exists s'; split; congruence.
Qed.

Lemma view_unwoken p p' : view p' = view p → unwoken p' → unwoken p.
Proof.
  unfold view. intros [= H1 H2]. unfold unwoken. rewrite H1. intros [? (s & Hs & ?)]. split; [done |].
  rewrite Hs in H2. destruct (p_phore p) as [s'|]; cbn in *; simplify_eq. exists s'. split; congruence.
Qed.

Lemma view_local mem lock L i p p' : view p' = view p → local mem lock L i p → local mem lock L i p'.
Proof.
  unfold view. intros [= H1 H2] []. split; rewrite ?H1; try done.
  destruct (p_phore p') as [s'|], (p_phore p) as [s|]; cbn in *; simplify_eq; try done. congruence.
Qed.

Lemma view_total a (ps ps' : list Proc) : view <$> ps' = view <$> ps → total a ps' = total a ps.
Proof.
  revert ps'; induction ps as [|p ps IH]; intros [|p' ps'] H; try done. cbn in *. injection H as H1 H2 H3.
  rewrite (IH ps') by done. rewrite (view_credit a p p'); [done | unfold view; congruence].
Qed.

Lemma view_lookup (ps ps' : list Proc) i p :
  view <$> ps' = view <$> ps → ps' !! i = Some p → ∃ q, ps !! i = Some q ∧ view p = view q.
Proof.
  intros H Hp. assert ((view <$> ps') !! i = (view <$> ps) !! i) as E by (by rewrite H).
  rewrite !list_lookup_fmap, Hp in E. cbn in E. destruct (ps !! i) as [q|]; [| done].
  injection E as E1 E2. exists q. split; [done |]. unfold view. congruence.
Qed.

Lemma core_relinked L y y' : core L y → relinked y y' → core L y'.
Proof.
  intros C (Hm & Hl & Hv). split.
  - apply (i_nodup _ _ C).
  - rewrite Hm. apply (i_mem _ _ C).
  - intros h Hh. rewrite Hl in Hh. destruct (i_lock _ _ C _ Hh) as [p Hp].
    destruct (view_lookup _ _ _ _ (eq_sym Hv) Hp) as (p' & Hp' & _). by eexists.
  - intros i p' Hp'. destruct (view_lookup _ _ _ _ Hv Hp') as (p & Hp & Hpp).
    rewrite Hm, Hl. eapply view_local; [done |]. by apply (i_local _ _ C).
  - intros i p' Hp' Hu. destruct (view_lookup _ _ _ _ Hv Hp') as (p & Hp & Hpp).
    destruct (i_unwoken _ _ C _ _ Hp (view_unwoken _ _ Hpp Hu)) as (w & pw & Hw & Hk).
    destruct (view_lookup _ _ _ _ (eq_sym Hv) Hw) as (pw' & Hw' & Hww). exists w, pw'. split; [done |].
    unfold view in Hww. injection Hww as Hww _. by rewrite <- Hww.
  - intros a v i p' Hv0 Hp' Hs. destruct (view_lookup _ _ _ _ Hv Hp') as (p & Hp & Hpp).
    rewrite (view_total _ _ _ Hv). rewrite Hm in Hv0. apply (i_stuck _ _ C _ _ _ _ Hv0 Hp). by eapply view_stuck.
  - intros a v i p' w pw' Hv0 Hp' Hs Hw' Hin. destruct (view_lookup _ _ _ _ Hv Hp') as (p & Hp & Hpp).
    destruct (view_lookup _ _ _ _ Hv Hw') as (pw & Hw & Hww).
    rewrite (view_total _ _ _ Hv), (view_credit a _ _ Hww). rewrite Hm in Hv0.
    assert (p_pc pw' = p_pc pw) as E by (unfold view in Hww; congruence). rewrite E in Hin.
    apply (i_passed _ _ C _ _ _ _ _ _ Hv0 Hp (view_stuck _ _ _ Hpp Hs) Hw Hin).
Qed.

(** ** Setting a link *)

Definition alive (y : sys) (q : node) : Prop :=
  match q with Nhead => True | Nproc i => is_Some (phore y i) end.

Lemma phore_setsema y i s j :
  is_Some (phore y i) → phore (setsema i s y) j = if decide (j = i) then Some s else phore y j.
Proof.
  unfold phore, setsema. cbn. intros [x H]. case_decide as E.
  - subst j. rewrite list_lookup_alter_eq. destruct (y_procs y !! i); done.
  - rewrite list_lookup_alter_ne by done. done.
Qed.

Lemma relinked_setsema y i s s' :
  phore y i = Some s → s_p s' = s_p s → s_addr s' = s_addr s → s_waiting s' = s_waiting s →
  relinked y (setsema i s' y).
Proof.
  intros H H1 H2 H3. unfold relinked, setsema. cbn. split_and!; try done.
  apply list_eq. intros j. rewrite !list_lookup_fmap. destruct (decide (j = i)) as [->|Hn].
  - rewrite list_lookup_alter_eq. unfold phore in H. destruct (y_procs y !! i) as [p|]; [| done]. cbn in *.
    unfold view. cbn. rewrite H. cbn. congruence.
  - by rewrite list_lookup_alter_ne.
Qed.

Lemma alive_relinked y y' q : relinked y y' → alive y q → alive y' q.
Proof.
  intros (_ & _ & Hv). destruct q as [|i]; [done |]. cbn. unfold phore. intros [s Hs].
  destruct (y_procs y !! i) as [p|] eqn:E; [| done]. cbn in Hs.
  destruct (view_lookup _ _ _ _ (eq_sym Hv) E) as (p' & -> & Hpp). cbn.
  unfold view in Hpp. injection Hpp as _ Hpp. rewrite Hs in Hpp. destruct (p_phore p'); [by eexists | done].
Qed.

Lemma setnext_ok y q n :
  alive y q → ∃ y', setnext q n y = Ok y' ∧ relinked y y' ∧
    (∀ r, next_of y' r = if decide (r = q) then Ok n else next_of y r) ∧
    (∀ r, prev_of y' r = prev_of y r).
Proof.
  destruct q as [|i]; cbn.
  - intros _. eexists. split; [done |]. split_and!; try done. intros [|j]; cbn; [by rewrite decide_True | by rewrite decide_False].
  - intros Hi. pose proof Hi as [s Hs]. unfold getsema at 1. rewrite Hs. cbn. eexists. split; [done |].
    split_and!.
    + by eapply relinked_setsema.
    + intros [|j]; cbn; [by rewrite decide_False |]. unfold getsema. rewrite phore_setsema by done.
      destruct (decide (j = i)) as [->|Hn]; [by rewrite decide_True | by rewrite decide_False by congruence].
    + intros [|j]; cbn; [done |]. unfold getsema. rewrite phore_setsema by done.
      case_decide as E; [subst; by rewrite Hs | done].
Qed.

Lemma setprev_ok y q n :
  alive y q → ∃ y', setprev q n y = Ok y' ∧ relinked y y' ∧
    (∀ r, prev_of y' r = if decide (r = q) then Ok n else prev_of y r) ∧
    (∀ r, next_of y' r = next_of y r).
Proof.
  destruct q as [|i]; cbn.
  - intros _. eexists. split; [done |]. split_and!; try done. intros [|j]; cbn; [by rewrite decide_True | by rewrite decide_False].
  - intros Hi. pose proof Hi as [s Hs]. unfold getsema at 1. rewrite Hs. cbn. eexists. split; [done |].
    split_and!.
    + by eapply relinked_setsema.
    + intros [|j]; cbn; [by rewrite decide_False |]. unfold getsema. rewrite phore_setsema by done.
      destruct (decide (j = i)) as [->|Hn]; [by rewrite decide_True | by rewrite decide_False by congruence].
    + intros [|j]; cbn; [done |]. unfold getsema. rewrite phore_setsema by done.
      case_decide as E; [subst; by rewrite Hs | done].
Qed.

(** ** The two routines *)

Fixpoint last_node (a : node) (l : list nat) : node :=
  match l with [] => a | x :: l => last_node (Nproc x) l end.

Lemma last_node_in a l : last_node a l = a ∨ ∃ x, last_node a l = Nproc x ∧ x ∈ l.
Proof.
  revert a; induction l as [|x l IH]; intros a; cbn; [by left |]. right.
  destruct (IH (Nproc x)) as [->|(z & -> & Hz)]; [exists x | exists z]; set_solver.
Qed.

Lemma chain_last y a l b : chain y a l b → prev_of y b = Ok (last_node a l) ∧ next_of y (last_node a l) = Ok b.
Proof. revert a; induction l as [|x l IH]; intros a H; cbn [chain last_node] in *; [tauto |]. apply IH; tauto. Qed.

(** A chain made to end at [b']. *)
Lemma chain_to y y' a l b b' :
  chain y a l b → NoDup (a :: (Nproc <$> l)) →
  next_of y' (last_node a l) = Ok b' → prev_of y' b' = Ok (last_node a l) →
  (∀ q, q ∈ a :: (Nproc <$> l) → q ≠ last_node a l → next_of y' q = next_of y q) →
  (∀ q, q ∈ Nproc <$> l → prev_of y' q = prev_of y q) → chain y' a l b'.
Proof.
  revert a; induction l as [|x l IH]; intros a H Hnd Hn Hp Hns Hps; cbn [chain last_node fmap list_fmap] in *; [done |].
  destruct H as (H1 & H2 & H3). apply list.NoDup_cons in Hnd as [Ha Hnd]. split_and!.
  - rewrite Hns; [done | left |]. intros E. apply Ha.
    destruct (last_node_in (Nproc x) l) as [E'|(z & E' & Hz)]; rewrite E, E'; set_solver.
  - rewrite Hps; [done | left].
  - apply IH; [done.. | |].
    + intros q Hq Hne. apply Hns; [by right | done].
    + intros q Hq. apply Hps. by right.
Qed.

#[export] Instance Nproc_inj : Inj (=) (=) Nproc.
Proof. by intros ?? [=]. Qed.

Lemma nodes_nodup L : NoDup L → NoDup (Nhead :: (Nproc <$> L)).
Proof.
  intros H. apply list.NoDup_cons. split; [set_solver |].
  by apply (NoDup_fmap_2 Nproc).
Qed.

Lemma last_alive y L b : chain y Nhead L b → alive y (last_node Nhead L).
Proof.
  intros H. destruct (last_node_in Nhead L) as [->|(x & -> & Hx)]; [done |]. by eapply chain_phore.
Qed.

Lemma semqueue_ok y L i :
  chain y Nhead L Nhead → NoDup L → is_Some (phore y i) → (i ∉ L) →
  ∃ y', semqueue i y = Ok y' ∧ relinked y y' ∧ chain y' Nhead (L ++ [i]) Nhead.
Proof.
  intros H Hnd Hi HiL. set (t := last_node Nhead L).
  assert (t ≠ Nproc i) as Hti.
  { unfold t. destruct (last_node_in Nhead L) as [->|(z & -> & Hz)]; [done |]. intros [= ->]. done. }
  destruct (chain_last _ _ _ _ H) as [Ht _]. fold t in Ht.
  destruct (setnext_ok y (Nproc i) Nhead Hi) as (y1 & E1 & R1 & N1 & P1).
  destruct (setprev_ok y1 (Nproc i) t) as (y2 & E2 & R2 & P2 & N2); [by eapply alive_relinked |].
  destruct (setprev_ok y2 Nhead (Nproc i)) as (y3 & E3 & R3 & P3 & N3); [done |].
  destruct (setnext_ok y3 t (Nproc i)) as (y4 & E4 & R4 & N4 & P4).
  { do 3 (eapply alive_relinked; [done |]). by eapply last_alive. }
  exists y4. split; [| split].
  - unfold semqueue. rewrite E1. cbn [mbind res_bind]. rewrite P1, Ht. cbn [mbind res_bind].
    rewrite E2. cbn [mbind res_bind]. rewrite N2, N1, decide_True by done. cbn [mbind res_bind].
    rewrite E3. cbn [mbind res_bind]. rewrite P3, decide_False, P2, decide_True by done. done.
  - by do 3 (eapply relinked_trans; [done |]).
  - apply chain_app. split.
    + apply (chain_to y y4 Nhead L Nhead); [done | by apply nodes_nodup | | | |].
      * fold t. by rewrite N4, decide_True.
      * fold t. by rewrite P4, P3, decide_False, P2, decide_True.
      * fold t. intros q Hq Hne. rewrite N4, decide_False, N3, N2, N1, decide_False by set_solver. done.
      * intros q Hq. rewrite P4, P3, decide_False, P2, decide_False, P1 by set_solver. done.
    + cbn [chain]. rewrite N4, decide_False, N3, N2, N1, decide_True by done.
      by rewrite P4, P3, decide_True.
Qed.

Lemma semdequeue_ok y L1 L2 i :
  chain y Nhead (L1 ++ i :: L2) Nhead → NoDup (L1 ++ i :: L2) →
  ∃ y', semdequeue i y = Ok y' ∧ relinked y y' ∧ chain y' Nhead (L1 ++ L2) Nhead.
Proof.
  intros H Hnd. assert (is_Some (phore y i)) as Hi by (eapply chain_phore; [done | set_solver]).
  pose proof H as [H1 H2]%chain_app. destruct (chain_last _ _ _ _ H1) as [Ht Hnt].
  pose proof (chain_first _ _ _ _ H2) as Hn.
  set (t := last_node Nhead L1) in *. set (n := match L2 with [] => Nhead | x :: _ => Nproc x end) in *.
  apply list.NoDup_app in Hnd as (Hnd1 & Hd & Hnd2). apply list.NoDup_cons in Hnd2 as [Hi2 Hnd2].
  assert (i ∉ L1) as Hi1 by (intros ?; eapply Hd; [done | left]).
  assert (t ≠ Nproc i) as Hti.
  { unfold t. destruct (last_node_in Nhead L1) as [->|(z & -> & Hz)]; [done |]. intros [= ->]. done. }
  assert (n ≠ Nproc i) as Hni by (unfold n; destruct L2; set_solver).
  destruct (setprev_ok y n t) as (y1 & E1 & R1 & P1 & N1).
  { unfold n. destruct L2; [done |]. eapply chain_phore; [done | set_solver]. }
  destruct (setnext_ok y1 t n) as (y2 & E2 & R2 & N2 & P2).
  { eapply alive_relinked; [done |]. by eapply last_alive. }
  exists y2. split; [| split].
  - unfold semdequeue. rewrite Hn. cbn [mbind res_bind]. rewrite Ht. cbn [mbind res_bind].
    rewrite E1. cbn [mbind res_bind]. rewrite P1, decide_False, Ht by done. cbn [mbind res_bind].
    rewrite N1, Hn. done.
  - by eapply relinked_trans.
  - assert (chain y2 Nhead L1 n) as Hc1.
    { apply (chain_to y y2 Nhead L1 (Nproc i)); [done | by apply nodes_nodup | | | |].
      - fold t. by rewrite N2, decide_True.
      - fold t. by rewrite P2, P1, decide_True.
      - fold t. intros q Hq Hne. by rewrite N2, decide_False, N1.
      - intros q Hq. rewrite P2, P1, decide_False; [done |].
        intros ->. unfold n in Hq. destruct L2 as [|z L2]; [set_solver |].
        apply (list_elem_of_fmap_1 Nproc) in Hq as (w & [= <-] & Hw). eapply Hd; [done | set_solver]. }
    unfold n in *. destruct L2 as [|z L2]; [by rewrite app_nil_r |].
    apply chain_app. split; [done |]. cbn [chain] in H2. destruct H2 as (_ & _ & H2).
    apply list.NoDup_cons in Hnd2 as [Hz Hnd2].
    eapply chain_ext; [| | exact H2].
    + intros q Hq. rewrite N2, decide_False, N1; [done |]. intros ->. unfold t in Hq.
      destruct (last_node_in Nhead L1) as [E|(w & E & Hw)]; rewrite E in Hq; [set_solver |].
      eapply Hd; [done |]. set_solver.
    + intros q Hq. rewrite P2, P1, decide_False by set_solver. done.
Qed.
