(* ===== verification/SemaStep.v ===== *)
(** * SemaStep: every step of the semaphores keeps the invariant *)

From S2P Require Import Prelude Sema SemaInv SemaList.

(** ** Updates of one process *)

Lemma alter_insert {A} (f : A → A) (l : list A) i x : l !! i = Some x → alter f i l = <[i := f x]> l.
Proof. revert i; induction l as [|y l IH]; intros [|i] H; try done; csimpl in *; [by simplify_eq |]. by rewrite (IH _ H). Qed.

Lemma goto_eq y i p c : y_procs y !! i = Some p → goto i c y = setproc i (p <| p_pc := c |>) y.
Proof. intros H. unfold goto, setproc. by rewrite (alter_insert _ _ _ _ H). Qed.

Lemma setsema_eq y i p s : y_procs y !! i = Some p → setsema i s y = setproc i (p <| p_phore := Some s |>) y.
Proof. intros H. unfold setsema, setproc. by rewrite (alter_insert _ _ _ _ H). Qed.

Lemma getproc_setproc y i p q : y_procs y !! i = Some q → y_procs (setproc i p y) !! i = Some p.
Proof. intros H. cbn. rewrite list_lookup_insert_eq; [done | by eapply lookup_lt_Some]. Qed.

Lemma setproc_setproc y i p q : setproc i p (setproc i q y) = setproc i p y.
Proof. unfold setproc. cbn. by rewrite list_insert_insert_eq. Qed.

(** Write a state as [setproc i _ y]. *)
Ltac to_setproc Hp :=
  unfold finish, leave;
  repeat first
    [ rewrite (goto_eq _ _ _ _ Hp) | rewrite (setsema_eq _ _ _ _ Hp)
    | rewrite (goto_eq _ _ _ _ (getproc_setproc _ _ _ _ Hp))
    | rewrite (setsema_eq _ _ _ _ (getproc_setproc _ _ _ _ Hp))
    | rewrite setproc_setproc ].

(** The answer of semacquire. *)
Definition answer (o : outcome) : retval :=
  match o with Acquired => Rval 1 | Timedout => Rval 0 | Raised => Rerr Eintr end.

Lemma finish_eq y i p o :
  y_procs y !! i = Some p →
  finish i o y = (setproc i (p <| p_phore := None |> <| p_pc := Puser (Some (answer o)) |>) y, [Eret i (answer o)]).
Proof.
  intros H. unfold finish, leave, answer. f_equal. unfold goto, setproc. cbn. rewrite (alter_insert _ _ _ _ H).
  rewrite (alter_insert _ _ i (p <| p_phore := None |>)).
  - by rewrite list_insert_insert_eq.
  - rewrite list_lookup_insert_eq; [done | by eapply lookup_lt_Some].
Qed.

Lemma inv_same L y i p p' :
  inv L y → y_procs y !! i = Some p → y_lock y ≠ Some i → links p' = links p ∨ listed (p_pc p') = false →
  change (y_mem y) (y_mem y) p p' → local (y_mem y) (y_lock y) L i p' → inv L (setproc i p' y).
Proof. intros I Hp Hl Hk C Hloc. pose proof (sema_inv_change _ _ _ _ _ _ I Hp Hl Hk C Hloc) as H. by destruct y. Qed.

Lemma res_of_option_Some {A} (o : option A) x : o = Some x → res_of_option o = Ok x.
Proof. by intros ->. Qed.

Definition kept (y : sys) : Prop := ∃ L', inv L' y.

Section Steps.
Context (L : list nat) (y : sys) (i : nat) (p : Proc).
Hypothesis I : inv L y.
Hypothesis Hp : y_procs y !! i = Some p.

Lemma free_lock : holds (p_pc p) = false → y_lock y ≠ Some i.
Proof. intros H E. apply (l_lock _ _ _ _ _ (i_local _ _ I _ _ Hp)) in E. congruence. Qed.

(** A phore where it is expected. *)
Lemma have_phore a : pc_phore (p_pc p) = Some a → ∃ s, p_phore p = Some s ∧ s_addr s = a.
Proof.
  intros H. pose proof (l_phore _ _ _ _ _ (i_local _ _ I _ _ Hp)) as Hl.
  destruct (p_phore p) as [s|]; [| congruence]. exists s. destruct Hl. split; congruence.
Qed.

Lemma have_value a : pc_addr (p_pc p) = Some a → ∃ v, y_mem y !! a = Some v ∧ is_s32 v.
Proof.
  intros H. destruct (l_addr _ _ _ _ _ (i_local _ _ I _ _ Hp) _ H) as [v Hv].
  exists v. split; [done |]. by apply (i_mem _ _ I _ _ Hv).
Qed.

Lemma no_phore : pc_phore (p_pc p) = None → p_phore p = None.
Proof.
  intros H. pose proof (l_phore _ _ _ _ _ (i_local _ _ I _ _ Hp)) as Hl.
  destruct (p_phore p); [| done]. destruct Hl. congruence.
Qed.

(** A move that leaves the phore alone. *)
Lemma move p' :
  p_phore p' = p_phore p → pc_phore (p_pc p') = pc_phore (p_pc p) →
  asleep (p_pc p) = false → asleep (p_pc p') = false → holds (p_pc p) = false → holds (p_pc p') = false →
  listed (p_pc p') = listed (p_pc p) → numbers_ok (p_pc p') →
  (∀ a, pc_addr (p_pc p') = Some a → is_Some (y_mem y !! a)) →
  (∀ a v, y_mem y !! a = Some v → v ≤ 0 ∨
    credit a p ≤ credit a p' ∧ (stuck a p' → stuck a p)) →
  inv L (setproc i p' y).
Proof.
  intros H1 H2 H3 H4 H5 H6 H7 H8 H9 H10. pose proof (i_local _ _ I _ _ Hp) as Hl.
  eapply inv_same; [done | done | by apply free_lock | left; unfold links; by rewrite H1 | |].
  - split; [by apply (i_mem _ _ I) | done | intros [? _]; congruence |].
    intros a v Hv. destruct (H10 a v Hv) as [?|[??]]; [by left | right]. exists v. split; [done |]. split; [lia | done].
  - split; [| | | done | done |].
    + pose proof (l_phore _ _ _ _ _ Hl) as Hf. rewrite H3 in Hf. by rewrite H1, H2, H4.
    + rewrite H7. apply (l_listed _ _ _ _ _ Hl).
    + rewrite H6, <- H5. apply (l_lock _ _ _ _ _ Hl).
    + intros j Hj. by destruct (p_pc p').
Qed.

Lemma move_free c :
  pc_phore (p_pc p) = None → pc_phore c = None → holds (p_pc p) = false → holds c = false → numbers_ok c →
  (∀ a, own a (p_pc p) ≤ own a c) → (∀ a, pc_addr c = Some a → is_Some (y_mem y !! a)) → inv L (goto i c y).
Proof.
  intros H1 H2 H3 H4 H5 H6 H7. to_setproc Hp. apply move; cbn; try done.
  - by rewrite H1, H2.
  - by destruct (p_pc p).
  - by destruct c.
  - destruct c as [|[]|[]| | | | | | | | | | | | | |], (p_pc p) as [|[]|[]| | | | | | | | | | | | | |]; done.
  - intros a v Hv. right. pose proof (no_phore H1) as Hn. split.
    + unfold credit, told. cbn. rewrite Hn. specialize (H6 a). destruct (p_pc p), c; lia.
    + unfold stuck. cbn. by destruct c.
Qed.
End Steps.

(** ** The moves of one process *)

Lemma value_eq y a v : y_mem y !! a = Some v → value y a = Ok v.
Proof. unfold value. by intros ->. Qed.

Lemma getsema_eq y i p s : y_procs y !! i = Some p → p_phore p = Some s → getsema y i = Ok s.
Proof. intros H1 H2. unfold getsema, phore. by rewrite H1; cbn; rewrite H2. Qed.

(** What a step comes to. *)
Definition good (r : res (sys * list event)) : Prop := ∃ y' es, r = Ok (y', es) ∧ kept y'.

Lemma good_Ok L y' es : inv L y' → good (Ok (y', es)).
Proof. intros. exists y', es. split; [done | by exists L]. Qed.

Lemma good_leave L i r y : inv L (goto i (Puser (Some r)) y) → good (Ok (leave i r y)).
Proof. apply good_Ok. Qed.

Section Moves.
Context (L : list nat) (y : sys) (i : nat) (p : Proc).
Hypothesis I : inv L y.
Hypothesis Hp : y_procs y !! i = Some p.

(** To a place without a phore or an address from one without a phore. *)
Lemma out_ok c r : p_pc p = c → pc_phore c = None → holds c = false → (∀ a, own a c = 0) →
  inv L (goto i (Puser r) y).
Proof.
  intros Hc H1 H2 H3. apply (move_free _ _ _ _ I Hp); rewrite ?Hc; try done. intros a. by rewrite H3.
Qed.

Lemma syscall_ok c r : p_pc p = Puser r → good (Ok (syscall i c y)).
Proof.
  intros Hc. assert (∀ r, inv L (goto i (Puser r) y)) as Hout by (intros; by eapply out_ok).
  destruct c as [a h|a d]; cbn.
  - destruct (y_mem y !! a) as [v|] eqn:Hv; [| by eapply good_leave].
    case_decide; [by eapply good_leave | eapply good_Ok].
    apply (move_free _ _ _ _ I Hp); rewrite ?Hc; try done. intros ? [= <-]. by eexists.
  - destruct (y_mem y !! a) as [v|] eqn:Hv; [| by eapply good_leave].
    case_decide; [by eapply good_leave | eapply good_Ok].
    apply (move_free _ _ _ _ I Hp); rewrite ?Hc; try done; [cbn; lia |]. intros ? [= <-]. by eexists.
Qed.

Lemma try_ok t a h :
  p_pc p = Ptry t a h →
  good (v ← value y a; if decide (v > 0) then Ok (goto i (Pswap t a h v) y, []) else Ok (not_acquired i t a h y)).
Proof.
  intros Hc. destruct (have_value _ _ _ _ I Hp a) as (v & Hv & _); [by rewrite Hc |].
  rewrite (value_eq _ _ _ Hv). cbn [mbind res_bind]. destruct t.
  - case_decide.
    + eapply good_Ok, (move_free _ _ _ _ I Hp); rewrite ?Hc; try done; [cbn; lia |]. intros ? [= <-]. by eexists.
    + assert (inv L (goto i (Pqueue a h) y)) as Hq.
      { apply (move_free _ _ _ _ I Hp); rewrite ?Hc; try done. intros ? [= <-]. by eexists. }
      assert (∀ r, inv L (goto i (Puser r) y)) as Hout by (intros; by eapply out_ok).
      unfold not_acquired. destruct h; try by eapply good_leave || by eapply good_Ok.
      case_decide; [by eapply good_leave | by eapply good_Ok].
  - destruct (have_phore _ _ _ _ I Hp a) as (s & Hs & Ha); [by rewrite Hc |].
    assert (∀ c, pc_phore c = Some a → pc_addr c = Some a → asleep c = false → holds c = false → listed c = true →
      numbers_ok c → (∀ b v, y_mem y !! b = Some v → v ≤ 0 ∨
        credit b p ≤ credit b (p <| p_pc := c |>) ∧ (stuck b (p <| p_pc := c |>) → stuck b p)) →
      inv L (goto i c y)) as Hmv.
    { intros c H1 H2 H3 H4 H5 H6 H7. to_setproc Hp. apply (move _ _ _ _ I Hp); cbn; rewrite ?Hc; try done.
      intros b. rewrite H2. intros [= <-]. by eexists. }
    case_decide.
    + eapply good_Ok, Hmv; try done; [cbn; lia |]. intros b w _. right. unfold credit, told, stuck. cbn. rewrite Hc. cbn.
      split; [| done]. lia.
    + assert (∀ c, c = Parm a h ∨ c = Psleep a h → inv L (goto i c y)) as Hz.
      { intros c Hcc. apply Hmv; try by destruct Hcc as [->| ->].
        intros b w Hw. destruct (decide (a = b)) as [<-|Hab]; [left; assert (w = v) as -> by congruence; lia | right].
        unfold credit, told, stuck. cbn. rewrite Hc.
        destruct Hcc as [->| ->]; cbn; rewrite decide_False by done; (split; [lia | naive_solver]). }
      unfold not_acquired. destruct h; eapply good_Ok, Hz; auto.
Qed.

Lemma s32_pred v : is_s32 v → 0 < v → s32 (v - 1) = v - 1.
Proof.
  intros H H0. unfold s32, signed. ranges. change (2 ^ (32 - 1)) with 2147483648.
  rewrite Z.mod_small by lia. rewrite decide_True by lia. done.
Qed.

Lemma s32_le v : - 2 ^ 31 ≤ v → s32 v ≤ v.
Proof.
  intros H. unfold s32, signed. ranges. change (2 ^ (32 - 1)) with 2147483648. case_decide; divlia.
Qed.

Lemma s32_range v : is_s32 (s32 v).
Proof.
  unfold s32, signed. ranges. change (2 ^ (32 - 1)) with 2147483648.
  pose proof (Z.mod_pos_bound v 4294967296 ltac:(done)). case_decide; lia.
Qed.

(** A change of one value together with the place of the process. *)
Lemma set_value c a v w :
  y_mem y !! a = Some v → is_s32 w → holds (p_pc p) = false → holds c = false → asleep (p_pc p) = false → asleep c = false →
  pc_phore c = pc_phore (p_pc p) → listed c = listed (p_pc p) → numbers_ok c → (∀ b, pc_addr c = Some b → b = a) →
  w - own a c ≤ v - own a (p_pc p) → (∀ b, b ≠ a → own b (p_pc p) ≤ own b c) →
  (∀ b, stuck b (p <| p_pc := c |>) → stuck b p) → (∀ a' n k, c = Plock a' n k → p_phore p = None) →
  inv L (goto i c (setvalue a w y)).
Proof.
  intros Hv Hw H1 H2 H3 H4 H5 H6 H7 H8 H9 H10 H11 H12. pose proof (i_local _ _ I _ _ Hp) as Hl.
  rewrite (goto_eq (setvalue a w y) i p) by done.
  set (q := p <| p_pc := c |>) in *. assert (p_pc q = c) as Hqc by done. assert (p_phore q = p_phore p) as Hqp by done.
  clearbody q. assert (∀ b, told b p ≤ told b q) as Htold.
  { intros b. unfold told. rewrite Hqc, Hqp. destruct c; try rewrite (H12 _ _ _ eq_refl); destruct (p_pc p), (p_phore p); try done; case_decide; lia. }
  eapply (sema_inv_change L y i p); [done | done | by eapply free_lock | left; unfold links; by rewrite Hqp | |].
  - split.
    + intros b v' Hb. destruct (decide (a = b)) as [<-|Hn].
      * rewrite lookup_insert_eq in Hb. by simplify_eq.
      * rewrite lookup_insert_ne in Hb by done. by apply (i_mem _ _ I _ _ Hb).
    + intros b Hb. destruct (decide (a = b)) as [<-|Hn]; [rewrite lookup_insert_eq; by eexists | by rewrite lookup_insert_ne].
    + intros [Hu _]. congruence.
    + intros b v' Hb. right. unfold credit. rewrite Hqc. specialize (Htold b). destruct (decide (a = b)) as [<-|Hn].
      * rewrite lookup_insert_eq in Hb. injection Hb as <-. exists v. split; [done |]. split; [lia | auto].
      * rewrite lookup_insert_ne in Hb by done. exists v'. split; [done |].
        specialize (H10 b ltac:(done)). split; [lia | auto].
  - split; rewrite ?Hqc; [| | | | done |].
    + pose proof (l_phore _ _ _ _ _ Hl) as Hf. rewrite H3 in Hf. by rewrite Hqp, H5, H4.
    + rewrite H6. apply (l_listed _ _ _ _ _ Hl).
    + rewrite H2, <- H1. apply (l_lock _ _ _ _ _ Hl).
    + intros b ->%H8. rewrite lookup_insert_eq. by eexists.
    + intros j Hj. by destruct c.
Qed.

Lemma swap_ok t a h v :
  p_pc p = Pswap t a h v →
  good (v' ← value y a;
        if decide (v' = v) then
          let '(y, es) := acquired i t a (setvalue a (s32 (v - 1)) y) in Ok (y, Etake i a :: es)
        else Ok (goto i (Ptry t a h) y, [])).
Proof.
  intros Hc. destruct (have_value _ _ _ _ I Hp a) as (v' & Hv & Hr); [by rewrite Hc |].
  rewrite (value_eq _ _ _ Hv). cbn [mbind res_bind].
  pose proof (l_num _ _ _ _ _ (i_local _ _ I _ _ Hp)) as Hn. rewrite Hc in Hn. cbn in Hn. case_decide as E.
  - subst v'. destruct t; cbn [acquired leave].
    + eapply good_Ok, (set_value _ _ v); rewrite ?Hc; try done; [by apply s32_range | rewrite s32_pred by done; cbn; lia].
    + eapply good_Ok, (set_value _ _ v); rewrite ?Hc; try done; [by apply s32_range | naive_solver | |].
      * rewrite s32_pred by done. cbn. rewrite decide_True by done. lia.
      * intros b Hb. cbn. by rewrite decide_False.
  - eapply good_Ok. to_setproc Hp. apply (move _ _ _ _ I Hp); cbn; rewrite ?Hc; try done; try by destruct t.
    + intros ? [= <-]. by eexists.
    + intros b w _. right. unfold credit, told, stuck. cbn. rewrite Hc. split; [destruct t; done | done].
Qed.

Lemma rel_ok a d : p_pc p = Prel a d → good (v ← value y a; Ok (goto i (Prelswap a d v) y, [])).
Proof.
  intros Hc. destruct (have_value _ _ _ _ I Hp a) as (v & Hv & _); [by rewrite Hc |].
  rewrite (value_eq _ _ _ Hv). cbn [mbind res_bind].
  pose proof (l_num _ _ _ _ _ (i_local _ _ I _ _ Hp)) as Hn. rewrite Hc in Hn.
  eapply good_Ok, (move_free _ _ _ _ I Hp); rewrite ?Hc; try done. intros ? [= <-]. by eexists.
Qed.

Lemma relswap_ok a d v :
  p_pc p = Prelswap a d v →
  good (v' ← value y a;
        if decide (v' = v) then
          Ok (goto i (Plock a d (Kval (s32 (v + d)))) (setvalue a (s32 (v + d)) y), [Eadd i a d])
        else Ok (goto i (Prel a d) y, [])).
Proof.
  intros Hc. destruct (have_value _ _ _ _ I Hp a) as (v' & Hv & Hr); [by rewrite Hc |].
  rewrite (value_eq _ _ _ Hv). cbn [mbind res_bind].
  pose proof (l_num _ _ _ _ _ (i_local _ _ I _ _ Hp)) as Hn. rewrite Hc in Hn. cbn in Hn. case_decide as E.
  - subst v'. eapply good_Ok, (set_value _ _ v); rewrite ?Hc; try done.
    + apply s32_range.
    + naive_solver.
    + cbn. rewrite decide_True by done. ranges. pose proof (s32_le (v + d)). change (2 ^ 31) with 2147483648 in *. lia.
    + intros b Hb. cbn. rewrite decide_False by done. done.
    + intros. eapply no_phore; [done.. |]. by rewrite Hc.
  - eapply good_Ok, (move_free _ _ _ _ I Hp); rewrite ?Hc; try done. intros ? [= <-]. by eexists.
Qed.
End Moves.
