(* ===== verification/SemaWait.v ===== *)
(** * SemaWait: the steps of a process that waits keep the invariant *)

From S2P Require Import Prelude Sema SemaInv SemaList SemaStep.

(** ** Steps that change neither the place nor the phore *)

Lemma inv_view L y y' :
  inv L y → relinked y y' → y_next y' = y_next y → y_prev y' = y_prev y →
  (∀ i, (y_procs y' !! i ≫= links) = (y_procs y !! i ≫= links)) → inv L y'.
Proof.
  intros I R Hn Hpv Hl. split; [| by eapply core_relinked; [apply i_core |]].
  eapply chain_ext; [| | by apply (i_ring _ _ I)]; intros q _; [by apply next_links | by apply prev_links].
Qed.

Lemma touch L y i p p' :
  inv L y → y_procs y !! i = Some p → p_pc p' = p_pc p → p_phore p' = p_phore p → inv L (setproc i p' y).
Proof.
  intros I Hp H1 H2. assert (Hlt : (i < length (y_procs y))%nat) by (by eapply lookup_lt_Some).
  eapply (inv_view L y); [done | | done | done |].
  - unfold relinked, setproc. cbn. split_and!; [done.. |]. apply list_eq. intros j. rewrite !list_lookup_fmap.
    destruct (decide (j = i)) as [->|]; [| by rewrite list_lookup_insert_ne].
    rewrite list_lookup_insert_eq, Hp by done. cbn. unfold view. by rewrite H1, H2.
  - intros j. cbn. destruct (decide (j = i)) as [->|]; [| by rewrite list_lookup_insert_ne].
    rewrite list_lookup_insert_eq, Hp by done. cbn. unfold links. by rewrite H2.
Qed.

(** ** wakeup of the Rendez in the phore of a process *)

Lemma sema_wakeup_ok L y j s :
  inv L y → phore y j = Some s →
  ∃ y', wakeup j y = Ok y' ∧ inv L y' ∧ next_of y' (Nproc j) = Ok (s_next s) ∧
    (∀ p, y_procs y' !! j = Some p → asleep (p_pc p) = false) ∧
    (∀ k, k ≠ j → y_procs y' !! k = y_procs y !! k) ∧ y_mem y' = y_mem y ∧ y_lock y' = y_lock y.
Proof.
  intros I Hs. unfold wakeup, getsema. rewrite Hs. cbn [mbind res_bind res_of_option].
  unfold phore in Hs. destruct (y_procs y !! j) as [p|] eqn:Hp; [| done]. cbn in Hs.
  pose proof (i_local _ _ I _ _ Hp) as Hl. pose proof (l_phore _ _ _ _ _ Hl) as Hf. rewrite Hs in Hf.
  destruct Hf as [Ha Hsp]. rewrite Hsp.
  destruct (asleep (p_pc p)) eqn:Has.
  - unfold getproc. rewrite Hp. cbn [mbind res_bind res_of_option].
    destruct (p_pc p) as [| | | | | | | |a h| | | | | | | |] eqn:Hc; try done. eexists. split; [done |].
    to_setproc Hp. split_and!; try done.
    + eapply inv_same; [done | done | by eapply free_lock; [done | done | by rewrite Hc] | | |].
      * left. unfold links. cbn. by rewrite Hs.
      * split; [by apply (i_mem _ _ I) | done | by intros [? _] |].
        intros b v Hb. right. exists v. split; [done |]. unfold credit, told, stuck. cbn. rewrite Hc, Hs. cbn. split; [lia | done].
      * destruct Hl. rewrite Hc in *. split; cbn; try done.
    + cbn. unfold getsema, phore. cbn. rewrite list_lookup_insert_eq by (by eapply lookup_lt_Some). done.
    + cbn. intros q. rewrite list_lookup_insert_eq by (by eapply lookup_lt_Some). by intros [= <-].
    + intros k Hk. cbn. by rewrite list_lookup_insert_ne.
  - eexists. split; [done |]. split_and!; try done.
    + cbn. unfold getsema, phore. by rewrite Hp; cbn; rewrite Hs.
    + intros q. rewrite Hp. by intros [= <-].
Qed.

Section Waits.
Context (L : list nat) (y : sys) (i : nat) (p : Proc).
Hypothesis I : inv L y.
Hypothesis Hp : y_procs y !! i = Some p.

Lemma queue_ok a h :
  p_pc p = Pqueue a h →
  good (Ok (setproc i (p <| p_phore := Some (semqueue_clear a) |> <| p_pc := Plink a h |>) y, [])).
Proof.
  intros Hc. pose proof (i_local _ _ I _ _ Hp) as Hl.
  assert (p_phore p = None) as Hn by (by eapply no_phore; [done | done | rewrite Hc]).
  eapply good_Ok, inv_same; [done | done | by eapply free_lock; [done | done | by rewrite Hc] | by right | |].
  - split; [by apply (i_mem _ _ I) | done | by intros [? _] |].
    intros b v Hb. right. exists v. split; [done |]. unfold credit, told, stuck. cbn. rewrite Hc, Hn. cbn.
    split; [case_decide; lia | done].
  - destruct Hl. rewrite Hc in *. split; cbn; try done.
Qed.

Lemma set_ok a h :
  p_pc p = Pset a h →
  good (s ← getsema y i; Ok (goto i (Ptry Hard a h) (setsema i (s <| s_waiting := true |>) y), [])).
Proof.
  intros Hc. pose proof (i_local _ _ I _ _ Hp) as Hl.
  destruct (have_phore _ _ _ _ I Hp a) as (s & Hs & Ha); [by rewrite Hc |].
  rewrite (getsema_eq _ _ _ _ Hp Hs). cbn [mbind res_bind]. to_setproc Hp.
  eapply good_Ok, inv_same; [done | done | by eapply free_lock; [done | done | by rewrite Hc] | | |].
  - left. unfold links. cbn. by rewrite Hs.
  - split; [by apply (i_mem _ _ I) | done | by intros [? _] |].
    intros b v Hb. right. exists v. split; [done |]. unfold credit, told, stuck. cbn. rewrite Hc, Hs. cbn. subst a.
    split; [| done]. repeat case_decide; naive_solver lia.
  - destruct Hl. rewrite Hc in *. rewrite Hs in *. split; cbn; try done.
Qed.

Lemma arm_ok a h :
  p_pc p = Parm a h →
  good (Ok (setproc i (p <| p_trend := true |> <| p_armed := true |> <| p_pc := Psleep a h |>) y, [])).
Proof.
  intros Hc. eapply good_Ok, (move _ _ _ _ I Hp); cbn; rewrite ?Hc; try done.
  - intros ? [= <-]. apply (l_addr _ _ _ _ _ (i_local _ _ I _ _ Hp)). by rewrite Hc.
  - intros b v _. right. unfold credit, told, stuck. cbn. rewrite Hc. done.
Qed.

Lemma sleep_ok a h : p_pc p = Psleep a h → good (s ← getsema y i; Ok (do_sleep i p s a h y, [])).
Proof.
  intros Hc. pose proof (i_local _ _ I _ _ Hp) as Hl.
  destruct (have_phore _ _ _ _ I Hp a) as (s & Hs & Ha); [by rewrite Hc |].
  rewrite (getsema_eq _ _ _ _ Hp Hs). cbn [mbind res_bind]. unfold do_sleep.
  destruct (slept_enough p s h || p_note p) eqn:E.
  - to_setproc Hp. eapply good_Ok, (move _ _ _ _ I Hp); cbn; rewrite ?Hc; try done.
    + intros ? [= <-]. apply (l_addr _ _ _ _ _ Hl). by rewrite Hc.
    + intros b v _. right. unfold credit, told, stuck. cbn. rewrite Hc. done.
  - assert (s_waiting s = true) as Hw.
    { unfold slept_enough, semawoke in E. destruct h, (s_waiting s); cbn in E; try done. by rewrite orb_true_r in E. }
    to_setproc Hp.
    eapply good_Ok, inv_same; [done | done | by eapply free_lock; [done | done | by rewrite Hc] | | |].
    + left. unfold links. cbn. by rewrite Hs.
    + split; [by apply (i_mem _ _ I) | done | |].
      * intros [_ (s' & [= <-] & Hw')]. cbn in Hw'. congruence.
      * intros b v Hb. right. exists v. split; [done |]. unfold credit, told, stuck. cbn. rewrite Hc, Hs. cbn.
        split; [lia |]. intros [? _]. split; [done |]. by exists s.
    + destruct Hl. rewrite Hc in *. rewrite Hs in *. split; cbn; try done. naive_solver.
Qed.

Lemma woken_ok a h ms : p_pc p = Pwoken a h → good (Ok (woken i p a h ms y, [])).
Proof.
  intros Hc. pose proof (i_local _ _ I _ _ Hp) as Hl.
  assert (∀ p' c, p_pc p' = c → p_phore p' = p_phore p → (∃ o, c = Punlink a o) ∨ (∃ h', c = Pset a h') →
    inv L (setproc i p' y)) as H.
  { intros p' c H1 H2 H3. apply (move _ _ _ _ I Hp); rewrite ?H1, ?Hc; try done;
      try (by destruct H3 as [[? ->]|[? ->]]).
    - intros b Hb. apply (l_addr _ _ _ _ _ Hl). rewrite Hc. by destruct H3 as [[? ->]|[? ->]].
    - intros b v _. right. unfold credit, told, stuck. rewrite H1, H2, Hc. by destruct H3 as [[? ->]|[? ->]]. }
  unfold woken. eapply good_Ok. destruct (p_note _); [eapply H; eauto; by destruct h |].
  destruct h; [eapply H; eauto.. |]. case_decide; eapply H; eauto.
Qed.

Lemma check_ok a o :
  p_pc p = Pcheck a o →
  good (s ← getsema y i; if s_waiting s then Ok (finish i o y) else Ok (goto i (Plock a 1 (Kacq o)) y, [])).
Proof.
  intros Hc. pose proof (i_local _ _ I _ _ Hp) as Hl.
  destruct (have_phore _ _ _ _ I Hp a) as (s & Hs & Ha); [by rewrite Hc |].
  rewrite (getsema_eq _ _ _ _ Hp Hs). cbn [mbind res_bind].
  destruct (s_waiting s) eqn:Hw.
  - rewrite (finish_eq _ _ _ _ Hp).
    eapply good_Ok, inv_same; [done | done | by eapply free_lock; [done | done | by rewrite Hc] | by right | |].
    + split; [by apply (i_mem _ _ I) | done | by intros [? _] |].
      intros b v Hb. right. exists v. split; [done |]. unfold credit, told, stuck. cbn. rewrite Hc, Hs, Hw. cbn.
      rewrite decide_False by naive_solver. split; [lia | done].
    + destruct Hl. rewrite Hc in *. rewrite Hs in *. split; cbn; try done.
  - to_setproc Hp.
    eapply good_Ok, inv_same; [done | done | by eapply free_lock; [done | done | by rewrite Hc] | by left | |].
    + split; [by apply (i_mem _ _ I) | done | by intros [? _] |].
      intros b v Hb. right. exists v. split; [done |]. unfold credit, told, stuck. cbn. rewrite Hc, Hs, Hw. cbn. subst a.
      split; [| done]. repeat case_decide; naive_solver lia.
    + destruct Hl. rewrite Hc in *. rewrite Hs in *. split; cbn; try done. rewrite Hs. done.
Qed.

(** Joining and leaving the list. *)
Lemma link_ok a h :
  p_pc p = Plink a h → y_lock y = None → good (y ← semqueue i y; Ok (goto i (Pset a h) y, [])).
Proof.
  intros Hc Hlk. pose proof (i_local _ _ I _ _ Hp) as Hl.
  destruct (have_phore _ _ _ _ I Hp a) as (s & Hs & Ha); [by rewrite Hc |].
  assert (i ∉ L) as HiL by (intros HL; apply (l_listed _ _ _ _ _ Hl) in HL; by rewrite Hc in HL).
  destruct (semqueue_ok y L i) as (y1 & E & R & Hch); [by apply I | by apply I | unfold phore; rewrite Hp; cbn; by eexists | done |].
  rewrite E. cbn [mbind res_bind]. apply (good_Ok (L ++ [i])). split.
  - by apply chain_goto.
  - eapply core_relinked; [| apply relinked_goto, R]. rewrite (goto_eq _ _ _ _ Hp).
    pose proof (core_change L (L ++ [i]) y i p (p <| p_pc := Pset a h |>) (y_mem y)) as H.
    replace (y <| y_mem := y_mem y |>) with y in H by (by destruct y). apply H; clear H.
    + apply I.
    + done.
    + congruence.
    + split; [by apply (i_mem _ _ I) | done | by intros [? _] |].
      intros b v Hb. right. exists v. split; [done |]. unfold credit, told, stuck. cbn. rewrite Hc, Hs. cbn. split; [lia | done].
    + destruct Hl. rewrite Hc in *. rewrite Hs in *. split; cbn; try done.
      * by rewrite Hs.
      * set_solver.
    + apply list.NoDup_app. split; [by apply I |]. split; [set_solver | apply NoDup_singleton].
    + set_solver.
    + by right.
Qed.

Lemma unlink_ok a o :
  p_pc p = Punlink a o → y_lock y = None → good (y ← semdequeue i y; Ok (goto i (Pcheck a o) y, [])).
Proof.
  intros Hc Hlk. pose proof (i_local _ _ I _ _ Hp) as Hl.
  destruct (have_phore _ _ _ _ I Hp a) as (s & Hs & Ha); [by rewrite Hc |].
  assert (i ∈ L) as HiL by (apply (l_listed _ _ _ _ _ Hl); by rewrite Hc).
  apply list_elem_of_split in HiL as (L1 & L2 & ->).
  pose proof (i_nodup _ _ I) as Hnd. pose proof Hnd as (Hnd1 & Hd & Hnd2)%list.NoDup_app. apply list.NoDup_cons in Hnd2 as [Hi2 Hnd2].
  assert (i ∉ L1) as Hi1 by (intros ?; eapply Hd; [done | left]).
  destruct (semdequeue_ok y L1 L2 i) as (y1 & E & R & Hch); [by apply I | done |].
  rewrite E. cbn [mbind res_bind]. apply (good_Ok (L1 ++ L2)). split.
  - by apply chain_goto.
  - eapply core_relinked; [| apply relinked_goto, R]. rewrite (goto_eq _ _ _ _ Hp).
    pose proof (core_change (L1 ++ i :: L2) (L1 ++ L2) y i p (p <| p_pc := Pcheck a o |>) (y_mem y)) as H.
    replace (y <| y_mem := y_mem y |>) with y in H by (by destruct y). apply H; clear H.
    + apply I.
    + done.
    + congruence.
    + split; [by apply (i_mem _ _ I) | done | by intros [? _] |].
      intros b v Hb. right. exists v. split; [done |]. unfold credit, told, stuck. cbn. rewrite Hc, Hs. cbn. split; [lia | done].
    + destruct Hl. rewrite Hc in *. rewrite Hs in *. split; cbn; try done.
      * by rewrite Hs.
      * set_solver.
    + apply list.NoDup_app. split; [done |]. split; [| done]. intros x Hx1 Hx2. eapply Hd; [done |]. by right.
    + set_solver.
    + by right.
Qed.
End Waits.
