(* ===== verification/SemaWalk.v ===== *)
(** * SemaWalk: the walk of semwakeup keeps the invariant, and so does every step *)

From S2P Require Import Prelude Sema SemaInv SemaList SemaStep SemaWait.

Lemma pc_update p c : p_pc (p <| p_pc := c |>) = c.
Proof. done. Qed.

Section Walk.
Context (L : list nat) (y : sys) (i : nat) (p : Proc).
Hypothesis I : inv L y.
Hypothesis Hp : y_procs y !! i = Some p.

(** Only one process has the lock. *)
Lemma alone : holds (p_pc p) = true → ∀ j, j ≠ i → y_lock y ≠ Some j.
Proof. intros H j Hj E. apply (l_lock _ _ _ _ _ (i_local _ _ I _ _ Hp)) in H. congruence. Qed.

Lemma stuck_listed b j q : y_procs y !! j = Some q → stuck b q → j ∈ L.
Proof.
  intros Hj Hs. apply (l_listed _ _ _ _ _ (i_local _ _ I _ _ Hj)). unfold stuck in Hs. by destruct (p_pc q).
Qed.

Lemma lock_ok a n k :
  p_pc p = Plock a n k → y_lock y = None →
  good (Ok (goto i (Pwalk a n (y_next y) k) (y <| y_lock := Some i |>), [])).
Proof.
  intros Hc Hlk. pose proof (i_local _ _ I _ _ Hp) as Hl. rewrite (goto_eq _ i p) by done.
  eapply good_Ok, inv_holder; [done | done | | | done | | ].
  - intros j Hj. rewrite Hlk. split; congruence.
  - destruct Hl. rewrite Hc in *. split; cbn; try done.
    intros j [= Hj]. eapply first_in; [by apply I | done].
  - rewrite Hc. done.
  - intros b v j q Hv Hj Hs. pose proof (i_stuck _ _ I _ _ _ _ Hv Hj Hs). rewrite pc_update. cbn [behind].
    rewrite (before_first L y) by apply I. unfold credit, told. cbn. rewrite Hc. cbn. split; [lia | by intros ?%list.elem_of_nil].
Qed.

(** The lock is released; [p'] is the process after it. *)
Lemma unlock_ok a n q k p' :
  p_pc p = Pwalk a n q k → q = Nhead ∨ n ≤ 0 → (∃ r, p_pc p' = Puser r) → p_phore p' = None →
  inv L (setproc i p' (y <| y_lock := None |>)).
Proof.
  intros Hc Hq [r Hr] Hn. pose proof (i_local _ _ I _ _ Hp) as Hl.
  eapply inv_holder; [done | done | | | by rewrite Hr | | ].
  - intros j Hj. split; [apply alone; [by rewrite Hc | done] | done].
  - destruct Hl. rewrite Hc in *. split; rewrite ?Hn, ?Hr; try done.
  - by rewrite Hc.
  - intros b v j z Hv Hj Hs. rewrite Hr. cbn [behind]. split; [| by intros ?%list.elem_of_nil].
    pose proof (credit_nonneg b p'). destruct Hq as [->|Hq].
    + assert (j ∈ behind L (p_pc p)) as Hb by (rewrite Hc; cbn; rewrite before_head; by eapply stuck_listed).
      pose proof (i_passed _ _ I _ _ _ _ _ _ Hv Hj Hs Hp Hb). lia.
    + assert (credit b p = 0) as -> by (unfold credit, told, own; rewrite Hc; case_decide; lia).
      pose proof (i_stuck _ _ I _ _ _ _ Hv Hj Hs). lia.
Qed.

Lemma resume_ok a n q k :
  p_pc p = Pwalk a n q k → q = Nhead ∨ n ≤ 0 → good (Ok (resume i k (y <| y_lock := None |>))).
Proof.
  intros Hc Hq. destruct k as [o|v]; cbn [resume].
  - rewrite (finish_eq (y <| y_lock := None |>) i p o) by done. eapply good_Ok, unlock_ok; [done | done | by eexists | done].
  - unfold leave. rewrite (goto_eq _ i p) by done. eapply good_Ok, unlock_ok; [done | done | by eexists |].
    cbn. eapply no_phore; [done.. |]. by rewrite Hc.
Qed.

(** Past a node that need not be woken. *)
Lemma pass_ok a n j k s :
  p_pc p = Pwalk a n (Nproc j) k → phore y j = Some s → ¬ (s_addr s = a ∧ s_waiting s = true) →
  inv L (goto i (Pwalk a n (s_next s) k) y).
Proof.
  intros Hc Hs Hno. pose proof (i_local _ _ I _ _ Hp) as Hl.
  assert (j ∈ L) as Hj by (apply (l_pos _ _ _ _ _ Hl); by rewrite Hc).
  destruct (before_next L y j (s_next s)) as [Hb Hin]; [by apply I | by apply I | done | |].
  { cbn. unfold getsema. by rewrite Hs. }
  rewrite (goto_eq _ i p) by done.
  pose proof (inv_holder L y i p (p <| p_pc := Pwalk a n (s_next s) k |>) (y_lock y)) as H.
  replace (y <| y_lock := y_lock y |>) with y in H by (by destruct y). apply H; clear H; try done.
  - intros z Hz. split; apply alone; by rewrite ?Hc.
  - destruct Hl. rewrite Hc in *. split; cbn; try done. intros z [= Hz]. by apply Hin.
  - by rewrite Hc.
  - intros b v z q Hv Hz Hst. rewrite pc_update. cbn [behind]. rewrite Hb.
    pose proof (i_stuck _ _ I _ _ _ _ Hv Hz Hst) as Hv1. split.
    { unfold credit, told. cbn. rewrite Hc. cbn. lia. }
    intros [Hin1|Hin1]%list.elem_of_app.
    + apply (i_passed _ _ I _ _ _ _ _ _ Hv Hz Hst Hp). by rewrite Hc.
    + apply list_elem_of_singleton in Hin1 as ->. assert (credit b p = 0) as ->; [| lia].
      unfold credit, told, own. rewrite Hc. rewrite decide_False; [done |]. intros ->.
      unfold phore in Hs. rewrite Hz in Hs. cbn in Hs.
      pose proof (l_phore _ _ _ _ _ (i_local _ _ I _ _ Hz)) as Hf. rewrite Hs in Hf. destruct Hf as [Hf _].
      unfold stuck in Hst. destruct (p_pc q); try done; destruct Hst as [-> (s' & Hs' & Hw)]; cbn in Hf; simplify_eq; auto.
Qed.

(** A node that is told to go on. *)
Lemma kick_ok a n j k s :
  p_pc p = Pwalk a n (Nproc j) k → phore y j = Some s → s_addr s = a → s_waiting s = true → 0 < n →
  inv L (goto i (Pwake a n j k) (setsema j (s <| s_waiting := false |>) y)).
Proof.
  intros Hc Hs Ha Hw Hn. pose proof (i_local _ _ I _ _ Hp) as Hl.
  assert (j ∈ L) as HjL by (apply (l_pos _ _ _ _ _ Hl); by rewrite Hc).
  assert (i ∉ L) as HiL by (intros HL; apply (l_listed _ _ _ _ _ Hl) in HL; by rewrite Hc in HL).
  assert (i ≠ j) as Hij by congruence.
  unfold phore in Hs. destruct (y_procs y !! j) as [pj|] eqn:Hj; [| done]. cbn in Hs.
  pose proof (i_local _ _ I _ _ Hj) as Hlj.
  assert (holds (p_pc pj) = false ∧ listed (p_pc pj) = true) as [Hhj Hlsj].
  { split; [| by apply (l_listed _ _ _ _ _ Hlj)]. destruct (holds (p_pc pj)) eqn:E; [| done].
    apply (l_lock _ _ _ _ _ Hlj) in E. by apply alone in E; rewrite ?Hc. }
  set (p' := p <| p_pc := Pwake a n j k |>). set (pj' := pj <| p_phore := Some (s <| s_waiting := false |>) |>).
  assert (y_procs (goto i (Pwake a n j k) (setsema j (s <| s_waiting := false |>) y)) = <[i := p']> (<[j := pj']> (y_procs y))) as Hps.
  { unfold goto, setsema. cbn. rewrite (alter_insert _ _ _ _ Hj). apply alter_insert. by rewrite list_lookup_insert_ne. }
  assert (Hlt : (i < length (y_procs y))%nat ∧ (j < length (y_procs y))%nat) by (by split; eapply lookup_lt_Some).
  assert (Hlook : ∀ z q, (<[i := p']> (<[j := pj']> (y_procs y))) !! z = Some q →
    (z = i ∧ q = p') ∨ (z = j ∧ q = pj') ∨ (z ≠ i ∧ z ≠ j ∧ y_procs y !! z = Some q)).
  { intros z q. destruct (decide (z = i)) as [->|H1].
    - rewrite list_lookup_insert_eq by (rewrite length_insert; lia). intros [= <-]. by left.
    - rewrite list_lookup_insert_ne by done. right. destruct (decide (z = j)) as [->|H2].
      + rewrite list_lookup_insert_eq in * by lia. left. split; congruence.
      + rewrite list_lookup_insert_ne in * by done. by right. }
  assert (Hcr : ∀ b, credit b pj' + credit b p' = credit b pj + credit b p ∧ credit b p' ≤ credit b p).
  { intros b. unfold credit, told, own, p', pj'. cbn. rewrite Hc, Hs. cbn. rewrite Hw.
    destruct (p_pc pj) as [|[]|[]| | | | | | | | | | | | | |]; try done; cbn; repeat case_decide; naive_solver lia. }
  assert (Htot : ∀ b, total b (<[i := p']> (<[j := pj']> (y_procs y))) = total b (y_procs y)).
  { intros b. rewrite (total_insert b (<[j := pj']> (y_procs y)) i p) by (by rewrite list_lookup_insert_ne).
    rewrite (total_insert b _ _ _ _ Hj). destruct (Hcr b). lia. }
  assert (Hold : ∀ b z q, (<[i := p']> (<[j := pj']> (y_procs y))) !! z = Some q → stuck b q →
    z ≠ j ∧ y_procs y !! z = Some q).
  { intros b z q [[-> ->]|[[-> ->]|(? & ? & ?)]]%Hlook Hst; [done | | done]. unfold stuck in Hst. cbn in Hst.
    destruct (p_pc pj); try done; destruct Hst as [_ (s' & [= <-] & Hw')]; cbn in Hw'; congruence. }
  split; [| split]; rewrite ?Hps; cbn [y_mem y_lock goto setsema update].
  - apply chain_goto. eapply chain_ext; [| | by apply (i_ring _ _ I)]; intros q _;
      [apply next_links | apply prev_links]; try done; intros z _; unfold setsema; cbn;
      (destruct (decide (z = j)) as [->|]; [| by rewrite list_lookup_alter_ne]);
      rewrite list_lookup_alter_eq, Hj; cbn; unfold links; cbn; by rewrite Hs.
  - by apply I.
  - by apply I.
  - intros z Hz. destruct (i_lock _ _ I _ Hz) as [q Hq]. destruct (decide (z = i)) as [->|];
      [rewrite list_lookup_insert_eq by (rewrite length_insert; lia); by eexists |].
    rewrite list_lookup_insert_ne by done. apply lookup_lt_is_Some. rewrite length_insert. by eapply lookup_lt_Some.
  - intros z q [[-> ->]|[[-> ->]|(? & ? & Hz)]]%Hlook; [| | by apply I].
    + destruct Hl. rewrite Hc in *. split; cbn; try done.
    + destruct Hlj. rewrite Hs in *. split; cbn; try done.
  - intros z q Hz Hu. apply Hlook in Hz as [[-> ->]|[[-> ->]|(Hzi & Hzj & Hz)]].
    + by destruct Hu.
    + exists i, p'. rewrite list_lookup_insert_eq by (rewrite length_insert; lia). done.
    + destruct (i_unwoken _ _ I _ _ Hz Hu) as (w & pw & Hpw & Hk). exists w, pw. split; [| done].
      rewrite !list_lookup_insert_ne; [done | |].
      * intros ->. assert (pw = pj) as -> by congruence. by destruct (p_pc pj).
      * intros ->. assert (pw = p) as -> by congruence. by rewrite Hc in Hk.
  - intros b v z q Hv Hz Hst. rewrite Htot. destruct (Hold _ _ _ Hz Hst) as [_ Hz']. by apply (i_stuck _ _ I _ _ _ _ Hv Hz' Hst).
  - intros b v z q w pw Hv Hz Hst Hpw Hin. rewrite Htot. destruct (Hold _ _ _ Hz Hst) as [Hzj Hz'].
    destruct (Hcr b) as [_ Hle]. apply Hlook in Hpw as [[-> ->]|[[-> ->]|(Hwi & Hwj & Hpw)]].
    + cbn in Hin. apply list.elem_of_app in Hin as [Hin|Hin]; [| by apply list_elem_of_singleton in Hin].
      assert (z ∈ behind L (p_pc p)) as Hin' by (by rewrite Hc).
      pose proof (i_passed _ _ I _ _ _ _ _ _ Hv Hz' Hst Hp Hin'). lia.
    + cbn in Hin. destruct (p_pc pj); cbn in *; try done; by apply list.elem_of_nil in Hin.
    + exfalso. pose proof (l_lock _ _ _ _ _ (i_local _ _ I _ _ Hpw)) as Hlw.
      assert (holds (p_pc pw) = true) as Hh by (destruct (p_pc pw); cbn in *; try done; by apply list.elem_of_nil in Hin).
      apply Hlw in Hh. by apply alone in Hh; rewrite ?Hc.
Qed.

(** On from a node whose process has been woken. *)
Lemma on_ok a n j k q :
  p_pc p = Pwake a n j k → next_of y (Nproc j) = Ok q →
  (∀ pj, y_procs y !! j = Some pj → asleep (p_pc pj) = false) → inv L (goto i (Pwalk a (n - 1) q k) y).
Proof.
  intros Hc Hq Hno. pose proof (i_local _ _ I _ _ Hp) as Hl.
  assert (j ∈ L) as Hj by (apply (l_pos _ _ _ _ _ Hl); by rewrite Hc).
  destruct (before_next L y j q) as [Hb Hin]; [by apply I | by apply I | done | done |].
  rewrite (goto_eq _ i p) by done.
  pose proof (inv_holder L y i p (p <| p_pc := Pwalk a (n - 1) q k |>) (y_lock y)) as H.
  replace (y <| y_lock := y_lock y |>) with y in H by (by destruct y). apply H; clear H; try done.
  - intros z Hz. split; apply alone; by rewrite ?Hc.
  - destruct Hl. rewrite Hc in *. cbn in l_num. split; cbn; try done; [lia |]. intros z [= ->]. by apply Hin.
  - intros z qz Hz Hu. rewrite Hc. cbn. intros ->. destruct Hu as [Hu _]. rewrite Hno in Hu; done.
  - intros b v z qz Hv Hz Hst. rewrite pc_update. cbn [behind]. rewrite Hb.
    assert (credit b (p <| p_pc := Pwalk a (n - 1) q k |>) = credit b p) as ->.
    { unfold credit, told. cbn. rewrite Hc. cbn. done. }
    split; [pose proof (i_stuck _ _ I _ _ _ _ Hv Hz Hst); lia |].
    intros Hz'. apply (i_passed _ _ I _ _ _ _ _ _ Hv Hz Hst Hp). by rewrite Hc.
Qed.

Lemma walk_ok a n q k :
  p_pc p = Pwalk a n q k →
  good (match q with
        | Nproc j =>
            if decide (n > 0) then
              s ← getsema y j;
              if bool_decide (s_addr s = a) && s_waiting s then
                Ok (goto i (Pwake a n j k) (setsema j (s <| s_waiting := false |>) y), [])
              else Ok (goto i (Pwalk a n (s_next s) k) y, [])
            else Ok (resume i k (y <| y_lock := None |>))
        | Nhead => Ok (resume i k (y <| y_lock := None |>))
        end).
Proof.
  intros Hc. pose proof (i_local _ _ I _ _ Hp) as Hl. destruct q as [|j]; [eapply resume_ok; [done | by left] |].
  case_decide; [| eapply resume_ok; [done | right; lia]].
  assert (j ∈ L) as Hj by (apply (l_pos _ _ _ _ _ Hl); by rewrite Hc).
  destruct (chain_phore _ _ _ _ j (i_ring _ _ I) Hj) as [s Hs].
  unfold getsema. rewrite Hs. cbn [mbind res_bind res_of_option].
  case_bool_decide; [destruct (s_waiting s) eqn:Hw |]; cbn [andb]; eapply good_Ok.
  - eapply kick_ok; try done. lia.
  - eapply pass_ok; [done.. |]. intros [_ ?]. congruence.
  - eapply pass_ok; [done.. |]. by intros [? _].
Qed.

End Walk.

Lemma wake_ok L y i p a n j k :
  inv L y → y_procs y !! i = Some p → p_pc p = Pwake a n j k →
  good (y ← wakeup j y; q ← next_of y (Nproc j); Ok (goto i (Pwalk a (n - 1) q k) y, [])).
Proof.
  intros I Hp Hc. pose proof (i_local _ _ I _ _ Hp) as Hl.
  assert (j ∈ L) as Hj by (apply (l_pos _ _ _ _ _ Hl); by rewrite Hc).
  destruct (chain_phore _ _ _ _ j (i_ring _ _ I) Hj) as [s Hs].
  destruct (sema_wakeup_ok L y j s I Hs) as (y1 & -> & I1 & Hn & Hno & Hoth & _). cbn [mbind res_bind]. rewrite Hn.
  cbn [mbind res_bind]. exists (goto i (Pwalk a (n - 1) (s_next s) k) y1), []. split; [done |]. exists L.
  assert (i ≠ j) as Hij. { intros ->. apply (l_listed _ _ _ _ _ Hl) in Hj. by rewrite Hc in Hj. }
  assert (y_procs y1 !! i = Some p) as Hp1 by (by rewrite Hoth).
  by eapply (on_ok L y1 i p).
Qed.

(** ** Every step *)

Lemma note_ok L y i p :
  inv L y → y_procs y !! i = Some p → ∃ y', postnote i y p = Ok y' ∧ inv L y'.
Proof.
  intros I Hp. unfold postnote. assert (inv L (setproc i (p <| p_note := true |>) y)) as I1 by (by eapply touch).
  destruct (asleep (p_pc p)) eqn:Has; [| by destruct (p_pc p); try done; eexists].
  assert (∃ s, p_phore p = Some s) as [s Hs].
  { pose proof (l_phore _ _ _ _ _ (i_local _ _ I _ _ Hp)) as Hf. destruct (p_phore p); [by eexists |]. by destruct (p_pc p). }
  destruct (sema_wakeup_ok L _ i s I1) as (y1 & E & I2 & _).
  { unfold phore. by rewrite (getproc_setproc _ _ _ _ Hp). }
  exists y1. split; [| done]. by destruct (p_pc p).
Qed.

Lemma late_ok L y i n p :
  inv L y → y_procs y !! i = Some p → p_late p = S n →
  let r := (y ← wakeup i (setproc i (p <| p_late := n |>) y); Ok (y, [])) in
  good r ∨ r = Ub ∧ phore y i = None.
Proof.
  intros I Hp Hn. assert (inv L (setproc i (p <| p_late := n |>) y)) as I1 by (by eapply touch).
  destruct (p_phore p) as [s|] eqn:Hs.
  - left. destruct (sema_wakeup_ok L _ i s I1) as (y1 & -> & I2 & _); [unfold phore; by rewrite (getproc_setproc _ _ _ _ Hp) |].
    by eapply good_Ok.
  - right. unfold wakeup, getsema, phore. rewrite (getproc_setproc _ _ _ _ Hp), Hp. cbn. by rewrite Hs.
Qed.

Lemma run_ok L y i ms p r : inv L y → y_procs y !! i = Some p → run_proc i ms y p = Some r → good r.
Proof.
  intros I Hp H. unfold run_proc in H.
  assert (locked y = false → y_lock y = None) as Hlk.
  { unfold locked. case_bool_decide as E; [done |]. intros _. by apply eq_None_not_Some. }
  destruct (p_pc p) eqn:Hc; try done; try (destruct (locked y); [done |]); injection H as <-;
    eauto using try_ok, swap_ok, queue_ok, link_ok, set_ok, arm_ok, sleep_ok, woken_ok, unlink_ok, check_ok, lock_ok,
      walk_ok, wake_ok, rel_ok, relswap_ok.
Qed.

(** Every step keeps the invariant, or is a late wakeup of a phore that is gone. *)
Lemma sema_step_ok L y i l r :
  inv L y → step y i l = Some r → good r ∨ r = Ub ∧ l = Llate ∧ phore y i = None.
Proof.
  intros I H. unfold step in H. destruct (y_procs y !! i) as [p|] eqn:Hp; [| done]. cbn in H. destruct l.
  - left. destruct (p_pc p) eqn:Hc; try done. injection H as <-. by eapply syscall_ok.
  - left. by eapply run_ok.
  - left. injection H as <-. destruct (note_ok _ _ _ _ I Hp) as (y' & -> & I'). by eapply good_Ok.
  - left. destruct (p_pc p) eqn:Hc; try done. injection H as <-. eapply good_Ok. by eapply touch.
  - left. destruct (p_armed p); [| done]. injection H as <-. eapply good_Ok. by eapply touch.
  - left. destruct (p_fired p); [done |]. injection H as <-. eapply good_Ok. by destruct (p_trend p); eapply touch.
  - destruct (p_late p) eqn:Hn; [done |]. injection H as <-. destruct (late_ok _ _ _ _ _ I Hp Hn) as [?|[? ?]]; auto.
Qed.
