(* ===== verification/SemaRun.v ===== *)
(** * SemaRun: runs of processes that use semaphores

    What holds of every run from the start: memory safety, that no wakeup is lost, what the
    value of a semaphore is, and what the calls return. *)

From S2P Require Import Prelude Sema SemaInv SemaList SemaStep SemaWait SemaWalk.

(** ** Reachable states *)

Lemma init_inv mem n : mem_ok mem → inv [] (init mem n).
Proof.
  intros Hm.
  assert (∀ i p, y_procs (init mem n) !! i = Some p → p = user) as Hu.
  { intros i p Hp. cbn in Hp. by apply lookup_replicate in Hp as [-> _]. }
  split; [done |]. split; try done.
  - apply NoDup_nil_2.
  - intros i p ->%Hu. split; cbn; try done. split; [done | by intros ?%list.elem_of_nil].
  - intros i p ->%Hu. by intros [? _].
  - intros a v i p _ ->%Hu. done.
  - intros a v i p w pw _ ->%Hu. done.
Qed.

Lemma sema_run_inv mem n es y : mem_ok mem → run (init mem n) es y → ∃ L, inv L y.
Proof.
  intros Hm H. remember (init mem n) as y0 eqn:E. induction H as [|y es y1 i l es1 y2 Hr IH Hs]; subst.
  - exists []. by apply init_inv.
  - destruct (IH eq_refl) as [L I]. destruct (sema_step_ok _ _ _ _ _ I Hs) as [(? & ? & [= <- <-] & L' & I')|[? _]]; [| done].
    by exists L'.
Qed.

(** ** Who can go on *)

Definition running (c : pc) : bool := match c with Puser _ | Pasleep _ _ => false | _ => true end.

Definition can_run (y : sys) (i : nat) : Prop := ∃ r, step y i (Lrun 0) = Some r.

Lemma can_run_ok y i p :
  y_procs y !! i = Some p → running (p_pc p) = true → y_lock y = None ∨ holds (p_pc p) = true → can_run y i.
Proof.
  intros Hp Hr Hl. unfold can_run, step. rewrite Hp. cbn. unfold run_proc, locked.
  assert (holds (p_pc p) = false → bool_decide (is_Some (y_lock y)) = false) as Hlk.
  { intros Hh. destruct Hl as [->|]; [done | congruence]. }
  destruct (p_pc p); try done; try (rewrite Hlk by done); by eexists.
Qed.

(** A positive total is due to somebody. *)
Lemma total_credit_pos a ps : 0 < total a ps → ∃ j q, ps !! j = Some q ∧ 0 < credit a q.
Proof.
  induction ps as [|p ps IH]; cbn; [lia |]. intros H. destruct (decide (0 < credit a p)); [by exists 0%nat, p |].
  destruct IH as (j & q & Hq & Hc); [lia |]. by exists (S j), q.
Qed.

(** At the wakeup of somebody who waits for the semaphore at [a]. *)
Definition waking_for (y : sys) (a : Z) (c : pc) : Prop :=
  match c with Pwake _ _ k _ => ∃ s, phore y k = Some s ∧ s_addr s = a | _ => False end.

Lemma told_waker L y a i p s :
  inv L y → y_procs y !! i = Some p → asleep (p_pc p) = true → p_phore p = Some s → s_addr s = a → s_waiting s = false →
  ∃ j q, y_procs y !! j = Some q ∧ running (p_pc q) = true ∧ waking_for y a (p_pc q).
Proof.
  intros I Hp Ha Hs Hsa Hw. destruct (i_unwoken _ _ I _ _ Hp) as (w & pw & Hpw & Hk); [split; eauto |].
  exists w, pw. split; [done |]. destruct (p_pc pw); try done. cbn in Hk. subst. split; [done |].
  exists s. split; [| done]. unfold phore. by rewrite Hp.
Qed.

Lemma credit_awake L y a i p :
  inv L y → y_procs y !! i = Some p → 0 < credit a p →
  ∃ j q, y_procs y !! j = Some q ∧ running (p_pc q) = true ∧ (0 < credit a q ∨ waking_for y a (p_pc q)).
Proof.
  intros I Hp Hc. destruct (running (p_pc p)) eqn:Hr; [exists i, p; auto |].
  assert (own a (p_pc p) = 0) as Ho by (by destruct (p_pc p)).
  pose proof (l_phore _ _ _ _ _ (i_local _ _ I _ _ Hp)) as Hf. unfold credit, told in Hc. rewrite Ho in Hc.
  destruct (p_phore p) as [s|] eqn:Hs; [| destruct (p_pc p); lia].
  destruct (decide (s_addr s = a ∧ s_waiting s = false)) as [[Ha Hw]|]; [| destruct (p_pc p); lia].
  destruct (p_pc p) eqn:Hpc; try done; [cbn in Hf; by destruct Hf |].
  destruct (told_waker L y a i p s) as (j & q & ? & ? & ?); try done; [by rewrite Hpc |]. exists j, q. auto.
Qed.

(** ** The walk ends *)

Abbreviation alone_for m i := (replicate m (i, Lrun 0)).

(** The process runs [m] steps and then does not have the lock. *)
Definition gives_up (y : sys) (i m : nat) : Prop :=
  ∃ y' es, exec y (alone_for m i) = Some (Ok (y', es)) ∧ y_lock y' = None.

Lemma gives_up_step y i m y1 es1 :
  step y i (Lrun 0) = Some (Ok (y1, es1)) → gives_up y1 i m → gives_up y i (S m).
Proof. intros H (y' & es & E & Hl). exists y', (es1 ++ es). cbn [replicate exec]. rewrite H, E. done. Qed.

Lemma resume_unlocks i k y : y_lock (resume i k (y <| y_lock := None |>)).1 = None.
Proof. by destruct k. Qed.

Definition first_node (L : list nat) : node := match L with [] => Nhead | x :: _ => Nproc x end.

Lemma walk_last y i p a n q k :
  y_procs y !! i = Some p → p_pc p = Pwalk a n q k → q = Nhead ∨ n ≤ 0 → gives_up y i 1.
Proof.
  intros Hp Hc Hq. pose proof (resume_unlocks i k y) as Hu.
  destruct (resume i k (y <| y_lock := None |>)) as [y1 es] eqn:E.
  eapply gives_up_step; [| by exists y1, []]. unfold step. rewrite Hp. cbn. unfold run_proc. rewrite Hc, E.
  destruct q; [done |]. rewrite decide_False; [done |]. destruct Hq; [done | lia].
Qed.

Lemma walk_ends L2 : ∀ L L1 y i p a n k,
  inv L y → y_procs y !! i = Some p → p_pc p = Pwalk a n (first_node L2) k → L = L1 ++ L2 →
  ∃ m, (m ≤ S (2 * length L2))%nat ∧ gives_up y i m.
Proof.
  induction L2 as [|j L2 IH]; intros L L1 y i p a n k I Hp Hc ->.
  { exists 1%nat. split; [cbn; lia |]. eapply walk_last; eauto. }
  destruct (decide (n ≤ 0)) as [Hn|Hn].
  { exists 1%nat. split; [cbn; lia |]. eapply walk_last; eauto. }
  destruct (chain_phore _ _ _ _ j (i_ring _ _ I)) as [s Hs]; [set_solver |].
  assert (s_next s = first_node L2) as Hnx.
  { pose proof (i_ring _ _ I) as [_ H%chain_first]%chain_app. cbn in H. unfold getsema in H. rewrite Hs in H. cbn in H. by simplify_eq. }
  assert (∀ y', y_procs y' !! i = Some p → y_procs (goto i (Pwalk a n (s_next s) k) y') !! i = Some (p <| p_pc := Pwalk a n (first_node L2) k |>)) as Hg.
  { intros y' H. rewrite (goto_eq _ _ _ _ H), Hnx. by eapply getproc_setproc. }
  assert (step y i (Lrun 0) = Some (Ok (if bool_decide (s_addr s = a) && s_waiting s
    then (goto i (Pwake a n j k) (setsema j (s <| s_waiting := false |>) y), [])
    else (goto i (Pwalk a n (s_next s) k) y, [])))) as Hstep.
  { unfold step. rewrite Hp. cbn [mbind option_bind]. unfold run_proc. rewrite Hc. cbn [first_node].
    rewrite decide_True by lia. unfold getsema. rewrite Hs. cbn [mbind res_bind res_of_option]. by destruct (_ && _). }
  destruct (bool_decide (s_addr s = a) && s_waiting s) eqn:Hk.
  - apply andb_true_iff in Hk as [Ha%bool_decide_eq_true Hw].
    assert (inv (L1 ++ j :: L2) (goto i (Pwake a n j k) (setsema j (s <| s_waiting := false |>) y))) as I1
      by (eapply kick_ok; try done; lia).
    set (y1 := goto i _ _) in *.
    assert (i ≠ j) as Hij.
    { intros ->. pose proof (l_listed _ _ _ _ _ (i_local _ _ I _ _ Hp)) as Hl. rewrite Hc in Hl. cbn in Hl.
      assert (false = true) by (apply Hl; set_solver). done. }
    assert (y_procs y1 !! i = Some (p <| p_pc := Pwake a n j k |>)) as Hp1.
    { unfold y1, goto, setsema. cbn. by rewrite list_lookup_alter_eq, list_lookup_alter_ne, Hp. }
    assert (phore y1 j = Some (s <| s_waiting := false |>)) as Hs1.
    { unfold y1, phore, goto, setsema. cbn. rewrite list_lookup_alter_ne, list_lookup_alter_eq by done.
      unfold phore in Hs. by destruct (y_procs y !! j). }
    destruct (sema_wakeup_ok _ _ _ _ I1 Hs1) as (y2 & E2 & I2 & Hn2 & Ha2 & Hoth & _). cbn in Hn2. rewrite Hnx in Hn2.
    assert (y_procs y2 !! i = Some (p <| p_pc := Pwake a n j k |>)) as Hp2 by (by rewrite Hoth).
    destruct (IH (L1 ++ j :: L2) (L1 ++ [j]) (goto i (Pwalk a (n - 1) (first_node L2) k) y2) i
      (p <| p_pc := Pwalk a (n - 1) (first_node L2) k |>) a (n - 1) k) as (m & Hm & Hgu); try done.
    + by eapply on_ok.
    + rewrite (goto_eq _ _ _ _ Hp2). by eapply getproc_setproc.
    + by rewrite <- app_assoc.
    + exists (S (S m)). split; [cbn; lia |]. eapply gives_up_step; [done |]. eapply gives_up_step; [| done].
      unfold step. rewrite Hp1. cbn [mbind option_bind]. unfold run_proc. rewrite pc_update, E2. cbn [mbind res_bind next_of]. by rewrite Hn2.
  - destruct (IH (L1 ++ j :: L2) (L1 ++ [j]) (goto i (Pwalk a n (s_next s) k) y) i
      (p <| p_pc := Pwalk a n (first_node L2) k |>) a n k) as (m & Hm & Hgu); try done.
    + eapply pass_ok; try done. intros [H1 H2]. rewrite bool_decide_eq_true_2 in Hk by done. by rewrite H2 in Hk.
    + by apply Hg.
    + by rewrite <- app_assoc.
    + exists (S m). split; [cbn; lia |]. by eapply gives_up_step.
Qed.

Lemma waiting_bound L y : inv L y → (length L ≤ length (y_procs y))%nat.
Proof.
  intros I. rewrite <- (length_seq (length (y_procs y)) 0). apply submseteq_length.
  apply NoDup_submseteq; [apply (i_nodup _ _ I) |]. intros x Hx. apply elem_of_seq.
  destruct (chain_phore _ _ _ _ x (i_ring _ _ I) Hx) as [s Hs]. unfold phore in Hs.
  destruct (y_procs y !! x) eqn:E; [| done]. apply lookup_lt_Some in E. lia.
Qed.

(** Where a walk is, as a suffix of the list. *)
Lemma at_suffix L q : (q = Nhead ∨ ∃ j, q = Nproc j ∧ j ∈ L) → ∃ L1 L2, L = L1 ++ L2 ∧ q = first_node L2.
Proof.
  intros [->|(j & -> & Hj)]; [exists L, []; by rewrite app_nil_r |].
  apply list_elem_of_split in Hj as (L1 & L2 & ->). by exists L1, (j :: L2).
Qed.

(** The process that holds the lock never sleeps and gives it up by itself, however many
    wakeups it was told to give: two steps for each process there is and two more do. *)
Lemma semwakeup_ends L y i :
  inv L y → y_lock y = Some i → ∃ m, (m ≤ 2 + 2 * length (y_procs y))%nat ∧ gives_up y i m.
Proof.
  intros I Hl. pose proof (waiting_bound _ _ I) as Hb.
  destruct (i_lock _ _ I _ Hl) as [p Hp]. pose proof (i_local _ _ I _ _ Hp) as Hlp.
  assert (holds (p_pc p) = true) as Hh by (by apply (l_lock _ _ _ _ _ Hlp)).
  pose proof (l_pos _ _ _ _ _ Hlp) as Hpos.
  destruct (p_pc p) as [| | | | | | | | | | | | |a z q k|a z j k| |] eqn:Hc; try done.
  - destruct (at_suffix L q) as (L1 & L2 & -> & ->); [destruct q as [|j]; [by left | right; exists j; auto] |].
    destruct (walk_ends L2 _ L1 _ _ _ _ _ _ I Hp Hc eq_refl) as (m & Hm' & Hg). exists m. split; [| done].
    rewrite length_app in Hb. lia.
  - assert (j ∈ L) as Hj by auto. destruct (chain_phore _ _ _ _ j (i_ring _ _ I) Hj) as [s Hs].
    destruct (sema_wakeup_ok _ _ _ _ I Hs) as (y2 & E2 & I2 & Hn2 & Ha2 & Hoth & _).
    assert (i ≠ j) as Hij.
    { intros ->. apply (l_listed _ _ _ _ _ Hlp) in Hj. by rewrite Hc in Hj. }
    assert (y_procs y2 !! i = Some p) as Hp2 by (by rewrite Hoth).
    pose proof (on_ok _ _ _ _ I2 Hp2 _ _ _ _ _ Hc Hn2 Ha2) as I3.
    destruct (at_suffix L (s_next s)) as (L1 & L2 & -> & Hq).
    { destruct (s_next s) as [|z'] eqn:Ez; [by left | right]. exists z'. split; [done |].
      by apply (before_next L y2 j (Nproc z')); [apply I2 | apply I2 | | |]. }
    rewrite Hq in *.
    destruct (walk_ends L2 _ L1 _ i (p <| p_pc := Pwalk a (z - 1) (first_node L2) k |>) a (z - 1) k I3) as (m & Hm' & Hg); try done.
    { rewrite (goto_eq _ _ _ _ Hp2). by eapply getproc_setproc. }
    exists (S m). split; [rewrite length_app in Hb; lia |]. eapply gives_up_step; [| done].
    unfold step. rewrite Hp. cbn [mbind option_bind]. unfold run_proc. rewrite Hc, E2. cbn [mbind res_bind]. by rewrite Hn2.
Qed.

(** ** No wakeup is lost, and memory is safe *)

(** Who is not asleep can go on, or waits for a lock that will be free. *)
Lemma running_runs L y i p :
  inv L y → y_procs y !! i = Some p → running (p_pc p) = true →
  can_run y i ∨ ∃ h m, y_lock y = Some h ∧ (m ≤ 2 + 2 * length (y_procs y))%nat ∧ gives_up y h m.
Proof.
  intros I Hp Hr. destruct (y_lock y) as [h|] eqn:Hl; [right | left; by eapply can_run_ok; auto].
  destruct (semwakeup_ends _ _ _ I Hl) as (m & ? & ?). by exists h, m.
Qed.

(** C32: No wakeup is lost.  While a process is asleep in semacquire or tsemacquire for a semaphore whose value is positive, some process is neither asleep nor in user mode and is trying for that semaphore, has a wakeup for it to give or to pass on, or is at the wakeup of one who waits for it; and it can go on, or somebody holds the lock of the list and gives it up by itself within a bounded number of steps. *)
Theorem no_lost_wakeup mem n es y i p a h v :
  mem_ok mem → run (init mem n) es y →
  y_procs y !! i = Some p → p_pc p = Pasleep a h → y_mem y !! a = Some v → 0 < v →
  ∃ j q, y_procs y !! j = Some q ∧ running (p_pc q) = true ∧
    (0 < credit a q ∨ waking_for y a (p_pc q)) ∧
    (can_run y j ∨ ∃ l m, y_lock y = Some l ∧ (m ≤ 2 + 2 * length (y_procs y))%nat ∧ gives_up y l m).
Proof.
  intros Hm Hrun Hp Hpc Hv Hpos. destruct (sema_run_inv _ _ _ _ Hm Hrun) as [L I].
  assert (∃ j q, y_procs y !! j = Some q ∧ running (p_pc q) = true ∧ (0 < credit a q ∨ waking_for y a (p_pc q)))
    as (j & q & Hq & Hr & Hu).
  - destruct (have_phore _ _ _ _ I Hp a) as (s & Hs & Ha); [by rewrite Hpc |].
    destruct (s_waiting s) eqn:Hw.
    + assert (stuck a p) as Hst by (unfold stuck; rewrite Hpc; eauto).
      pose proof (i_stuck _ _ I _ _ _ _ Hv Hp Hst).
      destruct (total_credit_pos a (y_procs y)) as (j & q & Hq & Hc); [lia |]. by eapply credit_awake.
    + destruct (told_waker L y a i p s) as (j & q & ? & ? & ?); try done; [by rewrite Hpc |]. exists j, q. auto.
  - exists j, q. split_and!; try done. by eapply running_runs.
Qed.

(** C33: Memory safety of the semaphores.  In every state processes come to by semacquire, tsemacquire and semrelease on a segment, with notes and timers at any time, whatever runs next neither panics nor uses a value outside the segment or the Sema of a call that has returned; but for the wakeup of a timer that has been taken off its list, when tsemacquire has returned meanwhile. *)
Theorem sema_safe mem n es y i l r :
  mem_ok mem → run (init mem n) es y → step y i l = Some r →
  (∃ y' es', r = Ok (y', es')) ∨ (r = Ub ∧ l = Llate ∧ phore y i = None).
Proof.
  intros Hm Hrun Hs. destruct (sema_run_inv _ _ _ _ Hm Hrun) as [L I].
  destruct (sema_step_ok _ _ _ _ _ I Hs) as [(y' & es' & -> & _)|?]; [left; by eexists _, _ | by right].
Qed.
