(* ===== verification/SemaCount.v ===== *)
(** * SemaCount: what the values of semaphores are and what the calls return *)

From S2P Require Import Prelude Sema SemaInv SemaList SemaStep SemaWait SemaWalk SemaRun.

(** ** What a run does to a value *)

(** How often the semaphore at [a] has been taken, and what has been added to it. *)
Fixpoint taken (a : Z) (es : list event) : Z :=
  match es with
  | [] => 0
  | Etake _ b :: es => (if decide (b = a) then 1 else 0) + taken a es
  | _ :: es => taken a es
  end.

Fixpoint added (a : Z) (es : list event) : Z :=
  match es with
  | [] => 0
  | Eadd _ b d :: es => (if decide (b = a) then d else 0) + added a es
  | _ :: es => added a es
  end.

Lemma taken_app a es es' : taken a (es ++ es') = taken a es + taken a es'.
Proof. induction es as [|[] es IH]; cbn; lia. Qed.

Lemma added_app a es es' : added a (es ++ es') = added a es + added a es'.
Proof. induction es as [|[] es IH]; cbn; lia. Qed.

(** ** What a process has done in its call *)

Inductive status : Type := Snone | Stook | Sadded.

Definition due (c : pc) : status :=
  match c with
  | Punlink _ Acquired | Pcheck _ Acquired | Plock _ _ (Kacq Acquired) | Pwalk _ _ _ (Kacq Acquired)
  | Pwake _ _ _ (Kacq Acquired) => Stook
  | Plock _ _ (Kval _) | Pwalk _ _ _ (Kval _) | Pwake _ _ _ (Kval _) => Sadded
  | _ => Snone
  end.

(** [None]: an event that must not be.  Who has taken a semaphore returns 1 before anything
    else; who has not does not return 1. *)
Definition next_status (i : nat) (st : status) (e : event) : option status :=
  match e with
  | Etake j _ => if decide (j = i) then match st with Snone => Some Stook | _ => None end else Some st
  | Eadd j _ _ => if decide (j = i) then match st with Snone => Some Sadded | _ => None end else Some st
  | Eret j r =>
      if decide (j = i) then
        match st, r with
        | Snone, Rerr _ | Sadded, Rval _ => Some Snone
        | Snone, Rval v => if decide (v = 0) then Some Snone else None
        | Stook, Rval v => if decide (v = 1) then Some Snone else None
        | _, _ => None
        end
      else Some st
  end.

Fixpoint statuses (i : nat) (st : status) (es : list event) : option status :=
  match es with [] => Some st | e :: es => st ← next_status i st e; statuses i st es end.

Lemma status_take i a : next_status i Snone (Etake i a) = Some Stook.
Proof. cbn. by rewrite decide_True. Qed.

Lemma status_ret i : next_status i Stook (Eret i (Rval 1)) = Some Snone.
Proof. cbn. by rewrite decide_True. Qed.

Lemma statuses_app i st es es' : statuses i st (es ++ es') = (st ← statuses i st es; statuses i st es').
Proof. revert st; induction es as [|e es IH]; intros st; cbn; [done |]. destruct (next_status i st e); cbn; auto. Qed.

Definition due_of (y : sys) (j : nat) : status :=
  match y_procs y !! j with Some p => due (p_pc p) | None => Snone end.

Definition who (e : event) : nat := match e with Etake i _ | Eadd i _ _ | Eret i _ => i end.

Lemma statuses_other i j st es : i ≠ j → Forall (λ e, who e = i) es → statuses j st es = Some st.
Proof.
  intros Hij. induction 1 as [|e es He _ IH]; cbn; [done |].
  assert (next_status j st e = Some st) as ->; [destruct e; cbn in *; by rewrite decide_False by congruence | done].
Qed.

(** ** What a step does *)

(** How the events of a step change a value. *)
Definition revalued (a : Z) (es : list event) (v v' : Z) : Prop :=
  (taken a es = 0 ∧ added a es = 0 ∧ v' = v) ∨
  (taken a es = 1 ∧ added a es = 0 ∧ v' = v - 1 ∧ 0 < v) ∨
  (taken a es = 0 ∧ 0 ≤ added a es ∧ v' = s32 (v + added a es)).

Record acts (i : nat) (y : sys) (es : list event) (y' : sys) : Prop := {
  a_other : ∀ j, j ≠ i → due_of y' j = due_of y j;
  a_own : statuses i (due_of y i) es = Some (due_of y' i);
  a_who : Forall (λ e, who e = i) es;
  a_mem : ∀ a v, y_mem y !! a = Some v → ∃ v', y_mem y' !! a = Some v' ∧ revalued a es v v'
}.

(** States alike but for links, flags, and who is awake. *)
Definition alike (y y' : sys) : Prop :=
  y_mem y' = y_mem y ∧ (∀ j, due_of y' j = due_of y j) ∧ length (y_procs y') = length (y_procs y).

Lemma sema_alike_refl y : alike y y.
Proof. done. Qed.

Lemma alike_trans y1 y2 y3 : alike y1 y2 → alike y2 y3 → alike y1 y3.
Proof. intros (H1 & H2 & H3) (H4 & H5 & H6). split; [congruence | split; [| congruence]]. intros j. by rewrite H5. Qed.

Lemma alike_relinked y y' : relinked y y' → alike y y'.
Proof.
  intros (Hm & _ & Hv). split_and!; [done | |].
  - intros j. unfold due_of. assert ((view <$> y_procs y') !! j = (view <$> y_procs y) !! j) as E by (by rewrite Hv).
    rewrite !list_lookup_fmap in E. destruct (y_procs y' !! j), (y_procs y !! j); cbn in E; try done.
    unfold view in E. by injection E as -> _.
  - apply (f_equal length) in Hv. by rewrite !length_fmap in Hv.
Qed.

Lemma alike_setproc y i p p' : y_procs y !! i = Some p → due (p_pc p') = due (p_pc p) → alike y (setproc i p' y).
Proof.
  intros Hp Hd. unfold alike, setproc, due_of. cbn. split_and!; [done | | by rewrite length_insert].
  intros j. destruct (decide (j = i)) as [->|]; [| by rewrite list_lookup_insert_ne].
  rewrite list_lookup_insert_eq, Hp by (by eapply lookup_lt_Some). done.
Qed.

Lemma alike_setsema y i s : alike y (setsema i s y).
Proof.
  unfold alike, setsema, due_of. cbn. split_and!; [done | | by rewrite length_alter].
  intros j. destruct (decide (j = i)) as [->|]; [| by rewrite list_lookup_alter_ne].
  rewrite list_lookup_alter_eq. by destruct (y_procs y !! i).
Qed.

Lemma alike_goto y i p c : y_procs y !! i = Some p → due c = due (p_pc p) → alike y (goto i c y).
Proof. intros Hp Hd. rewrite (goto_eq _ _ _ _ Hp). by eapply alike_setproc. Qed.

Lemma alike_wakeup y i y' : wakeup i y = Ok y' → alike y y'.
Proof.
  unfold wakeup. intros H. destruct (getsema y i) as [s| |]; try done. cbn in H.
  destruct (s_p s) as [j|]; [| by simplify_eq]. unfold getproc in H.
  destruct (y_procs y !! j) as [p|] eqn:Hp; [| done]. cbn in H. destruct (p_pc p) eqn:Hc; try done. injection H as <-.
  eapply alike_trans; [apply alike_setsema |]. assert (∃ p', y_procs (setsema i (s <| s_p := None |>) y) !! j = Some p' ∧ p_pc p' = p_pc p) as (p' & Hp' & Hpc).
  { unfold setsema. cbn. destruct (decide (j = i)) as [->|].
    - rewrite list_lookup_alter_eq, Hp. by eexists.
    - rewrite list_lookup_alter_ne by done. by exists p. }
  eapply alike_goto; [done |]. by rewrite Hpc, Hc.
Qed.

(** A step without events, and the last of a call. *)
Lemma acts_quiet i y y' : alike y y' → acts i y [] y'.
Proof.
  intros (Hm & Hd & _). split; [by intros | by cbn; rewrite Hd | done |].
  intros a v Hv. exists v. rewrite Hm. split; [done |]. by left.
Qed.

Lemma due_goto y i c j : (i < length (y_procs y))%nat → due_of (goto i c y) j = if decide (j = i) then due c else due_of y j.
Proof.
  intros Hi. unfold due_of, goto. cbn. case_decide as E; [subst j | by rewrite list_lookup_alter_ne].
  rewrite list_lookup_alter_eq. apply lookup_lt_is_Some in Hi as [p ->]. done.
Qed.

Lemma acts_goto i y y1 c :
  alike y y1 → (i < length (y_procs y))%nat → due c = due_of y i → acts i y [] (goto i c y1).
Proof.
  intros (H1 & H2 & H3) Hi Hc. apply acts_quiet. split_and!; [done | |].
  - intros j. rewrite due_goto by lia. case_decide; [by subst | done].
  - unfold goto. cbn. by rewrite length_alter.
Qed.

Lemma acts_leave i y y1 r :
  alike y y1 → (i < length (y_procs y))%nat → next_status i (due_of y i) (Eret i r) = Some Snone →
  acts i y [Eret i r] (goto i (Puser (Some r)) y1).
Proof.
  intros (H1 & H2 & H3) Hi Hr. split.
  - intros j Hj. rewrite due_goto by lia. by rewrite decide_False.
  - rewrite due_goto, decide_True by (done || lia). cbn [statuses]. rewrite Hr. done.
  - by constructor.
  - intros a v Hv. exists v. split; [by rewrite <- H1 in Hv |]. by left.
Qed.

Section Acts.
Context (L : list nat) (y : sys) (i : nat) (p : Proc).
Hypothesis I : inv L y.
Hypothesis Hp : y_procs y !! i = Some p.

Lemma in_range : (i < length (y_procs y))%nat.
Proof. by eapply lookup_lt_Some. Qed.

Lemma due_here : due_of y i = due (p_pc p).
Proof. unfold due_of. by rewrite Hp. Qed.

(** A step that changes the value at [a]. *)
Lemma acts_value c a w es :
  (∀ v, y_mem y !! a = Some v → revalued a es v w) → (∀ b, b ≠ a → taken b es = 0 ∧ added b es = 0) →
  Forall (λ e, who e = i) es → statuses i (due_of y i) es = Some (due c) →
  acts i y es (goto i c (setvalue a w y)).
Proof.
  intros H1 H2 H3 H4. split; [| | done |].
  - intros j Hj. rewrite due_goto by apply in_range. by rewrite decide_False.
  - rewrite due_goto by apply in_range. by rewrite decide_True.
  - intros b v Hv. cbn. destruct (decide (a = b)) as [<-|Hn].
    + exists w. rewrite lookup_insert_eq. auto.
    + exists v. rewrite lookup_insert_ne by done. split; [done |]. left. destruct (H2 b ltac:(done)). auto.
Qed.

Lemma syscall_acts c y' es r : p_pc p = Puser r → syscall i c y = (y', es) → acts i y es y'.
Proof.
  intros Hc H. assert (due_of y i = Snone) as Hd by (rewrite due_here; by rewrite Hc).
  assert (∀ e, leave i (Rerr e) y = (y', es) → acts i y es y') as Hl.
  { intros e [= <- <-]. apply acts_leave; [apply sema_alike_refl | apply in_range |]. rewrite Hd. cbn. by rewrite decide_True. }
  assert (∀ c, due c = Snone → (goto i c y, []) = (y', es) → acts i y es y') as Hg.
  { intros c' Hc' [= <- <-]. apply acts_goto; [apply sema_alike_refl | apply in_range | congruence]. }
  destruct c as [a h|a d]; cbn in H; (destruct (y_mem y !! a); [| by apply Hl in H]);
    case_decide; by first [apply Hl in H | apply Hg in H].
Qed.

Lemma finish_acts y1 o y' es : alike y y1 → y_procs y1 !! i = Some p →
  due (p_pc p) = (match o with Acquired => Stook | _ => Snone end) → finish i o y1 = (y', es) → acts i y es y'.
Proof.
  intros Ha Hp1 Hd H. rewrite (finish_eq _ _ _ _ Hp1) in H. injection H as <- <-.
  assert (setproc i (p <| p_phore := None |> <| p_pc := Puser (Some (answer o)) |>) y1 =
    goto i (Puser (Some (answer o))) (setproc i (p <| p_phore := None |>) y1)) as ->.
  { rewrite (goto_eq _ _ _ _ (getproc_setproc _ _ _ _ Hp1)), setproc_setproc. done. }
  apply acts_leave; [| apply in_range |].
  - eapply alike_trans; [done |]. by eapply alike_setproc.
  - rewrite due_here, Hd. cbn. rewrite decide_True by done. by destruct o.
Qed.

Lemma resume_acts k a n q y' es :
  p_pc p = Pwalk a n q k → resume i k (y <| y_lock := None |>) = (y', es) → acts i y es y'.
Proof.
  intros Hc H. destruct k as [o|v]; cbn [resume] in H.
  - eapply finish_acts; [| | | exact H]; [done | done |]. rewrite Hc. by destruct o.
  - injection H as <- <-. apply acts_leave; [done | apply in_range |]. rewrite due_here, Hc. cbn. by rewrite decide_True.
Qed.

Lemma run_acts ms y' es : run_proc i ms y p = Some (Ok (y', es)) → acts i y es y'.
Proof.
  intros H. pose proof in_range as Hi. pose proof due_here as Hd. unfold run_proc in H.
  pose proof (l_num _ _ _ _ _ (i_local _ _ I _ _ Hp)) as Hnum.
  assert (∀ c, due c = due (p_pc p) → Some (Ok (goto i c y, [])) = Some (Ok (y', es)) → acts i y es y') as Hg.
  { intros c Hc [= <- <-]. apply acts_goto; [apply sema_alike_refl | done | congruence]. }
  destruct (p_pc p) as [|t a h|t a h v|a h|a h|a h|a h|a h|a h|a h|a o|a o|a n k|a n q k|a n j k|a d|a d v] eqn:Hc; try done; cbn in Hd.
  - destruct (value y a) as [v| |]; try done. cbn in H. case_decide; [by apply Hg in H |]. injection H as H.
    assert (∀ c, (goto i c y, []) = (y', es) → due c = Snone → acts i y es y') as Hg'.
    { intros c Hcc Hdc. apply (Hg c); [by rewrite Hdc | by rewrite Hcc]. }
    assert (∀ z, leave i (Rval 0) y = z → z = (y', es) → acts i y es y') as Hl.
    { intros z <- [= <- <-]. apply acts_leave; [apply sema_alike_refl | done |]. rewrite Hd. cbn. by rewrite decide_True. }
    unfold not_acquired in H. destruct t, h; try case_decide; by first [apply Hg' in H | apply Hl in H].
  - unfold value in H. destruct (y_mem y !! a) as [v'|] eqn:Hv; [| done]. cbn in H. case_decide as E; [subst v' | by apply Hg in H].
    destruct (have_value _ _ _ _ I Hp a) as (v0 & Hv0 & Hr); [by rewrite Hc |].
    assert (v0 = v) as -> by congruence. cbn in Hnum.
    destruct t; cbn in H; injection H as <- <-; eapply acts_value; try done.
    all: try (intros w Hw; right; left; cbn; rewrite decide_True by done; rewrite s32_pred by done; split_and!; congruence || lia).
    all: try (intros b Hb; cbn; by rewrite decide_False by done).
    all: try (by repeat constructor).
    all: rewrite Hd; cbn [statuses]; rewrite status_take; cbn [mbind option_bind statuses]; rewrite ?status_ret; done.
  - injection H as <- <-. apply acts_quiet. eapply alike_setproc; [done |]. by rewrite Hc.
  - destruct (locked y); [done |]. injection H as H.
    destruct (semqueue i y) as [y1| |] eqn:E; try done. cbn in H. injection H as <- <-. 
    pose proof (l_phore _ _ _ _ _ (i_local _ _ I _ _ Hp)) as Hf. rewrite Hc in Hf.
    destruct (p_phore p) as [s|] eqn:Hs; [| done].
    destruct (semqueue_ok y L i) as (y2 & E2 & R & _); [by apply I | by apply I | unfold phore; rewrite Hp; cbn; by eexists | |].
    { intros HL. apply (l_listed _ _ _ _ _ (i_local _ _ I _ _ Hp)) in HL. by rewrite Hc in HL. }
    assert (y2 = y1) as -> by congruence. apply acts_goto; [by apply alike_relinked | done | done].
  - destruct (getsema y i); try done. cbn in H. injection H as <- <-. apply acts_goto; [apply alike_setsema | done | done].
  - injection H as <- <-. apply acts_quiet. eapply alike_setproc; [done |]. by rewrite Hc.
  - destruct (getsema y i) as [s| |]; try done. cbn in H. injection H as <- <-. unfold do_sleep.
    destruct (_ || _); apply acts_goto; first [apply sema_alike_refl | apply alike_setsema | done].
  - injection H as <- <-. apply acts_quiet. unfold woken. destruct (p_note _); [eapply alike_setproc; [done |]; by rewrite Hc |].
    destruct h; try case_decide; (eapply alike_setproc; [done |]; by rewrite Hc).
  - destruct (locked y); [done |]. injection H as H.
    destruct (semdequeue i y) as [y1| |] eqn:E; try done. cbn in H. injection H as <- <-.
    assert (i ∈ L) as HL by (apply (l_listed _ _ _ _ _ (i_local _ _ I _ _ Hp)); by rewrite Hc).
    apply list_elem_of_split in HL as (L1 & L2 & ->).
    destruct (semdequeue_ok y L1 L2 i) as (y2 & E2 & R & _); [by apply I | by apply I |].
    assert (y2 = y1) as -> by congruence. apply acts_goto; [by apply alike_relinked | done | rewrite Hd; by destruct o].
  - destruct (getsema y i) as [s| |]; try done. cbn in H. destruct (s_waiting s).
    + assert (finish i o y = (y', es)) as H' by congruence. clear H. rename H' into H. eapply finish_acts; [apply sema_alike_refl | done | | exact H]. rewrite Hc. by destruct o.
    + apply Hg in H; [done |]. by destruct o.
  - destruct (locked y); [done |]. injection H as <- <-. apply acts_goto; [done | done | rewrite Hd; by destruct k as [[]|]].
  - destruct q as [|j]; [injection H as H; by eapply resume_acts |].
    case_decide; [| injection H as H; by eapply resume_acts].
    destruct (getsema y j) as [s| |]; try done. cbn in H. destruct (_ && _); injection H as <- <-;
      (apply acts_goto; [by first [apply alike_setsema | apply sema_alike_refl] | done | rewrite Hd; by destruct k as [[]|]]).
  - destruct (wakeup j y) as [y1| |] eqn:E; try done. cbn in H. destruct (next_of y1 (Nproc j)) as [q| |] eqn:Hq; cbn in Hq; rewrite ?Hq in H; try done.
    cbn in H. injection H as <- <-. apply acts_goto; [by eapply alike_wakeup | done | rewrite Hd; by destruct k as [[]|]].
  - destruct (value y a) as [v| |]; try done. by apply Hg in H.
  - unfold value in H. destruct (y_mem y !! a) as [v'|] eqn:Hv; [| done]. cbn in H. case_decide as E; [subst v' | by apply Hg in H].
    cbn in Hnum. injection H as <- <-. eapply acts_value; try done.
    + intros w Hw. right. right. cbn. rewrite decide_True by done. split_and!; [done | lia |]. f_equal. assert (w = v) by congruence. lia.
    + intros b Hb. cbn. by rewrite decide_False by done.
    + by repeat constructor.
    + rewrite Hd. cbn. by rewrite decide_True.
Qed.
End Acts.

Lemma step_acts L y i l y' es : inv L y → step y i l = Some (Ok (y', es)) → acts i y es y'.
Proof.
  intros I H. unfold step in H. destruct (y_procs y !! i) as [p|] eqn:Hp; [| done]. cbn in H.
  assert (∀ p', due (p_pc p') = due (p_pc p) → acts i y [] (setproc i p' y)) as Hset.
  { intros p' Hd. apply acts_quiet. by eapply alike_setproc. }
  destruct l.
  - destruct (p_pc p) eqn:Hc; try done. injection H as H. by eapply syscall_acts.
  - by eapply run_acts.
  - injection H as H. destruct (postnote i y p) as [y1| |] eqn:E; try done. cbn in H. injection H as <- <-.
    apply acts_quiet. unfold postnote in E. destruct (p_pc p);
      first [apply alike_wakeup in E; eapply alike_trans; [| exact E] | injection E as <-]; by eapply alike_setproc.
  - destruct (p_pc p) eqn:Hc; try done. injection H as <- <-. apply Hset. cbn. by rewrite Hc.
  - destruct (p_armed p); [| done]. injection H as <- <-. by apply Hset.
  - destruct (p_fired p); [done |]. injection H as <- <-. apply Hset. by destruct (p_trend p).
  - destruct (p_late p) as [|n]; [done |]. injection H as H.
    destruct (wakeup i _) as [y1| |] eqn:E; try done. cbn in H. injection H as <- <-.
    apply acts_quiet. eapply alike_trans; [| by eapply alike_wakeup]. by eapply alike_setproc.
Qed.

(** ** Runs *)

Lemma added_nonneg mem n es y a : mem_ok mem → is_Some (mem !! a) → run (init mem n) es y →
  is_Some (y_mem y !! a) ∧ 0 ≤ added a es.
Proof.
  intros Hm Ha H. remember (init mem n) as y0 eqn:E. induction H as [|y es y1 i l es1 y2 Hr IH Hs]; subst; [by split |].
  destruct (IH eq_refl) as [[v Hv] Hn]. destruct (sema_run_inv _ _ _ _ Hm Hr) as [L I].
  destruct (a_mem _ _ _ _ (step_acts _ _ _ _ _ _ I Hs) _ _ Hv) as (v' & Hv' & Hd).
  split; [by eexists |]. rewrite added_app. unfold revalued in Hd. lia.
Qed.

Lemma s32_id v : is_s32 v → s32 v = v.
Proof.
  intros H. unfold s32, signed. ranges. change (2 ^ (32 - 1)) with 2147483648. case_decide; divlia.
Qed.

(** C34: The value of a semaphore is what it was, and what semrelease has added to it, less one for each time it was taken, as long as that does not exceed what a long can hold; it has not been taken more often than it had units to give. *)
Theorem sema_counts mem n es y a v0 :
  mem_ok mem → run (init mem n) es y → mem !! a = Some v0 → 0 ≤ v0 → v0 + added a es < 2 ^ 31 →
  y_mem y !! a = Some (v0 + added a es - taken a es) ∧ 0 ≤ taken a es ≤ v0 + added a es.
Proof.
  intros Hm H Ha H0. remember (init mem n) as y0 eqn:E.
  induction H as [|y es y1 i l es1 y2 Hr IH Hs]; subst; intros Hb.
  { cbn in *. rewrite Ha. split; [f_equal |]; lia. }
  destruct (sema_run_inv _ _ _ _ Hm Hr) as [L I]. pose proof (step_acts _ _ _ _ _ _ I Hs) as A.
  destruct (added_nonneg _ _ _ _ a Hm ltac:(by eexists) Hr) as [[v Hv] Hn].
  destruct (a_mem _ _ _ _ A _ _ Hv) as (v' & Hv' & Hd). rewrite added_app in *. rewrite taken_app.
  destruct IH as [Hv1 Ht]; [done | unfold revalued in Hd; lia |].
  assert (v = v0 + added a es - taken a es) as -> by congruence. rewrite Hv'.
  destruct Hd as [(-> & -> & ->)|[(-> & -> & -> & ?)|(-> & ? & ->)]]; [split; [f_equal |]; lia.. |].
  rewrite s32_id; [split; [f_equal |]; lia |]. ranges. lia.
Qed.

(** C35: What the calls return.  In any run each process takes a semaphore or adds to one at most once between two returns to user mode; semacquire and tsemacquire return 1 if they have taken it, and 0 or an error only if they have not. *)
Theorem sema_answers mem n es y i :
  mem_ok mem → run (init mem n) es y → statuses i Snone es = Some (due_of y i).
Proof.
  intros Hm H. remember (init mem n) as y0 eqn:E. induction H as [|y es y1 j l es1 y2 Hr IH Hs]; subst.
  - unfold due_of. cbn. destruct (replicate n user !! i) as [p|] eqn:Hp; [| done]. by apply lookup_replicate in Hp as [-> _].
  - destruct (sema_run_inv _ _ _ _ Hm Hr) as [L I]. pose proof (step_acts _ _ _ _ _ _ I Hs) as A.
    rewrite statuses_app, IH by done. cbn. destruct (decide (i = j)) as [->|Hij].
    + apply (a_own _ _ _ _ A).
    + rewrite (statuses_other j i) by (done || apply (a_who _ _ _ _ A)). by rewrite (a_other _ _ _ _ A).
Qed.
