(* ===== verification/SemaCase.v ===== *)
(** * SemaCase: particular runs of semaphores

    Runs that show what semaphores do, and two that go wrong: a timer that wakes a phore
    that is gone, and a value that wraps around. *)

From S2P Require Import Prelude Sema SemaInv SemaList SemaStep SemaWait SemaWalk SemaRun SemaCount.

(** ** Particular runs *)

Lemma exec_run y0 es0 y ls y' es : run y0 es0 y → exec y ls = Some (Ok (y', es)) → run y0 (es0 ++ es) y'.
Proof.
  revert es0 y es; induction ls as [|[i l] ls IH]; intros es0 y es H He; cbn [exec] in He.
  - simplify_eq. by rewrite app_nil_r.
  - destruct (step y i l) as [[[y1 es1]| |]|] eqn:Es; try done.
    destruct (exec y1 ls) as [[[y2 es2]| |]|] eqn:E2; try done. cbn in He. simplify_eq.
    rewrite app_assoc. eapply IH; [| done]. by eapply run_snoc.
Qed.

(** Where the steps [ls] lead, and what happens in them. *)
Definition final (mem : gmap Z Z) (n : nat) (ls : list (nat * label)) : sys * list event :=
  match exec (init mem n) ls with Some (Ok r) => r | _ => (init mem n, []) end.

Lemma final_run mem n ls : run (init mem n) (final mem n ls).2 (final mem n ls).1.
Proof.
  unfold final. destruct (exec (init mem n) ls) as [[[y es]| |]|] eqn:E; try apply run_nil.
  by apply (exec_run _ [] (init mem n) ls y es (run_nil _)).
Qed.

(** One semaphore, at 100, of value 0; process 0 waits for it, process 1 releases it. *)
Definition sema0 : gmap Z Z := {[ 100 := 0 ]}.

Definition waits (h : how) (m : nat) : list (nat * label) := (0%nat, Lcall (Csemacquire 100 h)) :: alone_for m 0%nat.
Definition releases (d : Z) (m : nat) : list (nat * label) := (1%nat, Lcall (Csemrelease 100 d)) :: alone_for m 1%nat.

(** Process 0 is asleep, and process 1 has changed the value; or is at the wakeup. *)
Definition added_run : list (nat * label) := waits Block 6 ++ releases 1 2.
Definition waking_run : list (nat * label) := waits Block 6 ++ releases 1 4.

(** Process 0 is woken, takes the semaphore and returns. *)
Definition taken_run : list (nat * label) := waits Block 6 ++ releases 1 6 ++ alone_for 6 0%nat.

Example taken_run_ends : (final sema0 2 taken_run).2 = [Eadd 1 100 1; Eret 1 (Rval 1); Etake 0 100; Eret 0 (Rval 1)].
Proof. vm_compute. reflexivity. Qed.

Lemma sema0_ok : mem_ok sema0.
Proof. apply map_Forall_singleton. ranges. lia. Qed.

Lemma no_lost_wakeup_witness :
  let y := (final sema0 2 added_run).1 in
  ∃ j q, y_procs y !! j = Some q ∧ running (p_pc q) = true ∧
    (0 < credit 100 q ∨ waking_for y 100 (p_pc q)) ∧
    (can_run y j ∨ ∃ l m, y_lock y = Some l ∧ (m ≤ 2 + 2 * length (y_procs y))%nat ∧ gives_up y l m).
Proof.
  cbv zeta. eapply (no_lost_wakeup sema0 2 (final sema0 2 added_run).2 _ 0 _ 100 Block 1).
  - exact sema0_ok.
  - exact (final_run sema0 2 added_run).
  - vm_compute. reflexivity.
  - reflexivity.
  - vm_compute. reflexivity.
  - reflexivity.
Defined.

Lemma sema_safe_witness :
  step (final sema0 2 waking_run).1 1 (Lrun 0) ≠ None ∧
  ∀ r, step (final sema0 2 waking_run).1 1 (Lrun 0) = Some r →
  (∃ y' es', r = Ok (y', es')) ∨ (r = Ub ∧ Lrun 0 = Llate ∧ phore (final sema0 2 waking_run).1 1 = None).
Proof.
  split; [by vm_compute |]. intros r. exact (sema_safe sema0 2 _ _ 1 (Lrun 0) r sema0_ok (final_run sema0 2 waking_run)).
Defined.

Lemma sema_counts_witness :
  y_mem (final sema0 2 taken_run).1 !! 100 = Some 0 ∧
  0 ≤ taken 100 (final sema0 2 taken_run).2 ≤ 1.
Proof.
  exact (sema_counts sema0 2 (final sema0 2 taken_run).2 (final sema0 2 taken_run).1 100 0 sema0_ok
    (final_run sema0 2 taken_run) eq_refl ltac:(done) ltac:(by vm_compute)).
Defined.

Lemma sema_answers_witness : statuses 0 Snone (final sema0 2 taken_run).2 = Some Snone.
Proof. exact (sema_answers sema0 2 (final sema0 2 taken_run).2 (final sema0 2 taken_run).1 0 sema0_ok (final_run sema0 2 taken_run)). Defined.

(** ** What goes wrong *)

(** The timer of a tsemacquire is taken off its list and read [trend]; the process is woken
    by a release, and returns; the wakeup of the timer then uses its phore. *)
Definition late_run : list (nat * label) :=
  waits (Timed 10) 7 ++ [(0%nat, Ltimer); (0%nat, Ltwakeup)] ++ releases 1 6 ++ alone_for 6 0%nat.

Lemma late_wakeup :
  (final sema0 2 late_run).2 = [Eadd 1 100 1; Eret 1 (Rval 1); Etake 0 100; Eret 0 (Rval 1)] ∧
  step (final sema0 2 late_run).1 0 Llate = Some Ub.
Proof. split; vm_compute; reflexivity. Qed.

(** semrelease makes a value negative: from then on every call fails. *)
Lemma release_overflows :
  (final {[ 100 := 1 ]} 2 (releases 0x7FFFFFFF 4 ++ waits Noblock 0)).2 =
    [Eadd 1 100 0x7FFFFFFF; Eret 1 (Rval (-0x80000000)); Eret 0 (Rerr Ebadarg)].
Proof. vm_compute. reflexivity. Qed.
